(* ===== verification/_CoqProject ===== *)
-Q . S2P
Prelude.v
GoText.v
NetAddr.v
Validation.v
Settings.v
GoTime.v
ImageContainers.v
Schema.v
Balance.v
Tags.v
Links.v
Images.v
LedgerOps.v
Service.v
Saves.v
LedgerWorker.v
Throttle.v
RateLimit.v
Totp.v
Crypto.v
Sha512.v
Control.v
ControlInv.v
KeyEnvelope.v
AiTransactions.v
Vault.v
Session.v
ServerAuth.v
ServerAuthInv.v
ServerAuthKeys.v
AuthSessions.v
Passkeys.v
PasskeysInv.v
PasskeysKeys.v
AuthRuns.v
PasskeyRuns.v
Gate.v
Proxy.v
StrictJson.v
CivilDate.v
AiCredentials.v
AuditKeys.v
AiAudit.v
AiGate.v
Reports.v
TagSummary.v
Analysis.v
CsvText.v
CsvGuard.v
CsvLegacy.v
CsvV3.v
AiRequests.v
