(* ===== verification/Prelude.v ===== *)
(** * Omni Money: a verification of the Go backend

    Omni Money is a household ledger. One Go code base serves a desktop application and
    a multi-user server: every user owns an encrypted SQLite ledger (a vault); a small
    control database knows the users and their credentials; an HTTP layer authenticates
    requests and hands each of them a lease on the caller's vault; the core service
    reads and writes the ledger. This library translates the parts of [backend/] that
    decide what is stored and who may act, and proves what they promise.

    ** Conventions

    A Go function that returns [(T, error)] is a function into [res E T]. A method that
    changes the database or a manager is a state-passing function of the monad [stm] (the
    database of the ledger: [op]); [transactional] restores the state when its body
    fails, as [defer tx.Rollback()] does. Integers are [Z]; where the source can overflow,
    the wrap-around of [int64] is written out ([wrap64], [add64], [CheckedAddInt64]).
    Strings are byte strings, decoded rune by rune where the source ranges over them.
    A table is a finite map from its primary key, with its sequence number; the CHECK,
    UNIQUE and FOREIGN KEY constraints, triggers and cascades of the schema are part of
    the statements. Times are nanoseconds since the Unix epoch, milliseconds where the
    store keeps milliseconds; the clock, the random source and the digests are arguments.
    Code with goroutines is a transition system whose steps are the critical sections of
    its mutex, and its theorems hold for every interleaving.

    ** Files

    - [Prelude]: results, the state monad with its weakest-precondition lemmas, sums,
      tactics and hints.
    - [GoText], [GoTime], [CivilDate], [NetAddr]: UTF-8, [strings], [unicode], [strconv],
      [time] (parsing and formatting with their round trips) and [net] (addresses and
      networks) as far as the program uses them.
    - [Crypto], [Sha512]: SHA-256, SHA-512, HMAC and AES-256-GCM, executable and tested on
      published vectors.
    - [Validation], [Settings]: [validation/*.go], [passwordpolicy/policy.go]; amounts,
      names, ledger text and the JSON string lists of the settings table.
    - [ImageContainers], [Images]: [core/image_security.go] and the image operations of
      [core/service.go]; containers, strict Base64, quotas, storage.
    - [Schema]: the ledger tables of [database/database.go] and
      [database/transaction_save_schema.go].
    - [Balance], [Tags], [Links], [LedgerOps], [Service]: [core/service.go] and
      [core/card_reconciliation.go]; running balances, the three-level tag forest, links
      between card and bank transactions, and the three transaction calls.
    - [Reports]: the reads of [core/service.go]; lists, balance histories, image pages,
      image storage usage.
    - [TagSummary], [Analysis]: tag totals and the AI analysis of [core/service.go].
    - [Saves], [LedgerWorker]: [core/transaction_saves.go] and
      [database/transaction_save_worker.go]; the durable queue of saves and its worker.
    - [CsvText], [CsvGuard], [CsvLegacy], [CsvV3]: [core/service_csv_*.go]; [encoding/csv],
      the guards in front of it, import and export of archives of versions 1 and 2, and the
      parser of version 3 with its digest.
    - [Throttle], [RateLimit], [Totp]: [control/login_throttle.go],
      [serverauth/login_throttle.go], [middleware/ratelimit.go], [authn/totp.go].
    - [Control], [ControlInv]: [control/*.go]; users, credentials, invitations, password
      resets and passkeys, and their invariant.
    - [KeyEnvelope]: [keyenvelope/*.go]; vault keys behind passwords, recovery secrets,
      passkeys and the key of the server.
    - [ServerAuth], [ServerAuthInv], [ServerAuthKeys], [AuthSessions], [AuthRuns]:
      [serverauth/service.go], [serverauth/token.go], [serverauth/setup.go]; log-ins, bootstrap,
      invitations, resets, changes of credentials and rights, with account locks, password
      slots and the sessions they end.
    - [Passkeys], [PasskeysInv], [PasskeysKeys], [PasskeyRuns]: [serverauth/passkeys.go],
      [serverauth/passkey_privacy.go]; registration, log-in, re-authentication and decoys.
    - [Vault]: [vault/manager.go]; opening, leasing, draining, restoring and closing vaults.
    - [Session], [Gate]: [middleware/session.go], [middleware/csrf.go] and the order of
      the layers in [api/server_router.go].
    - [Proxy]: [middleware/proxy.go]; trusted proxies, forwarded addresses, allowed hosts,
      redirects and the check of a public listener.
    - [StrictJson], [AiCredentials]: [aicredentials/*.go]; duplicate fields, validation of
      credential files, the reloadable store and authentication.
    - [AuditKeys], [AiAudit], [AiGate]: [audithmac/keyring.go],
      [middleware/ai_failed_auth_audit.go], [middleware/auth.go]; the keyring with its
      rotation, the aggregation of failed authentications, and the gate of the AI listener.
    - [AiTransactions], [AiRequests]: [core/ai_transaction.go], [api/ai_validation.go],
      [api/ai_idempotency.go] and the AI handlers of [api/router.go]; idempotent AI writes
      under a daily quota, and the two operations of the listener from the request to the
      ledger.

    ** What the theorems show

    - Ledger ([Service], [Balance], [Links], [Tags], [Images]): after any sequence of
      calls, failing ones included, every stored balance is the exact sum of its account
      up to its row, and tags, labels, links and images are well formed; a failing call
      leaves no trace; each call stores exactly what was asked.
    - Reads ([Reports], [TagSummary], [Analysis]): lists carry the right tags, a balance
      history shows the closing balances, tag totals are the sums over the subtrees,
      paging visits every row once.
    - Save queue ([Saves], [LedgerWorker], [AiTransactions]): a request is applied at most
      once, the worker stops with nothing left to do and loses no wake-up.
    - Accounts and access ([Control], [Throttle], [RateLimit], [Totp], [Session], [Gate]):
      credentials and one-time tokens are consumed once, guesses are bounded, a revoked
      login is gone, and a request that reaches a handler passed the checks of its route.
    - Key material ([KeyEnvelope], [ServerAuth], [Passkeys] and the files behind them): an
      envelope opens exactly with its own secret, user and vault; a log-in opens the
      caller's own vault; what a refused log-in or the begin of one by address answers does
      not depend on whether the account exists; no sequence of calls loses a vault key, and
      the current password and recovery secret of an account, as its calls set them, open
      it; no call leaks a lock or a password slot, replays a ceremony or leaves a session
      behind a change of credentials.
    - Archives ([CsvLegacy], [CsvV3]): an import appends exactly what the archive says or
      nothing, an exported archive of texts without carriage returns is read back to the
      same rows, and a changed archive of version 3 is refused up to a collision of SHA-256.
    - Uploads ([ImageContainers], [Images]): the container check accepts exactly the files of
      a grammar for each of JPEG, PNG, GIF and WebP, and quotas are exact.
    - Network edge ([Proxy]): a client address cannot be forged, hosts and schemes are those
      configured, and a public listener is never plain HTTP by accident.
    - AI listener ([AiCredentials], [AuditKeys], [AiAudit], [AiGate], [AiRequests]): only a
      credential in force reaches a handler and only within its scopes, accounts, tags,
      period, limits and quota; every request to its paths is audited once, also across a rotation of the
      audit key; the digest of a write identifies it.
    - Vaults ([Vault]): a database is opened once, stays open while a lease lives, and is
      replaced only when nobody uses it.

    ** Fuel

    Loops over a buffer have the length of the buffer as fuel, the queue worker the number
    of its pending rows, the page loops the number of rows, and the fuel errors are proved
    unreachable in the theorems about these functions. The recursions over the tag forest
    have the depth 3 that the schema enforces.

    ** Parameters

    Pixel decoders; Argon2id and HKDF; the WebAuthn library; the JSON of stored requests,
    envelopes, credential files, keyrings and request bodies; [url.Parse], [strings.ToLower]
    outside ASCII and [strings.EqualFold]; the time zone of the process; the order of equal
    elements under [sort.Slice]; and the text the SQLite driver stores for a date are
    arguments. Where a theorem needs something of them it is a named hypothesis or a law
    of a class, with a concrete instance in the theorem's witness.

    ** Not modelled

    Files and processes: snapshots, restore journals and schema validation in [database/],
    [securedb], [secretfile], [fileprivacy], [atrest], [aitransport], [publicassets], the
    permission checks of the setup token, of credential files and of keyrings. The import
    and export statements of CSV version 3, whose parser is modelled. The account migration
    of [desktopaccount], a protocol of directory renames around the key store of the
    operating system. Response headers, cache headers and body limits of [middleware/].
    The HTTP handlers of [api/] other than those of the AI listener, which decode JSON and
    call the service. Configuration from the environment other than that of the proxy and
    the sessions, the entry points under [cmd/], the desktop shell and the JavaScript front
    end. I/O faults of SQLite and cancelled contexts, which abort a transaction and leave
    the state as [transactional] does. Interleavings inside one call of the account
    service: a call of [ServerAuth] or [Passkeys] runs as one step, so that a log-in that
    passed the throttle before another one for the same address failed is not described. *)
From Stdlib Require Import ZArith Lia.
From stdpp Require Import base gmap list strings sorting.

(** * Results of fallible Go calls

    A Go function returning [(T, error)] is a value of [res E T]; the two Go
    results are never both meaningful, so a sum is exact. *)
Inductive res (E A : Type) : Type :=
| Ok (a : A)
| Err (e : E).
Arguments Ok {E A} a.
Arguments Err {E A} e.

#[global] Instance res_ret {E} : MRet (res E) := λ A a, Ok a.
#[global] Instance res_bind {E} : MBind (res E) := λ A B f m,
  match m with Ok a => f a | Err e => Err e end.

(** [if !b { return e }] *)
Definition ensure {E} (b : bool) (e : E) : res E unit := if b then Ok tt else Err e.

Definition is_ok {E A} (r : res E A) : bool := match r with Ok _ => true | Err _ => false end.

(** * State passing with errors

    A Go method that mutates a shared object and may fail is a function of
    [stm S E A]. The state is kept when the call fails, as in the source: a
    partial mutation stays visible unless the caller rolls it back. *)
Definition stm (S E A : Type) : Type := S → res E A * S.

#[global] Instance stm_ret {S E} : MRet (stm S E) := λ A a s, (Ok a, s).
#[global] Instance stm_bind {S E} : MBind (stm S E) := λ A B f m s,
  match m s with
  | (Ok a, s') => f a s'
  | (Err e, s') => (Err e, s')
  end.

Definition fail {S E A} (e : E) : stm S E A := λ s, (Err e, s).
Definition gets {S E A} (f : S → A) : stm S E A := λ s, (Ok (f s), s).
Definition modify {S E} (f : S → S) : stm S E unit := λ s, (Ok tt, f s).
Definition lift {S E A} (r : res E A) : stm S E A := λ s, (r, s).
Definition require {S E} (b : bool) (e : E) : stm S E unit := lift (ensure b e).

(** [for _, x := range l { body }] with early return of the first error. *)
Fixpoint for_each {S E A} (body : A → stm S E unit) (l : list A) : stm S E unit :=
  match l with
  | [] => mret ()
  | x :: l' => body x ;; for_each body l'
  end.

(** [tx := begin(); defer tx.Rollback(); ...; tx.Commit()]: an error anywhere
    in the body restores the state the transaction began with. *)
Definition transactional {S E A} (body : stm S E A) : stm S E A := λ s,
  match body s with
  | (Ok a, s') => (Ok a, s')
  | (Err e, _) => (Err e, s)
  end.

Lemma transactional_rollback {S E A} (body : stm S E A) s e s' :
  transactional body s = (Err e, s') → s' = s.
Proof. unfold transactional. destruct (body s) as [[]?]; congruence. Qed.

Lemma transactional_commit {S E A} (body : stm S E A) s a s' :
  transactional body s = (Ok a, s') ↔ body s = (Ok a, s').
Proof. unfold transactional. destruct (body s) as [[]?]; split; congruence. Qed.

(** Inversion of a successful run: the shape every proof about a handler uses. *)
Lemma bind_Ok_inv {S E A B} (m : stm S E A) (f : A → stm S E B) s b s'' :
  (m ≫= f) s = (Ok b, s'') → ∃ a s', m s = (Ok a, s') ∧ f a s' = (Ok b, s'').
Proof.
  unfold mbind, stm_bind. destruct (m s) as [[a|e] s']; intros H; [eauto|discriminate].
Qed.

Lemma bind_run_Ok {S E A B} (m : stm S E A) (f : A → stm S E B) s a s' :
  m s = (Ok a, s') → (m ≫= f) s = f a s'.
Proof. unfold mbind, stm_bind. by intros ->. Qed.

Lemma res_bind_Ok_inv {E A B} (m : res E A) (f : A → res E B) b :
  m ≫= f = Ok b → ∃ a, m = Ok a ∧ f a = Ok b.
Proof. destruct m; cbn; eauto; discriminate. Qed.

Lemma ensure_Ok {E} (b : bool) (e : E) u : ensure b e = Ok u ↔ b = true.
Proof. unfold ensure. destruct b, u; split; congruence. Qed.

Lemma require_Ok {S E} (b : bool) (e : E) (s : S) u s' :
  require b e s = (Ok u, s') ↔ b = true ∧ s' = s.
Proof. unfold require, lift, ensure. destruct b, u; split; [|intros [??]| |intros [??]]; naive_solver. Qed.

(** Loops and guards. *)
Lemma bind_assoc_run {S E A B C} (m : stm S E A) (f : A → stm S E B) (g : B → stm S E C) s :
  ((m ≫= f) ≫= g) s = (m ≫= λ a, f a ≫= g) s.
Proof. unfold mbind, stm_bind. by destruct (m s) as [[] ?]. Qed.
Lemma for_each_app {S E A} (body : A → stm S E unit) l1 l2 s :
  for_each body (l1 ++ l2) s = (for_each body l1 ;; for_each body l2) s.
Proof.
  revert s. induction l1 as [|x l1 IH]; intros s; [done|].
  cbn. unfold mbind, stm_bind. destruct (body x s) as [[[]|e] s']; [|done].
  specialize (IH s'). unfold mbind, stm_bind in IH. done.
Qed.

Lemma for_each_inv {S E A} (P : S → Prop) (body : A → stm S E unit) l s r s' :
  (∀ x s r s', x ∈ l → P s → body x s = (r, s') → P s') →
  P s → for_each body l s = (r, s') → P s'.
Proof.
  revert s. induction l as [|x l IH]; intros s Hb HP; cbn.
  - intros [= _ <-]. done.
  - unfold mbind, stm_bind. destruct (body x s) as [[[]|e] s1] eqn:E1.
    + apply IH; [|eapply Hb; [left|done|done]]. intros y. intros. eapply Hb; [by right|done|done].
    + intros [= _ <-]. eapply Hb; [left|done|done].
Qed.

(** * Reasoning about successful runs

    [wp m Q s]: when [m] started in [s] succeeds, its result and final state
    satisfy [Q]. The rules below are applied by [wp_auto]. *)
Definition wp {S E A} (m : stm S E A) (Q : A → S → Prop) (s : S) : Prop :=
  match m s with
  | (Ok a, s') => Q a s'
  | (Err _, _) => True
  end.

Section wp.
Context {S E : Type}.
Implicit Types s : S.

Lemma wp_run {A} (m : stm S E A) Q s a s' : wp m Q s → m s = (Ok a, s') → Q a s'.
Proof. unfold wp. intros H Hrun. by rewrite Hrun in H. Qed.

Lemma wp_intro {A} (m : stm S E A) (Q : A → S → Prop) s :
  (∀ a s', m s = (Ok a, s') → Q a s') → wp m Q s.
Proof. unfold wp. intros H. destruct (m s) as [[]?]; auto. Qed.

Lemma wp_mono {A} (m : stm S E A) (Q Q' : A → S → Prop) s :
  wp m Q s → (∀ a s', Q a s' → Q' a s') → wp m Q' s.
Proof. unfold wp. intros H HQ. destruct (m s) as [[]?]; auto. Qed.

Lemma wp_bind {A B} (m : stm S E A) (f : A → stm S E B) Q s :
  wp m (λ a s', wp (f a) Q s') s → wp (m ≫= f) Q s.
Proof. unfold wp, mbind, stm_bind. by destruct (m s) as [[]?]. Qed.

Lemma wp_ret {A} (a : A) (Q : A → S → Prop) s : Q a s → wp (mret a : stm S E A) Q s.
Proof. done. Qed.

Lemma wp_gets {A} (f : S → A) (Q : A → S → Prop) s : Q (f s) s → wp (gets f : stm S E A) Q s.
Proof. done. Qed.

Lemma wp_modify (f : S → S) (Q : unit → S → Prop) s : Q tt (f s) → wp (modify f : stm S E unit) Q s.
Proof. done. Qed.

Lemma wp_fail {A} (e : E) (Q : A → S → Prop) s : wp (fail e : stm S E A) Q s.
Proof. done. Qed.

Lemma wp_lift {A} (r : res E A) (Q : A → S → Prop) s : (∀ a, r = Ok a → Q a s) → wp (lift r) Q s.
Proof. unfold wp, lift. destruct r; auto. Qed.

Lemma wp_require b (e : E) (Q : unit → S → Prop) s : (b = true → Q tt s) → wp (require b e) Q s.
Proof. unfold wp, require, lift, ensure. destruct b; auto. Qed.

Lemma wp_transactional {A} (m : stm S E A) Q s : wp m Q s → wp (transactional m) Q s.
Proof. unfold wp, transactional. by destruct (m s) as [[]?]. Qed.

Lemma wp_for_each {A} (I : S → Prop) (body : A → stm S E unit) l s :
  I s → (∀ x s, x ∈ l → I s → wp (body x) (λ _, I) s) → wp (for_each body l) (λ _, I) s.
Proof.
  intros HI Hb. apply wp_intro. intros a s' Hrun.
  revert s HI Hrun. induction l as [|x l IH]; intros s HI; cbn; [by intros [= _ <-]|].
  intros (u & s1 & H1 & H2)%bind_Ok_inv. eapply IH; [| |done].
  - intros. apply Hb; [by right|done].
  - apply (wp_run (body x) (λ _, I) s u); [apply Hb; [left|done]|done].
Qed.
End wp.

(** One rule per construct of the monad; a [match] or [if] in head position is
    split with its equation. A component adds the rules of its own primitives
    by extending [wp_hook]. *)
Ltac wp_hook := fail.
Ltac wp_core :=
  lazymatch goal with
  | |- wp (_ ≫= _) _ _ => apply wp_bind
  | |- wp (mret _) _ _ => apply wp_ret
  | |- wp (gets _) _ _ => apply wp_gets
  | |- wp (modify _) _ _ => apply wp_modify
  | |- wp (fail _) _ _ => apply wp_fail
  | |- wp (lift _) _ _ => apply wp_lift; intros ? ?
  | |- wp (require _ _) _ _ => apply wp_require; intros ?
  | |- wp (transactional _) _ _ => apply wp_transactional
  | |- wp (match ?x with _ => _ end) _ _ => destruct x eqn:?
  end.
Ltac wp_step := first [wp_core | wp_hook]; cbv beta; unfold id.
Ltac wp_auto := repeat wp_step.

(** Boolean guards as propositions. *)
Ltac split_bools :=
  repeat match goal with
  | H : andb _ _ = true |- _ => apply andb_prop in H as [? ?]
  | H : bool_decide _ = true |- _ => apply bool_decide_eq_true in H
  | H : bool_decide _ = false |- _ => apply bool_decide_eq_false in H
  | H : negb _ = true |- _ => apply negb_true_iff in H
  end.

(** * Sums *)
Open Scope Z_scope.

Definition lsum (l : list Z) : Z := foldr Z.add 0 l.

Lemma lsum_cons x l : lsum (x :: l) = x + lsum l.
Proof. done. Qed.

Lemma lsum_app l1 l2 : lsum (l1 ++ l2) = lsum l1 + lsum l2.
Proof. unfold lsum. induction l1; cbn in *; lia. Qed.

#[global] Instance lsum_perm : Proper ((≡ₚ) ==> eq) lsum.
Proof. unfold lsum. induction 1; cbn in *; try lia. Qed.

Lemma lsum_zero {A} (f : A → Z) l : Forall (λ x, f x = 0) l → lsum (f <$> l) = 0.
Proof. unfold lsum. induction 1; cbn in *; lia. Qed.

Lemma lsum_ext {A} (f g : A → Z) l : Forall (λ x, f x = g x) l → lsum (f <$> l) = lsum (g <$> l).
Proof. unfold lsum. induction 1; cbn in *; lia. Qed.

Lemma lsum_le {A} (f g : A → Z) l : Forall (λ x, f x <= g x) l → lsum (f <$> l) <= lsum (g <$> l).
Proof. unfold lsum. induction 1; cbn in *; lia. Qed.

Lemma lsum_add {A} (f g : A → Z) l : lsum ((λ x, f x + g x) <$> l) = lsum (f <$> l) + lsum (g <$> l).
Proof. unfold lsum. induction l; cbn in *; lia. Qed.

Lemma lsum_swap {A B} (f : A → B → Z) (l : list A) (k : list B) :
  lsum ((λ x, lsum (f x <$> k)) <$> l) = lsum ((λ y, lsum ((λ x, f x y) <$> l)) <$> k).
Proof.
  induction l as [|x l IH].
  - symmetry. apply lsum_zero, Forall_true. done.
  - rewrite fmap_cons, lsum_cons, IH, <- lsum_add. apply lsum_ext, Forall_true. done.
Qed.

Lemma lsum_pick {A} `{!EqDecision A} (a : A) v l :
  NoDup l → a ∈ l → lsum ((λ x, if decide (a = x) then v else 0) <$> l) = v.
Proof.
  induction 1 as [|x l Hx Hl IH]; [by intros ?%not_elem_of_nil|]. rewrite fmap_cons, lsum_cons. intros [->|Hin]%elem_of_cons.
  - rewrite decide_True, lsum_zero; [lia| |done]. apply Forall_forall. intros y Hy. rewrite decide_False; [done|]. by intros ->.
  - rewrite decide_False, IH by (done || by intros ->). lia.
Qed.

(** [SELECT SUM(f) FROM m] *)
Definition msum {A} (f : Z → A → Z) (m : gmap Z A) : Z := lsum (uncurry f <$> map_to_list m).

Lemma msum_empty {A} (f : Z → A → Z) : msum f ∅ = 0.
Proof. unfold msum. by rewrite map_to_list_empty. Qed.

Lemma msum_insert {A} (f : Z → A → Z) m k x : m !! k = None → msum f (<[k := x]> m) = f k x + msum f m.
Proof. intros. unfold msum. by rewrite map_to_list_insert. Qed.

Lemma msum_delete {A} (f : Z → A → Z) m k x : m !! k = Some x → msum f m = f k x + msum f (delete k m).
Proof.
  intros H. rewrite <-(insert_delete_id m k x H) at 1. apply msum_insert, lookup_delete_eq.
Qed.

Lemma msum_ext {A} (f g : Z → A → Z) m :
  (∀ k x, m !! k = Some x → f k x = g k x) → msum f m = msum g m.
Proof.
  intros H. apply lsum_ext, Forall_forall. intros [k x] Hk%elem_of_map_to_list. by apply H.
Qed.

Lemma msum_le {A} (f g : Z → A → Z) m :
  (∀ k x, m !! k = Some x → f k x <= g k x) → msum f m <= msum g m.
Proof.
  intros H. apply lsum_le, Forall_forall. intros [k x] Hk%elem_of_map_to_list. by apply H.
Qed.

Lemma msum_nonneg {A} (f : Z → A → Z) m : (∀ k x, m !! k = Some x → 0 <= f k x) → 0 <= msum f m.
Proof.
  intros H. unfold msum.
  rewrite <-(lsum_zero (λ _ : Z * A, 0) (map_to_list m)) at 1 by by apply Forall_true.
  apply lsum_le, Forall_forall. intros [k x] Hk%elem_of_map_to_list. by apply H.
Qed.

(** Sum over a filtered table: [WHERE P]. *)
Lemma msum_filter {A} (P : Z * A → Prop) `{!∀ x, Decision (P x)} (f : Z → A → Z) (m : gmap Z A) :
  msum f (filter P m) = msum (λ k x, if decide (P (k, x)) then f k x else 0) m.
Proof.
  induction m as [|k x m Hk IH] using map_ind; [by rewrite map_filter_empty, !msum_empty|].
  rewrite (msum_insert _ m) by done. case_decide.
  - rewrite map_filter_insert_True, msum_insert by first [done | by apply map_lookup_filter_None_2; left].
    lia.
  - rewrite map_filter_insert_False, delete_id by done. lia.
Qed.

(** * Counting the bindings of a map that satisfy a predicate *)
Lemma size_filter_fresh `{Countable K} {A} (P : K * A → Prop) `{∀ x, Decision (P x)} (m : gmap K A) k x :
  m !! k = None → Z.of_nat (size (filter P (<[k := x]> m))) = Z.of_nat (size (filter P m)) + Z.b2z (bool_decide (P (k, x))).
Proof.
  intros Hk. case_bool_decide as Hp.
  - rewrite map_filter_insert_True by done. rewrite map_size_insert_None; [cbn [Z.b2z]; lia|]. apply map_lookup_filter_None. naive_solver.
  - rewrite map_filter_insert_False, delete_id by done. cbn [Z.b2z]; lia.
Qed.
Lemma size_filter_update `{Countable K} {A} (P : K * A → Prop) `{∀ x, Decision (P x)} (m : gmap K A) k x y :
  m !! k = Some y →
  Z.of_nat (size (filter P (<[k := x]> m))) + Z.b2z (bool_decide (P (k, y))) = Z.of_nat (size (filter P m)) + Z.b2z (bool_decide (P (k, x))).
Proof.
  intros Hk. assert (delete k m !! k = None) as Hd by apply lookup_delete_eq.
  pose proof (size_filter_fresh P (delete k m) k x Hd) as E1. pose proof (size_filter_fresh P (delete k m) k y Hd) as E2.
  rewrite insert_delete_eq in E1. rewrite insert_delete_id in E2 by done. lia.
Qed.
Lemma size_filter_pos `{Countable K} {A} (P : K * A → Prop) `{∀ x, Decision (P x)} (m : gmap K A) k x :
  m !! k = Some x → P (k, x) → 0 < Z.of_nat (size (filter P m)).
Proof.
  intros Hk Hp. assert (filter P m !! k = Some x) as E by (by apply map_lookup_filter_Some).
  destruct (size (filter P m)) eqn:Es; [|lia]. apply map_size_empty_iff in Es. rewrite Es in E. by rewrite lookup_empty in E.
Qed.

(** * Byte strings in order ([bytes.Compare], BINARY collation) *)
Fixpoint lex_le (a b : list Z) : bool :=
  match a, b with
  | [], _ => true
  | _ :: _, [] => false
  | x :: a', y :: b' => if x <? y then true else if y <? x then false else lex_le a' b'
  end.

Lemma lex_le_refl a : lex_le a a = true.
Proof. induction a as [|x a IH]; cbn; [done|]. by rewrite Z.ltb_irrefl. Qed.
Lemma lex_le_total a b : lex_le a b = true ∨ lex_le b a = true.
Proof.
  revert b. induction a as [|x a IH]; intros [|y b]; cbn; auto. destruct (Z.ltb_spec x y), (Z.ltb_spec y x); auto.
Qed.
Lemma lex_le_antisym a b : lex_le a b = true → lex_le b a = true → a = b.
Proof.
  revert b. induction a as [|x a IH]; intros [|y b]; cbn; try done. destruct (Z.ltb_spec x y), (Z.ltb_spec y x); try done; try lia.
  intros ? ?. f_equal; [lia|by apply IH].
Qed.
Lemma lex_le_trans a b c : lex_le a b = true → lex_le b c = true → lex_le a c = true.
Proof.
  revert b c. induction a as [|x a IH]; intros [|y b] [|z c]; cbn; try done.
  destruct (Z.ltb_spec x y), (Z.ltb_spec y x), (Z.ltb_spec y z), (Z.ltb_spec z y), (Z.ltb_spec x z), (Z.ltb_spec z x); try done; try lia. apply IH.
Qed.
