(* ===== verification/GoText.v ===== *)
(** Go strings: bytes, UTF-8 decoding as [range] and [unicode/utf8] do it, the
    [unicode] classes the program tests, [strings.TrimSpace], [strings.Split]
    and decimal formatting and parsing ([strconv]).

    A Go [string] is a byte sequence, which is what Rocq's [string] is. *)
From Stdlib Require Import ZArith Lia Ascii Wf_nat.
From stdpp Require Import base list strings.
From S2P Require Import Prelude.

Open Scope Z_scope.

(** * Bytes *)
Definition byte_of (a : ascii) : Z := Z.of_N (N_of_ascii a).
Definition ascii_of (b : Z) : ascii := ascii_of_N (Z.to_N b).

Definition bytes (s : string) : list Z := byte_of <$> String.list_ascii_of_string s.
Definition of_bytes (l : list Z) : string := String.string_of_list_ascii (ascii_of <$> l).

(** [len(s)] *)
Definition len (s : string) : Z := Z.of_nat (length (bytes s)).

Lemma ascii_of_byte_of a : ascii_of (byte_of a) = a.
Proof. unfold ascii_of, byte_of. rewrite N2Z.id. apply ascii_N_embedding. Qed.

Lemma byte_of_range a : 0 <= byte_of a < 256.
Proof. unfold byte_of. pose proof (N_ascii_bounded a). lia. Qed.

Lemma byte_of_ascii_of b : 0 <= b < 256 → byte_of (ascii_of b) = b.
Proof. intros. unfold ascii_of, byte_of. rewrite N_ascii_embedding by lia. lia. Qed.

Definition is_byte (b : Z) : Prop := 0 <= b < 256.

Lemma bytes_range s : Forall is_byte (bytes s).
Proof.
  unfold bytes. apply Forall_fmap, Forall_true. intros a. apply byte_of_range.
Qed.

Lemma of_bytes_bytes s : of_bytes (bytes s) = s.
Proof.
  unfold of_bytes, bytes. rewrite <-list_fmap_compose.
  rewrite (list_fmap_ext _ id).
  - rewrite list_fmap_id. apply String.string_of_list_ascii_of_string.
  - intros i a _. apply ascii_of_byte_of.
Qed.

Lemma bytes_of_bytes l : Forall is_byte l → bytes (of_bytes l) = l.
Proof.
  intros Hl. unfold of_bytes, bytes. rewrite String.list_ascii_of_string_of_list_ascii.
  rewrite <-list_fmap_compose. rewrite <-(list_fmap_id l) at 2.
  apply list_fmap_ext. intros i b Hb. apply byte_of_ascii_of.
  by eapply Forall_lookup_1 in Hl.
Qed.

Lemma bytes_inj s1 s2 : bytes s1 = bytes s2 → s1 = s2.
Proof. intros H. rewrite <-(of_bytes_bytes s1), <-(of_bytes_bytes s2). by rewrite H. Qed.

Lemma bytes_app s1 s2 : bytes (s1 +:+ s2) = bytes s1 ++ bytes s2.
Proof.
  induction s1 as [|a s1 IH]; [done|]. unfold bytes in *.
  change (String a s1 +:+ s2) with (String a (s1 +:+ s2)). cbn. by rewrite IH.
Qed.

Lemma len_nonneg s : 0 <= len s.
Proof. unfold len. lia. Qed.

(** * UTF-8 *)
Definition RuneError : Z := 65533.

Definition between (lo hi b : Z) : bool := (lo <=? b) && (b <=? hi).
Definition cont (b : Z) : bool := between 128 191 b.

(** [utf8.DecodeRuneInString]: the rune at the front and its width. An invalid
    or truncated sequence is [(RuneError, 1)]. *)
Definition DecodeRune (l : list Z) : Z * nat :=
  match l with
  | [] => (RuneError, 0%nat)
  | b0 :: l1 =>
    if b0 <? 128 then (b0, 1%nat)
    else if between 194 223 b0 then
      match l1 with
      | b1 :: _ =>
        if cont b1 then ((b0 - 192) * 64 + (b1 - 128), 2%nat) else (RuneError, 1%nat)
      | _ => (RuneError, 1%nat)
      end
    else if between 224 239 b0 then
      match l1 with
      | b1 :: b2 :: _ =>
        if between (if b0 =? 224 then 160 else 128) (if b0 =? 237 then 159 else 191) b1 && cont b2
        then ((b0 - 224) * 4096 + (b1 - 128) * 64 + (b2 - 128), 3%nat)
        else (RuneError, 1%nat)
      | _ => (RuneError, 1%nat)
      end
    else if between 240 244 b0 then
      match l1 with
      | b1 :: b2 :: b3 :: _ =>
        if between (if b0 =? 240 then 144 else 128) (if b0 =? 244 then 143 else 191) b1
           && cont b2 && cont b3
        then ((b0 - 240) * 262144 + (b1 - 128) * 4096 + (b2 - 128) * 64 + (b3 - 128), 4%nat)
        else (RuneError, 1%nat)
      | _ => (RuneError, 1%nat)
      end
    else (RuneError, 1%nat)
  end.

(** [for _, r := range s]: the runes of a string in order, an invalid byte
    yielding [RuneError] and advancing by one. The fuel is the number of bytes,
    which is enough because every rune consumes at least one. *)
Fixpoint runes_fuel (fuel : nat) (l : list Z) : list (Z * nat) :=
  match fuel, l with
  | S fuel', _ :: _ =>
    let rw := DecodeRune l in rw :: runes_fuel fuel' (drop (rw.2) l)
  | _, _ => []
  end.
Definition runes_w (l : list Z) : list (Z * nat) := runes_fuel (length l) l.
Definition runes (s : string) : list Z := (runes_w (bytes s)).*1.

(** A rune decoded with width 1 and value [RuneError] is an invalid byte. *)
Definition invalid_rune (rw : Z * nat) : bool := (rw.1 =? RuneError) && (rw.2 =? 1)%nat.
Definition ValidString (s : string) : bool := forallb (λ rw, negb (invalid_rune rw)) (runes_w (bytes s)).

(** * The [unicode] classes the program uses (Unicode 15, as in Go's tables) *)
Definition in_ranges (rs : list (Z * Z)) (r : Z) : bool := existsb (λ p, between p.1 p.2 r) rs.

(** [unicode.IsControl] *)
Definition IsControl (r : Z) : bool := in_ranges [(0, 31); (127, 159)] r.

(** [unicode.IsSpace] *)
Definition IsSpace (r : Z) : bool :=
  in_ranges [(9, 13); (32, 32); (133, 133); (160, 160); (5760, 5760); (8192, 8202);
             (8232, 8233); (8239, 8239); (8287, 8287); (12288, 12288)] r.

(** [unicode.Cf]: format characters. *)
Definition Cf (r : Z) : bool :=
  in_ranges [(173, 173); (1536, 1541); (1564, 1564); (1757, 1757); (1807, 1807);
             (2192, 2193); (2274, 2274); (6158, 6158); (8203, 8207); (8234, 8238);
             (8288, 8292); (8294, 8303); (65279, 65279); (65529, 65531);
             (69821, 69821); (69837, 69837); (78896, 78911); (113824, 113827);
             (119155, 119162); (917505, 917505); (917536, 917631)] r.

(** [unicode.Bidi_Control] *)
Definition Bidi_Control (r : Z) : bool :=
  in_ranges [(1564, 1564); (8206, 8207); (8234, 8238); (8294, 8297)] r.

(** * [strings.TrimSpace] *)

(** [utf8.RuneStart] *)
Definition RuneStart (b : Z) : bool := negb (cont b).

Definition nth_byte (l : list Z) (i : nat) : Z := default 0 (l !! i).

(** [utf8.DecodeLastRuneInString]: look back at most four bytes for the start of
    a rune that ends exactly at the end of the string. *)
Definition DecodeLastRune (l : list Z) : Z * nat :=
  let n := length l in
  match n with
  | O => (RuneError, 0%nat)
  | S _ =>
    let b := nth_byte l (n - 1) in
    if b <? 128 then (b, 1%nat)
    else
      let from k :=
        let rw := DecodeRune (drop (n - k) l) in
        if (rw.2 =? k)%nat then rw else (RuneError, 1%nat) in
      if (2 <=? n)%nat && RuneStart (nth_byte l (n - 2)) then from 2%nat
      else if (3 <=? n)%nat && RuneStart (nth_byte l (n - 3)) then from 3%nat
      else if (4 <=? n)%nat && RuneStart (nth_byte l (n - 4)) then from 4%nat
      else (RuneError, 1%nat)
  end.

Fixpoint trim_left_fuel (fuel : nat) (l : list Z) : list Z :=
  match fuel with
  | O => l
  | S fuel' =>
    let rw := DecodeRune l in
    if IsSpace (rw.1) then trim_left_fuel fuel' (drop (rw.2) l) else l
  end.

Fixpoint trim_right_fuel (fuel : nat) (l : list Z) : list Z :=
  match fuel with
  | O => l
  | S fuel' =>
    let rw := DecodeLastRune l in
    if IsSpace (rw.1) then trim_right_fuel fuel' (take (length l - rw.2) l) else l
  end.

(** Each removed rune is at least one byte, so the byte count is enough fuel. *)
Definition trim_left (l : list Z) : list Z := trim_left_fuel (length l) l.
Definition trim_right (l : list Z) : list Z := trim_right_fuel (length l) l.
Definition trim_bytes (l : list Z) : list Z := trim_right (trim_left l).
Definition TrimSpace (s : string) : string := of_bytes (trim_bytes (bytes s)).

Lemma RuneError_not_space : IsSpace RuneError = false.
Proof. reflexivity. Qed.

Lemma DecodeRune_nil : DecodeRune [] = (RuneError, 0%nat).
Proof. reflexivity. Qed.

Ltac destruct_bytes l :=
  destruct l as [|? [|? [|? [|? ?]]]].

(** A rune read from a prefix of a string is the rune of the whole string,
    unless the prefix cuts it. *)
Lemma DecodeRune_prefix l k :
  (DecodeRune l).1 ≠ RuneError → DecodeRune (l ++ k) = DecodeRune l.
Proof.
  intros H. destruct_bytes l; unfold DecodeRune in *; cbn [app] in *;
    repeat (case_match; try done); destruct_and?; cbn in *; try done; congruence.
Qed.

Lemma DecodeRune_width_pos l : l ≠ [] → (1 <= (DecodeRune l).2)%nat.
Proof. destruct_bytes l; unfold DecodeRune; intros; repeat case_match; cbn; try done; lia. Qed.

Lemma DecodeRune_width_le l : ((DecodeRune l).2 <= length l)%nat.
Proof. destruct_bytes l; unfold DecodeRune; repeat case_match; cbn; lia. Qed.

Lemma DecodeLastRune_width l : l ≠ [] → (1 <= (DecodeLastRune l).2 <= length l)%nat.
Proof.
  intros Hl. unfold DecodeLastRune.
  destruct (length l) as [|n] eqn:E; [by apply nil_length_inv in E|].
  case_match; [cbn; lia|]. cbv zeta.
  destruct (2 <=? S n)%nat eqn:E2; destruct (3 <=? S n)%nat eqn:E3;
    destruct (4 <=? S n)%nat eqn:E4; rewrite ?Nat.leb_le, ?Nat.leb_gt in *; cbn [andb];
    repeat case_match; cbn [snd]; rewrite ?Nat.eqb_eq in *; try lia.
Qed.

Lemma trim_left_fuel_prefix n l : ∃ k, l = k ++ trim_left_fuel n l.
Proof.
  revert l. induction n as [|n IH]; intros l; cbn; [by exists []|].
  case_match; [|by exists []].
  destruct (IH (drop (DecodeRune l).2 l)) as [k Hk].
  exists (take (DecodeRune l).2 l ++ k). rewrite <-app_assoc, <-Hk. by rewrite take_drop.
Qed.

Lemma trim_right_fuel_suffix n l : ∃ k, l = trim_right_fuel n l ++ k.
Proof.
  revert l. induction n as [|n IH]; intros l; cbn; [exists []; by rewrite app_nil_r|].
  case_match; [|exists []; by rewrite app_nil_r].
  set (m := (length l - (DecodeLastRune l).2)%nat).
  destruct (IH (take m l)) as [k Hk].
  exists (k ++ drop m l). rewrite app_assoc, <-Hk. by rewrite take_drop.
Qed.

Lemma trim_left_fuel_stop n l :
  (length l <= n)%nat → IsSpace (DecodeRune (trim_left_fuel n l)).1 = false.
Proof.
  revert l. induction n as [|n IH]; intros l Hn; cbn.
  - destruct l; [done|cbn in Hn; lia].
  - case_match eqn:E; [|done]. apply IH. rewrite length_drop.
    destruct l as [|b l]; [done|].
    pose proof (DecodeRune_width_pos (b :: l)). cbn [length] in *. enough (1 <= (DecodeRune (b :: l)).2)%nat by lia. naive_solver.
Qed.

Lemma trim_right_fuel_stop n l :
  (length l <= n)%nat → IsSpace (DecodeLastRune (trim_right_fuel n l)).1 = false.
Proof.
  revert l. induction n as [|n IH]; intros l Hn; cbn.
  - destruct l; [done|cbn in Hn; lia].
  - case_match eqn:E; [|done]. apply IH. rewrite length_take.
    destruct l as [|b l]; [done|].
    pose proof (DecodeLastRune_width (b :: l) ltac:(done)). cbn [length] in *. lia.
Qed.

Lemma trim_left_fixed l : IsSpace (DecodeRune l).1 = false → trim_left l = l.
Proof. unfold trim_left. destruct l as [|b l]; [done|]. cbn [length trim_left_fuel]. by intros ->. Qed.

Lemma trim_right_fixed l : IsSpace (DecodeLastRune l).1 = false → trim_right l = l.
Proof. unfold trim_right. destruct l as [|b l]; [done|]. cbn [length trim_right_fuel]. by intros ->. Qed.

Lemma IsSpace_prefix l k :
  IsSpace (DecodeRune l).1 = true → DecodeRune (l ++ k) = DecodeRune l.
Proof. intros H. apply DecodeRune_prefix. intros E. by rewrite E in H. Qed.

Lemma trim_bytes_idemp l : trim_bytes (trim_bytes l) = trim_bytes l.
Proof.
  unfold trim_bytes at 1 3. set (m := trim_left l).
  assert (Hm : IsSpace (DecodeRune m).1 = false) by (apply trim_left_fuel_stop; lia).
  destruct (trim_right_fuel_suffix (length m) m) as [k Hk].
  change (trim_right_fuel (length m) m) with (trim_right m) in Hk.
  unfold trim_bytes. fold m. rewrite (trim_left_fixed (trim_right m)).
  - apply trim_right_fixed. apply trim_right_fuel_stop. lia.
  - destruct (IsSpace (DecodeRune (trim_right m)).1) eqn:E; [|done].
    rewrite Hk, IsSpace_prefix in Hm by done. congruence.
Qed.

(** Trimming removes bytes at the two ends only. *)
Lemma trim_bytes_infix l : ∃ k1 k2, l = k1 ++ trim_bytes l ++ k2.
Proof.
  destruct (trim_left_fuel_prefix (length l) l) as [k1 H1].
  fold (trim_left l) in H1.
  destruct (trim_right_fuel_suffix (length (trim_left l)) (trim_left l)) as [k2 H2].
  fold (trim_right (trim_left l)) in H2. exists k1, k2. unfold trim_bytes. by rewrite <-H2.
Qed.

Lemma trim_bytes_range l : Forall is_byte l → Forall is_byte (trim_bytes l).
Proof.
  intros H. destruct (trim_bytes_infix l) as (k1 & k2 & E). rewrite E in H.
  apply Forall_app in H as [_ H]. by apply Forall_app in H as [H _].
Qed.

Lemma bytes_TrimSpace s : bytes (TrimSpace s) = trim_bytes (bytes s).
Proof. apply bytes_of_bytes, trim_bytes_range, bytes_range. Qed.

Lemma TrimSpace_idemp s : TrimSpace (TrimSpace s) = TrimSpace s.
Proof. unfold TrimSpace at 1. by rewrite bytes_TrimSpace, trim_bytes_idemp. Qed.

(** * [strings.Split] and [strings.Join] on a one-byte separator *)
Fixpoint split_bytes (sep : Z) (l : list Z) : list (list Z) :=
  match l with
  | [] => [[]]
  | b :: l' =>
    if b =? sep then [] :: split_bytes sep l'
    else match split_bytes sep l' with
         | p :: ps => (b :: p) :: ps
         | [] => [[b]]
         end
  end.
Definition Split (s : string) (sep : Z) : list string := of_bytes <$> split_bytes sep (bytes s).

Fixpoint join_bytes (sep : Z) (ps : list (list Z)) : list Z :=
  match ps with
  | [] => []
  | [p] => p
  | p :: ps' => p ++ sep :: join_bytes sep ps'
  end.
Definition Join (ps : list string) (sep : Z) : string := of_bytes (join_bytes sep (bytes <$> ps)).

Lemma split_bytes_nonempty sep l : split_bytes sep l ≠ [].
Proof. destruct l; cbn; repeat case_match; done. Qed.

Lemma split_bytes_nosep sep p : sep ∉ p → split_bytes sep p = [p].
Proof.
  induction p as [|b p IH]; [done|]. intros [H1 H2]%not_elem_of_cons. cbn.
  rewrite IH by done. case_match eqn:E; [|done]. apply Z.eqb_eq in E. congruence.
Qed.

Lemma split_bytes_app sep p l :
  sep ∉ p → split_bytes sep (p ++ sep :: l) = p :: split_bytes sep l.
Proof.
  induction p as [|b p IH]; cbn; [by rewrite Z.eqb_refl|].
  intros [H1 H2]%not_elem_of_cons. rewrite IH by done.
  case_match eqn:E; [apply Z.eqb_eq in E; congruence|done].
Qed.

Lemma split_join_bytes sep ps :
  ps ≠ [] → Forall (λ p, sep ∉ p) ps → split_bytes sep (join_bytes sep ps) = ps.
Proof.
  intros Hne Hps. induction Hps as [|p ps Hp Hps IH]; [done|].
  destruct ps as [|q ps]; [by apply split_bytes_nosep|].
  change (join_bytes sep (p :: q :: ps)) with (p ++ sep :: join_bytes sep (q :: ps)).
  rewrite split_bytes_app by done. by rewrite IH.
Qed.

(** * Valid UTF-8 as a concatenation of rune encodings

    The reasoning principle for text that passed [ValidString]: such a string
    is a concatenation of chunks, each the encoding of exactly one rune, and
    decoding it yields the runes of its chunks. *)
Definition is_chunk (c : list Z) : Prop :=
  c ≠ [] ∧ invalid_rune (DecodeRune c) = false ∧ (DecodeRune c).2 = length c.

Definition valid_bytes (l : list Z) : bool := forallb (λ rw, negb (invalid_rune rw)) (runes_w l).

Lemma ValidString_bytes s : ValidString s = valid_bytes (bytes s).
Proof. reflexivity. Qed.

Lemma DecodeRune_app_valid l k :
  l ≠ [] → invalid_rune (DecodeRune l) = false → DecodeRune (l ++ k) = DecodeRune l.
Proof.
  unfold invalid_rune. intros Hl H. destruct_bytes l; [done|..]; unfold DecodeRune in *; cbn [app] in *;
    repeat (case_match; try done); destruct_and?; cbn in *; try done; congruence.
Qed.

Lemma DecodeRune_take l :
  l ≠ [] → DecodeRune (take (DecodeRune l).2 l) = DecodeRune l.
Proof.
  intros Hl. destruct_bytes l; [done|..]; unfold DecodeRune; cbn [app];
    repeat (case_match; try done); cbn in *; simplify_eq; try done;
    repeat (case_match; try done); congruence.
Qed.

Lemma runes_fuel_enough n m l :
  (length l <= n)%nat → (length l <= m)%nat → runes_fuel n l = runes_fuel m l.
Proof.
  revert m l. induction n as [|n IH]; intros m l Hn Hm.
  - destruct l; [by destruct m|cbn in Hn; lia].
  - destruct l as [|b l]; [by destruct m|]. destruct m as [|m]; [cbn in Hm; lia|].
    cbn [runes_fuel]. f_equal. pose proof (DecodeRune_width_pos (b :: l) ltac:(done)).
    apply IH; rewrite length_drop; cbn [length] in *; lia.
Qed.

Lemma runes_w_unfold l :
  l ≠ [] → runes_w l = DecodeRune l :: runes_w (drop (DecodeRune l).2 l).
Proof.
  intros Hl. unfold runes_w. destruct l as [|b l]; [done|]. cbn [length runes_fuel]. f_equal.
  pose proof (DecodeRune_width_pos (b :: l) ltac:(done)).
  apply runes_fuel_enough; rewrite length_drop; cbn [length] in *; lia.
Qed.

Lemma runes_w_chunk_app c l : is_chunk c → runes_w (c ++ l) = DecodeRune c :: runes_w l.
Proof.
  intros (Hne & Hv & Hw). rewrite runes_w_unfold by by destruct c.
  rewrite DecodeRune_app_valid by done. f_equal. rewrite Hw. by rewrite drop_app_length.
Qed.

Lemma runes_w_concat cs : Forall is_chunk cs → runes_w (concat cs) = DecodeRune <$> cs.
Proof.
  induction 1 as [|c cs Hc Hcs IH]; [done|]. cbn [concat]. rewrite runes_w_chunk_app by done.
  cbn. by rewrite IH.
Qed.

Lemma valid_bytes_concat cs : Forall is_chunk cs → valid_bytes (concat cs) = true.
Proof.
  intros H. unfold valid_bytes. rewrite runes_w_concat by done.
  induction H as [|c cs (_ & Hv & _) _ IH]; [done|]. cbn. by rewrite Hv, IH.
Qed.

Lemma first_is_chunk l :
  l ≠ [] → invalid_rune (DecodeRune l) = false → is_chunk (take (DecodeRune l).2 l).
Proof.
  intros Hl Hv. unfold is_chunk. rewrite DecodeRune_take by done.
  pose proof (DecodeRune_width_pos l Hl). pose proof (DecodeRune_width_le l).
  split; [|split; [done|rewrite length_take; lia]].
  destruct (DecodeRune l).2, l; done || lia.
Qed.

Lemma valid_bytes_split l :
  valid_bytes l = true → ∃ cs, l = concat cs ∧ Forall is_chunk cs.
Proof.
  induction l as [l IH] using (induction_ltof1 _ length). intros Hv.
  destruct (decide (l = [])) as [->|Hl]; [exists []; by split|].
  unfold valid_bytes in Hv. rewrite runes_w_unfold in Hv by done. cbn [forallb] in Hv.
  apply andb_true_iff in Hv as [H1%negb_true_iff H2].
  pose proof (DecodeRune_width_pos l Hl). pose proof (DecodeRune_width_le l).
  destruct (IH (drop (DecodeRune l).2 l)) as (cs & E & Hcs);
    [unfold ltof; rewrite length_drop; lia|done|].
  exists (take (DecodeRune l).2 l :: cs). cbn [concat]. rewrite <-E, take_drop.
  split; [done|]. constructor; [by apply first_is_chunk|done].
Qed.

Lemma valid_bytes_app l k : valid_bytes l = true → valid_bytes k = true → valid_bytes (l ++ k) = true.
Proof.
  intros (cs & -> & Hc)%valid_bytes_split (ds & -> & Hd)%valid_bytes_split.
  rewrite <-concat_app. apply valid_bytes_concat. by apply Forall_app.
Qed.

(** Every ASCII byte is its own chunk, so it is one of the runes. *)
Lemma is_chunk_ascii b : b < 128 → is_chunk [b].
Proof.
  intros Hb. unfold is_chunk, invalid_rune, DecodeRune.
  assert ((b <? 128) = true) as -> by lia. cbn. repeat split; try done.
  unfold RuneError. destruct (b =? 65533) eqn:?; [lia|done].
Qed.

Lemma valid_bytes_ascii l : Forall (λ b, b < 128) l → valid_bytes l = true.
Proof.
  intros H. assert (concat ((λ b, [b]) <$> l) = l) as <-.
  { clear H. induction l as [|b l IH]; [done|]. cbn. by rewrite IH. }
  apply valid_bytes_concat. apply Forall_fmap. eapply Forall_impl; [done|]. apply is_chunk_ascii.
Qed.

(** The bytes of a chunk: one ASCII byte that is the rune, or bytes >= 128. *)
Lemma is_chunk_cases c :
  is_chunk c →
  (∃ b, c = [b] ∧ b < 128 ∧ (DecodeRune c).1 = b) ∨ (Forall (λ b, 128 <= b) c ∧ ¬ (DecodeRune c).1 < 128).
Proof.
  intros (Hne & Hv & Hw). unfold invalid_rune in Hv.
  destruct_bytes c; [done|..]; unfold DecodeRune, between, cont, between, RuneError in *;
    repeat (case_match; try done); cbn in *; destruct_and?; cbn in *; try done; try lia.
  all: try (left; eexists; split; [done|]; split; [lia|done]).
  all: try (destruct l; [|cbn in *; lia]).
  all: right; split; [repeat (apply Forall_cons; split; [lia|]); apply Forall_nil_2|]; cbn; lia.
Qed.

Lemma ascii_byte_is_rune l b :
  valid_bytes l = true → b < 128 → b ∈ l → b ∈ (runes_w l).*1.
Proof.
  intros (cs & -> & Hcs)%valid_bytes_split Hb Hin. rewrite runes_w_concat by done.
  rewrite list_elem_of_fmap. apply list_elem_of_In, in_concat in Hin as (c & Hc%list_elem_of_In & Hbc%list_elem_of_In).
  exists (DecodeRune c).
  split; [|by apply list_elem_of_fmap_2].
  rewrite Forall_forall in Hcs. destruct (is_chunk_cases c (Hcs c Hc)) as [(b' & -> & _ & E)|[H _]].
  - apply list_elem_of_singleton in Hbc as ->. done.
  - rewrite Forall_forall in H. specialize (H b Hbc). lia.
Qed.

(** * Decimal integers ([strconv]) *)
(** [strconv.ParseInt(s, 10, bits)] *)
Definition digits_value (l : list Z) : Z := fold_left (λ a d, 10 * a + (d - 48)) l 0.
Definition ParseUint (l : list Z) : option Z :=
  if bool_decide (l = []) || negb (forallb (between 48 57) l) then None else Some (digits_value l).
Definition ParseInt (s : string) (bits : Z) : option Z :=
  v ← match bytes s with
      | 43 :: l => ParseUint l
      | 45 :: l => Z.opp <$> ParseUint l
      | l => ParseUint l
      end;
  if between (- 2 ^ (bits - 1)) (2 ^ (bits - 1) - 1) v then Some v else None.

(** [strconv.FormatInt(n, 10)] *)
Fixpoint dec_digits (fuel : nat) (n : Z) : list Z :=
  match fuel with
  | O => []
  | S k => if n <? 10 then [48 + n] else dec_digits k (n / 10) ++ [48 + n mod 10]
  end.
Definition dec (n : Z) : list Z := dec_digits (S (Z.to_nat (Z.log2 n))) n.
Definition FormatInt (n : Z) : string := of_bytes (if n <? 0 then 45 :: dec (- n) else dec n).

Lemma digits_value_snoc l d : digits_value (l ++ [d]) = 10 * digits_value l + (d - 48).
Proof. unfold digits_value. by rewrite fold_left_app. Qed.

Lemma dec_digits_spec k n : 0 <= n < 2 ^ Z.of_nat k →
  digits_value (dec_digits k n) = n ∧ forallb (between 48 57) (dec_digits k n) = true ∧ (0 < k → dec_digits k n ≠ [])%nat.
Proof.
  revert n. induction k as [|k IH]; intros n Hn; [cbn in *; split; [lia|split; [done|lia]]|]. cbn [dec_digits].
  destruct (Z.ltb_spec n 10) as [H|H].
  - split; [cbn; lia|]. split; [cbn; unfold between; lia|done].
  - rewrite Nat2Z.inj_succ, Z.pow_succ_r in Hn by lia.
    assert (0 <= n / 10 < 2 ^ Z.of_nat k) as Hq by (split; [apply Z.div_pos; lia|apply Z.div_lt_upper_bound; lia]).
    destruct (IH _ Hq) as (E1 & E2 & _). pose proof (Z.mod_pos_bound n 10 ltac:(lia)). pose proof (Z.div_mod n 10 ltac:(lia)).
    rewrite digits_value_snoc, forallb_app, E1, E2. split; [lia|]. split; [cbn; unfold between; lia|]. intros _. by destruct (dec_digits k (n / 10)).
Qed.
Lemma dec_spec n : 0 <= n → digits_value (dec n) = n ∧ forallb (between 48 57) (dec n) = true ∧ dec n ≠ [].
Proof.
  intros Hn. unfold dec. destruct (dec_digits_spec (S (Z.to_nat (Z.log2 n))) n) as (? & ? & H).
  - split; [done|]. rewrite Nat2Z.inj_succ, Z2Nat.id by apply Z.log2_nonneg.
    destruct (decide (n = 0)) as [->|]; [done|]. pose proof (Z.log2_spec n ltac:(lia)). lia.
  - split; [done|]. split; [done|]. apply H. lia.
Qed.

Lemma ParseUint_dec n : 0 <= n → ParseUint (dec n) = Some n.
Proof.
  intros Hn. destruct (dec_spec n Hn) as (E1 & E2 & E3). unfold ParseUint. by rewrite bool_decide_eq_false_2, E2, E1.
Qed.
Lemma ParseInt_FormatInt n bits : 1 <= bits → - 2 ^ (bits - 1) <= n < 2 ^ (bits - 1) → ParseInt (FormatInt n) bits = Some n.
Proof.
  intros Hb Hn. unfold ParseInt, FormatInt.
  assert (∀ m, 0 <= m → Forall is_byte (dec m)) as Hbytes.
  { intros m Hm. destruct (dec_spec m Hm) as (_ & H & _). apply Forall_forall. intros x Hx. apply Is_true_true in H. rewrite forallb_True, Forall_forall in H.
    specialize (H x Hx). apply Is_true_true in H. unfold is_byte, between in *. lia. }
  assert (between (- 2 ^ (bits - 1)) (2 ^ (bits - 1) - 1) n = true) as Hr by (unfold between; lia).
  destruct (Z.ltb_spec n 0) as [H|H].
  - rewrite bytes_of_bytes by (constructor; [unfold is_byte; lia|apply Hbytes; lia]). rewrite ParseUint_dec by lia. cbn.
    rewrite Z.opp_involutive. by rewrite Hr.
  - rewrite bytes_of_bytes by (apply Hbytes; lia).
    assert (∃ d l, dec n = d :: l ∧ 48 <= d <= 57) as (d & l & E & Hd).
    { destruct (dec_spec n H) as (_ & H2 & H3). destruct (dec n) as [|d l]; [done|]. exists d, l. split; [done|]. cbn in H2. unfold between in H2. lia. }
    pose proof (ParseUint_dec n H) as Hp. rewrite E in *.
    assert (match d :: l with 43 :: l => ParseUint l | 45 :: l => Z.opp <$> ParseUint l | l => ParseUint l end = ParseUint (d :: l)) as ->.
    { destruct d as [|d|d]; [done| |done]. do 6 (destruct d as [d|d|]; try done; try lia). }
    rewrite Hp. cbn. by rewrite Hr.
Qed.

(** Text of visible ASCII characters has nothing to trim. *)
Lemma trim_ascii l : l ≠ [] → Forall (λ b, 33 <= b < 127) l → trim_bytes l = l.
Proof.
  intros Hne Hl. assert (∀ b, 33 <= b < 127 → IsSpace b = false) as Hs.
  { intros b Hb. assert (forallb (λ b, negb (IsSpace b)) (seqZ 33 94) = true) as Hall by (vm_compute; reflexivity).
    apply Is_true_true in Hall. rewrite forallb_True, Forall_forall in Hall. apply negb_true_iff, Is_true_true, Hall, elem_of_seqZ. lia. }
  unfold trim_bytes. rewrite trim_left_fixed.
  - apply trim_right_fixed. destruct (last l) as [b|] eqn:E; [|by apply last_None in E as ->]. apply last_Some in E as [k ->].
    unfold DecodeLastRune. rewrite length_app, Nat.add_1_r. unfold nth_byte. replace (S (length k) - 1)%nat with (length k) by lia.
    rewrite list_lookup_middle by done. cbn [default]. apply Forall_app in Hl as [_ Hl]. inversion_clear Hl.
    unfold id. destruct (Z.ltb_spec b 128); [|lia]. by apply Hs.
  - destruct l as [|b l]; [done|]. inversion_clear Hl. unfold DecodeRune. destruct (Z.ltb_spec b 128); [|lia]. by apply Hs.
Qed.
