(* ===== verification/NetAddr.v ===== *)
(** Internet addresses as Go's [net] package reads and writes them: [ParseIP], [ParseCIDR],
    [IPNet.Contains], [SplitHostPort], [IP.IsLoopback] and [IP.String].

    An address is the byte slice of [net.IP]: 4 bytes, or 16 bytes with the IPv4
    addresses embedded behind [::ffff]. Text is read byte by byte, as the source does. *)
From Stdlib Require Import ZArith Lia.
From stdpp Require Import base list strings.
From S2P Require Import Prelude GoText.
Open Scope Z_scope.

Notation IP := (list Z) (only parsing).

Definition has (b : Z) (l : list Z) : bool := existsb (Z.eqb b) l.
Definition digit (b : Z) : bool := (48 <=? b) && (b <=? 57).
Definition hex_value (b : Z) : option Z :=
  if digit b then Some (b - 48)
  else if (97 <=? b) && (b <=? 102) then Some (b - 87)
  else if (65 <=? b) && (b <=? 70) then Some (b - 55)
  else None.

(** * IPv4 *)
(** [parseIPv4Fields]: the state of the loop is the octet being read ([val], [digLen]), the
    octets done so far, and whether the previous byte was a dot. *)
Fixpoint ipv4_fields (l : list Z) (val : Z) (digLen : nat) (done : list Z) : option (list Z) :=
  match l with
  | [] => if (length done <? 3)%nat then None else Some (done ++ [val])
  | b :: l' =>
    if digit b then
      if (digLen =? 1)%nat && (val =? 0) then None
      else let val' := val * 10 + (b - 48) in
           if 255 <? val' then None else ipv4_fields l' val' (S digLen) done
    else if b =? 46 then
      if (digLen =? 0)%nat || bool_decide (l' = []) then None
      else if (length done =? 3)%nat then None
      else ipv4_fields l' 0 0 (done ++ [val])
    else None
  end.
Definition parseIPv4Fields (l : list Z) : option (list Z) := ipv4_fields l 0 0 [].

(** * IPv6 *)
(** One group of hexadecimal digits: its value, the number of digits and the rest;
    [None] after a fifth digit. *)
Fixpoint hex_group (l : list Z) (off : nat) (acc : Z) : option (Z * nat * list Z) :=
  match l with
  | [] => Some (acc, off, [])
  | b :: l' =>
    match hex_value b with
    | Some d => if (3 <? off)%nat then None else hex_group l' (S off) (acc * 16 + d)
    | None => Some (acc, off, l)
    end
  end.

(** The loop over the groups, on the bytes [ip] written so far and the position of the
    ellipsis; it runs at most eight times. *)
Fixpoint ipv6_groups (n : nat) (s : list Z) (ip : list Z) (ellipsis : option nat) : option (list Z * list Z * option nat) :=
  match n with
  | O => Some (s, ip, ellipsis)
  | S n' =>
    match hex_group s 0 0 with
    | None => None
    | Some (acc, off, rest) =>
      if (off =? 0)%nat then None
      else if bool_decide (head rest = Some 46) then
        if bool_decide (ellipsis = None) && negb (length ip =? 12)%nat then None
        else if (16 <? length ip + 4)%nat then None
        else match parseIPv4Fields s with
             | Some q => Some ([], ip ++ q, ellipsis)
             | None => None
             end
      else
        let ip := ip ++ [acc / 256; acc mod 256] in
        match rest with
        | [] => Some ([], ip, ellipsis)
        | c :: rest' =>
          if negb (c =? 58) then None
          else match rest' with
               | [] => None
               | c' :: rest'' =>
                 if c' =? 58 then
                   if bool_decide (ellipsis = None) then
                     if bool_decide (rest'' = []) then Some ([], ip, Some (length ip))
                     else ipv6_groups n' rest'' ip (Some (length ip))
                   else None
                 else ipv6_groups n' rest' ip ellipsis
               end
        end
    end
  end.

(** The ellipsis is filled with zeros. *)
Definition expand (ip : list Z) (ellipsis : option nat) : option (list Z) :=
  if (length ip <? 16)%nat then
    match ellipsis with
    | None => None
    | Some e => Some (take e ip ++ replicate (16 - length ip) 0 ++ drop e ip)
    end
  else match ellipsis with Some _ => None | None => Some ip end.

Definition parseIPv6 (l : list Z) : option (list Z) :=
  let '(s, ellipsis) := if bool_decide (take 2 l = [58; 58]) then (drop 2 l, Some 0%nat) else (l, None) in
  if bool_decide (ellipsis = Some 0%nat) && bool_decide (s = []) then Some (replicate 16 0)
  else match ipv6_groups 8 s [] ellipsis with
       | Some ([], ip, e) => expand ip e
       | _ => None
       end.

(** [netip.ParseAddr] without zone: the first dot or colon decides the family. *)
Inductive addr := V4 (b : list Z) | V6 (b : list Z).
Fixpoint ParseAddr_from (whole l : list Z) : option addr :=
  match l with
  | [] => None
  | b :: l' =>
    if b =? 46 then V4 <$> parseIPv4Fields whole
    else if b =? 58 then V6 <$> parseIPv6 whole
    else if b =? 37 then None
    else ParseAddr_from whole l'
  end.
(** An address with a zone is refused by the callers in [net]. *)
Definition ParseAddr (l : list Z) : option addr := if has 37 l then None else ParseAddr_from l l.

Definition v4InV6Prefix : list Z := replicate 10 0 ++ [255; 255].
Definition As16 (a : addr) : IP := match a with V4 b => v4InV6Prefix ++ b | V6 b => b end.
Definition BitLen (a : addr) : Z := match a with V4 _ => 32 | V6 _ => 128 end.

Definition ParseIP (s : string) : option IP := As16 <$> ParseAddr (bytes s).

Definition To4 (ip : IP) : option IP :=
  if (length ip =? 4)%nat then Some ip
  else if (length ip =? 16)%nat && bool_decide (take 12 ip = v4InV6Prefix) then Some (drop 12 ip)
  else None.
(** The bytes that identify the address: its IPv4 form if it has one. *)
Definition canon (ip : IP) : IP := default ip (To4 ip).

Definition IPv6loopback : IP := replicate 15 0 ++ [1].
Definition IsLoopback (ip : IP) : bool :=
  match To4 ip with
  | Some ip4 => bool_decide (head ip4 = Some 127)
  | None => bool_decide (ip = IPv6loopback)
  end.

(** * Networks *)
Record IPNet := Net { n_IP : IP; n_Mask : list Z }.

(** [CIDRMask]: the leading [ones] bits set. *)
Definition mask_byte (ones : Z) (i : nat) : Z :=
  let n := ones - 8 * Z.of_nat i in
  if 8 <=? n then 255 else if n <=? 0 then 0 else 256 - 2 ^ (8 - n).
Definition CIDRMask (ones bits : Z) : list Z := mask_byte ones <$> seq 0 (Z.to_nat (bits / 8)).

(** [IP.Mask] *)
Definition masked (ip mask : list Z) : list Z := zip_with Z.land ip mask.
Definition MaskIP (ip : IP) (mask : list Z) : option IP :=
  let mask := if (length mask =? 16)%nat && (length ip =? 4)%nat && bool_decide (take 12 mask = replicate 12 255) then drop 12 mask else mask in
  let ip := if (length mask =? 4)%nat && (length ip =? 16)%nat && bool_decide (take 12 ip = v4InV6Prefix) then drop 12 ip else ip in
  if (length ip =? length mask)%nat then Some (masked ip mask) else None.

(** [dtoi] *)
Fixpoint dtoi_loop (l : list Z) (n : Z) : option (Z * list Z) :=
  match l with
  | [] => Some (n, [])
  | b :: l' =>
    if digit b then let n' := n * 10 + (b - 48) in if 16777215 <=? n' then None else dtoi_loop l' n'
    else Some (n, l)
  end.

(** [ParseCIDR]: the prefix length must be all of the text behind the slash. *)
Fixpoint cut (sep : Z) (l : list Z) : option (list Z * list Z) :=
  match l with
  | [] => None
  | b :: l' => if b =? sep then Some ([], l') else prod_map (cons b) id <$> cut sep l'
  end.
Definition ParseCIDR (s : string) : option (IP * IPNet) :=
  '(addr, mask) ← cut 47 (bytes s);
  a ← ParseAddr addr;
  match mask, dtoi_loop mask 0 with
  | _ :: _, Some (n, []) =>
    if BitLen a <? n then None
    else let m := CIDRMask n (BitLen a) in
         ip ← MaskIP (As16 a) m; Some (As16 a, Net ip m)
  | _, _ => None
  end.

(** [IPMask.Size]: the leading ones of a canonical mask, and its width. *)
Fixpoint byte_ones (k : nat) (v n : Z) : Z * Z :=
  match k with O => (v, n) | S k' => if 128 <=? v then byte_ones k' ((2 * v) mod 256) (n + 1) else (v, n) end.
Fixpoint simpleMaskLength (m : list Z) (n : Z) : option Z :=
  match m with
  | [] => Some n
  | v :: m' =>
    if v =? 255 then simpleMaskLength m' (n + 8)
    else let '(rest, n') := byte_ones 8 v n in
         if (rest =? 0) && forallb (Z.eqb 0) m' then Some n' else None
  end.
Definition Size (m : list Z) : Z * Z :=
  match simpleMaskLength m 0 with Some ones => (ones, 8 * Z.of_nat (length m)) | None => (0, 0) end.

(** [IPNet.Contains] *)
Definition networkNumberAndMask (n : IPNet) : option (IP * list Z) :=
  let ip := canon (n_IP n) in
  if negb ((length ip =? 4)%nat || (length ip =? 16)%nat) then None
  else if (length (n_Mask n) =? 4)%nat then if (length ip =? 4)%nat then Some (ip, n_Mask n) else None
  else if (length (n_Mask n) =? 16)%nat then Some (ip, if (length ip =? 4)%nat then drop 12 (n_Mask n) else n_Mask n)
  else None.
Definition Contains (n : IPNet) (ip : IP) : bool :=
  let '(nn, m) := default ([], []) (networkNumberAndMask n) in
  let ip := canon ip in
  (length ip =? length nn)%nat && bool_decide (masked nn m = masked ip m).

(** * [SplitHostPort] *)
Fixpoint last_index (b : Z) (l : list Z) (i : nat) (found : option nat) : option nat :=
  match l with
  | [] => found
  | c :: l' => last_index b l' (S i) (if c =? b then Some i else found)
  end.
Definition LastIndexByte (l : list Z) (b : Z) : option nat := last_index b l 0 None.
Fixpoint IndexByte (l : list Z) (b : Z) : option nat :=
  match l with [] => None | c :: l' => if c =? b then Some 0%nat else S <$> IndexByte l' b end.

Definition split_host_port (l : list Z) : option (list Z * list Z) :=
  i ← LastIndexByte l 58;
  '(host, j, k) ←
    (if bool_decide (head l = Some 91) then
       stop ← IndexByte l 93;
       if (S stop =? i)%nat then Some (take (stop - 1) (drop 1 l), 1%nat, S stop) else None
     else
       let host := take i l in
       if has 58 host then None else Some (host, 0%nat, 0%nat));
  if has 91 (drop j l) then None
  else if has 93 (drop k l) then None
  else Some (host, drop (S i) l).
Definition SplitHostPort (s : string) : option (string * string) :=
  prod_map of_bytes of_bytes <$> split_host_port (bytes s).

(** * [IP.String] *)
Definition hex_digit (d : Z) : Z := if d <? 10 then 48 + d else 87 + d.
(** [appendHex]: no leading zeros *)
Definition appendHex (x : Z) : list Z :=
  (if 4096 <=? x then [hex_digit (x / 4096)] else []) ++
  (if 256 <=? x then [hex_digit (x / 256 mod 16)] else []) ++
  (if 16 <=? x then [hex_digit (x / 16 mod 16)] else []) ++ [hex_digit (x mod 16)].

(** The 16-bit groups of 16 bytes. *)
Definition group (ip : IP) (i : nat) : Z := 256 * default 0 (ip !! (2 * i)%nat) + default 0 (ip !! S (2 * i)).

(** The zeros that start at group [i]. *)
Fixpoint zeros_from (n : nat) (ip : IP) (i : nat) : nat :=
  match n with O => 0 | S n' => if group ip i =? 0 then S (zeros_from n' ip (S i)) else 0 end.
(** The first longest run of at least two zero groups: start and length. *)
Definition longest_zeros (ip : IP) : option (nat * nat) :=
  foldl (λ best i,
    let l := zeros_from (8 - i) ip i in
    if (2 <=? l)%nat && (match best with Some (_, l') => l' | None => 0 end <? l)%nat then Some (i, l) else best) None (seq 0 8).

(** [appendTo6]: the loop over the groups, jumping over the run of zeros. *)
Fixpoint append6 (n : nat) (ip : IP) (zero : option (nat * nat)) (i : nat) : list Z :=
  match n with
  | O => []
  | S n' =>
    if (8 <=? i)%nat then []
    else if bool_decide (fst <$> zero = Some i) then
      let i' := (i + match zero with Some (_, l) => l | None => 0 end)%nat in
      [58; 58] ++ (if (8 <=? i')%nat then [] else appendHex (group ip i') ++ append6 n' ip zero (S i'))
    else (if (0 <? i)%nat then [58] else []) ++ appendHex (group ip i) ++ append6 n' ip zero (S i)
  end.
Definition string4 (ip : IP) : list Z := join_bytes 46 (bytes ∘ FormatInt <$> ip).
Definition string6 (ip : IP) : list Z := append6 8 ip (longest_zeros ip) 0.
(** [net.IP.String] on the 4- and 16-byte slices [ParseIP] gives. *)
Definition IPString (ip : IP) : string := of_bytes (match To4 ip with Some ip4 => string4 ip4 | None => string6 ip end).

Example ParseIP_demo :
  ParseIP "10.0.0.7" = Some (v4InV6Prefix ++ [10; 0; 0; 7]) ∧ ParseIP "2001:db8::1" = Some ([32; 1; 13; 184] ++ replicate 11 0 ++ [1]) ∧
  ParseIP "::ffff:1.2.3.4" = Some (v4InV6Prefix ++ [1; 2; 3; 4]) ∧ ParseIP "::" = Some (replicate 16 0) ∧
  (ParseIP <$> ["1.2.3"; "01.2.3.4"; "1.2.3.256"; "1::2::3"; "12345::"; "fe80::1%eth0"; "1:2:3:4:5:6:7:8:9"; "1:2:3:4:5:6:7::8"; "::1."; "localhost"; ""]) =
    [None; None; None; None; None; None; None; None; None; None; None].
Proof. by vm_compute. Qed.
Example ParseCIDR_demo :
  (snd <$> ParseCIDR "10.1.2.3/24") = Some (Net [10; 1; 2; 0] [255; 255; 255; 0]) ∧ (snd <$> ParseCIDR "10.1.2.3/33") = None ∧
  (Size ∘ n_Mask ∘ snd <$> ParseCIDR "2001:db8::/61") = Some (61, 128) ∧ (Size ∘ n_Mask ∘ snd <$> ParseCIDR "10.0.0.0/0") = Some (0, 32).
Proof. by vm_compute. Qed.
Example SplitHostPort_demo :
  SplitHostPort "[::1]:80" = Some ("::1", "80") ∧ SplitHostPort "a.b:1" = Some ("a.b", "1") ∧
  (SplitHostPort <$> ["a.b"; "::1"; "[::1]"; "[a]b:1"; "a:b:1"; "[a[:1"; "x]:1"]) = [None; None; None; None; None; None; None].
Proof. by vm_compute. Qed.
Example IPString_demo :
  IPString (v4InV6Prefix ++ [10; 0; 0; 7]) = "10.0.0.7" ∧ (IPString <$> ParseIP "2001:DB8:0:0:1:0:0:1") = Some "2001:db8::1:0:0:1" ∧
  (IPString <$> ParseIP "1:0:2:3:4:5:6:0") = Some "1:0:2:3:4:5:6:0" ∧ (IPString <$> ParseIP "1::") = Some "1::" ∧ (IPString <$> ParseIP "::") = Some "::".
Proof. by vm_compute. Qed.

(** * What the readers give *)
Definition ip_wf (ip : IP) : Prop := length ip = 16%nat ∧ Forall is_byte ip.

Lemma ipv4_fields_wf l : ∀ val digLen done out, is_byte val → (length done <= 3)%nat → Forall is_byte done →
  ipv4_fields l val digLen done = Some out → length out = 4%nat ∧ Forall is_byte out.
Proof.
  induction l as [|b l IH]; intros val digLen out0 out Hv Hl Hd; cbn [ipv4_fields].
  - destruct (Nat.ltb_spec (length out0) 3); [done|]. intros [= <-]. rewrite length_app. cbn [length]. split; [lia|].
    apply Forall_app_2; [done|by constructor].
  - destruct (digit b) eqn:Hb.
    + destruct (_ && _); [done|]. destruct (Z.ltb_spec 255 (val * 10 + (b - 48))); [done|]. apply IH; [|done..].
      unfold digit in Hb. unfold is_byte in *. lia.
    + destruct (b =? 46); [|done]. destruct (_ || _); [done|]. destruct (Nat.eqb_spec (length out0) 3); [done|]. apply IH.
      * unfold is_byte. lia.
      * rewrite length_app. cbn [length]. lia.
      * apply Forall_app_2; [done|by constructor].
Qed.
Lemma parseIPv4Fields_wf l out : parseIPv4Fields l = Some out → length out = 4%nat ∧ Forall is_byte out.
Proof. apply ipv4_fields_wf; [unfold is_byte; lia|cbn; lia|done]. Qed.

Lemma hex_value_range b d : hex_value b = Some d → 0 <= d < 16.
Proof. unfold hex_value, digit. repeat case_match; intros [= <-]; lia. Qed.
Lemma hex_group_range l : ∀ off acc v k rest, (off <= 4)%nat → 0 <= acc < 16 ^ Z.of_nat off → hex_group l off acc = Some (v, k, rest) → 0 <= v < 65536.
Proof.
  induction l as [|b l IH]; intros off acc v k rest Ho Ha; cbn [hex_group].
  - intros [= <- _ _]. pose proof (Z.pow_le_mono_r 16 (Z.of_nat off) 4). lia.
  - destruct (hex_value b) as [d|] eqn:Hd.
    + destruct (Nat.ltb_spec 3 off); [done|]. apply IH; [lia|]. apply hex_value_range in Hd. rewrite Nat2Z.inj_succ, Z.pow_succ_r by lia. lia.
    + intros [= <- _ _]. pose proof (Z.pow_le_mono_r 16 (Z.of_nat off) 4). lia.
Qed.

Lemma ipv6_groups_wf n : ∀ s ip e s' ip' e', Forall is_byte ip → (length ip + 2 * n <= 16)%nat → (∀ k, e = Some k → k <= length ip)%nat →
  ipv6_groups n s ip e = Some (s', ip', e') → Forall is_byte ip' ∧ (length ip' <= 16)%nat ∧ (∀ k, e' = Some k → k <= length ip')%nat.
Proof.
  induction n as [|n IH]; intros s ip e s' ip' e' Hb Hl He; cbn [ipv6_groups]; [intros [= <- <- <-]; split_and!; [done|lia|done]|].
  destruct (hex_group s 0 0) as [[[acc off] rest]|] eqn:Hg; [|done]. apply hex_group_range in Hg; [|lia|cbn; lia].
  destruct (off =? 0)%nat; [done|]. case_bool_decide.
  - destruct (_ && _); [done|]. destruct (Nat.ltb_spec 16 (length ip + 4)); [done|].
    destruct (parseIPv4Fields s) as [q|] eqn:Hq; [|done]. apply parseIPv4Fields_wf in Hq as [Hq1 Hq2]. intros [= <- <- <-].
    rewrite length_app, Hq1. split_and!; [by apply Forall_app_2|lia|]. intros k Hk. apply He in Hk. lia.
  - assert (Forall is_byte (ip ++ [acc / 256; acc mod 256])) as Hb'.
    { apply Forall_app_2; [done|]. pose proof (Z.mod_pos_bound acc 256 ltac:(lia)). pose proof (Z.div_mod acc 256 ltac:(lia)).
      repeat constructor; unfold is_byte; lia. }
    assert (length (ip ++ [acc / 256; acc mod 256]) = (length ip + 2)%nat) as El by (rewrite length_app; cbn; lia).
    revert Hb' El. generalize (ip ++ [acc / 256; acc mod 256]). intros ip1 Hb1 El.
    assert (∀ k, e = Some k → (k <= length ip1)%nat) as He1 by (intros k Hk; apply He in Hk; lia).
    destruct rest as [|c rest]; [intros [= <- <- <-]; split_and!; [done|lia|done]|]. destruct (c =? 58); cbn [negb]; [|done].
    destruct rest as [|c' rest]; [done|]. destruct (c' =? 58).
    + case_bool_decide; [|done]. case_bool_decide.
      * intros [= <- <- <-]. split_and!; [done|lia|]. intros k [= <-]. lia.
      * apply IH; [done|lia|]. intros k [= <-]. lia.
    + apply IH; [done|lia|done].
Qed.
Lemma expand_wf ip e out : Forall is_byte ip → (length ip <= 16)%nat → expand ip e = Some out → length out = 16%nat ∧ Forall is_byte out.
Proof.
  intros Hb Hl. unfold expand. destruct (Nat.ltb_spec (length ip) 16).
  - destruct e as [e|]; [|done]. intros [= <-]. rewrite !length_app, length_take, length_drop, length_replicate. split; [lia|].
    repeat apply Forall_app_2; [by apply Forall_take|apply Forall_replicate; unfold is_byte; lia|by apply Forall_drop].
  - destruct e; [done|]. intros [= <-]. split; [lia|done].
Qed.
Lemma parseIPv6_wf l out : parseIPv6 l = Some out → length out = 16%nat ∧ Forall is_byte out.
Proof.
  unfold parseIPv6. destruct (if bool_decide (take 2 l = [58; 58]) then (drop 2 l, Some 0%nat) else (l, None)) as [s e] eqn:E.
  assert (∀ k, e = Some k → (k <= 0)%nat) as He.
  { intros k ->. case_bool_decide; [by injection E as _ <-|done]. }
  destruct (_ && _).
  - intros [= <-]. split; [done|]. repeat constructor; unfold is_byte; lia.
  - destruct (ipv6_groups 8 s [] e) as [[[s' ip] e']|] eqn:Hg; [|done]. destruct s'; [|done].
    destruct (ipv6_groups_wf 8 s [] e [] ip e') as (? & ? & _); [done|cbn; lia|done|done|]. by apply expand_wf.
Qed.

Lemma ParseAddr_from_wf w l a : ParseAddr_from w l = Some a →
  match a with V4 b => length b = 4%nat ∧ Forall is_byte b | V6 b => length b = 16%nat ∧ Forall is_byte b end.
Proof.
  induction l as [|b l IH]; cbn [ParseAddr_from]; [done|].
  destruct (b =? 46); [intros (q & Hq & ->)%fmap_Some; by apply parseIPv4Fields_wf in Hq|].
  destruct (b =? 58); [intros (q & Hq & ->)%fmap_Some; by apply parseIPv6_wf in Hq|]. by destruct (b =? 37).
Qed.
Lemma As16_wf l a : ParseAddr l = Some a → ip_wf (As16 a).
Proof.
  unfold ParseAddr. destruct (has 37 l); [done|]. intros H%ParseAddr_from_wf. unfold ip_wf. destruct a as [b|b]; [|done].
  cbn [As16]. rewrite length_app. destruct H as [-> Hb]. split; [done|]. apply Forall_app_2; [|done].
  unfold v4InV6Prefix. repeat constructor; unfold is_byte; lia.
Qed.
Lemma ParseIP_wf s ip : ParseIP s = Some ip → ip_wf ip.
Proof. unfold ParseIP. intros (a & H & ->)%fmap_Some. by eapply As16_wf. Qed.

Lemma canon_length ip : ip_wf ip → length (canon ip) = 4%nat ∨ length (canon ip) = 16%nat.
Proof. intros [Hl _]. unfold canon, To4. rewrite Hl. cbn. case_bool_decide; cbn; rewrite ?length_drop; lia. Qed.
Lemma canon_bytes ip : ip_wf ip → Forall is_byte (canon ip).
Proof. intros [Hl Hb]. unfold canon, To4. rewrite Hl. cbn. case_bool_decide; cbn; [by apply Forall_drop|done]. Qed.
(** The canonical bytes identify the address. *)
Lemma canon_inj ip1 ip2 : ip_wf ip1 → ip_wf ip2 → canon ip1 = canon ip2 → ip1 = ip2.
Proof.
  intros [H1 _] [H2 _]. unfold canon, To4. rewrite H1, H2. cbn.
  case_bool_decide as E1; case_bool_decide as E2; cbn; intros E; try done.
  - by rewrite <-(take_drop 12 ip1), <-(take_drop 12 ip2), E1, E2, E.
  - apply (f_equal length) in E. rewrite length_drop in E. lia.
  - apply (f_equal length) in E. rewrite length_drop in E. lia.
Qed.

(** * Networks with at most eight free bits *)
Lemma masked_full ip mask : Forall is_byte ip → length ip = length mask → Forall (λ m, m = 255) mask → masked ip mask = ip.
Proof.
  intros Hip. revert mask. induction Hip as [|b ip Hb Hip IH]; intros [|m mask] Hl Hm; [done..|]. apply Forall_cons_1 in Hm as [-> Hm].
  unfold masked in *. cbn [zip_with]. rewrite IH by (done || by injection Hl). f_equal.
  change 255 with (Z.ones 8). rewrite Z.land_ones by lia. apply Z.mod_small. exact Hb.
Qed.
(** All bytes of the mask but the last are full. *)
Definition narrow (mask : list Z) : Prop := Forall (λ m, m = 255) (take (length mask - 1) mask).

Lemma masked_narrow nn ip mask : Forall is_byte nn → Forall is_byte ip → length nn = length mask → length ip = length mask → narrow mask →
  masked nn mask = masked ip mask → take (length mask - 1) nn = take (length mask - 1) ip.
Proof.
  intros Hn Hi Ln Li Hm E. apply (f_equal (take (length mask - 1))) in E. unfold masked in E. rewrite !zip_with_take in E.
  fold (masked (take (length mask - 1) nn) (take (length mask - 1) mask)) in E.
  fold (masked (take (length mask - 1) ip) (take (length mask - 1) mask)) in E.
  rewrite !masked_full in E; [done|by apply Forall_take|rewrite !length_take; lia|done|by apply Forall_take|rewrite !length_take; lia|done].
Qed.

(** The addresses that share all bytes but the last with [nn]. *)
Definition neighbours (nn : list Z) : list IP := (λ b, take (length nn - 1) nn ++ [b]) <$> seqZ 0 256.
Lemma neighbours_length nn : length (neighbours nn) = 256%nat.
Proof. unfold neighbours. by rewrite length_fmap, length_seqZ. Qed.
Lemma neighbours_elem nn ip : Forall is_byte ip → length ip = length nn → ip ≠ [] → take (length nn - 1) nn = take (length nn - 1) ip → ip ∈ neighbours nn.
Proof.
  intros Hb Hl Hne E. destruct (exists_last Hne) as (l & b & ->). rewrite length_app in Hl. cbn [length] in Hl.
  unfold neighbours. rewrite E. rewrite take_app_length' by lia. apply list_elem_of_fmap. exists b. split; [done|].
  apply elem_of_seqZ. apply Forall_app in Hb as [_ Hb]. apply Forall_cons_1 in Hb as [Hb _]. unfold is_byte in Hb. lia.
Qed.

(** A network as [ParseCIDR] and the single-address case give it. *)
Definition net_wf (n : IPNet) : Prop :=
  Forall is_byte (n_IP n) ∧
  (length (n_Mask n) = 4%nat ∧ length (canon (n_IP n)) = 4%nat ∨ length (n_Mask n) = 16%nat ∧ length (n_IP n) = 16%nat) ∧ narrow (n_Mask n).

Lemma narrow_drop m : length m = 16%nat → narrow m → narrow (drop 12 m).
Proof.
  intros Hl. unfold narrow. rewrite length_drop, Hl. intros H. change (16 - 12 - 1)%nat with 3%nat. change (16 - 1)%nat with 15%nat in H.
  replace (take 3 (drop 12 m)) with (drop 12 (take 15 m)); [by apply Forall_drop|].
  rewrite take_drop_commute. done.
Qed.
Lemma Contains_neighbours n ip : net_wf n → ip_wf ip → Contains n ip = true → canon ip ∈ neighbours (canon (n_IP n)).
Proof.
  intros (Hb & Hm & Hn) Hip. unfold Contains.
  assert (∃ m, networkNumberAndMask n = Some (canon (n_IP n), m) ∧ length m = length (canon (n_IP n)) ∧ narrow m ∧ Forall is_byte (canon (n_IP n)) ∧
    (length (canon (n_IP n)) = 4 ∨ length (canon (n_IP n)) = 16)%nat) as (m & -> & Lm & Nm & Bn & Ln).
  { unfold networkNumberAndMask. destruct Hm as [[Hm Hc]|[Hm Hi]].
    - rewrite Hm, Hc. cbn. exists (n_Mask n). split_and!; try done; [|by left].
      unfold canon, To4. repeat (case_match; cbn [default]); try done; by apply Forall_drop.
    - assert (ip_wf (n_IP n)) as Hw by done. destruct (canon_length _ Hw) as [Hc|Hc]; rewrite Hm, Hc; cbn.
      + exists (drop 12 (n_Mask n)). rewrite length_drop, Hm. split_and!; try done; [by apply narrow_drop|by apply canon_bytes|by left].
      + exists (n_Mask n). split_and!; try done; [by apply canon_bytes|by right]. }
  cbn [default]. intros [El E]%andb_prop. apply Nat.eqb_eq in El. apply bool_decide_eq_true in E.
  apply neighbours_elem; [by apply canon_bytes|done| |].
  - intros E0. rewrite E0 in El. cbn in El. lia.
  - rewrite <-Lm. apply masked_narrow; [done|by apply canon_bytes|lia|lia|done|done].
Qed.

Lemma byte_land b m : is_byte b → is_byte (Z.land b m).
Proof.
  intros Hb. replace (Z.land b m) with ((Z.land b m) mod 256); [unfold is_byte; apply Z.mod_pos_bound; lia|].
  rewrite <-(Z.land_ones _ 8) by lia. rewrite (Z.land_comm b), <-Z.land_assoc, Z.land_ones by lia.
  by rewrite (Z.mod_small b) by exact Hb.
Qed.
Lemma masked_bytes ip m : Forall is_byte ip → Forall is_byte (masked ip m).
Proof.
  intros H. revert m. induction H as [|b ip Hb Hip IH]; intros [|x m]; cbn; [constructor..|]. constructor; [by apply byte_land|apply IH].
Qed.
Lemma dtoi_loop_nonneg l : ∀ n v rest, 0 <= n → dtoi_loop l n = Some (v, rest) → 0 <= v.
Proof.
  induction l as [|b l IH]; intros n v rest Hn; cbn [dtoi_loop]; [by intros [= <- _]|].
  destruct (digit b) eqn:Hd; [|by intros [= <- _]]. destruct (_ <=? _); [done|]. apply IH. unfold digit in Hd. lia.
Qed.

(** The masks of [ParseCIDR]: their size is the length that was read, and the lengths the
    configuration accepts leave at most eight bits free. *)
Lemma mask4_checked : forallb (λ k, bool_decide (Size (CIDRMask k 32) = (k, 32)) &&
    (bool_decide (k < 24) || forallb (Z.eqb 255) (take 3 (CIDRMask k 32)))) (seqZ 0 33) = true.
Proof. by vm_compute. Qed.
Lemma mask6_checked : forallb (λ k, bool_decide (Size (CIDRMask k 128) = (k, 128)) &&
    (bool_decide (k < 120) || forallb (Z.eqb 255) (take 15 (CIDRMask k 128)))) (seqZ 0 129) = true.
Proof. by vm_compute. Qed.
Lemma CIDRMask_length k bits : length (CIDRMask k bits) = Z.to_nat (bits / 8).
Proof. unfold CIDRMask. by rewrite length_fmap, length_seq. Qed.
Lemma checked_at (P : Z → bool) n k : forallb P (seqZ 0 n) = true → 0 <= k < n → P k = true.
Proof. intros H Hk. apply Is_true_true in H. rewrite forallb_True, Forall_forall in H. apply Is_true_true, H, elem_of_seqZ. lia. Qed.
Lemma full_bytes l : forallb (Z.eqb 255) l = true → Forall (λ m, m = 255) l.
Proof. induction l as [|b l IH]; cbn [forallb]; [constructor|]. intros [H1%Z.eqb_eq H2]%andb_prop. constructor; [done|by apply IH]. Qed.
Lemma mask4 k : 0 <= k <= 32 → Size (CIDRMask k 32) = (k, 32) ∧ (24 <= k → narrow (CIDRMask k 32)).
Proof.
  intros Hk. pose proof (checked_at _ _ k mask4_checked ltac:(lia)) as [H1 H2]%andb_prop. apply bool_decide_eq_true in H1. split; [done|]. intros Hn.
  rewrite bool_decide_eq_false_2 in H2 by lia. unfold narrow. rewrite CIDRMask_length. by apply full_bytes.
Qed.
Lemma mask6 k : 0 <= k <= 128 → Size (CIDRMask k 128) = (k, 128) ∧ (120 <= k → narrow (CIDRMask k 128)).
Proof.
  intros Hk. pose proof (checked_at _ _ k mask6_checked ltac:(lia)) as [H1 H2]%andb_prop. apply bool_decide_eq_true in H1. split; [done|]. intros Hn.
  rewrite bool_decide_eq_false_2 in H2 by lia. unfold narrow. rewrite CIDRMask_length. by apply full_bytes.
Qed.

Lemma MaskIP_v4 b m : length b = 4%nat → length m = 4%nat → MaskIP (v4InV6Prefix ++ b) m = Some (masked b m).
Proof.
  intros Hb Hm. unfold MaskIP. rewrite length_app, Hb, Hm. cbn -[v4InV6Prefix]. rewrite (take_app_length' _ _ 12), (drop_app_length' _ _ 12) by done.
  rewrite bool_decide_eq_true_2, Hm by done. change (length v4InV6Prefix) with 12%nat. cbn -[v4InV6Prefix]. by rewrite Hb.
Qed.
Lemma MaskIP_v6 b m : length b = 16%nat → length m = 16%nat → MaskIP b m = Some (masked b m).
Proof. intros Hb Hm. unfold MaskIP. rewrite Hb, Hm. cbn -[v4InV6Prefix]. rewrite Hm. cbn -[v4InV6Prefix]. by rewrite Hb. Qed.

Lemma ParseCIDR_wf s a n ones bits : ParseCIDR s = Some (a, n) → Size (n_Mask n) = (ones, bits) →
  (if bits =? 32 then 24 else 120) <= ones → net_wf n.
Proof.
  unfold ParseCIDR. destruct (cut 47 (bytes s)) as [[l mask]|]; [cbn [mbind option_bind]|done].
  destruct (ParseAddr l) as [ad|] eqn:Ha; [cbn [mbind option_bind]|done]. pose proof (As16_wf _ _ Ha) as [Hl Hb].
  destruct mask as [|m0 mask]; [done|]. destruct (dtoi_loop (m0 :: mask) 0) as [[k [|]]|] eqn:Hk; [|done..].
  apply dtoi_loop_nonneg in Hk; [|lia]. destruct (Z.ltb_spec (BitLen ad) k) as [|Hle]; [done|].
  pose proof Ha as Hf. unfold ParseAddr in Hf. destruct (has 37 l); [done|]. apply ParseAddr_from_wf in Hf.
  destruct ad as [b|b]; destruct Hf as [Lb Bb]; cbn [BitLen As16] in *.
  - rewrite MaskIP_v4 by (rewrite ?CIDRMask_length; done). cbn [mbind option_bind]. intros [= _ <-]. cbn [n_Mask n_IP].
    destruct (mask4 k) as [Es Hn]; [lia|]. rewrite Es. intros [= <- <-] Ho. cbn in Ho.
    assert (length (masked b (CIDRMask k 32)) = 4%nat) as El by (unfold masked; rewrite length_zip_with, CIDRMask_length, Lb; done).
    split_and!; [by apply masked_bytes|left|by apply Hn]. cbn [n_Mask n_IP].
    rewrite CIDRMask_length. unfold canon, To4. rewrite El. done.
  - rewrite MaskIP_v6 by (rewrite ?CIDRMask_length; done). cbn [mbind option_bind]. intros [= _ <-]. cbn [n_Mask n_IP].
    destruct (mask6 k) as [Es Hn]; [lia|]. rewrite Es. intros [= <- <-] Ho. cbn in Ho.
    split_and!; [by apply masked_bytes|right|by apply Hn]; cbn [n_Mask n_IP]. unfold masked. by rewrite length_zip_with, CIDRMask_length, Hl.
Qed.
(** A single address as a network. *)
Lemma single_wf ip : ip_wf ip → net_wf (Net ip (CIDRMask (if bool_decide (To4 ip = None) then 128 else 32) (if bool_decide (To4 ip = None) then 128 else 32))).
Proof.
  intros Hw. pose proof Hw as [Hl Hb]. unfold net_wf. cbn [n_IP n_Mask]. case_bool_decide as E.
  - split_and!; [done|right; by rewrite CIDRMask_length|by apply mask6].
  - split_and!; [done|left|by apply mask4]. rewrite CIDRMask_length. split; [done|]. unfold canon. destruct (To4 ip) as [q|] eqn:Eq; [|done]. cbn.
    unfold To4 in Eq. rewrite Hl in Eq. cbn in Eq. case_bool_decide; [|done]. injection Eq as <-. by rewrite length_drop, Hl.
Qed.

(** * Writing an address and reading it back *)
(** The text of a list of groups, and the bytes they stand for. *)
Definition text (gs : list Z) : list Z := join_bytes 58 (appendHex <$> gs).
Definition gbytes (gs : list Z) : list Z := concat ((λ x, [x / 256; x mod 256]) <$> gs).
Definition u16 (x : Z) : Prop := 0 <= x < 65536.
(** A group ends at the end of the text or at a colon. *)
Definition stops (l : list Z) : Prop := l = [] ∨ ∃ r, l = 58 :: r.

Lemma group_digit_value d : 0 <= d < 16 → hex_value (hex_digit d) = Some d.
Proof. intros H. unfold hex_digit, hex_value, digit. repeat case_match; try lia; f_equal; lia. Qed.
Lemma hex_group_step d l off acc : 0 <= d < 16 → (off <= 3)%nat → hex_group (hex_digit d :: l) off acc = hex_group l (S off) (acc * 16 + d).
Proof. intros Hd Ho. cbn [hex_group]. rewrite group_digit_value by done. destruct (Nat.ltb_spec 3 off); [lia|done]. Qed.
Lemma hex_group_stop l off acc : stops l → hex_group l off acc = Some (acc, off, l).
Proof. by intros [->|[r ->]]. Qed.
Lemma hex_group_append x rest : u16 x → stops rest → ∃ k, hex_group (appendHex x ++ rest) 0 0 = Some (x, S k, rest).
Proof.
  unfold u16. intros Hx Hr. unfold appendHex.
  destruct (Z.leb_spec 4096 x), (Z.leb_spec 256 x), (Z.leb_spec 16 x); try lia; cbn [app];
    rewrite !hex_group_step by (lia || (split; [apply Z.div_pos; lia|apply Z.div_lt_upper_bound; lia]) || (apply Z.mod_pos_bound; lia));
    rewrite hex_group_stop by done; match goal with |- ∃ k, Some (?v, S ?m, _) = _ => exists m; replace v with x; [done|] end;
    Z.div_mod_to_equations; lia.
Qed.
Lemma appendHex_chars x : u16 x → Forall (λ b, 48 <= b <= 57 ∨ 97 <= b <= 102) (appendHex x).
Proof.
  intros Hx. assert (∀ d, 0 <= d < 16 → 48 <= hex_digit d <= 57 ∨ 97 <= hex_digit d <= 102) as Hd.
  { intros d Hd. unfold hex_digit. destruct (Z.ltb_spec d 10); lia. }
  assert (∀ d, 0 <= d < 16 → Forall (λ b, 48 <= b <= 57 ∨ 97 <= b <= 102) [hex_digit d]) as Hs by (intros d H; apply Forall_singleton, Hd, H).
  unfold u16 in Hx. unfold appendHex.
  repeat apply Forall_app_2; [destruct (Z.leb_spec 4096 x)|destruct (Z.leb_spec 256 x)|destruct (Z.leb_spec 16 x)|]; try apply Forall_nil_2; apply Hs;
    Z.div_mod_to_equations; lia.
Qed.
Lemma appendHex_ne x : appendHex x ≠ [].
Proof. unfold appendHex. repeat case_match; done. Qed.
Lemma text_cons x gs : text (x :: gs) = appendHex x ++ (if bool_decide (gs = []) then [] else 58 :: text gs).
Proof. unfold text. destruct gs as [|y gs]; cbn [fmap list_fmap join_bytes]; [by rewrite app_nil_r|]. done. Qed.
Lemma text_head x gs : u16 x → ∃ c l, text (x :: gs) = c :: l ∧ c ≠ 58 ∧ c ≠ 46.
Proof.
  intros Hx. rewrite text_cons. pose proof (appendHex_chars x Hx) as Hc. pose proof (appendHex_ne x).
  destruct (appendHex x) as [|c l]; [done|]. apply Forall_cons_1 in Hc as [Hc _]. eexists _, _. split; [cbn; reflexivity|]. lia.
Qed.

Lemma groups_text gs : ∀ n ip e, gs ≠ [] → (length gs <= n)%nat → Forall u16 gs → ipv6_groups n (text gs) ip e = Some ([], ip ++ gbytes gs, e).
Proof.
  induction gs as [|x gs IH]; intros n ip e Hne Hn Hu; [done|]. destruct n as [|n]; [cbn in Hn; lia|]. apply Forall_cons_1 in Hu as [Hx Hu].
  rewrite text_cons. cbn [ipv6_groups]. case_bool_decide as Hg.
  - subst gs. destruct (hex_group_append x [] Hx) as [k ->]; [by left|]. cbn. done.
  - destruct (hex_group_append x (58 :: text gs) Hx) as [k ->]; [right; by eexists|]. cbn [Nat.eqb head].
    rewrite bool_decide_eq_false_2 by done. destruct gs as [|y gs]; [done|]. pose proof Hu as Hu'. apply Forall_cons_1 in Hu' as [Hy _].
    destruct (text_head y gs Hy) as (c & l & E & Hc & _). rewrite E. cbn [Z.eqb negb]. rewrite (proj2 (Z.eqb_neq c 58)) by done. cbn -[text ipv6_groups gbytes].
    rewrite <-E, IH by (done || cbn in *; lia). unfold gbytes. cbn. by rewrite <-!app_assoc.
Qed.
Lemma groups_gap gs hs : ∀ n ip, gs ≠ [] → (length gs + length hs <= n)%nat → Forall u16 gs → Forall u16 hs →
  ipv6_groups n (text gs ++ 58 :: 58 :: text hs) ip None = Some ([], ip ++ gbytes gs ++ gbytes hs, Some (length (ip ++ gbytes gs))).
Proof.
  induction gs as [|x gs IH]; intros n ip Hne Hn Hu Hh; [done|]. destruct n as [|n]; [cbn in Hn; lia|]. apply Forall_cons_1 in Hu as [Hx Hu].
  rewrite text_cons. cbn [ipv6_groups]. case_bool_decide as Hg.
  - subst gs. rewrite app_nil_r. destruct (hex_group_append x (58 :: 58 :: text hs) Hx) as [k ->]; [right; by eexists|]. cbn [Nat.eqb head].
    rewrite bool_decide_eq_false_2 by done. cbn [Z.eqb negb]. destruct hs as [|h hs].
    + cbn. unfold gbytes. cbn. done.
    + rewrite (bool_decide_eq_false_2 (text (h :: hs) = [])).
      2: { pose proof Hh as Hh'. apply Forall_cons_1 in Hh' as [Hh' _]. by destruct (text_head h hs Hh') as (? & ? & -> & _). }
      cbn -[text ipv6_groups gbytes]. rewrite groups_text by (done || cbn in *; lia). unfold gbytes. cbn. by rewrite <-!app_assoc.
  - rewrite <-app_assoc. cbn [app]. destruct (hex_group_append x (58 :: text gs ++ 58 :: 58 :: text hs) Hx) as [k ->]; [right; by eexists|]. cbn [Nat.eqb head].
    rewrite bool_decide_eq_false_2 by done. destruct gs as [|y gs]; [done|]. pose proof Hu as Hu'. apply Forall_cons_1 in Hu' as [Hy _].
    destruct (text_head y gs Hy) as (c & l & E & Hc & _). rewrite E. cbn [Z.eqb negb app]. rewrite (proj2 (Z.eqb_neq c 58)) by done. cbn -[text ipv6_groups gbytes].
    change (c :: l ++ 58 :: 58 :: text hs) with ((c :: l) ++ 58 :: 58 :: text hs).
    rewrite <-E, IH by (done || cbn in *; lia). unfold gbytes. cbn. by rewrite <-!app_assoc.
Qed.

(** The groups of an address. *)
Definition groups (ip : IP) : list Z := group ip <$> seq 0 8.

Lemma zeros_from_spec n ip : ∀ i, (zeros_from n ip i <= n)%nat ∧ ∀ j, (j < zeros_from n ip i)%nat → group ip (i + j) = 0.
Proof.
  induction n as [|n IH]; intros i; cbn [zeros_from]; [split; [lia|intros; lia]|].
  destruct (Z.eqb_spec (group ip i) 0) as [E|E]; [|split; [lia|intros; lia]]. destruct (IH (S i)) as [H1 H2]. split; [lia|].
  intros [|j] Hj; [by rewrite Nat.add_0_r|]. replace (i + S j)%nat with (S i + j)%nat by lia. apply H2. lia.
Qed.
Definition zero_run (ip : IP) (best : option (nat * nat)) : Prop :=
  ∀ s l, best = Some (s, l) → (1 <= l)%nat ∧ (s + l <= 8)%nat ∧ ∀ j, (j < l)%nat → group ip (s + j) = 0.
Lemma longest_zeros_run ip : zero_run ip (longest_zeros ip).
Proof.
  unfold longest_zeros. assert (Forall (λ i, i <= 8)%nat (seq 0 8)) as Hi by (repeat constructor; lia).
  assert (zero_run ip None) as Hn by done. revert Hi Hn. generalize (seq 0 8) (@None (nat * nat)). intros ns. induction ns as [|i ns IH]; intros best Hi Hb; cbn [foldl]; [done|].
  apply Forall_cons_1 in Hi as [Hi His]. apply IH; [done|]. destruct (_ && _) eqn:E; [|done]. intros s l [= <- <-].
  destruct (zeros_from_spec (8 - i) ip i) as [H1 H2]. apply andb_prop in E as [E _]. apply Nat.leb_le in E. split_and!; [lia|lia|done].
Qed.

(** [string6] is the text of the groups before and behind the run of zeros. *)
Lemma string6_text ip :
  string6 ip = match longest_zeros ip with
               | None => text (groups ip)
               | Some (s, l) => text (take s (groups ip)) ++ 58 :: 58 :: text (drop (s + l) (groups ip))
               end.
Proof.
  unfold string6. pose proof (longest_zeros_run ip) as Hz. destruct (longest_zeros ip) as [[s l]|].
  - destruct (Hz s l eq_refl) as (H1 & H2 & _). clear Hz. unfold groups.
    assert ((s, l) ∈ list_prod (seq 0 8) (seq 1 8)) as Hin by (apply list_elem_of_In, in_prod; apply in_seq; lia).
    cbn in Hin. repeat (apply elem_of_cons in Hin as [[= -> ->]|Hin]; [first [lia|cbn -[group appendHex]; repeat first [rewrite <-app_assoc|progress cbn [app]]; by rewrite ?app_nil_r]|]).
    by apply elem_of_nil in Hin.
  - unfold text, groups. cbn -[group appendHex]. by rewrite ?app_nil_r.
Qed.

Lemma groups_length ip : length (groups ip) = 8%nat.
Proof. done. Qed.
Lemma group_u16 ip i : Forall is_byte ip → u16 (group ip i).
Proof.
  intros Hb. assert (∀ k, is_byte (default 0 (ip !! k))) as Hk.
  { intros k. destruct (ip !! k) as [b|] eqn:E; cbn; [by eapply Forall_lookup_1|unfold is_byte; lia]. }
  unfold group, u16. pose proof (Hk (2 * i)%nat). pose proof (Hk (S (2 * i))). unfold is_byte in *. lia.
Qed.
Lemma groups_u16 ip : Forall is_byte ip → Forall u16 (groups ip).
Proof. intros Hb. apply Forall_fmap, Forall_true. intros i. by apply group_u16. Qed.
Lemma gbytes_groups ip : ip_wf ip → gbytes (groups ip) = ip.
Proof.
  intros [Hl Hb]. do 16 (destruct ip as [|? ip]; [done|]). destruct ip; [|done]. repeat (apply Forall_cons_1 in Hb as [? Hb]). unfold is_byte in *.
  unfold gbytes, groups, group. cbn -[Z.mul Z.add Z.div Z.modulo]. repeat f_equal; Z.div_mod_to_equations; lia.
Qed.
Lemma gbytes_app gs hs : gbytes (gs ++ hs) = gbytes gs ++ gbytes hs.
Proof. unfold gbytes. by rewrite fmap_app, concat_app. Qed.
Lemma gbytes_length gs : length (gbytes gs) = (2 * length gs)%nat.
Proof. unfold gbytes. induction gs as [|x gs IH]; [done|]. cbn in *. lia. Qed.
Lemma gbytes_zeros l : gbytes (replicate l 0) = replicate (2 * l) 0.
Proof. induction l as [|l IH]; [done|]. replace (2 * S l)%nat with (S (S (2 * l))) by lia. cbn [replicate]. rewrite <-IH. done. Qed.

(** The groups around a run of zeros, with as many zeros between them. *)
Lemma groups_zero_run ip s l : (s + l <= 8)%nat → (∀ j, (j < l)%nat → group ip (s + j) = 0) →
  groups ip = take s (groups ip) ++ replicate l 0 ++ drop (s + l) (groups ip).
Proof.
  intros Hsl Hz. rewrite <-(take_drop s (groups ip)) at 1. f_equal. rewrite <-(take_drop l (drop s (groups ip))), drop_drop. f_equal.
  apply list_eq. intros j. destruct (decide (j < l)%nat) as [Hj|Hj].
  - rewrite lookup_take_lt, lookup_drop, lookup_replicate_2 by lia. unfold groups. rewrite list_lookup_fmap, lookup_seq_lt by lia. cbn. by rewrite Hz.
  - rewrite lookup_take_ge by lia. symmetry. apply lookup_ge_None. rewrite length_replicate. lia.
Qed.

Lemma parse_string6 ip : ip_wf ip → parseIPv6 (string6 ip) = Some ip.
Proof.
  intros Hw. pose proof Hw as [Hl Hb]. rewrite string6_text. pose proof (longest_zeros_run ip) as Hz. pose proof (groups_u16 ip Hb) as Hu.
  pose proof (gbytes_groups ip Hw) as Eg. unfold parseIPv6. destruct (longest_zeros ip) as [[s l]|].
  - destruct (Hz s l eq_refl) as (H1 & H2 & H3). pose proof (groups_zero_run ip s l H2 H3) as Er.
    assert (Forall u16 (drop (s + l) (groups ip)) ∧ Forall u16 (take s (groups ip))) as [Ud Ut] by (split; [by apply Forall_drop|by apply Forall_take]).
    assert (length (gbytes (drop (s + l) (groups ip))) = 16 - 2 * (s + l))%nat as Ld by (rewrite gbytes_length, length_drop, groups_length; lia).
    assert (length (gbytes (take s (groups ip))) = 2 * s)%nat as Lt by (rewrite gbytes_length, length_take, groups_length; lia).
    rewrite Er, !gbytes_app, gbytes_zeros in Eg. destruct s as [|s].
    + change (take 0 (groups ip)) with (@nil Z) in *. change (text []) with (@nil Z). change (gbytes []) with (@nil Z) in Eg. cbn [app] in *. rewrite bool_decide_eq_true_2 by done. rewrite !skipn_cons, drop_0.
      rewrite (bool_decide_eq_true_2 (Some 0%nat = Some 0%nat)) by done. cbn [andb]. destruct (drop (0 + l) (groups ip)) as [|g gs] eqn:Ed.
      * rewrite bool_decide_eq_true_2 by done. f_equal. rewrite <-Eg. cbn in Ld. replace (2 * l)%nat with 16%nat by lia. done.
      * rewrite bool_decide_eq_false_2.
        2: { apply Forall_cons_1 in Ud as [Ug _]. by destruct (text_head g gs Ug) as (? & ? & -> & _). }
        rewrite groups_text; [|done| |done].
        2: { apply (f_equal length) in Ed. rewrite length_drop, groups_length in Ed. lia. }
        cbn [app]. unfold expand. rewrite Ld. destruct (Nat.ltb_spec (16 - 2 * (0 + l)) 16); [|lia]. rewrite take_0, drop_0. cbn [app].
        f_equal. etrans; [|exact Eg]. f_equal. f_equal. lia.
    + destruct (take (S s) (groups ip)) as [|g gs] eqn:Et; [done|]. pose proof Ut as Ut'. apply Forall_cons_1 in Ut' as [Ug _].
      destruct (text_head g gs Ug) as (c & r & Ec & Hc & _). rewrite bool_decide_eq_false_2 by (rewrite Ec; cbn; congruence).
      rewrite (bool_decide_eq_false_2 (None = Some 0%nat)) by done. cbn [andb].
      rewrite groups_gap; [|done| |done|done].
      2: { rewrite <-Et, length_take, length_drop, groups_length. lia. }
      cbn [app]. unfold expand. rewrite length_app, Ld, Lt. destruct (Nat.ltb_spec (2 * S s + (16 - 2 * (S s + l))) 16); [|lia].
      rewrite take_app_length', drop_app_length' by done. f_equal. etrans; [|exact Eg]. f_equal. f_equal. f_equal. lia.
  - destruct (groups ip) as [|g gs] eqn:E; [done|]. pose proof Hu as Hu'. apply Forall_cons_1 in Hu' as [Ug _].
    destruct (text_head g gs Ug) as (c & r & Ec & Hc & _). rewrite bool_decide_eq_false_2 by (rewrite Ec; cbn; congruence).
    rewrite (bool_decide_eq_false_2 (None = Some 0%nat)) by done. cbn [andb].
    rewrite groups_text; [|done|rewrite <-E; by rewrite groups_length|done]. cbn [app]. unfold expand. rewrite Eg, Hl. done.
Qed.

(** Dotted decimals. *)
Lemma dec_octet_checked : forallb (λ v, bool_decide (dec v =
   if v <? 10 then [48 + v] else if v <? 100 then [48 + v / 10; 48 + v mod 10] else [48 + v / 100; 48 + v / 10 mod 10; 48 + v mod 10])) (seqZ 0 256) = true.
Proof. by vm_compute. Qed.
Lemma ipv4_step d l val k acc : 0 <= d < 10 → (k = 1%nat → val ≠ 0) → val * 10 + d <= 255 →
  ipv4_fields ((48 + d) :: l) val k acc = ipv4_fields l (val * 10 + d) (S k) acc.
Proof.
  intros Hd Hk Hv. cbn [ipv4_fields]. assert (digit (48 + d) = true) as -> by (unfold digit; lia).
  destruct (Nat.eqb_spec k 1) as [E|E]; cbn [andb].
  - rewrite (proj2 (Z.eqb_neq val 0)) by auto. replace (48 + d - 48) with d by lia. destruct (Z.ltb_spec 255 (val * 10 + d)); [lia|done].
  - replace (48 + d - 48) with d by lia. destruct (Z.ltb_spec 255 (val * 10 + d)); [lia|done].
Qed.
Lemma ipv4_octet v rest acc : is_byte v → ∃ k, ipv4_fields (dec v ++ rest) 0 0 acc = ipv4_fields rest v (S k) acc.
Proof.
  unfold is_byte. intros Hv. pose proof (checked_at _ _ v dec_octet_checked ltac:(lia)) as E. apply bool_decide_eq_true in E. rewrite E.
  destruct (Z.ltb_spec v 10); [|destruct (Z.ltb_spec v 100)]; cbn [app]; rewrite !ipv4_step by (try done; Z.div_mod_to_equations; lia);
    match goal with |- ∃ k, ipv4_fields _ ?x (S ?m) _ = _ => exists m; replace x with v; [done|] end; Z.div_mod_to_equations; lia.
Qed.
Lemma ipv4_octet_dot v rest acc : is_byte v → rest ≠ [] → (length acc < 3)%nat → ipv4_fields (dec v ++ 46 :: rest) 0 0 acc = ipv4_fields rest 0 0 (acc ++ [v]).
Proof.
  intros Hv Hr Ha. destruct (ipv4_octet v (46 :: rest) acc Hv) as [k ->]. cbn [ipv4_fields]. cbn [digit Z.leb Z.eqb].
  change (digit 46) with false. cbn [Nat.eqb orb Pos.eqb]. rewrite bool_decide_eq_false_2 by done. destruct (Nat.eqb_spec (length acc) 3); [lia|done].
Qed.
Lemma dec_bytes v : 0 <= v → bytes (FormatInt v) = dec v ∧ Forall (λ b, 48 <= b <= 57) (dec v) ∧ dec v ≠ [].
Proof.
  intros Hv. destruct (dec_spec v Hv) as (_ & H & Hne). assert (Forall (λ b, 48 <= b <= 57) (dec v)) as Hd.
  { apply Forall_forall. intros b Hb. apply Is_true_true in H. rewrite forallb_True, Forall_forall in H. specialize (H b Hb). apply Is_true_true in H. unfold between in H. lia. }
  split_and!; [|done|done]. unfold FormatInt. destruct (Z.ltb_spec v 0); [lia|]. apply bytes_of_bytes. eapply Forall_impl; [exact Hd|]. unfold is_byte. cbn. lia.
Qed.
Lemma string4_text a b c d : is_byte a → is_byte b → is_byte c → is_byte d → string4 [a; b; c; d] = dec a ++ 46 :: dec b ++ 46 :: dec c ++ 46 :: dec d.
Proof.
  unfold is_byte. intros. unfold string4. cbn [fmap list_fmap join_bytes compose].
  by rewrite (proj1 (dec_bytes a ltac:(lia))), (proj1 (dec_bytes b ltac:(lia))), (proj1 (dec_bytes c ltac:(lia))), (proj1 (dec_bytes d ltac:(lia))).
Qed.
Lemma parse_string4 ip4 : length ip4 = 4%nat → Forall is_byte ip4 → parseIPv4Fields (string4 ip4) = Some ip4.
Proof.
  intros Hl Hb. do 4 (destruct ip4 as [|? ip4]; [done|]). destruct ip4; [|done]. repeat (apply Forall_cons_1 in Hb as [? Hb]).
  rewrite string4_text by done. unfold parseIPv4Fields.
  assert (∀ v r, dec v ++ 46 :: r ≠ []) as Hne by (intros v r; by destruct (dec v)).
  rewrite ipv4_octet_dot by (done || cbn; lia). rewrite ipv4_octet_dot by (done || cbn; lia).
  rewrite ipv4_octet_dot; [|done|by apply dec_bytes; unfold is_byte in *; lia|cbn; lia].
  rewrite <-(app_nil_r (dec _)). destruct (ipv4_octet z2 [] (([] ++ [z]) ++ [z0] ++ [z1])) as [k E]; [done|].
  cbn [app] in *. rewrite E. done.
Qed.

(** The first dot or colon decides the family. *)
Lemma ParseAddr_skip w p l : Forall (λ b, 48 <= b <= 57 ∨ 97 <= b <= 102) p → ParseAddr_from w (p ++ l) = ParseAddr_from w l.
Proof.
  induction 1 as [|b p Hb Hp IH]; [done|]. cbn [app ParseAddr_from].
  rewrite (proj2 (Z.eqb_neq b 46)), (proj2 (Z.eqb_neq b 58)), (proj2 (Z.eqb_neq b 37)) by lia. done.
Qed.
Definition addr_char (b : Z) : Prop := 48 <= b <= 57 ∨ 97 <= b <= 102 ∨ b = 58 ∨ b = 46.
Lemma addr_chars_no_zone l : Forall addr_char l → has 37 l = false.
Proof. induction 1 as [|b l Hb Hl IH]; [done|]. cbn [has existsb]. unfold has in IH. rewrite IH, (proj2 (Z.eqb_neq 37 b)); [done|]. unfold addr_char in Hb. lia. Qed.
Lemma string4_chars q : Forall is_byte q → Forall addr_char (string4 q).
Proof.
  intros Hq. unfold string4. induction Hq as [|b q Hb Hq IH]; [constructor|].
  assert (Forall addr_char (bytes (FormatInt b))) as Hd.
  { destruct (dec_bytes b) as (-> & Hd & _); [unfold is_byte in Hb; lia|]. eapply Forall_impl; [exact Hd|]. unfold addr_char. cbn. lia. }
  destruct q as [|c q]; [done|]. cbn [fmap list_fmap join_bytes compose] in *. apply Forall_app_2; [done|]. constructor; [unfold addr_char; lia|done].
Qed.
Lemma text_chars gs : Forall u16 gs → Forall addr_char (text gs).
Proof.
  induction 1 as [|x gs Hx Hgs IH]; [constructor|]. rewrite text_cons. apply Forall_app_2.
  - eapply Forall_impl; [by apply appendHex_chars|]. unfold addr_char. cbn. lia.
  - case_bool_decide; constructor; [unfold addr_char; lia|done].
Qed.
Lemma string6_chars ip : Forall is_byte ip → Forall addr_char (string6 ip) ∧ ∃ p l, string6 ip = p ++ 58 :: l ∧ Forall (λ b, 48 <= b <= 57 ∨ 97 <= b <= 102) p.
Proof.
  intros Hb. pose proof (groups_u16 ip Hb) as Hu. rewrite string6_text. destruct (longest_zeros ip) as [[s l]|].
  - split.
    + apply Forall_app_2; [by apply text_chars, Forall_take|]. do 2 (constructor; [unfold addr_char; lia|]). by apply text_chars, Forall_drop.
    + pose proof (Forall_take _ s _ Hu) as Ht. destruct (take s (groups ip)) as [|g gs]; [exists [], (58 :: text (drop (s + l) (groups ip))); by split|].
      apply Forall_cons_1 in Ht as [Hg _]. rewrite text_cons. exists (appendHex g). rewrite <-app_assoc.
      case_bool_decide; eexists; (split; [cbn [app]; reflexivity|by apply appendHex_chars]).
  - split; [by apply text_chars|]. change (groups ip) with (group ip 0 :: (group ip <$> seq 1 7)). rewrite text_cons.
    exists (appendHex (group ip 0)). eexists. split; [|by apply appendHex_chars, group_u16]. f_equal.
Qed.

(** [ParseIP] reads back what [String] wrote: the text of an address identifies it. *)
Lemma ParseIP_String ip : ip_wf ip → ParseIP (IPString ip) = Some ip.
Proof.
  intros Hw. pose proof Hw as [Hl Hb]. unfold ParseIP, IPString.
  assert (∀ l, Forall addr_char l → bytes (of_bytes l) = l) as Hby.
  { intros l H. apply bytes_of_bytes. eapply Forall_impl; [exact H|]. unfold addr_char, is_byte. cbn. lia. }
  destruct (To4 ip) as [q|] eqn:E.
  - assert (ip = v4InV6Prefix ++ q ∧ length q = 4%nat ∧ Forall is_byte q) as (-> & Lq & Bq).
    { unfold To4 in E. rewrite Hl in E. cbn -[v4InV6Prefix] in E. case_bool_decide as Ep; [|done]. injection E as <-. rewrite length_drop, Hl.
      split_and!; [by rewrite <-Ep, take_drop|done|by apply Forall_drop]. }
    pose proof (parse_string4 q Lq Bq) as Hp. pose proof (string4_chars q Bq) as Hc. clear E Hl.
    rewrite Hby by done. unfold ParseAddr. rewrite addr_chars_no_zone by done.
    do 4 (destruct q as [|? q]; [done|]). destruct q; [|done]. repeat (apply Forall_cons_1 in Bq as [? Bq]).
    rewrite string4_text in * by done. unfold is_byte in *. destruct (dec_bytes z ltac:(lia)) as (_ & D1 & _).
    rewrite ParseAddr_skip by (eapply Forall_impl; [exact D1|]; cbn; lia). cbn [ParseAddr_from]. change (46 =? 46) with true. cbv iota. by rewrite Hp.
  - destruct (string6_chars ip Hb) as (Hc & p & l & Ep & Hp). rewrite Hby by done. unfold ParseAddr. rewrite addr_chars_no_zone by done.
    rewrite Ep at 2. rewrite ParseAddr_skip by done. cbn [ParseAddr_from]. change (58 =? 46) with false. change (58 =? 58) with true. cbv iota.
    by rewrite parse_string6.
Qed.
