(* ===== verification/Validation.v ===== *)
(** The shared input boundary: [backend/validation] (amounts with checked int64
    arithmetic, tag names and the tag hierarchy, ledger text, ledger settings)
    and [backend/passwordpolicy]. *)
From Stdlib Require Import ZArith Lia.
From stdpp Require Import base list strings gmap.
From S2P Require Import Prelude GoText.

Open Scope Z_scope.

(** * Machine integers *)
Definition MinInt64 : Z := -9223372036854775808.
Definition MaxInt64 : Z := 9223372036854775807.
Definition int64 (z : Z) : Prop := MinInt64 <= z <= MaxInt64.
Definition wrap64 (z : Z) : Z := (z + 2 ^ 63) mod 2 ^ 64 - 2 ^ 63.
Definition add64 (a b : Z) : Z := wrap64 (a + b).
Definition sub64 (a b : Z) : Z := wrap64 (a - b).

Lemma wrap64_id z : int64 z → wrap64 z = z.
Proof.
  unfold int64, wrap64, MinInt64, MaxInt64. intros. rewrite Z.mod_small; lia.
Qed.

Lemma wrap64_range z : int64 (wrap64 z).
Proof.
  unfold int64, wrap64, MinInt64, MaxInt64.
  pose proof (Z.mod_pos_bound (z + 2 ^ 63) (2 ^ 64) ltac:(lia)). lia.
Qed.

#[global] Instance int64_dec z : Decision (int64 z).
Proof. unfold int64. apply _. Defined.

(** What a validator can reject with. The label of a ledger field is part of
    the message, as in the source. *)
Inductive verr :=
| EAmountNotPositive
| EAmountTooLarge
| EOverflow
| ETagRequired
| ETagNotUTF8
| ETagTooLong
| ETagUnsafe
| ETagLineSeparator
| ETagPathSeparator
| ETagLevel
| ETagRootLevel
| ETagParentLevel
| ETagChildLevel
| ETextRequired (label : string)
| ETextNotUTF8 (label : string)
| ETextTooLong (label : string)
| ETextUnsafe (label : string)
| ETextControl (label : string)
| ESettingTooMany
| ESettingDuplicate
| ESettingNotArray
| ESettingTrailing
| EPassword.

(** * amount.go *)
Definition MaxTransactionAmount : Z := 1000000000.

Definition ValidateTransactionAmount (amount : Z) : res verr unit :=
  if amount <=? 0 then Err EAmountNotPositive
  else if amount >? MaxTransactionAmount then Err EAmountTooLarge
  else Ok tt.

Definition CheckedAddInt64 (a b : Z) : res verr Z :=
  if ((b >? 0) && (a >? sub64 MaxInt64 b)) || ((b <? 0) && (a <? sub64 MinInt64 b))
  then Err EOverflow
  else Ok (add64 a b).

Definition CheckedSubInt64 (a b : Z) : res verr Z :=
  if ((b >? 0) && (a <? add64 MinInt64 b)) || ((b <? 0) && (a >? add64 MaxInt64 b))
  then Err EOverflow
  else Ok (sub64 a b).

Ltac split_ifs :=
  repeat match goal with
  | |- context [if ?b then _ else _] => destruct b eqn:?
  | H : context [if ?b then _ else _] |- _ => destruct b eqn:?
  end.

Lemma CheckedAddInt64_cases a b :
  int64 a → int64 b →
  CheckedAddInt64 a b = if decide (int64 (a + b)) then Ok (a + b) else Err EOverflow.
Proof.
  intros Ha Hb. unfold CheckedAddInt64, sub64, add64.
  destruct (Z.lt_total b 0) as [|[->|]].
  - rewrite (wrap64_id (MinInt64 - b)) by (unfold int64, MinInt64, MaxInt64 in *; lia).
    case_decide as Hd; unfold int64, MinInt64, MaxInt64 in *; split_ifs; try lia; try done.
    by rewrite wrap64_id.
  - rewrite decide_True by by rewrite Z.add_0_r. cbn. by rewrite wrap64_id; rewrite Z.add_0_r.
  - rewrite (wrap64_id (MaxInt64 - b)) by (unfold int64, MinInt64, MaxInt64 in *; lia).
    case_decide as Hd; unfold int64, MinInt64, MaxInt64 in *; split_ifs; try lia; try done.
    by rewrite wrap64_id.
Qed.

Lemma CheckedSubInt64_cases a b :
  int64 a → int64 b →
  CheckedSubInt64 a b = if decide (int64 (a - b)) then Ok (a - b) else Err EOverflow.
Proof.
  intros Ha Hb. unfold CheckedSubInt64, sub64, add64.
  destruct (Z.lt_total b 0) as [|[->|]].
  - rewrite (wrap64_id (MaxInt64 + b)) by (unfold int64, MinInt64, MaxInt64 in *; lia).
    case_decide as Hd; unfold int64, MinInt64, MaxInt64 in *; split_ifs; try lia; try done.
    by rewrite wrap64_id.
  - rewrite decide_True by by rewrite Z.sub_0_r. cbn. by rewrite wrap64_id; rewrite Z.sub_0_r.
  - rewrite (wrap64_id (MinInt64 + b)) by (unfold int64, MinInt64, MaxInt64 in *; lia).
    case_decide as Hd; unfold int64, MinInt64, MaxInt64 in *; split_ifs; try lia; try done.
    by rewrite wrap64_id.
Qed.

(** * tag.go *)
Definition MaxTagNameBytes : Z := 255.
Definition MaxTagLevel : Z := 3.

Definition slash : Z := 47.
Definition backslash : Z := 92.

(** The per-rune checks of the [range] loop of [ValidateTagName]. *)
Definition tag_rune_check (r : Z) : res verr unit :=
  if IsControl r || Cf r then Err ETagUnsafe
  else if (r =? 8232) || (r =? 8233) then Err ETagLineSeparator
  else if (r =? slash) || (r =? backslash) then Err ETagPathSeparator
  else Ok tt.

(** A validation loop over the runes: the first error is returned. *)
Fixpoint check_runes (check : Z → res verr unit) (rs : list Z) : res verr unit :=
  match rs with
  | [] => Ok tt
  | r :: rs' => check r ≫= λ _, check_runes check rs'
  end.

Definition ValidateTagName (raw : string) : res verr string :=
  let name := TrimSpace raw in
  if bool_decide (name = "") then Err ETagRequired
  else if negb (ValidString name) then Err ETagNotUTF8
  else if len name >? MaxTagNameBytes then Err ETagTooLong
  else check_runes tag_rune_check (runes name) ≫= λ _, Ok name.

Definition ValidateTagLevel (level : Z) : res verr unit :=
  if (level <? 1) || (level >? MaxTagLevel) then Err ETagLevel else Ok tt.

Definition ValidateTagHierarchy (level : Z) (parentLevel : option Z) : res verr unit :=
  ValidateTagLevel level ≫= λ _,
  match parentLevel with
  | None => if negb (level =? 1) then Err ETagRootLevel else Ok tt
  | Some pl =>
    match ValidateTagLevel pl with
    | Err _ => Err ETagParentLevel
    | Ok _ => if negb (pl + 1 =? level) then Err ETagChildLevel else Ok tt
    end
  end.

(** * text.go *)
Definition MaxAccountBytes : Z := 256.
Definition MaxItemBytes : Z := 512.
Definition MaxMemoBytes : Z := 4096.
Definition MaxSettingItemBytes : Z := 255.
Definition MaxSettingItems : Z := 4096.

Definition memo_space (r : Z) : bool := (r =? 9) || (r =? 10) || (r =? 13).

Definition text_rune_check (unsafe : Z → bool) (label : string) (r : Z) : res verr unit :=
  if (r =? 0) || unsafe r || (r =? 8232) || (r =? 8233) then Err (ETextUnsafe label)
  else if IsControl r && negb (memo_space r) then Err (ETextControl label)
  else Ok tt.

(** The shape the strict and the archive validator share; they differ only in
    the format characters they refuse. *)
Definition validate_text (unsafe : Z → bool) (label value : string) (maxBytes : Z) (required : bool)
    : res verr unit :=
  if required && bool_decide (value = "") then Err (ETextRequired label)
  else if negb (ValidString value) then Err (ETextNotUTF8 label)
  else if (maxBytes >? 0) && (len value >? maxBytes) then Err (ETextTooLong label)
  else check_runes (text_rune_check unsafe label) (runes value).

Definition ValidateLedgerText (label value : string) (maxBytes : Z) (required : bool) : res verr unit :=
  validate_text Cf label value maxBytes required.

Definition ValidateArchivedLedgerText (label value : string) (maxBytes : Z) (required : bool)
    : res verr unit :=
  validate_text Bidi_Control label value maxBytes required.

(** The loop of [ValidateLedgerSettingItems] with its [seen] map. *)
Fixpoint check_setting_items (seen : gset string) (items : list string) : res verr unit :=
  match items with
  | [] => Ok tt
  | item :: items' =>
    ValidateLedgerText "設定値の項目" item MaxSettingItemBytes true ≫= λ _,
    if decide (item ∈ seen) then Err ESettingDuplicate
    else check_setting_items ({[item]} ∪ seen) items'
  end.

Definition ValidateLedgerSettingItems (items : list string) : res verr unit :=
  if Z.of_nat (length items) >? MaxSettingItems then Err ESettingTooMany
  else check_setting_items ∅ items.

(** * passwordpolicy/policy.go *)
Definition MinimumBytes : Z := 12.
Definition MaximumBytes : Z := 1024.

Definition ValidatePassword (password : list Z) : res verr unit :=
  let n := Z.of_nat (length password) in
  if (n <? MinimumBytes) || (n >? MaximumBytes) then Err EPassword else Ok tt.

(** * Facts the other components use *)
Lemma check_runes_Ok check rs : check_runes check rs = Ok tt ↔ Forall (λ r, check r = Ok tt) rs.
Proof.
  induction rs as [|r rs IH]; cbn; [split; [constructor|done]|].
  rewrite Forall_cons, <-IH. destruct (check r) as [[]|e]; cbn; naive_solver.
Qed.

Lemma ValidateTransactionAmount_Ok amount :
  ValidateTransactionAmount amount = Ok tt ↔ 1 <= amount <= MaxTransactionAmount.
Proof. unfold ValidateTransactionAmount. split_ifs; split; intros; try lia; done. Qed.

Lemma ValidateTagLevel_Ok l : ValidateTagLevel l = Ok tt ↔ 1 <= l <= 3.
Proof. unfold ValidateTagLevel, MaxTagLevel. split_ifs; split; intros; try lia; done. Qed.

Lemma ValidateTagHierarchy_Ok level parent :
  ValidateTagHierarchy level parent = Ok tt ↔
  match parent with
  | None => level = 1
  | Some p => level = p + 1 ∧ 1 <= p <= 2
  end.
Proof.
  unfold ValidateTagHierarchy, ValidateTagLevel, MaxTagLevel.
  destruct parent; cbn; split_ifs; cbn; split; intros; try lia; try done.
Qed.

Lemma ValidateTagName_Ok_inv raw name :
  ValidateTagName raw = Ok name →
  name = TrimSpace raw ∧ name ≠ "" ∧ ValidString name = true ∧ len name <= MaxTagNameBytes ∧
  Forall (λ r, tag_rune_check r = Ok tt) (runes name).
Proof.
  unfold ValidateTagName. case_bool_decide; [done|].
  destruct (ValidString (TrimSpace raw)) eqn:Hv; cbn [negb]; [|done].
  destruct (_ >? _) eqn:Hl; [done|].
  destruct (check_runes _ _) as [[]|] eqn:Hc; cbn; [|done].
  intros [= <-]. apply check_runes_Ok in Hc. repeat split; try done. lia.
Qed.

Lemma ValidateTagName_intro name :
  TrimSpace name = name → name ≠ "" → ValidString name = true → len name <= MaxTagNameBytes →
  Forall (λ r, tag_rune_check r = Ok tt) (runes name) → ValidateTagName name = Ok name.
Proof.
  intros Ht Hne Hv Hl Hr. unfold ValidateTagName. rewrite Ht.
  rewrite bool_decide_eq_false_2, Hv by done. cbn [negb].
  destruct (_ >? _) eqn:?; [lia|]. apply check_runes_Ok in Hr. by rewrite Hr.
Qed.

Lemma check_setting_items_Ok seen items :
  check_setting_items seen items = Ok tt ↔
  Forall (λ i, ValidateLedgerText "設定値の項目" i MaxSettingItemBytes true = Ok tt) items ∧
  NoDup items ∧ Forall (λ i, i ∉ seen) items.
Proof.
  revert seen. induction items as [|i items IH]; intros seen; cbn.
  - split; [|done]. repeat split; constructor.
  - rewrite !Forall_cons, NoDup_cons. destruct (ValidateLedgerText _ i _ _) as [[]|]; cbn.
    2: { split; [done|]. intros [[? _] _]; done. }
    case_decide; [split; [done|]; set_solver|].
    rewrite IH. split.
    + intros (? & ? & Hs). repeat split; try done.
      * intros Hin. rewrite Forall_forall in Hs. specialize (Hs i Hin). set_solver.
      * eapply Forall_impl; [done|]. set_solver.
    + intros ([_ ?] & [Hni ?] & _ & Hs). repeat split; try done.
      rewrite Forall_forall in *. intros j Hj. specialize (Hs j Hj).
      assert (j ≠ i) by naive_solver. set_solver.
Qed.

Lemma ValidateLedgerSettingItems_Ok items :
  ValidateLedgerSettingItems items = Ok tt ↔
  Z.of_nat (length items) <= MaxSettingItems ∧
  Forall (λ i, ValidateLedgerText "設定値の項目" i MaxSettingItemBytes true = Ok tt) items ∧
  NoDup items.
Proof.
  unfold ValidateLedgerSettingItems. destruct (_ >? _) eqn:E.
  - split; [done|]. intros [? _]. lia.
  - rewrite check_setting_items_Ok. split; [intros (? & ? & _); repeat split; try done; lia|].
    intros (? & ? & ?). repeat split; try done. apply Forall_true. set_solver.
Qed.
