(* ===== verification/Settings.v ===== *)
(** Ledger settings as JSON string arrays: the part of [encoding/json] that
    [backend/validation/text.go] uses, and its Marshal and Parse functions. *)
From Stdlib Require Import ZArith Lia.
From stdpp Require Import base list strings gmap.
From S2P Require Import Prelude GoText Validation.

Open Scope Z_scope.

(** * Encoding a string, as [json.Marshal] does with HTML escaping on *)
Definition hex_digit (n : Z) : Z := if n <? 10 then 48 + n else 87 + n.

(** [htmlSafeSet] *)
Definition html_safe (b : Z) : bool :=
  (32 <=? b) && negb ((b =? 34) || (b =? 38) || (b =? 60) || (b =? 62) || (b =? 92)).

Definition escape_ascii (b : Z) : list Z :=
  if html_safe b then [b]
  else if (b =? 92) || (b =? 34) then [92; b]
  else if b =? 8 then [92; 98]
  else if b =? 12 then [92; 102]
  else if b =? 10 then [92; 110]
  else if b =? 13 then [92; 114]
  else if b =? 9 then [92; 116]
  else [92; 117; 48; 48; hex_digit (b / 16); hex_digit (b mod 16)].

(** One step of the encoder: the rune at the front of [l] and its width. *)
Definition encode_step (rw : Z * nat) (raw : list Z) : list Z :=
  if rw.1 <? 128 then escape_ascii rw.1
  else if invalid_rune rw then [92; 117; 102; 102; 102; 100]
  else if (rw.1 =? 8232) || (rw.1 =? 8233) then [92; 117; 50; 48; 50; hex_digit (rw.1 mod 16)]
  else raw.

Fixpoint encode_fuel (fuel : nat) (l : list Z) : list Z :=
  match fuel, l with
  | S fuel', _ :: _ =>
    let rw := DecodeRune l in
    encode_step rw (take rw.2 l) ++ encode_fuel fuel' (drop rw.2 l)
  | _, _ => []
  end.
Definition json_string (l : list Z) : list Z := 34 :: encode_fuel (length l) l ++ [34].

Fixpoint json_strings (ls : list (list Z)) : list Z :=
  match ls with
  | [] => []
  | [l] => json_string l
  | l :: ls' => json_string l ++ 44 :: json_strings ls'
  end.
Definition json_array (ls : list (list Z)) : list Z := 91 :: json_strings ls ++ [93].

(** * Decoding *)
Definition json_space (b : Z) : bool := (b =? 32) || (b =? 9) || (b =? 10) || (b =? 13).

Fixpoint skip_space (l : list Z) : list Z :=
  match l with
  | b :: l' => if json_space b then skip_space l' else l
  | [] => []
  end.

Definition hex_value (b : Z) : option Z :=
  if between 48 57 b then Some (b - 48)
  else if between 97 102 b then Some (b - 87)
  else if between 65 70 b then Some (b - 55)
  else None.

Definition hex4 (a b c d : Z) : option Z :=
  a' ← hex_value a; b' ← hex_value b; c' ← hex_value c; d' ← hex_value d;
  Some (a' * 4096 + b' * 256 + c' * 16 + d').

(** [utf8.AppendRune] *)
Definition encode_rune (r : Z) : list Z :=
  if r <? 128 then [r]
  else if r <? 2048 then [192 + r / 64; 128 + r mod 64]
  else if r <? 65536 then [224 + r / 4096; 128 + r / 64 mod 64; 128 + r mod 64]
  else [240 + r / 262144; 128 + r / 4096 mod 64; 128 + r / 64 mod 64; 128 + r mod 64].

Definition simple_escape (e : Z) : option Z :=
  if (e =? 34) || (e =? 92) || (e =? 47) then Some e
  else if e =? 98 then Some 8
  else if e =? 102 then Some 12
  else if e =? 110 then Some 10
  else if e =? 114 then Some 13
  else if e =? 116 then Some 9
  else None.

(** The rest of a string literal after its opening quote: its value and what
    follows the closing quote. The callers test [utf8.ValidString] on the whole
    text first, so a byte above 127 is copied, as [unquote] does on valid
    input. *)
Fixpoint parse_string (l : list Z) : option (list Z * list Z) :=
  match l with
  | [] => None
  | b :: l1 =>
    if b =? 34 then Some ([], l1)
    else if b =? 92 then
      match l1 with
      | [] => None
      | e :: l2 =>
        if e =? 117 then
          match l2 with
          | h1 :: h2 :: h3 :: h4 :: l6 =>
            rr ← hex4 h1 h2 h3 h4;
            if between 55296 57343 rr then
              let lone := p ← parse_string l6; Some (encode_rune RuneError ++ p.1, p.2) in
              match l6 with
              | 92 :: 117 :: g1 :: g2 :: g3 :: g4 :: l12 =>
                match hex4 g1 g2 g3 g4 with
                | Some rr1 =>
                  if between 55296 56319 rr && between 56320 57343 rr1 then
                    p ← parse_string l12;
                    Some (encode_rune ((rr - 55296) * 1024 + (rr1 - 56320) + 65536) ++ p.1, p.2)
                  else lone
                | None => lone
                end
              | _ => lone
              end
            else p ← parse_string l6; Some (encode_rune rr ++ p.1, p.2)
          | _ => None
          end
        else
          v ← simple_escape e; p ← parse_string l2; Some (v :: p.1, p.2)
      end
    else if b <? 32 then None
    else p ← parse_string l1; Some (b :: p.1, p.2)
  end.

(** An element of a [[]string]: a string, or [null], which leaves the zero
    value. Any other JSON value is a type or syntax error of [Decode]. *)
Definition parse_element (l : list Z) : option (list Z * list Z) :=
  match l with
  | 34 :: l1 => parse_string l1
  | 110 :: 117 :: 108 :: 108 :: l1 => Some ([], l1)
  | _ => None
  end.

(** The elements after [[], separated by commas, up to []]; every element
    consumes bytes, so the byte count is enough fuel. *)
Fixpoint parse_elements (fuel : nat) (l : list Z) : option (list (list Z) * list Z) :=
  match fuel with
  | O => None
  | S fuel' =>
    e ← parse_element (skip_space l);
    match skip_space e.2 with
    | 93 :: rest => Some ([e.1], rest)
    | 44 :: rest => p ← parse_elements fuel' rest; Some (e.1 :: p.1, p.2)
    | _ => None
    end
  end.

Definition parse_array (l : list Z) : option (list (list Z) * list Z) :=
  match skip_space l with
  | 91 :: l1 =>
    match skip_space l1 with
    | 93 :: rest => Some ([], rest)
    | _ => parse_elements (S (length l1)) l1
    end
  | _ => None
  end.

(** [decoder.Decode(&items)] followed by the [io.EOF] test on the remainder. *)
Definition decode_items (value : string) : res verr (list string) :=
  match parse_array (bytes value) with
  | None => Err ESettingNotArray
  | Some (items, rest) =>
    if bool_decide (skip_space rest = []) then Ok (of_bytes <$> items) else Err ESettingTrailing
  end.

(** * text.go: settings *)
Definition MarshalLedgerSettingItems (items : list string) : res verr string :=
  ValidateLedgerSettingItems items ≫= λ _, Ok (of_bytes (json_array (bytes <$> items))).

Definition ParseLedgerSettingItems (value : string) : res verr (list string) :=
  if negb (ValidString value) || bool_decide (value = "") then Err ESettingNotArray
  else
    items ← decode_items value;
    _ ← ValidateLedgerSettingItems items;
    Ok items.

Fixpoint check_archived_items (maxItemBytes : Z) (items : list string) : res verr unit :=
  match items with
  | [] => Ok tt
  | item :: items' =>
    ValidateArchivedLedgerText "設定値の項目" item maxItemBytes false ≫= λ _,
    check_archived_items maxItemBytes items'
  end.

Definition ParseArchivedLedgerSettingItems (value : string) (maxItemBytes maxItems : Z)
    : res verr (list string) :=
  if negb (ValidString value) || bool_decide (value = "")
     || (maxItemBytes <=? 0) || (maxItems <=? 0) then Err ESettingNotArray
  else
    items ← decode_items value;
    if Z.of_nat (length items) >? maxItems then Err ESettingTooMany
    else
      _ ← check_archived_items maxItemBytes items;
      Ok items.

Inductive LedgerSettingParseMode := LedgerSettingStrict | LedgerSettingArchive.

Record ParsedLedgerSettingItems := { ps_Items : list string; ps_Archive : bool }.

Definition ParseLedgerSettingItemsWithMode (value : string) (mode : LedgerSettingParseMode)
    (maxItemBytes maxItems : Z) : res verr ParsedLedgerSettingItems :=
  match mode with
  | LedgerSettingArchive =>
    items ← ParseArchivedLedgerSettingItems value maxItemBytes maxItems;
    Ok {| ps_Items := items; ps_Archive := true |}
  | LedgerSettingStrict =>
    items ← ParseLedgerSettingItems value;
    Ok {| ps_Items := items; ps_Archive := false |}
  end.

Example marshal_nil : MarshalLedgerSettingItems [] = Ok "[]".
Proof. reflexivity. Qed.

(** * Round trip *)

(** What the encoder needs of a text: valid UTF-8 with no line separators,
    which every validated ledger text is. *)
Definition plain_text (l : list Z) : Prop :=
  ∃ cs, l = concat cs ∧ Forall (λ c, is_chunk c ∧ Forall is_byte c ∧
    (DecodeRune c).1 ≠ 8232 ∧ (DecodeRune c).1 ≠ 8233) cs.

Lemma ValidateLedgerText_plain label s n req :
  ValidateLedgerText label s n req = Ok tt → plain_text (bytes s).
Proof.
  unfold ValidateLedgerText, validate_text. intros H.
  destruct (req && _); [done|]. rewrite ValidString_bytes in H.
  destruct (valid_bytes (bytes s)) eqn:Hv; cbn [negb] in H; [|done].
  destruct ((n >? 0) && _); [done|]. apply check_runes_Ok in H.
  apply valid_bytes_split in Hv as (cs & E & Hcs). exists cs. split; [done|].
  unfold runes in H. rewrite E, runes_w_concat in H by done.
  pose proof (bytes_range s) as Hb. rewrite E in Hb. clear E.
  induction Hcs as [|c cs Hc Hcs IH]; [constructor|]. cbn in H, Hb.
  apply Forall_cons in H as [H1 H]. apply Forall_app in Hb as [Hb1 Hb].
  constructor; [|by apply IH]. split; [done|]. split; [done|].
  unfold text_rune_check in H1. split; intros E; rewrite E in H1; vm_compute in H1; discriminate.
Qed.

Lemma hex_value_digit n : 0 <= n < 16 → hex_value (hex_digit n) = Some n.
Proof.
  intros. unfold hex_digit, hex_value, between. split_ifs; rewrite ?andb_true_iff, ?andb_false_iff in *; try lia.
  all: f_equal; lia.
Qed.

Lemma parse_escape_ascii b l :
  0 <= b < 128 →
  parse_string (escape_ascii b ++ l) = p ← parse_string l; Some (b :: p.1, p.2).
Proof.
  intros Hb. unfold escape_ascii, html_safe. destruct (_ && _) eqn:E.
  - rewrite andb_true_iff, negb_true_iff, !orb_false_iff in E. cbn.
    assert ((b =? 34) = false) as -> by tauto. assert ((b =? 92) = false) as -> by tauto.
    assert ((b <? 32) = false) as -> by lia. done.
  - destruct ((b =? 92) || (b =? 34)) eqn:E1.
    { apply orb_true_iff in E1 as [->%Z.eqb_eq| ->%Z.eqb_eq]; reflexivity. }
    destruct (b =? 8) eqn:E2; [apply Z.eqb_eq in E2 as ->; reflexivity|].
    destruct (b =? 12) eqn:E3; [apply Z.eqb_eq in E3 as ->; reflexivity|].
    destruct (b =? 10) eqn:E4; [apply Z.eqb_eq in E4 as ->; reflexivity|].
    destruct (b =? 13) eqn:E5; [apply Z.eqb_eq in E5 as ->; reflexivity|].
    destruct (b =? 9) eqn:E6; [apply Z.eqb_eq in E6 as ->; reflexivity|].
    cbn [app parse_string Z.eqb Pos.eqb]. unfold hex4.
    pose proof (Z.div_mod b 16 ltac:(lia)). pose proof (Z.mod_pos_bound b 16 ltac:(lia)).
    change (hex_value 48) with (Some 0). rewrite !hex_value_digit by lia. cbn [mbind option_bind].
    replace (0 * 4096 + 0 * 256 + b / 16 * 16 + b mod 16) with b by lia.
    unfold between, encode_rune. assert ((b <? 128) = true) as -> by lia.
    assert ((55296 <=? b) = false) as -> by lia. done.
Qed.

Lemma parse_high_bytes c l :
  Forall (λ b, 128 <= b) c →
  parse_string (c ++ l) = p ← parse_string l; Some (c ++ p.1, p.2).
Proof.
  induction 1 as [|b c Hb Hc IH]; [cbn [app]; by destruct (parse_string l) as [[]|]|].
  cbn [app parse_string]. assert ((b =? 34) = false) as -> by lia.
  assert ((b =? 92) = false) as -> by lia. assert ((b <? 32) = false) as -> by lia.
  rewrite IH. by destruct (parse_string l) as [[]|].
Qed.

Lemma parse_encode_step c l :
  is_chunk c → Forall is_byte c → (DecodeRune c).1 ≠ 8232 → (DecodeRune c).1 ≠ 8233 →
  parse_string (encode_step (DecodeRune c) c ++ l) = p ← parse_string l; Some (c ++ p.1, p.2).
Proof.
  intros Hc Hb H1 H2. unfold encode_step.
  destruct (is_chunk_cases c Hc) as [(b & -> & Hlt & ->)|[Hh Hge]].
  - assert ((b <? 128) = true) as -> by lia. apply parse_escape_ascii.
    apply Forall_cons in Hb as [Hb _]. unfold is_byte in Hb. lia.
  - destruct Hc as (_ & Hv & _). rewrite Hv.
    destruct (_ <? 128) eqn:?; [lia|]. destruct (_ || _) eqn:E; [lia|].
    by apply parse_high_bytes.
Qed.

Lemma encode_fuel_enough n m l :
  (length l <= n)%nat → (length l <= m)%nat → encode_fuel n l = encode_fuel m l.
Proof.
  revert m l. induction n as [|n IH]; intros m l Hn Hm.
  - destruct l; [by destruct m|cbn in Hn; lia].
  - destruct l as [|b l]; [by destruct m|]. destruct m as [|m]; [cbn in Hm; lia|].
    cbn [encode_fuel]. f_equal. pose proof (DecodeRune_width_pos (b :: l) ltac:(done)).
    apply IH; rewrite length_drop; cbn [length] in *; lia.
Qed.

Lemma encode_chunk_app c l :
  is_chunk c →
  encode_fuel (length (c ++ l)) (c ++ l) = encode_step (DecodeRune c) c ++ encode_fuel (length l) l.
Proof.
  intros (Hne & Hv & Hw). destruct c as [|b c]; [done|].
  change ((b :: c) ++ l) with (b :: (c ++ l)) at 1. cbn [length encode_fuel app].
  change (b :: c ++ l) with ((b :: c) ++ l). rewrite DecodeRune_app_valid by done.
  rewrite Hw, take_app_length, drop_app_length. f_equal.
  apply encode_fuel_enough; rewrite ?length_app; cbn; lia.
Qed.

Lemma parse_encoded l rest :
  plain_text l → parse_string (encode_fuel (length l) l ++ 34 :: rest) = Some (l, rest).
Proof.
  intros (cs & -> & Hcs). induction Hcs as [|c cs (Hc & Hb & H1 & H2) Hcs IH]; [done|].
  cbn [concat]. rewrite encode_chunk_app, <-app_assoc, parse_encode_step by done. by rewrite IH.
Qed.

(** A step of the encoder emits ASCII, or copies the chunk. *)
Lemma encode_step_shape c :
  is_chunk c → Forall is_byte c → (DecodeRune c).1 ≠ 8232 → (DecodeRune c).1 ≠ 8233 →
  Forall (λ b, 0 <= b < 128) (encode_step (DecodeRune c) c) ∨ encode_step (DecodeRune c) c = c.
Proof.
  intros Hc Hb H1 H2. unfold encode_step.
  destruct (is_chunk_cases c Hc) as [(b & -> & Hlt & ->)|[Hh Hge]].
  - left. assert ((b <? 128) = true) as -> by lia.
    apply Forall_cons in Hb as [Hb _]. unfold is_byte in Hb.
    pose proof (Z.div_mod b 16 ltac:(lia)). pose proof (Z.mod_pos_bound b 16 ltac:(lia)).
    unfold escape_ascii, hex_digit. split_ifs; repeat constructor; lia.
  - right. pose proof Hc as (_ & Hv & _). rewrite Hv. destruct (_ <? 128) eqn:?; [lia|].
    destruct (_ || _) eqn:E; [lia|done].
Qed.

Lemma encoded_valid l :
  plain_text l →
  valid_bytes (encode_fuel (length l) l) = true ∧ Forall is_byte (encode_fuel (length l) l).
Proof.
  intros (cs & -> & Hcs). induction Hcs as [|c cs (Hc & Hb & H1 & H2) Hcs [IH1 IH2]]; [done|].
  cbn [concat]. rewrite encode_chunk_app by done.
  assert (valid_bytes (encode_step (DecodeRune c) c) = true ∧
          Forall is_byte (encode_step (DecodeRune c) c)) as [Hv Hi].
  { destruct (encode_step_shape c) as [H| ->]; try done.
    - split; [apply valid_bytes_ascii|]; (eapply Forall_impl; [done|]; unfold is_byte; lia).
    - split; [|done]. rewrite <-(app_nil_r c). apply (valid_bytes_concat [c]).
      apply Forall_cons; split; [done|apply Forall_nil_2]. }
  split; [by apply valid_bytes_app|by apply Forall_app].
Qed.

Lemma parse_elements_strings ls rest n :
  ls ≠ [] → Forall plain_text ls → (length ls <= n)%nat →
  parse_elements n (json_strings ls ++ 93 :: rest) = Some (ls, rest).
Proof.
  intros Hne Hls. revert n Hne. induction Hls as [|l ls Hl Hls IH]; intros n Hne Hn; [done|].
  destruct n as [|n]; [cbn in Hn; lia|]. destruct ls as [|l' ls].
  - cbn [json_strings json_string]. unfold json_string. rewrite <-app_comm_cons, <-app_assoc.
    cbn [parse_elements skip_space json_space Z.eqb Pos.eqb orb parse_element app].
    change (34 :: (93 :: rest)) with (34 :: 93 :: rest).
    rewrite parse_encoded by done. done.
  - change (json_strings (l :: l' :: ls)) with (json_string l ++ 44 :: json_strings (l' :: ls)).
    unfold json_string at 1. rewrite <-!app_comm_cons, <-!app_assoc, <-!app_comm_cons.
    cbn [parse_elements skip_space json_space Z.eqb Pos.eqb orb parse_element app].
    rewrite parse_encoded by done. cbn [mbind option_bind fst snd skip_space].
    cbn [json_space Z.eqb Pos.eqb orb]. rewrite IH; [done|done|cbn in *; lia].
Qed.

Lemma json_array_parses ls : Forall plain_text ls → parse_array (json_array ls) = Some (ls, []).
Proof.
  intros Hls. unfold parse_array, json_array.
  cbn [skip_space json_space Z.eqb Pos.eqb orb].
  destruct ls as [|l ls]; [done|].
  assert (∃ k, json_strings (l :: ls) ++ [93] = 34 :: k) as [k Hk].
  { destruct ls; cbn [json_strings]; unfold json_string; cbn [app]; eauto. }
  assert (length (l :: ls) <= S (length (json_strings (l :: ls) ++ [93%Z])))%nat as Hlen.
  { clear. rewrite length_app. generalize l. induction ls as [|l' ls IH]; intros l0; [cbn; lia|].
    change (json_strings (l0 :: l' :: ls)) with (json_string l0 ++ 44 :: json_strings (l' :: ls)).
    specialize (IH l'). rewrite length_app. cbn [length] in *. lia. }
  rewrite <-(parse_elements_strings (l :: ls) [] _ ltac:(done) Hls Hlen).
  rewrite Hk. cbn [skip_space json_space Z.eqb Pos.eqb orb]. done.
Qed.

Definition good_bytes (l : list Z) : Prop := valid_bytes l = true ∧ Forall is_byte l.

Lemma good_bytes_app l k : good_bytes l → good_bytes k → good_bytes (l ++ k).
Proof. intros [??] [??]. split; [by apply valid_bytes_app|by apply Forall_app]. Qed.

Lemma good_bytes_ascii b : 0 <= b < 128 → good_bytes [b].
Proof.
  intros. split; [apply valid_bytes_ascii|]; apply Forall_cons; split; try apply Forall_nil_2;
    unfold is_byte; lia.
Qed.

Lemma json_array_good ls : Forall plain_text ls → good_bytes (json_array ls).
Proof.
  assert (∀ l, plain_text l → good_bytes (json_string l)) as Hs.
  { intros l Hl. apply (good_bytes_app [34]); [apply good_bytes_ascii; lia|].
    apply good_bytes_app; [by apply encoded_valid|apply good_bytes_ascii; lia]. }
  intros H. apply (good_bytes_app [91]); [apply good_bytes_ascii; lia|].
  apply good_bytes_app; [|apply good_bytes_ascii; lia].
  induction H as [|l ls Hl Hls IH]; [split; [done|apply Forall_nil_2]|].
  destruct ls as [|l' ls]; [by apply Hs|].
  change (json_strings (l :: l' :: ls)) with (json_string l ++ [44] ++ json_strings (l' :: ls)).
  apply good_bytes_app; [by apply Hs|]. apply good_bytes_app; [apply good_bytes_ascii; lia|done].
Qed.

Lemma decode_json_array items :
  Forall (λ i, plain_text (bytes i)) items →
  let v := of_bytes (json_array (bytes <$> items)) in
  decode_items v = Ok items ∧ ValidString v = true ∧ v ≠ "".
Proof.
  intros H v. assert (Forall plain_text (bytes <$> items)) as Hp by by apply Forall_fmap.
  destruct (json_array_good _ Hp) as [Hv Hb].
  assert (bytes v = json_array (bytes <$> items)) as Ev by by apply bytes_of_bytes.
  split; [|split].
  - unfold decode_items. rewrite Ev, json_array_parses by done. cbn.
    f_equal. rewrite <-list_fmap_compose. rewrite <-(list_fmap_id items) at 2.
    apply list_fmap_ext. intros i x _. apply of_bytes_bytes.
  - by rewrite ValidString_bytes, Ev.
  - intros E. rewrite E in Ev. discriminate.
Qed.

(** The archive validator accepts whatever the strict one accepts: it refuses
    fewer characters, and its byte budget is larger. *)
Lemma Bidi_Control_Cf r : Bidi_Control r = true → Cf r = true.
Proof. unfold Bidi_Control, Cf, in_ranges, between. cbn. lia. Qed.

Lemma strict_text_archived label s n m req :
  0 < n <= m → ValidateLedgerText label s n req = Ok tt →
  ValidateArchivedLedgerText label s m false = Ok tt.
Proof.
  intros Hnm. unfold ValidateLedgerText, ValidateArchivedLedgerText, validate_text.
  destruct (req && _); [done|]. destruct (negb _); [done|]. cbn [andb].
  destruct ((n >? 0) && _) eqn:E1; [done|]. intros H. apply check_runes_Ok in H.
  destruct ((m >? 0) && _) eqn:E2; [lia|]. apply check_runes_Ok.
  eapply Forall_impl; [done|]. intros r. unfold text_rune_check.
  destruct (Bidi_Control r) eqn:Eb; [apply Bidi_Control_Cf in Eb; rewrite Eb|].
  - by rewrite orb_true_r.
  - destruct (Cf r); [by rewrite !orb_true_r|done].
Qed.

Lemma strict_items_archived m items :
  MaxSettingItemBytes <= m →
  Forall (λ i, ValidateLedgerText "設定値の項目" i MaxSettingItemBytes true = Ok tt) items →
  check_archived_items m items = Ok tt.
Proof.
  intros Hm. induction 1 as [|i items Hi _ IH]; [done|]. cbn [check_archived_items].
  rewrite (strict_text_archived _ _ MaxSettingItemBytes m true); [done|unfold MaxSettingItemBytes in *; lia|done].
Qed.

Lemma marshal_parses items budget :
  ValidateLedgerSettingItems items = Ok tt → MaxSettingItemBytes <= budget →
  ∃ v, MarshalLedgerSettingItems items = Ok v ∧ ParseLedgerSettingItems v = Ok items ∧
       ParseLedgerSettingItemsWithMode v LedgerSettingArchive budget MaxSettingItems =
         Ok {| ps_Items := items; ps_Archive := true |}.
Proof.
  intros Hi Hb. exists (of_bytes (json_array (bytes <$> items))).
  pose proof Hi as (Hn & Ht & Hd)%ValidateLedgerSettingItems_Ok.
  destruct (decode_json_array items) as (H1 & H2 & H3).
  { eapply Forall_impl; [exact Ht|]. intros i. apply ValidateLedgerText_plain. }
  unfold MarshalLedgerSettingItems, ParseLedgerSettingItemsWithMode,
    ParseArchivedLedgerSettingItems, ParseLedgerSettingItems.
  rewrite Hi, H2, H1. rewrite bool_decide_eq_false_2 by done. cbn [negb orb mbind res_bind].
  rewrite Hi. split; [done|]. split; [done|].
  unfold MaxSettingItemBytes, MaxSettingItems in *.
  destruct (budget <=? 0) eqn:?; [lia|]. cbn [orb Z.leb]. destruct (_ >? _) eqn:?; [lia|].
  by rewrite strict_items_archived.
Qed.

(** Settings round trip: every setting list the strict API accepts is
    marshalled to a JSON text that both the strict parser and the archive-mode
    reader (with any byte budget of at least 255 and the standard item budget)
    parse back to exactly the same list. *)
Theorem settings_roundtrip items budget :
  ValidateLedgerSettingItems items = Ok tt → MaxSettingItemBytes <= budget →
  ∃ v, MarshalLedgerSettingItems items = Ok v ∧ ParseLedgerSettingItems v = Ok items ∧
       ParseLedgerSettingItemsWithMode v LedgerSettingArchive budget MaxSettingItems =
         Ok {| ps_Items := items; ps_Archive := true |}.
Proof. apply marshal_parses. Qed.

(** [settings_roundtrip] at two items, one of them needing escapes. *)
Lemma settings_roundtrip_witness :
  ∃ v, MarshalLedgerSettingItems ["card <A>"; "銀行"] = Ok v ∧
       ParseLedgerSettingItems v = Ok ["card <A>"; "銀行"] ∧
       ParseLedgerSettingItemsWithMode v LedgerSettingArchive 255 MaxSettingItems =
         Ok {| ps_Items := ["card <A>"; "銀行"]; ps_Archive := true |}.
Proof. apply (settings_roundtrip ["card <A>"; "銀行"] 255); [vm_compute; reflexivity|unfold MaxSettingItemBytes; lia]. Defined.
