(* ===== verification/GoTime.v ===== *)
(** [time.Parse] for the layouts the ledger accepts, over UTC, and the two
    date parsers of [backend/core/service.go].

    A [time.Time] is its number of nanoseconds since the Unix epoch. *)
From Stdlib Require Import ZArith Lia.
From stdpp Require Import base list strings.
From S2P Require Import Prelude GoText Validation.

Open Scope Z_scope.

(** * The civil calendar *)
Definition is_leap (y : Z) : bool :=
  (y mod 4 =? 0) && (negb (y mod 100 =? 0) || (y mod 400 =? 0)).

Definition daysIn (m y : Z) : Z :=
  if m =? 2 then (if is_leap y then 29 else 28)
  else if (m =? 4) || (m =? 6) || (m =? 9) || (m =? 11) then 30
  else 31.

(** Days of the months before [m] in year [y]. *)
Fixpoint days_before_month (k : nat) (y : Z) : Z :=
  match k with
  | O => 0
  | S k' => days_before_month k' y + daysIn (Z.of_nat k) y
  end.

(** Days from 0001-01-01 to January 1 of year [y] (proleptic Gregorian). *)
Definition days_before_year (y : Z) : Z :=
  365 * (y - 1) + (y - 1) / 4 - (y - 1) / 100 + (y - 1) / 400.

Definition unix_days (y m d : Z) : Z :=
  days_before_year y + days_before_month (Z.to_nat (m - 1)) y + (d - 1) - 719162.

Definition second : Z := 1000000000.
Definition minute : Z := 60 * second.
Definition hour : Z := 60 * minute.
Definition day : Z := 24 * hour.

(** [time.Date(y, m, d, h, mi, s, ns, time.UTC)] for in-range fields. *)
Definition go_date (y m d h mi s ns : Z) : Z :=
  unix_days y m d * day + h * hour + mi * minute + s * second + ns.

(** * Layout elements *)
Definition is_digit (b : Z) : bool := between 48 57 b.

(** [getnum(value, fixed)]: one or two digits, exactly two when [fixed]. *)
Definition getnum (l : list Z) (fixed : bool) : option (Z * list Z) :=
  match l with
  | a :: l1 =>
    if negb (is_digit a) then None
    else match l1 with
         | b :: l2 =>
           if is_digit b then Some ((a - 48) * 10 + (b - 48), l2)
           else if fixed then None else Some (a - 48, l1)
         | [] => if fixed then None else Some (a - 48, [])
         end
  | [] => None
  end.

(** The element [2006]: exactly four digits. *)
Definition get_year (l : list Z) : option (Z * list Z) :=
  match l with
  | a :: b :: c :: d :: l' =>
    if is_digit a && is_digit b && is_digit c && is_digit d
    then Some ((a - 48) * 1000 + (b - 48) * 100 + (c - 48) * 10 + (d - 48), l')
    else None
  | _ => None
  end.

Fixpoint cutspace (l : list Z) : list Z :=
  match l with
  | b :: l' => if b =? 32 then cutspace l' else l
  | [] => []
  end.

(** [skip(value, prefix)] for a one-byte prefix: a space of the layout stands
    for any run of spaces, and for the end of the value. *)
Definition literal (b : Z) (l : list Z) : option (list Z) :=
  match l with
  | a :: l' => if a =? b then Some (if b =? 32 then cutspace l' else l') else None
  | [] => if b =? 32 then Some [] else None
  end.

Definition in_range (b : bool) : option unit := if b then Some tt else None.

(** [2006-01-02]: year, month, day and the rest; the day is checked against the
    month at the end of the parse. *)
Definition get_ymd (l : list Z) : option (Z * Z * Z * list Z) :=
  '(y, l) ← get_year l;
  l ← literal 45 l;
  '(m, l) ← getnum l true;
  _ ← in_range ((1 <=? m) && (m <=? 12));
  l ← literal 45 l;
  '(d, l) ← getnum l true;
  Some (y, m, d, l).

(** [15:04] *)
Definition get_hm (l : list Z) : option (Z * Z * list Z) :=
  '(h, l) ← getnum l false;
  _ ← in_range (h <? 24);
  l ← literal 58 l;
  '(mi, l) ← getnum l true;
  _ ← in_range (mi <? 60);
  Some (h, mi, l).

(** A fraction after [05] is accepted although the layout has none: [.] or [,]
    and digits, of which nine count. *)
Fixpoint digits_value (n : nat) (acc : Z) (l : list Z) : Z :=
  match n, l with
  | O, _ => acc
  | S n', b :: l' => if is_digit b then digits_value n' (acc * 10 + (b - 48)) l'
                     else digits_value n' (acc * 10) l
  | S n', [] => digits_value n' (acc * 10) []
  end.

Fixpoint skip_digits (l : list Z) : list Z :=
  match l with
  | b :: l' => if is_digit b then skip_digits l' else l
  | [] => []
  end.

Definition get_fraction (l : list Z) : Z * list Z :=
  match l with
  | p :: b :: l' =>
    if ((p =? 46) || (p =? 44)) && is_digit b
    then (digits_value 9 0 (b :: l'), skip_digits (b :: l'))
    else (0, l)
  | _ => (0, l)
  end.

(** [:05] with the optional fraction: seconds, nanoseconds, rest. *)
Definition get_seconds (l : list Z) : option (Z * Z * list Z) :=
  l ← literal 58 l;
  '(s, l) ← getnum l true;
  _ ← in_range (s <? 60);
  let '(ns, l) := get_fraction l in
  Some (s, ns, l).

Definition finish (y m d h mi s ns : Z) (rest : list Z) : option Z :=
  _ ← in_range (bool_decide (rest = []));
  _ ← in_range ((1 <=? d) && (d <=? daysIn m y));
  Some (go_date y m d h mi s ns).

(** The five layouts. *)
Definition parse_date (l : list Z) : option Z :=
  '(y, m, d, l) ← get_ymd l;
  finish y m d 0 0 0 0 l.

Definition parse_date_hm (l : list Z) : option Z :=
  '(y, m, d, l) ← get_ymd l;
  l ← literal 32 l;
  '(h, mi, l) ← get_hm l;
  finish y m d h mi 0 0 l.

(** [sep] is the byte between date and time, [suffix] what follows the seconds. *)
Definition parse_date_hms (sep : Z) (suffix : list Z) (l : list Z) : option Z :=
  '(y, m, d, l) ← get_ymd l;
  l ← literal sep l;
  '(h, mi, l) ← get_hm l;
  '(s, ns, l) ← get_seconds l;
  match suffix with
  | [b] => l ← literal b l; finish y m d h mi s ns l
  | _ => finish y m d h mi s ns l
  end.

(** * service.go *)
Inductive derr := EDateTimeFormat | EDateFormat | EDateUnsupported.

Definition first_some {A} (o1 o2 : option A) : option A := match o1 with Some a => Some a | None => o2 end.

Definition parseDateStrict (dateStr : string) : res derr Z :=
  let l := bytes dateStr in
  match first_some (parse_date_hms 32 [] l)
       (first_some (parse_date_hms 84 [90] l)
       (first_some (parse_date_hms 84 [] l)
       (first_some (parse_date_hm l)
                   (parse_date l)))) with
  | Some t => Ok t
  | None => Err EDateUnsupported
  end.

Definition parseTransactionDate (dateStr timeStr : string) : res derr Z :=
  if negb (bool_decide (timeStr = "")) then
    match parse_date_hm (bytes dateStr ++ 32 :: bytes timeStr) with
    | Some t => Ok t
    | None => Err EDateTimeFormat
    end
  else
    match parse_date (bytes dateStr) with
    | Some t => Ok t
    | None => Err EDateFormat
    end.

Example parse_epoch : parseTransactionDate "1970-01-01" "" = Ok 0.
Proof. reflexivity. Qed.
Example parse_leap : parseTransactionDate "2024-02-29" "9:05" = Ok ((19782 * 24 + 9) * hour + 5 * minute).
Proof. vm_compute. reflexivity. Qed.
Example parse_not_leap : parseTransactionDate "2023-02-29" "" = Err EDateFormat.
Proof. vm_compute. reflexivity. Qed.
Example parse_spaces : parseTransactionDate "1970-01-01" "  0:00" = Ok 0.
Proof. vm_compute. reflexivity. Qed.
