(* ===== verification/ImageContainers.v ===== *)
(** Container validators of [core/image_security.go]: JPEG, PNG, single-frame GIF
    and still WebP. The source walks the buffer with an offset; here the offset is
    the suffix of the buffer it points at. Every loop has fuel equal to the length
    of the buffer, and [EImageFuel] is shown never to be returned. *)
From Stdlib Require Import ZArith Lia.
From stdpp Require Import base list strings.
From S2P Require Import Prelude GoText Validation.

Open Scope Z_scope.

(** One error per message of the source. *)
Inductive imgerr :=
| EImageFuel
| EJPEGContainer | EJPEGMarker | EJPEGNoEnd | EJPEGTrailing | EJPEGSegment | EJPEGSegmentLength | EJPEGScan
| EPNGContainer | EPNGChunk | EPNGTrailing | EPNGNoEnd
| EGIFContainer | EGIFTable | EGIFFrames | EGIFExtension | EGIFAnimated | EGIFBlock | EGIFData | EGIFUnknown | EGIFNoEnd
| EWebPContainer | EWebPLength | EWebPChunk | EWebPAnimated | EWebPBoundary
| EImageFormat
(** Metadata, encoding and decoding. *)
| EImageFilename | EImageFilenameText | EImageFilenamePath | EImageFilenameControl
| EImageExtension | EImageMIME | EImageBase64 | EImageTooLarge | EImageEmpty | EImageMismatch
| EImageHeader | EImageCorrupt | EImageSize | EImagePixels
(** Quotas and storage. *)
| EImageCount | EImageTotal | EImageAccountQuota | EImageDatabaseQuota | EImageUsage | EImageMove
| EImageNotFound | EImageStore | EImageLimit | EImageCursor | EImageTransaction.

Definition zlen (l : list Z) : Z := Z.of_nat (length l).
Definition zdrop (n : Z) (l : list Z) : list Z := drop (Z.to_nat n) l.
Definition at_ (l : list Z) (i : nat) : Z := nth i l 0.

(** [binary.BigEndian] and [binary.LittleEndian] on the first bytes. *)
Definition be16 (l : list Z) : Z := at_ l 0 * 256 + at_ l 1.
Definition be32 (l : list Z) : Z := ((at_ l 0 * 256 + at_ l 1) * 256 + at_ l 2) * 256 + at_ l 3.
Definition le32 (l : list Z) : Z := ((at_ l 3 * 256 + at_ l 2) * 256 + at_ l 1) * 256 + at_ l 0.

(** * JPEG *)
Fixpoint skip_ff (l : list Z) : list Z :=
  match l with
  | b :: l' => if b =? 255 then skip_ff l' else l
  | [] => []
  end.

Inductive scan_result := ScanMarker (at_marker : list Z) | ScanBroken | ScanNoEnd.

(** The inner loop of a scan: entropy-coded bytes up to the next marker that is
    neither a stuffed zero nor a restart marker. *)
Fixpoint jpeg_scan (fuel : nat) (l : list Z) : option scan_result :=
  match fuel with
  | O => None
  | S k =>
    match l with
    | [] => Some ScanNoEnd
    | b :: l' =>
      if negb (b =? 255) then jpeg_scan k l'
      else match skip_ff l with
           | [] => Some ScanBroken
           | m :: l'' =>
             if (m =? 0) || between 208 215 m then jpeg_scan k l'' else Some (ScanMarker l)
           end
    end
  end.

Fixpoint jpeg_segments (fuel : nat) (l : list Z) : res imgerr unit :=
  match fuel with
  | O => Err EImageFuel
  | S k =>
    match l with
    | [] => Err EJPEGNoEnd
    | b :: _ =>
      if negb (b =? 255) then Err EJPEGMarker
      else match skip_ff l with
           | [] => Err EJPEGNoEnd
           | marker :: rest =>
             if marker =? 217 then (if bool_decide (rest = []) then Ok tt else Err EJPEGTrailing)
             else if (marker =? 216) || (marker =? 0) then Err EJPEGMarker
             else if (marker =? 1) || between 208 215 marker then jpeg_segments k rest
             else if zlen rest <? 2 then Err EJPEGSegment
             else
               let segmentLength := be16 rest in
               if (segmentLength <? 2) || (segmentLength >? zlen rest) then Err EJPEGSegmentLength
               else
                 let rest' := zdrop segmentLength rest in
                 if negb (marker =? 218) then jpeg_segments k rest'
                 else match jpeg_scan (S (length rest')) rest' with
                      | None => Err EImageFuel
                      | Some ScanBroken => Err EJPEGScan
                      | Some ScanNoEnd => Err EJPEGNoEnd
                      | Some (ScanMarker l') => jpeg_segments k l'
                      end
           end
    end
  end.

Definition validateJPEGContainer (data : list Z) : res imgerr unit :=
  match data with
  | 255 :: 216 :: rest => if zlen data <? 4 then Err EJPEGContainer else jpeg_segments (length data) rest
  | _ => Err EJPEGContainer
  end.

(** * PNG *)
Definition png_signature : list Z := [137; 80; 78; 71; 13; 10; 26; 10].
Definition IEND : list Z := [73; 69; 78; 68].

Fixpoint png_chunks (fuel : nat) (l : list Z) : res imgerr unit :=
  match fuel with
  | O => Err EImageFuel
  | S k =>
    if zlen l <? 12 then Err EPNGNoEnd
    else
      let chunkLength := be32 l in
      if 12 + chunkLength >? zlen l then Err EPNGChunk
      else
        let chunkType := take 4 (drop 4 l) in
        let rest := zdrop (12 + chunkLength) l in
        if bool_decide (chunkType = IEND) then
          if negb (chunkLength =? 0) || negb (bool_decide (rest = [])) then Err EPNGTrailing else Ok tt
        else png_chunks k rest
  end.

Definition validatePNGContainer (data : list Z) : res imgerr unit :=
  if bool_decide (take 8 data = png_signature) then png_chunks (S (length data)) (drop 8 data)
  else Err EPNGContainer.

(** * GIF *)
Fixpoint skipGIFSubBlocks (fuel : nat) (l : list Z) : option (list Z) :=
  match fuel with
  | O => None
  | S k =>
    match l with
    | [] => None
    | n :: rest =>
      if n =? 0 then Some rest
      else if n >? zlen rest then None
      else skipGIFSubBlocks k (zdrop n rest)
    end
  end.

Definition color_table (packed : Z) : Z :=
  if negb (Z.land packed 128 =? 0) then 3 * Z.shiftl 1 (Z.land packed 7 + 1) else 0.

Fixpoint gif_blocks (fuel : nat) (frames : Z) (l : list Z) : res imgerr unit :=
  match fuel with
  | O => Err EImageFuel
  | S k =>
    match l with
    | [] => Err EGIFNoEnd
    | b :: rest =>
      if b =? 59 then
        if negb (frames =? 1) || negb (bool_decide (rest = [])) then Err EGIFFrames else Ok tt
      else if b =? 33 then
        if zlen l <? 2 then Err EGIFExtension
        else match skipGIFSubBlocks (length l) (drop 2 l) with
             | None => Err EGIFExtension
             | Some l' => gif_blocks k frames l'
             end
      else if b =? 44 then
        if frames + 1 >? 1 then Err EGIFAnimated
        else if zlen l <? 10 then Err EGIFBlock
        else
          let skip := 10 + color_table (at_ l 9) in
          if skip >=? zlen l then Err EGIFData
          else match skipGIFSubBlocks (length l) (zdrop (skip + 1) l) with
               | None => Err EGIFData
               | Some l' => gif_blocks k (frames + 1) l'
               end
      else Err EGIFUnknown
    end
  end.

Definition gif_signature (l : list Z) : bool :=
  bool_decide (take 6 l = [71; 73; 70; 56; 55; 97]) || bool_decide (take 6 l = [71; 73; 70; 56; 57; 97]).

Definition validateSingleFrameGIF (data : list Z) : res imgerr unit :=
  if (zlen data <? 14) || negb (gif_signature data) then Err EGIFContainer
  else
    let offset := 13 + color_table (at_ data 10) in
    if offset >? zlen data then Err EGIFTable
    else gif_blocks (S (length data)) 0 (zdrop offset data).

(** * WebP *)
Definition ANIM : list Z := [65; 78; 73; 77].
Definition ANMF : list Z := [65; 78; 77; 70].
Definition VP8X : list Z := [86; 80; 56; 88].

(** A chunk of odd length is followed by a padding byte, which must be there. *)
Fixpoint webp_chunks (fuel : nat) (l : list Z) : res imgerr unit :=
  match fuel with
  | O => Err EImageFuel
  | S k =>
    if zlen l <? 8 then (if bool_decide (l = []) then Ok tt else Err EWebPBoundary)
    else
      let chunkType := take 4 l in
      let chunkLength := le32 (drop 4 l) in
      if 8 + chunkLength >? zlen l then Err EWebPChunk
      else if bool_decide (chunkType = ANIM) || bool_decide (chunkType = ANMF) then Err EWebPAnimated
      else if bool_decide (chunkType = VP8X) && (chunkLength >=? 1) && negb (Z.land (at_ l 8) 2 =? 0)
      then Err EWebPAnimated
      else
        let next := 8 + chunkLength + (if negb (chunkLength mod 2 =? 0) then 1 else 0) in
        if next >? zlen l then Err EWebPBoundary
        else webp_chunks k (zdrop next l)
  end.

Definition RIFF : list Z := [82; 73; 70; 70].
Definition WEBP : list Z := [87; 69; 66; 80].

Definition validateStillWebP (data : list Z) : res imgerr unit :=
  if (zlen data <? 20) || negb (bool_decide (take 4 data = RIFF))
     || negb (bool_decide (take 4 (drop 8 data) = WEBP)) then Err EWebPContainer
  else if negb (le32 (drop 4 data) + 8 =? zlen data) then Err EWebPLength
  else webp_chunks (length data) (drop 12 data).

Definition validateImageContainer (mimeType : string) (data : list Z) : res imgerr unit :=
  if bool_decide (mimeType = "image/jpeg") then validateJPEGContainer data
  else if bool_decide (mimeType = "image/png") then validatePNGContainer data
  else if bool_decide (mimeType = "image/gif") then validateSingleFrameGIF data
  else if bool_decide (mimeType = "image/webp") then validateStillWebP data
  else Err EImageFormat.

(** * Arithmetic of suffixes *)
Lemma zlen_nonneg l : 0 <= zlen l.
Proof. unfold zlen. lia. Qed.

Lemma zlen_app l k : zlen (l ++ k) = zlen l + zlen k.
Proof. unfold zlen. rewrite length_app. lia. Qed.

Lemma zlen_cons b l : zlen (b :: l) = 1 + zlen l.
Proof. unfold zlen. cbn. lia. Qed.

Lemma zlen_nil : zlen [] = 0.
Proof. done. Qed.

Lemma zdrop_app n l k : zlen l = n → zdrop n (l ++ k) = k.
Proof. unfold zlen, zdrop. intros <-. rewrite Nat2Z.id. apply drop_app_length. Qed.

Lemma zdrop_length n l : 0 <= n → length (zdrop n l) = (length l - Z.to_nat n)%nat.
Proof. intros. unfold zdrop. apply length_drop. Qed.

Lemma zsplit n l : 0 <= n <= zlen l → ∃ a b, l = a ++ b ∧ zlen a = n ∧ zdrop n l = b.
Proof.
  intros H. exists (take (Z.to_nat n) l), (zdrop n l). unfold zdrop, zlen in *.
  rewrite take_drop, length_take. split; [done|]. split; [lia|done].
Qed.

Lemma at_byte l i : Forall is_byte l → 0 <= at_ l i < 256.
Proof.
  intros H. unfold at_. destruct (nth_in_or_default i l 0) as [Hin| ->]; [|lia].
  rewrite Forall_forall in H. apply list_elem_of_In in Hin. apply H in Hin. unfold is_byte in Hin. lia.
Qed.

Lemma be32_range l : Forall is_byte l → 0 <= be32 l.
Proof. intros H. unfold be32. pose proof (at_byte l 0 H). pose proof (at_byte l 1 H). pose proof (at_byte l 2 H). pose proof (at_byte l 3 H). lia. Qed.

Lemma le32_range l : Forall is_byte l → 0 <= le32 l.
Proof. intros H. unfold le32. pose proof (at_byte l 0 H). pose proof (at_byte l 1 H). pose proof (at_byte l 2 H). pose proof (at_byte l 3 H). lia. Qed.

Lemma at_app l k i : (i < length l)%nat → at_ (l ++ k) i = at_ l i.
Proof. intros. unfold at_. by apply app_nth1. Qed.

Lemma be32_app l k : zlen l = 4 → be32 (l ++ k) = be32 l.
Proof. unfold zlen. intros. unfold be32. rewrite !at_app by lia. done. Qed.

Lemma le32_app l k : zlen l = 4 → le32 (l ++ k) = le32 l.
Proof. unfold zlen. intros. unfold le32. rewrite !at_app by lia. done. Qed.

Lemma take_app_zlen l k n : zlen l = Z.of_nat n → take n (l ++ k) = l.
Proof. unfold zlen. intros. apply take_app_length'. lia. Qed.

Lemma drop_app_zlen l k n : zlen l = Z.of_nat n → drop n (l ++ k) = k.
Proof. unfold zlen. intros. apply drop_app_length'. lia. Qed.

(** * PNG: accepted exactly when the buffer is a chunk sequence ending in IEND *)
Inductive png_body : list Z → Prop :=
| png_last hdr crc : zlen hdr = 4 → be32 hdr = 0 → zlen crc = 4 → png_body (hdr ++ IEND ++ crc)
| png_more hdr ty payload crc rest :
    zlen hdr = 4 → be32 hdr = zlen payload → zlen ty = 4 → ty ≠ IEND → zlen crc = 4 → png_body rest →
    png_body (hdr ++ ty ++ payload ++ crc ++ rest).

Lemma png_chunks_sound fuel l : Forall is_byte l → png_chunks fuel l = Ok tt → png_body l.
Proof.
  revert l. induction fuel as [|k IH]; intros l Hb; cbn; [done|].
  destruct (zlen l <? 12) eqn:E1; [done|]. pose proof (be32_range l Hb) as Hr.
  destruct (12 + be32 l >? zlen l) eqn:E2; [done|].
  destruct (zsplit 4 l) as (hdr & l1 & -> & Hh & _); [lia|]. rewrite be32_app in * by done.
  rewrite drop_app_zlen by done. rewrite zlen_app in *.
  destruct (zsplit 4 l1) as (ty & l2 & -> & Ht & _); [lia|]. rewrite take_app_zlen by done. rewrite zlen_app in *.
  destruct (zsplit (be32 hdr) l2) as (payload & l3 & -> & Hp & _); [lia|]. rewrite zlen_app in *.
  destruct (zsplit 4 l3) as (crc & rest & -> & Hc & _); [lia|].
  replace (hdr ++ ty ++ payload ++ crc ++ rest) with ((hdr ++ ty ++ payload ++ crc) ++ rest) by by rewrite <-!app_assoc.
  rewrite zdrop_app by (rewrite !zlen_app; lia). rewrite <-!app_assoc. case_bool_decide as Hi.
  - destruct (_ || _) eqn:E3; [done|]. apply orb_false_elim in E3 as [E3 E4].
    apply negb_false_iff, Z.eqb_eq in E3. apply negb_false_iff, bool_decide_eq_true in E4. subst ty rest.
    intros _. assert (payload = []) as -> by (destruct payload; [done|rewrite zlen_cons in Hp; pose proof (zlen_nonneg payload); lia]).
    rewrite app_nil_r. cbn [app]. by apply png_last.
  - intros Hok. apply png_more; try done. apply IH; [|done]. rewrite !Forall_app in Hb. tauto.
Qed.

Lemma png_chunks_complete fuel l : (length l < fuel)%nat → png_body l → png_chunks fuel l = Ok tt.
Proof.
  intros Hf Hl. revert fuel Hf. induction Hl as [hdr crc Hh Hz Hc|hdr ty payload crc rest Hh Hz Ht Hi Hc Hrest IH];
    intros [|k] Hf; try lia; cbn [png_chunks].
  - assert (zlen (hdr ++ IEND ++ crc) = 12) as -> by (rewrite !zlen_app; unfold IEND, zlen in *; cbn; lia).
    rewrite be32_app, Hz, drop_app_zlen, take_app_zlen by done. cbn [Z.ltb Z.compare].
    rewrite bool_decide_eq_true_2 by done.
    replace (hdr ++ IEND ++ crc) with ((hdr ++ IEND ++ crc) ++ []) by apply app_nil_r.
    rewrite zdrop_app by (rewrite !zlen_app; unfold IEND, zlen in *; cbn; lia). done.
  - rewrite be32_app, drop_app_zlen, take_app_zlen by done. pose proof (zlen_nonneg payload). pose proof (zlen_nonneg rest).
    rewrite !zlen_app. rewrite (proj2 (Z.ltb_ge _ _)) by lia.
    destruct (_ >? _) eqn:E; [lia|]. rewrite bool_decide_eq_false_2 by done.
    replace (hdr ++ ty ++ payload ++ crc ++ rest) with ((hdr ++ ty ++ payload ++ crc) ++ rest) by by rewrite <-!app_assoc.
    rewrite zdrop_app by (rewrite !zlen_app; lia). apply IH. rewrite !length_app in Hf. unfold zlen in *. lia.
Qed.

(** PNG containers: a buffer is accepted exactly when it is the PNG signature
    followed by well-delimited chunks of which the last, and only the last, is an
    empty IEND chunk ending at the end of the buffer. *)
Lemma validatePNGContainer_spec data :
  Forall is_byte data →
  validatePNGContainer data = Ok tt ↔ ∃ body, data = png_signature ++ body ∧ png_body body.
Proof.
  intros Hb. unfold validatePNGContainer. split.
  - case_bool_decide as Hs; [|done]. intros Hok. exists (drop 8 data). split; [by rewrite <-Hs, take_drop|].
    eapply png_chunks_sound, Hok. by apply Forall_drop.
  - intros (body & -> & Hbody). rewrite bool_decide_eq_true_2 by done.
    change (drop 8 (png_signature ++ body)) with body.
    apply png_chunks_complete; [rewrite length_app; lia|done].
Qed.

(** A one-chunk image followed by the end chunk; the checksum is not inspected. *)
Definition demo_png : list Z := png_signature ++ [0;0;0;2] ++ [73;68;65;84] ++ [7;8] ++ [1;2;3;4] ++ [0;0;0;0] ++ IEND ++ [9;9;9;9].

Example validatePNGContainer_example :
  Forall is_byte demo_png ∧ ∃ body, demo_png = png_signature ++ body ∧ png_body body.
Proof.
  assert (Forall is_byte demo_png) as Hb.
  { apply Forall_forall. intros x Hx. unfold is_byte. 
    assert (Forall (λ x, 0 <= x < 256) demo_png) as H by (vm_compute; repeat constructor; done).
    rewrite Forall_forall in H. by apply H. }
  split; [exact Hb|]. apply (validatePNGContainer_spec demo_png Hb). vm_compute. reflexivity.
Defined.

(** * GIF: exactly one frame *)
Inductive sub_blocks : list Z → list Z → Prop :=
| sb_end rest : sub_blocks (0 :: rest) rest
| sb_more n blk l rest : n ≠ 0 → zlen blk = n → sub_blocks l rest → sub_blocks (n :: blk ++ l) rest.

(** Blocks after [frames] image descriptors, up to a trailer at the very end. *)
Inductive gif_stream : Z → list Z → Prop :=
| gif_trailer : gif_stream 1 [59]
| gif_extension f label l rest : sub_blocks l rest → gif_stream f rest → gif_stream f (33 :: label :: l)
| gif_image hdr table minimum l rest :
    zlen hdr = 9 → zlen table = color_table (at_ hdr 8) → sub_blocks l rest → gif_stream 1 rest →
    gif_stream 0 (44 :: hdr ++ table ++ minimum :: l).

Lemma color_table_nonneg p : 0 <= color_table p.
Proof.
  unfold color_table. destruct (negb _); [|lia].
  assert (0 <= Z.land p 7) by (apply Z.land_nonneg; lia). rewrite Z.shiftl_1_l.
  pose proof (Z.pow_nonneg 2 (Z.land p 7 + 1)). lia.
Qed.

Lemma sub_blocks_sound fuel l rest :
  Forall is_byte l → skipGIFSubBlocks fuel l = Some rest →
  sub_blocks l rest ∧ Forall is_byte rest ∧ (length rest < length l)%nat.
Proof.
  revert l. induction fuel as [|k IH]; intros l Hb; cbn; [done|]. destruct l as [|n l]; [done|].
  apply Forall_cons in Hb as [Hn Hb]. unfold is_byte in Hn. destruct (n =? 0) eqn:E0.
  { intros [= <-]. assert (n = 0) as -> by lia. split; [constructor|]. split; [done|cbn; lia]. }
  destruct (n >? zlen l) eqn:E1; [done|]. destruct (zsplit n l) as (blk & l' & -> & Hblk & ->); [lia|].
  intros (Hs & Hr & Hlen)%IH; [|by apply Forall_app in Hb as [_ ?]].
  split; [constructor; [lia|done|done]|]. split; [done|]. cbn. rewrite length_app. lia.
Qed.

Lemma sub_blocks_complete fuel l rest :
  (length l <= fuel)%nat → sub_blocks l rest → skipGIFSubBlocks fuel l = Some rest.
Proof.
  intros Hf Hs. revert fuel Hf. induction Hs as [rest|n blk l rest Hn Hlen Hs IH]; intros [|k] Hf; cbn in Hf; try lia;
    cbn [skipGIFSubBlocks]; [done|].
  rewrite (proj2 (Z.eqb_neq n 0)) by done. rewrite zlen_app. pose proof (zlen_nonneg l).
  destruct (_ >? _) eqn:E; [lia|]. rewrite zdrop_app by done. apply IH. rewrite length_app in Hf. lia.
Qed.

Lemma gif_blocks_sound fuel f l :
  Forall is_byte l → gif_blocks fuel f l = Ok tt → 0 <= f → gif_stream f l.
Proof.
  revert f l. induction fuel as [|k IH]; intros f l Hb Hok Hf; cbn in Hok; [done|]. destruct l as [|b l]; [done|].
  pose proof (proj1 (Forall_cons _ _ _) Hb) as [_ Hb']. destruct (b =? 59) eqn:E59.
  { destruct (_ || _) eqn:E; [done|]. apply orb_false_elim in E as [E1 E2].
    apply negb_false_iff, Z.eqb_eq in E1. apply negb_false_iff, bool_decide_eq_true in E2. subst.
    assert (b = 59) as -> by lia. constructor. }
  destruct (b =? 33) eqn:E33.
  { destruct (_ <? 2) eqn:E2; [done|]. destruct l as [|label l]; [done|].
    change (drop 2 (b :: label :: l)) with l in Hok. destruct (skipGIFSubBlocks _ l) as [rest|] eqn:Es; [|done].
    apply Forall_cons in Hb' as [_ Hb'']. destruct (sub_blocks_sound _ _ _ Hb'' Es) as (Hs & Hr & _).
    assert (b = 33) as -> by lia. apply gif_extension with rest; [done|by apply IH]. }
  destruct (b =? 44) eqn:E44; [|done]. destruct (f + 1 >? 1) eqn:Ef; [done|]. assert (f = 0) as -> by lia.
  destruct (_ <? 10) eqn:E10; [done|]. rewrite zlen_cons in *.
  pose proof (color_table_nonneg (at_ (b :: l) 9)) as Hct. destruct (_ >=? _) eqn:Ed; [done|].
  destruct (zsplit 9 l) as (hdr & l1 & -> & Hh & _); [lia|]. rewrite zlen_app in *.
  assert (at_ (b :: hdr ++ l1) 9 = at_ hdr 8) as Hat.
  { unfold at_. cbn [nth]. apply app_nth1. unfold zlen in Hh. lia. }
  rewrite Hat in *. destruct (zsplit (color_table (at_ hdr 8)) l1) as (table & l2 & -> & Ht & _); [lia|].
  rewrite zlen_app in *. destruct l2 as [|minimum l3]; [rewrite zlen_nil in *; lia|].
  replace (b :: hdr ++ table ++ minimum :: l3) with ((b :: hdr ++ table ++ [minimum]) ++ l3) in Hok
    by (cbn; by rewrite <-!app_assoc).
  rewrite zdrop_app in Hok by (rewrite zlen_cons, !zlen_app, zlen_cons, zlen_nil; lia).
  destruct (skipGIFSubBlocks _ l3) as [rest|] eqn:Es; [|done].
  assert (Forall is_byte l3) as Hb3. { rewrite !Forall_app, Forall_cons in Hb'. tauto. }
  destruct (sub_blocks_sound _ _ _ Hb3 Es) as (Hs & Hr & _). assert (b = 44) as -> by lia.
  apply gif_image with rest; try done. apply IH; [done|done|lia].
Qed.

Lemma sub_blocks_shorter l rest : sub_blocks l rest → (length rest < length l)%nat.
Proof. induction 1; cbn in *; rewrite ?length_app; lia. Qed.

Lemma gif_blocks_complete fuel f l : (length l < fuel)%nat → gif_stream f l → gif_blocks fuel f l = Ok tt.
Proof.
  intros Hf Hs. revert fuel Hf.
  induction Hs as [|f label l rest Hsb Hs IH|hdr table minimum l rest Hh Ht Hsb Hs IH]; intros [|k] Hf; cbn in Hf; try lia.
  - done.
  - cbn [gif_blocks Z.eqb Pos.eqb]. rewrite !zlen_cons. pose proof (zlen_nonneg l).
    destruct (_ <? 2) eqn:E; [lia|]. change (drop 2 (33 :: label :: l)) with l.
    rewrite (sub_blocks_complete _ l rest) by first [done | cbn; lia]. apply IH. apply sub_blocks_shorter in Hsb. lia.
  - cbn [gif_blocks Z.eqb Pos.eqb Z.add Z.gtb Z.compare Pos.compare Pos.compare_cont].
    assert (zlen (44 :: hdr ++ table ++ minimum :: l) = 11 + zlen table + zlen l) as Hlen.
    { rewrite zlen_cons, !zlen_app, zlen_cons. lia. }
    pose proof (zlen_nonneg table). pose proof (zlen_nonneg l). rewrite Hlen. destruct (_ <? 10) eqn:E; [lia|].
    assert (at_ (44 :: hdr ++ table ++ minimum :: l) 9 = at_ hdr 8) as ->.
    { unfold at_. cbn [nth]. apply app_nth1. unfold zlen in Hh. lia. }
    destruct (_ >=? _) eqn:E2; [lia|].
    replace (44 :: hdr ++ table ++ minimum :: l) with ((44 :: hdr ++ table ++ [minimum]) ++ l)
      by (cbn; by rewrite <-!app_assoc).
    rewrite zdrop_app by (rewrite zlen_cons, !zlen_app, zlen_cons, zlen_nil; lia).
    rewrite (sub_blocks_complete _ l rest) by first [done | rewrite length_app; lia]. apply IH.
    apply sub_blocks_shorter in Hsb. rewrite !length_app in Hf. cbn in Hf. lia.
Qed.

(** GIF containers: a buffer is accepted exactly when it is a GIF header with
    its color table followed by extension blocks and exactly one image block, and
    the trailer byte is the last byte: animations and trailing data are refused,
    every still image is accepted. *)
Lemma validateSingleFrameGIF_spec data :
  Forall is_byte data →
  validateSingleFrameGIF data = Ok tt ↔
  ∃ hdr table body, data = hdr ++ table ++ body ∧ zlen hdr = 13 ∧ gif_signature hdr = true ∧
    zlen table = color_table (at_ hdr 10) ∧ gif_stream 0 body.
Proof.
  intros Hb. unfold validateSingleFrameGIF.
  assert (∀ hdr k, zlen hdr = 13 → gif_signature (hdr ++ k) = gif_signature hdr ∧ at_ (hdr ++ k) 10 = at_ hdr 10) as Hhdr.
  { intros hdr k H13. unfold zlen in H13. split; [|apply at_app; lia]. unfold gif_signature.
    by rewrite !take_app_le by lia. }
  split.
  - destruct (zlen data <? 14) eqn:E14; [done|]. cbn [orb].
    destruct (zsplit 13 data) as (hdr & l1 & -> & Hh & _); [lia|]. destruct (Hhdr hdr l1 Hh) as [-> ->].
    destruct (gif_signature hdr) eqn:Es; [|done]. cbn [negb].
    pose proof (color_table_nonneg (at_ hdr 10)) as Hct. rewrite zlen_app. destruct (_ >? _) eqn:Et; [done|].
    destruct (zsplit (color_table (at_ hdr 10)) l1) as (table & body & -> & Ht & _); [lia|].
    rewrite app_assoc, zdrop_app by (rewrite zlen_app; lia). intros Hok. exists hdr, table, body.
    rewrite app_assoc. split; [done|]. split; [done|]. split; [done|]. split; [done|].
    eapply gif_blocks_sound; [|done|lia]. rewrite !Forall_app in Hb. tauto.
  - intros (hdr & table & body & -> & Hh & Hs & Ht & Hst). destruct (Hhdr hdr (table ++ body) Hh) as [-> ->].
    assert (1 <= zlen body) by (destruct body as [|x body]; [inversion Hst|rewrite zlen_cons; pose proof (zlen_nonneg body); lia]).
    rewrite !zlen_app. pose proof (zlen_nonneg table). destruct (_ <? 14) eqn:E; [lia|]. rewrite Hs. cbn [orb negb].
    destruct (_ >? _) eqn:Et; [lia|]. rewrite app_assoc, zdrop_app by (rewrite zlen_app; lia).
    apply gif_blocks_complete; [rewrite !length_app; lia|done].
Qed.

Definition demo_gif : list Z :=
  [71;73;70;56;57;97; 1;0;1;0; 0;0;0] ++ [33;249;4;0;0;0;0;0] ++ [44;0;0;0;0;1;0;1;0;0; 2] ++ [2;76;1;0] ++ [59].

Example validateSingleFrameGIF_example :
  Forall is_byte demo_gif ∧ validateSingleFrameGIF (removelast demo_gif ++ [44] ++ [59]) = Err EGIFAnimated ∧
  ∃ hdr table body, demo_gif = hdr ++ table ++ body ∧ zlen hdr = 13 ∧ gif_signature hdr = true ∧
    zlen table = color_table (at_ hdr 10) ∧ gif_stream 0 body.
Proof.
  assert (Forall is_byte demo_gif) as Hb.
  { assert (Forall (λ x, 0 <= x < 256) demo_gif) as H by (vm_compute; repeat constructor; done).
    eapply Forall_impl; [exact H|]. intros x Hx. exact Hx. }
  split; [exact Hb|]. split; [vm_compute; reflexivity|].
  apply (validateSingleFrameGIF_spec demo_gif Hb). vm_compute. reflexivity.
Defined.

(** * WebP: no animation, exact length *)
Inductive webp_body : list Z → Prop :=
| webp_end : webp_body []
| webp_chunk ty size payload pad rest :
    zlen ty = 4 → zlen size = 4 → le32 size = zlen payload → ty ≠ ANIM → ty ≠ ANMF →
    (ty = VP8X → payload ≠ [] → Z.land (at_ payload 0) 2 = 0) →
    zlen pad = zlen payload mod 2 → webp_body rest →
    webp_body (ty ++ size ++ payload ++ pad ++ rest).

Lemma mod2_pad n : (if negb (n mod 2 =? 0) then 1 else 0) = n mod 2.
Proof. pose proof (Z.mod_pos_bound n 2). destruct (n mod 2 =? 0) eqn:E; cbn; lia. Qed.

Lemma at_chunk ty size payload k :
  zlen ty = 4 → zlen size = 4 → payload ≠ [] → at_ (ty ++ size ++ payload ++ k) 8 = at_ payload 0.
Proof.
  unfold zlen, at_. intros. rewrite app_nth2 by lia. rewrite app_nth2 by lia.
  replace (8 - length ty - length size)%nat with 0%nat by lia. by destruct payload.
Qed.

Lemma webp_chunks_sound fuel l : Forall is_byte l → webp_chunks fuel l = Ok tt → webp_body l.
Proof.
  revert l. induction fuel as [|k IH]; intros l Hb; cbn [webp_chunks]; [done|].
  destruct (zlen l <? 8) eqn:E8. { case_bool_decide; [|done]. subst. intros _. constructor. }
  destruct (zsplit 4 l) as (ty & l1 & -> & Hty & _); [lia|]. rewrite zlen_app in *.
  rewrite take_app_zlen, drop_app_zlen by done.
  destruct (zsplit 4 l1) as (size & l2 & -> & Hsz & _); [lia|]. rewrite le32_app by done. rewrite zlen_app in *.
  assert (Forall is_byte size) as Hbs by (rewrite !Forall_app in Hb; tauto). pose proof (le32_range size Hbs) as Hr.
  destruct (_ >? _) eqn:E1; [done|]. destruct (_ || _) eqn:Ea; [done|]. apply orb_false_elim in Ea as [Ea1 Ea2]. split_bools.
  destruct (zsplit (le32 size) l2) as (payload & l3 & -> & Hp & _); [lia|]. rewrite zlen_app in *.
  destruct (_ && _ && _) eqn:Ex; [done|]. rewrite mod2_pad.
  destruct (8 + le32 size + _ >? _) eqn:E2; [done|].
  pose proof (Z.mod_pos_bound (le32 size) 2 ltac:(lia)).
  destruct (zsplit (le32 size mod 2) l3) as (pad & rest & -> & Hpad & _); [lia|].
  replace (ty ++ size ++ payload ++ pad ++ rest) with ((ty ++ size ++ payload ++ pad) ++ rest) by by rewrite <-!app_assoc.
  rewrite zdrop_app by (rewrite !zlen_app; lia). intros Hok. rewrite <-!app_assoc.
  apply webp_chunk; try done.
  - intros -> Hne. rewrite (at_chunk VP8X size payload) in Ex by done. rewrite bool_decide_eq_true_2 in Ex by done.
    destruct (Z.land (at_ payload 0) 2 =? 0) eqn:El; [lia|]. cbn in Ex.
    assert (1 <= zlen payload) by (destruct payload; [done|rewrite zlen_cons; pose proof (zlen_nonneg payload); lia]). lia.
  - by rewrite Hp.
  - apply IH; [rewrite !Forall_app in Hb; tauto|done].
Qed.

Lemma webp_chunks_complete fuel l : (length l < fuel)%nat → webp_body l → webp_chunks fuel l = Ok tt.
Proof.
  intros Hf Hl. revert fuel Hf.
  induction Hl as [|ty size payload pad rest Hty Hsz Hle Ha1 Ha2 Hx Hpad Hrest IH]; intros [|k] Hf; try lia; cbn [webp_chunks].
  { done. }
  rewrite take_app_zlen, drop_app_zlen, le32_app, Hle, mod2_pad by done. rewrite !zlen_app.
  pose proof (zlen_nonneg payload). pose proof (zlen_nonneg rest). pose proof (Z.mod_pos_bound (zlen payload) 2 ltac:(lia)).
  destruct (_ <? 8) eqn:E8; [lia|]. destruct (_ >? _) eqn:E1; [lia|].
  rewrite !bool_decide_eq_false_2 by done. cbn [orb].
  assert (bool_decide (ty = VP8X) && (zlen payload >=? 1) &&
    negb (Z.land (at_ (ty ++ size ++ payload ++ pad ++ rest) 8) 2 =? 0) = false) as ->.
  { case_bool_decide; [|done]. destruct (zlen payload >=? 1) eqn:Ep; [|done].
    assert (payload ≠ []) by (intros ->; done). rewrite at_chunk, Hx by done. done. }
  destruct (8 + zlen payload + _ >? _) eqn:E2; [lia|].
  replace (ty ++ size ++ payload ++ pad ++ rest) with ((ty ++ size ++ payload ++ pad) ++ rest) by by rewrite <-!app_assoc.
  rewrite zdrop_app by (rewrite !zlen_app; lia). apply IH. rewrite !length_app in Hf. unfold zlen in *. lia.
Qed.

(** WebP containers: a buffer is accepted exactly when it is a RIFF/WEBP
    header whose declared size is the size of the buffer, followed by padded
    chunks that fill it, none of which is an animation chunk or announces one. *)
Lemma validateStillWebP_spec data :
  Forall is_byte data →
  validateStillWebP data = Ok tt ↔
  ∃ size body, data = RIFF ++ size ++ WEBP ++ body ∧ zlen size = 4 ∧ body ≠ [] ∧
    le32 size + 8 = zlen data ∧ webp_body body.
Proof.
  intros Hb. unfold validateStillWebP. split.
  - destruct (zlen data <? 20) eqn:E20; [done|]. cbn [orb].
    destruct (zsplit 4 data) as (r & l1 & -> & Hr & _); [lia|]. rewrite zlen_app in *.
    destruct (zsplit 4 l1) as (size & l2 & -> & Hs & _); [lia|]. rewrite zlen_app in *.
    destruct (zsplit 4 l2) as (w & body & -> & Hw & _); [lia|]. rewrite zlen_app in *.
    rewrite (take_app_zlen r _ 4), (drop_app_zlen r _ 4), le32_app by done.
    replace (drop 8 (r ++ size ++ w ++ body)) with (w ++ body)
      by (rewrite app_assoc; symmetry; apply drop_app_zlen; rewrite zlen_app; lia).
    replace (drop 12 (r ++ size ++ w ++ body)) with body
      by (rewrite !app_assoc; symmetry; apply drop_app_zlen; rewrite !zlen_app; lia).
    rewrite (take_app_zlen w _ 4) by done. destruct (bool_decide (r = RIFF)) eqn:E1; [|done].
    destruct (bool_decide (w = WEBP)) eqn:E2; [|done]. split_bools. subst r w. cbn [orb negb].
    destruct (_ =? _) eqn:E3; [|done]. cbn [negb]. intros Hok. exists size, body. split; [done|]. split; [done|].
    split; [intros ->; rewrite zlen_nil in *; lia|]. split; [lia|].
    eapply webp_chunks_sound, Hok. rewrite !Forall_app in Hb. tauto.
  - intros (size & body & -> & Hs & Hne & Hlen & Hbody).
    assert (8 <= zlen body).
    { destruct Hbody; [done|]. rewrite !zlen_app. pose proof (zlen_nonneg payload). pose proof (zlen_nonneg pad).
      pose proof (zlen_nonneg rest). lia. }
    rewrite zlen_app, zlen_app, zlen_app, Hs in *. change (zlen RIFF) with 4 in *. change (zlen WEBP) with 4 in *.
    destruct (_ <? 20) eqn:E20; [lia|]. rewrite (take_app_zlen RIFF _ 4) by done.
    rewrite (drop_app_zlen RIFF _ 4), le32_app by done.
    replace (drop 8 (RIFF ++ size ++ WEBP ++ body)) with (WEBP ++ body)
      by (rewrite app_assoc; symmetry; apply drop_app_zlen; rewrite zlen_app; change (zlen RIFF) with 4; lia).
    rewrite (take_app_zlen WEBP _ 4), !bool_decide_eq_true_2 by done. cbn [orb negb].
    destruct (_ =? _) eqn:E; [|lia]. cbn [negb].
    replace (drop 12 (RIFF ++ size ++ WEBP ++ body)) with body
      by (rewrite !app_assoc; symmetry; apply drop_app_zlen; rewrite !zlen_app; change (zlen RIFF) with 4; change (zlen WEBP) with 4; lia).
    apply webp_chunks_complete; [rewrite !length_app; cbn; lia|done].
Qed.

Definition demo_webp : list Z := RIFF ++ [16;0;0;0] ++ WEBP ++ [86;80;56;32] ++ [3;0;0;0] ++ [1;2;3] ++ [0].

Example validateStillWebP_example :
  Forall is_byte demo_webp ∧
  ∃ size body, demo_webp = RIFF ++ size ++ WEBP ++ body ∧ zlen size = 4 ∧ body ≠ [] ∧
    le32 size + 8 = zlen demo_webp ∧ webp_body body.
Proof.
  assert (Forall is_byte demo_webp) as Hb.
  { assert (Forall (λ x, 0 <= x < 256) demo_webp) as H by (vm_compute; repeat constructor; done).
    eapply Forall_impl; [exact H|]. intros x Hx. exact Hx. }
  split; [exact Hb|]. apply (validateStillWebP_spec demo_webp Hb). vm_compute. reflexivity.
Defined.

(** * JPEG, and fuel *)
Lemma skip_ff_length l : (length (skip_ff l) <= length l)%nat.
Proof. induction l as [|b l IH]; cbn; [done|]. destruct (b =? 255); cbn; lia. Qed.

Lemma skip_ff_suffix l : ∃ pre, l = pre ++ skip_ff l ∧ Forall (λ b, b = 255) pre.
Proof.
  induction l as [|b l (pre & IH & Hp)]; cbn; [by exists []|].
  destruct (b =? 255) eqn:E; [|by exists []]. exists (b :: pre). split; [cbn; congruence|].
  apply Forall_cons. split; [lia|done].
Qed.

Lemma jpeg_scan_total fuel l :
  (length l < fuel)%nat →
  ∃ r, jpeg_scan fuel l = Some r ∧
    match r with ScanMarker l' => (length l' <= length l)%nat ∧ ∃ pre, l = pre ++ l' | _ => True end.
Proof.
  revert l. induction fuel as [|k IH]; intros l Hl; [lia|]. cbn [jpeg_scan]. destruct l as [|b l]; [by exists ScanNoEnd|].
  cbn in Hl. destruct (negb _) eqn:Eb.
  - destruct (IH l ltac:(lia)) as (r & -> & Hr). exists r. split; [done|]. destruct r; [|done..].
    destruct Hr as (Hlen & pre & ->). split; [cbn; lia|]. by exists (b :: pre).
  - pose proof (skip_ff_length l) as Hs.
    destruct (skip_ff_suffix (b :: l)) as (pre & Hpre & _). cbn [skip_ff] in *. apply negb_false_iff in Eb.
    rewrite Eb in *. destruct (skip_ff l) as [|m l2]; [by exists ScanBroken|]. cbn in Hs. destruct (_ || _).
    + destruct (IH l2 ltac:(lia)) as (r & -> & Hr). exists r. split; [done|]. destruct r; [|done..].
      destruct Hr as (Hlen & pre' & ->). split; [cbn; lia|]. exists (pre ++ m :: pre'). rewrite Hpre, <-app_assoc. done.
    + eexists. split; [done|]. split; [done|]. by exists [].
Qed.

Lemma jpeg_segments_spec fuel l :
  (length l < fuel)%nat → Forall is_byte l →
  jpeg_segments fuel l ≠ Err EImageFuel ∧
  (jpeg_segments fuel l = Ok tt → ∃ pre, l = pre ++ [255; 217]).
Proof.
  revert l. induction fuel as [|k IH]; intros l Hl Hb; [lia|]. cbn [jpeg_segments]. destruct l as [|b l]; [done|].
  cbn in Hl. destruct (negb (b =? 255)) eqn:Eb; [done|]. apply negb_false_iff in Eb.
  destruct (skip_ff_suffix (b :: l)) as (pre & Hpre & Hff). pose proof (skip_ff_length l) as Hs.
  assert (Forall is_byte (skip_ff (b :: l))) as Hbs. { rewrite Hpre in Hb. apply Forall_app in Hb. tauto. }
  cbn [skip_ff] in *. rewrite Eb in *.
  destruct (skip_ff l) as [|marker rest] eqn:Esk; [done|]. cbn in Hs. apply Forall_cons in Hbs as [Hm Hbr].
  assert (∀ l', (length l' <= length rest)%nat → Forall is_byte l' → (∃ p, rest = p ++ l') →
    jpeg_segments k l' ≠ Err EImageFuel ∧
    (jpeg_segments k l' = Ok tt → ∃ pre, b :: l = pre ++ [255; 217])) as Hnext.
  { intros l' Hlen Hb' (p & Hp). destruct (IH l' ltac:(lia) Hb') as [H1 H2]. split; [done|].
    intros (q & ->)%H2. exists (pre ++ marker :: p ++ q). rewrite Hpre, Hp. by rewrite <-!app_assoc; cbn; rewrite <-app_assoc. }
  destruct (marker =? 217) eqn:E217.
  { case_bool_decide; [|done]. split; [done|]. intros _. subst rest. assert (marker = 217) as -> by lia.
    destruct pre as [|x pre] using rev_ind.
    - cbn in Hpre. injection Hpre as -> ->. lia.
    - apply Forall_app in Hff as [_ Hx]. apply Forall_singleton in Hx as ->. exists pre. rewrite Hpre. by rewrite <-app_assoc. }
  destruct (_ || _); [done|]. destruct (_ || _); [apply Hnext; [done|done|by exists []]|].
  destruct (_ <? 2); [done|]. assert (0 <= be16 rest) as Hbe.
  { unfold be16. pose proof (at_byte rest 0 Hbr). pose proof (at_byte rest 1 Hbr). lia. }
  destruct (_ || _) eqn:Elen; [done|]. apply orb_false_elim in Elen as [Elen1 Elen2].
  destruct (zsplit (be16 rest) rest) as (seg & rest' & Hrest & Hseg & Hz); [lia|]. rewrite Hz.
  assert (length rest' <= length rest)%nat as Hle by (rewrite Hrest, length_app; lia).
  assert (Forall is_byte rest') as Hbr'. { rewrite Hrest in Hbr. apply Forall_app in Hbr. tauto. }
  destruct (negb _); [apply Hnext; eauto|].
  destruct (jpeg_scan_total (S (length rest')) rest' ltac:(lia)) as (r & -> & Hr). destruct r as [l'| |]; [|done..].
  destruct Hr as (Hlen' & p & Hp). apply Hnext; [lia| |].
  - rewrite Hp in Hbr'. apply Forall_app in Hbr'. tauto.
  - exists (seg ++ p). rewrite Hrest, Hp. by rewrite <-app_assoc.
Qed.

Lemma png_chunks_fuel fuel l : (length l < fuel)%nat → Forall is_byte l → png_chunks fuel l ≠ Err EImageFuel.
Proof.
  revert l. induction fuel as [|k IH]; intros l Hl Hb; [lia|]. cbn [png_chunks]. destruct (_ <? 12) eqn:E; [done|].
  pose proof (be32_range l Hb). destruct (_ >? _) eqn:E2; [done|].
  case_bool_decide; [by destruct (_ || _)|]. apply IH; [|by apply Forall_drop].
  rewrite zdrop_length by lia. unfold zlen in *. lia.
Qed.

Lemma webp_chunks_fuel fuel l : (length l < fuel)%nat → Forall is_byte l → webp_chunks fuel l ≠ Err EImageFuel.
Proof.
  revert l. induction fuel as [|k IH]; intros l Hl Hb; [lia|]. cbn [webp_chunks].
  destruct (_ <? 8) eqn:E; [by case_bool_decide|].
  pose proof (le32_range (drop 4 l) ltac:(by apply Forall_drop)) as Hr. pose proof (Z.mod_pos_bound (le32 (drop 4 l)) 2 ltac:(lia)).
  destruct (_ >? _) eqn:E2; [done|]. destruct (_ || _); [done|]. destruct (_ && _ && _); [done|]. rewrite mod2_pad.
  destruct (8 + _ + _ >? _) eqn:E3; [done|]. apply IH; [|by apply Forall_drop].
  rewrite zdrop_length by lia. unfold zlen in *. lia.
Qed.

Lemma gif_blocks_fuel fuel f l : (length l < fuel)%nat → Forall is_byte l → gif_blocks fuel f l ≠ Err EImageFuel.
Proof.
  revert f l. induction fuel as [|k IH]; intros f l Hl Hb; [lia|]. cbn [gif_blocks]. destruct l as [|b l]; [done|].
  assert (∀ n f', Forall is_byte (zdrop n (b :: l)) → 
    match skipGIFSubBlocks (length (b :: l)) (zdrop n (b :: l)) with
    | None => True
    | Some l' => gif_blocks k f' l' ≠ Err EImageFuel
    end) as Hnext.
  { intros n f' Hbn. destruct (skipGIFSubBlocks _ _) as [l'|] eqn:Es; [|done].
    destruct (sub_blocks_sound _ _ _ Hbn Es) as (_ & Hb' & Hlen). apply IH; [|done].
    unfold zdrop in Hlen. rewrite length_drop in Hlen. lia. }
  destruct (b =? 59); [by destruct (_ || _)|]. destruct (b =? 33).
  { destruct (_ <? 2); [done|]. specialize (Hnext 2 f ltac:(by apply Forall_drop)).
    change (zdrop 2 (b :: l)) with (drop 2 (b :: l)) in Hnext. by destruct (skipGIFSubBlocks _ _). }
  destruct (b =? 44); [|done]. destruct (_ >? 1); [done|]. destruct (_ <? 10); [done|]. destruct (_ >=? _); [done|].
  specialize (Hnext (10 + color_table (at_ (b :: l) 9) + 1) (f + 1) ltac:(by apply Forall_drop)).
  by destruct (skipGIFSubBlocks _ _).
Qed.

(** * JPEG: segments, scans and the end marker *)
(** [l] is the marker [m] behind one or more 255 bytes, followed by [rest]. *)
Definition marker_at (m : Z) (rest l : list Z) : Prop :=
  ∃ fill, l = 255 :: fill ++ m :: rest ∧ Forall (eq 255) fill ∧ m ≠ 255.
Definition restart (m : Z) : Prop := 208 <= m <= 215.
(** A segment: its first two bytes are its length, themselves included. *)
Definition jpeg_segment (seg : list Z) : Prop := 2 <= zlen seg ∧ be16 seg = zlen seg.

(** Entropy-coded data, with stuffed zeros and restart markers. *)
Inductive entropy : list Z → Prop :=
| en_nil : entropy []
| en_byte b s : b ≠ 255 → entropy s → entropy (b :: s)
| en_marker m s l : marker_at m s l → m = 0 ∨ restart m → entropy s → entropy l.

Inductive jpeg_body : list Z → Prop :=
| jb_end l : marker_at 217 [] l → jpeg_body l
| jb_alone l m rest : marker_at m rest l → m = 1 ∨ restart m → jpeg_body rest → jpeg_body l
| jb_segment l m seg rest :
    marker_at m (seg ++ rest) l → m ∉ [0; 1; 216; 217; 218] → ¬ restart m → jpeg_segment seg → jpeg_body rest → jpeg_body l
| jb_scan l seg scan m rest tail :
    marker_at 218 (seg ++ scan ++ rest) l → jpeg_segment seg → entropy scan →
    marker_at m tail rest → m ≠ 0 → ¬ restart m → jpeg_body rest → jpeg_body l.

Lemma skip_ff_marker m rest l : marker_at m rest l → ∃ l', l = 255 :: l' ∧ skip_ff l = m :: rest ∧ (length rest < length l')%nat.
Proof.
  intros (fill & -> & Hf & Hm). eexists. split; [done|]. split.
  - cbn [skip_ff]. cbn. induction Hf as [|? fill <- _ IH]; cbn; [by destruct (Z.eqb_spec m 255)|done].
  - rewrite length_app. cbn. lia.
Qed.
Lemma marker_skip_ff b l m rest : (b =? 255) = true → skip_ff (b :: l) = m :: rest → marker_at m rest (b :: l).
Proof.
  intros Hb%Z.eqb_eq. subst b. cbn. induction l as [|b l IH]; [done|]. cbn. destruct (Z.eqb_spec b 255) as [->|Hn].
  - intros (fill & E & Hf & Hm)%IH. injection E as ->. exists (255 :: fill). auto.
  - intros [= -> ->]. by exists [].
Qed.
Lemma stuffed_spec m : ((m =? 0) || between 208 215 m) = true ↔ m = 0 ∨ restart m.
Proof. unfold between, restart. lia. Qed.

Lemma jpeg_scan_exact fuel l rest : (length l < fuel)%nat →
  jpeg_scan fuel l = Some (ScanMarker rest) ↔
  ∃ scan m tail, l = scan ++ rest ∧ entropy scan ∧ marker_at m tail rest ∧ m ≠ 0 ∧ ¬ restart m.
Proof.
  intros Hl. split.
  - revert l Hl. induction fuel as [|k IH]; intros [|b l] Hl; cbn [jpeg_scan length] in *; try lia; [done|].
    destruct (b =? 255) eqn:Eb; cbn [negb].
    + destruct (skip_ff (b :: l)) as [|m l2] eqn:Es; [done|]. pose proof (marker_skip_ff _ _ _ _ Eb Es) as Hmk.
      destruct (skip_ff_marker _ _ _ Hmk) as (l' & [= -> <-] & _ & Hlen).
      destruct (_ || _) eqn:Em.
      * intros (scan & m' & tail & E & He & Hr)%IH; [|lia]. destruct Hmk as (fill & Hfill & Hf & Hm). 
        exists (255 :: fill ++ m :: scan), m', tail. split_and!; [|eapply en_marker; [by exists fill|by apply stuffed_spec|done]|apply Hr..].
        rewrite Hfill, E. cbn. by rewrite <-app_assoc.
      * intros [= <-]. exists [], m, l2. split_and!; [done|constructor|done|..];
          (intros Hx; assert (((m =? 0) || between 208 215 m) = true) by (apply stuffed_spec; auto); congruence).
    + intros (scan & m & tail & -> & He & Hr)%IH; [|lia]. exists (b :: scan), m, tail.
      split_and!; [done|constructor; [lia|done]|apply Hr..].
  - intros (scan & m & tail & -> & He & Hmk & Hm0 & Hmr). revert fuel Hl.
    induction He as [|b s Hb Hs IH|m0 s l0 Hmk0 Hm' Hs IH]; intros [|k] Hl; try (cbn in Hl; lia).
    + destruct (skip_ff_marker _ _ _ Hmk) as (l' & -> & Hsk & _). cbn [app jpeg_scan]. rewrite Hsk. cbn [negb Z.eqb].
      destruct (_ || _) eqn:E; [|done]. apply stuffed_spec in E. naive_solver.
    + cbn [app jpeg_scan] in *. destruct (Z.eqb_spec b 255); [done|]. cbn [negb]. apply IH. cbn in Hl. lia.
    + destruct Hmk0 as (fill & -> & Hf & Hn).
      assert (marker_at m0 (s ++ rest) ((255 :: fill ++ m0 :: s) ++ rest)) as Hmk0.
      { exists fill. split_and!; [cbn; by rewrite <-app_assoc|done|done]. }
      destruct (skip_ff_marker _ _ _ Hmk0) as (l' & E & Hsk & Hlen). rewrite E in *. cbn [app jpeg_scan]. rewrite Hsk. cbn [negb Z.eqb].
      rewrite (proj2 (stuffed_spec m0)) by done. apply IH. cbn in Hl. lia.
Qed.

Lemma be16_app seg rest : 2 <= zlen seg → be16 (seg ++ rest) = be16 seg.
Proof. intros H. unfold be16. by rewrite !at_app by (unfold zlen in H; lia). Qed.
Lemma segment_split rest : Forall is_byte rest → (zlen rest <? 2) = false → ((be16 rest <? 2) || (be16 rest >? zlen rest)) = false →
  ∃ seg rest', rest = seg ++ rest' ∧ jpeg_segment seg ∧ zdrop (be16 rest) rest = rest'.
Proof.
  intros Hb H1 [H2 H3]%orb_false_elim. destruct (zsplit (be16 rest) rest) as (seg & rest' & Hr & Hs & Hd); [lia|].
  exists seg, rest'. split_and!; [done| |done]. assert (be16 rest = be16 seg) as E by (rewrite Hr at 1; apply be16_app; lia). split; lia.
Qed.
Lemma segment_take seg rest : jpeg_segment seg →
  (zlen (seg ++ rest) <? 2) = false ∧ ((be16 (seg ++ rest) <? 2) || (be16 (seg ++ rest) >? zlen (seg ++ rest))) = false ∧
  zdrop (be16 (seg ++ rest)) (seg ++ rest) = rest.
Proof.
  intros [H1 H2]. rewrite be16_app, zlen_app by lia. pose proof (zlen_nonneg rest).
  split_and!; [lia|apply orb_false_intro; lia|apply zdrop_app; lia].
Qed.

Lemma jpeg_segments_sound fuel l : Forall is_byte l → jpeg_segments fuel l = Ok tt → jpeg_body l.
Proof.
  revert l. induction fuel as [|k IH]; intros [|b l] Hb; cbn [jpeg_segments]; try done.
  destruct (b =? 255) eqn:Eb; cbn [negb]; [|done]. destruct (skip_ff (b :: l)) as [|m rest] eqn:Es; [done|].
  pose proof (marker_skip_ff _ _ _ _ Eb Es) as Hmk. assert (Forall is_byte rest) as Hbr.
  { destruct Hmk as (fill & E & _). rewrite E in Hb. apply Forall_cons_1 in Hb as [_ Hb]. apply Forall_app in Hb as [_ Hb]. by apply Forall_cons_1 in Hb as [_ ?]. }
  destruct (Z.eqb_spec m 217) as [->|H217]; [case_bool_decide; [subst rest; intros _; by constructor|done]|].
  destruct ((m =? 216) || (m =? 0)) eqn:E1; [done|]. destruct ((m =? 1) || between 208 215 m) eqn:E2.
  { intros H%IH; [|done]. eapply jb_alone; [done| |done]. unfold between, restart in *. lia. }
  destruct (zlen rest <? 2) eqn:E3; [done|]. destruct ((be16 rest <? 2) || _) eqn:E4; [done|].
  destruct (segment_split _ Hbr E3 E4) as (seg & rest' & -> & Hseg & Hd). rewrite Hd.
  apply Forall_app in Hbr as [_ Hbr]. destruct (Z.eqb_spec m 218) as [->|H218]; cbn [negb].
  - destruct (jpeg_scan (S (length rest')) rest') as [[l'| |]|] eqn:Esc; try done.
    apply jpeg_scan_exact in Esc as (scan & m & tail & -> & He & Hmk' & Hm0 & Hmr); [|lia]. apply Forall_app in Hbr as [_ Hbr].
    intros H%IH; [|done]. by eapply jb_scan.
  - intros H%IH; [|done]. eapply jb_segment; [done| |unfold between, restart in *; lia|done|done].
    rewrite !not_elem_of_cons. split_and!; try lia. apply not_elem_of_nil.
Qed.

Lemma jpeg_segments_complete fuel l : (length l < fuel)%nat → jpeg_body l → jpeg_segments fuel l = Ok tt.
Proof.
  intros Hf Hl. revert fuel Hf.
  induction Hl as [l Hmk|l m rest Hmk Hm _ IH|l m seg rest Hmk Hm Hr Hseg _ IH|l seg scan m rest tail Hmk Hseg He Hmk' Hm0 Hmr _ IH];
    intros [|k] Hf; try lia; destruct (skip_ff_marker _ _ _ Hmk) as (l' & -> & Hsk & Hlen); cbn [jpeg_segments]; rewrite Hsk; cbn [negb Z.eqb length] in *.
  - done.
  - unfold restart in Hm. rewrite (proj2 (Z.eqb_neq m 217)), (proj2 (Z.eqb_neq m 216)), (proj2 (Z.eqb_neq m 0)) by lia. cbn [orb].
    replace ((m =? 1) || between 208 215 m) with true by (unfold between; lia). apply IH. lia.
  - rewrite !not_elem_of_cons in Hm. destruct Hm as (? & ? & ? & ? & ? & _). unfold restart in Hr.
    destruct (segment_take seg rest Hseg) as (-> & -> & ->).
    rewrite (proj2 (Z.eqb_neq m 217)), (proj2 (Z.eqb_neq m 216)), (proj2 (Z.eqb_neq m 0)), (proj2 (Z.eqb_neq m 1)), (proj2 (Z.eqb_neq m 218)) by done. cbn [orb negb].
    replace (between 208 215 m) with false by (unfold between; lia). apply IH. rewrite length_app in Hlen. lia.
  - destruct (segment_take seg (scan ++ rest) Hseg) as (-> & -> & ->). cbn [Z.eqb Pos.eqb orb negb between Z.leb Z.compare Pos.compare Pos.compare_cont andb]. rewrite !length_app in Hlen.
    assert (jpeg_scan (S (length (scan ++ rest))) (scan ++ rest) = Some (ScanMarker rest)) as ->.
    { apply jpeg_scan_exact; [lia|]. by exists scan, m, tail. }
    apply IH. lia.
Qed.

Lemma validateJPEGContainer_spec data : Forall is_byte data →
  validateJPEGContainer data = Ok tt ↔ ∃ body, data = 255 :: 216 :: body ∧ jpeg_body body.
Proof.
  intros Hb. split.
  - unfold validateJPEGContainer. destruct data as [|x [|y rest]]; try done.
    { destruct x as [|p|p]; try done. repeat (destruct p; try done). }
    destruct (decide (x = 255 ∧ y = 216)) as [[-> ->]|Hn].
    + destruct (_ <? 4); [done|]. apply Forall_cons_1 in Hb as [_ [_ Hb]%Forall_cons_1]. intros H%jpeg_segments_sound; [|done]. by exists rest.
    + destruct x as [|p|p]; try done. repeat (destruct p as [p|p|]; try done).
      destruct y as [|p|p]; try done. repeat (destruct p as [p|p|]; try done). naive_solver.
  - intros (body & -> & H). unfold validateJPEGContainer. assert (2 <= zlen body) as Hlen.
    { assert (∃ m rest, marker_at m rest body) as (m & rest & (l' & -> & _ & Hl)%skip_ff_marker) by (destruct H; eauto). unfold zlen. cbn. lia. }
    rewrite !zlen_cons. destruct (Z.ltb_spec (1 + (1 + zlen body)) 4); [lia|]. apply jpeg_segments_complete; [cbn; lia|done].
Qed.

(** C29. Container validation is exact for each of the four formats. A JPEG upload passes it
    exactly when it is the start marker followed by whole segments and scans up to an end
    marker with nothing behind it, a PNG upload exactly when it is the signature followed
    by whole chunks of which only the last is the end chunk, a GIF upload exactly when it is
    one frame with extensions and a final trailer, and a WebP upload exactly when it is a
    RIFF body of whole chunks without animation; any other declared type is refused. The
    checks of the file name, the decoder and the pixel count come after this one and are
    not part of the statement. *)
Theorem validateImageContainer_exact data :
  Forall is_byte data →
  (validateImageContainer "image/jpeg" data = Ok tt ↔ ∃ body, data = 255 :: 216 :: body ∧ jpeg_body body) ∧
  (validateImageContainer "image/png" data = Ok tt ↔ ∃ body, data = png_signature ++ body ∧ png_body body) ∧
  (validateImageContainer "image/gif" data = Ok tt ↔
    ∃ hdr table body, data = hdr ++ table ++ body ∧ zlen hdr = 13 ∧ gif_signature hdr = true ∧
      zlen table = color_table (at_ hdr 10) ∧ gif_stream 0 body) ∧
  (validateImageContainer "image/webp" data = Ok tt ↔
    ∃ size body, data = RIFF ++ size ++ WEBP ++ body ∧ zlen size = 4 ∧ body ≠ [] ∧ le32 size + 8 = zlen data ∧ webp_body body) ∧
  (∀ m, m ∉ ["image/jpeg"; "image/png"; "image/gif"; "image/webp"] → validateImageContainer m data = Err EImageFormat).
Proof.
  intros Hb. split_and!;
    [by apply validateJPEGContainer_spec|by apply validatePNGContainer_spec|by apply validateSingleFrameGIF_spec|by apply validateStillWebP_spec|].
  intros m Hm. rewrite !not_elem_of_cons in Hm. unfold validateImageContainer. by rewrite !bool_decide_eq_false_2 by naive_solver.
Qed.

Lemma validateImageContainer_exact_witness :
  validateImageContainer "image/png" (png_signature ++ [0;0;0;0;73;69;78;68;174;66;96;130]) = Ok tt ∧
  ∃ body, png_signature ++ [0;0;0;0;73;69;78;68;174;66;96;130] = png_signature ++ body ∧ png_body body.
Proof.
  assert (validateImageContainer "image/png" (png_signature ++ [0;0;0;0;73;69;78;68;174;66;96;130]) = Ok tt) as E by (vm_compute; reflexivity).
  split; [exact E|]. apply (validateImageContainer_exact (png_signature ++ [0;0;0;0;73;69;78;68;174;66;96;130])); [|exact E].
  repeat (apply Forall_cons_2; [unfold is_byte; lia|]). apply Forall_nil_2.
Defined.

(** Every buffer gets a definite answer: on any bytes and any declared type
    the container walk terminates within the buffer (the bound on its loops is
    never what stops it), and a JPEG that is accepted ends with the end-of-image
    marker as its last two bytes. *)
Theorem validateImageContainer_total mimeType data :
  Forall is_byte data →
  validateImageContainer mimeType data ≠ Err EImageFuel ∧
  (validateJPEGContainer data = Ok tt → ∃ pre, data = pre ++ [255; 217]).
Proof.
  intros Hb.
  assert (validateJPEGContainer data ≠ Err EImageFuel ∧
    (validateJPEGContainer data = Ok tt → ∃ pre, data = pre ++ [255; 217])) as [Hj1 Hj2].
  { unfold validateJPEGContainer. destruct data as [|x [|y rest]]; try done.
    { destruct x as [|p|p]; try done. repeat (destruct p; try done). }
    destruct (decide (x = 255 ∧ y = 216)) as [[-> ->]|Hn].
    - destruct (_ <? 4); [done|]. rewrite !Forall_cons in Hb. destruct Hb as (_ & _ & Hb).
      destruct (jpeg_segments_spec (length (255 :: 216 :: rest)) rest ltac:(cbn; lia) Hb) as [H1 H2]. split; [done|].
      intros (pre & ->)%H2. by exists (255 :: 216 :: pre).
    - destruct x as [|p|p]; try done. repeat (destruct p as [p|p|]; try done).
      destruct y as [|p|p]; try done. repeat (destruct p as [p|p|]; try done). naive_solver. }
  split; [|done]. unfold validateImageContainer. repeat case_bool_decide; try done.
  - unfold validatePNGContainer. case_bool_decide; [|done].
    apply png_chunks_fuel; [rewrite length_drop; lia|by apply Forall_drop].
  - unfold validateSingleFrameGIF. destruct (_ || _); [done|]. destruct (_ >? _); [done|].
    apply gif_blocks_fuel; [unfold zdrop; rewrite length_drop; lia|by apply Forall_drop].
  - unfold validateStillWebP. destruct (zlen data <? 20) eqn:E; [done|]. cbn [orb]. destruct (_ || _); [done|].
    destruct (negb _); [done|]. apply webp_chunks_fuel; [unfold zlen in E; rewrite length_drop; lia|by apply Forall_drop].
Qed.

Definition demo_jpeg : list Z := [255;216; 255;224;0;3;7; 255;218;0;2; 1;255;0;255;208;9; 255;217].

Lemma validateImageContainer_total_witness :
  Forall is_byte demo_jpeg ∧ ∃ pre, demo_jpeg = pre ++ [255; 217].
Proof.
  assert (Forall is_byte demo_jpeg) as Hb.
  { assert (Forall (λ x, 0 <= x < 256) demo_jpeg) as H by (vm_compute; repeat constructor; done).
    eapply Forall_impl; [exact H|]. intros x Hx. exact Hx. }
  split; [exact Hb|]. apply (proj2 (validateImageContainer_total "image/jpeg" demo_jpeg Hb)). vm_compute. reflexivity.
Defined.
