(* ===== verification/Schema.v ===== *)
(** The ledger database: the tables of [database/database.go] and
    [database/transaction_save_schema.go] as finite maps, and the SQL statements
    the core service issues, with the constraints, triggers and cascades the
    schema declares. A statement that violates a constraint fails with
    [EConstraint] (SQLite's [SQLITE_CONSTRAINT]); I/O faults of the engine are
    outside the model. *)
From Stdlib Require Import ZArith Lia.
From stdpp Require Import base gmap list strings sorting.
From S2P Require Import Prelude GoText Validation GoTime ImageContainers.

Open Scope Z_scope.

(** * Errors of the core service *)
Inductive lerr :=
| EV (e : verr)
| EDate (e : derr)
| EConstraint                      (** a CHECK, UNIQUE, FOREIGN KEY or trigger of the schema *)
| EFull                            (** SQLITE_FULL: the AUTOINCREMENT ids are exhausted *)
| ENotFound                        (** sql.ErrNoRows for a transaction *)
| EBalanceOverflow (id : Z)
| EType
| EUpdateOnly
| ETooManyNewTags
| EBadTagID (id : Z)
| ETagNotFound
| ETagIDNotFound (id : Z)
| ERootDuplicate
| ERootAmbiguous
| EParentNotFound
| ETagPathEmpty
| ELinkSelf
| ELinkTooMany
| ELinkNotFound
| ELinkTargetNotFound
| ELinkKind
| ELinkAmbiguous
| ELinkOtherBank
| EAssignment
| EImage (e : imgerr)              (** every image error names images in its text *)
| ESettingKey
| ESave (e : string)
| ERequestID
| ESaveConflict
| ESaveQueueFull
| ESaveNotFound.

(** * Rows *)
Record txrow := TxRow {
  tx_account : string;
  tx_date : Z;
  tx_item : string;
  tx_type : string;
  tx_amount : Z;
  tx_balance : Z;
  tx_memo : string
}.

Record tagrow := TagRow {
  tag_name : string;
  tag_parent : option Z;
  tag_level : Z;
  tag_legacy : bool
}.

Record imgrow := ImgRow {
  img_tx : Z;
  img_filename : string;
  img_data : list Z;
  img_mime : string;
  img_created : Z
}.

Inductive save_state := SPending | SCompleted | SFailed.

(** What a queued save asks for; [payload] is its JSON text in the source. *)
Record TransactionImageRequest := ImageRequest {
  ireq_filename : string;
  ireq_data : string;
  ireq_mime : string
}.

Record TransactionRequest := Request {
  req_account : string;
  req_date : string;
  req_time : string;
  req_item : string;
  req_type : string;
  req_amount : Z;
  req_memo : string;
  req_tags : list Z;
  req_new_tag_paths : list string;
  req_images : list TransactionImageRequest;
  req_delete_images : list Z;
  req_link_add : list Z;
  req_link_remove : list Z
}.

Record Tag := MkTag { t_id : Z; t_name : string; t_parent : option Z; t_level : Z }.

Record TransactionResponse := Response {
  resp_id : Z;
  resp_account : string;
  resp_date : Z;
  resp_item : string;
  resp_type : string;
  resp_amount : Z;
  resp_balance : Z;
  resp_memo : string;
  resp_tags : list Tag
}.

Record transactionSavePayload := SavePayload { pl_target : Z; pl_request : TransactionRequest }.

Record saverow := SaveRow {
  sv_id : string;
  sv_target : Z;
  sv_hash : list Z;
  sv_payload : option (list Z);
  sv_state : save_state;
  sv_result : option (list Z);
  sv_error : option string
}.

(** * The database *)
Record ledger := Ledger {
  transactions : gmap Z txrow;
  tx_seq : Z;
  archive_amounts : gmap Z Z;
  links : gset (Z * Z);
  images : gmap Z imgrow;
  img_seq : Z;
  image_archive : gmap Z imgrow;
  tags : gmap Z tagrow;
  tag_seq : Z;
  transaction_tags : gset (Z * Z);
  settings : gmap string string;
  saves : list saverow
}.

Definition set_transactions (m : gmap Z txrow) (db : ledger) : ledger :=
  Ledger m (tx_seq db) (archive_amounts db) (links db) (images db) (img_seq db) (image_archive db)
    (tags db) (tag_seq db) (transaction_tags db) (settings db) (saves db).
Definition set_tx_seq (n : Z) (db : ledger) : ledger :=
  Ledger (transactions db) n (archive_amounts db) (links db) (images db) (img_seq db) (image_archive db)
    (tags db) (tag_seq db) (transaction_tags db) (settings db) (saves db).
Definition set_archive_amounts (m : gmap Z Z) (db : ledger) : ledger :=
  Ledger (transactions db) (tx_seq db) m (links db) (images db) (img_seq db) (image_archive db)
    (tags db) (tag_seq db) (transaction_tags db) (settings db) (saves db).
Definition set_links (l : gset (Z * Z)) (db : ledger) : ledger :=
  Ledger (transactions db) (tx_seq db) (archive_amounts db) l (images db) (img_seq db) (image_archive db)
    (tags db) (tag_seq db) (transaction_tags db) (settings db) (saves db).
Definition set_images (m : gmap Z imgrow) (n : Z) (db : ledger) : ledger :=
  Ledger (transactions db) (tx_seq db) (archive_amounts db) (links db) m n (image_archive db)
    (tags db) (tag_seq db) (transaction_tags db) (settings db) (saves db).
Definition set_image_archive (m : gmap Z imgrow) (db : ledger) : ledger :=
  Ledger (transactions db) (tx_seq db) (archive_amounts db) (links db) (images db) (img_seq db) m
    (tags db) (tag_seq db) (transaction_tags db) (settings db) (saves db).
Definition set_tags (m : gmap Z tagrow) (n : Z) (db : ledger) : ledger :=
  Ledger (transactions db) (tx_seq db) (archive_amounts db) (links db) (images db) (img_seq db)
    (image_archive db) m n (transaction_tags db) (settings db) (saves db).
Definition set_transaction_tags (s : gset (Z * Z)) (db : ledger) : ledger :=
  Ledger (transactions db) (tx_seq db) (archive_amounts db) (links db) (images db) (img_seq db)
    (image_archive db) (tags db) (tag_seq db) s (settings db) (saves db).
Definition set_settings (m : gmap string string) (db : ledger) : ledger :=
  Ledger (transactions db) (tx_seq db) (archive_amounts db) (links db) (images db) (img_seq db)
    (image_archive db) (tags db) (tag_seq db) (transaction_tags db) m (saves db).
Definition set_saves (l : list saverow) (db : ledger) : ledger :=
  Ledger (transactions db) (tx_seq db) (archive_amounts db) (links db) (images db) (img_seq db)
    (image_archive db) (tags db) (tag_seq db) (transaction_tags db) (settings db) l.

Definition empty_ledger : ledger := Ledger ∅ 0 ∅ ∅ ∅ 0 ∅ ∅ 0 ∅ ∅ [].

(** A service call over the ledger. *)
Abbreviation op := (stm ledger lerr).

Definition liftv {A} (r : res verr A) : op A :=
  match r with Ok a => mret a | Err e => fail (EV e) end.
Definition liftd {A} (r : res derr A) : op A :=
  match r with Ok a => mret a | Err e => fail (EDate e) end.

Lemma wp_liftv {A} (r : res verr A) (Q : A → ledger → Prop) db :
  (∀ a, r = Ok a → Q a db) → wp (liftv r) Q db.
Proof. destruct r; cbn; auto. Qed.

Lemma wp_liftd {A} (r : res derr A) (Q : A → ledger → Prop) db :
  (∀ a, r = Ok a → Q a db) → wp (liftd r) Q db.
Proof. destruct r; cbn; auto. Qed.

(** [AUTOINCREMENT]: one more than the largest id ever used. *)
Definition next_id (seq : Z) : op Z :=
  if seq >=? MaxInt64 then fail EFull else mret (seq + 1).

Lemma wp_next_id seq (Q : Z → ledger → Prop) db : (seq < MaxInt64 → Q (seq + 1) db) → wp (next_id seq) Q db.
Proof. unfold next_id. destruct (_ >=? _) eqn:E; intros H; [done|]. apply H. lia. Qed.

Ltac wp_hook ::=
  lazymatch goal with
  | |- wp (liftv _) _ _ => apply wp_liftv; intros ? ?
  | |- wp (liftd _) _ _ => apply wp_liftd; intros ? ?
  | |- wp (next_id _) _ _ => apply wp_next_id; intros ?
  end.

(** * Atomic calls *)

(** A write that rolls back on error. *)
Definition atomic {A} (m : op A) : Prop := ∀ db e db', m db = (Err e, db') → db' = db.

Lemma atomic_transactional {A} (m : op A) : atomic (transactional m).
Proof. intros db e db'. apply transactional_rollback. Qed.

Lemma atomic_liftv {A B} (r : res verr A) (f : A → op B) : (∀ a, atomic (f a)) → atomic (liftv r ≫= f).
Proof. intros Hf db e db'. destruct r; cbn; [apply Hf|]. by intros [= _ <-]. Qed.

Lemma atomic_lift {A B} (r : res lerr A) (f : A → op B) : (∀ a, atomic (f a)) → atomic (lift r ≫= f).
Proof. intros Hf db e db'. destruct r; cbn; [apply Hf|]. by intros [= _ <-]. Qed.

Lemma atomic_require {B} b e (f : unit → op B) : (∀ a, atomic (f a)) → atomic (require b e ≫= f).
Proof. intros Hf db e' db'. destruct b; cbn; [apply Hf|]. by intros [= _ <-]. Qed.

Lemma atomic_liftd {A B} (r : res derr A) (f : A → op B) : (∀ a, atomic (f a)) → atomic (liftd r ≫= f).
Proof. intros Hf db e db'. destruct r; cbn; [apply Hf|]. by intros [= _ <-]. Qed.

Lemma atomic_void {A} (m : op A) : atomic m → atomic (m;; mret tt).
Proof.
  intros Hm db e db'. unfold mbind, stm_bind. destruct (m db) as [[a|e'] db1] eqn:E; [done|].
  intros [= -> <-]. by eapply Hm.
Qed.

Create HintDb atomic.
#[export] Hint Resolve atomic_transactional atomic_liftv atomic_liftd atomic_lift atomic_require : atomic.

Lemma wp_atomic {A} (m : op A) (P : ledger → Prop) db :
  atomic m → P db → wp m (λ _ db', P db') db → P (snd (m db)).
Proof.
  intros Ha HP. unfold wp. destruct (m db) as [[a|e] db'] eqn:E; cbn; [done|].
  intros _. by rewrite (Ha _ _ _ E).
Qed.

(** * Transactions *)
Definition tx_type_ok (t : string) : bool := bool_decide (t = "income") || bool_decide (t = "expense").
Definition tx_amount_ok (a : Z) : bool := (1 <=? a) && (a <=? MaxTransactionAmount).

Definition insert_transaction (row : txrow) : op Z :=
  db ← gets id;
  require (tx_type_ok (tx_type row) && tx_amount_ok (tx_amount row)) EConstraint;;
  n ← next_id (tx_seq db);
  modify (λ db, set_tx_seq n (set_transactions (<[n := row]> (transactions db)) db));;
  mret n.

(** [SELECT account FROM transactions WHERE id = ?] *)
Definition select_transaction (n : Z) : op txrow :=
  db ← gets id;
  match transactions db !! n with Some r => mret r | None => fail ENotFound end.

(** [UPDATE transactions SET account, date, item, type, amount, memo WHERE id = ?] *)
Definition update_transaction (n : Z) (a : string) (d : Z) (i t : string) (am : Z) (m : string) : op unit :=
  db ← gets id;
  match transactions db !! n with
  | None => mret tt
  | Some r =>
    require (tx_type_ok t && tx_amount_ok am) EConstraint;;
    modify (λ db, set_transactions (<[n := TxRow a d i t am (tx_balance r) m]> (transactions db)) db)
  end.

Definition set_balance (b : Z) (r : txrow) : txrow :=
  TxRow (tx_account r) (tx_date r) (tx_item r) (tx_type r) (tx_amount r) b (tx_memo r).

(** [UPDATE transactions SET balance = ? WHERE id = ?] *)
Definition update_balance (b n : Z) : op unit :=
  modify (λ db, set_transactions (alter (set_balance b) n (transactions db)) db).

(** [DELETE FROM transactions WHERE id = ?], with the [ON DELETE CASCADE]s. *)
Definition delete_transaction (n : Z) : op unit :=
  modify (λ db,
    Ledger (delete n (transactions db)) (tx_seq db) (delete n (archive_amounts db))
      (filter (λ '(p, c), p ≠ n ∧ c ≠ n) (links db))
      (filter (λ '(_, r), img_tx r ≠ n) (images db)) (img_seq db)
      (filter (λ '(_, r), img_tx r ≠ n) (image_archive db))
      (tags db) (tag_seq db)
      (filter (λ '(t, _), t ≠ n) (transaction_tags db))
      (settings db) (saves db)).

(** [COALESCE((SELECT amount FROM transaction_archive_amounts ...), amount)] *)
Definition effective_amount (db : ledger) (n : Z) (r : txrow) : Z :=
  default (tx_amount r) (archive_amounts db !! n).

(** * Links *)
Definition insert_link (p c : Z) : op unit :=
  db ← gets id;
  require (bool_decide ((p, c) ∉ links db) && bool_decide (is_Some (transactions db !! p))
           && bool_decide (is_Some (transactions db !! c))) EConstraint;;
  modify (λ db, set_links ({[(p, c)]} ∪ links db) db).

(** [DELETE FROM transaction_links WHERE parent_id = ? AND child_id = ?]: rows affected. *)
Definition delete_link (p c : Z) : op Z :=
  db ← gets id;
  modify (λ db, set_links (links db ∖ {[(p, c)]}) db);;
  mret (if decide ((p, c) ∈ links db) then 1 else 0).

(** * Tags *)
Definition root_named (nm : string) (r : tagrow) : Prop := tag_name r = nm ∧ tag_parent r = None.
#[global] Instance root_named_dec nm r : Decision (root_named nm r).
Proof. unfold root_named. apply _. Defined.

(** The unique indexes of [tags]: [UNIQUE(name, parent_id)] (NULLs are distinct)
    and the partial index over non-legacy roots. *)
Definition tag_conflict (r1 r2 : tagrow) : Prop :=
  tag_name r1 = tag_name r2 ∧
  match tag_parent r1, tag_parent r2 with
  | Some p1, Some p2 => p1 = p2
  | None, None => tag_legacy r1 = false ∧ tag_legacy r2 = false
  | _, _ => False
  end.
#[global] Instance tag_conflict_dec r1 r2 : Decision (tag_conflict r1 r2).
Proof. unfold tag_conflict. destruct (tag_parent r1), (tag_parent r2); apply _. Defined.

Definition tag_unique_ok (m : gmap Z tagrow) (n : Z) (r : tagrow) : bool :=
  bool_decide (map_Forall (λ k q, k ≠ n → ¬ tag_conflict r q) m).

Definition parent_exists (m : gmap Z tagrow) (p : option Z) : bool :=
  match p with None => true | Some q => bool_decide (is_Some (m !! q)) end.

Definition tag_level_ok (l : Z) : bool := (1 <=? l) && (l <=? 3).

Definition insert_tag (nm : string) (parent : option Z) (level : Z) : op Z :=
  db ← gets id;
  n ← next_id (tag_seq db);
  let r := TagRow nm parent level false in
  require (tag_level_ok level && tag_unique_ok (tags db) n r && parent_exists (tags db) parent) EConstraint;;
  modify (λ db, set_tags (<[n := r]> (tags db)) n db);;
  mret n.

(** [INSERT OR IGNORE]: a UNIQUE or CHECK violation skips the row, a foreign key
    violation is still an error. *)
Definition insert_tag_or_ignore (nm : string) (parent : option Z) (level : Z) : op unit :=
  db ← gets id;
  n ← next_id (tag_seq db);
  let r := TagRow nm parent level false in
  if tag_level_ok level && tag_unique_ok (tags db) n r then
    require (parent_exists (tags db) parent) EConstraint;;
    modify (λ db, set_tags (<[n := r]> (tags db)) n db)
  else mret tt.

(** An [UPDATE] of one tag row, re-checking the unique indexes. *)
Definition update_tag (n : Z) (f : tagrow → tagrow) : op Z :=
  db ← gets id;
  match tags db !! n with
  | None => mret 0
  | Some r =>
    require (tag_unique_ok (tags db) n (f r)) EConstraint;;
    modify (λ db, set_tags (<[n := f r]> (tags db)) (tag_seq db) db);;
    mret 1
  end.

Definition parent_in (s : gset Z) (r : tagrow) : bool :=
  match tag_parent r with Some p => bool_decide (p ∈ s) | None => false end.

Definition children_of (m : gmap Z tagrow) (s : gset Z) : gset Z :=
  dom (filter (λ '(_, r), parent_in s r = true) m).

(** The tags a recursive [ON DELETE CASCADE] (or the recursive query of
    [GetTagDeleteImpact]) reaches from [s]: as many rounds as there are tags. *)
Fixpoint descend (k : nat) (m : gmap Z tagrow) (s : gset Z) : gset Z :=
  match k with
  | O => s
  | S k' => descend k' m (s ∪ children_of m s)
  end.
Definition subtree (m : gmap Z tagrow) (n : Z) : gset Z := descend (size m) m {[n]}.

(** [DELETE FROM tags WHERE id = ?]: rows affected. *)
Definition delete_tag (n : Z) : op Z :=
  db ← gets id;
  match tags db !! n with
  | None => mret 0
  | Some _ =>
    let dead := subtree (tags db) n in
    modify (λ db, set_transaction_tags (filter (λ '(_, g), g ∉ dead) (transaction_tags db))
                   (set_tags (filter (λ '(k, _), k ∉ dead) (tags db)) (tag_seq db) db));;
    mret 1
  end.

(** [INSERT OR IGNORE INTO transaction_tags]: the foreign keys are enforced. *)
Definition insert_transaction_tag (t g : Z) : op unit :=
  db ← gets id;
  require (bool_decide ((t, g) ∈ transaction_tags db) ||
           (bool_decide (is_Some (transactions db !! t)) && bool_decide (is_Some (tags db !! g)))) EConstraint;;
  modify (λ db, set_transaction_tags ({[(t, g)]} ∪ transaction_tags db) db).

(** [DELETE FROM transaction_tags WHERE transaction_id = ?] *)
Definition delete_transaction_tags (t : Z) : op unit :=
  modify (λ db, set_transaction_tags (filter (λ '(u, _), u ≠ t) (transaction_tags db)) db).
