(* ===== verification/Balance.v ===== *)
(** Running balances: [recalculateBalanceIn] of [core/service.go], and the
    declarative reading of a stored balance it implements. *)
From Stdlib Require Import ZArith Lia.
From stdpp Require Import base gmap list strings sorting.
From S2P Require Import Prelude GoText Validation GoTime Schema.

Open Scope Z_scope.

(** * The query: [WHERE account = ? ORDER BY date, id] *)
Definition row_le (x y : Z * txrow) : Prop :=
  tx_date x.2 < tx_date y.2 ∨ (tx_date x.2 = tx_date y.2 ∧ x.1 <= y.1).
#[global] Instance row_le_dec : RelDecision row_le.
Proof. intros x y. unfold row_le. apply _. Defined.

Definition account_rows (db : ledger) (acc : string) : list (Z * txrow) :=
  filter (λ x, tx_account x.2 = acc) (map_to_list (transactions db)).

Definition ordered_rows (db : ledger) (acc : string) : list (Z * txrow) :=
  merge_sort row_le (account_rows db acc).

(** * The loop *)
Definition checked_step (bal : Z) (t : string) (a : Z) : res verr Z :=
  if bool_decide (t = "income") then CheckedAddInt64 bal a else CheckedSubInt64 bal a.

Fixpoint running_balances (db : ledger) (bal : Z) (rows : list (Z * txrow)) : res lerr (list (Z * Z)) :=
  match rows with
  | [] => Ok []
  | (n, r) :: rows' =>
    match checked_step bal (tx_type r) (effective_amount db n r) with
    | Err _ => Err (EBalanceOverflow n)
    | Ok b => running_balances db b rows' ≫= λ updates, Ok ((n, b) :: updates)
    end
  end.

Definition apply_updates (updates : list (Z * Z)) : op unit :=
  for_each (λ u, update_balance u.2 u.1) updates.

Definition recalculateBalanceIn (acc : string) : op unit :=
  db ← gets id;
  updates ← lift (running_balances db 0 (ordered_rows db acc));
  apply_updates updates.

(** * Specification

    The balance of a row is the sum of the signed effective amounts of the rows
    of its account that are not later than it, no order of evaluation involved. *)
Definition signed (t : string) (a : Z) : Z := if bool_decide (t = "income") then a else - a.

Definition balance_at (db : ledger) (acc : string) (x : Z * txrow) : Z :=
  msum (λ n r, if decide (tx_account r = acc ∧ row_le (n, r) x)
               then signed (tx_type r) (effective_amount db n r) else 0) (transactions db).

Definition balanced (db : ledger) (acc : string) : Prop :=
  ∀ n r, transactions db !! n = Some r → tx_account r = acc → tx_balance r = balance_at db acc (n, r).

(** Every stored amount is an int64: what the column type and the checks of the
    schema guarantee. *)
Definition amounts_int64 (db : ledger) : Prop :=
  ∀ n r, transactions db !! n = Some r → 0 < effective_amount db n r <= MaxInt64.

Definition rebalance (acc : string) (db : ledger) : ledger :=
  set_transactions
    (map_imap (λ n r, Some (if decide (tx_account r = acc) then set_balance (balance_at db acc (n, r)) r else r))
              (transactions db)) db.

(** * Facts about the order *)
#[global] Instance row_le_trans : Transitive row_le.
Proof. intros x y z. unfold row_le. lia. Qed.
#[global] Instance row_le_total : Total row_le.
Proof. intros x y. unfold row_le. lia. Qed.

Lemma row_le_refl x : row_le x x.
Proof. unfold row_le. lia. Qed.

Lemma row_le_antisymm x y : row_le x y → row_le y x → x.1 = y.1.
Proof. unfold row_le. lia. Qed.

Lemma ordered_rows_perm db acc : ordered_rows db acc ≡ₚ account_rows db acc.
Proof. apply merge_sort_Permutation. Qed.

Lemma elem_of_ordered db acc n r :
  (n, r) ∈ ordered_rows db acc ↔ transactions db !! n = Some r ∧ tx_account r = acc.
Proof.
  rewrite ordered_rows_perm. unfold account_rows. rewrite list_elem_of_filter, elem_of_map_to_list. cbn. tauto.
Qed.

Lemma ordered_rows_sorted db acc : StronglySorted row_le (ordered_rows db acc).
Proof. apply StronglySorted_merge_sort; apply _. Qed.

Lemma NoDup_fst_filter {A} (P : Z * A → Prop) `{!∀ x, Decision (P x)} (l : list (Z * A)) :
  NoDup l.*1 → NoDup (filter P l).*1.
Proof.
  induction l as [|x l IH]; [done|]. rewrite fmap_cons, NoDup_cons, filter_cons. intros [Hx Hl].
  case_decide; [rewrite fmap_cons, NoDup_cons; split; [|auto]|auto].
  contradict Hx. apply list_elem_of_fmap in Hx as (y & Hy & [_ Hin]%list_elem_of_filter).
  apply list_elem_of_fmap. eauto.
Qed.

Lemma NoDup_fst_unique {A B} (l : list (A * B)) n a b :
  NoDup l.*1 → (n, a) ∈ l → (n, b) ∈ l → a = b.
Proof.
  induction l as [|[m c] l IH]; [intros _ H%elem_of_nil; done|].
  rewrite fmap_cons, NoDup_cons, !elem_of_cons. cbn [fst]. intros [Hm Hl] [Ha|Ha] [Hb|Hb]; simplify_eq; auto.
  - contradict Hm. by apply (list_elem_of_fmap_2 fst) in Hb.
  - contradict Hm. by apply (list_elem_of_fmap_2 fst) in Ha.
Qed.

Lemma ordered_rows_NoDup db acc : NoDup (ordered_rows db acc).*1.
Proof.
  rewrite ordered_rows_perm. apply NoDup_fst_filter, NoDup_fst_map_to_list.
Qed.

(** * The loop computes prefix sums *)
Definition row_value (db : ledger) (x : Z * txrow) : Z :=
  signed (tx_type x.2) (effective_amount db x.1 x.2).

Fixpoint prefix_sums (db : ledger) (bal : Z) (rows : list (Z * txrow)) : list (Z * Z) :=
  match rows with
  | [] => []
  | x :: rows' => (x.1, bal + row_value db x) :: prefix_sums db (bal + row_value db x) rows'
  end.

Lemma checked_step_cases bal t a :
  int64 bal → 0 < a <= MaxInt64 →
  checked_step bal t a = if decide (int64 (bal + signed t a)) then Ok (bal + signed t a) else Err EOverflow.
Proof.
  intros Hb Ha. unfold checked_step, signed.
  case_bool_decide; [rewrite CheckedAddInt64_cases|rewrite CheckedSubInt64_cases];
    try done; unfold int64, MinInt64, MaxInt64 in *; lia.
Qed.

Lemma running_balances_cases db bal rows :
  int64 bal → Forall (λ x, 0 < effective_amount db x.1 x.2 <= MaxInt64) rows →
  (Forall (λ u, int64 u.2) (prefix_sums db bal rows) ∧
     running_balances db bal rows = Ok (prefix_sums db bal rows)) ∨
  (∃ u, u ∈ prefix_sums db bal rows ∧ ¬ int64 u.2 ∧ running_balances db bal rows = Err (EBalanceOverflow u.1)).
Proof.
  intros Hbal Hrows. revert bal Hbal. induction Hrows as [|[n r] rows Ha _ IH]; intros bal Hbal; cbn.
  { left. split; [constructor|done]. }
  cbn in Ha. rewrite checked_step_cases by done. unfold row_value at 1 3 4 5. cbn.
  case_decide as Hd.
  - destruct (IH _ Hd) as [[Hall ->]|([m b] & Hin & Hov & ->)]; cbn.
    + left. split; [apply Forall_cons; done|done].
    + right. exists (m, b). split; [by right|done].
  - right. eexists. split; [left|]. done.
Qed.

(** A prefix sum of the ordered rows is the declarative balance. *)
Lemma balance_at_list db acc x :
  balance_at db acc x = lsum ((λ y, if decide (row_le y x) then row_value db y else 0) <$> ordered_rows db acc).
Proof.
  rewrite ordered_rows_perm. unfold balance_at, msum, account_rows.
  induction (map_to_list (transactions db)) as [|[n r] l IH]; [done|].
  rewrite fmap_cons, filter_cons, lsum_cons, IH. cbn [uncurry snd].
  destruct (decide (tx_account r = acc)) as [Ha|Ha].
  - rewrite fmap_cons, lsum_cons. f_equal. unfold row_value. cbn [fst snd].
    destruct (decide (row_le (n, r) x)); [rewrite decide_True by tauto|rewrite decide_False by tauto]; done.
  - rewrite decide_False by tauto. apply Z.add_0_l.
Qed.

Lemma prefix_sums_at db pre rows x bal :
  StronglySorted row_le (pre ++ rows) → NoDup (pre ++ rows).*1 →
  bal = lsum (row_value db <$> pre) → (x ∈ rows) →
  (x.1, lsum ((λ y, if decide (row_le y x) then row_value db y else 0) <$> pre ++ rows)) ∈ prefix_sums db bal rows.
Proof.
  revert pre bal. induction rows as [|z rows IH]; intros pre bal Hs Hnd Hbal Hin; [by apply elem_of_nil in Hin|].
  cbn. apply elem_of_cons in Hin as [->|Hin].
  - apply elem_of_cons. left. f_equal. rewrite fmap_app, lsum_app, fmap_cons, lsum_cons.
    rewrite decide_True by apply row_le_refl.
    rewrite (lsum_ext _ (row_value db) pre), <-Hbal, (lsum_zero _ rows); [lia| |].
    + apply Forall_forall. intros y Hy. rewrite decide_False; [done|]. intros Hyz.
      apply StronglySorted_app in Hs as (_ & _ & Hs). apply StronglySorted_inv in Hs as [_ Hf].
      rewrite Forall_forall in Hf. pose proof (row_le_antisymm _ _ (Hf y Hy) Hyz) as Heq.
      rewrite fmap_app, fmap_cons in Hnd. apply NoDup_app in Hnd as (_ & _ & Hnd).
      apply NoDup_cons in Hnd as [Hnin _]. apply Hnin. rewrite Heq. by apply list_elem_of_fmap_2.
    + apply Forall_forall. intros y Hy. rewrite decide_True; [done|].
      apply StronglySorted_app in Hs as (Hcross & _ & _). apply Hcross; [done|left].
  - apply elem_of_cons. right. replace (pre ++ z :: rows) with ((pre ++ [z]) ++ rows) in * by (by rewrite <-app_assoc).
    apply IH; [done|done| |done].
    rewrite fmap_app, lsum_app, Hbal. cbn. lia.
Qed.

Lemma prefix_sums_fst db bal rows : (prefix_sums db bal rows).*1 = rows.*1.
Proof. revert bal. induction rows as [|x rows IH]; intros bal; cbn; [done|]. by rewrite IH. Qed.

Lemma prefix_sums_ordered db acc n b :
  (n, b) ∈ prefix_sums db 0 (ordered_rows db acc) ↔
  ∃ r, transactions db !! n = Some r ∧ tx_account r = acc ∧ b = balance_at db acc (n, r).
Proof.
  assert (Hto : ∀ r, transactions db !! n = Some r → tx_account r = acc →
            (n, balance_at db acc (n, r)) ∈ prefix_sums db 0 (ordered_rows db acc)).
  { intros r Hr Ha. rewrite balance_at_list.
    apply (prefix_sums_at db [] (ordered_rows db acc) (n, r)); [apply ordered_rows_sorted|apply ordered_rows_NoDup|done|].
    by apply elem_of_ordered. }
  split; [|intros (r & Hr & Ha & ->); eauto].
  intros Hin. assert (n ∈ (ordered_rows db acc).*1) as Hn.
  { rewrite <-(prefix_sums_fst db 0). by apply (list_elem_of_fmap_2 fst) in Hin. }
  apply list_elem_of_fmap in Hn as ([n' r] & Hn & [Hr Ha]%elem_of_ordered). cbn in Hn. subst n'.
  exists r. split; [done|]. split; [done|]. specialize (Hto r Hr Ha).
  eapply NoDup_fst_unique; [|done|done].
  rewrite prefix_sums_fst. apply ordered_rows_NoDup.
Qed.

(** * The updates *)
Definition apply_balances (ups : list (Z * Z)) (m : gmap Z txrow) : gmap Z txrow :=
  foldl (λ m u, alter (set_balance u.2) u.1 m) m ups.

Lemma apply_updates_run ups db :
  apply_updates ups db = (Ok tt, set_transactions (apply_balances ups (transactions db)) db).
Proof.
  unfold apply_updates. revert db. induction ups as [|u ups IH]; intros db; cbn.
  - by destruct db.
  - unfold mbind, stm_bind, update_balance, modify. rewrite IH. by destruct db.
Qed.

Lemma apply_balances_lookup ups m n :
  NoDup ups.*1 →
  apply_balances ups m !! n =
    (λ r, match list_find (λ u, u.1 = n) ups with Some (_, u) => set_balance u.2 r | None => r end) <$> m !! n.
Proof.
  revert m. induction ups as [|[k b] ups IH]; intros m.
  - intros _. cbn. by destruct (m !! n).
  - rewrite fmap_cons, NoDup_cons. intros [Hk Hnd].
    change (apply_balances ((k, b) :: ups) m) with (apply_balances ups (alter (set_balance b) k m)).
    rewrite IH by done. cbn. destruct (decide (k = n)) as [->|Hne].
    + rewrite lookup_alter_eq. rewrite (proj2 (list_find_None _ _)).
      * by destruct (m !! n).
      * apply Forall_forall. intros [k' b'] Hin Heq. cbn in Heq. subst. apply Hk.
        by apply (list_elem_of_fmap_2 fst) in Hin.
    + rewrite lookup_alter_ne by done. by destruct (list_find _ ups) as [[]|].
Qed.

Lemma rebalance_updates db acc :
  apply_balances (prefix_sums db 0 (ordered_rows db acc)) (transactions db) = transactions (rebalance acc db).
Proof.
  apply map_eq. intros n. unfold rebalance. cbn. rewrite map_lookup_imap.
  rewrite apply_balances_lookup by (rewrite prefix_sums_fst; apply ordered_rows_NoDup).
  destruct (transactions db !! n) as [r|] eqn:Hr; [|done]. cbn. f_equal.
  destruct (list_find _ _) as [[i [k b]]|] eqn:Hf.
  - apply list_find_Some in Hf as (Hin & Heq & _). cbn in Heq. subst k.
    apply list_elem_of_lookup_2, prefix_sums_ordered in Hin as (r' & Hr' & Ha & ->).
    rewrite Hr in Hr'. simplify_eq. by rewrite decide_True.
  - rewrite decide_False; [done|]. intros Ha. apply list_find_None in Hf.
    rewrite Forall_forall in Hf. apply (Hf (n, balance_at db acc (n, r))); [|done].
    apply prefix_sums_ordered. eauto.
Qed.

Lemma recalculate_cases acc db :
  amounts_int64 db →
  ((∀ n r, transactions db !! n = Some r → tx_account r = acc → int64 (balance_at db acc (n, r))) ∧
     recalculateBalanceIn acc db = (Ok tt, rebalance acc db)) ∨
  (∃ n r, transactions db !! n = Some r ∧ tx_account r = acc ∧ ¬ int64 (balance_at db acc (n, r)) ∧
     recalculateBalanceIn acc db = (Err (EBalanceOverflow n), db)).
Proof.
  intros Ham. unfold recalculateBalanceIn, gets, lift, mbind, stm_bind. cbn.
  destruct (running_balances_cases db 0 (ordered_rows db acc)) as [[Hall Hrun]|([n b] & Hin & Hov & Hrun)].
  - unfold int64, MinInt64, MaxInt64. lia.
  - apply Forall_forall. intros [n r] [Hr _]%elem_of_ordered. by apply Ham.
  - left. rewrite Hrun. split.
    + intros n r Hr Ha. rewrite Forall_forall in Hall.
      apply (Hall (n, balance_at db acc (n, r))), prefix_sums_ordered. eauto.
    + rewrite apply_updates_run. f_equal. rewrite rebalance_updates. by destruct db.
  - right. rewrite Hrun. apply prefix_sums_ordered in Hin as (r & Hr & Ha & ->). exists n, r. done.
Qed.

(** * The balance only depends on the rows, not on the stored balances *)
Lemma rebalance_lookup acc db n r' :
  transactions (rebalance acc db) !! n = Some r' ↔
  ∃ r, transactions db !! n = Some r ∧
       r' = if decide (tx_account r = acc) then set_balance (balance_at db acc (n, r)) r else r.
Proof.
  unfold rebalance. cbn. rewrite map_lookup_imap. destruct (transactions db !! n); cbn; naive_solver.
Qed.

Lemma rebalance_lookup_eq acc db n :
  transactions (rebalance acc db) !! n =
    (λ r, if decide (tx_account r = acc) then set_balance (balance_at db acc (n, r)) r else r) <$> transactions db !! n.
Proof. unfold rebalance. cbn. rewrite map_lookup_imap. by destruct (transactions db !! n). Qed.

Lemma msum_imap {A B} (g : Z → B → Z) (h : Z → A → B) (m : gmap Z A) :
  msum g (map_imap (λ n r, Some (h n r)) m) = msum (λ n r, g n (h n r)) m.
Proof.
  induction m as [|n r m Hn IH] using map_ind; [by rewrite map_imap_empty, !msum_empty|].
  rewrite map_imap_insert_Some with (y := h n r) by done.
  rewrite !msum_insert, IH; [done|done|]. by rewrite map_lookup_imap, Hn.
Qed.

Lemma balance_at_rebalance acc acc' db x : balance_at (rebalance acc db) acc' x = balance_at db acc' x.
Proof.
  unfold balance_at, rebalance. cbn. rewrite msum_imap. apply msum_ext. intros n r _.
  destruct (decide (tx_account r = acc)); done.
Qed.

Lemma rebalance_balanced acc db : balanced (rebalance acc db) acc.
Proof.
  intros n r' (r & Hr & ->)%rebalance_lookup Ha. rewrite balance_at_rebalance.
  destruct (decide (tx_account r = acc)); done.
Qed.

Lemma rebalance_other acc acc' db : acc' ≠ acc → balanced db acc' → balanced (rebalance acc db) acc'.
Proof.
  intros Hne Hb n r' (r & Hr & ->)%rebalance_lookup Ha. rewrite balance_at_rebalance.
  destruct (decide (tx_account r = acc)); [cbn in Ha; congruence|by apply Hb].
Qed.

(** Two ledgers with the same rows of an account agree on its balances. *)
Definition same_account (acc : string) (db db' : ledger) : Prop :=
  ∀ n r, tx_account r = acc →
    (transactions db !! n = Some r ↔ transactions db' !! n = Some r) ∧
    (transactions db !! n = Some r → effective_amount db n r = effective_amount db' n r).

Lemma balance_at_same acc db db' x : same_account acc db db' → balance_at db acc x = balance_at db' acc x.
Proof.
  intros Hs. unfold balance_at.
  assert (∀ d, msum (λ n r, if decide (tx_account r = acc ∧ row_le (n, r) x)
      then signed (tx_type r) (effective_amount d n r) else 0) (transactions d) =
    msum (λ n r, if decide (row_le (n, r) x) then signed (tx_type r) (effective_amount d n r) else 0)
      (filter (λ p, tx_account p.2 = acc) (transactions d))) as Hf.
  { intros d. rewrite msum_filter. apply msum_ext. intros n r _. cbn.
    repeat case_decide; tauto. }
  rewrite !Hf.
  assert (filter (λ p : Z * txrow, tx_account p.2 = acc) (transactions db) =
          filter (λ p : Z * txrow, tx_account p.2 = acc) (transactions db')) as ->.
  { apply map_eq. intros n. apply option_eq. intros r. rewrite !map_lookup_filter_Some. cbn.
    split; intros [H Ha]; (split; [by apply (Hs n r Ha)|done]). }
  apply msum_ext. intros n r [Hr Ha]%map_lookup_filter_Some. cbn in Ha.
  destruct (Hs n r Ha) as [Hiff He]. rewrite He by by apply Hiff. done.
Qed.

Lemma balanced_same acc db db' : same_account acc db db' → balanced db acc → balanced db' acc.
Proof.
  intros Hs Hb n r Hr Ha. rewrite <-(balance_at_same acc db db') by done. apply Hb; [|done].
  by apply (Hs n r Ha).
Qed.

Lemma recalculate_Ok acc db db' :
  amounts_int64 db → recalculateBalanceIn acc db = (Ok tt, db') → db' = rebalance acc db.
Proof. intros Ham Hrun. destruct (recalculate_cases acc db Ham) as [[_ H]|(?&?&_&_&_&H)]; congruence. Qed.

(** C6. [recalculateBalanceIn] is exact. On a ledger whose amounts are positive
    int64s it either rewrites the balance of every row of the account to the sum
    of the signed effective amounts up to and including that row in (date, id)
    order and touches nothing else, or reports the id of a row at which that sum
    leaves the int64 range and touches nothing at all; which of the two happens
    is decided by whether every such sum is an int64. *)
Theorem recalculateBalanceIn_exact acc db :
  amounts_int64 db →
  ((∀ n r, transactions db !! n = Some r → tx_account r = acc → int64 (balance_at db acc (n, r))) ∧
   recalculateBalanceIn acc db = (Ok tt, rebalance acc db) ∧
   balanced (rebalance acc db) acc ∧
   (∀ acc', acc' ≠ acc → balanced db acc' → balanced (rebalance acc db) acc')) ∨
  (∃ n r, transactions db !! n = Some r ∧ tx_account r = acc ∧ ¬ int64 (balance_at db acc (n, r)) ∧
   recalculateBalanceIn acc db = (Err (EBalanceOverflow n), db)).
Proof.
  intros Ham. destruct (recalculate_cases acc db Ham) as [[Hall Hrun]|Herr]; [left|by right].
  split; [done|]. split; [done|]. split; [apply rebalance_balanced|intros; by apply rebalance_other].
Qed.

(** An account with an income dated after an expense that was entered later. *)
Definition demo_ledger : ledger :=
  set_transactions
    (<[1 := TxRow "bank" 200 "salary" "income" 1000 0 ""]>
    (<[2 := TxRow "bank" 100 "lunch" "expense" 300 0 ""]>
    (<[3 := TxRow "card" 100 "book" "expense" 50 0 ""]> ∅))) (set_tx_seq 3 empty_ledger).

Lemma recalculateBalanceIn_exact_witness :
  amounts_int64 demo_ledger ∧
  tx_balance <$> transactions (snd (recalculateBalanceIn "bank" demo_ledger)) !! 1 = Some 700 ∧
  balanced (rebalance "bank" demo_ledger) "bank".
Proof.
  assert (amounts_int64 demo_ledger) as Ham.
  { apply (bool_decide_unpack (map_Forall (λ n r, 0 < effective_amount demo_ledger n r <= MaxInt64)
             (transactions demo_ledger))). vm_compute. done. }
  split; [done|]. split; [vm_compute; done|].
  destruct (recalculateBalanceIn_exact "bank" demo_ledger Ham) as [(_ & _ & Hb & _)|(n & r & _ & _ & _ & H)].
  - exact Hb.
  - exfalso. vm_compute in H. discriminate H.
Defined.
