(* ===== verification/Tags.v ===== *)
(** Tags: the three-level forest of [core/service.go] (create, rename, delete,
    path creation, lookup) and the labels of transactions. *)
From Stdlib Require Import ZArith Lia.
From stdpp Require Import base gmap list strings sorting.
From S2P Require Import Prelude GoText Validation GoTime Schema.

Open Scope Z_scope.

(** * Paths *)
Fixpoint validate_segments (parts : list string) : res verr (list string) :=
  match parts with
  | [] => Ok []
  | p :: parts' =>
    ValidateTagName p ≫= λ canonical,
    validate_segments parts' ≫= λ rest, Ok (canonical :: rest)
  end.

Definition parseTagPathSegments (path : string) : res lerr (list string) :=
  match validate_segments (Split path slash) with
  | Err e => Err (EV e)
  | Ok segments =>
    if Z.of_nat (length segments) =? 0 then Err ETagPathEmpty
    else match ValidateTagLevel (Z.of_nat (length segments)) with
         | Err e => Err (EV e)
         | Ok _ => Ok segments
         end
  end.

(** * Queries *)
Definition roots_named (m : gmap Z tagrow) (nm : string) : gmap Z tagrow :=
  filter (λ '(_, r), root_named nm r) m.

(** [ORDER BY id LIMIT 1] *)
Definition id_le {A} (x y : Z * A) : Prop := x.1 <= y.1.
#[global] Instance id_le_dec {A} : RelDecision (@id_le A).
Proof. intros x y. unfold id_le. apply _. Defined.

Definition first_id {A} (m : gmap Z A) : option (Z * A) :=
  head (merge_sort id_le (map_to_list m)).

Definition is_child (nm : string) (p : Z) (r : tagrow) : Prop := tag_name r = nm ∧ tag_parent r = Some p.
#[global] Instance is_child_dec nm p r : Decision (is_child nm p r).
Proof. unfold is_child. apply _. Defined.

(** [SELECT id FROM tags WHERE name = ? AND parent_id = ?] *)
Definition child_named (m : gmap Z tagrow) (nm : string) (p : Z) : option (Z * tagrow) :=
  first_id (filter (λ '(_, r), is_child nm p r) m).

(** [... AND parent_id IS NULL AND legacy_duplicate = 0] *)
Definition current_root (m : gmap Z tagrow) (nm : string) : option (Z * tagrow) :=
  first_id (filter (λ '(_, r), root_named nm r ∧ tag_legacy r = false) m).

Definition set_legacy (b : bool) (r : tagrow) : tagrow :=
  TagRow (tag_name r) (tag_parent r) (tag_level r) b.
Definition set_name (nm : string) (r : tagrow) : tagrow :=
  TagRow nm (tag_parent r) (tag_level r) (tag_legacy r).

(** * Writes *)

(** [UPDATE tags SET legacy_duplicate = 1 WHERE parent_id IS NULL AND name = ?]:
    leaving the partial index never conflicts. *)
Definition mark_legacy (nm : string) : op unit :=
  modify (λ db, set_tags
    ((λ r, if decide (root_named nm r) then set_legacy true r else r) <$> tags db) (tag_seq db) db).

Definition normalizeLegacyRootTagMarkers (nm : string) : op unit :=
  if decide (nm = "") then mret tt
  else
    mark_legacy nm;;
    db ← gets id;
    match first_id (roots_named (tags db) nm) with
    | None => mret tt
    | Some (firstID, _) => update_tag firstID (set_legacy false);; mret tt
    end.

Definition CreateTag (name : string) (parentID : option Z) : op Tag :=
  name ← liftv (ValidateTagName name);
  transactional (
    db ← gets id;
    level ← match parentID with
            | Some p =>
              match tags db !! p with
              | None => fail EParentNotFound
              | Some parent =>
                liftv (ValidateTagHierarchy (tag_level parent + 1) (Some (tag_level parent)));;
                mret (tag_level parent + 1)
              end
            | None => liftv (ValidateTagHierarchy 1 None);; mret 1
            end;
    require (match parentID with
             | None => bool_decide (roots_named (tags db) name = ∅)
             | Some _ => true
             end) ERootDuplicate;;
    n ← insert_tag name parentID level;
    mret (MkTag n name parentID level)).

(** One path component: find the tag or create it. *)
Definition path_step (level : Z) (parentID : option Z) (name : string) : op Tag :=
  liftv (ValidateTagHierarchy level (if level =? 1 then None else Some (level - 1)));;
  db ← gets id;
  found ← match parentID with
          | None =>
            require (Z.of_nat (size (roots_named (tags db) name)) <=? 1) ERootAmbiguous;;
            match first_id (roots_named (tags db) name) with
            | Some (n, r) =>
              (if tag_legacy r then update_tag n (set_legacy false);; mret tt else mret tt);;
              mret (Some n)
            | None => mret None
            end
          | Some p => mret (fst <$> child_named (tags db) name p)
          end;
  match found with
  | Some n => mret (MkTag n name parentID level)
  | None =>
    insert_tag_or_ignore name parentID level;;
    db ← gets id;
    match (match parentID with
           | None => current_root (tags db) name
           | Some p => child_named (tags db) name p
           end) with
    | None => fail ETagNotFound
    | Some (n, _) => mret (MkTag n name parentID level)
    end
  end.

Fixpoint create_path (level : Z) (parentID : option Z) (tag : option Tag) (segments : list string)
    : op (option Tag) :=
  match segments with
  | [] => mret tag
  | name :: segments' =>
    t ← path_step level parentID name;
    create_path (level + 1) (Some (t_id t)) (Some t) segments'
  end.

(** The caller passes at least one segment; a nil tag is dereferenced otherwise. *)
Definition createTagPathWithinTx (segments : list string) : op (option Tag) :=
  create_path 1 None None segments.

Definition CreateTagByPath (path : string) : op (option Tag) :=
  segments ← lift (parseTagPathSegments path);
  transactional (createTagPathWithinTx segments).

Definition UpdateTag (n : Z) (name : string) : op unit :=
  name ← liftv (ValidateTagName name);
  transactional (
    db ← gets id;
    match tags db !! n with
    | None => fail ETagNotFound
    | Some r =>
      let is_root := bool_decide (tag_parent r = None) in
      require (negb is_root || bool_decide (delete n (roots_named (tags db) name) = ∅)) ERootDuplicate;;
      affected ← update_tag n (set_name name);
      require (negb (affected =? 0)) ETagNotFound;;
      if is_root then
        normalizeLegacyRootTagMarkers (tag_name r);;
        normalizeLegacyRootTagMarkers name
      else mret tt
    end).

Definition DeleteTag (n : Z) : op unit :=
  transactional (
    db ← gets id;
    match tags db !! n with
    | None => fail ETagNotFound
    | Some r =>
      affected ← delete_tag n;
      require (negb (affected =? 0)) ETagNotFound;;
      if bool_decide (tag_parent r = None) then normalizeLegacyRootTagMarkers (tag_name r)
      else mret tt
    end).

(** * Labels of transactions *)
Fixpoint validate_tag_ids (m : gmap Z tagrow) (seen : gset Z) (ids : list Z) : res lerr unit :=
  match ids with
  | [] => Ok tt
  | g :: ids' =>
    if g <=? 0 then Err (EBadTagID g)
    else if decide (g ∈ seen) then validate_tag_ids m seen ids'
    else match m !! g with
         | None => Err (ETagIDNotFound g)
         | Some _ => validate_tag_ids m ({[g]} ∪ seen) ids'
         end
  end.

Definition validateTagIDsIn (ids : list Z) : op unit :=
  db ← gets id; lift (validate_tag_ids (tags db) ∅ ids).

Fixpoint create_paths (paths : list string) : op (list Z) :=
  match paths with
  | [] => mret []
  | path :: paths' =>
    segments ← lift (parseTagPathSegments path);
    tag ← createTagPathWithinTx segments;
    rest ← create_paths paths';
    mret (match tag with Some t => t_id t :: rest | None => rest end)
  end.

Definition resolveTransactionTagIDsIn (existingIDs : list Z) (newPaths : list string) : op (list Z) :=
  require (Z.of_nat (length newPaths) <=? 10) ETooManyNewTags;;
  validateTagIDsIn existingIDs;;
  created ← create_paths newPaths;
  mret (existingIDs ++ created).

Definition AddTransactionTags (transactionID : Z) (tagIDs : list Z) : op unit :=
  transactional (
    select_transaction transactionID;;
    db ← gets id;
    lift (validate_tag_ids (tags db) ∅ tagIDs);;
    for_each (insert_transaction_tag transactionID) (elements (list_to_set tagIDs : gset Z))).

Definition RemoveTransactionTag (transactionID tagID : Z) : op unit :=
  modify (λ db, set_transaction_tags (transaction_tags db ∖ {[(transactionID, tagID)]}) db).

(** * Reads *)
(** [ORDER BY level, name]; rows that tie stay in id order. *)
Definition tag_le (x y : Z * tagrow) : Prop :=
  if tag_level x.2 =? tag_level y.2 then
    (if decide (tag_name x.2 = tag_name y.2) then x.1 <= y.1
     else lex_le (bytes (tag_name x.2)) (bytes (tag_name y.2)) = true)
  else tag_level x.2 < tag_level y.2.
#[global] Instance tag_le_dec : RelDecision tag_le.
Proof. intros x y. unfold tag_le. destruct (_ =? _); [|apply _]. destruct (decide _); apply _. Defined.

Definition as_tag (x : Z * tagrow) : Tag := MkTag x.1 (tag_name x.2) (tag_parent x.2) (tag_level x.2).

Definition ordered_tags (m : gmap Z tagrow) : list Tag := as_tag <$> merge_sort tag_le (map_to_list m).

Definition transaction_tags_of (db : ledger) (transactionID : Z) : list Tag :=
  ordered_tags (filter (λ '(g, _), (transactionID, g) ∈ transaction_tags db) (tags db)).

Definition GetTransactionTags (transactionID : Z) : op (list Tag) :=
  gets (λ db, transaction_tags_of db transactionID).

#[warnings="-register-all"]
Inductive TagTree := TagNode (tag : Tag) (children : list TagTree).

(** [populateChildren]: the recursion of the source has no bound of its own; it
    is bounded here by the number of tags. *)
Fixpoint populateChildren (fuel : nat) (allTags : list Tag) (tag : Tag) : TagTree :=
  match fuel with
  | O => TagNode tag []
  | S k => TagNode tag (populateChildren k allTags <$> filter (λ t, t_parent t = Some (t_id tag)) allTags)
  end.

Definition GetTags : op (list TagTree) :=
  gets (λ db, let allTags := ordered_tags (tags db) in
    populateChildren (length allTags) allTags <$> filter (λ t, t_parent t = None) allTags).

Record TagDeleteImpact := DeleteImpact {
  imp_tag : Z; imp_name : string; imp_descendants : Z; imp_transactions : Z
}.

Definition GetTagDeleteImpact (n : Z) : op TagDeleteImpact :=
  db ← gets id;
  match tags db !! n with
  | None => fail ETagNotFound
  | Some r =>
    let dead := subtree (tags db) n in
    mret (DeleteImpact n (tag_name r) (Z.of_nat (size dead) - 1)
      (Z.of_nat (size (set_map fst (filter (λ '(_, g), g ∈ dead) (transaction_tags db)) : gset Z))))
  end.

(** * The forest invariant *)

(** Levels follow the parents, names are canonical, the unique indexes hold, and
    of the roots of one name exactly the one with the lowest id is unmarked. The
    last clause is dropped for the names in [X], which a rename or a deletion is
    in the middle of repairing. *)
Record forest_except (X : gset string) (m : gmap Z tagrow) (seq : Z) : Prop := {
  fo_level : ∀ n r, m !! n = Some r →
    match tag_parent r with
    | None => tag_level r = 1
    | Some p => ∃ q, m !! p = Some q ∧ tag_level r = tag_level q + 1
    end;
  fo_range : ∀ n r, m !! n = Some r → 1 <= tag_level r <= 3;
  fo_seq : ∀ n r, m !! n = Some r → 1 <= n <= seq;
  fo_name : ∀ n r, m !! n = Some r → ValidateTagName (tag_name r) = Ok (tag_name r);
  fo_unique : ∀ n1 n2 r1 r2, m !! n1 = Some r1 → m !! n2 = Some r2 → n1 ≠ n2 → ¬ tag_conflict r1 r2;
  fo_marker : ∀ n r, m !! n = Some r → tag_parent r = None → tag_name r ∉ X →
    (tag_legacy r = false ↔ ∀ n' r', m !! n' = Some r' → root_named (tag_name r) r' → n <= n')
}.

Abbreviation forest := (forest_except ∅).

Definition labels_wf (db : ledger) : Prop :=
  ∀ t g, (t, g) ∈ transaction_tags db → is_Some (transactions db !! t) ∧ is_Some (tags db !! g).

Definition tags_wf (db : ledger) : Prop :=
  0 <= tag_seq db ∧ forest (tags db) (tag_seq db) ∧ labels_wf db.

Lemma first_id_Some {A} (m : gmap Z A) n x :
  first_id m = Some (n, x) → m !! n = Some x ∧ ∀ n' x', m !! n' = Some x' → n <= n'.
Proof.
  unfold first_id. pose proof (merge_sort_Permutation id_le (map_to_list m)) as Hp.
  assert (Transitive (@id_le A)) by (intros ???; unfold id_le; lia).
  assert (Total (@id_le A)) by (intros ??; unfold id_le; lia).
  pose proof (StronglySorted_merge_sort id_le (map_to_list m)) as Hs.
  destruct (merge_sort _ _) as [|y l] eqn:El; [done|]. intros [= ->].
  apply StronglySorted_inv in Hs as [_ Hf]. rewrite Forall_forall in Hf. split.
  - apply elem_of_map_to_list. rewrite <-Hp. left.
  - intros n' x' Hin%elem_of_map_to_list. rewrite <-Hp in Hin. apply elem_of_cons in Hin as [[= <- <-]|Hin]; [done|].
    apply (Hf _ Hin).
Qed.

Lemma first_id_None {A} (m : gmap Z A) : first_id m = None → m = ∅.
Proof.
  unfold first_id. pose proof (merge_sort_Permutation id_le (map_to_list m)) as Hp.
  destruct (merge_sort _ _); [|done]. intros _. apply map_to_list_empty_iff.
  symmetry. by apply Permutation_nil_l.
Qed.

Lemma roots_named_lookup m nm n r :
  roots_named m nm !! n = Some r ↔ m !! n = Some r ∧ root_named nm r.
Proof. unfold roots_named. by rewrite map_lookup_filter_Some. Qed.

Lemma roots_named_empty m nm n r :
  roots_named m nm = ∅ → m !! n = Some r → root_named nm r → False.
Proof.
  intros He Hr Hn. assert (roots_named m nm !! n = Some r) as H by by apply roots_named_lookup.
  rewrite He in H. done.
Qed.

Lemma ValidateTagName_canonical raw name : ValidateTagName raw = Ok name → ValidateTagName name = Ok name.
Proof.
  intros (-> & ? & ? & ? & ?)%ValidateTagName_Ok_inv. apply ValidateTagName_intro; try done.
  apply TrimSpace_idemp.
Qed.

Lemma forest_subset X Y m seq : X ⊆ Y → forest_except X m seq → forest_except Y m seq.
Proof. intros HXY []. split; auto. Qed.

Lemma tag_unique_ok_true m n r :
  tag_unique_ok m n r = true → ∀ k q, m !! k = Some q → k ≠ n → ¬ tag_conflict r q.
Proof. intros H%bool_decide_eq_true k q Hk. exact (H k q Hk). Qed.

Lemma tag_conflict_sym r1 r2 : tag_conflict r1 r2 → tag_conflict r2 r1.
Proof. unfold tag_conflict. destruct (tag_parent r1), (tag_parent r2); naive_solver. Qed.

(** ** Insertion *)
Lemma forest_insert m seq nm parent level :
  0 <= seq → forest m seq → ValidateTagName nm = Ok nm →
  tag_unique_ok m (seq + 1) (TagRow nm parent level false) = true →
  match parent with
  | None => level = 1 ∧ roots_named m nm = ∅
  | Some p => ∃ q, m !! p = Some q ∧ level = tag_level q + 1
  end → 1 <= level <= 3 →
  forest (<[seq + 1 := TagRow nm parent level false]> m) (seq + 1).
Proof.
  intros Hseq Hf Hnm Hu Hp Hl. set (new := TagRow nm parent level false).
  assert (m !! (seq + 1) = None) as Hfresh.
  { destruct (m !! (seq + 1)) eqn:E; [|done]. apply (fo_seq _ _ _ Hf) in E. lia. }
  assert (∀ p q, m !! p = Some q → <[seq + 1 := new]> m !! p = Some q) as Hold.
  { intros p q Hq. rewrite lookup_insert_ne; [done|congruence]. }
  split.
  - intros n r [[<- <-]|[Hne Hr]]%lookup_insert_Some; cbn.
    + destruct parent as [p|]; [|tauto]. destruct Hp as (q & Hq & ->). eauto.
    + pose proof (fo_level _ _ _ Hf _ _ Hr) as H. destruct (tag_parent r); [|done].
      destruct H as (q & Hq & ?). eauto.
  - intros n r [[<- <-]|[_ Hr]]%lookup_insert_Some; [done|]. by apply (fo_range _ _ _ Hf n).
  - intros n r [[<- <-]|[_ Hr]]%lookup_insert_Some; [lia|]. apply (fo_seq _ _ _ Hf) in Hr. lia.
  - intros n r [[<- <-]|[_ Hr]]%lookup_insert_Some; [done|]. by apply (fo_name _ _ _ Hf n).
  - intros n1 n2 r1 r2 [[<- <-]|[? H1]]%lookup_insert_Some [[<- <-]|[? H2]]%lookup_insert_Some ?; [done| | |].
    + by eapply tag_unique_ok_true.
    + intros ?%tag_conflict_sym. by eapply (tag_unique_ok_true m (seq + 1)).
    + by eapply (fo_unique _ _ _ Hf n1 n2).
  - intros n r [[<- <-]|[Hne Hr]]%lookup_insert_Some Hroot _; cbn.
    + split; [intros _|done]. cbn in Hroot. subst parent. destruct Hp as [_ He].
      intros n' r' [[<- <-]|[_ Hr']]%lookup_insert_Some Hn; [lia|].
      exfalso. by eapply roots_named_empty.
    + rewrite (fo_marker _ _ _ Hf n r Hr Hroot) by set_solver. split.
      * intros H n' r' [[<- <-]|[_ Hr']]%lookup_insert_Some Hn; [|by eapply H].
        apply (fo_seq _ _ _ Hf) in Hr. lia.
      * intros H n' r' Hr'. by apply H, Hold.
Qed.

(** ** Marker repair *)
Lemma forest_mark X m seq nm :
  forest_except X m seq → nm ∈ X →
  forest_except X ((λ r, if decide (root_named nm r) then set_legacy true r else r) <$> m) seq.
Proof.
  intros Hf HX. set (f := λ r, if decide (root_named nm r) then set_legacy true r else r).
  assert (∀ r, tag_name (f r) = tag_name r ∧ tag_parent (f r) = tag_parent r ∧ tag_level (f r) = tag_level r) as Hf3.
  { intros r. unfold f. by case_decide. }
  assert (∀ nm' r, root_named nm' (f r) ↔ root_named nm' r) as Hrn.
  { intros nm' r. unfold root_named. by destruct (Hf3 r) as (-> & -> & _). }
  split.
  - intros n r' (r & <- & Hr)%lookup_fmap_Some. destruct (Hf3 r) as (_ & -> & ->).
    pose proof (fo_level _ _ _ Hf _ _ Hr) as H. destruct (tag_parent r); [|done].
    destruct H as (q & Hq & Hl). exists (f q). rewrite lookup_fmap, Hq. destruct (Hf3 q) as (_ & _ & ->). done.
  - intros n r' (r & <- & Hr)%lookup_fmap_Some. destruct (Hf3 r) as (_ & _ & ->). by apply (fo_range _ _ _ Hf n).
  - intros n r' (r & <- & Hr)%lookup_fmap_Some. by apply (fo_seq _ _ _ Hf n r).
  - intros n r' (r & <- & Hr)%lookup_fmap_Some. destruct (Hf3 r) as (-> & _ & _). by apply (fo_name _ _ _ Hf n).
  - intros n1 n2 r1' r2' (r1 & <- & H1)%lookup_fmap_Some (r2 & <- & H2)%lookup_fmap_Some Hne Hc.
    apply (fo_unique _ _ _ Hf n1 n2 r1 r2); try done. revert Hc. unfold tag_conflict.
    destruct (Hf3 r1) as (-> & -> & _), (Hf3 r2) as (-> & -> & _). intros [Hn Hc]. split; [done|].
    destruct (tag_parent r1), (tag_parent r2); try done. unfold f in Hc.
    destruct (decide (root_named nm r1)), (decide (root_named nm r2)); naive_solver.
  - intros n r' (r & <- & Hr)%lookup_fmap_Some. destruct (Hf3 r) as (-> & -> & _). intros Hroot Hnm.
    unfold f at 1. rewrite decide_False by (intros [? ?]; subst; done).
    rewrite (fo_marker _ _ _ Hf n r Hr Hroot Hnm). split; intros H n' r''.
    + intros (r0 & <- & Hr0)%lookup_fmap_Some. rewrite Hrn. by apply H.
    + intros Hr0 Hrt. apply (H n' (f r'')); [by rewrite lookup_fmap, Hr0|by apply Hrn].
Qed.

Lemma forest_no_root X m seq nm :
  forest_except X m seq → roots_named m nm = ∅ → forest_except (X ∖ {[nm]}) m seq.
Proof.
  intros Hf He. destruct Hf. split; auto. intros n r Hr Hroot Hnm.
  apply fo_marker0; [done|done|]. intros HX. apply Hnm. apply elem_of_difference. split; [done|].
  intros Heq%elem_of_singleton. by eapply (roots_named_empty m nm).
Qed.

(** Replacing one row by one with the same name, parent and level. *)
Lemma forest_update X Y m seq n r r' :
  forest_except X m seq → m !! n = Some r →
  tag_parent r' = tag_parent r → tag_level r' = tag_level r → ValidateTagName (tag_name r') = Ok (tag_name r') →
  tag_unique_ok m n r' = true →
  (∀ k q, <[n := r']> m !! k = Some q → tag_parent q = None → tag_name q ∉ Y →
     (tag_legacy q = false ↔ ∀ k' q', <[n := r']> m !! k' = Some q' → root_named (tag_name q) q' → k <= k')) →
  forest_except Y (<[n := r']> m) seq.
Proof.
  intros Hf Hr Hp Hl Hnm Hu Hmark.
  assert (∀ p q, m !! p = Some q → ∃ q', <[n := r']> m !! p = Some q' ∧ tag_level q' = tag_level q) as Hlev.
  { intros p q Hq. destruct (decide (p = n)) as [->|].
    - exists r'. rewrite lookup_insert_eq. split; [done|]. congruence.
    - exists q. by rewrite lookup_insert_ne. }
  split; [| | | | |done].
  - intros k q [[<- <-]|[_ Hq]]%lookup_insert_Some.
    + rewrite Hp, Hl. pose proof (fo_level _ _ _ Hf _ _ Hr) as H. destruct (tag_parent r) as [p|]; [|done].
      destruct H as (q & Hq & ->). destruct (Hlev _ _ Hq) as (q' & ? & ?). exists q'. split; [done|lia].
    + pose proof (fo_level _ _ _ Hf _ _ Hq) as H. destruct (tag_parent q) as [p|]; [|done].
      destruct H as (z & Hz & ->). destruct (Hlev _ _ Hz) as (q' & ? & ?). exists q'. split; [done|lia].
  - intros k q [[<- <-]|[_ Hq]]%lookup_insert_Some; [rewrite Hl; by apply (fo_range _ _ _ Hf n)|by apply (fo_range _ _ _ Hf k)].
  - intros k q [[<- <-]|[_ Hq]]%lookup_insert_Some; [by apply (fo_seq _ _ _ Hf n r)|by apply (fo_seq _ _ _ Hf k q)].
  - intros k q [[<- <-]|[_ Hq]]%lookup_insert_Some; [done|by apply (fo_name _ _ _ Hf k)].
  - intros n1 n2 r1 r2 [[<- <-]|[? H1]]%lookup_insert_Some [[<- <-]|[? H2]]%lookup_insert_Some ?; [done| | |].
    + by eapply tag_unique_ok_true.
    + intros ?%tag_conflict_sym. by eapply (tag_unique_ok_true m n).
    + by eapply (fo_unique _ _ _ Hf n1 n2).
Qed.

Lemma forest_unmark X m seq nm n r :
  forest_except X m seq → nm ∈ X → roots_named m nm !! n = Some r →
  (∀ k q, roots_named m nm !! k = Some q → n <= k ∧ tag_legacy q = true) →
  tag_unique_ok m n (set_legacy false r) = true →
  forest_except (X ∖ {[nm]}) (<[n := set_legacy false r]> m) seq.
Proof.
  intros Hf HX [Hr Hroot]%roots_named_lookup Hall Hu. destruct Hroot as [Hnm Hpar].
  eapply forest_update; try done. { cbn. by apply (fo_name _ _ _ Hf n). }
  intros k q Hk Hq HY. destruct (decide (tag_name q = nm)) as [Heq|Hne].
  - rewrite Heq. apply lookup_insert_Some in Hk as [[<- <-]|[Hkn Hk]].
    + split; [intros _|done]. intros k' q' [[<- <-]|[_ Hk']]%lookup_insert_Some Hn'; [done|].
      apply (Hall k' q'). by apply roots_named_lookup.
    + destruct (Hall k q) as [Hle Hleg]; [apply roots_named_lookup; done|]. rewrite Hleg. split; [done|].
      intros H. specialize (H n (set_legacy false r)). rewrite lookup_insert_eq in H.
      specialize (H eq_refl). unfold root_named in H. cbn in H. specialize (H ltac:(done)). lia.
  - apply lookup_insert_Some in Hk as [[<- <-]|[Hkn Hk]]; [cbn in Hne; done|].
    rewrite (fo_marker _ _ _ Hf k q Hk Hq) by set_solver. split; intros H k' q'.
    + intros [[<- <-]|[_ Hk']]%lookup_insert_Some Hn'; [|by eapply H].
      unfold root_named in Hn'. cbn in Hn'. naive_solver.
    + intros Hk' Hn'. apply (H k' q'); [|done]. rewrite lookup_insert_ne; [done|]. intros ->.
      rewrite Hr in Hk'. simplify_eq. unfold root_named in Hn'. naive_solver.
Qed.

(** What a tag write leaves alone. *)
Definition tag_frame (db db' : ledger) : Prop :=
  db' = set_tags (tags db') (tag_seq db') db.

Lemma tag_frame_refl db : tag_frame db db.
Proof. by destruct db. Qed.
Lemma tag_frame_trans db1 db2 db3 : tag_frame db1 db2 → tag_frame db2 db3 → tag_frame db1 db3.
Proof. unfold tag_frame. intros H1 H2. rewrite H2, H1. done. Qed.
Lemma tag_frame_set m n db : tag_frame db (set_tags m n db).
Proof. done. Qed.

Lemma wp_normalize X nm db :
  forest_except X (tags db) (tag_seq db) → nm ∈ X → nm ≠ "" →
  wp (normalizeLegacyRootTagMarkers nm) (λ _ db',
    forest_except (X ∖ {[nm]}) (tags db') (tag_seq db') ∧ tag_frame db db' ∧
    tag_seq db' = tag_seq db ∧ dom (tags db') = dom (tags db)) db.
Proof.
  intros Hf HX Hne. unfold normalizeLegacyRootTagMarkers. rewrite decide_False by done.
  unfold mark_legacy, update_tag. do 3 wp_step. cbn.
  set (m := (λ r, if decide (root_named nm r) then set_legacy true r else r) <$> tags db).
  pose proof (forest_mark X (tags db) (tag_seq db) nm Hf HX) as Hf1. fold m in Hf1.
  assert (dom m = dom (tags db)) as Hdom by apply dom_fmap_L.
  wp_step; [wp_step|].
  - do 2 wp_step. cbn. destruct (first_id_Some _ _ _ Heqo) as [Hfirst Hmin].
    pose proof (proj1 (roots_named_lookup _ _ _ _) Hfirst) as [Hn Hroot]. rewrite Hn.
    wp_auto. cbn. split; [|split; [done|split; [done|]]].
    + apply forest_unmark; try done. intros k q Hk. split; [by eapply Hmin|].
      apply roots_named_lookup in Hk as [Hk Hq]. unfold m in Hk.
      apply lookup_fmap_Some in Hk as (q0 & <- & _). case_decide as Hd; [done|].
      exfalso. apply Hd, Hq.
    + rewrite dom_insert_L, Hdom. apply elem_of_dom_2 in Hn. rewrite Hdom in Hn. set_solver.
  - wp_step. cbn. split; [|done]. apply forest_no_root; [done|]. by apply first_id_None.
Qed.

(** ** The handlers *)
Lemma labels_wf_grow m n db : dom (tags db) ⊆ dom m → labels_wf db → labels_wf (set_tags m n db).
Proof.
  intros Hsub Hl t g Hin. destruct (Hl t g Hin) as [Ht Hg]. split; [done|]. cbn.
  apply elem_of_dom, Hsub, elem_of_dom. done.
Qed.

Definition tag_step_ok (db db' : ledger) : Prop :=
  tags_wf db' ∧ tag_frame db db' ∧ dom (tags db) ⊆ dom (tags db').

Lemma tags_wf_insert db nm parent level :
  tags_wf db → ValidateTagName nm = Ok nm → 1 <= level <= 3 →
  tag_unique_ok (tags db) (tag_seq db + 1) (TagRow nm parent level false) = true →
  match parent with
  | None => level = 1 ∧ roots_named (tags db) nm = ∅
  | Some p => ∃ q, tags db !! p = Some q ∧ level = tag_level q + 1
  end →
  tag_step_ok db (set_tags (<[tag_seq db + 1 := TagRow nm parent level false]> (tags db)) (tag_seq db + 1) db).
Proof.
  intros (Hseq & Hf & Hl) Hnm Hlev Hu Hp. split; [split; [|split]|split]; cbn.
  - lia.
  - by apply forest_insert.
  - apply labels_wf_grow; [|done]. set_solver.
  - done.
  - set_solver.
Qed.

Lemma level_ok_range l : tag_level_ok l = true → 1 <= l <= 3.
Proof. unfold tag_level_ok. lia. Qed.

Lemma CreateTag_wp name parent db :
  tags_wf db → wp (CreateTag name parent) (λ _ db', tag_step_ok db db') db.
Proof.
  intros Hwf. unfold CreateTag, insert_tag. wp_auto; apply tags_wf_insert; try done;
    split_bools; eauto using ValidateTagName_canonical, level_ok_range.
Qed.

(** A walk down the forest: the tag the names lead to from a parent. *)
Inductive walk (m : gmap Z tagrow) : option Z → list string → Z → Prop :=
| walk_one p nm n r : m !! n = Some r → tag_name r = nm → tag_parent r = p → walk m p [nm] n
| walk_cons p nm n r nms k :
    m !! n = Some r → tag_name r = nm → tag_parent r = p → walk m (Some n) nms k → walk m p (nm :: nms) k.

(** The rows of [m] keep their identity in [m']. *)
Definition rows_kept (m m' : gmap Z tagrow) : Prop :=
  ∀ n r, m !! n = Some r → ∃ r', m' !! n = Some r' ∧ as_tag (n, r') = as_tag (n, r).

(** At most one root has the name. *)
Definition few_roots (m : gmap Z tagrow) (nm : string) : Prop := (size (roots_named m nm) <= 1)%nat.

Lemma rows_kept_refl m : rows_kept m m.
Proof. intros n r. eauto. Qed.

Lemma rows_kept_trans m1 m2 m3 : rows_kept m1 m2 → rows_kept m2 m3 → rows_kept m1 m3.
Proof.
  intros H1 H2 n r Hr. destruct (H1 n r Hr) as (r' & Hr' & Hn').
  destruct (H2 n r' Hr') as (r'' & ? & ?). exists r''. split; [done|congruence].
Qed.

Lemma rows_kept_insert m n r : m !! n = None → rows_kept m (<[n := r]> m).
Proof. intros Hn k q Hk. exists q. rewrite lookup_insert_ne by congruence. done. Qed.

Definition level_fits (m : gmap Z tagrow) (level : Z) (parent : option Z) : Prop :=
  match parent with
  | None => level = 1
  | Some p => ∃ q, m !! p = Some q ∧ level = tag_level q + 1
  end.

(** The row a path component resolves to. *)
Definition resolves (m : gmap Z tagrow) (level : Z) (parent : option Z) (name : string) (n : Z) : Prop :=
  ∃ r, m !! n = Some r ∧ tag_name r = name ∧ tag_parent r = parent ∧ tag_level r = level.

Lemma child_named_Some m nm p n r :
  child_named m nm p = Some (n, r) → m !! n = Some r ∧ tag_name r = nm ∧ tag_parent r = Some p.
Proof. intros [[Hn [? ?]]%map_lookup_filter_Some _]%first_id_Some. done. Qed.

Lemma current_root_Some m nm n r :
  current_root m nm = Some (n, r) → m !! n = Some r ∧ tag_name r = nm ∧ tag_parent r = None ∧ tag_legacy r = false.
Proof. intros [[Hn [[? ?] ?]]%map_lookup_filter_Some _]%first_id_Some. done. Qed.

Lemma sole_root_unmarked X m seq nm n r :
  forest_except X m seq → nm ∉ X → first_id (roots_named m nm) = Some (n, r) → tag_legacy r = false.
Proof.
  intros Hf HX [[Hn [Hnm Hp]]%roots_named_lookup Hmin]%first_id_Some. subst nm.
  apply (fo_marker _ _ _ Hf n r Hn Hp HX). intros n' r' Hn' Hr'. eapply Hmin. by apply roots_named_lookup.
Qed.

Lemma resolves_forest X m seq level parent name n r :
  forest_except X m seq → level_fits m level parent →
  m !! n = Some r → tag_name r = name → tag_parent r = parent → resolves m level parent name n.
Proof.
  intros Hf Hl Hn Hnm Hp. exists r. split; [done|]. split; [done|]. split; [done|].
  pose proof (fo_level _ _ _ Hf n r Hn) as H. rewrite Hp in H. unfold level_fits in Hl.
  destruct parent; [|congruence]. destruct H as (q & Hq & ->), Hl as (q' & Hq' & ->). congruence.
Qed.

Definition path_post (db : ledger) (level : Z) (parent : option Z) (name : string) (t : Tag) (db' : ledger) : Prop :=
  tag_step_ok db db' ∧ rows_kept (tags db) (tags db') ∧
  (∀ nm, few_roots (tags db) nm → few_roots (tags db') nm) ∧
  (parent = None → few_roots (tags db') name) ∧
  resolves (tags db') level parent name (t_id t) ∧ t = MkTag (t_id t) name parent level.

Lemma tag_step_refl db : tags_wf db → tag_step_ok db db.
Proof. intros H. split; [done|]. split; [apply tag_frame_refl|done]. Qed.

Lemma path_found db level parent name n r :
  tags_wf db → level_fits (tags db) level parent → (parent = None → few_roots (tags db) name) →
  tags db !! n = Some r → tag_name r = name → tag_parent r = parent →
  path_post db level parent name (MkTag n name parent level) db.
Proof.
  intros Hwf Hl Hfew Hn Hnm Hp. split; [by apply tag_step_refl|]. split; [apply rows_kept_refl|].
  split; [done|]. split; [done|]. split; [|done].
  destruct Hwf as (_ & Hf & _). by eapply resolves_forest.
Qed.

Lemma path_created db db' level parent name n r :
  tag_step_ok db db' → rows_kept (tags db) (tags db') → level_fits (tags db') level parent →
  (∀ nm, few_roots (tags db) nm → few_roots (tags db') nm) → (parent = None → few_roots (tags db) name) →
  tags db' !! n = Some r → tag_name r = name → tag_parent r = parent →
  path_post db level parent name (MkTag n name parent level) db'.
Proof.
  intros Hstep Hk Hl Hmono Hfew Hn Hnm Hp. split; [done|]. split; [done|]. split; [done|]. split; [auto|].
  split; [|done].
  destruct Hstep as ((_ & Hf & _) & _). by eapply resolves_forest.
Qed.

Lemma level_fits_insert m seq level parent nm r :
  forest m seq → level_fits m level parent → level_fits (<[seq + 1 := TagRow nm parent level r]> m) level parent.
Proof.
  intros Hf. unfold level_fits. destruct parent as [p|]; [|done]. intros (q & Hq & ->). exists q.
  rewrite lookup_insert_ne; [done|]. apply (fo_seq _ _ _ Hf) in Hq. lia.
Qed.

Lemma few_roots_insert m n r nm :
  m !! n = None → (root_named nm r → roots_named m nm = ∅) → few_roots m nm → few_roots (<[n := r]> m) nm.
Proof.
  unfold few_roots, roots_named. intros Hn Hr Hm. destruct (decide (root_named nm r)) as [Hd|Hd].
  - rewrite map_filter_insert_True, Hr by done. rewrite map_size_insert_None, map_size_empty; [lia|apply lookup_empty].
  - by rewrite map_filter_insert_False, delete_id.
Qed.

Lemma insert_tag_or_ignore_wp db level parent name :
  tags_wf db → level_fits (tags db) level parent → ValidateTagName name = Ok name →
  (parent = None → roots_named (tags db) name = ∅) →
  wp (insert_tag_or_ignore name parent level) (λ _ db',
    tag_step_ok db db' ∧ rows_kept (tags db) (tags db') ∧ level_fits (tags db') level parent ∧
    (∀ nm, few_roots (tags db) nm → few_roots (tags db') nm)) db.
Proof.
  intros Hwf Hl Hnm Hroot. unfold insert_tag_or_ignore. wp_auto.
  - split_bools. destruct Hwf as (Hseq & Hf & Hlab) eqn:E.
    assert (tags db !! (tag_seq db + 1) = None) as Hfresh.
    { destruct (tags db !! _) eqn:Hx; [|done]. apply (fo_seq _ _ _ Hf) in Hx. lia. }
    split; [|split; [|split]].
    + apply tags_wf_insert; try done; [by apply level_ok_range|].
      destruct parent; [done|]. split; [done|auto].
    + by apply rows_kept_insert.
    + by apply level_fits_insert.
    + intros nm. cbn. apply few_roots_insert; [done|]. intros [Hn Hp]. cbn in Hn, Hp. subst. auto.
  - split; [by apply tag_step_refl|]. split; [apply rows_kept_refl|done].
Qed.

Lemma path_step_wp db level parent name :
  tags_wf db → level_fits (tags db) level parent → ValidateTagName name = Ok name →
  wp (path_step level parent name) (path_post db level parent name) db.
Proof.
  intros Hwf Hl Hnm. unfold path_step. do 4 wp_step.
  assert ((parent = None → few_roots (tags db) name) → (parent = None → roots_named (tags db) name = ∅) →
    wp (insert_tag_or_ignore name parent level;;
        db ← gets id;
        match (match parent with
               | None => current_root (tags db) name
               | Some p => child_named (tags db) name p
               end) with
        | None => fail ETagNotFound
        | Some (n, _) => mret (MkTag n name parent level)
        end) (path_post db level parent name) db) as Hcreate.
  { intros Hfew Hroot. wp_step. eapply wp_mono; [by apply insert_tag_or_ignore_wp|].
    intros _ db' (Hs & Hk & Hf' & Hmono). do 2 wp_step.
    destruct parent as [p|].
    - destruct (child_named (tags db') name p) as [[n r]|] eqn:E; [|done].
      apply child_named_Some in E as (? & ? & ?). by eapply path_created.
    - destruct (current_root (tags db') name) as [[n r]|] eqn:E; [|done].
      apply current_root_Some in E as (? & ? & ? & ?). by eapply path_created. }
  destruct parent as [p|].
  - do 2 wp_step. destruct (child_named (tags db) name p) as [[n r]|] eqn:E; cbn [fmap option_fmap option_map fst].
    + wp_step. apply child_named_Some in E as (? & ? & ?). by eapply path_found.
    + by apply Hcreate.
  - do 3 wp_step. assert (few_roots (tags db) name) as Hfew by (unfold few_roots; lia).
    destruct (first_id (roots_named (tags db) name)) as [[n r]|] eqn:E.
    + destruct Hwf as (Hseq & Hf & Hlab) eqn:Ew.
      rewrite (sole_root_unmarked ∅ (tags db) (tag_seq db) name n r Hf ltac:(set_solver) E).
      do 4 wp_step. apply first_id_Some in E as [[Hn [? ?]]%roots_named_lookup _]. by eapply path_found.
    + wp_step. apply Hcreate; [done|]. intros _. by apply first_id_None.
Qed.

Lemma tag_step_trans db1 db2 db3 : tag_step_ok db1 db2 → tag_step_ok db2 db3 → tag_step_ok db1 db3.
Proof.
  intros (_ & F1 & D1) (W2 & F2 & D2). split; [done|]. split; [by eapply tag_frame_trans|set_solver].
Qed.

Abbreviation canonical := (λ name, ValidateTagName name = Ok name).

Lemma validate_segments_canonical parts segs :
  validate_segments parts = Ok segs → Forall canonical segs ∧ length segs = length parts.
Proof.
  revert segs. induction parts as [|p parts IH]; cbn; intros segs; [intros [= <-]; done|].
  intros (nm & Hnm & (rest & Hrest & [= <-])%res_bind_Ok_inv)%res_bind_Ok_inv.
  destruct (IH _ Hrest) as [? ?]. split; [|cbn; congruence].
  apply Forall_cons. split; [by eapply ValidateTagName_canonical|done].
Qed.

Lemma parseTagPathSegments_canonical path segs :
  parseTagPathSegments path = Ok segs → Forall canonical segs ∧ segs ≠ [] ∧ (length segs <= 3)%nat.
Proof.
  unfold parseTagPathSegments. destruct (validate_segments _) as [l|] eqn:Hv; [|done].
  destruct (_ =? 0) eqn:H0; [done|]. destruct (ValidateTagLevel _) as [[]|] eqn:Hl; [|done].
  intros [= <-]. apply ValidateTagLevel_Ok in Hl. apply validate_segments_canonical in Hv as [? _].
  split; [done|]. split; [intros ->; done|lia].
Qed.

Definition path_result (db : ledger) (parent : option Z) (tag : option Tag) (segs : list string)
    (t : option Tag) (db' : ledger) : Prop :=
  tag_step_ok db db' ∧ rows_kept (tags db) (tags db') ∧
  (∀ nm, few_roots (tags db) nm → few_roots (tags db') nm) ∧
  match segs with
  | [] => t = tag
  | nm :: _ => (parent = None → few_roots (tags db') nm) ∧
      ∃ k r, t = Some (as_tag (k, r)) ∧ tags db' !! k = Some r ∧ walk (tags db') parent segs k
  end.

Lemma create_path_wp segs : ∀ db level parent tag,
  tags_wf db → level_fits (tags db) level parent → Forall canonical segs →
  wp (create_path level parent tag segs) (path_result db parent tag segs) db.
Proof.
  induction segs as [|nm segs IH]; intros db level parent tag Hwf Hl Hc; cbn [create_path].
  { wp_step. split; [by apply tag_step_refl|]. split; [apply rows_kept_refl|]. done. }
  apply Forall_cons in Hc as [Hnm Hc]. wp_step. eapply wp_mono; [by apply path_step_wp|].
  intros t db1 (Hs1 & Hk1 & Hm1 & Hfew & (r & Hr & Hrn & Hrp & Hrl) & Ht).
  eapply wp_mono; [apply IH; [by destruct Hs1| |done]|].
  { exists r. split; [done|lia]. }
  intros t' db2 (Hs2 & Hk2 & Hm2 & Hw). split; [by eapply tag_step_trans|]. split; [by eapply rows_kept_trans|].
  split; [auto|]. split; [auto|].
  destruct (Hk2 _ _ Hr) as (r' & Hr' & [= Hn' Hp' Hl']). destruct segs as [|nm' segs].
  - exists (t_id t), r'. split; [|split; [done|econstructor; [done|congruence|congruence]]].
    rewrite Hw, Ht. unfold as_tag. cbn. congruence.
  - destruct Hw as (_ & k & rk & -> & Hk & Hw). exists k, rk. split; [done|]. split; [done|].
    econstructor; [done|congruence|congruence|done].
Qed.

Definition path_made (db : ledger) (segs : list string) (t : option Tag) (db' : ledger) : Prop :=
  tag_step_ok db db' ∧ (∀ nm, head segs = Some nm → few_roots (tags db') nm) ∧
  ∃ k r, t = Some (as_tag (k, r)) ∧ tags db' !! k = Some r ∧ walk (tags db') None segs k.

Lemma createTagPathWithinTx_wp segs db :
  tags_wf db → Forall canonical segs → segs ≠ [] →
  wp (createTagPathWithinTx segs) (path_made db segs) db.
Proof.
  intros Hwf Hc Hne. eapply wp_mono; [by apply create_path_wp|].
  intros t db' (Hs & _ & _ & Hw). split; [done|]. destruct segs as [|nm segs]; [done|].
  destruct Hw as [Hfew Hw]. split; [|done]. intros ? [= <-]. auto.
Qed.

Lemma CreateTagByPath_wp path db :
  tags_wf db → wp (CreateTagByPath path) (λ t db',
    ∃ segs, parseTagPathSegments path = Ok segs ∧ path_made db segs t db') db.
Proof.
  intros Hwf. unfold CreateTagByPath. do 3 wp_step.
  destruct (parseTagPathSegments_canonical _ _ H) as (Hc & Hne & _).
  eapply wp_mono; [by apply createTagPathWithinTx_wp|]. eauto.
Qed.

(** Every id [resolveTransactionTagIDsIn] returns names a tag. *)
Lemma validate_tag_ids_Ok m seen ids :
  validate_tag_ids m seen ids = Ok tt → Forall (λ g, g ∈ seen ∨ is_Some (m !! g)) ids.
Proof.
  revert seen. induction ids as [|g ids IH]; intros seen; cbn; [done|].
  destruct (g <=? 0); [done|]. case_decide.
  - intros Hv. apply Forall_cons. split; [by left|by apply IH].
  - destruct (m !! g) eqn:Hg; [|done]. intros Hv%IH. apply Forall_cons. split; [right; by eexists|].
    eapply Forall_impl; [done|]. cbn. intros x [Hx|Hx]; [|by right].
    apply elem_of_union in Hx as [->%elem_of_singleton|Hx]; [right; by eexists|by left].
Qed.

Lemma create_paths_wp paths : ∀ db, tags_wf db →
  wp (create_paths paths) (λ ids db', tag_step_ok db db' ∧ Forall (λ g, g ∈ dom (tags db')) ids) db.
Proof.
  induction paths as [|path paths IH]; intros db Hwf; cbn [create_paths].
  { wp_step. split; [by apply tag_step_refl|constructor]. }
  do 3 wp_step. destruct (parseTagPathSegments_canonical _ _ H) as (Hc & Hne & _).
  eapply wp_mono; [by apply createTagPathWithinTx_wp|]. intros t db1 (Hs1 & _ & k & rk & -> & Hk & _).
  wp_step. eapply wp_mono; [apply IH; by destruct Hs1|]. intros ids db2 (Hs2 & Hids). wp_step.
  split; [by eapply tag_step_trans|]. apply Forall_cons. split; [|done].
  destruct Hs2 as (_ & _ & Hd). apply Hd. by eapply elem_of_dom_2.
Qed.

Lemma resolveTransactionTagIDsIn_wp existing paths db :
  tags_wf db →
  wp (resolveTransactionTagIDsIn existing paths) (λ ids db',
    tag_step_ok db db' ∧ Forall (λ g, g ∈ dom (tags db')) ids) db.
Proof.
  intros Hwf. unfold resolveTransactionTagIDsIn, validateTagIDsIn. wp_auto.
  eapply wp_mono; [by apply create_paths_wp|]. intros ids db' [Hs Hids]. wp_step. split; [done|].
  apply Forall_app. split; [|done]. destruct a. eapply Forall_impl; [by eapply validate_tag_ids_Ok|].
  cbn. intros g [Hg|Hg]; [set_solver|]. destruct Hs as (_ & _ & Hd). by apply Hd, elem_of_dom.
Qed.

(** ** Rename *)
Lemma forest_rename m seq n r name :
  forest m seq → m !! n = Some r → ValidateTagName name = Ok name →
  tag_unique_ok m n (set_name name r) = true →
  forest_except (if bool_decide (tag_parent r = None) then {[tag_name r; name]} else ∅)
    (<[n := set_name name r]> m) seq.
Proof.
  intros Hf Hr Hnm Hu. eapply forest_update; try done. intros k q Hk Hq HY.
  assert (k ≠ n ∧ m !! k = Some q ∧ ¬ root_named (tag_name q) r ∧ ¬ root_named (tag_name q) (set_name name r))
    as (Hkn & Hk' & Hn1 & Hn2).
  { unfold root_named. cbn. apply lookup_insert_Some in Hk as [[<- <-]|[Hkn Hk]].
    - cbn in Hq, HY. rewrite bool_decide_eq_true_2 in HY by done. set_solver.
    - split; [done|]. split; [done|]. case_bool_decide; [set_solver|naive_solver]. }
  rewrite (fo_marker _ _ _ Hf k q Hk' Hq) by set_solver. split; intros H k' q'.
  - intros [[<- <-]|[_ Hk'']]%lookup_insert_Some Hn; [done|by eapply H].
  - intros Hk'' Hn. apply (H k' q'); [|done]. rewrite lookup_insert_ne; [done|]. intros ->. naive_solver.
Qed.

Lemma update_tag_wp n f r db (Q : Z → ledger → Prop) :
  tags db !! n = Some r →
  (tag_unique_ok (tags db) n (f r) = true → Q 1 (set_tags (<[n := f r]> (tags db)) (tag_seq db) db)) →
  wp (update_tag n f) Q db.
Proof. intros Hr HQ. unfold update_tag. do 2 wp_step. rewrite Hr. wp_auto. by apply HQ. Qed.

Lemma tag_name_nonempty X m seq n r : forest_except X m seq → m !! n = Some r → tag_name r ≠ "".
Proof. intros Hf Hr. apply (fo_name _ _ _ Hf) in Hr as (_ & ? & _)%ValidateTagName_Ok_inv. done. Qed.

Lemma UpdateTag_wp n name db : tags_wf db → wp (UpdateTag n name) (λ _ db', tag_step_ok db db') db.
Proof.
  intros (Hseq & Hf & Hlab). unfold UpdateTag. wp_step. wp_step. rename a into nm.
  pose proof (ValidateTagName_canonical _ _ H) as Hnm. do 3 wp_step.
  destruct (tags db !! n) as [r|] eqn:Hr; [|done]. do 3 wp_step. eapply update_tag_wp; [done|]. intros Hu.
  do 2 wp_step. pose proof (forest_rename _ _ _ _ _ Hf Hr Hnm Hu) as Hf1.
  assert (dom (<[n := set_name nm r]> (tags db)) = dom (tags db)) as Hdom.
  { rewrite dom_insert_L. apply elem_of_dom_2 in Hr. set_solver. }
  assert (∀ db', tag_frame db db' → tag_seq db' = tag_seq db → dom (tags db') = dom (tags db) →
    forest (tags db') (tag_seq db') → tag_step_ok db db') as Hdone.
  { intros db' Hfr Hs Hd Hf'. split; [split; [lia|split; [done|]]|split; [done|set_solver]].
    rewrite Hfr. apply labels_wf_grow; [set_solver|done]. }
  case_bool_decide.
  - wp_step. eapply wp_mono; [eapply wp_normalize; [done|set_solver|exact (tag_name_nonempty ∅ _ _ n r Hf Hr)]|].
    intros _ db1 (Hf2 & Fr2 & Hs2 & Hd2).
    eapply wp_mono; [eapply (wp_normalize ({[nm]} ∪ ({[tag_name r; nm]} ∖ {[tag_name r]}))); [|set_solver|]|].
    + eapply forest_subset; [|done]. set_solver.
    + by apply ValidateTagName_Ok_inv in Hnm as (_ & ? & _).
    + intros _ db2 (Hf3 & Fr3 & Hs3 & Hd3). apply Hdone.
      * eapply tag_frame_trans; [|done]. eapply tag_frame_trans; [|done]. apply tag_frame_set.
      * by rewrite Hs3, Hs2.
      * rewrite Hd3, Hd2. exact Hdom.
      * eapply forest_subset; [|done]. set_solver.
  - wp_step. by apply Hdone.
Qed.

(** ** Deletion *)
Lemma children_of_spec m s k :
  k ∈ children_of m s ↔ ∃ r p, m !! k = Some r ∧ tag_parent r = Some p ∧ p ∈ s.
Proof.
  unfold children_of. rewrite elem_of_dom. split.
  - intros [r [Hk Hp]%map_lookup_filter_Some]. unfold parent_in in Hp. destruct (tag_parent r) as [p|] eqn:E; [|done].
    apply bool_decide_eq_true in Hp. eauto.
  - intros (r & p & Hk & Hp & Hin). exists r. apply map_lookup_filter_Some. split; [done|].
    unfold parent_in. rewrite Hp. by apply bool_decide_eq_true.
Qed.

Lemma descend_mono k m s : s ⊆ descend k m s.
Proof. revert s. induction k as [|k IH]; intros s; cbn; [done|]. specialize (IH (s ∪ children_of m s)). set_solver. Qed.

Lemma descend_dom k m s : s ⊆ dom m → descend k m s ⊆ dom m.
Proof.
  revert s. induction k as [|k IH]; intros s Hs; cbn; [done|]. apply IH.
  assert (children_of m s ⊆ dom m); [|set_solver].
  intros x (r & p & Hx & _)%children_of_spec. by eapply elem_of_dom_2.
Qed.

Lemma descend_fix k m s : children_of m s ⊆ s → descend k m s = s.
Proof. intros Hc. induction k as [|k IH]; cbn; [done|]. by replace (s ∪ children_of m s) with s by set_solver. Qed.

(** As many rounds as rows saturate: each round that is not final adds a row. *)
Lemma descend_closed k m s :
  s ⊆ dom m → (size m <= k + size s)%nat → children_of m (descend k m s) ⊆ descend k m s.
Proof.
  revert s. induction k as [|k IH]; intros s Hs Hk; cbn.
  - assert (s = dom m) as ->.
    { apply set_subseteq_size_eq; [done|]. rewrite size_dom. lia. }
    intros x (r & p & Hx & _)%children_of_spec. by eapply elem_of_dom_2.
  - destruct (decide (children_of m s ⊆ s)) as [Hc|Hc].
    + replace (s ∪ children_of m s) with s by set_solver. by rewrite descend_fix.
    + assert (s ⊂ s ∪ children_of m s) as Hlt by set_solver.
      apply subset_size in Hlt. apply IH; [|lia].
      assert (children_of m s ⊆ dom m); [|set_solver].
      intros x (r & p & Hx & _)%children_of_spec. by eapply elem_of_dom_2.
Qed.

Lemma subtree_closed m n : is_Some (m !! n) → children_of m (subtree m n) ⊆ subtree m n.
Proof.
  intros Hn. unfold subtree. apply descend_closed; [|lia].
  intros x ->%elem_of_singleton. by apply elem_of_dom.
Qed.

Lemma subtree_self m n : n ∈ subtree m n.
Proof. unfold subtree. pose proof (descend_mono (size m) m {[n]}). set_solver. Qed.

(** Below the selected tag there are no roots. *)
Lemma descend_no_root k m s x :
  x ∈ descend k m s → x ∈ s ∨ ∃ r p, m !! x = Some r ∧ tag_parent r = Some p.
Proof.
  revert s. induction k as [|k IH]; intros s; cbn; [by left|].
  intros [[Hs|(r & p & ? & ? & _)%children_of_spec]%elem_of_union|H]%IH; eauto.
Qed.

Lemma descend_parent k m s x :
  x ∈ descend k m s → x ∈ s ∨ ∃ r p, m !! x = Some r ∧ tag_parent r = Some p ∧ p ∈ descend k m s.
Proof.
  revert s. induction k as [|k IH]; intros s; cbn; [by left|].
  intros [[Hs|(r & p & ? & ? & Hp)%children_of_spec]%elem_of_union|H]%IH; [by left| |by right].
  right. exists r, p. split; [done|]. split; [done|]. apply descend_mono. set_solver.
Qed.

Lemma subtree_root m n x r : x ∈ subtree m n → m !! x = Some r → tag_parent r = None → x = n.
Proof.
  intros [->%elem_of_singleton|(r' & p & Hx & Hp)]%descend_no_root Hr Hroot; [done|]. congruence.
Qed.

Lemma forest_delete m seq n r :
  forest m seq → m !! n = Some r →
  forest_except (if bool_decide (tag_parent r = None) then {[tag_name r]} else ∅)
    (filter (λ '(k, _), k ∉ subtree m n) m) seq.
Proof.
  intros Hf Hr. set (m' := filter _ m).
  assert (∀ k q, m' !! k = Some q ↔ m !! k = Some q ∧ k ∉ subtree m n) as Hm'.
  { intros k q. unfold m'. by rewrite map_lookup_filter_Some. }
  assert (∀ k q, m !! k = Some q → tag_parent q = None → (tag_parent r = None → tag_name q ≠ tag_name r) →
    m' !! k = Some q) as Hroots.
  { intros k q Hk Hq Hnm. apply Hm'. split; [done|]. intros Hin.
    pose proof (subtree_root _ _ _ _ Hin Hk Hq) as ->. rewrite Hr in Hk. simplify_eq. by apply Hnm. }
  split.
  - intros k q [Hk Hd]%Hm'. pose proof (fo_level _ _ _ Hf k q Hk) as H. destruct (tag_parent q) as [p|] eqn:Hp; [|done].
    destruct H as (z & Hz & ->). exists z. split; [|done]. apply Hm'. split; [done|]. intros Hpd. apply Hd.
    apply (subtree_closed m n); [by eexists|]. apply children_of_spec. eauto.
  - intros k q [Hk _]%Hm'. by apply (fo_range _ _ _ Hf k).
  - intros k q [Hk _]%Hm'. by apply (fo_seq _ _ _ Hf k q).
  - intros k q [Hk _]%Hm'. by apply (fo_name _ _ _ Hf k).
  - intros n1 n2 r1 r2 [H1 _]%Hm' [H2 _]%Hm'. by apply (fo_unique _ _ _ Hf).
  - intros k q [Hk Hd]%Hm' Hq HY. rewrite (fo_marker _ _ _ Hf k q Hk Hq) by set_solver.
    split; intros H k' q'.
    + intros [Hk' _]%Hm'. by apply H.
    + intros Hk' Hn'. apply (H k' q'); [|done]. apply Hroots; [done|apply Hn'|].
      intros Hrr Heq. rewrite bool_decide_eq_true_2 in HY by done. destruct Hn' as [Hn' _]. apply HY, elem_of_singleton. congruence.
Qed.

(** What tag and label writes leave alone. *)
Definition tags_only (db db' : ledger) : Prop :=
  db' = set_transaction_tags (transaction_tags db') (set_tags (tags db') (tag_seq db') db).

Lemma tags_only_refl db : tags_only db db.
Proof. by destruct db. Qed.
Lemma tags_only_trans db1 db2 db3 : tags_only db1 db2 → tags_only db2 db3 → tags_only db1 db3.
Proof. unfold tags_only. intros H1 H2. rewrite H2, H1. done. Qed.
Lemma tag_frame_only db db' : tag_frame db db' → tags_only db db'.
Proof. unfold tag_frame, tags_only. intros H. rewrite H. by destruct db. Qed.

Definition delete_post (db : ledger) (n : Z) (db' : ledger) : Prop :=
  tags_wf db' ∧ dom (tags db') = dom (tags db) ∖ subtree (tags db) n ∧
  transaction_tags db' = filter (λ '(_, g), g ∉ subtree (tags db) n) (transaction_tags db) ∧
  tags_only db db'.

Lemma DeleteTag_wp n db : tags_wf db → wp (DeleteTag n) (λ _ db', delete_post db n db') db.
Proof.
  intros (Hseq & Hf & Hlab). unfold DeleteTag, delete_tag. do 3 wp_step.
  destruct (tags db !! n) as [r|] eqn:Hr; [|done]. do 3 wp_step. rewrite Hr. do 5 wp_step.
  set (db1 := set_transaction_tags _ _). pose proof (forest_delete _ _ _ _ Hf Hr) as Hf1.
  assert (dom (tags db1) = dom (tags db) ∖ subtree (tags db) n) as Hdom.
  { apply set_eq. intros k. rewrite elem_of_difference, !elem_of_dom. unfold is_Some, db1. cbn.
    setoid_rewrite map_lookup_filter_Some. naive_solver. }
  assert (labels_wf db1) as Hlab1.
  { intros t g [Hg Hin]%elem_of_filter. destruct (Hlab t g Hin) as [Ht Hgs]. split; [done|].
    apply elem_of_dom. rewrite Hdom. apply elem_of_dom in Hgs. set_solver. }
  assert (∀ db', tag_frame db1 db' → tag_seq db' = tag_seq db1 → dom (tags db') = dom (tags db1) →
    forest (tags db') (tag_seq db') → delete_post db n db') as Hdone.
  { intros db' Hfr Hs Hd Hf'. split; [split; [cbn in Hs; lia|split; [done|]]|].
    - rewrite Hfr. apply labels_wf_grow; [set_solver|done].
    - split; [congruence|]. split; [by rewrite Hfr|].
      eapply tags_only_trans; [|by apply tag_frame_only]. done. }
  case_bool_decide as Hroot.
  - eapply wp_mono; [eapply wp_normalize; [exact Hf1|set_solver|exact (tag_name_nonempty ∅ _ _ n r Hf Hr)]|].
    intros _ db' (Hf2 & Fr2 & Hs2 & Hd2). apply Hdone; try done. eapply forest_subset; [|done]. set_solver.
  - wp_step. by apply Hdone; [apply tag_frame_refl| | |].
Qed.

(** ** Labels *)
Lemma insert_transaction_tag_wp t g db :
  tags_wf db → wp (insert_transaction_tag t g) (λ _ db', tags_wf db' ∧ tags_only db db') db.
Proof.
  intros (Hseq & Hf & Hlab). unfold insert_transaction_tag. wp_auto. split; [|by destruct db]. split; [done|]. split; [done|].
  intros t' g' [[= -> ->]%elem_of_singleton|Hin]%elem_of_union; [|by apply Hlab]. cbn.
  apply orb_prop in H as [H|H]; split_bools; [by apply Hlab|done].
Qed.

Lemma insert_transaction_tags_wp t ids db :
  tags_wf db → wp (for_each (insert_transaction_tag t) ids) (λ _ db', tags_wf db' ∧ tags_only db db') db.
Proof.
  intros Hwf. apply (wp_for_each (λ db', tags_wf db' ∧ tags_only db db')); [split; [done|apply tags_only_refl]|].
  intros g db' _ [Hwf' Ho]. eapply wp_mono; [by apply insert_transaction_tag_wp|].
  intros _ db2 [Hwf2 Ho2]. split; [done|]. by eapply tags_only_trans.
Qed.

Lemma AddTransactionTags_wp t ids db :
  tags_wf db → wp (AddTransactionTags t ids) (λ _ db', tags_wf db' ∧ tags_only db db') db.
Proof.
  intros Hwf. unfold AddTransactionTags, select_transaction. wp_auto. by apply insert_transaction_tags_wp.
Qed.

(** ** Every call keeps the forest *)
Inductive tag_call :=
| CallCreate (name : string) (parent : option Z)
| CallPath (path : string)
| CallRename (n : Z) (name : string)
| CallDelete (n : Z)
| CallLabel (t : Z) (ids : list Z)
| CallUnlabel (t g : Z).

Definition tag_call_op (c : tag_call) : op unit :=
  match c with
  | CallCreate name parent => CreateTag name parent;; mret tt
  | CallPath path => CreateTagByPath path;; mret tt
  | CallRename n name => UpdateTag n name;; mret tt
  | CallDelete n => DeleteTag n
  | CallLabel t ids => AddTransactionTags t ids
  | CallUnlabel t g => RemoveTransactionTag t g
  end.

Definition run_tag_call (c : tag_call) (db : ledger) : ledger := snd (tag_call_op c db).

Lemma tag_call_atomic c : atomic (tag_call_op c).
Proof.
  destruct c; cbn [tag_call_op]; try apply atomic_void;
    try (unfold CreateTag, CreateTagByPath, UpdateTag, DeleteTag, AddTransactionTags; auto with atomic; fail).
  done.
Qed.

Lemma tag_step_only db db' : tag_step_ok db db' → tags_wf db' ∧ tags_only db db'.
Proof. intros (? & ? & _). split; [done|by apply tag_frame_only]. Qed.

Lemma run_tag_call_step c db : tags_wf db → tags_wf (run_tag_call c db) ∧ tags_only db (run_tag_call c db).
Proof.
  intros Hwf. apply (wp_atomic (tag_call_op c) (λ db', tags_wf db' ∧ tags_only db db'));
    [apply tag_call_atomic|split; [done|apply tags_only_refl]|].
  destruct c; cbn [tag_call_op]; try wp_step.
  - eapply wp_mono; [by apply CreateTag_wp|]. intros ? db'. apply tag_step_only.
  - eapply wp_mono; [by apply CreateTagByPath_wp|]. intros ? db' (segs & _ & Hs & _). by apply tag_step_only.
  - eapply wp_mono; [by apply UpdateTag_wp|]. intros ? db'. apply tag_step_only.
  - eapply wp_mono; [by apply DeleteTag_wp|]. unfold delete_post. tauto.
  - by apply AddTransactionTags_wp.
  - destruct Hwf as (? & ? & Hl). split; [|by destruct db]. split; [done|]. split; [done|].
    intros t' g' Hin. apply Hl. cbn in Hin. set_solver.
Qed.

Lemma run_tag_call_wf c db : tags_wf db → tags_wf (run_tag_call c db).
Proof. apply run_tag_call_step. Qed.

(** C25. Tag forest invariant: whatever sequence of tag calls is issued, with
    whatever arguments and including the calls that fail, every tag stays one
    level below its parent and within the three levels, names stay canonical
    and unique among siblings, exactly the oldest of the roots of one name is
    the ordinary one, and every label joins an existing transaction to an
    existing tag. *)
Theorem tag_calls_preserve_forest db calls : tags_wf db → tags_wf (foldl (λ db c, run_tag_call c db) db calls).
Proof.
  revert db. induction calls as [|c calls IH]; intros db Hwf; [done|]. cbn. by apply IH, run_tag_call_wf.
Qed.

Lemma tags_wf_empty : tags_wf empty_ledger.
Proof. split; [done|]. split; [|by intros ?? ?%elem_of_empty]. split; intros *; cbn; by rewrite lookup_empty. Qed.

Definition demo_calls : list tag_call :=
  [CallPath "food/lunch"; CallPath "food/dinner"; CallCreate "home" None; CallRename 1 " meals ";
   CallCreate "home" None; CallDelete 3].

Lemma tag_calls_preserve_forest_witness :
  tags_wf empty_ledger ∧
  (tag_name <$> tags (foldl (λ db c, run_tag_call c db) empty_ledger demo_calls)) =
    <[1 := "meals"]> (<[2 := "lunch"]> (<[4 := "home"]> ∅)) ∧
  tags_wf (foldl (λ db c, run_tag_call c db) empty_ledger demo_calls).
Proof.
  split; [apply tags_wf_empty|]. split; [vm_compute; reflexivity|].
  apply tag_calls_preserve_forest. apply tags_wf_empty.
Defined.

Lemma difference_twice (X Y : gset Z) : X ⊆ Y → Y ∖ (Y ∖ X) = X.
Proof.
  intros H. apply set_eq. intros x. rewrite !elem_of_difference. specialize (H x).
  destruct (decide (x ∈ X)); tauto.
Qed.

(** Deleting a tag does what [GetTagDeleteImpact] announced: a successful
    [DeleteTag] removes the tag and its descendants and nothing else, removes
    exactly the labels of those tags, and touches no transaction; the impact
    query of the state before names one less than the number of removed tags,
    and the number of transactions that lose a label. *)
Theorem delete_matches_impact n db db' impact db1 :
  tags_wf db →
  GetTagDeleteImpact n db = (Ok impact, db1) → DeleteTag n db = (Ok tt, db') →
  let dead := dom (tags db) ∖ dom (tags db') in
  n ∈ dead ∧ (∀ k, k ∈ children_of (tags db) dead → k ∈ dead) ∧
  (∀ k, k ∈ dead → k = n ∨ ∃ r p, tags db !! k = Some r ∧ tag_parent r = Some p ∧ p ∈ dead) ∧
  imp_descendants impact = Z.of_nat (size dead) - 1 ∧
  imp_transactions impact =
    Z.of_nat (size (set_map fst (transaction_tags db ∖ transaction_tags db') : gset Z)) ∧
  transactions db' = transactions db ∧ tags_wf db'.
Proof.
  intros Hwf Himp Hdel.
  destruct (wp_run _ _ _ _ _ (DeleteTag_wp n db Hwf) Hdel) as (Hwf' & Hdom & Hlab & Honly).
  assert (transactions db' = transactions db) as Htx by by rewrite Honly.
  unfold GetTagDeleteImpact in Himp. apply bind_Ok_inv in Himp as (? & ? & [= <- <-] & Himp).
  unfold id in Himp. destruct (tags db !! n) as [r|] eqn:Hr; [|done]. injection Himp as <- _.
  assert (subtree (tags db) n ⊆ dom (tags db)) as Hsub.
  { apply descend_dom. intros x ->%elem_of_singleton. by eapply elem_of_dom_2. }
  assert (dom (tags db) ∖ dom (tags db') = subtree (tags db) n) as Hdead.
  { rewrite Hdom. by apply difference_twice. }
  intros dead. unfold dead. rewrite Hdead. split; [apply subtree_self|].
  split; [by apply subtree_closed; eexists|]. split; [|split; [done|split; [|done]]].
  - intros k [->%elem_of_singleton|Hk]%descend_parent; [by left|by right].
  - cbn. do 3 f_equal. apply set_eq. intros [t g]. rewrite elem_of_filter, elem_of_difference, Hlab, elem_of_filter.
    destruct (decide (g ∈ subtree (tags db) n)); tauto.
Qed.

Definition demo_tags : ledger := foldl (λ db c, run_tag_call c db) empty_ledger
  [CallPath "food/lunch/bento"; CallPath "food/dinner"; CallCreate "home" None].

Lemma delete_matches_impact_witness :
  tags_wf demo_tags ∧
  (let db' := snd (DeleteTag 2 demo_tags) in
   imp_descendants (DeleteImpact 2 "lunch" 1 0) = Z.of_nat (size (dom (tags demo_tags) ∖ dom (tags db'))) - 1).
Proof.
  assert (tags_wf demo_tags) as Hwf.
  { unfold demo_tags. cbn [foldl]. repeat apply run_tag_call_wf. apply tags_wf_empty. }
  split; [exact Hwf|]. cbv zeta.
  refine (proj1 (proj2 (proj2 (proj2 (delete_matches_impact 2 demo_tags (snd (DeleteTag 2 demo_tags)) _ demo_tags Hwf _ _))))).
  - vm_compute. reflexivity.
  - vm_compute. reflexivity.
Defined.

(** ** Paths *)
Lemma canonical_no_slash name : canonical name → slash ∉ bytes name.
Proof.
  intros (_ & _ & Hv & _ & Hr)%ValidateTagName_Ok_inv Hin. rewrite Forall_forall in Hr.
  assert (slash ∈ runes name) as Hrune.
  { unfold runes. apply ascii_byte_is_rune; [by rewrite <-ValidString_bytes|unfold slash; lia|done]. }
  apply Hr in Hrune. vm_compute in Hrune. done.
Qed.

Lemma validate_segments_id segs : Forall canonical segs → validate_segments segs = Ok segs.
Proof. induction 1 as [|nm segs Hn _ IH]; [done|]. cbn. rewrite Hn. cbn. by rewrite IH. Qed.

Lemma Split_Join segs : segs ≠ [] → Forall canonical segs → Split (Join segs slash) slash = segs.
Proof.
  intros Hne Hc. unfold Split, Join. rewrite bytes_of_bytes.
  - rewrite split_join_bytes.
    + rewrite <-list_fmap_compose. rewrite <-(list_fmap_id segs) at 2. apply list_fmap_ext.
      intros i s _. apply of_bytes_bytes.
    + by destruct segs.
    + apply Forall_fmap. eapply Forall_impl; [done|]. intros x. apply canonical_no_slash.
  - clear Hne Hc. induction segs as [|s segs IH]; [constructor|]. cbn.
    destruct segs as [|s' segs]; cbn in *; [apply bytes_range|].
    apply Forall_app. split; [apply bytes_range|]. apply Forall_cons. split; [unfold is_byte, slash; lia|done].
Qed.

(** Tag paths round trip: the path of one to three canonical names joined
    with slashes is parsed back to exactly those names, and every path that is
    accepted yields between one and three canonical names none of which contains
    a slash. *)
Lemma tag_path_roundtrip segs :
  Forall (λ name, ValidateTagName name = Ok name) segs → (1 <= length segs <= 3)%nat →
  parseTagPathSegments (Join segs slash) = Ok segs ∧
  (∀ path segs', parseTagPathSegments path = Ok segs' →
     (1 <= length segs' <= 3)%nat ∧
     Forall (λ name, ValidateTagName name = Ok name ∧ slash ∉ bytes name) segs').
Proof.
  intros Hc Hlen. split.
  - unfold parseTagPathSegments. rewrite Split_Join, validate_segments_id by first [done | intros ->; cbn in Hlen; lia].
    destruct (_ =? 0) eqn:E; [lia|]. by rewrite (proj2 (ValidateTagLevel_Ok _)) by lia.
  - intros path segs' (Hc' & Hne & Hl)%parseTagPathSegments_canonical. split; [destruct segs'; cbn in *; [done|lia]|].
    eapply Forall_impl; [exact Hc'|]. cbn. intros x Hx. split; [done|by apply canonical_no_slash].
Qed.

Example tag_path_roundtrip_example :
  Forall (λ name, ValidateTagName name = Ok name) ["推し活"; "遠征 費"] ∧
  parseTagPathSegments "推し活/遠征 費" = Ok ["推し活"; "遠征 費"].
Proof.
  assert (Forall (λ name, ValidateTagName name = Ok name) ["推し活"; "遠征 費"]) as Hc.
  { apply Forall_cons. split; [vm_compute; reflexivity|]. apply Forall_cons. split; [vm_compute; reflexivity|constructor]. }
  split; [exact Hc|].
  exact (proj1 (tag_path_roundtrip ["推し活"; "遠征 費"] Hc ltac:(cbn; lia))).
Defined.

(** A path that is there is found, and nothing is written. *)
Lemma same_name_same_tag X m seq n1 n2 r1 r2 p :
  forest_except X m seq → m !! n1 = Some r1 → m !! n2 = Some r2 →
  tag_name r1 = tag_name r2 → tag_parent r1 = Some p → tag_parent r2 = Some p → n1 = n2.
Proof.
  intros Hf H1 H2 Hn Hp1 Hp2. destruct (decide (n1 = n2)) as [|Hne]; [done|].
  exfalso. apply (fo_unique _ _ _ Hf n1 n2 r1 r2 H1 H2 Hne). split; [done|]. by rewrite Hp1, Hp2.
Qed.

Lemma few_roots_eq m nm n1 n2 r1 r2 :
  few_roots m nm → m !! n1 = Some r1 → root_named nm r1 → m !! n2 = Some r2 → root_named nm r2 → n1 = n2.
Proof.
  intros Hfew H1 R1 H2 R2. destruct (decide (n1 = n2)) as [|Hne]; [done|]. exfalso.
  assert (size ({[n1; n2]} : gset Z) <= size (dom (roots_named m nm)))%nat as Hsz.
  { apply subseteq_size. intros x Hx. apply elem_of_dom.
    apply elem_of_union in Hx as [Hx|Hx]; apply elem_of_singleton in Hx as ->;
      [exists r1|exists r2]; by apply roots_named_lookup. }
  rewrite size_dom, size_union, !size_singleton in Hsz by set_solver. unfold few_roots in Hfew. lia.
Qed.

Lemma path_step_found db level parent n r :
  forest (tags db) (tag_seq db) → tags db !! n = Some r → tag_parent r = parent → tag_level r = level →
  (parent = None → few_roots (tags db) (tag_name r)) →
  path_step level parent (tag_name r) db = (Ok (as_tag (n, r)), db).
Proof.
  intros Hf Hr Hp Hl Hfew. unfold path_step, gets, mbind, stm_bind, liftv, require, lift, ensure, mret, stm_ret.
  rewrite (proj2 (ValidateTagHierarchy_Ok _ _)).
  - unfold id. unfold as_tag. cbn [fst snd]. destruct parent as [p|].
    + destruct (child_named (tags db) (tag_name r) p) as [[n' r']|] eqn:E.
      * apply child_named_Some in E as (H' & Hn' & Hp').
        rewrite (same_name_same_tag ∅ _ _ n' n r' r p Hf) by done. cbn. by rewrite Hp, Hl.
      * apply first_id_None in E. exfalso.
        apply (map_empty (M := gmap Z)) with (i := n) in E. rewrite map_lookup_filter, Hr in E. cbn in E.
        rewrite option_guard_True in E; [done|by split].
    + rewrite (proj2 (Z.leb_le _ _)) by (specialize (Hfew eq_refl); unfold few_roots in Hfew; lia). cbn.
      destruct (first_id (roots_named (tags db) (tag_name r))) as [[n' r']|] eqn:E.
      * rewrite (sole_root_unmarked ∅ _ _ _ _ _ Hf (not_elem_of_empty _) E).
        apply first_id_Some in E as [[H' Hn']%roots_named_lookup _].
        rewrite (few_roots_eq (tags db) (tag_name r) n' n r' r) by (try done; by apply Hfew). by rewrite Hp, Hl.
      * apply first_id_None in E. exfalso. eapply roots_named_empty; [done|done|by split].
  - pose proof (fo_level _ _ _ Hf n r Hr) as H. pose proof (fo_range _ _ _ Hf n r Hr). rewrite Hp in H.
    destruct parent as [p|].
    + destruct H as (q & Hq & Hlq). pose proof (fo_range _ _ _ Hf p q Hq).
      destruct (level =? 1) eqn:E; [lia|]. split; lia.
    + rewrite <-Hl, H. done.
Qed.

Lemma create_path_found db : ∀ segs parent k level tag,
  forest (tags db) (tag_seq db) → walk (tags db) parent segs k → level_fits (tags db) level parent →
  (∀ nm, parent = None → head segs = Some nm → few_roots (tags db) nm) →
  ∃ r, tags db !! k = Some r ∧ create_path level parent tag segs db = (Ok (Some (as_tag (k, r))), db).
Proof.
  intros segs parent k level tag Hf Hw. revert level tag.
  induction Hw as [p nm n r Hr <- Hp|p nm n r nms k Hr <- Hp Hw IH]; intros level tag Hl Hfew;
    destruct (resolves_forest _ _ _ _ _ _ _ _ Hf Hl Hr eq_refl Hp) as (r' & Hr' & _ & _ & Hlev);
    assert (r' = r) as -> by congruence; cbn [create_path];
    rewrite (bind_run_Ok _ _ _ _ _ (path_step_found db level p n r Hf Hr Hp Hlev (λ H, Hfew _ H eq_refl))); cbn.
  - eauto.
  - apply IH; [|done]. exists r. split; [done|lia].
Qed.

(** Creating a tag by its path is correct and idempotent: a successful
    [CreateTagByPath] returns the tag its names lead to from the roots, keeps the
    forest invariant and every existing tag, and repeating the call returns the
    same tag and writes nothing. *)
Theorem CreateTagByPath_idempotent path db t db' :
  tags_wf db → CreateTagByPath path db = (Ok t, db') →
  (∃ segs k r, parseTagPathSegments path = Ok segs ∧ t = Some (as_tag (k, r)) ∧
     tags db' !! k = Some r ∧ walk (tags db') None segs k) ∧
  tags_wf db' ∧ dom (tags db) ⊆ dom (tags db') ∧
  CreateTagByPath path db' = (Ok t, db').
Proof.
  intros Hwf Hrun.
  destruct (wp_run _ _ _ _ _ (CreateTagByPath_wp path db Hwf) Hrun)
    as (segs & Hparse & (Hwf' & _ & Hdom) & Hfew & k & r & -> & Hk & Hw).
  split; [eauto 10|]. split; [done|]. split; [done|]. destruct Hwf' as (_ & Hf & _).
  destruct (create_path_found db' segs None k 1 None Hf Hw eq_refl) as (r' & Hr' & Hrun'); [auto|].
  assert (r' = r) as -> by congruence.
  unfold CreateTagByPath, lift, mbind, stm_bind. rewrite Hparse. unfold transactional, createTagPathWithinTx.
  by rewrite Hrun'.
Qed.

Lemma CreateTagByPath_idempotent_witness :
  tags_wf demo_tags ∧
  CreateTagByPath "food/breakfast" (snd (CreateTagByPath "food/breakfast" demo_tags)) =
    (Ok (Some (MkTag 6 "breakfast" (Some 1) 2)), snd (CreateTagByPath "food/breakfast" demo_tags)).
Proof.
  assert (tags_wf demo_tags) as Hwf.
  { unfold demo_tags. cbn [foldl]. repeat apply run_tag_call_wf. apply tags_wf_empty. }
  split; [exact Hwf|].
  refine (proj2 (proj2 (proj2 (CreateTagByPath_idempotent "food/breakfast" demo_tags _ _ Hwf _)))).
  vm_compute. reflexivity.
Defined.
