(* ===== verification/Links.v ===== *)
(** Card/bank links: [core/card_reconciliation.go], the link policy and the
    account-classification settings of [core/service.go]. *)
From Stdlib Require Import ZArith Lia.
From stdpp Require Import base gmap list strings sorting.
From S2P Require Import Prelude GoText Validation Settings GoTime Schema Balance.

Open Scope Z_scope.

(** * Classification of accounts *)
Definition maxCSVSettingValueBytes : Z := 2 * 1024 * 1024.

Definition stringSet (items : list string) : gset string :=
  list_to_set (filter (λ s, s ≠ "") (TrimSpace <$> items)).

Definition stringSetFromSetting (value : string) : gset string :=
  match ParseLedgerSettingItemsWithMode value LedgerSettingArchive maxCSVSettingValueBytes MaxSettingItems with
  | Err _ => ∅
  | Ok parsed => stringSet (ps_Items parsed)
  end.

(** The two settings the link policy reads; a missing key reads as [""]. *)
Definition loadLedgerSettingsIn (db : ledger) : gmap string string :=
  filter (λ '(k, _), k = "credit_card_items" ∨ k = "bank_account_items") (settings db).

Definition cards_of (s : gmap string string) : gset string :=
  stringSetFromSetting (default "" (s !! "credit_card_items")).
Definition banks_of (s : gmap string string) : gset string :=
  stringSetFromSetting (default "" (s !! "bank_account_items")).

Section Policy.
Context (cards banks : gset string).

Definition isCardWithdrawalLinkAccountsWithSettings (accountA accountB : string) : bool :=
  let a := TrimSpace accountA in
  let b := TrimSpace accountB in
  (bool_decide (a ∈ cards) && bool_decide (b ∈ banks)) ||
  (bool_decide (a ∈ banks) && bool_decide (b ∈ cards)).

(** The card and the bank of an edge. *)
Definition cardBankPair (idA : Z) (accountA : string) (idB : Z) (accountB : string) : res lerr (Z * Z) :=
  let a := TrimSpace accountA in
  let b := TrimSpace accountB in
  if (bool_decide (a ∈ cards) && bool_decide (a ∈ banks)) ||
     (bool_decide (b ∈ cards) && bool_decide (b ∈ banks)) then Err ELinkAmbiguous
  else if bool_decide (a ∈ cards) && bool_decide (b ∈ banks) then Ok (idA, idB)
  else if bool_decide (a ∈ banks) && bool_decide (b ∈ cards) then Ok (idB, idA)
  else Err ELinkKind.
End Policy.

(** * Assignments of card transactions to bank transactions *)
Abbreviation cardBankAssignments := (gmap Z (gset Z)).

Definition banks_for (m : cardBankAssignments) (card : Z) : gset Z := default ∅ (m !! card).

Section Assignments.
Context (db : ledger) (cards banks : gset string).

(** The pair a stored edge stands for, through the two joins. *)
Definition edge_pair (l : Z * Z) : option (Z * Z) :=
  match transactions db !! l.1, transactions db !! l.2 with
  | Some p, Some c =>
    match cardBankPair cards banks l.1 (tx_account p) l.2 (tx_account c) with
    | Ok cb => Some cb
    | Err _ => None
    end
  | _, _ => None
  end.

Definition add_assignment (l : Z * Z) (m : cardBankAssignments) : cardBankAssignments :=
  match edge_pair l with
  | Some (card, bank) => <[card := {[bank]} ∪ banks_for m card]> m
  | None => m
  end.

(** Transactions at the other end of an edge of [n]. *)
Definition linked_ids (n : Z) : gset Z :=
  set_map snd (filter (λ l, l.1 = n) (links db)) ∪ set_map fst (filter (λ l, l.2 = n) (links db)).

Definition considered (bankID : Z) : list (Z * Z) :=
  elements (if bankID >? 0
            then filter (λ l, l.1 ∈ linked_ids bankID ∨ l.2 ∈ linked_ids bankID) (links db)
            else links db).
End Assignments.

Definition readCardBankAssignments (s : gmap string string) (bankID : Z) (db : ledger) : cardBankAssignments :=
  foldr (add_assignment db (cards_of s) (banks_of s)) ∅ (considered db bankID).

Definition extends_conflict (before : cardBankAssignments) (card : Z) (bs : gset Z) : Prop :=
  (1 < size bs)%nat ∧ ¬ (bs ⊆ banks_for before card).
#[global] Instance extends_conflict_dec before card bs : Decision (extends_conflict before card bs).
Proof. unfold extends_conflict. apply _. Defined.

Definition validateCardBankAssignmentChanges (s : gmap string string) (before : cardBankAssignments) : op unit :=
  db ← gets id;
  require (bool_decide (map_Forall (λ card bs, ¬ extends_conflict before card bs)
             (readCardBankAssignments s 0 db))) EAssignment.

(** * Writing edges *)
Definition ordered_pair (a b : Z) : Z * Z := if a >? b then (b, a) else (a, b).

Definition is_bank_tx (db : ledger) (banks : gset string) (n : Z) : bool :=
  match transactions db !! n with Some r => bool_decide (TrimSpace (tx_account r) ∈ banks) | None => false end.

(** Another bank transaction the card is already linked to. *)
Definition other_bank (db : ledger) (banks : gset string) (bank card : Z) : bool :=
  bool_decide (set_Exists (λ n, n ≠ bank ∧ is_bank_tx db banks n = true) (linked_ids db card)).

Definition addCardBankLinkIn (cards banks : gset string) (idA idB : Z) : op unit :=
  require (negb ((idA <=? 0) || (idB <=? 0) || (idA =? idB))) ELinkSelf;;
  db ← gets id;
  match transactions db !! idA, transactions db !! idB with
  | Some a, Some b =>
    '(card, bank) ← lift (cardBankPair cards banks idA (tx_account a) idB (tx_account b));
    let '(p, c) := ordered_pair idA idB in
    if decide ((p, c) ∈ links db) then mret tt
    else
      require (negb (other_bank db banks bank card)) ELinkOtherBank;;
      insert_link p c
  | _, _ => fail ELinkTargetNotFound
  end.

Definition AddTransactionLink (parentID childID : Z) : op unit :=
  require (negb (parentID =? childID)) ELinkSelf;;
  transactional (
    db ← gets id;
    let s := loadLedgerSettingsIn db in
    addCardBankLinkIn (cards_of s) (banks_of s) parentID childID).

Definition valid_edge (db : ledger) (s : gmap string string) (l : Z * Z) : bool :=
  match transactions db !! l.1, transactions db !! l.2 with
  | Some p, Some c =>
    isCardWithdrawalLinkAccountsWithSettings (cards_of s) (banks_of s) (tx_account p) (tx_account c)
  | _, _ => true
  end.

Definition pruneInvalidTransactionLinksIn (s : gmap string string) : op unit :=
  db ← gets id;
  for_each (λ l, delete_link l.1 l.2;; mret tt)
    (filter (λ l, valid_edge db s l = false) (elements (links db))).

Definition remove_link_step (transactionID linkedID : Z) : op unit :=
  require (negb ((linkedID <=? 0) || (linkedID =? transactionID))) ELinkTargetNotFound;;
  let '(p, c) := ordered_pair transactionID linkedID in
  removed ← delete_link p c;
  require (removed =? 1) ELinkNotFound.

Definition applyTransactionLinkChangesIn (transactionID : Z) (addIDs removeIDs : list Z)
    (s : gmap string string) : op unit :=
  require (negb (Z.of_nat (length addIDs) + Z.of_nat (length removeIDs) >? 100)) ELinkTooMany;;
  for_each (remove_link_step transactionID) removeIDs;;
  for_each (addCardBankLinkIn (cards_of s) (banks_of s) transactionID) addIDs.

Definition RemoveTransactionLink (transactionID linkedID : Z) : op unit :=
  db ← gets id;
  let dead := {[(transactionID, linkedID); (linkedID, transactionID)]} in
  if decide (links db ∩ dead = ∅) then fail ELinkNotFound
  else modify (λ db, set_links (links db ∖ dead) db).

(** * Settings *)
Definition getStringSliceSetting (key : string) : op (list string) :=
  db ← gets id;
  match settings db !! key with
  | None => mret []
  | Some value =>
    match ParseLedgerSettingItemsWithMode value LedgerSettingArchive maxCSVSettingValueBytes MaxSettingItems with
    | Err _ => mret []
    | Ok parsed => mret (ps_Items parsed)
    end
  end.

Definition GetCreditCardSettings : op (list string) := getStringSliceSetting "credit_card_items".
Definition GetBankAccountSettings : op (list string) := getStringSliceSetting "bank_account_items".

Definition saveStringSliceSetting (key : string) (items : list string) : op unit :=
  require (bool_decide (key = "credit_card_items") || bool_decide (key = "bank_account_items")) ESettingKey;;
  liftv (ValidateLedgerSettingItems items);;
  data ← liftv (MarshalLedgerSettingItems items);
  transactional (
    db ← gets id;
    let previousAssignments := readCardBankAssignments (loadLedgerSettingsIn db) 0 db in
    modify (λ db, set_settings (<[key := data]> (settings db)) db);;
    db ← gets id;
    let s := loadLedgerSettingsIn db in
    pruneInvalidTransactionLinksIn s;;
    validateCardBankAssignmentChanges s previousAssignments).

Definition SaveCreditCardSettings (items : list string) : op unit := saveStringSliceSetting "credit_card_items" items.
Definition SaveBankAccountSettings (items : list string) : op unit := saveStringSliceSetting "bank_account_items" items.

(** * Reading links *)
Record LinkedTransactionResponse := Linked {
  lt_id : Z;
  lt_account : string;
  lt_date : Z;
  lt_item : string;
  lt_type : string;
  lt_amount : Z;
  lt_memo : string;
  lt_banks : list Z
}.

Definition scanLinkedTransaction (db : ledger) (x : Z * txrow) : LinkedTransactionResponse :=
  Linked x.1 (tx_account x.2) (tx_date x.2) (tx_item x.2) (tx_type x.2)
    (effective_amount db x.1 x.2) (tx_memo x.2) [].

Definition linked_rows (db : ledger) (n : Z) : list (Z * txrow) :=
  merge_sort row_le (filter (λ x, x.1 ∈ linked_ids db n) (map_to_list (transactions db))).

(** [ORDER BY date DESC, id DESC] *)
Definition GetTransactionLinks (transactionID : Z) : op (list LinkedTransactionResponse) :=
  gets (λ db, scanLinkedTransaction db <$> reverse (linked_rows db transactionID)).

Record CardReconciliationResponse := Reconciliation {
  rc_applicable : bool;
  rc_bank : LinkedTransactionResponse;
  rc_cards : list LinkedTransactionResponse;
  rc_card_total : option Z;   (** [None]: the empty string of a response that does not apply *)
  rc_bank_amount : option Z;
  rc_difference : option Z;
  rc_matched : bool;
  rc_conflicts : bool
}.

(** Expenses count positively, refunds negatively; the sums are big integers. *)
Definition owed (t : string) (a : Z) : Z := if bool_decide (t = "income") then - a else a.

Definition id_sort (s : gset Z) : list Z := merge_sort Z.le (elements s).

Definition with_banks (assignments : cardBankAssignments) (c : LinkedTransactionResponse)
    : LinkedTransactionResponse :=
  Linked (lt_id c) (lt_account c) (lt_date c) (lt_item c) (lt_type c) (lt_amount c) (lt_memo c)
    (id_sort (banks_for assignments (lt_id c))).

(** The linked rows that form a card/bank pair with the bank transaction. *)
Definition pairs_with (db : ledger) (bankID : Z) (b : txrow) (c : LinkedTransactionResponse) : bool :=
  let s := loadLedgerSettingsIn db in
  is_ok (cardBankPair (cards_of s) (banks_of s) (lt_id c) (lt_account c) bankID (tx_account b)).

Definition settled_cards (db : ledger) (bankID : Z) (b : txrow) : list LinkedTransactionResponse :=
  filter (λ c, pairs_with db bankID b c = true) (scanLinkedTransaction db <$> linked_rows db bankID).

Definition GetCardReconciliation (bankID : Z) : op CardReconciliationResponse :=
  db ← gets id;
  match transactions db !! bankID with
  | None => fail ENotFound
  | Some b =>
    let bank := scanLinkedTransaction db (bankID, b) in
    let s := loadLedgerSettingsIn db in
    let cards := cards_of s in
    let banks := banks_of s in
    if negb (bool_decide (TrimSpace (tx_account b) ∈ banks)) || bool_decide (TrimSpace (tx_account b) ∈ cards)
    then mret (Reconciliation false bank [] None None None false false)
    else
      let pairs := settled_cards db bankID b in
      let total := lsum ((λ c, owed (lt_type c) (lt_amount c)) <$> pairs) in
      let assignments := readCardBankAssignments s bankID db in
      let shown := with_banks assignments <$> pairs in
      let bankAmount := owed (tx_type b) (lt_amount bank) in
      mret (Reconciliation true bank shown (Some total) (Some bankAmount) (Some (total - bankAmount)) (total =? bankAmount)
        (negb (forallb (pairs_with db bankID b) (scanLinkedTransaction db <$> linked_rows db bankID)) || existsb (λ c, (1 <? length (lt_banks c))%nat) shown))
  end.

(** * Facts about assignments *)
Definition links_wf (db : ledger) : Prop :=
  ∀ p c, (p, c) ∈ links db → 0 < p < c ∧ is_Some (transactions db !! p) ∧ is_Some (transactions db !! c).

Definition assigned (db : ledger) : cardBankAssignments :=
  readCardBankAssignments (loadLedgerSettingsIn db) 0 db.

(** A mutation may shrink a multi-bank assignment but not create or extend one. *)
Definition no_new_conflict (A B : cardBankAssignments) : Prop :=
  ∀ card, (1 < size (banks_for B card))%nat → banks_for B card ⊆ banks_for A card.

#[global] Instance no_new_conflict_refl : Reflexive no_new_conflict.
Proof. intros A card _. done. Qed.
#[global] Instance no_new_conflict_trans : Transitive no_new_conflict.
Proof.
  intros A B C HAB HBC card HC. pose proof (HBC card HC) as Hsub. transitivity (banks_for B card); [done|].
  apply HAB. apply subseteq_size in Hsub. lia.
Qed.

Lemma banks_for_insert m c bs card :
  banks_for (<[c := bs]> m) card = if decide (c = card) then bs else banks_for m card.
Proof. unfold banks_for. rewrite lookup_insert. by case_decide. Qed.

Lemma elem_add_assignments db cards banks l c b :
  b ∈ banks_for (foldr (add_assignment db cards banks) ∅ l) c ↔
  ∃ e, e ∈ l ∧ edge_pair db cards banks e = Some (c, b).
Proof.
  induction l as [|e l IH]; cbn [foldr].
  - unfold banks_for. rewrite lookup_empty. cbn. split; [intros []%elem_of_empty|intros (e & []%elem_of_nil & _)].
  - setoid_rewrite elem_of_cons. unfold add_assignment at 1. destruct (edge_pair db cards banks e) as [[c' b']|] eqn:E.
    + rewrite banks_for_insert. case_decide as Hc; [subst c'; rewrite elem_of_union, elem_of_singleton|]; rewrite IH;
        split; [intros [->|(e' & ? & ?)]|intros (e' & [->|?] & He)|intros (e' & ? & ?)|intros (e' & [->|?] & He)];
        simplify_eq; eauto.
    + rewrite IH. split; [intros (e' & ? & ?); eauto|intros (e' & [->|?] & ?); [congruence|eauto]].
Qed.

Lemma elem_assignments s db c b :
  b ∈ banks_for (readCardBankAssignments s 0 db) c ↔
  ∃ e, e ∈ links db ∧ edge_pair db (cards_of s) (banks_of s) e = Some (c, b).
Proof.
  unfold readCardBankAssignments. rewrite elem_add_assignments. cbn. by setoid_rewrite elem_of_elements.
Qed.

(** Fewer edges between transactions of the same accounts: no new conflict. *)
Definition same_accounts (db db' : ledger) : Prop :=
  ∀ n, tx_account <$> transactions db !! n = tx_account <$> transactions db' !! n.

Lemma edge_pair_same db db' cards banks e :
  same_accounts db db' → edge_pair db cards banks e = edge_pair db' cards banks e.
Proof.
  intros H. unfold edge_pair. pose proof (H e.1) as H1. pose proof (H e.2) as H2.
  destruct (transactions db !! e.1), (transactions db' !! e.1); simplify_eq/=; [|done].
  destruct (transactions db !! e.2), (transactions db' !! e.2); simplify_eq/=; [|done]. by rewrite H1, H2.
Qed.

Lemma assignments_mono s db db' :
  same_accounts db db' → links db' ⊆ links db →
  no_new_conflict (readCardBankAssignments s 0 db) (readCardBankAssignments s 0 db').
Proof.
  intros Hacc Hsub card _ b. rewrite !elem_assignments. intros (e & He & Hp). exists e. split; [by apply Hsub|].
  by rewrite (edge_pair_same db db').
Qed.

Lemma cardBankPair_Ok cards banks idA a idB b card bank :
  cardBankPair cards banks idA a idB b = Ok (card, bank) →
  ((card = idA ∧ bank = idB ∧ TrimSpace b ∈ banks) ∨
   (card = idB ∧ bank = idA ∧ TrimSpace a ∈ banks ∧ TrimSpace b ∈ cards)) ∧
  cardBankPair cards banks idB b idA a = Ok (card, bank).
Proof.
  unfold cardBankPair. repeat case_bool_decide; cbn; naive_solver.
Qed.

Lemma edge_pair_linked db cards banks e card bank :
  e ∈ links db → edge_pair db cards banks e = Some (card, bank) →
  bank ∈ linked_ids db card ∧ is_bank_tx db banks bank = true ∧ (e = (card, bank) ∨ e = (bank, card)).
Proof.
  destruct e as [p c]. intros He. unfold edge_pair. cbn [fst snd].
  destruct (transactions db !! p) as [rp|] eqn:Hp; [|done].
  destruct (transactions db !! c) as [rc|] eqn:Hc; [|done].
  destruct (cardBankPair _ _ _ _ _ _) as [[x y]|] eqn:E; [|done]. intros [= -> ->].
  apply cardBankPair_Ok in E as [[(-> & -> & Hb)|(-> & -> & Hb & _)] _]; unfold is_bank_tx, linked_ids;
    rewrite ?Hp, ?Hc, bool_decide_eq_true_2 by done; (split; [|by auto]); apply elem_of_union.
  - left. apply elem_of_map. exists (p, c). split; [done|]. by apply elem_of_filter.
  - right. apply elem_of_map. exists (p, c). split; [done|]. by apply elem_of_filter.
Qed.

(** ** Adding an edge *)
Lemma addCardBankLinkIn_wp s idA idB db :
  links_wf db →
  wp (addCardBankLinkIn (cards_of s) (banks_of s) idA idB) (λ _ db',
    links_wf db' ∧ db' = set_links (links db') db ∧
    no_new_conflict (readCardBankAssignments s 0 db) (readCardBankAssignments s 0 db')) db.
Proof.
  intros Hwf. unfold addCardBankLinkIn, insert_link. do 4 wp_step.
  destruct (transactions db !! idA) as [a|] eqn:Ha; [|done].
  destruct (transactions db !! idB) as [b|] eqn:Hb; [|done]. do 2 wp_step. rename a0 into cb.
  destruct cb as [card bank]. destruct (ordered_pair idA idB) as [p c] eqn:Hord.
  case_decide as Hin. { wp_step. split; [done|]. split; [by destruct db|done]. }
  do 4 wp_step. wp_auto. split_bools. split; [|split; [done|]].
  - intros p' c' [[= -> ->]%elem_of_singleton|Hin']%elem_of_union; [|by apply Hwf]. cbn.
    unfold ordered_pair in Hord. destruct (idA >? idB) eqn:E; simplify_eq; split_and!; try lia; done.
  - assert (edge_pair db (cards_of s) (banks_of s) (p, c) = Some (card, bank)) as Hpc.
    { unfold edge_pair, ordered_pair in *. destruct (idA >? idB); simplify_eq; cbn; rewrite Ha, Hb.
      - apply cardBankPair_Ok in H0 as [_ ->]. done.
      - by rewrite H0. }
    intros k Hk b'. rewrite !elem_assignments.
    set (db' := set_links _ db) in *.
    assert (∀ e, edge_pair db' (cards_of s) (banks_of s) e = edge_pair db (cards_of s) (banks_of s) e) as Hsame by done.
    intros (e & He & Hp). rewrite Hsame in Hp. cbn in He.
    apply elem_of_union in He as [->%elem_of_singleton|He]; [|eauto].
    exfalso. rewrite Hpc in Hp. injection Hp as <- <-.
    assert (banks_for (readCardBankAssignments s 0 db') card ⊆ {[bank]}) as Hsub.
    { intros b'. rewrite elem_assignments, elem_of_singleton. intros (e & He & Hp). rewrite Hsame in Hp. cbn in He.
      apply elem_of_union in He as [->%elem_of_singleton|He]; [congruence|].
      destruct (edge_pair_linked _ _ _ _ _ _ He Hp) as (Hl & Hbk & _).
      destruct (decide (b' = bank)) as [|Hne]; [done|]. exfalso.
      unfold other_bank in H1. split_bools. apply H1. exists b'. done. }
    apply subseteq_size in Hsub. rewrite size_singleton in Hsub. lia.
Qed.

(** ** Removing edges *)
Lemma delete_links_run l db :
  for_each (λ e, delete_link e.1 e.2;; mret tt) l db =
    (Ok tt, set_links (links db ∖ list_to_set l) db).
Proof.
  revert db. induction l as [|[p c] l IH]; intros db.
  - cbn. rewrite difference_empty_L. by destruct db.
  - cbn [for_each]. rewrite (bind_run_Ok _ _ _ tt (set_links (links db ∖ {[(p, c)]}) db)) by done.
    rewrite IH. cbn [links set_links list_to_set]. rewrite difference_difference_l_L. done.
Qed.

Lemma prune_run s db :
  pruneInvalidTransactionLinksIn s db =
    (Ok tt, set_links (filter (λ e, valid_edge db s e = true) (links db)) db).
Proof.
  unfold pruneInvalidTransactionLinksIn. rewrite (bind_run_Ok _ _ _ db db) by done. rewrite delete_links_run.
  do 2 f_equal. apply set_eq. intros e. rewrite elem_of_difference, elem_of_list_to_set, list_elem_of_filter,
    elem_of_elements, elem_of_filter. destruct (valid_edge db s e); naive_solver.
Qed.

Lemma prune_wp s (Q : unit → ledger → Prop) db :
  Q tt (set_links (filter (λ e, valid_edge db s e = true) (links db)) db) →
  wp (pruneInvalidTransactionLinksIn s) Q db.
Proof. intros HQ. unfold wp. by rewrite prune_run. Qed.

Lemma links_wf_sub l db : l ⊆ links db → links_wf db → links_wf (set_links l db).
Proof. intros Hsub Hwf p c Hin. by apply Hwf, Hsub. Qed.

Lemma set_links_same l db s :
  l ⊆ links db → no_new_conflict (readCardBankAssignments s 0 db) (readCardBankAssignments s 0 (set_links l db)).
Proof. intros Hsub. by apply assignments_mono. Qed.

Lemma filter_subseteq_gset (P : Z * Z → Prop) `{!∀ x, Decision (P x)} (X : gset (Z * Z)) : filter P X ⊆ X.
Proof. intros x [_ Hx]%elem_of_filter. done. Qed.

Lemma validateCardBankAssignmentChanges_wp s before db :
  wp (validateCardBankAssignmentChanges s before) (λ _ db',
    db' = db ∧ no_new_conflict before (readCardBankAssignments s 0 db)) db.
Proof.
  unfold validateCardBankAssignmentChanges. wp_auto. split_bools. split; [done|]. intros card Hc.
  assert (∃ bs, readCardBankAssignments s 0 db !! card = Some bs) as [bs Hbs].
  { unfold banks_for in Hc. destruct (_ !! card); [eauto|]. cbn in Hc. rewrite size_empty in Hc. lia. }
  unfold banks_for in *. rewrite Hbs in *. cbn in *. specialize (H card bs Hbs). unfold extends_conflict in H.
  destruct (decide (bs ⊆ banks_for before card)) as [|Hn]; [done|]. exfalso. by apply H.
Qed.

(** ** The calls *)
Definition links_step (db db' : ledger) : Prop :=
  links_wf db' ∧ db' = set_links (links db') (set_settings (settings db') db) ∧
  no_new_conflict (assigned db) (assigned db').

Lemma AddTransactionLink_wp p c db : links_wf db → wp (AddTransactionLink p c) (λ _ db', links_step db db') db.
Proof.
  intros Hwf. unfold AddTransactionLink. do 5 wp_step.
  eapply wp_mono; [by apply (addCardBankLinkIn_wp (loadLedgerSettingsIn db))|]. intros _ db' (Hwf' & Heq & Hno).
  split; [done|]. split; [rewrite Heq; by destruct db|]. rewrite Heq in *. done.
Qed.

Lemma RemoveTransactionLink_wp t l db : links_wf db → wp (RemoveTransactionLink t l) (λ _ db', links_step db db') db.
Proof.
  intros Hwf. unfold RemoveTransactionLink. wp_auto.
  split; [by apply links_wf_sub; [set_solver|]|]. split; [by destruct db|]. apply (set_links_same _ db). set_solver.
Qed.

Lemma saveStringSliceSetting_wp key items db :
  links_wf db →
  wp (saveStringSliceSetting key items) (λ _ db', links_step db db' ∧
    ∀ e, e ∈ links db' → valid_edge db' (loadLedgerSettingsIn db') e = true) db.
Proof.
  intros Hwf. unfold saveStringSliceSetting. wp_auto. set (db1 := set_settings _ db).
  apply prune_wp. set (db2 := set_links _ db1).
  eapply wp_mono; [apply validateCardBankAssignmentChanges_wp|]. intros _ db' [-> Hno].
  split; [split; [|split; [done|exact Hno]]|].
  - apply (links_wf_sub _ db1); [apply filter_subseteq_gset|done].
  - intros e [He _]%elem_of_filter. exact He.
Qed.

Inductive link_call :=
| CallLink (p c : Z)
| CallUnlink (t l : Z)
| CallCards (items : list string)
| CallBanks (items : list string).

Definition link_call_op (c : link_call) : op unit :=
  match c with
  | CallLink p c => AddTransactionLink p c
  | CallUnlink t l => RemoveTransactionLink t l
  | CallCards items => SaveCreditCardSettings items
  | CallBanks items => SaveBankAccountSettings items
  end.

Definition run_link_call (c : link_call) (db : ledger) : ledger := snd (link_call_op c db).

Lemma link_call_atomic c : atomic (link_call_op c).
Proof.
  assert (∀ key items, atomic (saveStringSliceSetting key items)) as Hsave
    by (intros; unfold saveStringSliceSetting; auto 6 with atomic).
  destruct c; cbn; [unfold AddTransactionLink; auto with atomic| |apply Hsave|apply Hsave].
  intros db0 e db1. unfold RemoveTransactionLink.
  rewrite (bind_run_Ok _ _ _ db0 db0) by done. cbv zeta. case_decide; by intros [= ? ?].
Qed.

Lemma run_link_call_step c db : links_wf db → links_step db (run_link_call c db).
Proof.
  intros Hwf. apply (wp_atomic (link_call_op c) (links_step db)); [apply link_call_atomic| |].
  { split; [done|]; split; [by destruct db|done]. }
  assert (∀ key items, wp (saveStringSliceSetting key items) (λ _ db', links_step db db') db) as Hsave.
  { intros key items. eapply wp_mono; [by apply saveStringSliceSetting_wp|]. by intros ? db' [? _]. }
  destruct c; cbn [link_call_op]; [by apply AddTransactionLink_wp|by apply RemoveTransactionLink_wp| |]; apply Hsave.
Qed.

(** C26. Link policy: over any sequence of link, unlink and classification calls
    (failing ones included) every stored edge joins two existing transactions in
    ascending id order, no transaction is touched, and no card transaction ends
    up assigned to several bank transactions unless each of those assignments was
    already there at the start: conflicts are never created or extended. *)
Theorem link_calls_no_new_conflict db calls :
  links_wf db →
  let db' := foldl (λ db c, run_link_call c db) db calls in
  links_wf db' ∧ transactions db' = transactions db ∧ no_new_conflict (assigned db) (assigned db').
Proof.
  revert db. induction calls as [|c calls IH]; intros db Hwf; cbn; [done|].
  destruct (run_link_call_step c db Hwf) as (Hwf1 & Hfr1 & Hno1).
  assert (transactions (run_link_call c db) = transactions db) as Htx1 by by rewrite Hfr1.
  destruct (IH _ Hwf1) as (Hwf2 & Htx2 & Hno2). split; [done|]. split; [congruence|]. by etransitivity.
Qed.

(** Two card payments and two withdrawals. *)
Definition demo_links : ledger :=
  set_transactions
    (<[1 := TxRow "card" 0 "shop" "expense" 500 0 ""]>
    (<[2 := TxRow "bank" 0 "withdrawal" "expense" 700 0 ""]>
    (<[3 := TxRow "bank" 0 "withdrawal" "expense" 500 0 ""]>
    (<[4 := TxRow " card " 0 "refund" "income" 200 0 ""]> ∅)))) (set_tx_seq 4 empty_ledger).

Definition demo_link_calls : list link_call :=
  [CallCards ["card"]; CallBanks ["bank"]; CallLink 1 2; CallLink 3 1; CallLink 4 3; CallUnlink 2 1; CallLink 3 1].

Lemma link_calls_no_new_conflict_witness :
  links_wf demo_links ∧
  links (foldl (λ db c, run_link_call c db) demo_links demo_link_calls) = {[(1, 3); (3, 4)]} ∧
  no_new_conflict (assigned demo_links) (assigned (foldl (λ db c, run_link_call c db) demo_links demo_link_calls)).
Proof.
  assert (links_wf demo_links) as Hwf by (intros p c []%elem_of_empty).
  split; [exact Hwf|]. split; [vm_compute; reflexivity|].
  exact (proj2 (proj2 (link_calls_no_new_conflict demo_links demo_link_calls Hwf))).
Defined.

(** Saving a classification: when [SaveCreditCardSettings] succeeds, reading
    it back returns exactly the saved list, the bank classification is as before,
    and every remaining edge joins a card account to a bank account under the new
    classification; when it fails, the ledger is unchanged. *)
Theorem save_settings_read_back items db :
  match SaveCreditCardSettings items db with
  | (Ok _, db') =>
    GetCreditCardSettings db' = (Ok items, db') ∧
    settings db' !! "bank_account_items" = settings db !! "bank_account_items" ∧
    (∀ p c rp rc, (p, c) ∈ links db' → transactions db' !! p = Some rp → transactions db' !! c = Some rc →
       isCardWithdrawalLinkAccountsWithSettings (cards_of (loadLedgerSettingsIn db')) (banks_of (loadLedgerSettingsIn db'))
         (tx_account rp) (tx_account rc) = true)
  | (Err _, db') => db' = db
  end.
Proof.
  destruct (SaveCreditCardSettings items db) as [[[]|e] db'] eqn:Hrun.
  2: { revert Hrun. apply (ltac:(unfold SaveCreditCardSettings, saveStringSliceSetting; auto 6 with atomic) :
         atomic (SaveCreditCardSettings items)). }
  assert (wp (SaveCreditCardSettings items) (λ _ db', ∃ v,
    ParseLedgerSettingItemsWithMode v LedgerSettingArchive maxCSVSettingValueBytes MaxSettingItems =
      Ok {| ps_Items := items; ps_Archive := true |} ∧
    settings db' = <["credit_card_items" := v]> (settings db) ∧
    (∀ e, e ∈ links db' → valid_edge db' (loadLedgerSettingsIn db') e = true)) db) as Hwp.
  { unfold SaveCreditCardSettings, saveStringSliceSetting. wp_auto. apply prune_wp.
    eapply wp_mono; [apply validateCardBankAssignmentChanges_wp|]. intros _ db1 [-> _]. destruct a.
    destruct (marshal_parses items maxCSVSettingValueBytes H0) as (v & Hv & _ & Hp).
    { unfold MaxSettingItemBytes, maxCSVSettingValueBytes. lia. }
    assert (v = a0) as -> by congruence. exists a0. split; [done|]. split; [done|].
    intros e [He _]%elem_of_filter. exact He. }
  destruct (wp_run _ _ _ _ _ Hwp Hrun) as (v & Hp & Hs & He). split; [|split].
  - unfold GetCreditCardSettings, getStringSliceSetting. rewrite (bind_run_Ok _ _ _ db' db') by done.
    by rewrite Hs, lookup_insert_eq, Hp.
  - rewrite Hs. by rewrite lookup_insert_ne.
  - intros p c rp rc Hin Hp' Hc'. specialize (He _ Hin). unfold valid_edge in He. cbn in He. by rewrite Hp', Hc' in He.
Qed.

(** ** Reconciliation *)

(** The query restricted to one bank agrees with the full scan on its cards. *)
Lemma bank_query_agrees s bankID db card :
  0 < bankID → card ∈ linked_ids db bankID →
  banks_for (readCardBankAssignments s bankID db) card = banks_for (readCardBankAssignments s 0 db) card.
Proof.
  intros Hpos Hlinked. apply set_eq. intros b. rewrite elem_assignments. unfold readCardBankAssignments, considered.
  rewrite elem_add_assignments. destruct (bankID >? 0) eqn:E; [|lia]. setoid_rewrite elem_of_elements.
  split; intros (e & He & Hp); exists e; (split; [|done]).
  - by apply elem_of_filter in He as [_ He].
  - apply elem_of_filter. split; [|done].
    destruct (edge_pair_linked _ _ _ _ _ _ He Hp) as (_ & _ & [-> | ->]); cbn; auto.
Qed.

Lemma linked_rows_elem db n x :
  x ∈ linked_rows db n ↔ transactions db !! x.1 = Some x.2 ∧ x.1 ∈ linked_ids db n.
Proof.
  unfold linked_rows. rewrite merge_sort_Permutation, list_elem_of_filter. destruct x as [k r].
  rewrite elem_of_map_to_list. cbn. tauto.
Qed.

Lemma linked_ids_sym db a b : a ∈ linked_ids db b ↔ (b, a) ∈ links db ∨ (a, b) ∈ links db.
Proof.
  unfold linked_ids. rewrite elem_of_union, !elem_of_map. setoid_rewrite elem_of_filter. split.
  - intros [([x y] & -> & <- & ?)|([x y] & -> & <- & ?)]; auto.
  - intros [H|H]; [left; exists (b, a)|right; exists (a, b)]; auto.
Qed.

Lemma id_sort_singleton (s : gset Z) b : b ∈ s → (length (id_sort s) <= 1)%nat → id_sort s = [b].
Proof.
  unfold id_sort. intros Hb Hl.
  rewrite (Permutation_length (merge_sort_Permutation Z.le (elements s))) in Hl.
  assert (merge_sort Z.le (elements s) ≡ₚ [b]) as Hp.
  { rewrite merge_sort_Permutation. assert (b ∈ elements s) as Hin by by apply elem_of_elements.
    destruct (elements s) as [|x [|y l]]; [by apply elem_of_nil in Hin| |cbn in Hl; lia].
    apply list_elem_of_singleton in Hin as ->. done. }
  by apply Permutation_singleton_r in Hp.
Qed.

Lemma msum_linked db n (g : Z * txrow → Z) :
  lsum (g <$> linked_rows db n) = msum (λ k r, if decide (k ∈ linked_ids db n) then g (k, r) else 0) (transactions db).
Proof.
  unfold linked_rows, msum. rewrite merge_sort_Permutation.
  induction (map_to_list (transactions db)) as [|[k r] l IH]; [done|].
  rewrite filter_cons. cbn [fst]. rewrite fmap_cons, lsum_cons. cbn [uncurry]. case_decide.
  - by rewrite fmap_cons, lsum_cons, IH.
  - by rewrite IH, Z.add_0_l.
Qed.

Lemma lsum_filter {A} (P : A → Prop) `{!∀ x, Decision (P x)} (g : A → Z) l :
  lsum (g <$> filter P l) = lsum ((λ x, if decide (P x) then g x else 0) <$> l).
Proof.
  induction l as [|x l IH]; [done|]. rewrite filter_cons, fmap_cons, lsum_cons. case_decide.
  - by rewrite fmap_cons, lsum_cons, IH.
  - by rewrite IH, Z.add_0_l.
Qed.

(** A card transaction that a bank transaction settles. *)
Definition settles (db : ledger) (bankID : Z) (b : txrow) (k : Z) (r : txrow) : bool :=
  let s := loadLedgerSettingsIn db in
  bool_decide (k ∈ linked_ids db bankID) &&
  is_ok (cardBankPair (cards_of s) (banks_of s) k (tx_account r) bankID (tx_account b)).

Lemma settled_total db bankID b :
  lsum ((λ c, owed (lt_type c) (lt_amount c)) <$> settled_cards db bankID b) =
  msum (λ k c, if settles db bankID b k c then owed (tx_type c) (effective_amount db k c) else 0) (transactions db).
Proof.
  unfold settled_cards. rewrite lsum_filter, <-list_fmap_compose, msum_linked. apply msum_ext. intros k c _.
  unfold compose, settles, pairs_with. cbn [scanLinkedTransaction lt_id lt_account lt_type lt_amount fst snd].
  destruct (decide (k ∈ linked_ids db bankID));
    [rewrite bool_decide_eq_true_2 by done|by rewrite bool_decide_eq_false_2].
  by destruct (cardBankPair _ _ k _ _ _).
Qed.

Lemma settled_assigned db bankID b c :
  transactions db !! bankID = Some b → TrimSpace (tx_account b) ∉ cards_of (loadLedgerSettingsIn db) →
  c ∈ settled_cards db bankID b →
  lt_id c ∈ linked_ids db bankID ∧ bankID ∈ banks_for (assigned db) (lt_id c).
Proof.
  intros Hb Hnc [Hp ([k rk] & -> & [Hk Hl]%linked_rows_elem)%list_elem_of_fmap]%list_elem_of_filter.
  cbn [scanLinkedTransaction lt_id fst snd] in *. split; [done|]. apply elem_assignments.
  unfold pairs_with in Hp. cbn [scanLinkedTransaction lt_id lt_account fst snd] in Hp.
  destruct (cardBankPair _ _ k _ _ _) as [[x y]|] eqn:E in Hp; [|done].
  pose proof (cardBankPair_Ok _ _ _ _ _ _ _ _ E) as [[(-> & -> & _)|(_ & _ & _ & Hc)] E']; [|done].
  apply linked_ids_sym in Hl as [Hl|Hl]; eexists; (split; [exact Hl|]); unfold edge_pair; cbn [fst snd];
    rewrite Hk, Hb; [by rewrite E'|by rewrite E].
Qed.

(** Card reconciliation: for a registered bank transaction the reported card
    total is the sum, over the card transactions linked to it, of expenses minus
    refunds; the difference and the match flag compare it with the bank amount
    exactly; every card is shown with all bank transactions it is assigned to,
    as the whole ledger has them, and when no conflict is flagged that is this
    bank transaction alone. Nothing is written. *)
Theorem reconciliation_correct bankID db r db' :
  0 < bankID → GetCardReconciliation bankID db = (Ok r, db') → rc_applicable r = true →
  ∃ b, transactions db !! bankID = Some b ∧ db' = db ∧
  let total := msum (λ k c, if settles db bankID b k c then owed (tx_type c) (effective_amount db k c) else 0)
                    (transactions db) in
  let amount := owed (tx_type b) (effective_amount db bankID b) in
  rc_card_total r = Some total ∧ rc_bank_amount r = Some amount ∧ rc_difference r = Some (total - amount) ∧
  (rc_matched r = true ↔ total = amount) ∧
  (∀ c, c ∈ rc_cards r → lt_banks c = id_sort (banks_for (assigned db) (lt_id c)) ∧
     bankID ∈ banks_for (assigned db) (lt_id c)) ∧
  (rc_conflicts r = false → ∀ c, c ∈ rc_cards r → lt_banks c = [bankID]).
Proof.
  intros Hpos Hrun Happ. unfold GetCardReconciliation in Hrun.
  rewrite (bind_run_Ok _ _ _ db db) in Hrun by done. unfold id in Hrun.
  destruct (transactions db !! bankID) as [b|] eqn:Hb; [|done]. cbv zeta in Hrun. rewrite settled_total in Hrun.
  destruct (_ || _) eqn:Hn in Hrun; injection Hrun as <- <-; [done|]. exists b. split; [done|]. split; [done|].
  apply orb_false_elim in Hn as [_ Hn]. apply bool_decide_eq_false in Hn.
  assert (∀ c, c ∈ with_banks (readCardBankAssignments (loadLedgerSettingsIn db) bankID db) <$> settled_cards db bankID b →
    lt_banks c = id_sort (banks_for (assigned db) (lt_id c)) ∧ bankID ∈ banks_for (assigned db) (lt_id c)) as Hcards.
  { intros c (c0 & -> & Hc0)%list_elem_of_fmap.
    destruct (settled_assigned _ _ _ _ Hb Hn Hc0) as [Hl Hin]. cbn [with_banks lt_banks lt_id].
    split; [|done]. unfold assigned. by rewrite bank_query_agrees. }
  split; [done|]. split; [done|]. split; [done|]. split; [apply Z.eqb_eq|]. split; [exact Hcards|].
  cbn [rc_conflicts rc_cards]. intros [_ Hc]%orb_false_elim c Hin.
  destruct (Hcards c Hin) as [Hbanks Hbank]. rewrite Hbanks. apply id_sort_singleton; [done|].
  rewrite <-Hbanks. clear -Hc Hin. induction (with_banks _ <$> _) as [|x l IH]; [by apply elem_of_nil in Hin|].
  cbn [existsb] in Hc. apply orb_false_elim in Hc as [Hx Hl]. apply elem_of_cons in Hin as [->|Hin]; [|auto].
  apply Nat.ltb_ge in Hx. lia.
Qed.

Definition demo_reconciled : ledger := foldl (λ db c, run_link_call c db) demo_links
  [CallCards ["card"]; CallBanks ["bank"]; CallLink 1 3; CallLink 4 3].

Lemma reconciliation_correct_witness :
  ∃ r, GetCardReconciliation 3 demo_reconciled = (Ok r, demo_reconciled) ∧
    rc_card_total r = Some 300 ∧ rc_matched r = false ∧
    (∀ c, c ∈ rc_cards r → lt_banks c = [3]).
Proof.
  eexists. split; [vm_compute; reflexivity|]. split; [reflexivity|]. split; [reflexivity|].
  edestruct (reconciliation_correct 3 demo_reconciled) as (b & _ & _ & _ & _ & _ & _ & _ & H);
    [lia|vm_compute; reflexivity|reflexivity|]. apply H. reflexivity.
Defined.
