(* ===== verification/Images.v ===== *)
(** Transaction images: preparation of uploads ([core/image_security.go]),
    storage quotas, insertion, deletion and paging ([core/service.go]), with the
    quota trigger of the schema. The pixel decoders ([image.DecodeConfig] and
    [image.Decode], which dispatch to the registered codecs) are parameters. *)
From Stdlib Require Import ZArith Lia.
From stdpp Require Import base gmap list strings sorting.
From S2P Require Import Prelude GoText Validation GoTime ImageContainers Schema.

Open Scope Z_scope.

(** * models.go *)
Definition MaxImageBytes : Z := 5 * 1024 * 1024.
Definition MaxImagePixels : Z := 20000000.
Definition MaxImagesPerTransaction : Z := 10.
Definition MaxImageBytesPerTransaction : Z := 20 * 1024 * 1024.
Definition MaxImageBytesPerAccount : Z := 128 * 1024 * 1024.
Definition MaxImageBytesDatabase : Z := 256 * 1024 * 1024.
Definition MaxArchivedImagesDatabase : Z := 100000.

(** * Base64 (standard alphabet, padded, strict) *)
Definition b64_value (c : Z) : option Z :=
  if between 65 90 c then Some (c - 65)
  else if between 97 122 c then Some (c - 71)
  else if between 48 57 c then Some (c + 4)
  else if c =? 43 then Some 62
  else if c =? 47 then Some 63
  else None.

Definition b64_char (v : Z) : Z :=
  if v <? 26 then v + 65
  else if v <? 52 then v + 71
  else if v <? 62 then v - 4
  else if v =? 62 then 43 else 47.

Fixpoint b64_decode (l : list Z) : option (list Z) :=
  match l with
  | [] => Some []
  | a :: b :: c :: d :: rest =>
    va ← b64_value a;
    vb ← b64_value b;
    let b0 := va * 4 + vb / 16 in
    if c =? 61 then
      if (d =? 61) && bool_decide (rest = []) && (vb mod 16 =? 0) then Some [b0] else None
    else
      vc ← b64_value c;
      let b1 := (vb mod 16) * 16 + vc / 4 in
      if d =? 61 then
        if bool_decide (rest = []) && (vc mod 4 =? 0) then Some [b0; b1] else None
      else
        vd ← b64_value d;
        bs ← b64_decode rest;
        Some (b0 :: b1 :: (vc mod 4) * 64 + vd :: bs)
  | _ => None
  end.

Fixpoint b64_encode (l : list Z) : list Z :=
  match l with
  | [] => []
  | [x] => [b64_char (x / 4); b64_char ((x mod 4) * 16); 61; 61]
  | [x; y] => [b64_char (x / 4); b64_char ((x mod 4) * 16 + y / 16); b64_char ((y mod 16) * 4); 61]
  | x :: y :: z :: rest =>
    b64_char (x / 4) :: b64_char ((x mod 4) * 16 + y / 16) :: b64_char ((y mod 16) * 4 + z / 64)
      :: b64_char (z mod 64) :: b64_encode rest
  end.

(** Unpadded Base64 over an alphabet; the strict decoder wants the unused bits to be
    zero. Both decoders skip line breaks. *)
Fixpoint raw_encode (char : Z → Z) (l : list Z) : list Z :=
  match l with
  | [] => []
  | [x] => [char (x / 4); char ((x mod 4) * 16)]
  | [x; y] => [char (x / 4); char ((x mod 4) * 16 + y / 16); char ((y mod 16) * 4)]
  | x :: y :: z :: rest =>
    char (x / 4) :: char ((x mod 4) * 16 + y / 16) :: char ((y mod 16) * 4 + z / 64)
      :: char (z mod 64) :: raw_encode char rest
  end.
Fixpoint raw_decode (value : Z → option Z) (strict : bool) (l : list Z) : option (list Z) :=
  match l with
  | [] => Some []
  | [_] => None
  | [a; b] => va ← value a; vb ← value b; if strict && negb (vb mod 16 =? 0) then None else Some [va * 4 + vb / 16]
  | [a; b; c] =>
    va ← value a; vb ← value b; vc ← value c;
    if strict && negb (vc mod 4 =? 0) then None else Some [va * 4 + vb / 16; (vb mod 16) * 16 + vc / 4]
  | a :: b :: c :: d :: rest =>
    va ← value a; vb ← value b; vc ← value c; vd ← value d; bs ← raw_decode value strict rest;
    Some (va * 4 + vb / 16 :: (vb mod 16) * 16 + vc / 4 :: (vc mod 4) * 64 + vd :: bs)
  end.
Definition raw_decode_string (value : Z → option Z) (strict : bool) (l : list Z) : option (list Z) :=
  raw_decode value strict (filter (λ c, c ≠ 10 ∧ c ≠ 13) l).

(** [base64.RawURLEncoding]. *)
Definition url_char (v : Z) : Z := if v =? 62 then 45 else if v =? 63 then 95 else b64_char v.
Definition url_value (c : Z) : option Z :=
  if c =? 45 then Some 62 else if c =? 95 then Some 63 else if (c =? 43) || (c =? 47) then None else b64_value c.

Definition EncodedLen (n : Z) : Z := (n + 2) / 3 * 4.

(** * Metadata *)
Definition maxImageFilenameBytes : Z := 255.

Definition validateImageFilename (filename : string) : res imgerr unit :=
  if bool_decide (filename = "") || bool_decide (filename = ".") || bool_decide (filename = "..")
  then Err EImageFilename
  else if negb (ValidString filename) || (len filename >? maxImageFilenameBytes) then Err EImageFilenameText
  else if existsb (λ b, (b =? slash) || (b =? backslash)) (bytes filename) then Err EImageFilenamePath
  else if existsb IsControl (runes filename) then Err EImageFilenameControl
  else Ok tt.

(** [filepath.Ext]: from the last dot of the last path element. *)
Fixpoint ext_rev (l : list Z) (acc : list Z) : list Z :=
  match l with
  | [] => []
  | b :: l' => if b =? slash then [] else if b =? 46 then 46 :: acc else ext_rev l' (b :: acc)
  end.
Definition Ext (s : string) : list Z := ext_rev (rev (bytes s)) [].

(** [strings.ToLower], up to the comparison with ASCII constants it is used for:
    the only rune outside ASCII whose lower case is an ASCII letter of those
    constants is U+0130; every other one stays outside ASCII. *)
Definition lower_rune (r : Z) : Z :=
  if between 65 90 r then r + 32 else if r =? 304 then 105 else r.
Definition lower_is (l : list Z) (s : string) : bool :=
  bool_decide (lower_rune <$> runes (of_bytes l) = bytes s).

Definition mime_by_extension (ext : list Z) : option string :=
  if lower_is ext ".jpg" || lower_is ext ".jpeg" then Some "image/jpeg"
  else if lower_is ext ".png" then Some "image/png"
  else if lower_is ext ".gif" then Some "image/gif"
  else if lower_is ext ".webp" then Some "image/webp"
  else None.

Definition imageFormatByMIME (mimeType : string) : string :=
  if bool_decide (mimeType = "image/jpeg") then "jpeg"
  else if bool_decide (mimeType = "image/png") then "png"
  else if bool_decide (mimeType = "image/gif") then "gif"
  else if bool_decide (mimeType = "image/webp") then "webp"
  else "".

Definition normalizeImageMetadata (rawFilename rawMIMEType : string) : res imgerr (string * string) :=
  let filename := TrimSpace rawFilename in
  validateImageFilename filename ≫= λ _,
  match mime_by_extension (Ext filename) with
  | None => Err EImageExtension
  | Some expected =>
    let given := bytes (TrimSpace rawMIMEType) in
    if bool_decide (given = []) || lower_is given expected then Ok (filename, expected) else Err EImageMIME
  end.

(** [http.DetectContentType] restricted to the four types it is compared with:
    their signatures share no prefix with an earlier entry of the sniffing table. *)
Definition DetectContentType (data : list Z) : string :=
  if gif_signature data then "image/gif"
  else if bool_decide (take 4 data = RIFF) && bool_decide (take 6 (drop 8 data) = WEBP ++ [86; 80]) then "image/webp"
  else if bool_decide (take 8 data = png_signature) then "image/png"
  else if bool_decide (take 3 data = [255; 216; 255]) then "image/jpeg"
  else "".

Definition validateImageDimensions (width height : Z) : res imgerr unit :=
  if (width <=? 0) || (height <=? 0) then Err EImageSize
  else if width >? Z.quot MaxImagePixels height then Err EImagePixels
  else Ok tt.

Record preparedTransactionImage := Prepared {
  pi_filename : string;
  pi_mime : string;
  pi_data : list Z
}.

Section Prepare.
(** Width, height and format name of the header and of the decoded image. *)
Context (DecodeConfig Decode : list Z → option (Z * Z * string)).

Definition validateDecodedTransactionImage (filename mimeType : string) (data : list Z)
    : res imgerr preparedTransactionImage :=
  if zlen data =? 0 then Err EImageEmpty
  else if zlen data >? MaxImageBytes then Err EImageTooLarge
  else if negb (bool_decide (DetectContentType data = mimeType)) then Err EImageMismatch
  else
    validateImageContainer mimeType data ≫= λ _,
    match DecodeConfig data with
    | None => Err EImageHeader
    | Some (w, h, format) =>
      if negb (bool_decide (format = imageFormatByMIME mimeType)) then Err EImageHeader
      else
        validateImageDimensions w h ≫= λ _,
        match Decode data with
        | None => Err EImageCorrupt
        | Some (w', h', format') =>
          if negb (bool_decide (format' = imageFormatByMIME mimeType)) then Err EImageCorrupt
          else validateImageDimensions w' h' ≫= λ _, Ok (Prepared filename mimeType data)
        end
    end.

Definition prepareDecodedTransactionImage (rawFilename rawMIMEType : string) (data : list Z)
    : res imgerr preparedTransactionImage :=
  normalizeImageMetadata rawFilename rawMIMEType ≫= λ '(filename, mimeType),
  validateDecodedTransactionImage filename mimeType data.

Definition prepareTransactionImage (request : TransactionImageRequest) : res imgerr preparedTransactionImage :=
  normalizeImageMetadata (ireq_filename request) (ireq_mime request) ≫= λ '(filename, mimeType),
  let encoded := TrimSpace (ireq_data request) in
  if bool_decide (encoded = "") || existsb IsSpace (runes encoded) then Err EImageBase64
  else if len encoded >? EncodedLen MaxImageBytes then Err EImageTooLarge
  else match b64_decode (bytes encoded) with
       | None => Err EImageBase64
       | Some data =>
         if zlen data =? 0 then Err EImageBase64
         else if zlen data >? MaxImageBytes then Err EImageTooLarge
         else validateDecodedTransactionImage filename mimeType data
       end.

Fixpoint prepare_loop (total : Z) (requests : list TransactionImageRequest)
    : res imgerr (list preparedTransactionImage) :=
  match requests with
  | [] => Ok []
  | request :: requests' =>
    prepareTransactionImage request ≫= λ image,
    let total' := total + zlen (pi_data image) in
    if total' >? MaxImageBytesPerTransaction then Err EImageTotal
    else prepare_loop total' requests' ≫= λ rest, Ok (image :: rest)
  end.

Definition prepareTransactionImages (requests : list TransactionImageRequest)
    : res imgerr (list preparedTransactionImage) :=
  if Z.of_nat (length requests) >? MaxImagesPerTransaction then Err EImageCount
  else prepare_loop 0 requests.
End Prepare.

Definition lifti {A} (r : res imgerr A) : op A :=
  match r with Ok a => mret a | Err e => fail (EImage e) end.

(** * Storage *)
Definition img_sum (P : imgrow → Prop) `{!∀ r, Decision (P r)} (f : imgrow → Z) (db : ledger) : Z :=
  msum (λ _ r, if decide (P r) then f r else 0) (images db) +
  msum (λ _ r, if decide (P r) then f r else 0) (image_archive db).

Definition img_bytes (r : imgrow) : Z := zlen (img_data r).

(** [COUNT] and [SUM(length(data))] over both image tables. *)
Definition tx_image_count (db : ledger) (t : Z) : Z := img_sum (λ r, img_tx r = t) (λ _, 1) db.
Definition tx_image_bytes (db : ledger) (t : Z) : Z := img_sum (λ r, img_tx r = t) img_bytes db.

Definition account_of (db : ledger) (t : Z) : option string := tx_account <$> transactions db !! t.
Definition account_image_bytes (db : ledger) (acc : string) : Z :=
  img_sum (λ r, account_of db (img_tx r) = Some acc) img_bytes db.
Definition database_image_bytes (db : ledger) : Z := img_sum (λ _, True) img_bytes db.

(** The condition under which [trg_transaction_images_quota_insert] aborts. *)
Definition image_trigger (db : ledger) (t : Z) (n : Z) : bool :=
  (n <=? 0) || (n >? MaxImageBytes) || (tx_image_count db t >=? MaxImagesPerTransaction)
  || (tx_image_bytes db t + n >? MaxImageBytesPerTransaction)
  || (default 0 (account_image_bytes db <$> account_of db t) + n >? MaxImageBytesPerAccount)
  || (database_image_bytes db + n >? MaxImageBytesDatabase).

(** [INSERT INTO transaction_images]: the id, and the creation time from the clock. *)
Definition insertPreparedTransactionImage (now : Z) (t : Z) (image : preparedTransactionImage) : op Z :=
  db ← gets id;
  require (negb (image_trigger db t (zlen (pi_data image)))
           && bool_decide (is_Some (transactions db !! t))) (EImage EImageStore);;
  n ← next_id (img_seq db);
  modify (λ db, set_images
    (<[n := ImgRow t (pi_filename image) (pi_data image) (pi_mime image) now]> (images db)) n db);;
  mret n.

Definition added_bytes (imgs : list preparedTransactionImage) : Z := lsum ((λ i, zlen (pi_data i)) <$> imgs).

Definition checkImageStorageQuota (t : Z) (imgs : list preparedTransactionImage) : op unit :=
  db ← gets id;
  match transactions db !! t with
  | None => fail ENotFound
  | Some r =>
    let additional := added_bytes imgs in
    (if (0 <? length imgs)%nat then
       require (negb (tx_image_count db t + Z.of_nat (length imgs) >? MaxImagesPerTransaction)) (EImage EImageCount);;
       require (negb (tx_image_bytes db t + additional >? MaxImageBytesPerTransaction)) (EImage EImageTotal)
     else mret tt);;
    require (negb (account_image_bytes db (tx_account r) + additional >? MaxImageBytesPerAccount))
      (EImage EImageAccountQuota);;
    require (negb (database_image_bytes db + additional >? MaxImageBytesDatabase)) (EImage EImageDatabaseQuota)
  end.

Definition insertPreparedTransactionImages (now : Z) (t : Z) (imgs : list preparedTransactionImage) : op unit :=
  if bool_decide (imgs = []) then mret tt
  else
    checkImageStorageQuota t imgs;;
    for_each (λ i, insertPreparedTransactionImage now t i;; mret tt) imgs.

Definition AddTransactionImage (DecodeConfig Decode : list Z → option (Z * Z * string)) (now : Z)
    (t : Z) (img : TransactionImageRequest) : op (Z * preparedTransactionImage * Z) :=
  prepared ← lifti (prepareTransactionImages DecodeConfig Decode [img]);
  transactional (
    checkImageStorageQuota t prepared;;
    match prepared with
    | p :: _ => n ← insertPreparedTransactionImage now t p; mret (n, p, now)
    | [] => fail (EImage EImageStore)
    end).

(** ** Deletion: a negative response id names an archived image *)
Definition delete_image_where (P : imgrow → Prop) `{!∀ r, Decision (P r)} (responseID : Z) : op unit :=
  db ← gets id;
  if responseID <? 0 then
    if responseID =? MinInt64 then fail (EImage EImageNotFound)
    else match image_archive db !! (- responseID) with
         | Some r =>
           if decide (P r) then modify (λ db, set_image_archive (delete (- responseID) (image_archive db)) db)
           else fail (EImage EImageNotFound)
         | None => fail (EImage EImageNotFound)
         end
  else match images db !! responseID with
       | Some r =>
         if decide (P r) then modify (λ db, set_images (delete responseID (images db)) (img_seq db) db)
         else fail (EImage EImageNotFound)
       | None => fail (EImage EImageNotFound)
       end.

Definition DeleteTransactionImage (imageID : Z) : op unit := delete_image_where (λ _, True) imageID.

Definition DeleteTransactionImageForTransaction (transactionID imageID : Z) : op unit :=
  delete_image_where (λ r, img_tx r = transactionID) imageID.

Definition deleteTransactionImagesIn (transactionID : Z) (ids : list Z) : op unit :=
  for_each (λ responseID,
    require (negb (responseID =? 0)) (EImage EImageNotFound);;
    DeleteTransactionImageForTransaction transactionID responseID) ids.

(** ** Moving a transaction to another account *)
Definition overage (n : Z) : Z := if n <=? MaxImageBytesPerAccount then 0 else sub64 n MaxImageBytesPerAccount.

Definition checkImageAccountMoveQuota (t : Z) (oldAccount newAccount : string) : op unit :=
  if bool_decide (oldAccount = newAccount) then mret tt
  else
    db ← gets id;
    let transactionBytes := tx_image_bytes db t in
    let oldAfter := account_image_bytes db oldAccount in
    let newAfter := account_image_bytes db newAccount in
    require (negb ((transactionBytes <? 0) || (oldAfter >? sub64 MaxInt64 transactionBytes)
                   || (newAfter <? transactionBytes))) (EImage EImageUsage);;
    let beforeOld := overage (add64 oldAfter transactionBytes) in
    let beforeNew := overage (sub64 newAfter transactionBytes) in
    let afterOld := overage oldAfter in
    let afterNew := overage newAfter in
    require (negb ((beforeOld >? sub64 MaxInt64 beforeNew) || (afterOld >? sub64 MaxInt64 afterNew))) (EImage EImageUsage);;
    require (negb (add64 afterOld afterNew >? add64 beforeOld beforeNew)) (EImage EImageMove).

(** * The service check and the trigger agree *)
Definition images_wf (db : ledger) : Prop :=
  0 <= img_seq db ∧
  (∀ n r, images db !! n = Some r → 1 <= n <= img_seq db ∧ is_Some (transactions db !! img_tx r)) ∧
  (∀ n r, image_archive db !! n = Some r → is_Some (transactions db !! img_tx r)).

(** What preparation guarantees of an image (see [prepareTransactionImages_sound]). *)
Definition prepared_ok (i : preparedTransactionImage) : Prop := 0 < zlen (pi_data i) <= MaxImageBytes.

Definition stored (now t : Z) (i : preparedTransactionImage) (db : ledger) : ledger :=
  set_images (<[img_seq db + 1 := ImgRow t (pi_filename i) (pi_data i) (pi_mime i) now]> (images db)) (img_seq db + 1) db.

Definition stored_all (now t : Z) (imgs : list preparedTransactionImage) (db : ledger) : ledger :=
  foldl (λ db i, stored now t i db) db imgs.

Lemma images_fresh db : images_wf db → images db !! (img_seq db + 1) = None.
Proof.
  intros (_ & Hw & _). destruct (images db !! _) as [r|] eqn:E; [|done]. apply Hw in E. lia.
Qed.

Lemma img_sum_stored P `{!∀ r, Decision (P r)} f now t i db :
  images_wf db →
  let row := ImgRow t (pi_filename i) (pi_data i) (pi_mime i) now in
  img_sum P f (stored now t i db) = img_sum P f db + if decide (P row) then f row else 0.
Proof. intros Hw row. unfold img_sum, stored. cbn. rewrite msum_insert by by apply images_fresh. fold row. lia. Qed.

Lemma images_wf_stored now t i db :
  images_wf db → is_Some (transactions db !! t) → images_wf (stored now t i db).
Proof.
  intros (Hs & Hw & Ha) Ht. split; [cbn; lia|]. split; [|done].
  intros n r Hn. cbn in Hn |- *. apply lookup_insert_Some in Hn as [[<- <-]|[_ Hr]]; [split; [lia|done]|].
  apply Hw in Hr as [? ?]. split; [lia|done].
Qed.

Lemma tx_image_count_stored now t i db : images_wf db → tx_image_count (stored now t i db) t = tx_image_count db t + 1.
Proof. intros Hw. unfold tx_image_count. rewrite img_sum_stored by done. by rewrite decide_True. Qed.

Lemma tx_image_bytes_stored now t i db :
  images_wf db → tx_image_bytes (stored now t i db) t = tx_image_bytes db t + zlen (pi_data i).
Proof. intros Hw. unfold tx_image_bytes. rewrite img_sum_stored by done. by rewrite decide_True. Qed.

Lemma account_image_bytes_stored now t i db acc :
  images_wf db → account_of db t = Some acc →
  account_image_bytes (stored now t i db) acc = account_image_bytes db acc + zlen (pi_data i).
Proof.
  intros Hw Ha. unfold account_image_bytes.
  rewrite (img_sum_stored (λ r, account_of db (img_tx r) = Some acc)) by done. by rewrite decide_True.
Qed.

Lemma database_image_bytes_stored now t i db :
  images_wf db → database_image_bytes (stored now t i db) = database_image_bytes db + zlen (pi_data i).
Proof. intros Hw. unfold database_image_bytes. rewrite img_sum_stored by done. by rewrite decide_True. Qed.

(** What the service demands before storing [imgs]. *)
Definition quota_fits (db : ledger) (t : Z) (acc : string) (imgs : list preparedTransactionImage) : Prop :=
  tx_image_count db t + Z.of_nat (length imgs) <= MaxImagesPerTransaction ∧
  tx_image_bytes db t + added_bytes imgs <= MaxImageBytesPerTransaction ∧
  account_image_bytes db acc + added_bytes imgs <= MaxImageBytesPerAccount ∧
  database_image_bytes db + added_bytes imgs <= MaxImageBytesDatabase.
#[global] Instance quota_fits_dec db t acc imgs : Decision (quota_fits db t acc imgs).
Proof. unfold quota_fits. apply _. Defined.

Lemma added_bytes_cons i imgs : added_bytes (i :: imgs) = zlen (pi_data i) + added_bytes imgs.
Proof. done. Qed.

Lemma added_bytes_nonneg imgs : 0 <= added_bytes imgs.
Proof. induction imgs as [|i imgs IH]; [done|]. rewrite added_bytes_cons. pose proof (zlen_nonneg (pi_data i)). lia. Qed.

Lemma insert_image_fits now t acc i imgs db :
  images_wf db → account_of db t = Some acc → prepared_ok i → img_seq db < MaxInt64 →
  quota_fits db t acc (i :: imgs) →
  insertPreparedTransactionImage now t i db = (Ok (img_seq db + 1), stored now t i db) ∧
  quota_fits (stored now t i db) t acc imgs.
Proof.
  intros Hw Ha [Hi1 Hi2] Hseq (H1 & H2 & H3 & H4). rewrite added_bytes_cons in *. cbn [length] in H1.
  pose proof (added_bytes_nonneg imgs). split.
  - unfold insertPreparedTransactionImage. rewrite (bind_run_Ok _ _ _ db db) by done.
    assert (is_Some (transactions db !! t)) as Ht.
    { unfold account_of in Ha. destruct (transactions db !! t); [by eexists|done]. }
    rewrite (bool_decide_eq_true_2 _ Ht). unfold image_trigger. rewrite Ha. cbn [fmap option_fmap option_map default]. unfold id.
    repeat match goal with |- context [?a <=? ?b] => rewrite (proj2 (Z.leb_gt a b)) by lia end.
    repeat match goal with |- context [?a >? ?b] => destruct (Z.gtb_spec a b); [lia|] end.
    destruct (_ >=? _) eqn:E; [lia|]. unfold next_id. destruct (img_seq db >=? MaxInt64) eqn:E2; [lia|]. done.
  - unfold quota_fits. rewrite tx_image_count_stored, tx_image_bytes_stored, database_image_bytes_stored by done.
    rewrite (account_image_bytes_stored _ _ _ _ acc) by done. lia.
Qed.

Lemma insert_images_run now t acc imgs : ∀ db,
  images_wf db → account_of db t = Some acc → Forall prepared_ok imgs →
  img_seq db + Z.of_nat (length imgs) <= MaxInt64 → quota_fits db t acc imgs →
  for_each (λ i, insertPreparedTransactionImage now t i;; mret tt) imgs db = (Ok tt, stored_all now t imgs db) ∧
  images_wf (stored_all now t imgs db) ∧ quota_fits (stored_all now t imgs db) t acc [].
Proof.
  induction imgs as [|i imgs IH]; intros db Hw Ha Hp Hseq Hq; [done|].
  apply Forall_cons in Hp as [Hi Hp]. cbn [length] in Hseq.
  destruct (insert_image_fits now t acc i imgs db) as [Hrun Hq']; try done; [lia|]. cbn [for_each].
  rewrite (bind_run_Ok _ _ _ tt (stored now t i db)).
  2: { by rewrite (bind_run_Ok _ _ _ _ _ Hrun). }
  apply IH; try done; [|cbn; lia]. apply images_wf_stored; [done|].
  unfold account_of in Ha. destruct (transactions db !! t); [by eexists|done].
Qed.

Lemma checkImageStorageQuota_run t r imgs db :
  transactions db !! t = Some r → imgs ≠ [] →
  (quota_fits db t (tx_account r) imgs ∧ checkImageStorageQuota t imgs db = (Ok tt, db)) ∨
  (¬ quota_fits db t (tx_account r) imgs ∧ ∃ e, checkImageStorageQuota t imgs db = (Err (EImage e), db)).
Proof.
  intros Hr Hne. unfold checkImageStorageQuota. rewrite (bind_run_Ok _ _ _ db db) by done. unfold id. rewrite Hr.
  destruct imgs as [|i imgs]; [done|]. unfold quota_fits. cbn [length Nat.ltb Nat.leb].
  unfold require, lift, ensure, mbind, stm_bind.
  repeat match goal with |- context [negb (?a >? ?b)] => destruct (Z.gtb_spec a b); cbn [negb] end;
    first [left; split; [lia|done] | right; split; [lia|by eexists]].
Qed.

(** Image quotas: for a transaction that exists and images as preparation
    produces them, storing succeeds exactly when the per-transaction count and
    byte limits, the account limit and the database limit all hold for the total
    after the upload; then every image is stored under a fresh id (the quota
    trigger of the schema never fires after the service check), the totals are
    within the limits, and references stay valid. Otherwise the call fails and
    stores nothing. *)
Theorem image_quota_exact now t r imgs db :
  images_wf db → transactions db !! t = Some r → imgs ≠ [] → Forall prepared_ok imgs →
  img_seq db + Z.of_nat (length imgs) <= MaxInt64 →
  if decide (quota_fits db t (tx_account r) imgs) then
    let db' := stored_all now t imgs db in
    insertPreparedTransactionImages now t imgs db = (Ok tt, db') ∧
    images_wf db' ∧ quota_fits db' t (tx_account r) []
  else ∃ e, insertPreparedTransactionImages now t imgs db = (Err (EImage e), db).
Proof.
  intros Hw Hr Hne Hp Hseq. unfold insertPreparedTransactionImages. rewrite bool_decide_eq_false_2 by done.
  destruct (checkImageStorageQuota_run t r imgs db Hr Hne) as [[Hq Hrun]|[Hq [e Hrun]]].
  - rewrite decide_True by done. cbv zeta. rewrite (bind_run_Ok _ _ _ _ _ Hrun).
    apply insert_images_run; try done. unfold account_of. by rewrite Hr.
  - rewrite decide_False by done. exists e. unfold mbind, stm_bind. by rewrite Hrun.
Qed.

Definition demo_image : preparedTransactionImage := Prepared "a.png" "image/png" demo_png.

Definition demo_tx1 : ledger :=
  set_transactions {[1 := TxRow "bank" 0 "shop" "expense" 500 0 ""]} (set_tx_seq 1 empty_ledger).

Lemma image_quota_exact_witness :
  images_wf demo_tx1 ∧ insertPreparedTransactionImages 7 1 [demo_image] demo_tx1 =
    (Ok tt, stored_all 7 1 [demo_image] demo_tx1).
Proof.
  assert (images_wf demo_tx1) as Hw by (split; [done|]; split; intros n r H; by destruct (lookup_empty_Some _ _ H)).
  split; [exact Hw|].
  refine (proj1 (image_quota_exact 7 1 (TxRow "bank" 0 "shop" "expense" 500 0 "") [demo_image] demo_tx1 Hw _ _ _ _)).
  - reflexivity.
  - discriminate.
  - apply Forall_cons. split; [split; vm_compute; done|constructor].
  - vm_compute. discriminate.
Defined.

(** * Strict Base64 *)
#[local] Ltac Zify.zify_post_hook ::= Z.to_euclidean_division_equations.

Lemma b64_value_char v : 0 <= v < 64 → b64_value (b64_char v) = Some v.
Proof. intros Hv. unfold b64_char, b64_value, between. repeat case_match; try lia; f_equal; lia. Qed.

Lemma b64_char_pad v : 0 <= v < 64 → (b64_char v =? 61) = false.
Proof. intros Hv. unfold b64_char. repeat case_match; lia. Qed.

Lemma b64_char_value c v : b64_value c = Some v → c = b64_char v ∧ 0 <= v < 64.
Proof. unfold b64_char, b64_value, between. intros H. repeat case_match; simplify_eq; lia. Qed.

Lemma list_ind3 (P : list Z → Prop) :
  P [] → (∀ x, P [x]) → (∀ x y, P [x; y]) → (∀ x y z l, P l → P (x :: y :: z :: l)) → ∀ l, P l.
Proof.
  intros H0 H1 H2 H3 l. assert (P l ∧ (∀ x, P (x :: l)) ∧ (∀ x y, P (x :: y :: l))) as [? _]; [|done].
  induction l as [|z l (IH0 & IH1 & IH2)]; [done|]. split; [done|]. split; [done|]. auto.
Qed.

Lemma b64_encode_decode data : Forall is_byte data → b64_decode (b64_encode data) = Some data.
Proof.
  induction data as [|x|x y|x y z l IH] using list_ind3; intros Hb; [done| | |];
    rewrite ?Forall_cons in Hb; unfold is_byte in Hb; cbn [b64_encode b64_decode];
    rewrite !b64_value_char by lia; cbn.
  - rewrite (proj2 (Z.eqb_eq _ 0)) by lia. cbn. do 2 f_equal. lia.
  - rewrite b64_char_pad by lia. rewrite (proj2 (Z.eqb_eq _ 0)) by lia. cbn.
    do 2 f_equal; [lia|f_equal; lia].
  - rewrite !b64_char_pad by lia. rewrite IH by tauto. cbn.
    do 2 f_equal; [lia|]. f_equal; [lia|]. f_equal. lia.
Qed.

Lemma b64_decode_encode n : ∀ l data, (length l <= n)%nat → b64_decode l = Some data → l = b64_encode data ∧ Forall is_byte data.
Proof.
  induction n as [|n IH]; intros l data Hn.
  { destruct l; [|cbn in Hn; lia]. intros [= <-]. by split. }
  destruct l as [|a [|b [|c [|d rest]]]]; try done; [intros [= <-]; by split|]. cbn [b64_decode].
  destruct (b64_value a) as [va|] eqn:Ha; [|done]. destruct (b64_value b) as [vb|] eqn:Hb; [|done]. cbn.
  apply b64_char_value in Ha as [-> Ha], Hb as [-> Hb]. destruct (c =? 61) eqn:Ec.
  { destruct (d =? 61) eqn:Ed; [|done]. case_bool_decide as Hr; [|done]. destruct (vb mod 16 =? 0) eqn:Ev; [|done].
    cbn. intros [= <-]. subst rest. assert (c = 61) as -> by lia. assert (d = 61) as -> by lia. cbn. split.
    - f_equal; [f_equal; lia|]. f_equal. f_equal. lia.
    - apply Forall_singleton. unfold is_byte. lia. }
  destruct (b64_value c) as [vc|] eqn:Hc; [|done]. cbn. apply b64_char_value in Hc as [-> Hc]. destruct (d =? 61) eqn:Ed.
  { case_bool_decide as Hr; [|done]. destruct (vc mod 4 =? 0) eqn:Ev; [|done].
    cbn. intros [= <-]. subst rest. assert (d = 61) as -> by lia. cbn. split.
    - f_equal; [f_equal; lia|]. f_equal; [f_equal; lia|]. f_equal. f_equal. lia.
    - rewrite !Forall_cons. unfold is_byte. split; [lia|]. split; [lia|constructor]. }
  destruct (b64_value d) as [vd|] eqn:Hd; [|done]. cbn. apply b64_char_value in Hd as [-> Hd].
  destruct (b64_decode rest) as [bs|] eqn:Hrest; [|done]. cbn. intros [= <-]. cbn in Hn.
  destruct (IH rest bs ltac:(lia) Hrest) as [-> Hbs]. cbn. split.
  - f_equal; [f_equal; lia|]. f_equal; [f_equal; lia|]. f_equal; [f_equal; lia|]. f_equal. f_equal. lia.
  - rewrite !Forall_cons. unfold is_byte. split; [lia|]. split; [lia|]. split; [lia|done].
Qed.

(** Strict Base64: a text decodes to some bytes exactly when it is the
    canonical encoding of those bytes, so an upload has one accepted text per
    content and the data URL the service returns decodes back to the stored bytes. *)
Lemma base64_canonical l data :
  b64_decode l = Some data ↔ Forall is_byte data ∧ l = b64_encode data.
Proof.
  split; [intros H; destruct (b64_decode_encode _ l data (le_n _) H); done|].
  intros [Hb ->]. by apply b64_encode_decode.
Qed.

Section Raw.
Context (char : Z → Z) (value : Z → option Z).
Context (Hvalue : ∀ v, 0 <= v < 64 → value (char v) = Some v) (Hchar : ∀ v, 0 <= v < 64 → 43 <= char v <= 122).

Lemma raw_encode_decode strict data : Forall is_byte data → raw_decode value strict (raw_encode char data) = Some data.
Proof.
  induction data as [|x|x y|x y z l IH] using list_ind3; intros Hb; [done| | |];
    rewrite ?Forall_cons in Hb; unfold is_byte in Hb; cbn [raw_encode raw_decode].
  - rewrite !Hvalue by lia. cbn. rewrite (proj2 (Z.eqb_eq _ 0)) by lia. rewrite andb_false_r. do 2 f_equal. lia.
  - rewrite !Hvalue by lia. cbn. rewrite (proj2 (Z.eqb_eq _ 0)) by lia. rewrite andb_false_r. do 2 f_equal; [lia|f_equal; lia].
  - rewrite !Hvalue by lia. cbn [mbind option_bind]. rewrite IH by tauto. cbn.
    do 2 f_equal; [lia|]. f_equal; [lia|]. f_equal. lia.
Qed.

Lemma raw_encode_range data : Forall is_byte data → Forall (λ c, 43 <= c <= 122) (raw_encode char data).
Proof.
  induction data as [|x|x y|x y z l IH] using list_ind3; intros Hb; [constructor| | |];
    rewrite ?Forall_cons in Hb; unfold is_byte in Hb; cbn [raw_encode]; repeat (constructor; [apply Hchar; lia|]); [constructor..|].
  apply IH. tauto.
Qed.

Lemma raw_encode_length data : (length (raw_encode char data) <= 2 * length data)%nat.
Proof. clear. induction data as [|x|x y|x y z l IH] using list_ind3; cbn [raw_encode length] in *; lia. Qed.

Lemma raw_string_roundtrip strict data : Forall is_byte data → raw_decode_string value strict (raw_encode char data) = Some data.
Proof.
  intros Hb. unfold raw_decode_string.
  assert (filter (λ c, c ≠ 10 ∧ c ≠ 13) (raw_encode char data) = raw_encode char data) as ->; [|by apply raw_encode_decode].
  pose proof (raw_encode_range data Hb) as Hr. induction Hr as [|c l Hc _ IH]; [done|]. rewrite filter_cons_True by lia. f_equal. exact IH.
Qed.
End Raw.

Section Url.
#[local] Ltac Zify.zify_post_hook ::= Z.to_euclidean_division_equations.

Lemma url_value_char v : 0 <= v < 64 → url_value (url_char v) = Some v.
Proof.
  intros Hv. unfold url_char, url_value, b64_char, b64_value, between. repeat case_match; try lia; f_equal; lia.
Qed.
Lemma url_char_range v : 0 <= v < 64 → 43 <= url_char v <= 122.
Proof. intros Hv. unfold url_char, b64_char. repeat case_match; lia. Qed.
End Url.

(** * What preparation guarantees *)
Lemma validateImageDimensions_Ok w h :
  validateImageDimensions w h = Ok tt ↔ 0 < w ∧ 0 < h ∧ w * h <= MaxImagePixels.
Proof.
  unfold validateImageDimensions. destruct (_ || _) eqn:E1; [split; [done|lia]|].
  assert (0 < w ∧ 0 < h) as [Hw Hh] by lia. rewrite Z.quot_div_nonneg by (unfold MaxImagePixels; lia).
  destruct (w >? MaxImagePixels / h) eqn:E2.
  - split; [done|]. intros (_ & _ & H). assert (w <= MaxImagePixels / h) by (apply Z.div_le_lower_bound; lia). lia.
  - split; [|done]. intros _. split; [done|]. split; [done|].
    assert (w <= MaxImagePixels / h) as Hle by lia. pose proof (Z.mul_div_le MaxImagePixels h Hh). nia.
Qed.

(** A file name that is safe to store and to show. *)
Definition safe_filename (f : string) : Prop :=
  f ≠ "" ∧ f ≠ "." ∧ f ≠ ".." ∧ ValidString f = true ∧ len f <= maxImageFilenameBytes ∧
  (slash ∉ bytes f) ∧ (backslash ∉ bytes f) ∧ Forall (λ r, IsControl r = false) (runes f).

Lemma existsb_false {A} (p : A → bool) l : existsb p l = false → Forall (λ x, p x = false) l.
Proof. induction l as [|x l IH]; cbn; [done|]. intros [? ?]%orb_false_elim. apply Forall_cons. auto. Qed.

Lemma validateImageFilename_Ok f : validateImageFilename f = Ok tt → safe_filename f.
Proof.
  unfold validateImageFilename. destruct (bool_decide (f = "") || _ || _) eqn:E1; [done|].
  destruct (negb (ValidString f) || _) eqn:E2; [done|].
  destruct (existsb _ (bytes f)) eqn:E3; [done|]. destruct (existsb IsControl (runes f)) eqn:E4; [done|]. intros _.
  apply orb_false_elim in E1 as [[E1a E1b]%orb_false_elim E1c]. apply orb_false_elim in E2 as [E2a E2b].
  apply existsb_false in E3, E4. rewrite Forall_forall in E3. apply negb_false_iff in E2a. split_bools.
  assert (∀ b, b = slash ∨ b = backslash → b ∉ bytes f) as Hs.
  { intros b Hb Hin. specialize (E3 b Hin). cbn in E3. destruct Hb; subst; lia. }
  split_and!; try done; [lia|apply Hs; by left|apply Hs; by right].
Qed.

Section Sound.
Context (DecodeConfig Decode : list Z → option (Z * Z * string)).

Definition image_ok (i : preparedTransactionImage) : Prop :=
  safe_filename (pi_filename i) ∧ prepared_ok i ∧
  DetectContentType (pi_data i) = pi_mime i ∧ validateImageContainer (pi_mime i) (pi_data i) = Ok tt ∧
  ∃ w h, Decode (pi_data i) = Some (w, h, imageFormatByMIME (pi_mime i)) ∧ 0 < w ∧ 0 < h ∧ w * h <= MaxImagePixels.

Lemma validateDecoded_Ok f m data i :
  validateDecodedTransactionImage DecodeConfig Decode f m data = Ok i → safe_filename f → image_ok i.
Proof.
  unfold validateDecodedTransactionImage. destruct (_ =? 0) eqn:E0; [done|]. destruct (_ >? _) eqn:E1; [done|].
  destruct (bool_decide (DetectContentType data = m)) eqn:Ed; [|done]. cbn [negb]. split_bools.
  intros ([] & Hc & H)%res_bind_Ok_inv Hf. destruct (DecodeConfig data) as [[[w h] fmt]|]; [|done].
  destruct (negb _); [done|]. apply res_bind_Ok_inv in H as (_ & _ & H).
  destruct (Decode data) as [[[w' h'] fmt']|] eqn:Hd; [|done]. destruct (negb _) eqn:Ef; [done|].
  apply negb_false_iff, bool_decide_eq_true in Ef. subst fmt'.
  apply res_bind_Ok_inv in H as ([] & Hdim & [= <-]). apply validateImageDimensions_Ok in Hdim as (? & ? & ?).
  split; [done|]. split; [pose proof (zlen_nonneg data); unfold prepared_ok; cbn; lia|]. split; [done|].
  split; [done|]. cbn. eauto 10.
Qed.

Lemma prepareTransactionImage_Ok r i : prepareTransactionImage DecodeConfig Decode r = Ok i → image_ok i.
Proof.
  unfold prepareTransactionImage. intros ([f m] & Hm & H)%res_bind_Ok_inv. cbv zeta in H.
  destruct (_ || _) in H; [done|]. destruct (_ >? _) in H; [done|]. destruct (b64_decode _) as [data|] in H; [|done].
  destruct (_ =? 0) in H; [done|]. destruct (_ >? _) in H; [done|]. eapply validateDecoded_Ok; [done|].
  unfold normalizeImageMetadata in Hm. apply res_bind_Ok_inv in Hm as ([] & Hf & Hm).
  destruct (mime_by_extension _); [|done]. destruct (_ || _) in Hm; [|done]. injection Hm as <- _.
  by apply validateImageFilename_Ok.
Qed.

Lemma prepare_loop_Ok total rs imgs :
  total <= MaxImageBytesPerTransaction → prepare_loop DecodeConfig Decode total rs = Ok imgs →
  length imgs = length rs ∧ total + added_bytes imgs <= MaxImageBytesPerTransaction ∧ Forall image_ok imgs.
Proof.
  revert total imgs. induction rs as [|r rs IH]; intros total imgs Ht; cbn.
  { intros [= <-]. cbn. split; [done|]. split; [unfold added_bytes; cbn; lia|constructor]. }
  intros (i & Hi & H)%res_bind_Ok_inv. destruct (_ >? _) eqn:E; [done|].
  apply res_bind_Ok_inv in H as (rest & Hrest & [= <-]). apply IH in Hrest as (Hl & Hb & Hf); [|lia].
  split; [cbn; lia|]. rewrite added_bytes_cons. split; [lia|]. apply Forall_cons.
  split; [by eapply prepareTransactionImage_Ok|done].
Qed.

(** Upload safety, whatever the pixel decoders are: when an upload is
    accepted there are at most ten images of at most 20 MiB together, and each
    has a file name without path separators or control characters, between one
    byte and 5 MiB of data whose sniffed type, container and decoder agree with
    the declared type, and a decoded size of at most 20 million pixels. *)
Theorem prepareTransactionImages_sound requests imgs :
  prepareTransactionImages DecodeConfig Decode requests = Ok imgs →
  length imgs = length requests ∧ Z.of_nat (length imgs) <= MaxImagesPerTransaction ∧
  added_bytes imgs <= MaxImageBytesPerTransaction ∧ Forall image_ok imgs.
Proof.
  unfold prepareTransactionImages. destruct (_ >? _) eqn:E; [done|].
  intros (Hl & Hb & Hf)%prepare_loop_Ok; [|done]. rewrite Hl. split; [done|]. split; [lia|]. split; [lia|done].
Qed.
End Sound.

Lemma prepareTransactionImages_sound_witness :
  let decoder := λ _ : list Z, Some (2, 3, "png") in
  let requests := [ImageRequest " receipt.PNG " (of_bytes (b64_encode demo_png)) ""] in
  prepareTransactionImages decoder decoder requests = Ok [Prepared "receipt.PNG" "image/png" demo_png] ∧
  Forall (image_ok decoder) [Prepared "receipt.PNG" "image/png" demo_png].
Proof.
  intros decoder requests.
  assert (prepareTransactionImages decoder decoder requests = Ok [Prepared "receipt.PNG" "image/png" demo_png]) as H
    by (vm_compute; reflexivity).
  split; [exact H|]. exact (proj2 (proj2 (proj2 (prepareTransactionImages_sound decoder decoder requests _ H)))).
Defined.
