(* ===== verification/LedgerOps.v ===== *)
(** Transactions of the core service ([core/service.go]): validation, insertion,
    update and deletion, each composed of the tag, image, balance and link steps
    in the order of the source and run in one SQL transaction. *)
From Stdlib Require Import ZArith Lia.
From stdpp Require Import base gmap list strings sorting.
From S2P Require Import Prelude GoText Validation Settings GoTime ImageContainers Schema Balance Tags Links Images.

Open Scope Z_scope.

Definition validateTransactionData (req : TransactionRequest) : res lerr unit :=
  let text label value maxBytes required :=
    match ValidateLedgerText label value maxBytes required with Ok _ => Ok tt | Err e => Err (EV e) end in
  text "口座名" (req_account req) MaxAccountBytes true ≫= λ _,
  text "項目" (req_item req) MaxItemBytes true ≫= λ _,
  text "メモ" (req_memo req) MaxMemoBytes false ≫= λ _,
  text "種別" (req_type req) 32 true ≫= λ _,
  if negb (bool_decide (req_type req = "income")) && negb (bool_decide (req_type req = "expense")) then Err EType
  else match ValidateTransactionAmount (req_amount req) with Ok _ => Ok tt | Err e => Err (EV e) end.

(** The read-back of a row, with the archived amount when there is one. *)
Definition response_of (db : ledger) (n : Z) (r : txrow) : TransactionResponse :=
  Response n (tx_account r) (tx_date r) (tx_item r) (tx_type r) (effective_amount db n r) (tx_balance r) (tx_memo r) [].

Definition read_back (n : Z) : op TransactionResponse :=
  r ← select_transaction n;
  db ← gets id;
  mret (response_of db n r).

Definition with_tags (tags : list Tag) (r : TransactionResponse) : TransactionResponse :=
  Response (resp_id r) (resp_account r) (resp_date r) (resp_item r) (resp_type r) (resp_amount r)
    (resp_balance r) (resp_memo r) tags.

Record preparedTransactionInsert := PreparedInsert {
  pt_request : TransactionRequest;
  pt_date : Z;
  pt_images : list preparedTransactionImage
}.

(** Operations that only an update may carry. *)
Definition update_only (req : TransactionRequest) : bool :=
  negb (bool_decide (req_delete_images req = [])) || negb (bool_decide (req_link_add req = []))
  || negb (bool_decide (req_link_remove req = [])).

Section Transactions.
(** The pixel decoders, and the time at which the call runs. *)
Context (DecodeConfig Decode : list Z → option (Z * Z * string)) (now : Z).

Definition prepare_parts (req : TransactionRequest) : op (Z * list preparedTransactionImage) :=
  date ← liftd (parseTransactionDate (req_date req) (req_time req));
  lift (validateTransactionData req);;
  imgs ← lifti (prepareTransactionImages DecodeConfig Decode (req_images req));
  mret (date, imgs).

Definition prepareTransactionInsert (req : TransactionRequest) : op preparedTransactionInsert :=
  '(date, imgs) ← prepare_parts req;
  mret (PreparedInsert req date imgs).

Definition addPreparedTransactionIn (prepared : preparedTransactionInsert) : op TransactionResponse :=
  let req := pt_request prepared in
  tagIDs ← resolveTransactionTagIDsIn (req_tags req) (req_new_tag_paths req);
  n ← insert_transaction (TxRow (req_account req) (pt_date prepared) (req_item req) (req_type req)
                            (req_amount req) 0 (req_memo req));
  insertPreparedTransactionImages now n (pt_images prepared);;
  for_each (insert_transaction_tag n) tagIDs;;
  recalculateBalanceIn (req_account req);;
  read_back n.

Definition AddTransaction (req : TransactionRequest) : op TransactionResponse :=
  require (negb (update_only req)) EUpdateOnly;;
  prepared ← prepareTransactionInsert req;
  resp ← transactional (addPreparedTransactionIn prepared);
  tags ← GetTransactionTags (resp_id resp);
  mret (with_tags tags resp).

(** [DELETE FROM transaction_archive_amounts WHERE transaction_id = ?] *)
Definition drop_archive_amount (n : Z) : op unit :=
  modify (λ db, set_archive_amounts (delete n (archive_amounts db)) db).

Definition is_move (old : txrow) (req : TransactionRequest) : bool :=
  negb (bool_decide (tx_account old = req_account req)).

(** The statements on the row, its images and its labels. *)
Definition update_rows (n : Z) (old : txrow) (req : TransactionRequest) (date : Z)
    (imgs : list preparedTransactionImage) (tagIDs : list Z) : op unit :=
  update_transaction n (req_account req) date (req_item req) (req_type req) (req_amount req) (req_memo req);;
  drop_archive_amount n;;
  deleteTransactionImagesIn n (req_delete_images req);;
  insertPreparedTransactionImages now n imgs;;
  (if is_move old req && bool_decide (imgs = [])
   then checkImageAccountMoveQuota n (tx_account old) (req_account req) else mret tt);;
  delete_transaction_tags n;;
  for_each (insert_transaction_tag n) tagIDs.

Definition recalculate_accounts (moved : bool) (new old : string) : op unit :=
  recalculateBalanceIn new;;
  if moved then recalculateBalanceIn old else mret tt.

(** The link changes, the pruning and, for a move, the assignment check. *)
Definition update_links (n : Z) (req : TransactionRequest) (moved : bool)
    (previousAssignments : cardBankAssignments) : op unit :=
  db ← gets id;
  let s := loadLedgerSettingsIn db in
  applyTransactionLinkChangesIn n (req_link_add req) (req_link_remove req) s;;
  pruneInvalidTransactionLinksIn s;;
  if moved then validateCardBankAssignmentChanges s previousAssignments else mret tt.

Definition updatePreparedTransactionIn (n : Z) (req : TransactionRequest) (date : Z)
    (imgs : list preparedTransactionImage) : op TransactionResponse :=
  tagIDs ← resolveTransactionTagIDsIn (req_tags req) (req_new_tag_paths req);
  old ← select_transaction n;
  db ← gets id;
  let previousAssignments :=
    if is_move old req then readCardBankAssignments (loadLedgerSettingsIn db) 0 db else ∅ in
  update_rows n old req date imgs tagIDs;;
  recalculate_accounts (is_move old req) (req_account req) (tx_account old);;
  resp ← read_back n;
  update_links n req (is_move old req) previousAssignments;;
  mret resp.

Definition UpdateTransaction (n : Z) (req : TransactionRequest) : op TransactionResponse :=
  '(date, imgs) ← prepare_parts req;
  resp ← transactional (updatePreparedTransactionIn n req date imgs);
  tags ← GetTransactionTags n;
  mret (with_tags tags resp).
End Transactions.

Definition DeleteTransaction (n : Z) : op unit :=
  transactional (
    r ← select_transaction n;
    delete_transaction n;;
    recalculateBalanceIn (tx_account r)).

(** * The ledger invariant *)
Definition tx_wf (db : ledger) : Prop :=
  0 <= tx_seq db ∧
  (∀ n r, transactions db !! n = Some r →
     1 <= n <= tx_seq db ∧ tx_type_ok (tx_type r) = true ∧ tx_amount_ok (tx_amount r) = true) ∧
  (∀ n a, archive_amounts db !! n = Some a →
     MaxTransactionAmount < a <= MaxInt64 ∧ is_Some (transactions db !! n)).

(** Rows are well formed, every stored balance is the sum of its account up to
    that row, the tag forest, the links and the images are consistent. *)
Definition ledger_wf (db : ledger) : Prop :=
  tx_wf db ∧ (∀ acc, balanced db acc) ∧ tags_wf db ∧ links_wf db ∧ images_wf db.

Lemma tx_wf_amounts db : tx_wf db → amounts_int64 db.
Proof.
  intros (_ & Hr & Ha) n r Hn. apply Hr in Hn as (_ & _ & Hok). unfold tx_amount_ok, MaxTransactionAmount in Hok.
  unfold effective_amount. destruct (archive_amounts db !! n) as [a|] eqn:E; cbn.
  - apply Ha in E as [E _]. unfold MaxTransactionAmount in E. lia.
  - unfold MaxInt64. lia.
Qed.

(** * Frames

    Each part of the invariant reads a few tables; these lemmas carry it over a
    statement that leaves them alone, or that only adds transactions. *)
Definition tx_kept (db db' : ledger) : Prop :=
  ∀ n, is_Some (transactions db !! n) → is_Some (transactions db' !! n).

Lemma tags_wf_frame db db' :
  tx_kept db db' → tags db' = tags db → tag_seq db' = tag_seq db → transaction_tags db' ⊆ transaction_tags db →
  tags_wf db → tags_wf db'.
Proof.
  intros Hk Ht Hs Hl (Hseq & Hf & Hlab). unfold tags_wf, labels_wf. rewrite Ht, Hs. split; [done|]. split; [done|].
  intros t g Hin%Hl. destruct (Hlab t g Hin). auto.
Qed.

Lemma links_wf_frame db db' : tx_kept db db' → links db' ⊆ links db → links_wf db → links_wf db'.
Proof. intros Hk Hl Hw p c Hin%Hl. destruct (Hw p c Hin) as (? & ? & ?). auto. Qed.

Lemma images_wf_frame db db' :
  tx_kept db db' → img_seq db' = img_seq db → images db' ⊆ images db → image_archive db' ⊆ image_archive db →
  images_wf db → images_wf db'.
Proof.
  intros Hk Hs Hi Ha (Hseq & Hw & Hwa). unfold images_wf. rewrite Hs. split; [done|]. split.
  - intros n r Hn. eapply lookup_weaken in Hn; [|exact Hi]. destruct (Hw n r Hn). auto.
  - intros n r Hn. eapply lookup_weaken in Hn; [|exact Ha]. eauto.
Qed.

Lemma tx_wf_frame db db' :
  transactions db' = transactions db → tx_seq db' = tx_seq db → archive_amounts db' ⊆ archive_amounts db →
  tx_wf db → tx_wf db'.
Proof.
  intros Ht Hs Ha (Hseq & Hr & Haa). unfold tx_wf. rewrite Ht, Hs. split; [done|]. split; [done|].
  intros n a Hn. eapply lookup_weaken in Hn; [|exact Ha]. eauto.
Qed.

Lemma same_account_frame acc db db' :
  transactions db' = transactions db → archive_amounts db' = archive_amounts db → same_account acc db db'.
Proof. intros Ht Ha n r _. unfold effective_amount. by rewrite Ht, Ha. Qed.

Lemma balanced_frame acc db db' :
  transactions db' = transactions db → archive_amounts db' = archive_amounts db → balanced db acc → balanced db' acc.
Proof. intros Ht Ha. by apply balanced_same, same_account_frame. Qed.

(** The parts other than rows and balances. *)
Definition parts_wf (db : ledger) : Prop := tags_wf db ∧ links_wf db ∧ images_wf db.

(** Same rows, archived amounts and queued saves. *)
Definition rows_same (db db' : ledger) : Prop :=
  transactions db' = transactions db ∧ tx_seq db' = tx_seq db ∧ archive_amounts db' = archive_amounts db ∧
  saves db' = saves db.

#[global] Instance rows_same_refl : Reflexive rows_same.
Proof. done. Qed.
#[global] Instance rows_same_trans : Transitive rows_same.
Proof. intros db1 db2 db3 (?&?&?&?) (?&?&?&?). split_and!; congruence. Qed.

Lemma rows_same_kept db db' : rows_same db db' → tx_kept db db'.
Proof. intros (H & _) n. by rewrite H. Qed.

Lemma rows_same_tx_wf db db' : rows_same db db' → tx_wf db → tx_wf db'.
Proof. intros (? & ? & Ha & _). apply tx_wf_frame; [done|done|by rewrite Ha]. Qed.

Lemma rows_same_balanced acc db db' : rows_same db db' → balanced db acc → balanced db' acc.
Proof. intros (? & ? & ? & _). by apply balanced_frame. Qed.

(** A step that keeps the other parts consistent and the rows as they are. *)
Definition side_step (db db' : ledger) : Prop :=
  parts_wf db' ∧ rows_same db db' ∧ settings db' = settings db.

(** A step that does not touch the links either. *)
Definition quiet_step (db db' : ledger) : Prop := side_step db db' ∧ links db' = links db.

Lemma side_step_trans db1 db2 db3 : side_step db1 db2 → side_step db2 db3 → side_step db1 db3.
Proof. intros (_ & H1 & ?) (H2 & H3 & ?). split; [done|]. split; [by etransitivity|congruence]. Qed.

Lemma quiet_step_refl db : parts_wf db → quiet_step db db.
Proof. done. Qed.

Lemma quiet_step_trans db1 db2 db3 : quiet_step db1 db2 → quiet_step db2 db3 → quiet_step db1 db3.
Proof. intros [H1 ?] [H2 ?]. split; [by eapply side_step_trans|congruence]. Qed.

Lemma side_step_ledger db db' : ledger_wf db → side_step db db' → ledger_wf db'.
Proof.
  intros (Htx & Hb & _) (Hp & Hr & _). split; [by eapply rows_same_tx_wf|]. split; [|done].
  intros acc. eapply rows_same_balanced; eauto.
Qed.

(** Tag writes. *)
Lemma tags_only_step db db' : parts_wf db → tags_wf db' → tags_only db db' → quiet_step db db'.
Proof.
  intros (_ & Hl & Hi) Ht Ho. split; [|by rewrite Ho]. split; [|rewrite Ho; done]. split; [done|]. rewrite Ho.
  split; [exact Hl|exact Hi].
Qed.

Lemma tag_step_side db db' : parts_wf db → tag_step_ok db db' → quiet_step db db'.
Proof. intros Hp (Ht & Hf & _). by eapply tags_only_step, tag_frame_only. Qed.

(** Image writes. *)
Definition images_only (db db' : ledger) : Prop :=
  db' = set_image_archive (image_archive db') (set_images (images db') (img_seq db') db).

Lemma images_only_step db db' : parts_wf db → images_wf db' → images_only db db' → quiet_step db db'.
Proof.
  intros (Ht & Hl & _) Hi Ho. split; [|by rewrite Ho]. split; [|rewrite Ho; done]. split; [|split; [|done]]; rewrite Ho; [exact Ht|exact Hl].
Qed.

Lemma insertPreparedTransactionImage_wp now t i db :
  parts_wf db → wp (insertPreparedTransactionImage now t i) (λ _ db', quiet_step db db') db.
Proof.
  intros Hp. unfold insertPreparedTransactionImage. wp_auto. split_bools.
  apply images_only_step; [done| |by destruct db]. apply (images_wf_stored now t i db); [by apply Hp|done].
Qed.

Lemma checkImageStorageQuota_wp t imgs db : wp (checkImageStorageQuota t imgs) (λ _ db', db' = db) db.
Proof. unfold checkImageStorageQuota. wp_auto; done. Qed.

Lemma insertPreparedTransactionImages_wp now t imgs db :
  parts_wf db → wp (insertPreparedTransactionImages now t imgs) (λ _ db', quiet_step db db') db.
Proof.
  intros Hp. unfold insertPreparedTransactionImages. wp_step; [by wp_step|]. wp_step.
  eapply wp_mono; [apply checkImageStorageQuota_wp|]. intros _ ? ->.
  apply (wp_for_each (quiet_step db)); [done|]. intros i db' _ Hq. wp_step.
  eapply wp_mono; [apply insertPreparedTransactionImage_wp, Hq|]. intros n db2 Hs. wp_step.
  by eapply quiet_step_trans.
Qed.

Lemma delete_image_where_wp P `{!∀ r, Decision (P r)} n db :
  parts_wf db → wp (delete_image_where P n) (λ _ db', quiet_step db db') db.
Proof.
  intros Hp. unfold delete_image_where. wp_auto; (apply images_only_step; [done| |by destruct db]);
    (apply (images_wf_frame db); [by intros ?|done| | |exact (proj2 (proj2 Hp))]; cbn;
     first [apply delete_subseteq | reflexivity]).
Qed.

Lemma deleteTransactionImagesIn_wp t ids db :
  parts_wf db → wp (deleteTransactionImagesIn t ids) (λ _ db', quiet_step db db') db.
Proof.
  intros Hp. unfold deleteTransactionImagesIn. apply (wp_for_each (quiet_step db)); [done|].
  intros n db' _ Hq. do 2 wp_step. eapply wp_mono; [apply delete_image_where_wp, Hq|].
  intros ? db2 Hs. by eapply quiet_step_trans.
Qed.

Lemma checkImageAccountMoveQuota_wp t a b db : wp (checkImageAccountMoveQuota t a b) (λ _ db', db' = db) db.
Proof. unfold checkImageAccountMoveQuota. wp_auto; done. Qed.

(** Link writes: nothing but links, and no new conflict under the settings [s]. *)
Definition link_step (s : gmap string string) (db db' : ledger) : Prop :=
  side_step db db' ∧ db' = set_links (links db') db ∧
  no_new_conflict (readCardBankAssignments s 0 db) (readCardBankAssignments s 0 db').

Lemma link_step_refl s db : parts_wf db → link_step s db db.
Proof. intros Hp. split; [done|]. split; [by destruct db|done]. Qed.

Lemma link_step_trans s db1 db2 db3 : link_step s db1 db2 → link_step s db2 db3 → link_step s db1 db3.
Proof.
  intros (H1 & E1 & N1) (H2 & E2 & N2). split; [by eapply side_step_trans|]. split; [|by etransitivity].
  rewrite E2, E1. done.
Qed.

Lemma links_only_step db db' : parts_wf db → links_wf db' → db' = set_links (links db') db → side_step db db'.
Proof.
  intros (Ht & _ & Hi) Hl Ho. split; [|rewrite Ho; done]. split; [|split; [done|]]; rewrite Ho; [exact Ht|exact Hi].
Qed.

Lemma shrink_links_step s l db : parts_wf db → l ⊆ links db → link_step s db (set_links l db).
Proof.
  intros Hp Hl. split; [|split; [done|by apply set_links_same]].
  apply links_only_step; [done| |done]. apply links_wf_sub; [done|]. by destruct Hp as (_ & ? & _).
Qed.

Lemma remove_link_step_wp s t l db : parts_wf db → wp (remove_link_step t l) (λ _ db', link_step s db db') db.
Proof.
  intros Hp. unfold remove_link_step, delete_link. wp_auto. apply shrink_links_step; [done|].
  intros e [He _]%elem_of_difference. done.
Qed.

Lemma add_link_step_wp s a b db :
  parts_wf db → wp (addCardBankLinkIn (cards_of s) (banks_of s) a b) (λ _ db', link_step s db db') db.
Proof.
  intros Hp. eapply wp_mono; [apply addCardBankLinkIn_wp; by destruct Hp as (_ & ? & _)|].
  intros ? db' (Hl & Ho & Hn). split; [by apply links_only_step|done].
Qed.

Lemma applyTransactionLinkChangesIn_wp t add rem s db :
  parts_wf db → wp (applyTransactionLinkChangesIn t add rem s) (λ _ db', link_step s db db') db.
Proof.
  intros Hp. unfold applyTransactionLinkChangesIn. do 3 wp_step.
  eapply wp_mono; [apply (wp_for_each (link_step s db)); [by apply link_step_refl|]|].
  - intros l db' _ Hl. eapply wp_mono; [apply (remove_link_step_wp s), Hl|]. intros ? db2 Hs. by eapply link_step_trans.
  - intros ? db1 Hs1. apply (wp_for_each (link_step s db)); [done|]. intros l db' _ Hl.
    eapply wp_mono; [apply add_link_step_wp, Hl|]. intros ? db2 Hs. by eapply link_step_trans.
Qed.

Lemma prune_step_wp s db : parts_wf db → wp (pruneInvalidTransactionLinksIn s) (λ _ db', link_step s db db') db.
Proof. intros Hp. apply prune_wp. apply shrink_links_step; [done|]. apply filter_subseteq_gset. Qed.

(** * Rewriting balances *)
Lemma rebalance_kept acc db : tx_kept db (rebalance acc db) ∧ tx_kept (rebalance acc db) db.
Proof.
  split; intros n [r Hr].
  - eexists. apply rebalance_lookup. eauto.
  - apply rebalance_lookup in Hr as (r' & Hr' & _). by eexists.
Qed.

Lemma rebalance_parts acc db : parts_wf db → parts_wf (rebalance acc db).
Proof.
  destruct (rebalance_kept acc db) as [Hk _]. intros (Ht & Hl & Hi). split; [|split].
  - by eapply tags_wf_frame.
  - by eapply links_wf_frame.
  - by eapply images_wf_frame.
Qed.

Lemma rebalance_tx_wf acc db : tx_wf db → tx_wf (rebalance acc db).
Proof.
  intros (Hs & Hr & Ha). split; [done|]. split.
  - intros n r' (r & Hn & ->)%rebalance_lookup. destruct (Hr n r Hn) as (? & ? & ?). by case_decide.
  - intros n a Hn. destruct (Ha n a Hn) as [? ?]. split; [done|]. by apply rebalance_kept.
Qed.

Lemma recalculate_wp acc db :
  tx_wf db → wp (recalculateBalanceIn acc) (λ _ db', db' = rebalance acc db) db.
Proof.
  intros Hw. apply wp_intro. intros [] db' Hrun. eapply recalculate_Ok; [by apply tx_wf_amounts|done].
Qed.

(** Rows and parts are fine, balances are fine except for the accounts in [X],
    which the call is about to rewrite. *)
Definition wf_except (X : gset string) (db : ledger) : Prop :=
  tx_wf db ∧ parts_wf db ∧ ∀ acc, acc ∉ X → balanced db acc.

Lemma wf_except_empty db : wf_except ∅ db ↔ ledger_wf db.
Proof.
  unfold wf_except, ledger_wf, parts_wf. split; [intros (? & (? & ? & ?) & Hb)|intros (? & ? & ? & ? & ?)]; split_and!; auto.
  intros acc. apply Hb. apply not_elem_of_empty.
Qed.

Lemma wf_except_side X db db' : wf_except X db → side_step db db' → wf_except X db'.
Proof.
  intros (Htx & _ & Hb) (Hp & Hr & _). split; [by eapply rows_same_tx_wf|]. split; [done|].
  intros acc Ha. eapply rows_same_balanced; eauto.
Qed.

Lemma wf_except_rebalance X acc db : wf_except X db → wf_except (X ∖ {[acc]}) (rebalance acc db).
Proof.
  intros (Htx & Hp & Hb). split; [by apply rebalance_tx_wf|]. split; [by apply rebalance_parts|].
  intros acc' Ha. destruct (decide (acc' = acc)) as [->|Hne]; [apply rebalance_balanced|].
  apply rebalance_other; [done|]. apply Hb. set_solver.
Qed.

(** * Row statements *)
Lemma tx_fresh db : tx_wf db → transactions db !! (tx_seq db + 1) = None.
Proof. intros (_ & Hr & _). destruct (transactions db !! _) eqn:E; [|done]. apply Hr in E. lia. Qed.

Definition inserted (row : txrow) (db : ledger) : ledger :=
  set_tx_seq (tx_seq db + 1) (set_transactions (<[tx_seq db + 1 := row]> (transactions db)) db).

Lemma parts_kept db db' :
  tx_kept db db' → tags db' = tags db → tag_seq db' = tag_seq db → transaction_tags db' = transaction_tags db →
  links db' = links db → img_seq db' = img_seq db → images db' = images db → image_archive db' = image_archive db →
  parts_wf db → parts_wf db'.
Proof.
  intros Hk ? ? Ht Hl ? Hi Ha (? & ? & ?). split; [|split].
  - eapply tags_wf_frame; eauto. by rewrite Ht.
  - eapply links_wf_frame; eauto. by rewrite Hl.
  - eapply images_wf_frame; eauto; [by rewrite Hi|by rewrite Ha].
Qed.

Lemma insert_transaction_wp row db :
  ledger_wf db →
  wp (insert_transaction row) (λ n db', n = tx_seq db + 1 ∧ db' = inserted row db ∧
    tx_type_ok (tx_type row) = true ∧ tx_amount_ok (tx_amount row) = true ∧
    wf_except {[tx_account row]} db') db.
Proof.
  intros Hwf. pose proof (proj2 (wf_except_empty db) Hwf) as (Htx & Hp & Hb).
  unfold insert_transaction. wp_auto. split_bools. split; [done|]. split; [done|]. split; [done|]. split; [done|].
  pose proof (tx_fresh db Htx) as Hfresh. set (db' := set_tx_seq _ _).
  assert (tx_kept db db') as Hk.
  { intros n [r Hr]. exists r. cbn. rewrite lookup_insert_ne; [done|congruence]. }
  destruct Htx as (Hs & Hr & Ha). split; [|split].
  - split; [cbn; lia|]. split.
    + intros n r Hn. cbn in Hn |- *. apply lookup_insert_Some in Hn as [[<- <-]|[_ Hn]]; [split; [lia|done]|].
      apply Hr in Hn as (? & ? & ?). split; [lia|done].
    + intros n a Hn. destruct (Ha n a Hn). auto.
  - by apply (parts_kept db).
  - intros acc Hacc. apply (balanced_same acc db); [|apply Hb, not_elem_of_empty]. intros n r Hrow. split; [|done]. cbn.
    destruct (decide (n = tx_seq db + 1)) as [->|Hne]; [|by rewrite lookup_insert_ne].
    rewrite lookup_insert_eq, Hfresh. split; [done|]. intros [= <-]. set_solver.
Qed.

Lemma update_transaction_wp n a d i t am m db old :
  ledger_wf db → transactions db !! n = Some old →
  wp (update_transaction n a d i t am m) (λ _ db1, wp (drop_archive_amount n) (λ _ db',
    db' = set_archive_amounts (delete n (archive_amounts db))
            (set_transactions (<[n := TxRow a d i t am (tx_balance old) m]> (transactions db)) db) ∧
    tx_type_ok t = true ∧ tx_amount_ok am = true ∧
    wf_except {[tx_account old; a]} db') db1) db.
Proof.
  intros Hwf Hold. pose proof (proj2 (wf_except_empty db) Hwf) as (Htx & Hp & Hb).
  unfold update_transaction, drop_archive_amount. do 2 wp_step. rewrite Hold. wp_auto. split_bools.
  split; [done|]. split; [done|]. split; [done|].
  set (db' := set_archive_amounts _ _). set (row := TxRow a d i t am (tx_balance old) m) in *.
  assert (tx_kept db db') as Hk.
  { intros k [r Hr]. cbn. destruct (decide (k = n)) as [->|]; [rewrite lookup_insert_eq|rewrite lookup_insert_ne by done]; by eexists. }
  destruct Htx as (Hs & Hr & Ha). split; [|split].
  - split; [done|]. split.
    + intros k r Hn. cbn in Hn |- *. apply lookup_insert_Some in Hn as [[<- <-]|[_ Hn]]; [|by apply Hr].
      split; [by eapply (Hr n)|done].
    + intros k x Hn. cbn in Hn. apply lookup_delete_Some in Hn as [_ Hn]. destruct (Ha k x Hn). auto.
  - by apply (parts_kept db).
  - intros acc Hacc. apply (balanced_same acc db); [|apply Hb, not_elem_of_empty].
    intros k r Hrow. unfold effective_amount. cbn. destruct (decide (k = n)) as [->|Hne].
    + rewrite lookup_insert_eq, Hold. split; [|intros [= ->]; set_solver].
      split; intros [= <-]; cbn in Hrow; set_solver.
    + rewrite lookup_insert_ne, lookup_delete_ne by done. done.
Qed.

Lemma delete_transaction_wp n r db :
  ledger_wf db → transactions db !! n = Some r →
  wp (delete_transaction n) (λ _ db', transactions db' = delete n (transactions db) ∧ saves db' = saves db ∧
    wf_except {[tx_account r]} db') db.
Proof.
  intros Hwf Hr. pose proof (proj2 (wf_except_empty db) Hwf) as (Htx & Hp & Hb).
  unfold delete_transaction. wp_auto. set (db' := Ledger _ _ _ _ _ _ _ _ _ _ _ _). split; [done|]. split; [done|].
  destruct Htx as (Hs & Hrows & Ha), Hp as ((Hts & Hf & Hlab) & Hl & (His & Hi & Hia)).
  assert (∀ k, k ≠ n → is_Some (transactions db !! k) → is_Some (transactions db' !! k)) as Hk.
  { intros k Hne. cbn. by rewrite lookup_delete_ne. }
  split; [|split; [split; [|split]|]].
  - split; [done|]. split.
    + intros k q Hq. cbn in Hq. apply lookup_delete_Some in Hq as [_ Hq]. by apply Hrows.
    + intros k x Hx. cbn in Hx. apply lookup_delete_Some in Hx as [Hne Hx]. destruct (Ha k x Hx). auto.
  - split; [done|]. split; [done|]. intros t g Hin. unfold db' in Hin. cbn [transaction_tags] in Hin.
    apply elem_of_filter in Hin as [Ht Hin]. destruct (Hlab t g Hin). auto.
  - intros p c Hin. unfold db' in Hin. cbn [links] in Hin. apply elem_of_filter in Hin as [[Hpn Hcn] Hin]. destruct (Hl p c Hin) as (? & ? & ?). auto.
  - split; [done|]. split.
    + intros k q Hq. unfold db' in Hq. cbn [images] in Hq. apply map_lookup_filter_Some in Hq as [Hq Hne].
      destruct (Hi k q Hq). auto.
    + intros k q Hq. unfold db' in Hq. cbn [image_archive] in Hq. apply map_lookup_filter_Some in Hq as [Hq Hne].
      eauto.
  - intros acc Hacc. apply (balanced_same acc db); [|apply Hb, not_elem_of_empty].
    intros k q Hq. unfold effective_amount. cbn. destruct (decide (k = n)) as [->|Hne].
    + rewrite lookup_delete_eq, Hr. split; [|intros [= ->]; set_solver].
      split; [intros [= <-]; set_solver|done].
    + by rewrite !lookup_delete_ne.
Qed.

(** * The handlers keep the invariant *)
Lemma ledger_parts db : ledger_wf db → parts_wf db.
Proof. intros (_ & _ & ? & ? & ?). done. Qed.

Section Handlers.
Context (DecodeConfig Decode : list Z → option (Z * Z * string)) (now : Z).

Lemma read_back_wp n db (Q : TransactionResponse → ledger → Prop) :
  (∀ r, transactions db !! n = Some r → Q (response_of db n r) db) → wp (read_back n) Q db.
Proof. intros HQ. unfold read_back, select_transaction. wp_auto. auto. Qed.

(** The same row, up to the stored balance when its account is in [X]. *)
Definition row_upto (X : gset string) (r r' : txrow) : Prop :=
  ∃ b, r' = set_balance b r ∧ (tx_account r ∉ X → b = tx_balance r).

Lemma row_upto_rebalance X acc m k db :
  transactions db !! k = m →
  acc ∈ X → option_Forall2 (row_upto X) m (transactions (rebalance acc db) !! k).
Proof.
  intros <- Hacc. rewrite rebalance_lookup_eq. destruct (transactions db !! k) as [r|]; cbn; constructor.
  case_decide; [eexists; split; [done|set_solver]|]. exists (tx_balance r). split; [by destruct r|done].
Qed.

Lemma row_upto_trans X r1 r2 r3 : row_upto X r1 r2 → row_upto X r2 r3 → row_upto X r1 r3.
Proof. intros (b1 & -> & H1) (b2 & -> & H2). exists b2. split; [done|]. intros Hn.
  rewrite H2 by exact Hn. cbn. by apply H1. Qed.

(** What an insertion leaves: the row as requested, under a fresh id. *)
Definition add_post (req : TransactionRequest) (date : Z) (db : ledger) (resp : TransactionResponse) (db' : ledger) : Prop :=
  ledger_wf db' ∧ saves db' = saves db ∧ resp_id resp = tx_seq db + 1 ∧
  ∃ row, transactions db' !! resp_id resp = Some row ∧ resp = response_of db' (resp_id resp) row ∧
    row = TxRow (req_account req) date (req_item req) (req_type req) (req_amount req)
            (balance_at db' (req_account req) (resp_id resp, row)) (req_memo req) ∧
    resp_amount resp = req_amount req ∧
    (∀ k, k ≠ resp_id resp →
       option_Forall2 (row_upto {[req_account req]}) (transactions db !! k) (transactions db' !! k)).

Lemma addPreparedTransactionIn_wp req date imgs db :
  ledger_wf db →
  wp (addPreparedTransactionIn now (PreparedInsert req date imgs)) (add_post req date db) db.
Proof.
  intros Hwf. unfold addPreparedTransactionIn. cbn [pt_request pt_date pt_images]. wp_step.
  eapply wp_mono; [apply resolveTransactionTagIDsIn_wp; by destruct Hwf as (_ & _ & ? & _)|].
  intros tagIDs db1 [Ht1 _]. apply tag_step_side in Ht1; [|by apply ledger_parts].
  pose proof (side_step_ledger _ _ Hwf (proj1 Ht1)) as Hwf1. wp_step.
  eapply wp_mono; [by apply insert_transaction_wp|]. cbn [tx_account tx_type tx_amount].
  intros n db2 (-> & -> & _ & _ & Hw2). wp_step.
  eapply wp_mono; [apply insertPreparedTransactionImages_wp; by destruct Hw2 as (_ & ? & _)|].
  intros ? db3 Hs3. pose proof (wf_except_side _ _ _ Hw2 (proj1 Hs3)) as Hw3. wp_step.
  eapply wp_mono; [apply insert_transaction_tags_wp; by destruct Hw3 as (_ & (? & _) & _)|].
  intros ? db4 [Ht4 Ho4]. apply tags_only_step in Ho4; [|by destruct Hw3 as (_ & ? & _)|done].
  pose proof (wf_except_side _ _ _ Hw3 (proj1 Ho4)) as Hw4. wp_step.
  eapply wp_mono; [apply recalculate_wp; by destruct Hw4|]. intros ? db5 ->.
  pose proof (wf_except_rebalance _ (req_account req) _ Hw4) as Hw5. rewrite difference_diag_L in Hw5.
  apply wf_except_empty in Hw5.
  destruct (quiet_step_trans _ _ _ Hs3 Ho4) as [(_ & (Htx4 & Hseq4 & Har4 & Hsv4) & _) _].
  destruct Ht1 as [(_ & (Htx1 & Hseq1 & Har1 & Hsv1) & _) _]. cbn in Htx4, Har4. rewrite Hseq1 in *.
  rewrite Htx1 in Htx4. apply read_back_wp. intros r Hr. split; [done|].
  split; [change (saves db4 = saves db); rewrite Hsv4; exact Hsv1|]. split; [done|].
  exists r. split; [done|]. split; [done|]. apply rebalance_lookup in Hr as (r4 & Hr4 & ->).
  rewrite Htx4, lookup_insert_eq in Hr4. injection Hr4 as <-. cbn [tx_account]. rewrite decide_True by done.
  split; [cbn; by rewrite balance_at_rebalance|]. split.
  - unfold response_of, effective_amount. cbn [resp_amount rebalance archive_amounts set_transactions].
    rewrite Har4, Har1. destruct Hwf as ((_ & Hrows & Ha) & _).
    destruct (archive_amounts db !! (tx_seq db + 1)) eqn:E; [|done].
    destruct (Ha _ _ E) as [_ [r0 Hr0]]. apply Hrows in Hr0. lia.
  - intros k Hk. cbn [response_of resp_id] in Hk. apply row_upto_rebalance; [|set_solver].
    by rewrite Htx4, lookup_insert_ne.
Qed.

(** Setting the account of one row keeps the edges' accounts when it is the same. *)
Lemma same_accounts_quiet db db' : rows_same db db' → same_accounts db db'.
Proof. intros (H & _) k. by rewrite H. Qed.

Lemma same_accounts_trans db1 db2 db3 : same_accounts db1 db2 → same_accounts db2 db3 → same_accounts db1 db3.
Proof. intros H1 H2 k. by rewrite H1. Qed.

Lemma same_accounts_rebalance acc db : same_accounts db (rebalance acc db).
Proof.
  intros k. rewrite rebalance_lookup_eq. destruct (transactions db !! k); cbn; [|done]. by case_decide.
Qed.

Lemma assigned_quiet db db' :
  same_accounts db db' → links db' = links db → settings db' = settings db →
  no_new_conflict (assigned db) (assigned db').
Proof.
  intros Ha Hl Hs. unfold assigned. replace (loadLedgerSettingsIn db') with (loadLedgerSettingsIn db)
    by (unfold loadLedgerSettingsIn; by rewrite Hs).
  apply assignments_mono; [done|by rewrite Hl].
Qed.

Definition update_post (n : Z) (old : txrow) (req : TransactionRequest) (date : Z) (db : ledger)
    (resp : TransactionResponse) (db' : ledger) : Prop :=
  let X := {[tx_account old; req_account req]} in
  ledger_wf db' ∧ saves db' = saves db ∧ no_new_conflict (assigned db) (assigned db') ∧
  ∃ row, transactions db' !! n = Some row ∧ resp = response_of db' n row ∧
    row = TxRow (req_account req) date (req_item req) (req_type req) (req_amount req)
            (balance_at db' (req_account req) (n, row)) (req_memo req) ∧
    resp_amount resp = req_amount req ∧
    (∀ k, k ≠ n → option_Forall2 (row_upto X) (transactions db !! k) (transactions db' !! k)).

(** The state in which balances are to be rewritten. *)
Record mid_update (n : Z) (old : txrow) (req : TransactionRequest) (date : Z) (db db1 : ledger) : Prop := {
  mu_wf : wf_except {[tx_account old; req_account req]} db1;
  mu_row : transactions db1 = <[n := TxRow (req_account req) date (req_item req) (req_type req) (req_amount req)
                                      (tx_balance old) (req_memo req)]> (transactions db);
  mu_archive : archive_amounts db1 !! n = None;
  mu_links : links db1 = links db;
  mu_settings : settings db1 = settings db;
  mu_saves : saves db1 = saves db
}.

Lemma mid_update_quiet n old req date db db1 db2 :
  mid_update n old req date db db1 → quiet_step db1 db2 → mid_update n old req date db db2.
Proof.
  intros [Hw Hr Ha Hl Hs Hv] [Hside Hl2]. pose proof Hside as (_ & (Htx & _ & Har & ?) & Hs2).
  split; [by eapply wf_except_side|congruence|congruence|congruence|congruence|congruence].
Qed.

Lemma mid_update_parts n old req date db db1 : mid_update n old req date db db1 → parts_wf db1.
Proof. by intros [(_ & ? & _) _ _ _ _ _]. Qed.
End Handlers.

Lemma delete_transaction_tags_wp n db :
  parts_wf db → wp (delete_transaction_tags n) (λ _ db', quiet_step db db') db.
Proof.
  intros Hp. unfold delete_transaction_tags. wp_auto. apply tags_only_step; [done| |by destruct db].
  apply (tags_wf_frame db); [by intros ?|done|done| |by apply Hp]. cbn. intros x [_ Hx]%elem_of_filter. done.
Qed.

(** Rewriting the balances of the new account and, for a move, of the old one. *)
Definition rebalance_both (moved : bool) (new old : string) (db : ledger) : ledger :=
  if moved then rebalance old (rebalance new db) else rebalance new db.

Lemma recalculate_accounts_wp (moved : bool) new old db :
  tx_wf db → wp (recalculate_accounts moved new old) (λ _ db', db' = rebalance_both moved new old db) db.
Proof.
  intros Hw. unfold recalculate_accounts. wp_step. eapply wp_mono; [by apply recalculate_wp|]. intros ? db1 ->.
  destruct moved; [|done]. by apply recalculate_wp, rebalance_tx_wf.
Qed.

Lemma rebalance_both_lookup moved new old db k (X : gset string) :
  new ∈ X → old ∈ X →
  option_Forall2 (row_upto X) (transactions db !! k) (transactions (rebalance_both moved new old db) !! k).
Proof.
  intros Hn Ho. pose proof (row_upto_rebalance X new _ k db eq_refl Hn) as H1. destruct moved; [|done].
  change (rebalance_both true new old db) with (rebalance old (rebalance new db)).
  pose proof (row_upto_rebalance X old _ k (rebalance new db) eq_refl Ho) as H2.
  destruct (transactions db !! k), (transactions (rebalance new db) !! k),
    (transactions (rebalance old (rebalance new db)) !! k);
    inversion H1; inversion H2; subst; constructor; by eapply row_upto_trans.
Qed.

Lemma rebalance_both_balance_at moved new old db acc x :
  balance_at (rebalance_both moved new old db) acc x = balance_at db acc x.
Proof. unfold rebalance_both. destruct moved; by rewrite !balance_at_rebalance. Qed.

(** * Update and deletion *)
Section Update.
Context (now : Z).

(** From the row statements to the response: every balance is right again. *)
Lemma finish_update n old req date db db1 moved :
  moved = is_move old req →
  mid_update n old req date db db1 →
  let db2 := rebalance_both moved (req_account req) (tx_account old) db1 in
  ledger_wf db2 ∧ links db2 = links db ∧ settings db2 = settings db ∧ saves db2 = saves db ∧
  (moved = false → transactions db !! n = Some old → same_accounts db db2) ∧
  (∀ r, transactions db2 !! n = Some r →
     r = TxRow (req_account req) date (req_item req) (req_type req) (req_amount req)
           (balance_at db2 (req_account req) (n, r)) (req_memo req) ∧
     effective_amount db2 n r = req_amount req) ∧
  (∀ k, k ≠ n → option_Forall2 (row_upto {[tx_account old; req_account req]})
     (transactions db !! k) (transactions db2 !! k)).
Proof.
  intros Hmoved [Hw Hr Ha Hl Hs Hv] db2. unfold is_move in Hmoved.
  assert (ledger_wf db2) as Hwf.
  { apply wf_except_empty. unfold db2, rebalance_both. subst moved. case_bool_decide as Heq; cbn [negb].
    - apply (wf_except_rebalance _ (req_account req)) in Hw. rewrite Heq in Hw.
      replace (({[req_account req; req_account req]} : gset string) ∖ {[req_account req]}) with (∅ : gset string) in Hw by set_solver.
      done.
    - apply (wf_except_rebalance _ (req_account req)), (wf_except_rebalance _ (tx_account old)) in Hw.
      replace ((({[tx_account old; req_account req]} : gset string) ∖ {[req_account req]}) ∖ {[tx_account old]})
        with (∅ : gset string) in Hw by set_solver. done. }
  assert (archive_amounts db2 = archive_amounts db1) as Hadb2 by (unfold db2; by destruct moved).
  split; [done|]. do 3 (split; [unfold db2; by destruct moved|]).
  split; [|split].
  - intros Hm Hold. unfold db2. rewrite Hm in *. cbn.
    eapply same_accounts_trans; [|apply same_accounts_rebalance]. intros k. rewrite Hr.
    destruct (decide (k = n)) as [->|]; [|by rewrite lookup_insert_ne]. rewrite lookup_insert_eq, Hold. cbn. f_equal.
    symmetry in Hmoved. by apply negb_false_iff, bool_decide_eq_true in Hmoved.
  - intros r Hrow. pose proof (rebalance_both_lookup moved (req_account req) (tx_account old) db1 n
      {[tx_account old; req_account req]} ltac:(set_solver) ltac:(set_solver)) as Hf.
    fold db2 in Hf. rewrite Hrow, Hr, lookup_insert_eq in Hf. inversion Hf as [? ? (b & -> & _) |]; subst.
    assert (b = balance_at db2 (req_account req) (n, set_balance b (TxRow (req_account req) date (req_item req)
      (req_type req) (req_amount req) (tx_balance old) (req_memo req)))) as Hb.
    { destruct Hwf as (_ & Hbal & _). apply (Hbal (req_account req) n _ Hrow). done. }
    split; [rewrite <-Hb; done|]. unfold effective_amount. by rewrite Hadb2, Ha.
  - intros k Hk. rewrite <-(lookup_insert_ne (transactions db) n k (TxRow (req_account req) date (req_item req)
      (req_type req) (req_amount req) (tx_balance old) (req_memo req))) by done.
    rewrite <-Hr. apply rebalance_both_lookup; set_solver.
Qed.

Lemma quiet_assigned db db' : quiet_step db db' → no_new_conflict (assigned db) (assigned db').
Proof. intros [(_ & Hr & Hs) Hl]. apply assigned_quiet; [by apply same_accounts_quiet|done|done]. Qed.

Lemma link_step_rows s db db' : link_step s db db' → transactions db' = transactions db ∧ archive_amounts db' = archive_amounts db.
Proof. intros (_ & Ho & _). by rewrite Ho. Qed.

Lemma response_of_link s db db' n r : link_step s db db' → response_of db' n r = response_of db n r.
Proof. intros (_ & Ho & _). by rewrite Ho. Qed.

Lemma balance_at_link s db db' acc x : link_step s db db' → balance_at db' acc x = balance_at db acc x.
Proof. intros (_ & Ho & _). by rewrite Ho. Qed.

Lemma update_rows_wp n old req date imgs tagIDs db :
  ledger_wf db → transactions db !! n = Some old →
  wp (update_rows now n old req date imgs tagIDs) (λ _ db', mid_update n old req date db db') db.
Proof.
  intros Hwf Hold. unfold update_rows. wp_step.
  eapply wp_mono; [by apply update_transaction_wp|]. intros ? db1 Hdrop. wp_step.
  eapply wp_mono; [exact Hdrop|]. intros ? db2 (Hdb2 & _ & _ & Hw2).
  assert (mid_update n old req date db db2) as Hm2.
  { split; [done|by rewrite Hdb2|rewrite Hdb2; apply lookup_delete_eq|by rewrite Hdb2|by rewrite Hdb2|by rewrite Hdb2]. }
  clear Hdb2 Hw2 Hdrop. wp_step.
  eapply wp_mono; [by eapply deleteTransactionImagesIn_wp, mid_update_parts|].
  intros ? db3 Hq3. pose proof (mid_update_quiet _ _ _ _ _ _ _ Hm2 Hq3) as Hm3. wp_step.
  eapply wp_mono; [by eapply insertPreparedTransactionImages_wp, mid_update_parts|].
  intros ? db4 Hq4. pose proof (mid_update_quiet _ _ _ _ _ _ _ Hm3 Hq4) as Hm4. wp_step.
  eapply (wp_mono _ (λ _ db', db' = db4)).
  { destruct (is_move _ _ && _); [apply checkImageAccountMoveQuota_wp|done]. }
  intros ? ? ->. wp_step.
  eapply wp_mono; [by eapply delete_transaction_tags_wp, mid_update_parts|].
  intros ? db5 Hq5. pose proof (mid_update_quiet _ _ _ _ _ _ _ Hm4 Hq5) as Hm5.
  eapply wp_mono; [apply insert_transaction_tags_wp; by destruct (mid_update_parts _ _ _ _ _ _ Hm5)|].
  intros ? db6 [Ht6 Ho6]. apply tags_only_step in Ho6; [|by eapply mid_update_parts|done].
  by eapply mid_update_quiet.
Qed.

(** The link stage, for a move judged against the assignments [before]. *)
Lemma update_links_wp n req (moved : bool) previous before db :
  ledger_wf db → (if moved then previous = before else no_new_conflict before (assigned db)) →
  wp (update_links n req moved previous) (λ _ db',
    link_step (loadLedgerSettingsIn db) db db' ∧ no_new_conflict before (assigned db')) db.
Proof.
  intros Hwf Hbefore. unfold update_links. do 2 wp_step. set (s := loadLedgerSettingsIn db).
  wp_step. eapply wp_mono; [apply applyTransactionLinkChangesIn_wp; by apply ledger_parts|]. intros ? db1 Hk1.
  wp_step. eapply wp_mono; [apply prune_step_wp, Hk1|]. intros ? db2 Hk2.
  pose proof (link_step_trans _ _ _ _ Hk1 Hk2) as Hk.
  assert (assigned db2 = readCardBankAssignments s 0 db2) as Has.
  { destruct Hk as ((_ & _ & Hset) & _). unfold assigned, s, loadLedgerSettingsIn. by rewrite Hset. }
  destruct moved.
  - eapply wp_mono; [apply validateCardBankAssignmentChanges_wp|]. intros ? ? [-> Hno]. subst. by rewrite Has.
  - wp_step. rewrite Has. split; [done|]. etransitivity; [exact Hbefore|]. apply Hk.
Qed.

Lemma updatePreparedTransactionIn_wp n req date imgs db :
  ledger_wf db →
  wp (updatePreparedTransactionIn now n req date imgs) (λ resp db',
    ∃ old, transactions db !! n = Some old ∧ update_post n old req date db resp db') db.
Proof.
  intros Hwf. unfold updatePreparedTransactionIn. wp_step.
  eapply wp_mono; [apply resolveTransactionTagIDsIn_wp; by destruct Hwf as (_ & _ & ? & _)|].
  intros tagIDs db1 [Ht1 _]. apply tag_step_side in Ht1; [|by apply ledger_parts].
  pose proof (side_step_ledger _ _ Hwf (proj1 Ht1)) as Hwf1. pose proof (quiet_assigned _ _ Ht1) as Hna1.
  destruct Ht1 as [(_ & (Htx1 & _ & _ & Hsv1) & _) _].
  unfold select_transaction at 1. do 3 wp_step. destruct (transactions db1 !! n) as [old|] eqn:Hold; [|done].
  do 3 wp_step. set (before := if is_move old req then _ else _).
  wp_step. eapply wp_mono; [by apply update_rows_wp|]. intros ? db6 Hm6.
  destruct (finish_update n old req date db1 db6 _ eq_refl Hm6) as (Hwf7 & Hl7 & Hs7 & Hv7 & Hsame7 & Hrow7 & Hother7).
  wp_step. eapply wp_mono; [apply recalculate_accounts_wp, (mu_wf _ _ _ _ _ _ Hm6)|]. intros ? db7 Hdb7.
  rewrite <-Hdb7 in *. wp_step. apply read_back_wp. intros r Hr.
  wp_step. eapply wp_mono.
  { apply (update_links_wp n req (is_move old req) before (assigned db1)); [done|].
    unfold before. destruct (is_move old req); [done|]. apply assigned_quiet; [by apply Hsame7|done|done]. }
  intros ? db9 [Hk Hno]. wp_step. exists old. split; [congruence|].
  split; [by eapply side_step_ledger, Hk|].
  split; [destruct Hk as (_ & -> & _); cbn; congruence|]. split; [by etransitivity|].
  exists r. destruct (Hrow7 r Hr) as [Hrow Ham]. destruct (link_step_rows _ _ _ Hk) as [Htx _]. rewrite Htx.
  split; [done|]. split; [symmetry; by eapply response_of_link|].
  split; [by rewrite (balance_at_link _ _ _ _ _ Hk)|]. split; [exact Ham|]. rewrite <-Htx1. exact Hother7.
Qed.
End Update.

Lemma DeleteTransaction_wp n db :
  ledger_wf db →
  wp (DeleteTransaction n) (λ _ db', ledger_wf db' ∧ saves db' = saves db ∧ ∃ r, transactions db !! n = Some r ∧ transactions db' !! n = None ∧
    ∀ k, k ≠ n → option_Forall2 (row_upto {[tx_account r]}) (transactions db !! k) (transactions db' !! k)) db.
Proof.
  intros Hwf. unfold DeleteTransaction, select_transaction. do 4 wp_step.
  destruct (transactions db !! n) as [r|] eqn:Hr; [|done]. do 2 wp_step.
  eapply wp_mono; [by apply (delete_transaction_wp n r)|]. intros ? db1 (Htx & Hsv & Hw1).
  eapply wp_mono; [apply recalculate_wp, Hw1|]. intros ? db2 ->.
  apply (wf_except_rebalance _ (tx_account r)) in Hw1. rewrite difference_diag_L in Hw1.
  split; [by apply wf_except_empty|]. split; [exact Hsv|]. exists r. split; [done|]. split.
  - by rewrite rebalance_lookup_eq, Htx, lookup_delete_eq.
  - intros k Hk. apply row_upto_rebalance; [|set_solver]. by rewrite Htx, lookup_delete_ne.
Qed.

(** * Every call of the core service *)
Lemma atomic_prepare {B} dc d req (f : Z * list preparedTransactionImage → op B) :
  (∀ a, atomic (f a)) → atomic (prepare_parts dc d req ≫= f).
Proof.
  intros Hf db e db'. unfold prepare_parts, mbind, stm_bind, liftd, lifti, lift.
  destruct (parseTransactionDate (req_date req) (req_time req)) as [date|?]; [|by inversion 1].
  destruct (validateTransactionData req) as [u|?]; [|by inversion 1].
  destruct (prepareTransactionImages _ _ _) as [imgs|?]; [apply Hf|by inversion 1].
Qed.

Lemma atomic_assoc {A B C} (m : op A) (f : A → op B) (g : B → op C) :
  atomic (m ≫= λ a, f a ≫= g) → atomic ((m ≫= f) ≫= g).
Proof.
  intros H db e db' Hrun. eapply (H db e). rewrite <-Hrun. unfold mbind, stm_bind. by destruct (m db) as [[]?].
Qed.

Lemma atomic_mret {A B} (a : A) (f : A → op B) : atomic (f a) → atomic (mret a ≫= f).
Proof. done. Qed.

Lemma atomic_then_reads {A B} (m : op A) (f : A → op B) :
  atomic m → (∀ a db, ∃ b, f a db = (Ok b, db)) → atomic (m ≫= f).
Proof.
  intros Hm Hf db e db'. unfold mbind, stm_bind. destruct (m db) as [[a|e'] db1] eqn:E.
  - destruct (Hf a db1) as [b ->]. done.
  - intros [= -> <-]. by eapply Hm.
Qed.

Lemma wp_prepare dc d req (Q : Z * list preparedTransactionImage → ledger → Prop) db :
  (∀ date imgs, parseTransactionDate (req_date req) (req_time req) = Ok date →
     validateTransactionData req = Ok tt → Q (date, imgs) db) → wp (prepare_parts dc d req) Q db.
Proof.
  intros HQ. unfold prepare_parts. do 5 wp_step. unfold lifti. wp_auto. destruct a0. auto.
Qed.

Section Calls.
Context (DecodeConfig Decode : list Z → option (Z * Z * string)).

Lemma atomic_AddTransaction now req : atomic (AddTransaction DecodeConfig Decode now req).
Proof.
  unfold AddTransaction, prepareTransactionInsert. apply atomic_require. intros _.
  apply atomic_assoc, atomic_prepare. intros [date imgs]. apply atomic_mret.
  apply atomic_then_reads; [apply atomic_transactional|]. intros resp db1. eexists. done.
Qed.

Lemma AddTransaction_wp now req db :
  ledger_wf db →
  wp (AddTransaction DecodeConfig Decode now req) (λ resp db',
    update_only req = false ∧ validateTransactionData req = Ok tt ∧
    ∃ date resp0, parseTransactionDate (req_date req) (req_time req) = Ok date ∧
      add_post req date db resp0 db' ∧ resp = with_tags (transaction_tags_of db' (resp_id resp0)) resp0) db.
Proof.
  intros Hwf. unfold AddTransaction, prepareTransactionInsert. do 4 wp_step. apply wp_prepare.
  intros date imgs Hdate Hval. do 3 wp_step. eapply wp_mono; [by apply addPreparedTransactionIn_wp|].
  intros resp0 db1 Hpost. unfold GetTransactionTags. wp_auto. apply negb_true_iff in H. eauto 10.
Qed.

Lemma atomic_UpdateTransaction now n req : atomic (UpdateTransaction DecodeConfig Decode now n req).
Proof.
  apply atomic_prepare. intros [date imgs]. apply atomic_then_reads; [apply atomic_transactional|].
  intros resp db1. eexists. done.
Qed.

Lemma UpdateTransaction_wp now n req db :
  ledger_wf db →
  wp (UpdateTransaction DecodeConfig Decode now n req) (λ resp db',
    validateTransactionData req = Ok tt ∧
    ∃ date resp0 old, parseTransactionDate (req_date req) (req_time req) = Ok date ∧
      transactions db !! n = Some old ∧ update_post n old req date db resp0 db' ∧
      resp = with_tags (transaction_tags_of db' n) resp0) db.
Proof.
  intros Hwf. unfold UpdateTransaction. wp_step. apply wp_prepare. intros date imgs Hdate Hval.
  do 2 wp_step. eapply wp_mono; [by apply updatePreparedTransactionIn_wp|].
  intros resp0 db1 (old & Hold & Hpost). unfold GetTransactionTags. wp_auto. eauto 10.
Qed.
End Calls.
