(* ===== verification/Service.v ===== *)
(** The core service as its callers see it: every call of the ledger that
    changes state, run in any order. Claims: the ledger invariant holds after any
    sequence of calls, a failing call leaves no trace, and what each of the three
    transaction calls leaves. *)
From Stdlib Require Import ZArith Lia.
From stdpp Require Import base gmap list strings sorting.
From S2P Require Import Prelude GoText Validation Settings GoTime ImageContainers Schema Balance Tags Links Images LedgerOps.
Open Scope Z_scope.

Inductive ledger_call :=
| LAdd (req : TransactionRequest)
| LUpdate (n : Z) (req : TransactionRequest)
| LDelete (n : Z)
| LImage (t : Z) (img : TransactionImageRequest)
| LDeleteImage (n : Z)
| LDeleteImageFor (t n : Z)
| LTag (c : tag_call)
| LLink (c : link_call).

Section Calls.
Context (DecodeConfig Decode : list Z → option (Z * Z * string)).

Definition ledger_call_op (now : Z) (c : ledger_call) : op unit :=
  match c with
  | LAdd req => AddTransaction DecodeConfig Decode now req;; mret tt
  | LUpdate n req => UpdateTransaction DecodeConfig Decode now n req;; mret tt
  | LDelete n => DeleteTransaction n
  | LImage t img => AddTransactionImage DecodeConfig Decode now t img;; mret tt
  | LDeleteImage n => DeleteTransactionImage n
  | LDeleteImageFor t n => DeleteTransactionImageForTransaction t n
  | LTag c => tag_call_op c
  | LLink c => link_call_op c
  end.

(** A call at its time; the database a client finds afterwards. *)
Definition run_ledger_call (db : ledger) (c : Z * ledger_call) : ledger := snd (ledger_call_op c.1 c.2 db).

Lemma atomic_delete_image P `{!∀ r, Decision (P r)} n : atomic (delete_image_where P n).
Proof.
  intros db e db'. unfold delete_image_where. rewrite (bind_run_Ok _ _ _ db db) by done.
  repeat case_match; by inversion 1.
Qed.

Lemma atomic_AddTransactionImage now t img : atomic (AddTransactionImage DecodeConfig Decode now t img).
Proof.
  unfold AddTransactionImage, lifti. intros db e db'. unfold mbind at 1, stm_bind at 1.
  destruct (prepareTransactionImages _ _ _); [apply atomic_transactional|by inversion 1].
Qed.

Lemma ledger_call_atomic now c : atomic (ledger_call_op now c).
Proof.
  destruct c; cbn [ledger_call_op]; try apply atomic_void.
  - apply atomic_AddTransaction.
  - apply atomic_UpdateTransaction.
  - unfold DeleteTransaction. auto with atomic.
  - apply atomic_AddTransactionImage.
  - apply atomic_delete_image.
  - apply atomic_delete_image.
  - apply tag_call_atomic.
  - apply link_call_atomic.
Qed.

(** What every call keeps: the invariant, and the queue of saves. *)
Definition kept (db db' : ledger) : Prop := ledger_wf db' ∧ saves db' = saves db.

Lemma quiet_kept db db' : ledger_wf db → quiet_step db db' → kept db db'.
Proof. intros Hwf [Hs _]. split; [by eapply side_step_ledger|]. by destruct Hs as (_ & (_ & _ & _ & ?) & _). Qed.

Lemma AddTransactionImage_wp now t img db :
  ledger_wf db → wp (AddTransactionImage DecodeConfig Decode now t img) (λ _ db', kept db db') db.
Proof.
  intros Hwf. unfold AddTransactionImage, lifti. do 5 wp_step.
  eapply wp_mono; [apply checkImageStorageQuota_wp|]. intros ? ? ->.
  wp_step; [by wp_step|]. wp_step. eapply wp_mono; [by apply insertPreparedTransactionImage_wp, ledger_parts|].
  intros n db' Hq. wp_step. by eapply quiet_kept.
Qed.

Lemma links_step_kept db db' : ledger_wf db → links_step db db' → kept db db'.
Proof.
  intros (Htx & Hb & Ht & Hl & Hi) (Hl' & Ho & _). split; [|by rewrite Ho]. rewrite Ho. split; [exact Htx|].
  split; [exact Hb|]. split; [exact Ht|]. split; [|exact Hi]. by rewrite Ho in Hl'.
Qed.

Lemma run_ledger_call_kept db c : ledger_wf db → kept db (run_ledger_call db c).
Proof.
  destruct c as [now c]. intros Hwf. pose proof (ledger_parts _ Hwf) as Hp.
  assert (∀ m : op unit, atomic m → wp m (λ _ db', kept db db') db → kept db (snd (m db))) as Hdone
    by (intros m Ha; by apply wp_atomic).
  destruct c as [req|n req|n|t img|n|t n|c|c].
  8: { apply links_step_kept; [done|]. apply run_link_call_step. by apply Hp. }
  7: { destruct (run_tag_call_step c db) as [Ht Ho]; [by apply Hp|]. by apply quiet_kept, tags_only_step. }
  all: apply Hdone; [apply (ledger_call_atomic now)|]; cbn [ledger_call_op fst snd].
  - wp_step. eapply wp_mono; [by apply AddTransaction_wp|].
    by intros ? db' (_ & _ & date & resp0 & _ & (? & ? & _) & _).
  - wp_step. eapply wp_mono; [by apply UpdateTransaction_wp|].
    by intros ? db' (_ & date & resp0 & old & _ & _ & (? & ? & _) & _).
  - eapply wp_mono; [by apply DeleteTransaction_wp|]. by intros ? db' (? & ? & _).
  - wp_step. eapply wp_mono; [by apply AddTransactionImage_wp|]. done.
  - eapply wp_mono; [by apply delete_image_where_wp|]. intros ? db'. by apply quiet_kept.
  - eapply wp_mono; [by apply delete_image_where_wp|]. intros ? db'. by apply quiet_kept.
Qed.

Lemma run_ledger_call_wf db c : ledger_wf db → ledger_wf (run_ledger_call db c).
Proof. apply run_ledger_call_kept. Qed.

(** C1. Ledger invariant: after any sequence of calls of the core service, at
    any times, with any arguments and including the calls that fail, every row
    is a valid transaction, every stored balance is the exact sum of its account
    up to that row in (date, id) order, the tag forest, the labels, the links and
    the images are consistent, and no link, label or image outlives its
    transaction. *)
Theorem ledger_calls_preserve_invariant db calls : ledger_wf db → ledger_wf (foldl run_ledger_call db calls).
Proof.
  revert db. induction calls as [|c calls IH]; intros db Hwf; [done|]. cbn [foldl]. by apply IH, run_ledger_call_wf.
Qed.

(** C2. All or nothing: a call of the core service that reports an error leaves
    the ledger exactly as it was. *)
Theorem ledger_call_all_or_nothing now c db e db' : ledger_call_op now c db = (Err e, db') → db' = db.
Proof. apply ledger_call_atomic. Qed.

(** C3. [AddTransaction]: when it succeeds, the request had no update-only part
    and was valid; the row is stored as requested under the next id with the
    balance of its account at that row; the response is the stored row with its
    labels; every other row is unchanged, up to the balance of rows of the same
    account. *)
Theorem AddTransaction_correct now req db resp db' :
  ledger_wf db → AddTransaction DecodeConfig Decode now req db = (Ok resp, db') →
  update_only req = false ∧ validateTransactionData req = Ok tt ∧
  ∃ date resp0, parseTransactionDate (req_date req) (req_time req) = Ok date ∧
    add_post req date db resp0 db' ∧ resp = with_tags (transaction_tags_of db' (resp_id resp0)) resp0.
Proof. intros Hwf. exact (wp_run _ _ _ _ _ (AddTransaction_wp DecodeConfig Decode now req db Hwf)). Qed.

(** C4. [UpdateTransaction]: when it succeeds, the transaction existed and now
    holds the requested fields with the balance of its account at that row, the
    archived amount is gone, no card transaction became newly shared between bank
    transactions, and every other row is unchanged up to the balances of the old
    and the new account. *)
Theorem UpdateTransaction_correct now n req db resp db' :
  ledger_wf db → UpdateTransaction DecodeConfig Decode now n req db = (Ok resp, db') →
  validateTransactionData req = Ok tt ∧
  ∃ date resp0 old, parseTransactionDate (req_date req) (req_time req) = Ok date ∧
    transactions db !! n = Some old ∧ update_post n old req date db resp0 db' ∧
    resp = with_tags (transaction_tags_of db' n) resp0.
Proof. intros Hwf. exact (wp_run _ _ _ _ _ (UpdateTransaction_wp DecodeConfig Decode now n req db Hwf)). Qed.

(** [DeleteTransaction]: when it succeeds, the transaction existed and its
    row is gone, every other row is unchanged up to the balances of its account,
    the queue of saves is untouched, and the ledger is well formed: no link,
    label, image or archived amount of the deleted row remains. *)
Theorem DeleteTransaction_correct n db db' :
  ledger_wf db → DeleteTransaction n db = (Ok tt, db') →
  ledger_wf db' ∧ saves db' = saves db ∧
  ∃ r, transactions db !! n = Some r ∧ transactions db' !! n = None ∧
    ∀ k, k ≠ n → option_Forall2 (row_upto {[tx_account r]}) (transactions db !! k) (transactions db' !! k).
Proof. intros Hwf. exact (wp_run _ _ _ _ _ (DeleteTransaction_wp n db Hwf)). Qed.

(** A request with no images, labels or update-only parts. *)
Definition plain_request (req : TransactionRequest) : Prop :=
  update_only req = false ∧ req_images req = [] ∧ req_tags req = [] ∧ req_new_tag_paths req = [].

Definition new_row (req : TransactionRequest) (date : Z) : txrow :=
  TxRow (req_account req) date (req_item req) (req_type req) (req_amount req) 0 (req_memo req).

Lemma validate_row req date :
  validateTransactionData req = Ok tt →
  tx_type_ok (tx_type (new_row req date)) && tx_amount_ok (tx_amount (new_row req date)) = true.
Proof.
  unfold validateTransactionData. do 4 (intros (u & _ & H)%res_bind_Ok_inv; revert H; clear u).
  destruct (_ && _) eqn:E; [done|]. unfold ValidateTransactionAmount, tx_type_ok, tx_amount_ok. cbn [tx_type tx_amount new_row].
  apply andb_false_iff in E. rewrite !negb_false_iff in E.
  repeat case_match; try done. intros _. destruct E as [-> | ->]; rewrite ?orb_true_r; lia.
Qed.

Lemma insert_plain req date db :
  tx_seq db < MaxInt64 → validateTransactionData req = Ok tt →
  insert_transaction (new_row req date) db = (Ok (tx_seq db + 1), inserted (new_row req date) db).
Proof.
  intros Hseq Hval. unfold insert_transaction. rewrite (bind_run_Ok _ _ _ db db) by done.
  unfold require. rewrite (validate_row _ _ Hval). unfold next_id.
  destruct (tx_seq db >=? MaxInt64) eqn:E; [lia|]. done.
Qed.

Lemma add_plain now req date db :
  plain_request req → parseTransactionDate (req_date req) (req_time req) = Ok date →
  validateTransactionData req = Ok tt → tx_seq db < MaxInt64 →
  let n := tx_seq db + 1 in
  AddTransaction DecodeConfig Decode now req db =
    match recalculateBalanceIn (req_account req) (inserted (new_row req date) db) with
    | (Err e, _) => (Err e, db)
    | (Ok _, db') =>
      match transactions db' !! n with
      | Some r => (Ok (with_tags (transaction_tags_of db' n) (response_of db' n r)), db')
      | None => (Err ENotFound, db)
      end
    end.
Proof.
  intros (Hu & Hi & Ht & Hp) Hdate Hval Hseq n. unfold AddTransaction, require, ensure. rewrite Hu.
  rewrite (bind_run_Ok _ _ _ tt db) by done.
  rewrite (bind_run_Ok _ _ _ (PreparedInsert req date []) db).
  2:{ unfold prepareTransactionInsert, prepare_parts. rewrite Hdate, Hval, Hi. done. }
  assert (addPreparedTransactionIn now (PreparedInsert req date []) db =
    (recalculateBalanceIn (req_account req);; read_back n) (inserted (new_row req date) db)) as Hadd.
  { unfold addPreparedTransactionIn. cbn [pt_request pt_date pt_images]. rewrite Ht, Hp.
    rewrite (bind_run_Ok _ _ _ [] db) by done.
    rewrite (bind_run_Ok _ _ _ _ _ (insert_plain req date db Hseq Hval)). done. }
  unfold transactional. unfold mbind at 1, stm_bind at 1. rewrite Hadd. unfold mbind at 1, stm_bind at 1.
  destruct (recalculateBalanceIn _ _) as [[u|e] db']; [|done].
  unfold read_back, select_transaction, mbind, stm_bind, gets, id. cbv beta.
  by destruct (transactions db' !! n).
Qed.

(** C23. [AddTransaction] accepts: a valid request with nothing attached succeeds
    exactly when every balance of the account, with the new row in place, is an
    int64; otherwise it reports the row at which the balance overflows. *)
Theorem AddTransaction_accepts now req date db :
  ledger_wf db → tx_seq db < MaxInt64 → plain_request req →
  parseTransactionDate (req_date req) (req_time req) = Ok date → validateTransactionData req = Ok tt →
  let db1 := inserted (new_row req date) db in
  ((∀ k r, transactions db1 !! k = Some r → tx_account r = req_account req →
      int64 (balance_at db1 (req_account req) (k, r))) ∧
   ∃ resp, AddTransaction DecodeConfig Decode now req db = (Ok resp, rebalance (req_account req) db1)) ∨
  (∃ k r, transactions db1 !! k = Some r ∧ tx_account r = req_account req ∧
     ¬ int64 (balance_at db1 (req_account req) (k, r)) ∧
     AddTransaction DecodeConfig Decode now req db = (Err (EBalanceOverflow k), db)).
Proof.
  intros Hwf Hseq Hplain Hdate Hval db1. rewrite (add_plain now _ _ _ Hplain Hdate Hval Hseq). cbv zeta. fold db1.
  assert (amounts_int64 db1) as Ham.
  { pose proof (insert_transaction_wp (new_row req date) db Hwf) as H. unfold wp in H.
    rewrite insert_plain in H by done. destruct H as (_ & _ & _ & _ & Hw & _). by apply tx_wf_amounts. }
  destruct (recalculate_cases (req_account req) db1 Ham) as [[Hall Hrun]|(k & r & Hr & Ha & Hov & Hrun)]; rewrite Hrun.
  - left. split; [done|]. rewrite rebalance_lookup_eq.
    replace (transactions db1 !! _) with (Some (new_row req date)) by (symmetry; apply lookup_insert_eq). by eexists.
  - right. by exists k, r.
Qed.
End Calls.

(** * Witnesses *)
Lemma ledger_wf_empty : ledger_wf empty_ledger.
Proof.
  assert (∀ {A} (m : gmap Z A) n x, m = ∅ → m !! n = Some x → False) as Hno by (intros ??????; subst; done).
  split; [|split; [|split; [apply tags_wf_empty|split]]].
  - split; [done|]. split; intros n r H; by destruct (Hno _ _ _ _ eq_refl H).
  - intros acc n r H. by destruct (Hno _ _ _ _ eq_refl H).
  - intros p c []%elem_of_empty.
  - split; [done|]. split; intros n r H; by destruct (Hno _ _ _ _ eq_refl H).
Qed.

Definition demo_decoder (_ : list Z) : option (Z * Z * string) := Some (2, 3, "png").
Definition demo_add (acc date item typ : string) (amount : Z) : TransactionRequest :=
  Request acc date "09:30" item typ amount "" [] ["home/food"] [] [] [] [].

Definition demo_session : list (Z * ledger_call) :=
  [(1, LAdd (demo_add "bank" "2024-05-02" "salary" "income" 1000));
   (2, LAdd (demo_add "bank" "2024-05-01" "lunch" "expense" 300));
   (3, LAdd (demo_add "card" "2024-05-01" "book" "expense" 50));
   (4, LAdd (demo_add "card" "2024-05-01" "free" "expense" 0));
   (5, LImage 2 (ImageRequest "receipt.png" (of_bytes (b64_encode demo_png)) ""));
   (6, LLink (CallCards ["card"])); (7, LLink (CallBanks ["bank"])); (8, LLink (CallLink 3 2));
   (9, LUpdate 2 (demo_add "bank" "2024-05-03" "dinner" "expense" 400));
   (10, LTag (CallRename 2 "meals")); (11, LDelete 1)].

Definition demo_final : ledger := foldl (run_ledger_call demo_decoder demo_decoder) empty_ledger demo_session.

Lemma ledger_calls_preserve_invariant_witness :
  ledger_wf empty_ledger ∧
  ((λ r, (tx_item r, tx_amount r, tx_balance r)) <$> transactions demo_final !! 2) = Some ("dinner", 400, -400) ∧
  transactions demo_final !! 1 = None ∧ tx_seq demo_final = 3 ∧ links demo_final = {[(2, 3)]} ∧
  size (images demo_final) = 1%nat ∧ ledger_wf demo_final.
Proof.
  split; [exact ledger_wf_empty|]. do 5 (split; [vm_compute; reflexivity|]).
  exact (ledger_calls_preserve_invariant demo_decoder demo_decoder empty_ledger demo_session ledger_wf_empty).
Defined.

(** A link from a deleted transaction is refused. *)
Lemma ledger_call_all_or_nothing_witness :
  let c := LLink (CallLink 1 3) in
  let out := ledger_call_op demo_decoder demo_decoder 12 c demo_final in
  out = (Err ELinkTargetNotFound, snd out) ∧ snd out = demo_final.
Proof.
  intros c out. assert (out = (Err ELinkTargetNotFound, snd out)) as H
    by (rewrite (surjective_pairing out) at 1; f_equal; vm_compute; reflexivity).
  split; [exact H|].
  exact (ledger_call_all_or_nothing demo_decoder demo_decoder 12 c demo_final ELinkTargetNotFound (snd out) H).
Defined.

Lemma demo_final_wf : ledger_wf demo_final.
Proof.
  unfold demo_final. generalize demo_session empty_ledger ledger_wf_empty.
  induction l as [|c l IH]; intros db Hwf; [done|]. cbn [foldl]. by apply IH, run_ledger_call_wf.
Qed.

Lemma AddTransaction_correct_witness :
  let req := demo_add "bank" "2024-05-02" "tea" "expense" 7 in
  let out := AddTransaction demo_decoder demo_decoder 12 req demo_final in
  ∃ resp, out = (Ok resp, snd out) ∧ resp_id resp = 4 ∧ resp_balance resp = -7 ∧
    ledger_wf demo_final ∧ update_only req = false.
Proof.
  intros req out. destruct (fst out) as [resp|e] eqn:H; [|vm_compute in H; discriminate H].
  assert (out = (Ok resp, snd out)) as Hout by (rewrite <-H; apply surjective_pairing).
  exists resp. split; [exact Hout|]. split; [vm_compute in H; injection H as <-; reflexivity|].
  split; [vm_compute in H; injection H as <-; reflexivity|]. split; [exact demo_final_wf|].
  exact (proj1 (AddTransaction_correct demo_decoder demo_decoder 12 req demo_final resp (snd out) demo_final_wf Hout)).
Defined.

Lemma UpdateTransaction_correct_witness :
  let req := demo_add "card" "2024-05-02" "tea" "expense" 7 in
  let out := UpdateTransaction demo_decoder demo_decoder 12 2 req demo_final in
  ∃ resp, out = (Ok resp, snd out) ∧ resp_id resp = 2 ∧ resp_balance resp = -57 ∧ links (snd out) = ∅ ∧
    ledger_wf demo_final ∧ validateTransactionData req = Ok tt.
Proof.
  intros req out. destruct (fst out) as [resp|e] eqn:H; [|vm_compute in H; discriminate H].
  assert (out = (Ok resp, snd out)) as Hout by (rewrite <-H; apply surjective_pairing).
  exists resp. split; [exact Hout|]. split; [vm_compute in H; injection H as <-; reflexivity|].
  split; [vm_compute in H; injection H as <-; reflexivity|]. split; [vm_compute; reflexivity|].
  split; [exact demo_final_wf|].
  exact (proj1 (UpdateTransaction_correct demo_decoder demo_decoder 12 2 req demo_final resp (snd out) demo_final_wf Hout)).
Defined.

(** The largest amount is accepted on an empty ledger. *)
Lemma AddTransaction_accepts_witness :
  let req := Request "bank" "2024-05-02" "" "rent" "expense" MaxTransactionAmount "" [] [] [] [] [] [] in
  plain_request req ∧
  ∃ resp db', AddTransaction demo_decoder demo_decoder 1 req empty_ledger = (Ok resp, db').
Proof.
  intros req. assert (plain_request req) as Hp by (split; [vm_compute; reflexivity|done]). split; [exact Hp|].
  destruct (parseTransactionDate (req_date req) (req_time req)) as [date|e] eqn:Hd; [|vm_compute in Hd; discriminate Hd].
  destruct (AddTransaction_accepts demo_decoder demo_decoder 1 req date empty_ledger ledger_wf_empty eq_refl Hp Hd eq_refl)
    as [[_ [resp H]]|(k & r & _ & _ & _ & H)]; [by eauto|].
  exfalso. apply (f_equal fst) in H. vm_compute in H. discriminate H.
Defined.

Lemma DeleteTransaction_correct_witness :
  let out := DeleteTransaction 3 demo_final in
  out = (Ok tt, snd out) ∧ links demo_final = {[(2, 3)]} ∧ links (snd out) = ∅ ∧ ledger_wf (snd out).
Proof.
  intros out. assert (out = (Ok tt, snd out)) as Hout
    by (rewrite (surjective_pairing out) at 1; f_equal; vm_compute; reflexivity).
  split; [exact Hout|]. split; [vm_compute; reflexivity|]. split; [vm_compute; reflexivity|].
  exact (proj1 (DeleteTransaction_correct 3 demo_final (snd out) demo_final_wf Hout)).
Defined.
