(* ===== verification/Saves.v ===== *)
(** The durable save queue ([core/transaction_saves.go] over the table of
    [database/transaction_save_schema.go]): acceptance under a client-chosen id,
    the worker that applies the requests in receipt order, failure, dismissal,
    status and notices. The JSON and SHA-256 functions are the operations of the
    class [SaveCodec]. *)
From Stdlib Require Import ZArith Lia.
From stdpp Require Import base gmap list strings sorting.
From S2P Require Import Prelude GoText Validation Settings GoTime ImageContainers Schema Balance Tags Links Images LedgerOps Service.

Open Scope Z_scope.

Definition maxSavePayloadBytes : Z := 32 * 1024 * 1024.
Definition maxPendingSaveBytes : Z := 128 * 1024 * 1024.
Definition maxPendingSaves : Z := 32.

(** [json.Marshal] and [json.Unmarshal] at the two types the queue stores, and
    [sha256.Sum256]. *)
Class SaveCodec := {
  MarshalPayload : transactionSavePayload → list Z;
  UnmarshalPayload : list Z → option transactionSavePayload;
  MarshalResponse : TransactionResponse → list Z;
  UnmarshalResponse : list Z → option TransactionResponse;
  Sum256 : list Z → list Z
}.

Record TransactionSave := MkSave {
  save_RequestID : string;
  save_State : save_state;
  save_Transaction : option TransactionResponse;
  save_Error : string;
  save_Request : option TransactionRequest
}.

(** * Request ids *)
Definition dash_at (i : Z) : bool := (i =? 8) || (i =? 13) || (i =? 18) || (i =? 23).
Definition hex_lower (c : Z) : bool := between 48 57 c || between 97 102 c.

(** [for index, c := range id]: [index] is the byte offset of the rune. *)
Fixpoint id_runes (index : Z) (rs : list (Z * nat)) : bool :=
  match rs with
  | [] => true
  | (c, w) :: rs' => (dash_at index || hex_lower c) && id_runes (index + Z.of_nat w) rs'
  end.

Definition ValidSaveRequestID (s : string) : bool :=
  let b := bytes s in
  (len s =? 36) && (nth_byte b 8 =? 45) && (nth_byte b 13 =? 45) && (nth_byte b 18 =? 45)
  && (nth_byte b 23 =? 45) && id_runes 0 (runes_w b).

(** * The table *)
Definition len_between (lo hi : Z) (n : nat) : bool := (lo <=? Z.of_nat n) && (Z.of_nat n <=? hi).

(** The CHECK constraints of [transaction_save_requests]; [length] counts the
    characters of a TEXT and the bytes of a BLOB. *)
Definition save_check (r : saverow) : bool :=
  len_between 36 36 (length (runes (sv_id r))) && (0 <=? sv_target r) && len_between 32 32 (length (sv_hash r))
  && (match sv_payload r with None => true | Some p => len_between 2 33554432 (length p) end)
  && (match sv_result r with None => true | Some p => len_between 2 33554432 (length (runes_w p)) end)
  && (match sv_error r with None => true | Some e => len_between 1 256 (length (runes e)) end)
  && match sv_state r, sv_payload r, sv_result r, sv_error r with
     | SPending, Some _, None, None => true
     | SCompleted, None, Some _, None => true
     | SFailed, _, None, Some _ => true
     | _, _, _, _ => false
     end.

Definition find_save (i : string) (l : list saverow) : option saverow := snd <$> list_find (λ r, sv_id r = i) l.

Definition insert_save (r : saverow) : op unit :=
  db ← gets id;
  require (bool_decide (Forall (λ q, sv_id q ≠ sv_id r) (saves db)) && save_check r) EConstraint;;
  modify (λ db, set_saves (saves db ++ [r]) db).

Definition is_state (s : save_state) (r : saverow) : bool :=
  match s, sv_state r with
  | SPending, SPending | SCompleted, SCompleted | SFailed, SFailed => true
  | _, _ => false
  end.

(** [UPDATE ... SET f WHERE request_id = i AND state = s]: rows affected. *)
Definition update_saves (i : string) (s : save_state) (f : saverow → saverow) : op Z :=
  db ← gets id;
  let hit r := bool_decide (sv_id r = i) && is_state s r in
  require (forallb (λ r, negb (hit r) || save_check (f r)) (saves db)) EConstraint;;
  modify (λ db, set_saves ((λ r, if hit r then f r else r) <$> saves db) db);;
  mret (Z.of_nat (length (filter (λ r, hit r = true) (saves db)))).

Definition has_payload (r : saverow) : bool := match sv_payload r with Some _ => true | None => false end.
Definition payload_bytes (r : saverow) : Z := match sv_payload r with Some p => zlen p | None => 0 end.

(** [SELECT COUNT( * ), SUM(length(payload)) ... WHERE payload IS NOT NULL] *)
Definition pending_count (l : list saverow) : Z := Z.of_nat (length (filter (λ r, has_payload r = true) l)).
Definition pending_bytes (l : list saverow) : Z := lsum (payload_bytes <$> l).

(** * Failure and dismissal *)
Definition save_message : string := "取引を保存できませんでした。入力内容を確認してください".
Definition image_message : string := "画像を保存できませんでした。形式と容量を確認してください".

(** [strings.Contains(err.Error(), "画像")]. The text of every image error has
    it, but for that of the missing transaction. A date error quotes its input,
    which acceptance has already parsed. *)
Definition mentions_image (e : lerr) : bool :=
  match e with
  | EImage EImageTransaction => false
  | EImage _ => true
  | _ => false
  end.

Definition set_failed (message : string) (r : saverow) : saverow :=
  SaveRow (sv_id r) (sv_target r) (sv_hash r) (sv_payload r) SFailed (sv_result r) (Some message).

Definition failTransactionSave (i : string) (image : bool) : op unit :=
  update_saves i SPending (set_failed (if image then image_message else save_message));; mret tt.

Definition drop_payload (r : saverow) : saverow :=
  SaveRow (sv_id r) (sv_target r) (sv_hash r) None (sv_state r) (sv_result r) (sv_error r).

Definition DismissFailedTransactionSave (i : string) : op unit :=
  require (ValidSaveRequestID i) ESaveNotFound;;
  count ← update_saves i SFailed drop_payload;
  require (count =? 1) ESaveNotFound.

Section Queue.
Context `{SaveCodec} (DecodeConfig Decode : list Z → option (Z * Z * string)).

(** * Status and notices *)
Definition TransactionSaveStatus (i : string) : op TransactionSave :=
  require (ValidSaveRequestID i) ESaveNotFound;;
  db ← gets id;
  match find_save i (saves db) with
  | None => fail ESaveNotFound
  | Some r =>
    match sv_result r with
    | None => mret (MkSave i (sv_state r) None (default "" (sv_error r)) None)
    | Some text =>
      match UnmarshalResponse text with
      | Some t => mret (MkSave i (sv_state r) (Some t) (default "" (sv_error r)) None)
      | None => fail (ESave "response")
      end
    end
  end.

Definition without_images (req : TransactionRequest) : TransactionRequest :=
  Request (req_account req) (req_date req) (req_time req) (req_item req) (req_type req) (req_amount req) (req_memo req)
    (req_tags req) (req_new_tag_paths req) [] (req_delete_images req) (req_link_add req) (req_link_remove req).

Fixpoint notices (l : list saverow) : res lerr (list TransactionSave) :=
  match l with
  | [] => Ok []
  | r :: l' =>
    match sv_payload r ≫= UnmarshalPayload with
    | None => Err (ESave "payload")
    | Some p =>
      notices l' ≫= λ rest,
      Ok (MkSave (sv_id r) (sv_state r) None (default "" (sv_error r)) (Some (without_images (pl_request p))) :: rest)
    end
  end.

Definition TransactionSaveNotices : op (list TransactionSave) :=
  db ← gets id; lift (notices (take 32 (filter (λ r, has_payload r = true) (saves db)))).

(** * Acceptance *)
Definition check_save (i : string) (target : Z) (req : TransactionRequest) : res lerr unit :=
  ensure (ValidSaveRequestID i && (0 <=? target)) ERequestID ≫= λ _,
  (match parseTransactionDate (req_date req) (req_time req) with Ok _ => Ok tt | Err e => Err (EDate e) end) ≫= λ _,
  validateTransactionData req ≫= λ _,
  ensure (negb ((target =? 0) && update_only req)) EUpdateOnly ≫= λ _,
  ensure (negb (Z.of_nat (length (req_images req)) >? MaxImagesPerTransaction)) (EImage EImageCount) ≫= λ _,
  ensure (negb (zlen (MarshalPayload (SavePayload target req)) >? maxSavePayloadBytes)) (ESave "size").

(** The errors after the checks are reported as unavailable storage, but for
    these two. *)
Definition storage_error (e : lerr) : lerr :=
  match e with ESaveConflict => ESaveConflict | ESaveQueueFull => ESaveQueueFull | _ => ESave "storage" end.

Definition wrapped {A} (m : op A) : op A := λ db,
  match m db with (Ok a, db') => (Ok a, db') | (Err e, db') => (Err (storage_error e), db') end.

Definition receive (i : string) (target : Z) (payload : list Z) : op unit :=
  db ← gets id;
  match find_save i (saves db) with
  | Some r => require (bool_decide (sv_hash r = Sum256 payload)) ESaveConflict
  | None =>
    require (negb ((pending_count (saves db) >=? maxPendingSaves)
                   || (pending_bytes (saves db) + zlen payload >? maxPendingSaveBytes))) ESaveQueueFull;;
    insert_save (SaveRow i target (Sum256 payload) (Some payload) SPending None None)
  end.

Definition AcceptTransactionSave (i : string) (target : Z) (req : TransactionRequest) : op TransactionSave :=
  lift (check_save i target req);;
  wrapped (
    transactional (receive i target (MarshalPayload (SavePayload target req)));;
    TransactionSaveStatus i).

(** * The worker *)

(** SQLite errors other than a constraint violation keep the request pending. *)
Definition retained (e : lerr) : bool := match e with EFull => true | _ => false end.

Definition set_completed (text : list Z) (r : saverow) : saverow :=
  SaveRow (sv_id r) (sv_target r) (sv_hash r) None SCompleted (Some text) (sv_error r).

(** The checks before the SQL transaction. *)
Definition decode_save (raw : list Z) : res bool (transactionSavePayload * Z * list preparedTransactionImage) :=
  match UnmarshalPayload raw with
  | None => Err false
  | Some p =>
    match validateTransactionData (pl_request p) with
    | Err e => Err (mentions_image e)
    | Ok _ =>
      match parseTransactionDate (req_date (pl_request p)) (req_time (pl_request p)) with
      | Err _ => Err false
      | Ok date =>
        match prepareTransactionImages DecodeConfig Decode (req_images (pl_request p)) with
        | Err e => Err (mentions_image (EImage e))
        | Ok imgs => Ok (p, date, imgs)
        end
      end
    end
  end.

Definition apply_save (now : Z) (p : transactionSavePayload) (date : Z) (imgs : list preparedTransactionImage)
    : op TransactionResponse :=
  if pl_target p =? 0 then addPreparedTransactionIn now (PreparedInsert (pl_request p) date imgs)
  else updatePreparedTransactionIn now (pl_target p) (pl_request p) date imgs.

(** One SQL transaction: the ledger writes and the completion marker. *)
Definition processTransactionSave (now : Z) (i : string) (raw : list Z) : op unit := λ db,
  match decode_save raw with
  | Err image => failTransactionSave i image db
  | Ok (p, date, imgs) =>
    match find_save i (saves db) with
    | None => (Err ESaveNotFound, db)
    | Some r =>
      if negb (is_state SPending r) then (Ok tt, db)
      else
        match apply_save now p date imgs db with
        | (Err e, _) => if retained e then (Err e, db) else failTransactionSave i (mentions_image e) db
        | (Ok resp, db1) =>
          let encoded := MarshalResponse (with_tags (transaction_tags_of db1 (resp_id resp)) resp) in
          if zlen encoded >? maxSavePayloadBytes then failTransactionSave i false db
          else transactional (λ _, (update_saves i SPending (set_completed encoded);; mret tt) db1) db
        end
    end
  end.

(** [processTransactionSaves]: until no request is pending or a write fails; the
    flag tells whether it stopped on a failed write. Each turn reads the oldest
    pending request, so as many turns as there are rows are enough. *)
Fixpoint process_loop (fuel : nat) (now : Z) (db : ledger) : bool * ledger :=
  match list_find (λ r, is_state SPending r = true) (saves db) with
  | None => (false, db)
  | Some (_, r) =>
    match fuel with
    | O => (true, db)
    | S fuel' =>
      match processTransactionSave now (sv_id r) (default [] (sv_payload r)) db with
      | (Err _, db') => (true, db')
      | (Ok _, db') => process_loop fuel' now db'
      end
    end
  end.

Definition processTransactionSaves (now : Z) (db : ledger) : bool * ledger :=
  process_loop (length (saves db)) now db.
End Queue.

(** * What the queue relies on *)

Definition text_ok (s : string) : bool := ValidString s.
Definition int64_ok (z : Z) : bool := (MinInt64 <=? z) && (z <=? MaxInt64).

(** Text that JSON carries unchanged, and integers that fit their Go type. *)
Definition payload_ok (p : transactionSavePayload) : bool :=
  let q := pl_request p in
  int64_ok (pl_target p) && int64_ok (req_amount q)
  && forallb text_ok ([req_account q; req_date q; req_time q; req_item q; req_type q; req_memo q] ++ req_new_tag_paths q)
  && forallb (λ i, text_ok (ireq_filename i) && text_ok (ireq_data i) && text_ok (ireq_mime i)) (req_images q)
  && forallb int64_ok (req_tags q ++ req_delete_images q ++ req_link_add q ++ req_link_remove q).

(** [encoding/json]: a JSON object has at least two bytes and decodes to what was
    encoded; SHA-256 has 32 bytes. *)
Class SaveCodecLaws (C : SaveCodec) := {
  payload_roundtrip p : payload_ok p = true → UnmarshalPayload (MarshalPayload p) = Some p;
  payload_length p : 2 <= zlen (MarshalPayload p);
  response_length r : (2 <= length (runes_w (MarshalResponse r)))%nat;
  sum256_length l : length (Sum256 l) = 32%nat
}.

(** * Invariant *)
Definition saves_wf (db : ledger) : Prop :=
  NoDup (sv_id <$> saves db) ∧
  Forall (λ r, ValidSaveRequestID (sv_id r) = true ∧ save_check r = true) (saves db) ∧
  pending_count (saves db) <= maxPendingSaves ∧ pending_bytes (saves db) <= maxPendingSaveBytes.

(** The life of a row: a pending request is completed or failed, once; a failed
    one may lose its input. *)
Inductive row_step : saverow → saverow → Prop :=
| step_same r : row_step r r
| step_complete r text : is_state SPending r = true → row_step r (set_completed text r)
| step_fail r message : is_state SPending r = true → row_step r (set_failed message r).

Inductive life_step : saverow → saverow → Prop :=
| life_settle r r' : row_step r r' → life_step r r'
| life_dismiss r : is_state SFailed r = true → life_step r (drop_payload r).

#[global] Instance row_step_refl : Reflexive row_step.
Proof. constructor. Qed.
#[global] Instance row_step_trans : Transitive row_step.
Proof. intros r1 r2 r3 H1 H2. destruct H2 as [|r2 ? Hp|r2 ? Hp]; [done| |]; destruct H1; try done; by constructor. Qed.

(** The row [i], if in state [s], becomes [f] of itself. *)
Definition mark (i : string) (s : save_state) (f : saverow → saverow) (r : saverow) : saverow :=
  if bool_decide (sv_id r = i) && is_state s r then f r else r.

Definition hits (i : string) (s : save_state) (l : list saverow) : Z :=
  Z.of_nat (length (filter (λ r, bool_decide (sv_id r = i) && is_state s r = true) l)).

Lemma update_saves_run i s f db :
  (∀ r, r ∈ saves db → sv_id r = i → is_state s r = true → save_check (f r) = true) →
  update_saves i s f db = (Ok (hits i s (saves db)), set_saves (mark i s f <$> saves db) db).
Proof.
  intros Hok. unfold update_saves. rewrite (bind_run_Ok _ _ _ db db) by done.
  unfold require, ensure. replace (forallb _ _) with true; [done|]. symmetry. apply forallb_forall.
  intros r Hr%list_elem_of_In. cbn. destruct (bool_decide _ && _) eqn:E; [|done]. split_bools. cbn. by apply Hok.
Qed.

(** The updates of the source: they keep the id and never add payload. *)
Definition shrinking (f : saverow → saverow) : Prop :=
  ∀ r, sv_id (f r) = sv_id r ∧ (sv_payload (f r) = sv_payload r ∨ sv_payload (f r) = None).

Lemma mark_id i s f r : shrinking f → sv_id (mark i s f r) = sv_id r.
Proof. intros Hf. unfold mark. case_match; [apply Hf|done]. Qed.

Lemma mark_payload i s f r : shrinking f → sv_payload (mark i s f r) = sv_payload r ∨ sv_payload (mark i s f r) = None.
Proof. intros Hf. unfold mark. case_match; [apply Hf|by left]. Qed.

Lemma pending_count_sum l : pending_count l = lsum ((λ r, if has_payload r then 1 else 0) <$> l).
Proof.
  unfold pending_count. induction l as [|r l IH]; [done|]. rewrite fmap_cons, lsum_cons, filter_cons.
  destruct (has_payload r); cbn [length decide]; case_decide; try done; cbn [length]; lia.
Qed.

Lemma saves_wf_mark i s f db :
  shrinking f → (∀ r, r ∈ saves db → sv_id r = i → is_state s r = true → save_check (f r) = true) →
  saves_wf db → ∀ db', saves db' = mark i s f <$> saves db → saves_wf db'.
Proof.
  intros Hf Hok (Hnd & Hrows & Hc & Hb) db' Hs. unfold saves_wf. rewrite Hs. split_and!.
  - rewrite <-list_fmap_compose. rewrite (list_fmap_ext _ sv_id); [done|]. intros _ r _. by apply mark_id.
  - apply Forall_fmap, Forall_forall. intros r Hr. rewrite Forall_forall in Hrows. destruct (Hrows r Hr) as [Hid Hck].
    unfold compose. rewrite mark_id by done. split; [done|]. unfold mark. destruct (bool_decide _ && _) eqn:E; [|done].
    split_bools. by apply Hok.
  - etransitivity; [|exact Hc]. rewrite !pending_count_sum, <-list_fmap_compose. apply lsum_le, Forall_forall.
    intros r _. unfold compose, has_payload. destruct (mark_payload i s f r Hf) as [-> | ->]; [done|]. by destruct (sv_payload r).
  - etransitivity; [|exact Hb]. unfold pending_bytes. rewrite <-list_fmap_compose. apply lsum_le, Forall_forall.
    intros r _. unfold compose, payload_bytes. destruct (mark_payload i s f r Hf) as [-> | ->]; [done|].
    destruct (sv_payload r); unfold zlen; lia.
Qed.

Lemma shrinking_failed m : shrinking (set_failed m).
Proof. intros r. split; [done|by left]. Qed.
Lemma shrinking_completed text : shrinking (set_completed text).
Proof. intros r. split; [done|by right]. Qed.
Lemma shrinking_dropped : shrinking drop_payload.
Proof. intros r. split; [done|by right]. Qed.
Create HintDb saves.
#[export] Hint Resolve shrinking_failed shrinking_completed shrinking_dropped : saves.

Lemma saves_check r db : saves_wf db → r ∈ saves db → save_check r = true.
Proof. intros (_ & Hrows & _) Hr. rewrite Forall_forall in Hrows. by apply Hrows. Qed.

(** The CHECK constraints after each update. *)
Lemma check_failed image r :
  save_check r = true → is_state SPending r = true →
  save_check (set_failed (if image : bool then image_message else save_message) r) = true.
Proof.
  unfold save_check, is_state, set_failed. cbn [sv_id sv_target sv_hash sv_payload sv_state sv_result sv_error].
  destruct (sv_state r); try done. intros H _. split_bools.
  destruct (sv_payload r); [|done]. destruct (sv_result r); [done|].
  rewrite H, H3, H4, H5. by destruct image; vm_compute.
Qed.

Lemma check_dropped r : save_check r = true → is_state SFailed r = true → save_check (drop_payload r) = true.
Proof.
  unfold save_check, is_state, drop_payload. cbn [sv_id sv_target sv_hash sv_payload sv_state sv_result sv_error].
  destruct (sv_state r); try done. intros H _. split_bools.
  destruct (sv_result r); [by destruct (sv_payload r)|]. destruct (sv_error r); [|by destruct (sv_payload r)].
  by rewrite H, H1, H4, H5.
Qed.

Lemma runes_fuel_length n l : (length (runes_fuel n l) <= n)%nat.
Proof. revert l. induction n as [|n IH]; intros l; cbn; [lia|]. destruct l; cbn; [lia|]. apply le_n_S, IH. Qed.

Lemma runes_length l : (length (runes_w l) <= length l)%nat.
Proof. apply runes_fuel_length. Qed.

Section Theory.
Context `{L : SaveCodecLaws} (DecodeConfig Decode : list Z → option (Z * Z * string)).

Lemma check_completed t r :
  zlen (MarshalResponse t) <= maxSavePayloadBytes → save_check r = true → is_state SPending r = true →
  save_check (set_completed (MarshalResponse t) r) = true.
Proof.
  unfold save_check, is_state, set_completed. cbn [sv_id sv_target sv_hash sv_payload sv_state sv_result sv_error].
  destruct (sv_state r); try done. intros Hlen H _. split_bools.
  destruct (sv_payload r); [|done]. destruct (sv_result r); [done|]. destruct (sv_error r); [done|].
  rewrite H, H4, H5. pose proof (response_length t). pose proof (runes_length (MarshalResponse t)).
  unfold len_between, zlen, maxSavePayloadBytes in *. cbn. lia.
Qed.

(** Failing a pending request: only its row changes, and the input stays. *)
Definition failed_row (image : bool) (i : string) (db : ledger) : ledger :=
  set_saves (mark i SPending (set_failed (if image then image_message else save_message)) <$> saves db) db.

Lemma fail_run i image db : saves_wf db → failTransactionSave i image db = (Ok tt, failed_row image i db).
Proof.
  intros Hs. unfold failTransactionSave. erewrite bind_run_Ok; [done|]. apply update_saves_run.
  intros r Hr _. apply check_failed. by eapply saves_check.
Qed.

Lemma failed_row_wf image i db : saves_wf db → saves_wf (failed_row image i db).
Proof.
  intros Hs. eapply (saves_wf_mark i SPending); [apply shrinking_failed| |exact Hs|done].
  intros r Hr _. apply check_failed. by eapply saves_check.
Qed.

Lemma apply_save_wp now p date imgs db :
  ledger_wf db → wp (apply_save now p date imgs) (λ _ db', ledger_wf db' ∧ saves db' = saves db) db.
Proof.
  intros Hwf. unfold apply_save. wp_step.
  - eapply wp_mono; [by apply addPreparedTransactionIn_wp|]. by intros resp db' (? & ? & _).
  - eapply wp_mono; [by apply updatePreparedTransactionIn_wp|]. by intros resp db' (old & _ & ? & ? & _).
Qed.

(** What one turn of the worker may do to a pending request. *)
Inductive save_outcome (now : Z) (i : string) (raw : list Z) (db : ledger) : res lerr unit → ledger → Prop :=
| outcome_completed p date imgs resp db1 :
    decode_save DecodeConfig Decode raw = Ok (p, date, imgs) →
    apply_save now p date imgs db = (Ok resp, db1) →
    let text := MarshalResponse (with_tags (transaction_tags_of db1 (resp_id resp)) resp) in
    zlen text <= maxSavePayloadBytes →
    save_outcome now i raw db (Ok tt) (set_saves (mark i SPending (set_completed text) <$> saves db) db1)
| outcome_failed image : save_outcome now i raw db (Ok tt) (failed_row image i db)
| outcome_retained p date imgs db1 :
    decode_save DecodeConfig Decode raw = Ok (p, date, imgs) →
    apply_save now p date imgs db = (Err EFull, db1) → save_outcome now i raw db (Err EFull) db.

Lemma process_run now i r raw db :
  ledger_wf db → saves_wf db → find_save i (saves db) = Some r → is_state SPending r = true →
  let out := processTransactionSave DecodeConfig Decode now i raw db in
  save_outcome now i raw db (fst out) (snd out).
Proof.
  intros Hwf Hs Hfind Hp out. unfold out, processTransactionSave.
  destruct (decode_save _ _ raw) as [[[p date] imgs]|image] eqn:Hd; [|rewrite fail_run by done; constructor].
  rewrite Hfind, Hp. cbn [negb]. pose proof (apply_save_wp now p date imgs db Hwf) as Ha. unfold wp in Ha.
  destruct (apply_save now p date imgs db) as [[resp|e] db1] eqn:Happ.
  - destruct Ha as [_ Hsv]. cbv zeta. destruct (_ >? _) eqn:Hbig; [rewrite fail_run by done; constructor|].
    unfold transactional. erewrite bind_run_Ok.
    2:{ apply update_saves_run. rewrite Hsv. intros q Hq _. apply check_completed; [lia|by eapply saves_check]. }
    rewrite Hsv. econstructor; [done|done|lia].
  - destruct e; cbn [retained]; try (rewrite fail_run by done; constructor). by econstructor.
Qed.

Lemma ledger_wf_saves l db : ledger_wf db → ledger_wf (set_saves l db).
Proof. intros H. exact H. Qed.

Lemma mark_steps i f l :
  (∀ r, is_state SPending r = true → row_step r (f r)) → Forall2 row_step l (mark i SPending f <$> l).
Proof.
  intros Hf. apply Forall2_fmap_r, Forall_Forall2_diag, Forall_true. intros r. unfold compose, mark.
  case_match; [|done]. split_bools. by apply Hf.
Qed.

Lemma outcome_step now i raw db r db' :
  ledger_wf db → saves_wf db → save_outcome now i raw db r db' →
  ledger_wf db' ∧ saves_wf db' ∧ Forall2 row_step (saves db) (saves db').
Proof.
  intros Hwf Hs Ho. destruct Ho as [p date imgs resp db1 Hd Happ text Hlen|image|p date imgs db1 _ _].
  - pose proof (apply_save_wp now p date imgs db Hwf) as Ha. unfold wp in Ha. rewrite Happ in Ha. destruct Ha as [Hwf1 Hsv].
    split; [by apply ledger_wf_saves|]. split; [|apply mark_steps; by constructor].
    eapply (saves_wf_mark i SPending); [apply shrinking_completed| |exact Hs|done].
    intros q Hq _. apply check_completed; [done|by eapply saves_check].
  - split; [by apply ledger_wf_saves|]. split; [by apply failed_row_wf|]. apply mark_steps. by constructor.
  - split; [done|]. split; [done|]. apply Forall_Forall2_diag, Forall_true. constructor.
Qed.

(** Requests still to be processed. *)
Definition waiting (l : list saverow) : nat := length (filter (λ r, is_state SPending r = true) l).

Lemma waiting_cons r l : waiting (r :: l) = ((if is_state SPending r then 1 else 0) + waiting l)%nat.
Proof. unfold waiting. rewrite filter_cons. destruct (is_state SPending r); case_decide; done. Qed.

Lemma waiting_mark i f l r :
  (∀ q, is_state SPending (f q) = false) → r ∈ l → sv_id r = i → is_state SPending r = true →
  (waiting (mark i SPending f <$> l) < waiting l)%nat.
Proof.
  intros Hf Hr Hi Hp.
  assert (∀ q, (if is_state SPending (mark i SPending f q) then 1 else 0) <= (if is_state SPending q then 1 else 0))%nat as Hle.
  { intros q. unfold mark. destruct (andb _ _); [rewrite Hf; lia|done]. }
  assert (∀ l, (waiting (mark i SPending f <$> l) <= waiting l)%nat) as Hall.
  { clear l Hr. induction l as [|q l IH]; [done|]. rewrite fmap_cons, !waiting_cons. specialize (Hle q). lia. }
  apply list_elem_of_split in Hr as (l1 & l2 & ->).
  assert (∀ l l', waiting (l ++ l') = (waiting l + waiting l')%nat) as Happ
    by (intros; unfold waiting; by rewrite filter_app, length_app).
  rewrite fmap_app, fmap_cons, !Happ, !waiting_cons, Hp. pose proof (Hall l1). pose proof (Hall l2).
  replace (is_state SPending (mark i SPending f r)) with false; [lia|].
  unfold mark. rewrite bool_decide_eq_true_2, Hp by done. symmetry. apply Hf.
Qed.

Lemma find_save_nodup db r : saves_wf db → r ∈ saves db → find_save (sv_id r) (saves db) = Some r.
Proof.
  intros (Hnd & _) Hr. unfold find_save. revert Hnd Hr. generalize (saves db). intros l.
  induction l as [|q l IH]; [by intros _ []%elem_of_nil|]. rewrite fmap_cons. intros [Hq Hnd]%NoDup_cons.
  rewrite elem_of_cons. intros [->|Hr]; cbn; [by rewrite decide_True|].
  rewrite decide_False; [|intros He; apply Hq; rewrite He; by apply list_elem_of_fmap_2].
  specialize (IH Hnd Hr). destruct (list_find _ l) as [[k q']|]; done.
Qed.

Lemma outcome_waiting now r raw db db' u :
  r ∈ saves db → is_state SPending r = true → save_outcome now (sv_id r) raw db (Ok u) db' →
  (waiting (saves db') < waiting (saves db))%nat.
Proof.
  intros Hr Hp Ho. inversion Ho; subst; cbn [saves set_saves failed_row]; by eapply waiting_mark.
Qed.

(** Why the worker stopped: the oldest pending request met a full database. *)
Definition stalled_on (now : Z) (db : ledger) : Prop :=
  ∃ k r, list_find (λ r, is_state SPending r = true) (saves db) = Some (k, r) ∧
    save_outcome now (sv_id r) (default [] (sv_payload r)) db (Err EFull) db.

Lemma process_loop_spec now fuel : ∀ db,
  ledger_wf db → saves_wf db → (waiting (saves db) <= fuel)%nat →
  let '(stalled, db') := process_loop DecodeConfig Decode fuel now db in
  ledger_wf db' ∧ saves_wf db' ∧ Forall2 row_step (saves db) (saves db') ∧
  if stalled : bool then stalled_on now db' else Forall (λ r, is_state SPending r = false) (saves db').
Proof.
  induction fuel as [|fuel IH]; intros db Hwf Hs Hfuel; cbn;
    destruct (list_find _ (saves db)) as [[k r]|] eqn:Hfind.
  2, 4: split; [done|]; split; [done|]; split; [apply Forall_Forall2_diag, Forall_true; done|];
    apply list_find_None in Hfind; eapply Forall_impl; [done|]; intros q Hq; by apply not_true_is_false.
  - apply list_find_Some in Hfind as (Hk%list_elem_of_lookup_2 & Hp & _). exfalso.
    assert (r ∈ filter (λ r, is_state SPending r = true) (saves db)) as Hin by by apply list_elem_of_filter.
    unfold waiting in Hfuel. destruct (filter _ (saves db)); [by apply elem_of_nil in Hin|cbn in Hfuel; lia].
  - pose proof Hfind as (Hk%list_elem_of_lookup_2 & Hp & _)%list_find_Some.
    pose proof (process_run now (sv_id r) r (default [] (sv_payload r)) db Hwf Hs (find_save_nodup db r Hs Hk) Hp) as Ho.
    cbv zeta in Ho. destruct (processTransactionSave _ _ _ _ _ db) as [[u|e] db1]; cbn [fst snd] in Ho.
    + destruct (outcome_step _ _ _ _ _ _ Hwf Hs Ho) as (Hwf1 & Hs1 & Hstep). apply outcome_waiting in Ho; [|done|done].
      specialize (IH db1 Hwf1 Hs1 ltac:(lia)). destruct (process_loop _ _ fuel now db1) as [stalled db2].
      destruct IH as (? & ? & ? & ?). split; [done|]. split; [done|]. split; [by etransitivity|done].
    + destruct (outcome_step _ _ _ _ _ _ Hwf Hs Ho) as (Hwf1 & Hs1 & Hstep).
      inversion Ho; subst. split; [done|]. split; [done|]. split; [done|]. exists k, r. by split.
Qed.

(** * Acceptance *)
Lemma DecodeRune_high b l : 128 <= b → hex_lower (DecodeRune (b :: l)).1 = false.
Proof.
  intros Hb. assert (128 <= (DecodeRune (b :: l)).1) as Hr; [|unfold hex_lower, between; lia].
  unfold DecodeRune, cont, between, RuneError. repeat (case_match; try (cbn; lia)).
Qed.

Lemma id_runes_length l : ∀ k,
  (∀ j b, l !! j = Some b → dash_at (k + Z.of_nat j) = true → b = 45) →
  id_runes k (runes_w l) = true → length (runes_w l) = length l.
Proof.
  induction l as [|b l IH]; intros k Hdash Hid; [done|]. rewrite runes_w_unfold in Hid |- * by done.
  destruct (DecodeRune (b :: l)) as [c w] eqn:Hdec. cbn [id_runes] in Hid. apply andb_prop in Hid as [Hc Hid].
  destruct (b <? 128) eqn:Hb.
  - unfold DecodeRune in Hdec. rewrite Hb in Hdec. injection Hdec as <- <-. cbn [snd drop length] in *. f_equal.
    apply (IH (k + Z.of_nat 1)); [|done]. intros j x Hj Hd. apply (Hdash (S j) x Hj). rewrite <-Hd. f_equal. lia.
  - pose proof (DecodeRune_high b l ltac:(lia)) as Hh. rewrite Hdec in Hh. cbn in Hh. rewrite Hh, orb_false_r in Hc.
    specialize (Hdash 0%nat b eq_refl). rewrite Z.add_0_r in Hdash. specialize (Hdash Hc). lia.
Qed.

Lemma valid_id_length i : ValidSaveRequestID i = true → length (runes i) = 36%nat.
Proof.
  unfold ValidSaveRequestID. intros H. split_bools. unfold runes. rewrite length_fmap, (id_runes_length _ 0); [|..|done].
  - unfold len in H. lia.
  - intros j b Hj. unfold dash_at. rewrite !orb_true_iff, !Z.eqb_eq, Z.add_0_l.
    intros Hd. assert (j = 8 ∨ j = 13 ∨ j = 18 ∨ j = 23)%nat as Hd' by lia.
    unfold nth_byte in *. destruct Hd' as [-> | [-> | [-> | ->]]]; rewrite Hj in *; cbn in *; lia.
Qed.

Lemma find_save_None i l : find_save i l = None → Forall (λ q, sv_id q ≠ i) l.
Proof.
  unfold find_save. destruct (list_find _ l) eqn:E; [done|]. intros _. by apply list_find_None in E.
Qed.

Lemma check_save_Ok i target req :
  check_save i target req = Ok tt →
  ValidSaveRequestID i = true ∧ 0 <= target ∧ zlen (MarshalPayload (SavePayload target req)) <= maxSavePayloadBytes.
Proof.
  unfold check_save. intros (u & H & Hr)%res_bind_Ok_inv. apply ensure_Ok in H. split_bools.
  do 4 (apply res_bind_Ok_inv in Hr as (? & _ & Hr)). apply ensure_Ok in Hr. split_bools. split; [done|]. lia.
Qed.

(** The row of an accepted request. *)
Definition new_save (i : string) (target : Z) (req : TransactionRequest) : saverow :=
  let payload := MarshalPayload (SavePayload target req) in
  SaveRow i target (Sum256 payload) (Some payload) SPending None None.

Definition queue_full (l : list saverow) (payload : list Z) : bool :=
  (pending_count l >=? maxPendingSaves) || (pending_bytes l + zlen payload >? maxPendingSaveBytes).

Lemma new_save_check i target req : check_save i target req = Ok tt → save_check (new_save i target req) = true.
Proof.
  intros (Hid & Ht & Hl)%check_save_Ok. pose proof (payload_length (SavePayload target req)) as Hp.
  unfold save_check, new_save. cbn [sv_id sv_target sv_hash sv_payload sv_state sv_result sv_error].
  rewrite (valid_id_length i Hid), sum256_length. unfold len_between, zlen, maxSavePayloadBytes in *. cbv iota beta zeta.
  rewrite !andb_true_iff, !Z.leb_le. lia.
Qed.

Lemma saves_wf_accept i target req db :
  saves_wf db → check_save i target req = Ok tt → find_save i (saves db) = None →
  queue_full (saves db) (MarshalPayload (SavePayload target req)) = false →
  saves_wf (set_saves (saves db ++ [new_save i target req]) db).
Proof.
  intros (Hnd & Hrows & Hc & Hb) Hck Hnone Hfull. apply orb_false_iff in Hfull as [Hfc Hfb].
  unfold saves_wf. cbn [saves set_saves]. split_and!.
  - rewrite fmap_app. apply NoDup_app. split; [done|]. split; [|apply NoDup_singleton].
    intros x Hx ->%list_elem_of_singleton. apply list_elem_of_fmap in Hx as (q & Hq & Hin).
    apply find_save_None in Hnone. rewrite Forall_forall in Hnone. by apply (Hnone q Hin).
  - apply Forall_app. split; [done|]. apply Forall_singleton. split; [exact (proj1 (check_save_Ok _ _ _ Hck))|by apply new_save_check].
  - revert Hfc. rewrite !pending_count_sum, fmap_app, lsum_app. cbn. unfold maxPendingSaves. lia.
  - unfold pending_bytes in *. rewrite fmap_app, lsum_app. cbn. lia.
Qed.

Lemma receive_run i target req db :
  saves_wf db → check_save i target req = Ok tt →
  let payload := MarshalPayload (SavePayload target req) in
  receive i target payload db =
    match find_save i (saves db) with
    | Some r => if decide (sv_hash r = Sum256 payload) then (Ok tt, db) else (Err ESaveConflict, db)
    | None =>
      if queue_full (saves db) payload then (Err ESaveQueueFull, db)
      else (Ok tt, set_saves (saves db ++ [new_save i target req]) db)
    end.
Proof.
  intros Hs Hck payload. unfold receive. rewrite (bind_run_Ok _ _ _ db db) by done. unfold require, ensure, queue_full.
  destruct (find_save i (saves db)) as [r|] eqn:Hfind; [destruct (decide (sv_hash r = Sum256 payload)) as [Hh|Hh]; [by rewrite bool_decide_eq_true_2|by rewrite bool_decide_eq_false_2]|].
  destruct (_ || _) eqn:Hfull; [done|]. cbn [negb]. rewrite (bind_run_Ok _ _ _ tt db) by done.
  unfold insert_save. rewrite (bind_run_Ok _ _ _ db db) by done. unfold require, ensure.
  pose proof (new_save_check i target req Hck) as Hc. unfold new_save in Hc |- *. fold payload in Hc |- *. rewrite Hc.
  rewrite bool_decide_eq_true_2 by by apply find_save_None. done.
Qed.

Lemma status_new i target req db :
  saves_wf (set_saves (saves db ++ [new_save i target req]) db) → check_save i target req = Ok tt →
  TransactionSaveStatus i (set_saves (saves db ++ [new_save i target req]) db) =
    (Ok (MkSave i SPending None "" None), set_saves (saves db ++ [new_save i target req]) db).
Proof.
  intros Hs (Hid & _ & _)%check_save_Ok. unfold TransactionSaveStatus, require, ensure. rewrite Hid.
  rewrite (bind_run_Ok _ _ _ tt _) by done. rewrite (bind_run_Ok _ _ _ _ _ (eq_refl : gets id _ = (Ok _, _))).
  assert (find_save i (saves (set_saves (saves db ++ [new_save i target req]) db)) = Some (new_save i target req)) as Hf.
  { apply (find_save_nodup _ (new_save i target req) Hs). cbn. set_solver. }
  cbv [id]. by rewrite Hf.
Qed.

(** Reading the status changes nothing. *)
Lemma status_same i db : snd (TransactionSaveStatus i db) = db.
Proof.
  unfold TransactionSaveStatus, require, ensure, mbind, stm_bind, lift, gets, id. repeat case_match; simplify_eq; done.
Qed.

Lemma AcceptTransactionSave_cases i target req db :
  saves_wf db →
  snd (AcceptTransactionSave i target req db) = db ∨
  (snd (AcceptTransactionSave i target req db) = set_saves (saves db ++ [new_save i target req]) db ∧
   saves_wf (set_saves (saves db ++ [new_save i target req]) db)).
Proof.
  intros Hs. unfold AcceptTransactionSave, lift.
  destruct (check_save i target req) as [[]|e] eqn:Hck; [|by left]. rewrite (bind_run_Ok _ _ _ tt db) by done.
  pose proof (receive_run i target req db Hs Hck) as Hrun. cbv zeta in Hrun.
  unfold wrapped, transactional, mbind, stm_bind. rewrite Hrun.
  destruct (find_save i (saves db)) as [r|] eqn:Hfind.
  - left. pose proof (status_same i db). case_decide; [|done]. by destruct (TransactionSaveStatus i db) as [[]?].
  - destruct (queue_full _ _) eqn:Hfull; [by left|right].
    pose proof (saves_wf_accept i target req db Hs Hck Hfind Hfull) as Hs'. by rewrite status_new.
Qed.

(** Acceptance: what [AcceptTransactionSave] does on every branch. An
    invalid request is refused; a known id with the same contents reports the
    status and changes nothing; a known id with other contents is a conflict;
    a full queue refuses; otherwise exactly one pending row is appended, whose
    payload decodes to the request, and the reply says pending. Only that row is
    ever added. *)
Theorem AcceptTransactionSave_correct i target req db :
  saves_wf db →
  let payload := MarshalPayload (SavePayload target req) in
  let out := AcceptTransactionSave i target req db in
  match check_save i target req with
  | Err e => out = (Err e, db)
  | Ok _ =>
    match find_save i (saves db) with
    | Some r =>
      if decide (sv_hash r = Sum256 payload) then out = wrapped (TransactionSaveStatus i) db ∧ snd out = db
      else out = (Err ESaveConflict, db)
    | None =>
      if queue_full (saves db) payload then out = (Err ESaveQueueFull, db)
      else
        out = (Ok (MkSave i SPending None "" None), set_saves (saves db ++ [new_save i target req]) db) ∧
        saves_wf (snd out) ∧
        (payload_ok (SavePayload target req) = true →
         sv_payload (new_save i target req) ≫= UnmarshalPayload = Some (SavePayload target req))
    end
  end.
Proof.
  intros Hs payload out. unfold out, AcceptTransactionSave, lift.
  destruct (check_save i target req) as [[]|e] eqn:Hck; [|done]. rewrite (bind_run_Ok _ _ _ tt db) by done.
  pose proof (receive_run i target req db Hs Hck) as Hrun. cbv zeta in Hrun. fold payload in Hrun |- *.
  unfold wrapped, transactional, mbind, stm_bind. rewrite Hrun.
  destruct (find_save i (saves db)) as [r|] eqn:Hfind.
  - case_decide; [|done]. split; [done|]. pose proof (status_same i db).
    by destruct (TransactionSaveStatus i db) as [[]?].
  - destruct (queue_full _ _) eqn:Hfull; [done|]. pose proof (saves_wf_accept i target req db Hs Hck Hfind Hfull) as Hs'.
    rewrite status_new by done. split; [done|]. split; [exact Hs'|]. apply payload_roundtrip.
Qed.

(** C24. The worker: [processTransactionSaves] always stops. Unless it stops at a
    request for which the database is out of ids, no request is left pending; the
    ledger and queue invariants hold; and every row of the queue either is as it
    was or went from pending to completed or failed, once. *)
Theorem processTransactionSaves_drains now db :
  ledger_wf db → saves_wf db →
  let '(stalled, db') := processTransactionSaves DecodeConfig Decode now db in
  ledger_wf db' ∧ saves_wf db' ∧ Forall2 row_step (saves db) (saves db') ∧
  if stalled : bool then stalled_on now db' else Forall (λ r, is_state SPending r = false) (saves db').
Proof. intros Hwf Hs. apply process_loop_spec; [done|done|]. unfold waiting. apply length_filter. Qed.

(** C7. One request, exactly once: a turn of the worker on a pending request
    either applies the decoded request to the ledger and marks the row completed
    with the response, in one step; or leaves every ledger table as it was and
    marks the row failed, keeping its input; or changes nothing. Afterwards both
    invariants hold. *)
Theorem processTransactionSave_outcome now i r raw db :
  ledger_wf db → saves_wf db → find_save i (saves db) = Some r → is_state SPending r = true →
  let out := processTransactionSave DecodeConfig Decode now i raw db in
  save_outcome now i raw db (fst out) (snd out) ∧ ledger_wf (snd out) ∧ saves_wf (snd out).
Proof.
  intros Hwf Hs Hf Hp out. pose proof (process_run now i r raw db Hwf Hs Hf Hp) as Ho. split; [exact Ho|].
  by destruct (outcome_step _ _ _ _ _ _ Hwf Hs Ho) as (? & ? & _).
Qed.

(** * The queue over time *)
Inductive save_call :=
| QAccept (i : string) (target : Z) (req : TransactionRequest)
| QDismiss (i : string)
| QWork
| QLedger (c : ledger_call).

Definition run_save_call (db : ledger) (c : Z * save_call) : ledger :=
  match c.2 with
  | QAccept i target req => snd (AcceptTransactionSave i target req db)
  | QDismiss i => snd (DismissFailedTransactionSave i db)
  | QWork => snd (processTransactionSaves DecodeConfig Decode c.1 db)
  | QLedger lc => run_ledger_call DecodeConfig Decode db (c.1, lc)
  end.

(** The queue grows at its end and its rows only move forward in their lives. *)
Definition forward (l l' : list saverow) : Prop :=
  ∃ l1 l2, l' = l1 ++ l2 ∧ Forall2 (rtc life_step) l l1.

#[local] Instance forward_refl : Reflexive forward.
Proof. intros l. exists l, []. rewrite app_nil_r. split; [done|]. by apply Forall_Forall2_diag, Forall_true. Qed.
#[local] Instance forward_trans : Transitive forward.
Proof.
  intros l1 l2 l3 (a & b & -> & H1) (c & d & -> & H2). apply Forall2_app_inv_l in H2 as (c1 & c2 & Hc1 & Hc2 & ->).
  exists c1, (c2 ++ d). rewrite app_assoc. split; [done|]. by etransitivity.
Qed.

Lemma forward_steps l l' : Forall2 row_step l l' → forward l l'.
Proof.
  intros H. exists l', []. rewrite app_nil_r. split; [done|]. eapply Forall2_impl; [done|].
  intros x y Hs. apply rtc_once. by constructor.
Qed.

(** A completed row has no further life. *)
Lemma completed_stays r r' : rtc life_step r r' → is_state SCompleted r = true → r' = r.
Proof.
  induction 1 as [|r1 r2 r3 Hs _ IH]; [done|]. intros Hc.
  assert (r2 = r1) as -> by (destruct Hs as [? ? Hr|r Hf]; [destruct Hr as [|r ? Hp|r ? Hp]; [done| |]|];
    unfold is_state in *; destruct (sv_state r); done).
  auto.
Qed.

Lemma completed_final l l' r : forward l l' → r ∈ l → is_state SCompleted r = true → r ∈ l'.
Proof.
  intros (l1 & l2 & -> & H) [k Hk]%list_elem_of_lookup Hc. destruct (Forall2_lookup_l _ _ _ _ _ H Hk) as (r' & Hk' & Hr).
  apply completed_stays in Hr as ->; [|done]. apply elem_of_app. left. by eapply list_elem_of_lookup_2.
Qed.

Lemma dismiss_run i db :
  saves_wf db → let db' := snd (DismissFailedTransactionSave i db) in
  db' = db ∨ db' = set_saves (mark i SFailed drop_payload <$> saves db) db.
Proof.
  intros Hs. unfold DismissFailedTransactionSave.
  destruct (ValidSaveRequestID i); [|by left]. rewrite (bind_run_Ok (require true _) _ db tt db) by done.
  right. erewrite bind_run_Ok; [|apply update_saves_run]; [unfold require, lift; done|]. intros r Hr _. apply check_dropped. by eapply saves_check.
Qed.

Lemma run_save_call_step db c :
  ledger_wf db → saves_wf db →
  let db' := run_save_call db c in ledger_wf db' ∧ saves_wf db' ∧ forward (saves db) (saves db').
Proof.
  intros Hwf Hs. destruct c as [now [i target req|i| |c]]; cbn [run_save_call fst snd].
  - pose proof (AcceptTransactionSave_cases i target req db Hs) as [-> | (-> & Hs')]; [done|].
    split; [by apply ledger_wf_saves|]. split; [done|]. eexists (saves db), _. split; [done|].
    by apply Forall_Forall2_diag, Forall_true.
  - destruct (dismiss_run i db Hs) as [-> | ->]; [done|]. split; [by apply ledger_wf_saves|]. split.
    + eapply (saves_wf_mark i SFailed); [apply shrinking_dropped| |exact Hs|done]. intros r Hr _. apply check_dropped.
      by eapply saves_check.
    + eexists _, []. rewrite app_nil_r. split; [done|]. apply Forall2_fmap_r, Forall_Forall2_diag, Forall_true.
      intros r. unfold compose, mark. case_match; [|done]. split_bools. apply rtc_once. by constructor.
  - pose proof (process_loop_spec now (length (saves db)) db Hwf Hs ltac:(apply length_filter)) as H.
    unfold processTransactionSaves. destruct (process_loop _ _ _ _ db) as [stalled db'].
    destruct H as (? & ? & ? & _). split; [done|]. split; [done|]. by apply forward_steps.
  - destruct (run_ledger_call_kept DecodeConfig Decode db (now, c) Hwf) as [Hwf' Hsv]. split; [done|].
    unfold saves_wf. rewrite Hsv. done.
Qed.

(** The queue over time: over any sequence of acceptances, dismissals, runs
    of the worker and other ledger calls, the ledger and queue invariants hold
    (ids unique, at most 32 requests and 128 MiB of input held), no row is ever
    lost or replaced, and a row that was completed stays completed with the same
    response: a request is applied to the ledger at most once. *)
Theorem save_calls_forward db calls :
  ledger_wf db → saves_wf db →
  let db' := foldl run_save_call db calls in
  ledger_wf db' ∧ saves_wf db' ∧ forward (saves db) (saves db') ∧
  (∀ r, r ∈ saves db → is_state SCompleted r = true → r ∈ saves db').
Proof.
  intros Hwf Hs db'.
  assert (ledger_wf db' ∧ saves_wf db' ∧ forward (saves db) (saves db')) as (? & ? & Hf).
  { unfold db'. clear db'. revert db Hwf Hs. induction calls as [|c calls IH]; intros db Hwf Hs; cbn [foldl]; [done|].
    destruct (run_save_call_step db c Hwf Hs) as (Hwf1 & Hs1 & Hf1).
    destruct (IH _ Hwf1 Hs1) as (? & ? & ?). split; [done|]. split; [done|]. by etransitivity. }
  split; [done|]. split; [done|]. split; [done|]. intros r. by apply completed_final.
Qed.
End Theory.

(** * Witnesses

    A codec for which the laws hold: a payload is its number among all payloads
    between braces, and a response is known by its id. *)
Definition image_tuple (i : TransactionImageRequest) := (ireq_filename i, ireq_data i, ireq_mime i).
Definition request_tuple (q : TransactionRequest) :=
  (req_account q, req_date q, req_time q, req_item q, req_type q, req_amount q, req_memo q,
   (req_tags q, req_new_tag_paths q, image_tuple <$> req_images q, req_delete_images q, req_link_add q, req_link_remove q)).

Definition tuple_image (x : string * string * string) : TransactionImageRequest :=
  let '(a, b, c) := x in ImageRequest a b c.
Definition tuple_payload (x : Z * _) : transactionSavePayload :=
  let '(n, (a, b, c, d, e, f, g, (h, i, j, k, l, m))) := x in
  SavePayload n (Request a b c d e f g h i (tuple_image <$> j) k l m).

Definition payload_code (p : transactionSavePayload) : positive := encode (pl_target p, request_tuple (pl_request p)).
Definition code_payload (x : positive) : option transactionSavePayload := tuple_payload <$> decode x.

Lemma code_payload_code p : code_payload (payload_code p) = Some p.
Proof.
  unfold code_payload, payload_code. rewrite decode_encode. destruct p as [n q]. destruct q. cbn. do 3 f_equal.
  rewrite <-list_fmap_compose. etransitivity; [|apply list_fmap_id]. apply list_fmap_ext. by intros _ [] _.
Qed.

#[local] Instance demo_codec : SaveCodec := {
  MarshalPayload p := [123; Zpos (payload_code p); 125];
  UnmarshalPayload l := match l with [_; Zpos x; _] => code_payload x | _ => None end;
  MarshalResponse r := [123; 48 + resp_id r mod 10; 125];
  UnmarshalResponse l := Some (Response (nth 1 l 0 - 48) "" 0 "" "" 0 0 "" []);
  Sum256 l := replicate 31 0 ++ [lsum l mod 256]
}.

#[local] Instance demo_codec_laws : SaveCodecLaws demo_codec.
Proof.
  split.
  - intros p _. apply code_payload_code.
  - intros p. vm_compute. done.
  - intros r. unfold MarshalResponse, demo_codec. rewrite runes_w_unfold by done.
    change (DecodeRune (123 :: _)) with (123, 1%nat). cbn [drop snd]. rewrite runes_w_unfold by done. cbn [length]. lia.
  - intros l. unfold Sum256, demo_codec. by rewrite length_app, length_replicate.
Qed.

Definition demo_id (last : string) : string := "00000000-0000-4000-8000-00000000000" +:+ last.

Lemma saves_wf_empty : saves_wf empty_ledger.
Proof. split_and!; [apply NoDup_nil_2|constructor|done|done]. Qed.

(** Two requests, one repeated and one in conflict; the second fails when it is
    processed because the transaction to update does not exist. *)
Definition demo_saves : list (Z * save_call) :=
  [(1, QAccept (demo_id "1") 0 (demo_add "bank" "2024-05-02" "salary" "income" 1000));
   (2, QAccept (demo_id "1") 0 (demo_add "bank" "2024-05-02" "salary" "income" 1000));
   (3, QAccept (demo_id "2") 9 (demo_add "bank" "2024-05-01" "lunch" "expense" 300));
   (4, QWork); (5, QDismiss (demo_id "2"));
   (6, QAccept (demo_id "1") 0 (demo_add "bank" "2024-05-02" "salary" "income" 1000)); (7, QWork)].

Lemma save_calls_forward_witness :
  let db := foldl (run_save_call demo_decoder demo_decoder) empty_ledger demo_saves in
  ledger_wf empty_ledger ∧ saves_wf empty_ledger ∧
  ((λ r, (sv_id r, is_state SCompleted r, has_payload r)) <$> saves db) = [(demo_id "1", true, false); (demo_id "2", false, false)] ∧
  size (transactions db) = 1%nat ∧ ledger_wf db ∧ saves_wf db.
Proof.
  intros db. split; [exact ledger_wf_empty|]. split; [exact saves_wf_empty|]. split; [vm_compute; reflexivity|].
  split; [vm_compute; reflexivity|].
  destruct (save_calls_forward demo_decoder demo_decoder empty_ledger demo_saves ledger_wf_empty saves_wf_empty)
    as (Hwf & Hs & _). split; [exact Hwf|exact Hs].
Defined.

Lemma AcceptTransactionSave_correct_witness :
  let req := demo_add "bank" "2024-05-02" "salary" "income" 1000 in
  check_save (demo_id "1") 0 req = Ok tt ∧ saves_wf empty_ledger ∧
  fst (AcceptTransactionSave (demo_id "1") 0 req empty_ledger) = Ok (MkSave (demo_id "1") SPending None "" None).
Proof.
  intros req. assert (check_save (demo_id "1") 0 req = Ok tt) as Hc by (vm_compute; reflexivity).
  split; [exact Hc|]. split; [exact saves_wf_empty|].
  pose proof (AcceptTransactionSave_correct (demo_id "1") 0 req empty_ledger saves_wf_empty) as H.
  cbv zeta in H. rewrite Hc in H. cbn [saves empty_ledger find_save list_find fmap option_fmap option_map] in H.
  replace (queue_full [] _) with false in H by (vm_compute; reflexivity). destruct H as [-> _]. reflexivity.
Defined.

Definition demo_queue : ledger :=
  foldl (run_save_call demo_decoder demo_decoder) empty_ledger (take 3 demo_saves).

Lemma demo_queue_wf : ledger_wf demo_queue ∧ saves_wf demo_queue.
Proof.
  unfold demo_queue. pose proof ledger_wf_empty as Hl. pose proof saves_wf_empty as Hs. revert Hl Hs.
  generalize empty_ledger (take 3 demo_saves). intros db l. revert db.
  induction l as [|c l IH]; intros db Hl Hs; [done|]. cbn [foldl].
  destruct (run_save_call_step demo_decoder demo_decoder db c Hl Hs) as (? & ? & _). by apply IH.
Qed.

Lemma processTransactionSaves_drains_witness :
  let out := processTransactionSaves demo_decoder demo_decoder 9 demo_queue in
  ledger_wf demo_queue ∧ saves_wf demo_queue ∧ waiting (saves demo_queue) = 2%nat ∧ fst out = false ∧
  waiting (saves (snd out)) = 0%nat ∧ ledger_wf (snd out).
Proof.
  intros out. destruct demo_queue_wf as [Hl Hs]. split; [exact Hl|]. split; [exact Hs|].
  do 3 (split; [vm_compute; reflexivity|]).
  pose proof (processTransactionSaves_drains demo_decoder demo_decoder 9 demo_queue Hl Hs) as H. fold out in H.
  destruct out as [stalled db']. exact (proj1 H).
Defined.

Lemma processTransactionSave_outcome_witness :
  let req := demo_add "bank" "2024-05-02" "salary" "income" 1000 in
  let raw := MarshalPayload (SavePayload 0 req) in
  let out := processTransactionSave demo_decoder demo_decoder 9 (demo_id "1") raw demo_queue in
  find_save (demo_id "1") (saves demo_queue) = Some (new_save (demo_id "1") 0 req) ∧
  size (transactions (snd out)) = 1%nat ∧ ledger_wf (snd out).
Proof.
  intros req raw out.
  assert (find_save (demo_id "1") (saves demo_queue) = Some (new_save (demo_id "1") 0 req)) as Hf
    by vm_cast_no_check (@eq_refl _ (Some (new_save (demo_id "1") 0 req))).
  split; [exact Hf|]. split; [vm_compute; reflexivity|]. destruct demo_queue_wf as [Hl Hs].
  exact (proj1 (proj2 (processTransactionSave_outcome demo_decoder demo_decoder 9 (demo_id "1") _ raw demo_queue Hl Hs Hf eq_refl))).
Defined.
