(* ===== verification/LedgerWorker.v ===== *)
(** The worker of the save queue ([database/transaction_save_worker.go]): one
    goroutine per instance, woken by the service calls that queue a save, joined
    before the database closes. The methods run under one mutex, so each critical
    section is one step of a labelled transition system; between two sections
    any other thread may run. *)
From Stdlib Require Import ZArith Lia.
From stdpp Require Import base list relations.
From S2P Require Import Prelude.

(** * State *)

(** Where the goroutine is: about to lock, inside [work()] and still reading the
    queue, or inside [work()] after its last read. *)
Inductive runner := AtLock | Draining | Finished.

#[global] Instance runner_eq_dec : EqDecision runner.
Proof. solve_decision. Defined.

Record ledgerWork := LedgerWork {
  w_work : bool;               (** [work != nil] *)
  w_running : bool;
  w_pending : bool;
  w_closing : bool;
  w_runners : list runner;     (** the goroutines started by [WakeLedgerWorker] *)
  w_queue : nat;               (** durable requests not yet settled *)
  w_wakers : nat;              (** threads that still have to call [WakeLedgerWorker] *)
  w_fault : bool               (** a queue read or write failed in some run *)
}.

Definition idle_work : ledgerWork := LedgerWork false false false false [] 0 0 false.

(** * Critical sections *)

(** First section of [RegisterLedgerWorker]; the flag says whether the caller
    goes on to wake the worker. *)
Definition RegisterLedgerWorker (w : ledgerWork) : bool * ledgerWork :=
  let first := negb (w_work w) && negb (w_closing w) in
  (first, LedgerWork (w_work w || first) (w_running w) (w_pending w) (w_closing w) (w_runners w) (w_queue w)
            (if first then S (w_wakers w) else w_wakers w) (w_fault w)).

(** [WakeLedgerWorker]: the body under the lock. *)
Definition WakeLedgerWorker (w : ledgerWork) : ledgerWork :=
  if w_closing w || negb (w_work w) then w
  else if w_running w then
    LedgerWork (w_work w) (w_running w) true (w_closing w) (w_runners w) (w_queue w) (w_wakers w) (w_fault w)
  else LedgerWork (w_work w) true true (w_closing w) (w_runners w ++ [AtLock]) (w_queue w) (w_wakers w) (w_fault w).

(** The goroutine [k] at the top of its loop: exit, or take the pending flag. *)
Definition runner_lock (k : nat) (w : ledgerWork) : ledgerWork :=
  if w_pending w then
    LedgerWork (w_work w) (w_running w) false (w_closing w) (<[k := Draining]> (w_runners w)) (w_queue w) (w_wakers w) (w_fault w)
  else LedgerWork (w_work w) false (w_pending w) (w_closing w) (delete k (w_runners w)) (w_queue w) (w_wakers w) (w_fault w).

Definition set_runner (k : nat) (p : runner) (w : ledgerWork) : ledgerWork :=
  LedgerWork (w_work w) (w_running w) (w_pending w) (w_closing w) (<[k := p]> (w_runners w)) (w_queue w) (w_wakers w) (w_fault w).

Definition set_queue (n : nat) (w : ledgerWork) : ledgerWork :=
  LedgerWork (w_work w) (w_running w) (w_pending w) (w_closing w) (w_runners w) n (w_wakers w) (w_fault w).

Definition set_wakers (n : nat) (w : ledgerWork) : ledgerWork :=
  LedgerWork (w_work w) (w_running w) (w_pending w) (w_closing w) (w_runners w) (w_queue w) n (w_fault w).

Definition set_fault (w : ledgerWork) : ledgerWork :=
  LedgerWork (w_work w) (w_running w) (w_pending w) (w_closing w) (w_runners w) (w_queue w) (w_wakers w) true.

(** [stopLedgerWork] up to its wait. *)
Definition stop_begin (w : ledgerWork) : ledgerWork :=
  LedgerWork (w_work w) (w_running w) (w_pending w) true (w_runners w) (w_queue w) (w_wakers w) (w_fault w).

(** [for running { cond.Wait() }]: whether the caller may go on. *)
Definition stop_returns (w : ledgerWork) : bool := negb (w_running w).

(** [WaitForLedgerWork]: [None] while it waits, then whether the context ended. *)
Definition WaitForLedgerWork (ctx_done : bool) (w : ledgerWork) : option bool :=
  if w_running w && negb ctx_done then None else Some ctx_done.

Definition resetLedgerWork (w : ledgerWork) : ledgerWork :=
  LedgerWork false (w_running w) false false (w_runners w) (w_queue w) (w_wakers w) (w_fault w).

(** * Interleavings *)
Inductive wstep : ledgerWork → ledgerWork → Prop :=
| ws_register w : wstep w (RegisterLedgerWorker w).2
(** A save is committed; its thread has still to wake the worker. *)
| ws_accept w : wstep w (set_queue (S (w_queue w)) (set_wakers (S (w_wakers w)) w))
| ws_wake w n : w_wakers w = S n → wstep w (WakeLedgerWorker (set_wakers n w))
(** A status read or a notice list wakes the worker as well. *)
| ws_spurious w : wstep w (WakeLedgerWorker w)
| ws_lock w k : w_runners w !! k = Some AtLock → wstep w (runner_lock k w)
| ws_settle w k n : w_runners w !! k = Some Draining → w_queue w = S n → wstep w (set_queue n w)
| ws_drained w k : w_runners w !! k = Some Draining → w_queue w = 0%nat → wstep w (set_runner k Finished w)
| ws_fault w k : w_runners w !! k = Some Draining → wstep w (set_fault (set_runner k Finished w))
| ws_return w k : w_runners w !! k = Some Finished → wstep w (set_runner k AtLock w)
| ws_stop w : wstep w (stop_begin w)
(** [initialize] resets after its [stopLedgerWork] has returned. *)
| ws_reset w : w_closing w = true → stop_returns w = true → wstep w (resetLedgerWork w).

(** * Invariant *)
Definition work_inv (w : ledgerWork) : Prop :=
  length (w_runners w) = (if w_running w then 1 else 0)%nat ∧
  (w_pending w = true → w_running w = true) ∧
  ((0 < w_queue w)%nat →
     (0 < w_wakers w)%nat ∨ w_pending w = true ∨ Draining ∈ w_runners w ∨
     w_closing w = true ∨ w_work w = false ∨ w_fault w = true).

Lemma one_runner (k : nat) p (l : list runner) (b : bool) :
  length l = (if b then 1 else 0)%nat → l !! k = Some p → k = 0%nat ∧ l = [p] ∧ b = true.
Proof.
  intros Hl Hk. pose proof (lookup_lt_Some _ _ _ Hk). destruct b; [|lia].
  destruct l as [|q []]; [done| |done]. destruct k; [|cbn in *; lia]. by simplify_eq/=.
Qed.

(** Flags are enumerated; with at most one goroutine the list is known. *)
Ltac flags w := destruct w as [[] [] [] [] rs q wk []]; cbn in *; try done.
Ltac runners :=
  repeat match goal with
  | H : length ?rs = 0%nat |- _ => apply nil_length_inv in H; subst rs
  | H : length ?rs = 1%nat |- _ => destruct rs as [|? []]; [done| |done]; clear H
  | H : [] !! _ = Some _ |- _ => by rewrite lookup_nil in H
  | H : [?x] !! ?k = Some _ |- _ => destruct k; [|done]; injection H as ->
  end.

Lemma wstep_inv w w' : work_inv w → wstep w w' → work_inv w'.
Proof.
  intros (Hl & Hp & Hq) Hstep. unfold work_inv.
  destruct Hstep as [w|w|w n Hn|w|w k Hk|w k n Hk Hn|w k Hk Hn|w k Hk|w k Hk|w|w Hc Hs]; flags w; runners; cbn in *;
    (split; [done|]; split; [done|]; intros Hpos; try (specialize (Hq ltac:(lia))); subst);
    rewrite ?list_elem_of_singleton, ?elem_of_nil in *; try (naive_solver lia).
Qed.

Lemma reachable_inv w : rtc wstep idle_work w → work_inv w.
Proof.
  assert (work_inv idle_work) as H0 by (split; [done|]; split; [done|]; cbn; lia).
  intros Hr. revert H0. generalize idle_work Hr. induction 1; eauto using wstep_inv.
Qed.

(** The steps of the goroutine itself. *)
Inductive gostep : ledgerWork → ledgerWork → Prop :=
| go_lock w k : w_runners w !! k = Some AtLock → gostep w (runner_lock k w)
| go_settle w k n : w_runners w !! k = Some Draining → w_queue w = S n → gostep w (set_queue n w)
| go_drained w k : w_runners w !! k = Some Draining → w_queue w = 0%nat → gostep w (set_runner k Finished w)
| go_fault w k : w_runners w !! k = Some Draining → gostep w (set_fault (set_runner k Finished w))
| go_return w k : w_runners w !! k = Some Finished → gostep w (set_runner k AtLock w).

Lemma gostep_wstep w w' : gostep w w' → wstep w w'.
Proof. destruct 1; by econstructor. Qed.

(** How many steps the goroutine can still take. *)
Definition left_steps (w : ledgerWork) : nat :=
  match w_runners w with
  | [] => 0
  | AtLock :: _ => if w_pending w then w_queue w + 4 else 1
  | Finished :: _ => if w_pending w then w_queue w + 5 else 2
  | Draining :: _ => if w_pending w then w_queue w + 6 else w_queue w + 3
  end.

Lemma gostep_decreases w w' : work_inv w → gostep w w' → (left_steps w' < left_steps w)%nat.
Proof.
  intros (Hl & _) Hstep. unfold left_steps.
  destruct Hstep as [w k Hk|w k n Hk Hn|w k Hk Hn|w k Hk|w k Hk]; flags w; runners; cbn in *; subst; lia.
Qed.

Lemma gosteps_bounded n w w' : work_inv w → nsteps gostep n w w' → (n <= left_steps w)%nat.
Proof.
  intros Hw Hn. revert Hw. induction Hn as [|n w1 w2 w3 Hs _ IH]; intros Hw; [lia|].
  pose proof (gostep_decreases _ _ Hw Hs). specialize (IH (wstep_inv _ _ Hw (gostep_wstep _ _ Hs))). lia.
Qed.

Lemma running_progress w : work_inv w → w_running w = true → ∃ w', gostep w w'.
Proof.
  intros (Hl & _) Hr. rewrite Hr in Hl. destruct (w_runners w) as [|p []] eqn:E; [done| |done].
  destruct p; [eexists; apply (go_lock w 0); by rewrite E| |eexists; apply (go_return w 0); by rewrite E].
  destruct (w_queue w) as [|n] eqn:Hq; eexists; [apply (go_drained w 0)|apply (go_settle w 0 n)]; by rewrite ?E.
Qed.


(** Stopping joins the worker: in every reachable state the goroutine can take
    only a bounded number of further steps before it has exited, it is blocked
    by nothing else, and once [stopLedgerWork] has returned, no step but the reset
    of a new initialization lets any work run again. *)
Theorem stop_joins_worker w :
  rtc wstep idle_work w →
  (∀ n w', nsteps gostep n w w' → (n <= left_steps w)%nat) ∧
  (stop_returns w = false → ∃ w', gostep w w') ∧
  (w_closing w = true → stop_returns w = true → ∀ w', wstep w w' →
     (w_closing w' = true ∧ stop_returns w' = true ∧ w_runners w' = []) ∨ w' = resetLedgerWork w).
Proof.
  intros Hr. pose proof (reachable_inv w Hr) as Hinv. split; [intros n w'; by apply gosteps_bounded|]. split.
  - intros Hs. apply running_progress; [done|]. unfold stop_returns in Hs. by apply negb_false_iff in Hs.
  - destruct Hinv as (Hl & _). unfold stop_returns. intros Hc Hs w' Hstep.
    destruct Hstep; flags w; runners; cbn in *; first [by right|by left].
Qed.

(** A save accepted while the worker is finishing is still picked up. *)
Definition late_save : ledgerWork :=
  LedgerWork true true false false [Finished] 1 1 false.

Lemma late_save_reachable : rtc wstep idle_work late_save.
Proof.
  eapply rtc_l; [apply ws_register|]. cbn. eapply rtc_l; [by apply (ws_wake _ 0)|]. cbn.
  eapply rtc_l; [by apply (ws_lock _ 0)|]. cbn. eapply rtc_l; [by apply (ws_drained _ 0)|]. cbn.
  eapply rtc_l; [apply ws_accept|]. apply rtc_refl.
Qed.


Lemma stop_joins_worker_witness :
  rtc wstep idle_work late_save ∧ left_steps late_save = 2%nat ∧ ∃ w', gostep late_save w'.
Proof.
  split; [exact late_save_reachable|]. split; [reflexivity|].
  exact (proj1 (proj2 (stop_joins_worker late_save late_save_reachable)) eq_refl).
Defined.
