(* ===== verification/Throttle.v ===== *)
(** The account-level login throttle ([control/login_throttle.go] with the policy
    of [serverauth/login_throttle.go]): consecutive failures lock an account, the
    lock doubles up to a maximum, and old rows are purged. Times are in
    milliseconds as the store keeps them, durations in nanoseconds. *)
From Stdlib Require Import ZArith Lia.
From stdpp Require Import base gmap list strings sorting.
From S2P Require Import Prelude GoText Validation.
Open Scope Z_scope.

Inductive terr := EThrottleKey | EPolicyFailures | EPolicyLocks | EPolicyMaxLock | EPolicyDecay | EOperationTime | EThrottleCheck.

(** * Policy *)
Definition Second : Z := 1000000000.
Definition Minute : Z := 60 * Second.
Definition Hour : Z := 60 * Minute.

Record LoginThrottlePolicy := Policy { MaxFailures : Z; BaseLock : Z; MaxLock : Z; Decay : Z }.

Definition policy_validate (p : LoginThrottlePolicy) : res terr unit :=
  if (MaxFailures p <? 1) || (MaxFailures p >? 1000) then Err EPolicyFailures
  else if (BaseLock p <? Second) || (MaxLock p <? BaseLock p) then Err EPolicyLocks
  else if MaxLock p >? 24 * Hour then Err EPolicyMaxLock
  else if Decay p <? MaxLock p then Err EPolicyDecay
  else Ok tt.

(** The policy of the server. *)
Definition loginThrottlePolicy : LoginThrottlePolicy := Policy 5 (15 * Minute) (60 * Minute) (24 * Hour).

Definition validateLoginThrottleKey (key : string) : res terr unit :=
  if negb (len key =? 64) then Err EThrottleKey
  else if forallb (λ c, between 48 57 c || between 97 102 c) (bytes key) then Ok tt
  else Err EThrottleKey.

(** [validateOperationTime]: years 2000 to 9999, truncated to milliseconds; the
    argument is in nanoseconds since 1970. *)
Definition year2000 : Z := 946684800000.
Definition year10000 : Z := 253402300800000.
Definition validateOperationTime (t : Z) : res terr Z :=
  if (t <? year2000 * 1000000) || (t >=? year10000 * 1000000) then Err EOperationTime else Ok (t / 1000000).

(** * The table *)
Record throttle_row := ThrottleRow {
  tr_failure_count : Z;
  tr_lock_level : Z;
  tr_locked_until : option Z;
  tr_last_failure : Z
}.

Record throttle_store := ThrottleStore { throttle : gmap string throttle_row; throttleWrites : Z }.

Abbreviation throttle_op := (stm throttle_store terr).

(** The CHECK constraints of [login_throttle]. *)
Definition throttle_check (r : throttle_row) : bool :=
  (0 <=? tr_failure_count r) && (tr_failure_count r <=? 1000000)
  && (0 <=? tr_lock_level r) && (tr_lock_level r <=? 64) && (0 <? tr_last_failure r)
  && match tr_locked_until r with None => true | Some l => tr_last_failure r <? l end.

Definition LoginThrottleLockedUntil (key : string) (time : Z) : throttle_op (option Z) :=
  lift (validateLoginThrottleKey key);;
  now ← lift (validateOperationTime time);
  s ← gets id;
  mret (l ← (throttle s !! key) ≫= tr_locked_until; if l >? now then Some l else None).

(** [for duration := BaseLock; duration < MaxLock && maxLevel < 64; duration *= 2] *)
Fixpoint max_level (fuel : nat) (duration maxLock level : Z) : Z :=
  match fuel with
  | O => level
  | S fuel' => if (duration <? maxLock) && (level <? 64) then max_level fuel' (duration * 2) maxLock (level + 1) else level
  end.

(** [for cycle := 1; cycle < lockLevel && duration < MaxLock; cycle++]: at most
    [lockLevel - 1] turns. *)
Fixpoint doubled (cycles : nat) (duration maxLock : Z) : Z :=
  match cycles with
  | O => duration
  | S k => if duration <? maxLock then doubled k (duration * 2) maxLock else duration
  end.

Definition lock_duration (p : LoginThrottlePolicy) (level : Z) : Z :=
  let d := doubled (Z.to_nat (level - 1)) (BaseLock p) (MaxLock p) in
  if d >? MaxLock p then MaxLock p else d.

(** [now.Sub(t)] of two millisecond times: saturated to an int64 of nanoseconds. *)
Definition sub_ms (now t : Z) : Z := Z.max MinInt64 (Z.min MaxInt64 ((now - t) * 1000000)).

(** The counters a failure at [now] starts from. *)
Definition counters (p : LoginThrottlePolicy) (now : Z) (r : option throttle_row) : Z * Z :=
  match r with
  | None => (0, 0)
  | Some r => if sub_ms now (tr_last_failure r) >? Decay p then (0, 0) else (tr_failure_count r, tr_lock_level r)
  end.

Definition locked_at (now : Z) (r : option throttle_row) : option Z :=
  l ← r ≫= tr_locked_until; if l >? now then Some l else None.

(** The row one more failure leaves. *)
Definition failure_row (p : LoginThrottlePolicy) (now : Z) (r : option throttle_row) : throttle_row :=
  let '(count, level) := counters p now r in
  let count' := count + 1 in
  if count' >=? MaxFailures p then
    let top := max_level 64 (BaseLock p) (MaxLock p) 1 in
    let level' := if level <? top then level + 1 else level in
    ThrottleRow 0 level' (Some ((now * 1000000 + lock_duration p level') / 1000000)) now
  else ThrottleRow count' level None now.

Definition loginThrottleGCInterval : Z := 128.

Definition maybePurgeLoginThrottle (now : Z) (p : LoginThrottlePolicy) : throttle_op unit :=
  modify (λ s,
    let n := throttleWrites s + 1 in
    let cutoff := (now * 1000000 - Decay p) / 1000000 in
    ThrottleStore
      (if n mod loginThrottleGCInterval =? 0
       then filter (λ '(_, r), ¬ default (tr_last_failure r) (tr_locked_until r) < cutoff) (throttle s)
       else throttle s) n).

Definition RegisterLoginFailure (key : string) (time : Z) (p : LoginThrottlePolicy) : throttle_op (option Z) :=
  lift (validateLoginThrottleKey key);;
  lift (policy_validate p);;
  now ← lift (validateOperationTime time);
  s ← gets id;
  let r := throttle s !! key in
  lockedUntil ← match locked_at now r with
                | Some l => mret (Some l)
                | None =>
                  let r' := failure_row p now r in
                  require (throttle_check r') EThrottleCheck;;
                  modify (λ s, ThrottleStore (<[key := r']> (throttle s)) (throttleWrites s));;
                  mret (tr_locked_until r')
                end;
  maybePurgeLoginThrottle now p;;
  mret lockedUntil.

Definition ClearLoginFailures (key : string) : throttle_op unit :=
  lift (validateLoginThrottleKey key);;
  modify (λ s, ThrottleStore (delete key (throttle s)) (throttleWrites s)).

(** [checkLoginThrottle]: the remaining wait in nanoseconds, 0 when unlocked. *)
Definition checkLoginThrottle (key : string) (time : Z) : throttle_op Z :=
  l ← LoginThrottleLockedUntil key time;
  match l with
  | None => mret 0
  | Some l => let remaining := l * 1000000 - time in mret (if remaining <=? 0 then 0 else remaining)
  end.

(** * Facts about the lock *)
Lemma policy_valid p : policy_validate p = Ok tt →
  1 <= MaxFailures p <= 1000 ∧ Second <= BaseLock p <= MaxLock p ∧ MaxLock p <= 24 * Hour ∧ MaxLock p <= Decay p.
Proof. unfold policy_validate. repeat case_match; try done. intros _. lia. Qed.

Lemma max_level_bound fuel : ∀ d m l, l <= 64 → l <= max_level fuel d m l <= 64.
Proof.
  induction fuel as [|fuel IH]; intros d m l Hl; cbn; [lia|].
  destruct (_ && _) eqn:E; [|lia]. specialize (IH (d * 2) m (l + 1) ltac:(lia)). lia.
Qed.

Lemma doubled_grows n : ∀ d m, 0 < d → d <= doubled n d m.
Proof.
  induction n as [|n IH]; intros d m Hd; cbn; [lia|]. destruct (d <? m); [|lia].
  specialize (IH (d * 2) m ltac:(lia)). lia.
Qed.

Lemma lock_duration_bounds p level : policy_validate p = Ok tt → BaseLock p <= lock_duration p level <= MaxLock p.
Proof.
  intros (_ & Hb & _)%policy_valid. unfold lock_duration, Second in *.
  pose proof (doubled_grows (Z.to_nat (level - 1)) (BaseLock p) (MaxLock p) ltac:(lia)).
  destruct (_ >? _) eqn:E; lia.
Qed.

(** * The table invariant *)
Definition row_ok (p : LoginThrottlePolicy) (r : throttle_row) : Prop :=
  throttle_check r = true ∧ tr_failure_count r < MaxFailures p ∧ year2000 <= tr_last_failure r < year10000 ∧
  ∀ l, tr_locked_until r = Some l →
    tr_last_failure r * 1000000 + BaseLock p - 1000000 < l * 1000000 <= tr_last_failure r * 1000000 + MaxLock p.

Definition table_ok (p : LoginThrottlePolicy) (s : throttle_store) : Prop := map_Forall (λ _ r, row_ok p r) (throttle s).

Lemma counters_ok p now r :
  policy_validate p = Ok tt → (∀ q, r = Some q → row_ok p q) →
  0 <= (counters p now r).1 < MaxFailures p ∧ 0 <= (counters p now r).2 <= 64.
Proof.
  intros (HM & _)%policy_valid Hr. destruct r as [q|]; cbn; [|lia].
  destruct (Hr q eq_refl) as (Hc & Hf & _). unfold throttle_check in Hc. destruct (_ >? _); cbn; lia.
Qed.

#[local] Ltac Zify.zify_post_hook ::= Z.to_euclidean_division_equations.

Lemma failure_row_ok p now r :
  policy_validate p = Ok tt → year2000 <= now < year10000 → (∀ q, r = Some q → row_ok p q) →
  row_ok p (failure_row p now r).
Proof.
  intros Hp Hnow Hr. pose proof (counters_ok p now r Hp Hr) as Hc. unfold failure_row.
  destruct (counters p now r) as [count level]. cbn in Hc. pose proof (policy_valid p Hp) as (HM & Hb & _).
  pose proof (max_level_bound 64 (BaseLock p) (MaxLock p) 1 ltac:(lia)) as Hl.
  generalize dependent (max_level 64 (BaseLock p) (MaxLock p) 1). intros top Hl.
  unfold year2000, Second in *. destruct (_ >=? _) eqn:E; cbn.
  - set (level' := if level <? _ then _ else _). assert (0 <= level' <= 64) by (unfold level'; destruct (level <? _) eqn:?; lia).
    pose proof (lock_duration_bounds p level' Hp). split; [|split; [cbn; lia|split; [cbn; unfold year2000; lia|]]].
    + unfold throttle_check. cbn. lia.
    + cbn. intros l [= <-]. lia.
  - split; [|split; [cbn; lia|split; [cbn; unfold year2000; lia|done]]]. unfold throttle_check. cbn. lia.
Qed.

Lemma op_time_ok t now : validateOperationTime t = Ok now → now = t / 1000000 ∧ year2000 <= now < year10000.
Proof. unfold validateOperationTime, year2000, year10000. case_match; [done|]. intros [= <-]. lia. Qed.

Lemma purge_ok p now s : table_ok p s → table_ok p (snd (maybePurgeLoginThrottle now p s)).
Proof.
  intros Hs. cbn. unfold table_ok. cbn [throttle]. destruct (_ =? 0); [|done].
  intros k r [Hk _]%map_lookup_filter_Some. by eapply Hs.
Qed.

Definition purged (p : LoginThrottlePolicy) (now : Z) (s : throttle_store) : throttle_store :=
  snd (maybePurgeLoginThrottle now p s).

Definition put_row (key : string) (r : throttle_row) (s : throttle_store) : throttle_store :=
  ThrottleStore (<[key := r]> (throttle s)) (throttleWrites s).

Lemma table_rows p key s q : table_ok p s → throttle s !! key = Some q → row_ok p q.
Proof. intros Hs. apply Hs. Qed.

Lemma register_run p key t now s :
  policy_validate p = Ok tt → validateLoginThrottleKey key = Ok tt → validateOperationTime t = Ok now → table_ok p s →
  let r := throttle s !! key in
  RegisterLoginFailure key t p s =
    match locked_at now r with
    | Some l => (Ok (Some l), purged p now s)
    | None =>
      let r' := failure_row p now r in (Ok (tr_locked_until r'), purged p now (put_row key r' s))
    end.
Proof.
  intros Hp Hk Ht Hs r. pose proof (op_time_ok _ _ Ht) as [_ Hnow].
  unfold RegisterLoginFailure, require, lift, gets, mbind, stm_bind, id. rewrite Hk, Hp, Ht. fold r.
  destruct (locked_at now r); [done|].
  pose proof (failure_row_ok p now r Hp Hnow (λ q Hq, table_rows p key s q Hs Hq)) as [Hc _]. by rewrite Hc.
Qed.

Lemma put_row_ok p key r s : row_ok p r → table_ok p s → table_ok p (put_row key r s).
Proof. intros Hr Hs. by apply map_Forall_insert_2. Qed.

(** Failures are always counted: with a valid policy, key and time,
    [RegisterLoginFailure] never fails on a table it has maintained: the row it
    writes satisfies every CHECK of the schema and the table stays that way. A
    lock it reports lies in the future, and a lock it starts lasts between the
    base and the maximum duration. *)
Theorem RegisterLoginFailure_total p key t now s :
  policy_validate p = Ok tt → validateLoginThrottleKey key = Ok tt → validateOperationTime t = Ok now → table_ok p s →
  ∃ locked s', RegisterLoginFailure key t p s = (Ok locked, s') ∧ table_ok p s' ∧
    ∀ l, locked = Some l → now < l ∧
      (locked_at now (throttle s !! key) = None →
       now * 1000000 + BaseLock p - 1000000 < l * 1000000 <= now * 1000000 + MaxLock p).
Proof.
  intros Hp Hk Ht Hs. rewrite (register_run p key t now s Hp Hk Ht Hs). pose proof (op_time_ok _ _ Ht) as [_ Hnow].
  pose proof (policy_valid p Hp) as (_ & Hb & _). unfold Second in Hb.
  destruct (locked_at now (throttle s !! key)) as [l|] eqn:Hl.
  - eexists _, _. split; [done|]. split; [by apply purge_ok|]. intros l' [= <-]. split; [|done].
    revert Hl. unfold locked_at. destruct (_ ≫= tr_locked_until) as [l'|]; cbn; [|done]. case_match; [|done].
    intros [= <-]. lia.
  - pose proof (failure_row_ok p now _ Hp Hnow (λ q Hq, table_rows p key s q Hs Hq)) as Hr.
    eexists _, _. split; [done|]. split; [by apply purge_ok, put_row_ok|].
    destruct Hr as (_ & _ & _ & Hr). intros l Hlock. specialize (Hr l Hlock).
    replace (tr_last_failure (failure_row p now (throttle s !! key))) with now in Hr; [lia|].
    unfold failure_row. destruct (counters _ _ _). by case_match.
Qed.

(** * Guessing against one account *)

(** A login with a wrong credential: rejected while locked, else counted. *)
Definition attempt (p : LoginThrottlePolicy) (e : string * Z) (s : throttle_store) : bool * throttle_store :=
  match LoginThrottleLockedUntil e.1 e.2 s with
  | (Ok None, _) => (true, snd (RegisterLoginFailure e.1 e.2 p s))
  | _ => (false, s)
  end.

(** The times (ms) of the admitted attempts against [key]. *)
Fixpoint admitted (p : LoginThrottlePolicy) (key : string) (s : throttle_store) (es : list (string * Z)) : list Z :=
  match es with
  | [] => []
  | e :: es' =>
    let '(ok, s') := attempt p e s in
    (if ok && bool_decide (e.1 = key) then [e.2 / 1000000] else []) ++ admitted p key s' es'
  end.

(** Rows that behave alike from the time [t] on. *)
Definition alike (p : LoginThrottlePolicy) (t : Z) (r r' : option throttle_row) : Prop :=
  ∀ u, t <= u → counters p u r = counters p u r' ∧ locked_at u r = locked_at u r'.

Lemma purge_alike p now key s :
  policy_validate p = Ok tt → Decay p < MaxInt64 → table_ok p s →
  alike p now (throttle s !! key) (throttle (purged p now s) !! key).
Proof.
  intros Hp Hd Hs u Hu. cbn. destruct (_ =? 0); [|done].
  destruct (throttle s !! key) as [r|] eqn:Hr; [|by rewrite map_lookup_filter_None_2 by (by left)].
  destruct (decide (default (tr_last_failure r) (tr_locked_until r) < (now * 1000000 - Decay p) / 1000000)) as [Hold|Hnew].
  - rewrite map_lookup_filter_None_2 by (right; intros x Hx; rewrite Hr in Hx; injection Hx as <-; tauto). cbn.
    pose proof (policy_valid p Hp) as (_ & Hb & Hm & HD). unfold Second, Hour, Minute in *.
    destruct (Hs key r Hr) as (_ & _ & _ & Hl).
    assert (tr_last_failure r < (now * 1000000 - Decay p) / 1000000) as Hlast.
    { destruct (tr_locked_until r) as [l|] eqn:E; cbn in *; [|done]. specialize (Hl l eq_refl). lia. }
    assert ((sub_ms u (tr_last_failure r) >? Decay p) = true) as ->.
    { unfold sub_ms, MinInt64, MaxInt64 in *. lia. }
    split; [done|]. unfold locked_at. cbn. destruct (tr_locked_until r) as [l|]; cbn in *; [|done].
    destruct (l >? u) eqn:?; [lia|done].
  - by rewrite (map_lookup_filter_Some_2 _ _ key r Hr Hnew).
Qed.

Lemma alike_refl p t r : alike p t r r.
Proof. done. Qed.

Lemma attempt_cases p e s :
  policy_validate p = Ok tt → table_ok p s →
  attempt p e s = (false, s) ∨
  ∃ now, validateOperationTime e.2 = Ok now ∧ locked_at now (throttle s !! e.1) = None ∧
    attempt p e s = (true, purged p now (put_row e.1 (failure_row p now (throttle s !! e.1)) s)).
Proof.
  intros Hp Hs. unfold attempt, LoginThrottleLockedUntil, lift, gets, mbind, stm_bind, id.
  destruct (validateLoginThrottleKey e.1) as [[]|] eqn:Hk; [|by left].
  destruct (validateOperationTime e.2) as [now|] eqn:Ht; [|by left]. cbn.
  change (option_bind _ _ _ _) with (locked_at now (throttle s !! e.1)).
  destruct (locked_at now (throttle s !! e.1)) eqn:Hl; [by left|right]. exists now. split; [done|]. split; [done|].
  rewrite (register_run p e.1 e.2 now s) by done. by rewrite Hl.
Qed.

Lemma sorted_lookup (l : list Z) i j a b :
  StronglySorted Z.le l → l !! i = Some a → l !! j = Some b → (i <= j)%nat → a <= b.
Proof.
  intros Hs. revert i j. induction Hs as [|x l Hs IH Hle]; intros [|i] [|j] Ha Hb Hij; cbn in *; simplify_eq; try lia.
  - rewrite Forall_forall in Hle. apply Hle. by eapply list_elem_of_lookup_2.
  - eapply IH; [done|done|lia].
Qed.

Section Guessing.
Context (p : LoginThrottlePolicy) (Hp : policy_validate p = Ok tt) (Hdecay : Decay p < MaxInt64) (key : string).

Definition count_at (s : throttle_store) (t : Z) : Z := (counters p t (throttle s !! key)).1.

(** Events in the order of their times. *)
Definition from (t : Z) (es : list (string * Z)) : Prop :=
  StronglySorted (λ a b, a.2 <= b.2) es ∧ Forall (λ e, t <= e.2 / 1000000) es.

Lemma from_cons t e es : from t (e :: es) → from (e.2 / 1000000) es ∧ t <= e.2 / 1000000.
Proof.
  intros [Hs Hf]. apply StronglySorted_inv in Hs as [Hs Hle]. apply Forall_cons in Hf as [Ht _].
  split; [|done]. split; [done|]. eapply Forall_impl; [exact Hle|]. cbn. intros. lia.
Qed.

Lemma admitted_from es : ∀ s t, from t es → Forall (λ a, t <= a) (admitted p key s es).
Proof.
  induction es as [|e es IH]; intros s t Hf; cbn; [done|]. apply from_cons in Hf as [Hf Ht].
  destruct (attempt p e s) as [ok s']. apply Forall_app. split.
  - destruct (ok && _); [|done]. by apply Forall_singleton.
  - eapply Forall_impl; [by apply (IH s' (e.2 / 1000000))|]. cbn. lia.
Qed.

Lemma admitted_sorted es : ∀ s t, from t es → StronglySorted Z.le (admitted p key s es).
Proof.
  induction es as [|e es IH]; intros s t Hf; cbn; [constructor|]. apply from_cons in Hf as [Hf Ht].
  destruct (attempt p e s) as [ok s']. destruct (ok && _); cbn; [|by eapply IH].
  constructor; [by eapply IH|]. eapply Forall_impl; [by apply admitted_from|]. done.
Qed.

(** One event, as the rows of this key see it from then on. *)
Lemma attempt_step e s ok s' :
  table_ok p s → attempt p e s = (ok, s') →
  let now := e.2 / 1000000 in
  table_ok p s' ∧
  ((ok = false ∧ s' = s) ∨
   (ok = true ∧ e.1 ≠ key ∧ alike p now (throttle s !! key) (throttle s' !! key)) ∨
   (ok = true ∧ e.1 = key ∧ locked_at now (throttle s !! key) = None ∧
    alike p now (Some (failure_row p now (throttle s !! key))) (throttle s' !! key))).
Proof.
  intros Hs Hrun now. destruct (attempt_cases p e s Hp Hs) as [Heq|(now' & Ht & Hl & Heq)];
    rewrite Heq in Hrun; injection Hrun as <- <-; [by auto|].
  pose proof (op_time_ok _ _ Ht) as [-> Hnow]. fold now in Hl, Hnow |- *.
  assert (table_ok p (put_row e.1 (failure_row p now (throttle s !! e.1)) s)) as Hs1.
  { apply put_row_ok; [|done]. apply failure_row_ok; [done|done|]. intros q. by eapply table_rows. }
  split; [by apply purge_ok|]. right. pose proof (purge_alike p now key _ Hp Hdecay Hs1) as Ha.
  destruct (decide (e.1 = key)) as [<-|Hne].
  - right. replace (throttle (put_row _ _ _) !! e.1) with (Some (failure_row p now (throttle s !! e.1))) in Ha
      by (symmetry; apply lookup_insert_eq). auto.
  - left. replace (throttle (put_row _ _ _) !! key) with (throttle s !! key) in Ha
      by (symmetry; by apply lookup_insert_ne). auto.
Qed.

(** While the row is locked until [l], nothing before [l] is admitted. *)
Lemma locked_until es : ∀ s t r l, table_ok p s → from t es →
  alike p t (Some r) (throttle s !! key) → tr_locked_until r = Some l → Forall (λ a, l <= a) (admitted p key s es).
Proof.
  induction es as [|e es IH]; intros s t r l Hs Hf Ha Hl; cbn; [done|]. apply from_cons in Hf as [Hf Ht].
  destruct (attempt p e s) as [ok s'] eqn:Hrun. pose proof (attempt_step e s ok s' Hs Hrun) as (Hs' & Hcase).
  set (now := e.2 / 1000000) in *.
  assert (∀ s1, table_ok p s1 → alike p now (Some r) (throttle s1 !! key) → Forall (λ a, l <= a) (admitted p key s1 es)) as Hrest.
  { intros s1 Hs1 Ha1. by eapply IH. }
  assert (alike p now (Some r) (throttle s !! key)) as Hanow by (intros u Hu; apply Ha; lia).
  destruct Hcase as [[-> ->]|[(-> & Hne & Ha')|(-> & Hk & Hno & Ha')]].
  - by apply Hrest.
  - rewrite bool_decide_eq_false_2 by done. apply Hrest; [done|]. intros u Hu.
    destruct (Hanow u Hu) as [-> ->]. by apply Ha'.
  - rewrite bool_decide_eq_true_2 by done. cbn. destruct (Hanow now ltac:(lia)) as [_ Hla]. rewrite Hno in Hla.
    unfold locked_at in Hla. cbn in Hla. rewrite Hl in Hla. cbn in Hla. destruct (l >? now) eqn:E; [done|].
    apply Forall_cons. split; [lia|]. eapply Forall_impl; [by apply (admitted_from es s' now)|]. cbn. lia.
Qed.

(** The attempt that completes a series of [MaxFailures] is followed by a lock. *)
Lemma series_locks es : ∀ s t a0 rest y, table_ok p s → from t es →
  admitted p key s es = a0 :: rest → rest !! Z.to_nat (MaxFailures p - count_at s a0 - 1) = Some y →
  BaseLock p - 1000000 < (y - a0) * 1000000.
Proof.
  induction es as [|e es IH]; intros s t a0 rest y Hs Hf Hadm Hy; cbn in Hadm; [done|].
  apply from_cons in Hf as [Hf Ht]. destruct (attempt p e s) as [ok s'] eqn:Hrun.
  pose proof (attempt_step e s ok s' Hs Hrun) as (Hs' & Hcase). set (now := e.2 / 1000000) in *.
  destruct Hcase as [[-> ->]|[(-> & Hne & Ha)|(-> & Hk & Hno & Ha)]].
  - by eapply IH.
  - rewrite bool_decide_eq_false_2 in Hadm by done. cbn in Hadm. eapply IH; [done|done|done|].
    pose proof (admitted_from es s' now Hf) as Hall. rewrite Hadm in Hall. apply Forall_cons in Hall as [Hge _].
    unfold count_at in Hy |- *. by destruct (Ha a0 Hge) as [<- _].
  - rewrite bool_decide_eq_true_2 in Hadm by done. cbn in Hadm. injection Hadm as <- Hadm.
    pose proof (counters_ok p now (throttle s !! key) Hp (λ q Hq, table_rows p key s q Hs Hq)) as [Hc _].
    unfold count_at in Hy. revert Ha Hy. unfold failure_row. destruct (counters p now (throttle s !! key)) as [c level].
    cbn [fst] in *. destruct (c + 1 >=? MaxFailures p) eqn:E.
    + replace (Z.to_nat (MaxFailures p - c - 1)) with 0%nat by lia. set (lvl := if level <? _ then _ else _).
      intros Ha Hy. subst rest.
      eapply (locked_until es s' now) in Ha; [|done|done|done]. pose proof (lock_duration_bounds p lvl Hp).
      destruct (admitted p key s' es); [done|]. cbn in Hy. injection Hy as ->. apply Forall_cons in Ha as [Ha _]. lia.
    + intros Ha Hy. destruct (Z.to_nat (MaxFailures p - c - 1)) as [|n] eqn:Hn; [lia|].
      destruct rest as [|a1 rest]; [done|]. cbn in Hy.
      pose proof (admitted_from es s' now Hf) as Hall. rewrite Hadm in Hall. apply Forall_cons in Hall as [Hge1 Hall].
      destruct (Ha a1 Hge1) as [Hcount _]. cbn in Hcount.
      pose proof (policy_valid p Hp) as (_ & Hb & _ & HD).
      destruct (sub_ms a1 now >? Decay p) eqn:Hdec.
      * assert (a1 <= y).
        { pose proof (admitted_sorted es s' now Hf) as Hsrt. rewrite Hadm in Hsrt. apply StronglySorted_inv in Hsrt as [_ Hle].
          rewrite Forall_forall in Hle. apply Hle. by eapply list_elem_of_lookup_2. }
        unfold sub_ms, MinInt64, MaxInt64, Second in *. lia.
      * assert (BaseLock p - 1000000 < (y - a1) * 1000000); [|lia]. eapply IH; [done|done|done|].
        unfold count_at. rewrite <-Hcount. cbn. by replace (Z.to_nat (MaxFailures p - (c + 1) - 1)) with n by lia.
Qed.

Lemma guessing_bound es : ∀ s t i x y, table_ok p s → from t es →
  admitted p key s es !! i = Some x → admitted p key s es !! (i + Z.to_nat (MaxFailures p))%nat = Some y →
  BaseLock p - 1000000 < (y - x) * 1000000.
Proof.
  induction es as [|e es IH]; intros s t i x y Hs Hf Hx Hy; [done|].
  pose proof (series_locks (e :: es) s t) as Hser. pose proof (admitted_sorted (e :: es) s t Hf) as Hsrt.
  pose proof (policy_valid p Hp) as (HM & _). destruct i as [|i].
  - destruct (admitted p key s (e :: es)) as [|a0 rest] eqn:Hadm; [done|]. cbn in Hx. injection Hx as ->.
    replace (0 + Z.to_nat (MaxFailures p))%nat with (S (Z.to_nat (MaxFailures p - 1))) in Hy by lia. cbn in Hy.
    pose proof (counters_ok p x (throttle s !! key) Hp (λ q Hq, table_rows p key s q Hs Hq)) as [Hc _].
    fold (count_at s x) in Hc.
    destruct (lookup_lt_is_Some_2 rest (Z.to_nat (MaxFailures p - count_at s x - 1))) as [z Hz].
    { apply lookup_lt_Some in Hy. lia. }
    specialize (Hser x rest z Hs Hf eq_refl Hz).
    assert (z <= y); [|lia]. apply StronglySorted_inv in Hsrt as [Hsrt _].
    eapply sorted_lookup; [exact Hsrt|exact Hz|exact Hy|lia].
  - apply from_cons in Hf as [Hf Ht]. cbn in Hx, Hy. destruct (attempt p e s) as [ok s'] eqn:Hrun.
    pose proof (attempt_step e s ok s' Hs Hrun) as (Hs' & _). destruct (ok && _); cbn in Hx, Hy.
    + by eapply IH.
    + by eapply (IH s' (e.2 / 1000000) (S i)).
Qed.
End Guessing.

Lemma guesses_per_lock_core p key s es i x y :
  policy_validate p = Ok tt → Decay p < MaxInt64 → table_ok p s → StronglySorted (λ a b, a.2 <= b.2) es →
  admitted p key s es !! i = Some x → admitted p key s es !! (i + Z.to_nat (MaxFailures p))%nat = Some y →
  BaseLock p - 1000000 < (y - x) * 1000000.
Proof.
  intros Hp Hd Hs Hsrt Hx Hy. destruct es as [|e es]; [done|].
  eapply (guessing_bound p Hp Hd key (e :: es) s (e.2 / 1000000)); [done| |done|done].
  split; [done|]. apply StronglySorted_inv in Hsrt as [_ Hle]. apply Forall_cons. split; [lia|].
  eapply Forall_impl; [exact Hle|]. cbn. intros. lia.
Qed.

(** Guessing is slow: whatever wrong-credential attempts are made, on whatever
    accounts and at whatever nondecreasing times, between an attempt on an account
    that gets past the lock and the one [MaxFailures] later there are at least
    [BaseLock] (up to the stored millisecond). With the policy of the server: at most
    five guesses per account in any quarter of an hour. *)
Theorem guesses_per_lock p key s es i x y :
  policy_validate p = Ok tt → Decay p < MaxInt64 → table_ok p s → StronglySorted (λ a b, a.2 <= b.2) es →
  admitted p key s es !! i = Some x → admitted p key s es !! (i + Z.to_nat (MaxFailures p))%nat = Some y →
  BaseLock p - 1000000 < (y - x) * 1000000.
Proof. apply guesses_per_lock_core. Qed.

(** * Witnesses *)
Definition demo_key : string := of_bytes (replicate 64 97).
Definition demo_start : Z := 1700000000000 * 1000000.
Definition empty_throttle : throttle_store := ThrottleStore ∅ 0.

Lemma table_ok_empty p : table_ok p empty_throttle.
Proof. apply map_Forall_empty. Qed.

Lemma RegisterLoginFailure_total_witness :
  policy_validate loginThrottlePolicy = Ok tt ∧
  ∃ locked s', RegisterLoginFailure demo_key demo_start loginThrottlePolicy empty_throttle = (Ok locked, s') ∧
    table_ok loginThrottlePolicy s'.
Proof.
  split; [reflexivity|].
  destruct (RegisterLoginFailure_total loginThrottlePolicy demo_key demo_start 1700000000000 empty_throttle
    eq_refl eq_refl eq_refl (table_ok_empty _)) as (locked & s' & Hrun & Hok & _).
  exists locked, s'. split; [exact Hrun|exact Hok].
Defined.

(** One attempt per minute for forty minutes: the sixth admitted one comes after
    the first lock. *)
Definition demo_attempts : list (string * Z) := (λ k, (demo_key, demo_start + Z.of_nat k * Minute)) <$> seq 0 40.

Lemma guesses_per_lock_witness :
  length (admitted loginThrottlePolicy demo_key empty_throttle demo_attempts) = 10%nat ∧
  ∃ x y, admitted loginThrottlePolicy demo_key empty_throttle demo_attempts !! 0%nat = Some x ∧
    admitted loginThrottlePolicy demo_key empty_throttle demo_attempts !! 5%nat = Some y ∧
    15 * Minute - 1000000 < (y - x) * 1000000.
Proof.
  split; [vm_compute; reflexivity|]. exists 1700000000000, 1700001140000.
  assert (admitted loginThrottlePolicy demo_key empty_throttle demo_attempts !! 0%nat = Some 1700000000000) as Hx
    by (vm_compute; reflexivity).
  assert (admitted loginThrottlePolicy demo_key empty_throttle demo_attempts !! 5%nat = Some 1700001140000) as Hy
    by (vm_compute; reflexivity).
  split; [exact Hx|]. split; [exact Hy|].
  refine (guesses_per_lock loginThrottlePolicy demo_key empty_throttle demo_attempts 0 _ _ eq_refl eq_refl
    (table_ok_empty _) _ Hx Hy).
  unfold demo_attempts. repeat (constructor; [|repeat (constructor; [vm_compute; discriminate|]); constructor]). constructor.
Defined.
