(* ===== verification/RateLimit.v ===== *)
(** The HTTP rate limiter ([middleware/ratelimit.go]): sliding windows per client
    and bucket, a bounded table with shared overflow windows, garbage collection,
    and the choice of the bucket. Claim: while the table has room, the limiter
    answers exactly as a limiter that remembers every request forever. *)
From Stdlib Require Import ZArith Lia.
From stdpp Require Import base gmap list strings sorting.
From S2P Require Import Prelude GoText.
Open Scope Z_scope.

Definition globalRateLimitPerMinute : Z := 120.
Definition loginRateLimitPerMinute : Z := 10.
Definition aiTxRateLimitPerMinute : Z := 30.
Definition snapshotRateLimitPerMinute : Z := 10.

(** Times and durations in nanoseconds. *)
Definition rateLimitWindow : Z := 60 * 1000000000.
Definition rateLimitRetentionDuration : Z := rateLimitWindow * 2.
Definition maxRateLimiterEntries : Z := 4096.

Record requestWindow := Window { Timestamps : list Z; LastSeen : Z }.

Record RateLimiter := Limiter {
  windows : gmap string requestWindow;
  overflowWindows : gmap string requestWindow;
  maxEntries : Z;
  requestSeen : Z
}.

Definition NewRateLimiterWithMaxEntries (n : Z) : RateLimiter :=
  Limiter ∅ ∅ (if n <? 1 then maxRateLimiterEntries else n) 0.
Definition NewRateLimiter : RateLimiter := NewRateLimiterWithMaxEntries maxRateLimiterEntries.

(** allowed, remaining, reset in Unix seconds *)
Definition verdict : Type := bool * Z * Z.
Definition Unix (t : Z) : Z := t / 1000000000.

Definition recent (now : Z) (ts : list Z) : list Z := filter (λ t, t > now - rateLimitWindow) ts.

Definition allowWindow (win : requestWindow) (limit now : Z) : verdict * requestWindow :=
  let kept := recent now (Timestamps win) in
  if Z.of_nat (length kept) >=? limit then
    ((false, 0, Unix (hd 0 kept + rateLimitWindow)), Window kept now)
  else
    let kept' := kept ++ [now] in
    ((true, limit - Z.of_nat (length kept'), Unix (hd 0 kept' + rateLimitWindow)), Window kept' now).

Definition live (now : Z) (x : string * requestWindow) : Prop := ¬ LastSeen x.2 < now - rateLimitRetentionDuration.
#[global] Instance live_dec now x : Decision (live now x).
Proof. unfold live. apply _. Defined.

Definition gc (now : Z) (r : RateLimiter) : RateLimiter :=
  Limiter (filter (live now) (windows r)) (filter (live now) (overflowWindows r)) (maxEntries r) (requestSeen r).

(** The text after the last ['|'], when there is some. *)
Fixpoint after_last (sep : Z) (l : list Z) : option (list Z) :=
  match l with
  | [] => None
  | b :: l' =>
    match after_last sep l' with
    | Some rest => Some rest
    | None => if b =? sep then Some l' else None
    end
  end.

Definition rateLimitOverflowBucket (key : string) : string :=
  match after_last 124 (bytes key) with
  | Some (b :: l) => of_bytes (b :: l)
  | _ => "global"
  end.

Definition set_windows (m : gmap string requestWindow) (r : RateLimiter) : RateLimiter :=
  Limiter m (overflowWindows r) (maxEntries r) (requestSeen r).
Definition set_overflow (m : gmap string requestWindow) (r : RateLimiter) : RateLimiter :=
  Limiter (windows r) m (maxEntries r) (requestSeen r).
Definition full (r : RateLimiter) : bool := Z.of_nat (size (windows r)) >=? maxEntries r.

Definition uint64 (n : Z) : Z := n mod 2 ^ 64.

Definition Allow (key : string) (limit now : Z) (r : RateLimiter) : verdict * RateLimiter :=
  if limit <=? 0 then ((false, 0, Unix (now + rateLimitWindow)), r)
  else
    let seen := uint64 (requestSeen r + 1) in
    let r := Limiter (windows r) (overflowWindows r) (maxEntries r) seen in
    let r := if seen mod 128 =? 0 then gc now r else r in
    match windows r !! key with
    | Some win =>
      let '(v, win') := allowWindow win limit now in (v, set_windows (<[key := win']> (windows r)) r)
    | None =>
      let r := if full r then gc now r else r in
      if full r then
        let bucket := rateLimitOverflowBucket key in
        let win := default (Window [] 0) (overflowWindows r !! bucket) in
        let '(v, win') := allowWindow win limit now in (v, set_overflow (<[bucket := win']> (overflowWindows r)) r)
      else
        let '(v, win') := allowWindow (Window [] 0) limit now in (v, set_windows (<[key := win']> (windows r)) r)
    end.

(** * Buckets *)
Record request := Req { req_method : string; req_path : string }.

Definition isPublicServerAuthRequest (r : request) : bool :=
  let post := bool_decide (req_method r = "POST") in
  let path := req_path r in
  (bool_decide (path = "/api/auth/status") && bool_decide (req_method r = "GET"))
  || (bool_decide (path ∈ ["/api/auth/login"; "/api/auth/passkeys/login/begin"; "/api/auth/passkeys/login/finish";
        "/api/auth/passkeys/discover/begin"; "/api/auth/passkeys/discover/finish"; "/api/auth/setup";
        "/api/auth/invitations/accept"; "/api/auth/password-reset/complete"]) && post).

Definition resolveRateLimitBucket (r : request) : string * Z :=
  let post := bool_decide (req_method r = "POST") in
  let path := req_path r in
  if post && bool_decide (path = "/api/auth/login") then ("login", loginRateLimitPerMinute)
  else if post && bool_decide (path = "/api/auth/reauth") then ("reauth", loginRateLimitPerMinute)
  else if post && (bool_decide (path = "/api/auth/passkeys/reauth/begin") || bool_decide (path = "/api/auth/passkeys/reauth/finish"))
  then ("reauth", loginRateLimitPerMinute)
  else if post && bool_decide (path = "/api/auth/passkeys/register/finish") then ("account-auth", loginRateLimitPerMinute)
  else if post && isPublicServerAuthRequest r then ("account-auth", loginRateLimitPerMinute)
  else if post && bool_decide (path = "/api/v1/ai/transactions") then ("ai-transactions", aiTxRateLimitPerMinute)
  else if bool_decide (path = "/api/snapshots") || bool_decide (path = "/api/snapshots/restore")
  then ("snapshots", snapshotRateLimitPerMinute)
  else ("global", globalRateLimitPerMinute).

(** [RateLimitMiddleware] up to the call of the next handler: the answer to an
    API request, [None] for a path that is not limited. *)
Definition RateLimitMiddleware (ip : string) (req : request) (now : Z) (r : RateLimiter) : option verdict * RateLimiter :=
  if negb (String.prefix "/api/" (req_path req)) then (None, r)
  else
    let '(bucket, limit) := resolveRateLimitBucket req in
    let '(v, r') := Allow (ip +:+ "|" +:+ bucket) limit now r in (Some v, r').

(** * Reference: every accepted request is remembered *)
Abbreviation history := (gmap string (list Z)).

Definition spec_allow (key : string) (limit now : Z) (h : history) : verdict * history :=
  if limit <=? 0 then ((false, 0, Unix (now + rateLimitWindow)), h)
  else
    let kept := recent now (default [] (h !! key)) in
    if Z.of_nat (length kept) >=? limit then ((false, 0, Unix (hd 0 kept + rateLimitWindow)), h)
    else
      let kept' := kept ++ [now] in
      ((true, limit - Z.of_nat (length kept'), Unix (hd 0 kept' + rateLimitWindow)),
       <[key := default [] (h !! key) ++ [now]]> h).

(** * Refinement *)

(** A window agrees with the history from [now] on. *)
Definition window_agrees (now : Z) (w : option requestWindow) (ts : list Z) : Prop :=
  match w with
  | Some w => (∀ u, now <= u → recent u (Timestamps w) = recent u ts) ∧ Forall (λ t, t <= LastSeen w) ts ∧ LastSeen w <= now
  | None => recent now ts = []
  end.

Definition agrees (now : Z) (r : RateLimiter) (h : history) : Prop :=
  ∀ key, window_agrees now (windows r !! key) (default [] (h !! key)).

Lemma recent_recent now u ts : now <= u → recent u (recent now ts) = recent u ts.
Proof.
  intros Hu. unfold recent. rewrite list_filter_filter. apply list_filter_iff. intros t. lia.
Qed.

Lemma recent_nil now ts : recent now ts = [] ↔ Forall (λ t, t <= now - rateLimitWindow) ts.
Proof.
  unfold recent. induction ts as [|t ts IH]; [by split|]. rewrite filter_cons, Forall_cons. case_decide.
  - split; [done|]. intros [? _]. lia.
  - rewrite IH. split; [intros; split; [lia|done]|by intros [_ ?]].
Qed.

Lemma recent_app now a b : recent now (a ++ b) = recent now a ++ recent now b.
Proof. apply filter_app. Qed.

Lemma recent_mono now u ts : now <= u → recent now ts = [] → recent u ts = [].
Proof. intros Hu. rewrite !recent_nil. intros H. eapply Forall_impl; [exact H|]. cbn. lia. Qed.

Lemma agrees_mono now u r h : now <= u → agrees now r h → agrees u r h.
Proof.
  intros Hu Ha key. specialize (Ha key). destruct (windows r !! key) as [w|]; cbn in *; [|by eapply recent_mono].
  destruct Ha as (H1 & H2 & H3). split; [intros v Hv; apply H1; lia|]. split; [done|lia].
Qed.

Lemma agrees_gc now r h : agrees now r h → agrees now (gc now r) h.
Proof.
  intros Ha key. specialize (Ha key). cbn. destruct (windows r !! key) as [w|] eqn:E.
  - destruct (decide (live now (key, w))) as [Hl|Hd].
    + by rewrite (map_lookup_filter_Some_2 _ _ key w E Hl).
    + rewrite map_lookup_filter_None_2 by (right; intros x Hx; rewrite E in Hx; by injection Hx as <-).
      destruct Ha as (_ & Hle & _). apply recent_nil. unfold live, rateLimitRetentionDuration, rateLimitWindow in *. cbn in Hd.
      eapply Forall_impl; [exact Hle|]. cbn. lia.
  - by rewrite map_lookup_filter_None_2 by (by left).
Qed.

Lemma allowWindow_agrees now w ts limit :
  window_agrees now (Some w) ts → 0 < limit →
  let '(v, w') := allowWindow w limit now in
  let kept := recent now ts in
  if Z.of_nat (length kept) >=? limit then
    v = (false, 0, Unix (hd 0 kept + rateLimitWindow)) ∧ window_agrees now (Some w') ts
  else
    v = (true, limit - Z.of_nat (length (kept ++ [now])), Unix (hd 0 (kept ++ [now]) + rateLimitWindow)) ∧
    window_agrees now (Some w') (ts ++ [now]).
Proof.
  intros (Hrec & Hle & Hls) Hlim. unfold allowWindow. rewrite (Hrec now) by lia. cbv zeta.
  assert (Forall (λ t, t <= now) ts) as Hnow by (eapply Forall_impl; [exact Hle|]; cbn; lia).
  destruct (_ >=? limit); (split; [done|]); (split; [|split; [|cbn; lia]]); cbn [Timestamps LastSeen].
  - intros u Hu. by apply recent_recent.
  - done.
  - intros u Hu. by rewrite !recent_app, recent_recent.
  - apply Forall_app. split; [done|]. by apply Forall_singleton.
Qed.

(** What the two limiters do with the window of the key, absent or not. *)
Lemma key_step now w ts limit key r h r' :
  window_agrees now w ts → 0 < limit → h !! key = Some ts ∨ (h !! key = None ∧ ts = []) →
  (∀ k, k ≠ key → window_agrees now (windows r' !! k) (default [] (h !! k))) →
  let '(v, w') := allowWindow (default (Window [] 0) w) limit now in
  let '(v2, h') := spec_allow key limit now h in
  windows r = <[key := w']> (windows r') → v = v2 ∧ agrees now r h'.
Proof.
  intros Hw Hlim Hts Hother.
  assert (default [] (h !! key) = ts) as Hdef by (destruct Hts as [->|[-> ->]]; done).
  assert (window_agrees now (Some (default (Window [] now) w)) ts) as Hw1.
  { destruct w as [w|]; [done|]. cbn in *. split; [intros u Hu; symmetry; by eapply recent_mono|].
    split; [|lia]. apply recent_nil in Hw. eapply Forall_impl; [exact Hw|]. unfold rateLimitWindow. cbn. lia. }
  assert (allowWindow (default (Window [] 0) w) limit now = allowWindow (default (Window [] now) w) limit now) as ->
    by by destruct w.
  pose proof (allowWindow_agrees now _ ts limit Hw1 Hlim) as Ha. destruct (allowWindow _ limit now) as [v w'].
  unfold spec_allow. destruct (limit <=? 0) eqn:?; [lia|]. rewrite Hdef. cbv zeta in Ha |- *.
  assert (∀ h' : history, window_agrees now (Some w') (default [] (h' !! key)) → (∀ k, k ≠ key → h' !! k = h !! k) →
    windows r = <[key := w']> (windows r') → agrees now r h') as Hfin.
  { intros h' Hk Ho Hr k. rewrite Hr. destruct (decide (k = key)) as [->|Hne]; [by rewrite lookup_insert_eq|].
    rewrite lookup_insert_ne, Ho by done. by apply Hother. }
  destruct (_ >=? limit); destruct Ha as [-> Ha]; intros Hr; (split; [done|]); apply Hfin; try done.
  - by rewrite Hdef.
  - by rewrite lookup_insert_eq.
  - intros k Hk. by rewrite lookup_insert_ne.
Qed.

(** One request, with room in the table for its key. *)
Lemma Allow_step key limit now r h :
  agrees now r h → Z.of_nat (size (dom (windows r) ∖ {[key]})) < maxEntries r →
  let '(v, r') := Allow key limit now r in
  let '(v2, h') := spec_allow key limit now h in
  v = v2 ∧ agrees now r' h' ∧ dom (windows r') ⊆ dom (windows r) ∪ {[key]} ∧ maxEntries r' = maxEntries r.
Proof.
  intros Ha Hroom. unfold Allow. destruct (limit <=? 0) eqn:Hlim.
  { unfold spec_allow. rewrite Hlim. split; [done|]. split; [done|]. set_solver. }
  set (r0 := Limiter (windows r) (overflowWindows r) (maxEntries r) (uint64 (requestSeen r + 1))).
  set (r1 := if _ =? 0 then gc now r0 else r0).
  assert (∀ rr, agrees now rr h → agrees now (gc now rr) h ∧ dom (windows (gc now rr)) ⊆ dom (windows rr)) as Hgc.
  { intros rr Hrr. split; [by apply agrees_gc|]. apply dom_filter_subseteq. }
  assert (agrees now r1 h ∧ dom (windows r1) ⊆ dom (windows r) ∧ maxEntries r1 = maxEntries r) as (Ha1 & Hd1 & Hm1).
  { unfold r1. destruct (_ =? 0); [|done]. destruct (Hgc r0 Ha) as [? ?]. done. }
  clearbody r1. clear r0.
  assert (∀ r2, agrees now r2 h → dom (windows r2) ⊆ dom (windows r) → maxEntries r2 = maxEntries r →
    let '(v, w') := allowWindow (default (Window [] 0) (windows r2 !! key)) limit now in
    let r' := set_windows (<[key := w']> (windows r2)) r2 in
    let '(v2, h') := spec_allow key limit now h in
    v = v2 ∧ agrees now r' h' ∧ dom (windows r') ⊆ dom (windows r) ∪ {[key]} ∧ maxEntries r' = maxEntries r) as Hput.
  { intros r2 Ha2 Hd2 Hm2.
    pose proof (λ r', key_step now (windows r2 !! key) (default [] (h !! key)) limit key r' h r2 (Ha2 key) ltac:(lia)
      ltac:(destruct (h !! key); [by left|by right]) (λ k _, Ha2 k)) as Hkey.
    destruct (allowWindow _ limit now) as [v w'], (spec_allow key limit now h) as [v2 h'].
    destruct (Hkey (set_windows (<[key := w']> (windows r2)) r2) eq_refl) as [-> Hag]. split; [done|]. split; [done|].
    split; [|done]. cbn. rewrite dom_insert_L. set_solver. }
  destruct (windows r1 !! key) as [win|] eqn:Hwin.
  - specialize (Hput r1 Ha1 Hd1 Hm1). rewrite Hwin in Hput. change (default (Window [] 0) (Some win)) with win in Hput.
    by destruct (allowWindow win limit now) as [v w'].
  - set (r2 := if full r1 then gc now r1 else r1).
    assert (agrees now r2 h ∧ dom (windows r2) ⊆ dom (windows r) ∧ maxEntries r2 = maxEntries r ∧ windows r2 !! key = None)
      as (Ha2 & Hd2 & Hm2 & Hn2).
    { unfold r2. destruct (full r1); [|done]. destruct (Hgc r1 Ha1) as [? ?]. split; [done|]. split; [set_solver|].
      split; [done|]. cbn. apply map_lookup_filter_None_2. by left. }
    clearbody r2. assert (full r2 = false) as ->.
    { unfold full. rewrite Hm2, <-size_dom. apply not_elem_of_dom in Hn2.
      assert (size (dom (windows r2)) <= size (dom (windows r) ∖ {[key]}))%nat; [|lia].
      apply subseteq_size. set_solver. }
    specialize (Hput r2 Ha2 Hd2 Hm2). rewrite Hn2 in Hput. change (default (Window [] 0) None) with (Window [] 0) in Hput.
    by destruct (allowWindow (Window [] 0) limit now) as [v w'].
Qed.

(** A call: key, limit and time. *)
Fixpoint run_limiter (r : RateLimiter) (calls : list (string * Z * Z)) : list verdict * RateLimiter :=
  match calls with
  | [] => ([], r)
  | (key, limit, now) :: calls' =>
    let '(v, r') := Allow key limit now r in
    let '(vs, r'') := run_limiter r' calls' in (v :: vs, r'')
  end.

Fixpoint run_spec (h : history) (calls : list (string * Z * Z)) : list verdict :=
  match calls with
  | [] => []
  | (key, limit, now) :: calls' =>
    let '(v, h') := spec_allow key limit now h in v :: run_spec h' calls'
  end.

Definition keys_of (calls : list (string * Z * Z)) : gset string := list_to_set ((λ c, c.1.1) <$> calls).

Lemma run_limiter_refines calls : ∀ now r h (K : gset string),
  agrees now r h → dom (windows r) ⊆ K → keys_of calls ⊆ K → Z.of_nat (size K) <= maxEntries r →
  Forall (λ c, now <= c.2) calls → StronglySorted (λ a b, a.2 <= b.2) calls →
  fst (run_limiter r calls) = run_spec h calls.
Proof.
  induction calls as [|[[key limit] t] calls IH]; intros now r h K Ha Hd HK Hroom Hnow Hs; [done|].
  apply Forall_cons in Hnow as [Ht _]. apply StronglySorted_inv in Hs as [Hs Hle]. cbn [fst snd] in Ht.
  assert (key ∈ K) as Hk by (apply HK; cbn; set_solver).
  assert (keys_of calls ⊆ K) as HK' by (intros k Hin; apply HK; cbn; set_solver).
  apply (agrees_mono now t) in Ha; [|done].
  pose proof (Allow_step key limit t r h Ha) as Hstep. cbn [run_limiter run_spec].
  destruct (Allow key limit t r) as [v r'], (spec_allow key limit t h) as [v2 h'].
  destruct Hstep as (-> & Ha' & Hd' & Hm').
  { assert (size (dom (windows r) ∖ {[key]}) < size K)%nat; [|lia]. apply subset_size.
    split; [set_solver|]. intros H. specialize (H key Hk). set_solver. }
  specialize (IH t r' h' K Ha' ltac:(set_solver) HK' ltac:(lia) Hle Hs).
  destruct (run_limiter r' calls) as [vs r'']. cbn in *. by rewrite IH.
Qed.

(** C28. The limiter is an exact sliding window: as long as no more distinct keys
    are seen than the table has entries, every answer (allowed, remaining, reset
    time) is that of the reference limiter, which counts the accepted requests of
    the last minute from the whole history; garbage collection is invisible. *)
Theorem limiter_refines_history n calls :
  Z.of_nat (size (keys_of calls)) <= maxEntries (NewRateLimiterWithMaxEntries n) →
  StronglySorted (λ a b, a.2 <= b.2) calls →
  fst (run_limiter (NewRateLimiterWithMaxEntries n) calls) = run_spec ∅ calls.
Proof.
  intros Hroom Hs. destruct calls as [|c calls]; [done|].
  eapply (run_limiter_refines _ c.2 _ _ (keys_of (c :: calls))); [|set_solver|done|done| |done].
  - intros key. cbn. by rewrite lookup_empty.
  - apply StronglySorted_inv in Hs as [_ Hle]. apply Forall_cons. by split.
Qed.

Definition bounded (r : RateLimiter) : Prop :=
  1 <= maxEntries r ∧ Z.of_nat (size (windows r)) <= maxEntries r.

Lemma Allow_bounded key limit now r : bounded r → bounded (snd (Allow key limit now r)).
Proof.
  intros [Hm Hb]. unfold Allow. destruct (limit <=? 0); [done|].
  assert (∀ rr, bounded rr → bounded (gc now rr)) as Hgc.
  { intros rr [? Hrr]. split; [done|]. cbn. assert (size (filter (live now) (windows rr)) <= size (windows rr))%nat; [|lia].
    rewrite <-!size_dom. apply subseteq_size, dom_filter_subseteq. }
  set (r0 := Limiter _ _ _ _). assert (bounded r0) as H0 by done.
  set (r1 := if _ =? 0 then _ else _). assert (bounded r1) as H1 by (unfold r1; destruct (_ =? 0); auto).
  clearbody r1. destruct (windows r1 !! key) as [win|] eqn:Hwin.
  - destruct (allowWindow _ _ _). destruct H1 as [? H1]. split; [done|]. cbn. by rewrite map_size_insert_Some by by eexists.
  - set (r2 := if full r1 then _ else _). assert (bounded r2) as H2 by (unfold r2; destruct (full r1); auto).
    clearbody r2. destruct (full r2) eqn:Hf; destruct (allowWindow _ _ _); [exact H2|].
    destruct H2 as [? H2]. split; [done|]. cbn. unfold full in Hf.
    destruct (windows r2 !! key) eqn:E; [by rewrite map_size_insert_Some by by eexists|].
    rewrite map_size_insert_None by done. lia.
Qed.

(** Bounded memory: whatever keys, limits and times a client presents, the table
    never holds more windows than its bound. *)
Theorem limiter_bounded n calls :
  bounded (snd (run_limiter (NewRateLimiterWithMaxEntries n) calls)).
Proof.
  assert (∀ r, bounded r → bounded (snd (run_limiter r calls))) as Hrun.
  { induction calls as [|[[key limit] t] calls IH]; intros r Hr; [done|]. cbn [run_limiter].
    pose proof (Allow_bounded key limit t r Hr) as Hr'. destruct (Allow key limit t r) as [v r'].
    specialize (IH r' Hr'). by destruct (run_limiter r' calls). }
  apply Hrun. unfold bounded, NewRateLimiterWithMaxEntries. cbn. rewrite map_size_empty.
  unfold maxRateLimiterEntries. destruct (n <? 1) eqn:?; lia.
Qed.

(** Twelve logins in twelve seconds, then one after the minute: two are refused. *)
Definition demo_logins : list (string * Z * Z) :=
  ((λ k, ("10.0.0.1|login", 10, Z.of_nat k * 1000000000)) <$> seq 0 12) ++ [("10.0.0.1|login", 10, 61 * 1000000000)].

Lemma limiter_refines_history_witness :
  ((λ v, v.1.1) <$> fst (run_limiter NewRateLimiter demo_logins)) = replicate 10 true ++ [false; false; true] ∧
  fst (run_limiter NewRateLimiter demo_logins) = run_spec ∅ demo_logins.
Proof.
  split; [vm_compute; reflexivity|]. apply (limiter_refines_history maxRateLimiterEntries demo_logins).
  - vm_compute. discriminate.
  - unfold demo_logins. cbn. repeat (constructor; [|repeat (constructor; [vm_compute; discriminate|]); constructor]). constructor.
Defined.
