(* ===== verification/Totp.v ===== *)
(** The second factor ([authn/totp.go]): RFC 6238 codes over HMAC-SHA-1, and a
    verifier that consumes each time step at most once. SHA-1 and HMAC are
    written out, so the code generator runs on the vectors of the RFC. *)
From Stdlib Require Import ZArith Lia.
From stdpp Require Import base list strings sorting.
From S2P Require Import Prelude GoText.
Open Scope Z_scope.

(** * [crypto/sha1] and [crypto/hmac] *)
Definition w32 (x : Z) : Z := x mod 2 ^ 32.
Definition rotl (n x : Z) : Z := Z.lor (w32 (Z.shiftl x n)) (Z.shiftr x (32 - n)).

Definition be_word (l : list Z) : Z :=
  ((nth 0 l 0 * 256 + nth 1 l 0) * 256 + nth 2 l 0) * 256 + nth 3 l 0.
Definition be_bytes (n : nat) (x : Z) : list Z :=
  (λ k, Z.shiftr x (8 * Z.of_nat (n - 1 - k)) mod 256) <$> seq 0 n.

(** The sixteen words of a block, newest first, then sixty-four more. *)
Definition block_words (b : list Z) : list Z := rev ((λ k, be_word (drop (4 * k) b)) <$> seq 0 16).
Fixpoint extend (k : nat) (ws : list Z) : list Z :=
  match k with
  | O => ws
  | S k' =>
    extend k' (rotl 1 (Z.lxor (Z.lxor (nth 2 ws 0) (nth 7 ws 0)) (Z.lxor (nth 13 ws 0) (nth 15 ws 0))) :: ws)
  end.

Record digest := Digest { ha : Z; hb : Z; hc : Z; hd : Z; he : Z }.
Definition sha1_init : digest := Digest 0x67452301 0xEFCDAB89 0x98BADCFE 0x10325476 0xC3D2E1F0.

Definition not32 (x : Z) : Z := Z.lxor x 0xFFFFFFFF.
Definition sha1_fk (t : nat) (b c d : Z) : Z * Z :=
  if (t <? 20)%nat then (Z.lor (Z.land b c) (Z.land (not32 b) d), 0x5A827999)
  else if (t <? 40)%nat then (Z.lxor (Z.lxor b c) d, 0x6ED9EBA1)
  else if (t <? 60)%nat then (Z.lor (Z.lor (Z.land b c) (Z.land b d)) (Z.land c d), 0x8F1BBCDC)
  else (Z.lxor (Z.lxor b c) d, 0xCA62C1D6).

Definition sha1_round (s : digest) (tw : nat * Z) : digest :=
  let '(f, k) := sha1_fk tw.1 (hb s) (hc s) (hd s) in
  Digest (w32 (rotl 5 (ha s) + f + he s + k + tw.2)) (ha s) (rotl 30 (hb s)) (hc s) (hd s).

Definition sha1_block (h : digest) (b : list Z) : digest :=
  let s := foldl sha1_round h (combine (seq 0 80) (rev (extend 64 (block_words b)))) in
  Digest (w32 (ha h + ha s)) (w32 (hb h + hb s)) (w32 (hc h + hc s)) (w32 (hd h + hd s)) (w32 (he h + he s)).

Definition sha1_pad (m : list Z) : list Z :=
  let n := Z.of_nat (length m) in
  m ++ [128] ++ replicate (Z.to_nat ((55 - n) mod 64)) 0 ++ be_bytes 8 (8 * n).

Fixpoint sha1_blocks (k : nat) (h : digest) (m : list Z) : digest :=
  match k with O => h | S k' => sha1_blocks k' (sha1_block h (take 64 m)) (drop 64 m) end.

Definition sha1 (m : list Z) : list Z :=
  let p := sha1_pad m in
  let h := sha1_blocks (length p / 64) sha1_init p in
  concat (be_bytes 4 <$> [ha h; hb h; hc h; hd h; he h]).

Definition hmac_sha1 (key m : list Z) : list Z :=
  let key := if (64 <? length key)%nat then sha1 key else key in
  let key := key ++ replicate (64 - length key) 0 in
  sha1 ((Z.lxor 0x5c <$> key) ++ sha1 ((Z.lxor 0x36 <$> key) ++ m)).

(** * Codes *)
Definition totpPeriodSeconds : Z := 30.
Definition totpDigits : nat := 6.
Definition minTOTPSecretSize : Z := 20.
Definition maxTOTPSecretSize : Z := 64.

(** ["%0*d"] of a number of at most [k] digits. *)
Fixpoint fixed_dec (k : nat) (n : Z) : list Z :=
  match k with O => [] | S k' => fixed_dec k' (n / 10) ++ [48 + n mod 10] end.

Definition generateTOTPCode (secret : list Z) (counter : Z) (digits : nat) : list Z :=
  let sum := hmac_sha1 secret (be_bytes 8 counter) in
  let offset := Z.to_nat (Z.land (nth (length sum - 1) sum 0) 15) in
  let binaryCode :=
    Z.lor (Z.lor (Z.shiftl (Z.land (nth offset sum 0) 127) 24) (Z.shiftl (nth (offset + 1) sum 0) 16))
          (Z.lor (Z.shiftl (nth (offset + 2) sum 0) 8) (nth (offset + 3) sum 0)) in
  let modulus := Nat.iter digits (λ m, w32 (m * 10)) 1 in
  fixed_dec digits (binaryCode mod modulus).

(** * The verifier *)
Inductive totp_err := ErrInvalidTOTP | ErrReplayedTOTP | ETOTPSecret.

Record TOTPVerifier := Verifier { secret : list Z; lastAccepted : Z; hasAccepted : bool }.

Definition NewTOTPVerifier (s : list Z) : res totp_err TOTPVerifier :=
  let n := Z.of_nat (length s) in
  if (n <? minTOTPSecretSize) || (n >? maxTOTPSecretSize) then Err ETOTPSecret else Ok (Verifier s 0 false).

(** The loop over the candidates keeps the last one that matches. *)
Fixpoint match_counter (s code : list Z) (candidates : list Z) (matched : option Z) : option Z :=
  match candidates with
  | [] => matched
  | c :: cs =>
    match_counter s code cs (if decide (generateTOTPCode s c totpDigits = code) then Some c else matched)
  end.

Definition candidates (current : Z) : list Z :=
  [current] ++ (if current >? 0 then [current - 1] else []) ++ [current + 1].

(** [now] in Unix seconds. *)
Definition VerifyAndConsume (now : Z) (rawCode : string) : stm TOTPVerifier totp_err unit :=
  let code := bytes (TrimSpace rawCode) in
  require (length code =? totpDigits)%nat ErrInvalidTOTP;;
  require (forallb (λ c, between 48 57 c) (runes (TrimSpace rawCode))) ErrInvalidTOTP;;
  require (0 <=? now) ErrInvalidTOTP;;
  v ← gets id;
  match match_counter (secret v) code (candidates (now / totpPeriodSeconds)) None with
  | None => fail ErrInvalidTOTP
  | Some c =>
    require (negb (hasAccepted v && (c <=? lastAccepted v))) ErrReplayedTOTP;;
    modify (λ v, Verifier (secret v) c true)
  end.

(** The RFC 6238 vectors for the ASCII secret of twenty digits. *)
Definition rfc_secret : list Z := bytes "12345678901234567890".

Example rfc6238_59 : generateTOTPCode rfc_secret (59 / 30) 8 = bytes "94287082".
Proof. vm_compute. reflexivity. Qed.
Example rfc6238_1111111109 : generateTOTPCode rfc_secret (1111111109 / 30) 8 = bytes "07081804".
Proof. vm_compute. reflexivity. Qed.
Example rfc6238_20000000000 : generateTOTPCode rfc_secret (20000000000 / 30) 8 = bytes "65353130".
Proof. vm_compute. reflexivity. Qed.

(** * Consumption *)
Lemma fixed_dec_length k n : length (fixed_dec k n) = k.
Proof. revert n. induction k as [|k IH]; intros n; cbn; [done|]. rewrite length_app, IH. cbn. lia. Qed.

Lemma match_counter_sound s code cs m c :
  match_counter s code cs m = Some c → m = Some c ∨ (c ∈ cs ∧ generateTOTPCode s c totpDigits = code).
Proof.
  revert m. induction cs as [|d cs IH]; intros m H; cbn [match_counter] in H; [by left|].
  apply IH in H as [H|[H1 H2]]; [|right; split; [by right|done]].
  destruct (decide _) as [E|_]; [|by left]. injection H as ->. right. split; [left|done].
Qed.

Lemma match_counter_found s code cs : ∀ m,
  is_Some m ∨ (∃ c, c ∈ cs ∧ generateTOTPCode s c totpDigits = code) → is_Some (match_counter s code cs m).
Proof.
  induction cs as [|d cs IH]; intros m H; cbn [match_counter].
  - destruct H as [H|(c & []%elem_of_nil & _)]; done.
  - apply IH. destruct (decide _) as [E|E]; [left; by eexists|].
    destruct H as [H|(c & [->|Hc]%elem_of_cons & He)]; [by left|done|right; eauto].
Qed.

Lemma candidates_near current c : c ∈ candidates current → current - 1 <= c <= current + 1.
Proof.
  unfold candidates. rewrite !elem_of_app, !list_elem_of_singleton. intros [-> | [H | ->]]; [lia| |lia].
  destruct (current >? 0); [apply list_elem_of_singleton in H; lia|by apply elem_of_nil in H].
Qed.

(** What an accepted code tells. *)
Definition accepted (now : Z) (raw : string) (v : TOTPVerifier) (c : Z) : Prop :=
  0 <= now ∧ now / totpPeriodSeconds - 1 <= c <= now / totpPeriodSeconds + 1 ∧
  bytes (TrimSpace raw) = generateTOTPCode (secret v) c totpDigits ∧ (hasAccepted v = true → lastAccepted v < c).

Lemma VerifyAndConsume_run now raw v :
  (∃ c, VerifyAndConsume now raw v = (Ok tt, Verifier (secret v) c true) ∧ accepted now raw v c) ∨
  (∃ e, VerifyAndConsume now raw v = (Err e, v)).
Proof.
  unfold VerifyAndConsume, require, lift, ensure, gets, modify, mbind, stm_bind, id.
  destruct (_ =? totpDigits)%nat; [|right; by eexists].
  destruct (forallb _ _); [|right; by eexists]. destruct (0 <=? now) eqn:Hnow; [|right; by eexists].
  destruct (match_counter _ _ _ _) as [c|] eqn:Hm; [|right; by eexists].
  destruct (hasAccepted v && (c <=? lastAccepted v)) eqn:Hr; [right; by eexists|]. left. exists c. split; [done|].
  apply match_counter_sound in Hm as [Hm|[Hc Hcode]]; [done|]. split; [lia|]. split; [by apply candidates_near|].
  split; [done|]. intros Ha. rewrite Ha in Hr. cbn in Hr. lia.
Qed.

(** The counters consumed by a sequence of submissions (time, code). *)
Fixpoint consumed (v : TOTPVerifier) (subs : list (Z * string)) : list Z :=
  match subs with
  | [] => []
  | (now, raw) :: subs' =>
    match VerifyAndConsume now raw v with
    | (Ok _, v') => lastAccepted v' :: consumed v' subs'
    | (Err _, v') => consumed v' subs'
    end
  end.

Lemma consumed_above subs : ∀ v, hasAccepted v = true → Forall (λ c, lastAccepted v < c) (consumed v subs).
Proof.
  induction subs as [|[now raw] subs IH]; intros v Hv; cbn [consumed]; [done|].
  destruct (VerifyAndConsume_run now raw v) as [(c & -> & _ & _ & _ & Hc)|(e & ->)]; [|by apply IH].
  cbn. specialize (Hc Hv). apply Forall_cons. split; [done|].
  eapply Forall_impl; [by apply IH|]. cbn. lia.
Qed.

(** One-time codes are one-time: over any sequence of submissions, at any
    times in any order, the time steps consumed are strictly increasing, so no
    step is accepted twice, by whatever code or clock. *)
Theorem totp_no_replay v subs : StronglySorted Z.lt (consumed v subs).
Proof.
  revert v. induction subs as [|[now raw] subs IH]; intros v; cbn [consumed]; [constructor|].
  destruct (VerifyAndConsume_run now raw v) as [(c & -> & _)|(e & ->)]; [|apply IH].
  constructor; [apply IH|]. by apply consumed_above.
Qed.

(** Exactly the codes of nearby steps: a submission is accepted only if it is
    the code of a step at most one away from the current one, later than the last
    consumed; and the code of the current step is accepted whenever the last
    consumed step is at least two behind. A refused submission changes nothing. *)
Theorem totp_accepts_window now raw v :
  (∀ v', VerifyAndConsume now raw v = (Ok tt, v') →
     accepted now raw v (lastAccepted v') ∧ hasAccepted v' = true ∧ secret v' = secret v) ∧
  (∀ e v', VerifyAndConsume now raw v = (Err e, v') → v' = v) ∧
  (0 <= now → bytes (TrimSpace raw) = generateTOTPCode (secret v) (now / totpPeriodSeconds) totpDigits →
   forallb (λ c, between 48 57 c) (runes (TrimSpace raw)) = true →
   (hasAccepted v = true → lastAccepted v < now / totpPeriodSeconds - 1) →
   ∃ v', VerifyAndConsume now raw v = (Ok tt, v')).
Proof.
  split; [|split].
  - intros v' Hrun. destruct (VerifyAndConsume_run now raw v) as [(c & Heq & Ha)|(e & Heq)]; rewrite Heq in Hrun; [|done].
    injection Hrun as <-. done.
  - intros e v' Hrun. destruct (VerifyAndConsume_run now raw v) as [(c & Heq & Ha)|(e' & Heq)]; rewrite Heq in Hrun; [done|].
    by injection Hrun as _ <-.
  - intros Hnow Hcode Hdig Hlast. unfold VerifyAndConsume, require, lift, ensure, gets, modify, mbind, stm_bind, id.
    assert ((length (bytes (TrimSpace raw)) =? totpDigits)%nat = true) as ->.
    { rewrite Hcode. apply Nat.eqb_eq, fixed_dec_length. }
    rewrite Hdig. destruct (0 <=? now) eqn:?; [|lia].
    destruct (match_counter_found (secret v) (bytes (TrimSpace raw)) (candidates (now / totpPeriodSeconds)) None) as [c Hc].
    { right. exists (now / totpPeriodSeconds). split; [|done]. unfold candidates. apply elem_of_app. left. by apply list_elem_of_singleton. }
    rewrite Hc. apply match_counter_sound in Hc as [Hc|[Hc _]]; [done|]. apply candidates_near in Hc.
    replace (hasAccepted v && (c <=? lastAccepted v)) with false; [by eexists|].
    destruct (hasAccepted v); [|done]. specialize (Hlast eq_refl). cbn. lia.
Qed.

(** The code of a step is accepted once and refused the second time. *)
Definition demo_verifier : TOTPVerifier := Verifier rfc_secret 0 false.

Lemma totp_no_replay_witness :
  consumed demo_verifier [(59, "287082"); (61, "287082"); (89, " 359152 ")] = [1; 2] ∧
  StronglySorted Z.lt (consumed demo_verifier [(59, "287082"); (61, "287082"); (89, " 359152 ")]).
Proof. split; [vm_compute; reflexivity|]. exact (totp_no_replay demo_verifier _). Defined.
