(* ===== verification/Crypto.v ===== *)
(** The standard library's cryptography as far as key envelopes use it:
    [crypto/sha256], [crypto/hmac] and AES-256-GCM ([crypto/aes], [crypto/cipher]) are
    written out and run on published vectors. Argon2id and HKDF come from
    [golang.org/x/crypto] and are parameters ([KDFLib]). *)
From Stdlib Require Import ZArith Lia.
From stdpp Require Import base list strings sorting.
From S2P Require Import Prelude GoText Totp.
Open Scope Z_scope.

(** * SHA-256 *)
Definition rotr (n x : Z) : Z := Z.lor (Z.shiftr x n) (w32 (Z.shiftl x (32 - n))).

Definition sha256_k : list Z :=
  [1116352408; 1899447441; 3049323471; 3921009573; 961987163; 1508970993; 2453635748; 2870763221;
   3624381080; 310598401; 607225278; 1426881987; 1925078388; 2162078206; 2614888103; 3248222580;
   3835390401; 4022224774; 264347078; 604807628; 770255983; 1249150122; 1555081692; 1996064986;
   2554220882; 2821834349; 2952996808; 3210313671; 3336571891; 3584528711; 113926993; 338241895;
   666307205; 773529912; 1294757372; 1396182291; 1695183700; 1986661051; 2177026350; 2456956037;
   2730485921; 2820302411; 3259730800; 3345764771; 3516065817; 3600352804; 4094571909; 275423344;
   430227734; 506948616; 659060556; 883997877; 958139571; 1322822218; 1537002063; 1747873779;
   1955562222; 2024104815; 2227730452; 2361852424; 2428436474; 2756734187; 3204031479; 3329325298].

(** The schedule, newest word first. *)
Fixpoint extend256 (k : nat) (ws : list Z) : list Z :=
  match k with
  | O => ws
  | S k' =>
    let w15 := nth 14 ws 0 in
    let w2 := nth 1 ws 0 in
    let s0 := Z.lxor (Z.lxor (rotr 7 w15) (rotr 18 w15)) (Z.shiftr w15 3) in
    let s1 := Z.lxor (Z.lxor (rotr 17 w2) (rotr 19 w2)) (Z.shiftr w2 10) in
    extend256 k' (w32 (nth 15 ws 0 + s0 + nth 6 ws 0 + s1) :: ws)
  end.

Record digest256 := Digest256 { s_a : Z; s_b : Z; s_c : Z; s_d : Z; s_e : Z; s_f : Z; s_g : Z; s_h : Z }.
Definition sha256_init : digest256 :=
  Digest256 1779033703 3144134277 1013904242 2773480762 1359893119 2600822924 528734635 1541459225.

Definition sha256_round (s : digest256) (kw : Z * Z) : digest256 :=
  let S1 := Z.lxor (Z.lxor (rotr 6 (s_e s)) (rotr 11 (s_e s))) (rotr 25 (s_e s)) in
  let ch := Z.lxor (Z.land (s_e s) (s_f s)) (Z.land (not32 (s_e s)) (s_g s)) in
  let t1 := s_h s + S1 + ch + kw.1 + kw.2 in
  let S0 := Z.lxor (Z.lxor (rotr 2 (s_a s)) (rotr 13 (s_a s))) (rotr 22 (s_a s)) in
  let maj := Z.lxor (Z.lxor (Z.land (s_a s) (s_b s)) (Z.land (s_a s) (s_c s))) (Z.land (s_b s) (s_c s)) in
  Digest256 (w32 (t1 + S0 + maj)) (s_a s) (s_b s) (s_c s) (w32 (s_d s + t1)) (s_e s) (s_f s) (s_g s).

Definition sha256_block (h : digest256) (b : list Z) : digest256 :=
  let s := foldl sha256_round h (combine sha256_k (rev (extend256 48 (block_words b)))) in
  Digest256 (w32 (s_a h + s_a s)) (w32 (s_b h + s_b s)) (w32 (s_c h + s_c s)) (w32 (s_d h + s_d s))
    (w32 (s_e h + s_e s)) (w32 (s_f h + s_f s)) (w32 (s_g h + s_g s)) (w32 (s_h h + s_h s)).

Fixpoint sha256_blocks (k : nat) (h : digest256) (m : list Z) : digest256 :=
  match k with O => h | S k' => sha256_blocks k' (sha256_block h (take 64 m)) (drop 64 m) end.

(** The padding of SHA-256 is that of SHA-1. *)
Definition Sum256 (m : list Z) : list Z :=
  let p := sha1_pad m in
  let h := sha256_blocks (length p / 64) sha256_init p in
  concat (be_bytes 4 <$> [s_a h; s_b h; s_c h; s_d h; s_e h; s_f h; s_g h; s_h h]).

Definition hmac_sha256 (key m : list Z) : list Z :=
  let key := if (64 <? length key)%nat then Sum256 key else key in
  let key := key ++ replicate (64 - length key) 0 in
  Sum256 ((Z.lxor 0x5c <$> key) ++ Sum256 ((Z.lxor 0x36 <$> key) ++ m)).

Definition from_hex (n : nat) (x : Z) : list Z := be_bytes n x.

Example sha256_abc : Sum256 (bytes "abc") = from_hex 32 0xba7816bf8f01cfea414140de5dae2223b00361a396177a9cb410ff61f20015ad.
Proof. vm_compute. reflexivity. Qed.
Example sha256_two_blocks :
  Sum256 (bytes "abcdbcdecdefdefgefghfghighijhijkijkljklmklmnlmnomnopnopq") =
  from_hex 32 0x248d6a61d20638b8e5c026930c3e6039a33ce45964ff2167f6ecedd419db06c1.
Proof. vm_compute. reflexivity. Qed.
(** RFC 4231, test case 2. *)
Example hmac_sha256_jefe :
  hmac_sha256 (bytes "Jefe") (bytes "what do ya want for nothing?") =
  from_hex 32 0x5bdcc146bf60754e6a042426089575c75a003f089d2739839dec58b964ec3843.
Proof. vm_compute. reflexivity. Qed.

(** * AES-256 *)
Definition xtime (x : Z) : Z := let y := 2 * x in if y <? 256 then y else Z.lxor y 0x11b.
Fixpoint gmul_fuel (k : nat) (x y : Z) : Z :=
  match k with
  | O => 0
  | S k' => Z.lxor (if Z.odd y then x else 0) (gmul_fuel k' (xtime x) (y / 2))
  end.
Definition gmul (x y : Z) : Z := gmul_fuel 8 x y.
Definition rotl8 (n x : Z) : Z := (x * 2 ^ n) mod 256 + x / 2 ^ (8 - n).
(** The inverse of [x] is its power 254. *)
Definition ginv (x : Z) : Z := let y := Nat.iter 6 (λ y, gmul (gmul y y) x) x in gmul y y.
Definition sbox_value (x : Z) : Z :=
  let y := ginv x in
  Z.lxor (Z.lxor (Z.lxor y (rotl8 1 y)) (Z.lxor (rotl8 2 y) (rotl8 3 y))) (Z.lxor (rotl8 4 y) 0x63).
Definition sbox_table : list Z := Eval vm_compute in sbox_value <$> seqZ 0 256.
Definition sbox (x : Z) : Z := nth (Z.to_nat x) sbox_table 0.

Definition xor_bytes (a b : list Z) : list Z := zip_with Z.lxor a b.

(** The round keys, newest word first; [i] counts the words. *)
Fixpoint expand_key (k : nat) (i : nat) (rcon : Z) (ws : list (list Z)) : list (list Z) :=
  match k with
  | O => ws
  | S k' =>
    let t := nth 0 ws [] in
    let '(t, rcon) :=
      if (i mod 8 =? 0)%nat then (xor_bytes (sbox <$> drop 1 t ++ take 1 t) [rcon; 0; 0; 0], xtime rcon)
      else if (i mod 8 =? 4)%nat then (sbox <$> t, rcon) else (t, rcon) in
    expand_key k' (S i) rcon (xor_bytes (nth 7 ws []) t :: ws)
  end.
Definition round_keys (key : list Z) : list (list Z) :=
  let ws := rev (expand_key 52 8 1 (rev ((λ k, take 4 (drop (4 * k) key)) <$> seq 0 8))) in
  (λ r, concat (take 4 (drop (4 * r) ws))) <$> seq 0 15.

(** The state is sixteen bytes, column by column. *)
Definition shift_rows (s : list Z) : list Z := (λ i, nth ((i + 4 * (i mod 4)) mod 16) s 0) <$> seq 0 16.
Definition mix_column (c : list Z) : list Z :=
  let b i := nth i c 0 in
  (λ i, Z.lxor (Z.lxor (gmul (b i) 2) (gmul (b ((i + 1) mod 4)%nat) 3)) (Z.lxor (b ((i + 2) mod 4)%nat) (b ((i + 3) mod 4)%nat))) <$> seq 0 4.
Definition mix_columns (s : list Z) : list Z := concat ((λ c, mix_column (take 4 (drop (4 * c) s))) <$> seq 0 4).
Definition aes_round (s key : list Z) : list Z := xor_bytes (mix_columns (shift_rows (sbox <$> s))) key.
Definition aes_encrypt (key block : list Z) : list Z :=
  let ks := round_keys key in
  let s := foldl aes_round (xor_bytes block (nth 0 ks [])) (take 13 (drop 1 ks)) in
  xor_bytes (shift_rows (sbox <$> s)) (nth 14 ks []).

(** FIPS 197, C.3. *)
Example aes256_vector :
  aes_encrypt (seqZ 0 32) (from_hex 16 0x00112233445566778899aabbccddeeff) = from_hex 16 0x8ea2b7ca516745bfeafc49904b496089.
Proof. vm_compute. reflexivity. Qed.

(** * GCM with a nonce of twelve bytes and a tag of sixteen *)
Definition be_num (l : list Z) : Z := foldl (λ acc b, acc * 256 + b) 0 l.

(** Multiplication in GF(2^128); bit 127 of the number is the coefficient of 1. *)
Fixpoint ghash_mul_fuel (k : nat) (x v : Z) : Z :=
  match k with
  | O => 0
  | S k' =>
    Z.lxor (if Z.testbit x (Z.of_nat k') then v else 0)
           (ghash_mul_fuel k' x (if Z.odd v then Z.lxor (v / 2) (0xe1 * 2 ^ 120) else v / 2))
  end.
Definition ghash_mul (x v : Z) : Z := ghash_mul_fuel 128 x v.

Definition pad16 (l : list Z) : list Z := l ++ replicate ((16 - length l mod 16) mod 16) 0.
Fixpoint ghash_blocks (k : nat) (h y : Z) (m : list Z) : Z :=
  match k with O => y | S k' => ghash_blocks k' h (ghash_mul (Z.lxor y (be_num (take 16 m))) h) (drop 16 m) end.
Definition bit_length (l : list Z) : list Z := be_bytes 8 (8 * Z.of_nat (length l)).
Definition ghash (h : Z) (aad ciphertext : list Z) : list Z :=
  let m := pad16 aad ++ pad16 ciphertext ++ bit_length aad ++ bit_length ciphertext in
  be_bytes 16 (ghash_blocks (length m / 16) h 0 m).

Section GCM.
Context (block : list Z → list Z).
Definition counter_block (nonce : list Z) (i : Z) : list Z := nonce ++ be_bytes 4 i.
Fixpoint keystream (k : nat) (nonce : list Z) (i : Z) : list Z :=
  match k with O => [] | S k' => take 16 (block (counter_block nonce i) ++ replicate 16 0) ++ keystream k' nonce (w32 (i + 1)) end.
Definition gcm_crypt (nonce text : list Z) : list Z := xor_bytes text (keystream (S (length text / 16)) nonce 2).
Definition gcm_tag (nonce aad ciphertext : list Z) : list Z :=
  xor_bytes (ghash (be_num (block (replicate 16 0))) aad ciphertext) (take 16 (block (counter_block nonce 1) ++ replicate 16 0)).
Definition gcm_seal (nonce plaintext aad : list Z) : list Z :=
  let c := gcm_crypt nonce plaintext in c ++ gcm_tag nonce aad c.
Definition gcm_open (nonce sealed aad : list Z) : option (list Z) :=
  if (length sealed <? 16)%nat then None
  else let c := take (length sealed - 16) sealed in
       if bool_decide (gcm_tag nonce aad c = drop (length sealed - 16) sealed) then Some (gcm_crypt nonce c) else None.
End GCM.

(** Test case 16 of the GCM specification. *)
Example gcm_vector :
  gcm_seal (aes_encrypt (from_hex 32 0xfeffe9928665731c6d6a8f9467308308feffe9928665731c6d6a8f9467308308))
    (from_hex 12 0xcafebabefacedbaddecaf888)
    (from_hex 60 0xd9313225f88406e5a55909c5aff5269a86a7a9531534f7da2e4c303d8a318a721c3c0c95956809532fcf0e2449a6b525b16aedf5aa0de657ba637b39)
    (from_hex 20 0xfeedfacedeadbeeffeedfacedeadbeefabaddad2) =
  from_hex 60 0x522dc1f099567d07f47f37a32a84427d643a8cdcbfe5c0c97598a2bd2555d1aa8cb08e48590dbb3da7b08b1056828838c5f61e6393ba7a0abcc9f662 ++
  from_hex 16 0x76fc6ece0f4e1768cddf8853bb2d551b.
Proof. vm_compute. reflexivity. Qed.

(** * Parameters: [argon2.IDKey] and [hkdf.New] read to 32 bytes *)
Class KDFLib := {
  IDKey : list Z → list Z → Z → Z → Z → list Z;
  HKDF : list Z → list Z → list Z → list Z;
  HKDF_length secret salt info : length (HKDF secret salt info) = 32%nat;
  HKDF_bytes secret salt info : Forall is_byte (HKDF secret salt info)
}.

(** * Sizes *)
Lemma be_bytes_length n x : length (be_bytes n x) = n.
Proof. unfold be_bytes. by rewrite length_fmap, length_seq. Qed.
Lemma be_bytes_range n x : Forall is_byte (be_bytes n x).
Proof. unfold be_bytes. apply Forall_fmap, Forall_true. intros k. unfold is_byte. cbn. apply Z.mod_pos_bound. lia. Qed.
Lemma xor_length a b : length (xor_bytes a b) = Nat.min (length a) (length b).
Proof. apply length_zip_with. Qed.
Lemma Sum256_length m : length (Sum256 m) = 32%nat.
Proof. unfold Sum256. cbn [fmap list_fmap concat]. rewrite !length_app, !be_bytes_length. done. Qed.
Lemma Sum256_range m : Forall is_byte (Sum256 m).
Proof. unfold Sum256. cbn [fmap list_fmap concat]. repeat apply Forall_app_2; try apply be_bytes_range. constructor. Qed.
Lemma hmac_sha256_length key m : length (hmac_sha256 key m) = 32%nat.
Proof. apply Sum256_length. Qed.
Lemma hmac_sha256_range key m : Forall is_byte (hmac_sha256 key m).
Proof. apply Sum256_range. Qed.

(** * Bytes *)
Lemma lxor_byte a b : is_byte a → is_byte b → is_byte (Z.lxor a b).
Proof.
  unfold is_byte. intros Ha Hb. split; [apply Z.lxor_nonneg; lia|].
  destruct (decide (Z.lxor a b = 0)) as [->|Hne]; [lia|]. change 256 with (2 ^ 8). apply Z.log2_lt_pow2.
  - assert (0 <= Z.lxor a b) by (apply Z.lxor_nonneg; lia). lia.
  - pose proof (Z.log2_lxor a b ltac:(lia) ltac:(lia)).
    assert (∀ x, 0 <= x < 256 → Z.log2 x < 8) as Hl.
    { intros x Hx. destruct (decide (x = 0)) as [->|]; [done|]. apply Z.log2_lt_pow2; lia. }
    pose proof (Hl a Ha). pose proof (Hl b Hb). lia.
Qed.
Lemma xor_range a b : Forall is_byte a → Forall is_byte b → Forall is_byte (xor_bytes a b).
Proof.
  intros Ha. revert b. induction Ha as [|x a Hx Ha IH]; intros [|y b] Hb; try constructor.
  - inversion_clear Hb. by apply lxor_byte.
  - apply IH. by inversion_clear Hb.
Qed.
Lemma nth_range l i : Forall is_byte l → is_byte (nth i l 0).
Proof. intros Hl. destruct (nth_in_or_default i l 0) as [Hin| ->]; [|unfold is_byte; lia]. by eapply Forall_forall in Hl; [|by apply list_elem_of_In]. Qed.
Lemma bytes_check (P : Z → bool) x : forallb P (seqZ 0 256) = true → is_byte x → P x = true.
Proof. intros H Hx. rewrite forallb_forall in H. apply H, list_elem_of_In, elem_of_seqZ. unfold is_byte in Hx. lia. Qed.
Lemma xtime_byte x : is_byte x → is_byte (xtime x).
Proof.
  intros Hx. pose proof (bytes_check (λ x, (0 <=? xtime x) && (xtime x <? 256)) x eq_refl Hx) as H. cbv beta in H. unfold is_byte. lia.
Qed.
Lemma gmul_byte k : ∀ x y, is_byte x → is_byte (gmul_fuel k x y).
Proof.
  induction k as [|k IH]; intros x y Hx; [unfold is_byte; cbn; lia|]. cbn [gmul_fuel].
  apply lxor_byte; [case_match; [done|unfold is_byte; lia]|]. by apply IH, xtime_byte.
Qed.
Lemma sbox_byte x : is_byte (sbox x).
Proof.
  apply nth_range, Forall_forall. intros y Hy.
  assert (forallb (λ y, (0 <=? y) && (y <? 256)) sbox_table = true) as H by reflexivity.
  rewrite forallb_forall in H. specialize (H y ltac:(by apply list_elem_of_In)). cbv beta in H. unfold is_byte. lia.
Qed.
Lemma sbox_range l : Forall is_byte (sbox <$> l).
Proof. apply Forall_fmap, Forall_true. intros. apply sbox_byte. Qed.

Lemma expand_key_range k : ∀ i rcon ws, is_byte rcon → Forall (Forall is_byte) ws → Forall (Forall is_byte) (expand_key k i rcon ws).
Proof.
  induction k as [|k IH]; intros i rcon ws Hr Hw; [done|]. cbn [expand_key].
  assert (∀ j, Forall is_byte (nth j ws [])) as Hn.
  { intros j. destruct (nth_in_or_default j ws []) as [Hin| ->]; [|done]. by eapply Forall_forall in Hw; [|by apply list_elem_of_In]. }
  destruct (i mod 8 =? 0)%nat; [|destruct (i mod 8 =? 4)%nat]; apply IH; try done; try (by apply xtime_byte); (constructor; [|done]); apply xor_range; auto.
  - apply xor_range; [apply sbox_range|]. do 4 (apply Forall_cons_2; [done || (unfold is_byte; lia)|]). constructor.
  - apply sbox_range.
Qed.
Lemma round_keys_range key j : Forall is_byte key → Forall is_byte (nth j (round_keys key) []).
Proof.
  intros Hk. destruct (nth_in_or_default j (round_keys key) []) as [Hin| ->]; [|done]. apply list_elem_of_In in Hin.
  generalize dependent (nth j (round_keys key) []). intros l Hin.
  unfold round_keys in Hin. apply list_elem_of_fmap in Hin as (r & -> & _). apply Forall_concat, Forall_take, Forall_drop, Forall_rev, expand_key_range; [unfold is_byte; lia|].
  apply Forall_rev, Forall_fmap, Forall_true. intros i. cbn. by apply Forall_take, Forall_drop.
Qed.
Lemma aes_encrypt_range key b : Forall is_byte key → Forall is_byte (aes_encrypt key b).
Proof.
  intros Hk. unfold aes_encrypt. apply xor_range; [|by apply round_keys_range]. unfold shift_rows.
  apply Forall_fmap, Forall_true. intros i. cbv beta. unfold compose. apply nth_range, sbox_range.
Qed.

(** * GCM reads back what it wrote *)
Section Sealed.
Context (block : list Z → list Z).
Lemma keystream_length k : ∀ nonce i, length (keystream block k nonce i) = (16 * k)%nat.
Proof. induction k as [|k IH]; intros nonce i; [done|]. cbn [keystream]. rewrite length_app, IH, length_take, length_app, length_replicate. lia. Qed.
Lemma gcm_crypt_length nonce text : length (gcm_crypt block nonce text) = length text.
Proof.
  unfold gcm_crypt. rewrite xor_length, keystream_length.
  pose proof (Nat.div_mod_eq (length text) 16). pose proof (Nat.mod_upper_bound (length text) 16). lia.
Qed.
Lemma xor_involutive a b : (length a <= length b)%nat → xor_bytes (xor_bytes a b) b = a.
Proof.
  revert b. induction a as [|x a IH]; intros [|y b] Hl; try done; cbn in Hl; [lia|]. cbn. f_equal; [|apply IH; lia].
  by rewrite Z.lxor_assoc, Z.lxor_nilpotent, Z.lxor_0_r.
Qed.
Lemma gcm_crypt_involutive nonce text : gcm_crypt block nonce (gcm_crypt block nonce text) = text.
Proof.
  unfold gcm_crypt at 1. rewrite gcm_crypt_length. apply xor_involutive. rewrite keystream_length.
  pose proof (Nat.div_mod_eq (length text) 16). pose proof (Nat.mod_upper_bound (length text) 16). lia.
Qed.
Lemma gcm_tag_length nonce aad c : length (gcm_tag block nonce aad c) = 16%nat.
Proof. unfold gcm_tag, ghash. rewrite xor_length, be_bytes_length, length_take, length_app, length_replicate. lia. Qed.
Lemma gcm_seal_length nonce p aad : length (gcm_seal block nonce p aad) = (length p + 16)%nat.
Proof. unfold gcm_seal. by rewrite length_app, gcm_crypt_length, gcm_tag_length. Qed.
Lemma gcm_open_length nonce c aad p : gcm_open block nonce c aad = Some p → (length c = length p + 16)%nat.
Proof.
  unfold gcm_open. destruct (Nat.ltb_spec (length c) 16); [done|]. case_bool_decide; [|done]. intros [= <-].
  rewrite gcm_crypt_length, length_take. lia.
Qed.
Lemma gcm_open_seal nonce p aad : gcm_open block nonce (gcm_seal block nonce p aad) aad = Some p.
Proof.
  unfold gcm_open. rewrite gcm_seal_length. destruct (Nat.ltb_spec (length p + 16) 16); [lia|]. unfold gcm_seal.
  assert (length p + 16 - 16 = length (gcm_crypt block nonce p))%nat as -> by (rewrite gcm_crypt_length; lia).
  rewrite take_app_length, drop_app_length, bool_decide_eq_true_2 by done. by rewrite gcm_crypt_involutive.
Qed.
(** What opens is what was sealed. *)
Lemma gcm_open_Some nonce c aad p : gcm_open block nonce c aad = Some p ↔ c = gcm_seal block nonce p aad.
Proof.
  split; [|intros ->; apply gcm_open_seal]. unfold gcm_open. destruct (Nat.ltb_spec (length c) 16); [done|].
  case_bool_decide as Ht; [|done]. intros [= <-]. unfold gcm_seal. rewrite gcm_crypt_involutive, Ht. by rewrite take_drop.
Qed.
Lemma keystream_range k : (∀ b, Forall is_byte (block b)) → ∀ nonce i, Forall is_byte (keystream block k nonce i).
Proof.
  intros Hb. induction k as [|k IH]; intros nonce i; [constructor|]. cbn [keystream]. apply Forall_app_2; [|done].
  apply Forall_take, Forall_app_2; [done|]. apply Forall_replicate. unfold is_byte. lia.
Qed.
Lemma gcm_seal_range nonce p aad : (∀ b, Forall is_byte (block b)) → Forall is_byte p → Forall is_byte (gcm_seal block nonce p aad).
Proof.
  intros Hb Hp. unfold gcm_seal. apply Forall_app_2; [apply xor_range; [done|by apply keystream_range]|].
  apply xor_range; [apply be_bytes_range|]. apply Forall_take, Forall_app_2; [done|]. apply Forall_replicate. unfold is_byte. lia.
Qed.
End Sealed.
