(* ===== verification/Sha512.v ===== *)
(** The standard library's hash functions behind the passkey decoys: [crypto/sha512] with
    [crypto/hmac], and SHAKE256 of [crypto/sha3], written out and run on published
    vectors. *)
From Stdlib Require Import ZArith Lia.
From stdpp Require Import base list strings.
From S2P Require Import Prelude GoText Totp Crypto.
Open Scope Z_scope.

(** * SHA-512 *)
Definition w64 (x : Z) : Z := Z.land x 0xffffffffffffffff.
Definition rotr64 (n x : Z) : Z := Z.lor (Z.shiftr x n) (w64 (Z.shiftl x (64 - n))).
Definition not64 (x : Z) : Z := Z.lxor x 0xffffffffffffffff.

Definition sha512_k : list Z :=
  [0x428a2f98d728ae22; 0x7137449123ef65cd; 0xb5c0fbcfec4d3b2f; 0xe9b5dba58189dbbc;
   0x3956c25bf348b538; 0x59f111f1b605d019; 0x923f82a4af194f9b; 0xab1c5ed5da6d8118;
   0xd807aa98a3030242; 0x12835b0145706fbe; 0x243185be4ee4b28c; 0x550c7dc3d5ffb4e2;
   0x72be5d74f27b896f; 0x80deb1fe3b1696b1; 0x9bdc06a725c71235; 0xc19bf174cf692694;
   0xe49b69c19ef14ad2; 0xefbe4786384f25e3; 0x0fc19dc68b8cd5b5; 0x240ca1cc77ac9c65;
   0x2de92c6f592b0275; 0x4a7484aa6ea6e483; 0x5cb0a9dcbd41fbd4; 0x76f988da831153b5;
   0x983e5152ee66dfab; 0xa831c66d2db43210; 0xb00327c898fb213f; 0xbf597fc7beef0ee4;
   0xc6e00bf33da88fc2; 0xd5a79147930aa725; 0x06ca6351e003826f; 0x142929670a0e6e70;
   0x27b70a8546d22ffc; 0x2e1b21385c26c926; 0x4d2c6dfc5ac42aed; 0x53380d139d95b3df;
   0x650a73548baf63de; 0x766a0abb3c77b2a8; 0x81c2c92e47edaee6; 0x92722c851482353b;
   0xa2bfe8a14cf10364; 0xa81a664bbc423001; 0xc24b8b70d0f89791; 0xc76c51a30654be30;
   0xd192e819d6ef5218; 0xd69906245565a910; 0xf40e35855771202a; 0x106aa07032bbd1b8;
   0x19a4c116b8d2d0c8; 0x1e376c085141ab53; 0x2748774cdf8eeb99; 0x34b0bcb5e19b48a8;
   0x391c0cb3c5c95a63; 0x4ed8aa4ae3418acb; 0x5b9cca4f7763e373; 0x682e6ff3d6b2b8a3;
   0x748f82ee5defb2fc; 0x78a5636f43172f60; 0x84c87814a1f0ab72; 0x8cc702081a6439ec;
   0x90befffa23631e28; 0xa4506cebde82bde9; 0xbef9a3f7b2c67915; 0xc67178f2e372532b;
   0xca273eceea26619c; 0xd186b8c721c0c207; 0xeada7dd6cde0eb1e; 0xf57d4f7fee6ed178;
   0x06f067aa72176fba; 0x0a637dc5a2c898a6; 0x113f9804bef90dae; 0x1b710b35131c471b;
   0x28db77f523047d84; 0x32caab7b40c72493; 0x3c9ebe0a15c9bebc; 0x431d67c49c100d4c;
   0x4cc5d4becb3e42b6; 0x597f299cfc657e2a; 0x5fcb6fab3ad6faec; 0x6c44198c4a475817].

(** The schedule, newest word first. *)
Fixpoint extend512 (k : nat) (ws : list Z) : list Z :=
  match k with
  | O => ws
  | S k' =>
    let w15 := nth 14 ws 0 in
    let w2 := nth 1 ws 0 in
    let s0 := Z.lxor (Z.lxor (rotr64 1 w15) (rotr64 8 w15)) (Z.shiftr w15 7) in
    let s1 := Z.lxor (Z.lxor (rotr64 19 w2) (rotr64 61 w2)) (Z.shiftr w2 6) in
    extend512 k' (w64 (nth 15 ws 0 + s0 + nth 6 ws 0 + s1) :: ws)
  end.

Definition sha512_init : digest256 :=
  Digest256 0x6a09e667f3bcc908 0xbb67ae8584caa73b 0x3c6ef372fe94f82b 0xa54ff53a5f1d36f1
    0x510e527fade682d1 0x9b05688c2b3e6c1f 0x1f83d9abfb41bd6b 0x5be0cd19137e2179.

Definition sha512_round (s : digest256) (kw : Z * Z) : digest256 :=
  let S1 := Z.lxor (Z.lxor (rotr64 14 (s_e s)) (rotr64 18 (s_e s))) (rotr64 41 (s_e s)) in
  let ch := Z.lxor (Z.land (s_e s) (s_f s)) (Z.land (not64 (s_e s)) (s_g s)) in
  let t1 := s_h s + S1 + ch + kw.1 + kw.2 in
  let S0 := Z.lxor (Z.lxor (rotr64 28 (s_a s)) (rotr64 34 (s_a s))) (rotr64 39 (s_a s)) in
  let maj := Z.lxor (Z.lxor (Z.land (s_a s) (s_b s)) (Z.land (s_a s) (s_c s))) (Z.land (s_b s) (s_c s)) in
  Digest256 (w64 (t1 + S0 + maj)) (s_a s) (s_b s) (s_c s) (w64 (s_d s + t1)) (s_e s) (s_f s) (s_g s).

Fixpoint be_value (l : list Z) (acc : Z) : Z := match l with [] => acc | b :: l' => be_value l' (acc * 256 + b) end.
(** The [k] words of a block, newest first. *)
Fixpoint words64 (k : nat) (b acc : list Z) : list Z :=
  match k with O => acc | S k' => words64 k' (drop 8 b) (be_value (take 8 b) 0 :: acc) end.

Definition sha512_block (h : digest256) (b : list Z) : digest256 :=
  let s := foldl sha512_round h (combine sha512_k (rev (extend512 64 (words64 16 b [])))) in
  Digest256 (w64 (s_a h + s_a s)) (w64 (s_b h + s_b s)) (w64 (s_c h + s_c s)) (w64 (s_d h + s_d s))
    (w64 (s_e h + s_e s)) (w64 (s_f h + s_f s)) (w64 (s_g h + s_g s)) (w64 (s_h h + s_h s)).

Fixpoint sha512_blocks (k : nat) (h : digest256) (m : list Z) : digest256 :=
  match k with O => h | S k' => sha512_blocks k' (sha512_block h (take 128 m)) (drop 128 m) end.

Definition sha512_pad (m : list Z) : list Z :=
  m ++ [0x80] ++ replicate (Z.to_nat ((111 - Z.of_nat (length m)) mod 128)) 0 ++ be_bytes 16 (8 * Z.of_nat (length m)).

Definition Sum512 (m : list Z) : list Z :=
  let p := sha512_pad m in
  let h := sha512_blocks (length p / 128) sha512_init p in
  concat (be_bytes 8 <$> [s_a h; s_b h; s_c h; s_d h; s_e h; s_f h; s_g h; s_h h]).

Definition hmac_sha512 (key m : list Z) : list Z :=
  let key := if (128 <? length key)%nat then Sum512 key else key in
  let key := key ++ replicate (128 - length key) 0 in
  Sum512 ((Z.lxor 0x5c <$> key) ++ Sum512 ((Z.lxor 0x36 <$> key) ++ m)).

Example sha512_abc : Sum512 (bytes "abc") =
  from_hex 64 0xddaf35a193617abacc417349ae20413112e6fa4e89a97ea20a9eeee64b55d39a2192992a274fc1a836ba3c23a3feebbd454d4423643ce80e2a9ac94fa54ca49f.
Proof. vm_compute. reflexivity. Qed.
Example sha512_two_blocks :
  Sum512 (bytes "abcdefghbcdefghicdefghijdefghijkefghijklfghijklmghijklmnhijklmnoijklmnopjklmnopqklmnopqrlmnopqrsmnopqrstnopqrstu") =
  from_hex 64 0x8e959b75dae313da8cf4f72814fc143f8f7779c6eb9f7fa17299aeadb6889018501d289e4900f7e4331b99dec4b5433ac7d329eeb6dd26545e96e55b874be909.
Proof. vm_compute. reflexivity. Qed.
(** RFC 4231, test case 2. *)
Example hmac_sha512_jefe : hmac_sha512 (bytes "Jefe") (bytes "what do ya want for nothing?") =
  from_hex 64 0x164b7a7bfcf819e2e395fbe73b56e0a387bd64222e831fd610270cd7ea2505549758bf75c05a994a6d034f65f8f0e6fdcaeab1a34d4a6b4b636e070a38bce737.
Proof. vm_compute. reflexivity. Qed.

(** * SHAKE256 *)
Definition keccak_rc : list Z :=
  [0x0000000000000001; 0x0000000000008082; 0x800000000000808a; 0x8000000080008000;
   0x000000000000808b; 0x0000000080000001; 0x8000000080008081; 0x8000000000008009;
   0x000000000000008a; 0x0000000000000088; 0x0000000080008009; 0x000000008000000a;
   0x000000008000808b; 0x800000000000008b; 0x8000000000008089; 0x8000000000008003;
   0x8000000000008002; 0x8000000000000080; 0x000000000000800a; 0x800000008000000a;
   0x8000000080008081; 0x8000000000008080; 0x0000000080000001; 0x8000000080008008].
(** For each lane after rho and pi, the lane it comes from and its rotation. *)
Definition rho_pi : list (nat * Z) :=
  [(0%nat, 0); (6%nat, 44); (12%nat, 43); (18%nat, 21); (24%nat, 14); (3%nat, 28); (9%nat, 20); (10%nat, 3); (16%nat, 45); (22%nat, 61); (1%nat, 1); (7%nat, 6); (13%nat, 25); (19%nat, 8); (20%nat, 18); (4%nat, 27); (5%nat, 36); (11%nat, 10); (17%nat, 15); (23%nat, 56); (2%nat, 62); (8%nat, 55); (14%nat, 39); (15%nat, 41); (21%nat, 2)].
Definition rotl64 (n x : Z) : Z := Z.lor (w64 (Z.shiftl x n)) (Z.shiftr x (64 - n)).
Definition lane (a : list Z) (i : nat) : Z := nth i a 0.

Definition keccak_round (a : list Z) (rc : Z) : list Z :=
  let c := (λ x, foldl Z.lxor 0 ((λ y, lane a (x + 5 * y)) <$> seq 0 5)) <$> seq 0 5 in
  let d := (λ x, Z.lxor (lane c ((x + 4) mod 5)) (rotl64 1 (lane c ((x + 1) mod 5)))) <$> seq 0 5 in
  let a := imap (λ i v, Z.lxor v (lane d (i mod 5))) a in
  let b := (λ p : nat * Z, rotl64 p.2 (lane a p.1)) <$> rho_pi in
  let a := (λ i, Z.lxor (lane b i)
    (Z.land (not64 (lane b ((i + 1) mod 5 + 5 * (i / 5)))) (lane b ((i + 2) mod 5 + 5 * (i / 5))))) <$> seq 0 25 in
  match a with v :: a' => Z.lxor v rc :: a' | [] => [] end.
Definition keccak_f (a : list Z) : list Z := foldl keccak_round a keccak_rc.

Definition le_bytes (x : Z) : list Z := rev (be_bytes 8 x).
Definition shake_rate : nat := 136.
(** A block of the rate, as the lanes it is added to. *)
Definition absorb (a b : list Z) : list Z :=
  keccak_f (imap (λ i v, Z.lxor v (be_value (rev (take 8 (drop (8 * i) b))) 0)) a).
Definition shake_pad (m : list Z) : list Z :=
  let n := (shake_rate - length m mod shake_rate)%nat in
  if (n =? 1)%nat then m ++ [0x9f] else m ++ [0x1f] ++ replicate (n - 2) 0 ++ [0x80].
Fixpoint absorb_all (k : nat) (a m : list Z) : list Z :=
  match k with O => a | S k' => absorb_all k' (absorb a (take shake_rate m)) (drop shake_rate m) end.
Fixpoint squeeze (k : nat) (a : list Z) : list Z :=
  match k with O => [] | S k' => take shake_rate (concat (le_bytes <$> a)) ++ squeeze k' (keccak_f a) end.

(** The first [n] bytes [Read] returns after [Write(m)]. *)
Definition SHAKE256 (m : list Z) (n : nat) : list Z :=
  let p := shake_pad m in
  take n (squeeze (n / shake_rate + 1) (absorb_all (length p / shake_rate) (replicate 25 0) p)).

Example shake256_empty : SHAKE256 [] 64 = from_hex 64 0x46b9dd2b0ba88d13233b3feb743eeb243fcd52ea62b81b82b50c27646ed5762fd75dc4ddd8c0f200cb05019d67b592f6fc821c49479ab48640292eacb3b7c4be.
Proof. vm_compute. reflexivity. Qed.
Example shake256_abc : SHAKE256 (bytes "abc") 200 = from_hex 200 0x483366601360a8771c6863080cc4114d8db44530f8f1e1ee4f94ea37e78b5739d5a15bef186a5386c75744c0527e1faa9f8726e462a12a4feb06bd8801e751e41385141204f329979fd3047a13c5657724ada64d2470157b3cdc288620944d78dbcddbd912993f0913f164fb2ce95131a2d09a3e6d51cbfc622720d7a75c6334e8a2d7ec71a7cc29cf0ea610eeff1a588290a53000faa79932becec0bd3cd0b33a7e5d397fed1ada9442b99903f4dcfd8559ed3950faf40fe6f3b5d710ed3b677513771af6bfe119.
Proof. vm_compute. reflexivity. Qed.

(** * Sizes *)
Lemma Sum512_length m : length (Sum512 m) = 64%nat.
Proof. unfold Sum512. cbn [fmap list_fmap concat]. rewrite !length_app, !be_bytes_length. reflexivity. Qed.
Lemma Sum512_range m : Forall is_byte (Sum512 m).
Proof. unfold Sum512. cbn [fmap list_fmap concat]. repeat apply Forall_app_2; try apply be_bytes_range. constructor. Qed.
Lemma hmac_sha512_range k m : Forall is_byte (hmac_sha512 k m).
Proof. apply Sum512_range. Qed.
Lemma hmac_sha512_length k m : length (hmac_sha512 k m) = 64%nat.
Proof. apply Sum512_length. Qed.

Lemma keccak_round_length a rc : length (keccak_round a rc) = 25%nat.
Proof. reflexivity. Qed.
Lemma keccak_f_length a : length (keccak_f a) = 25%nat.
Proof. unfold keccak_f, keccak_rc. rewrite <-(keccak_round_length a 1). cbn [foldl]. apply keccak_round_length. Qed.
Lemma lanes_length a : length (concat (le_bytes <$> a)) = (8 * length a)%nat.
Proof.
  induction a as [|x a IH]; [done|]. cbn [fmap list_fmap concat length]. rewrite length_app, IH. unfold le_bytes. rewrite length_rev, be_bytes_length. lia.
Qed.
Lemma squeeze_length k : ∀ a, length a = 25%nat → length (squeeze k a) = (k * shake_rate)%nat.
Proof.
  induction k as [|k IH]; intros a Ha; [done|]. cbn [squeeze]. rewrite length_app, IH by apply keccak_f_length.
  rewrite length_take, lanes_length, Ha. unfold shake_rate. lia.
Qed.
Lemma absorb_all_length k : ∀ a m, length a = 25%nat → length (absorb_all k a m) = 25%nat.
Proof. induction k as [|k IH]; intros a m Ha; [done|]. cbn [absorb_all]. apply IH, keccak_f_length. Qed.
Lemma SHAKE256_length m n : length (SHAKE256 m n) = n.
Proof.
  unfold SHAKE256. rewrite length_take, squeeze_length by by apply absorb_all_length.
  pose proof (Nat.div_mod_eq n shake_rate). pose proof (Nat.mod_upper_bound n shake_rate). unfold shake_rate in *. lia.
Qed.
