(* ===== verification/Control.v ===== *)
(** The control plane ([control/*.go]): users, roles, password and recovery
    credentials, invitations and password-reset tickets. One record holds the
    tables of [control/schema.go]; every mutation runs in one immediate SQL
    transaction, as in [Store.withImmediate]. *)
From Stdlib Require Import ZArith Lia.
From stdpp Require Import base gmap list strings sorting.
From S2P Require Import Prelude GoText Validation Throttle.
Open Scope Z_scope.

(** * Errors and data *)
Inductive cerr :=
| EIDSpace | EIDLength | EIDCharacter | EEmail | EDisplayName | ERole | ETime | EExpiry | EExpiryPast | EExpiryTooLong
| ETokenHash | EEnvelope (what : string)
| ErrNotFound | ErrForbidden | ErrConflict | ErrAlreadyBootstrapped | ErrSelfDisable | ErrLastActiveAdmin
| ErrInvitationInactive | ErrInvitationExpired | EInvitationEmail
| ErrResetTicketInactive | ErrResetTicketExpired | ErrRecoveryConflict | ErrCredentialConflict
| ERecoveryRequired | ESameReplacement | ELoginTime
| EPasskeyName | EPasskeyID | EPasskeyKey | EPasskeySalt | EPasskeyEncode
| ESQLConstraint.

Inductive Role := RoleAdmin | RoleUser.
Inductive UserState := UserActive | UserDisabled.
Inductive InvitationState := InvitationPending | InvitationAccepted | InvitationRevoked | InvitationExpired.
Inductive PasswordResetState := PasswordResetPending | PasswordResetConsumed | PasswordResetRevoked | PasswordResetExpired.
Inductive RecoveryEnvelopeState := RecoveryEnvelopeActive | RecoveryEnvelopeRevoked.

#[global] Instance Role_dec : EqDecision Role. Proof. solve_decision. Defined.
#[global] Instance UserState_dec : EqDecision UserState. Proof. solve_decision. Defined.
#[global] Instance InvitationState_dec : EqDecision InvitationState. Proof. solve_decision. Defined.
#[global] Instance PasswordResetState_dec : EqDecision PasswordResetState. Proof. solve_decision. Defined.
#[global] Instance RecoveryState_dec : EqDecision RecoveryEnvelopeState. Proof. solve_decision. Defined.

Record Argon2idProfile := Profile { MemoryKiB : Z; Iterations : Z; Parallelism : Z }.
#[global] Instance Argon2idProfile_dec : EqDecision Argon2idProfile. Proof. solve_decision. Defined.
Definition DefaultProfile : Argon2idProfile := Profile (64 * 1024) 3 2.

Record Envelope := MkEnvelope {
  env_Version : Z; env_Kind : string; env_KDF : string; env_Profile : Argon2idProfile;
  env_Salt : list Z; env_Nonce : list Z; env_Ciphertext : list Z; env_Verifier : list Z
}.

Record userrow := UserRow {
  u_email : string; u_display : string; u_role : Role; u_state : UserState; u_vault : string;
  u_created : Z; u_updated : Z; u_last_login : option Z
}.
Record passwordrow := PasswordRow { pw_json : string; pw_created : Z; pw_updated : Z }.
Record recoveryrow := RecoveryRow {
  rv_user : string; rv_json : string; rv_state : RecoveryEnvelopeState; rv_created : Z; rv_revoked : option Z
}.
Record invitationrow := InvitationRow {
  iv_hash : list Z; iv_email : string; iv_role : Role; iv_state : InvitationState; iv_by : string;
  iv_accepted : option string; iv_created : Z; iv_expires : Z; iv_resolved : option Z
}.
Record ticketrow := TicketRow {
  tk_user : string; tk_hash : list Z; tk_state : PasswordResetState; tk_by : string;
  tk_created : Z; tk_expires : Z; tk_resolved : option Z
}.

Record passkeyrow := PasskeyRow {
  pk_user : string; pk_name : string; pk_json : string; pk_salt : list Z; pk_envelope : string;
  pk_revision : Z; pk_created : Z; pk_updated : Z; pk_last_used : option Z
}.

(** The tables of the control database (the login throttle is [Throttle]). *)
Record control := Control {
  users : gmap string userrow;
  passwords : gmap string passwordrow;
  recoveries : gmap string recoveryrow;
  invitations : gmap string invitationrow;
  tickets : gmap string ticketrow;
  passkeys : gmap (list Z) passkeyrow
}.
Definition empty_control : control := Control ∅ ∅ ∅ ∅ ∅ ∅.

Definition set_users (m : gmap string userrow) (s : control) : control :=
  Control m (passwords s) (recoveries s) (invitations s) (tickets s) (passkeys s).
Definition set_passwords (m : gmap string passwordrow) (s : control) : control :=
  Control (users s) m (recoveries s) (invitations s) (tickets s) (passkeys s).
Definition set_recoveries (m : gmap string recoveryrow) (s : control) : control :=
  Control (users s) (passwords s) m (invitations s) (tickets s) (passkeys s).
Definition set_invitations (m : gmap string invitationrow) (s : control) : control :=
  Control (users s) (passwords s) (recoveries s) m (tickets s) (passkeys s).
Definition set_tickets (m : gmap string ticketrow) (s : control) : control :=
  Control (users s) (passwords s) (recoveries s) (invitations s) m (passkeys s).
Definition set_passkeys (m : gmap (list Z) passkeyrow) (s : control) : control :=
  Control (users s) (passwords s) (recoveries s) (invitations s) (tickets s) m.

Abbreviation cop := (stm control cerr).

(** What the store uses of [strings], [net/mail], [encoding/json] and
    [webauthn]: case folding, the parsed address, the JSON of an envelope (read
    back strictly, without trailing data) and of a WebAuthn credential. *)
Class ControlLib := {
  ToLower : string → string;
  ParseAddress : string → option string;
  MarshalEnvelope : Envelope → string;
  UnmarshalEnvelope : string → option Envelope;
  Credential : Type;
  Credential_ID : Credential → list Z;
  Credential_PublicKey : Credential → list Z;
  MarshalCredential : Credential → option string
}.

(** * Validation *)
Definition id_rune (c : Z) : bool :=
  between 97 122 c || between 65 90 c || between 48 57 c || (c =? 45) || (c =? 95).

Definition normalizeID (i : string) : res cerr string :=
  if negb (bool_decide (TrimSpace i = i)) then Err EIDSpace
  else if (len i <? 16) || (len i >? 128) then Err EIDLength
  else if forallb id_rune (runes i) then Ok i
  else Err EIDCharacter.

(** [idOrGenerate]: the generated id is an input of the call. *)
Definition idOrGenerate (i generated : string) : res cerr string :=
  if bool_decide (i = "") then Ok generated else normalizeID i.

Definition op_time (t : Z) : res cerr Z :=
  match validateOperationTime t with Ok now => Ok now | Err _ => Err ETime end.

Definition MaxInvitationLifetime : Z := 7 * 24 * Hour.
Definition MaxPasswordResetLifetime : Z := Hour.

Definition validateExpiry (now expiresAt : Z) : res cerr Z :=
  match validateOperationTime expiresAt with
  | Err _ => Err EExpiry
  | Ok e => if e >? now then Ok e else Err EExpiryPast
  end.

Definition validateBoundedExpiry (now expiresAt maximum : Z) : res cerr Z :=
  validateExpiry now expiresAt ≫= λ e, if sub_ms e now >? maximum then Err EExpiryTooLong else Ok e.

Definition tokenHashSize : nat := 32.
Definition validateTokenHash (h : list Z) : res cerr unit := ensure (length h =? tokenHashSize)%nat ETokenHash.

Definition validateRole (role : string) : res cerr Role :=
  if bool_decide (role = "admin") then Ok RoleAdmin else if bool_decide (role = "user") then Ok RoleUser else Err ERole.

Definition normalizeDisplayName (name : string) : res cerr string :=
  let name := TrimSpace name in
  if (len name =? 0) || (len name >? 200) then Err EDisplayName
  else if existsb IsControl (runes name) then Err EDisplayName
  else Ok name.

Definition KindPassword : string := "password".
Definition KindRecovery : string := "recovery".
Definition KindPasskey : string := "passkey-prf".
Definition KindServerPasskey : string := "passkey-server".

Definition validateKeyEnvelope (e : Envelope) (kind : string) : res cerr unit :=
  ensure ((env_Version e =? 1) && bool_decide (env_Kind e = kind)) (EEnvelope "kind") ≫= λ _,
  ensure (length (env_Salt e) =? 32)%nat (EEnvelope "salt") ≫= λ _,
  ensure (length (env_Nonce e) =? 12)%nat (EEnvelope "nonce") ≫= λ _,
  ensure (length (env_Ciphertext e) =? 48)%nat (EEnvelope "ciphertext") ≫= λ _,
  if bool_decide (kind = KindPassword) then
    ensure (bool_decide (env_KDF e = "argon2id-hkdf-sha256") && bool_decide (env_Profile e = DefaultProfile)) (EEnvelope "kdf") ≫= λ _,
    ensure (length (env_Verifier e) =? 32)%nat (EEnvelope "verifier")
  else if bool_decide (kind = KindRecovery) then
    ensure (bool_decide (env_KDF e = "hkdf-sha256") && bool_decide (env_Profile e = Profile 0 0 0)
            && bool_decide (env_Verifier e = [])) (EEnvelope "kdf")
  else if bool_decide (kind = KindPasskey ∨ kind = KindServerPasskey) then
    ensure (bool_decide (env_KDF e = "hkdf-sha256") && bool_decide (env_Profile e = Profile 0 0 0)
            && bool_decide (env_Verifier e = [])) (EEnvelope "kdf")
  else Err (EEnvelope "kind").

Section Store.
Context `{ControlLib}.

Definition normalizeEmail (email : string) : res cerr string :=
  let email := ToLower (TrimSpace email) in
  if (len email <? 3) || (len email >? 254) || existsb (λ b, (b =? 13) || (b =? 10) || (b =? 0)) (bytes email) then Err EEmail
  else match ParseAddress email with
       | Some a =>
         if bool_decide (a = email) && (Z.of_nat (length (filter (λ b : Z, b = 64) (bytes email))) =? 1) then Ok email else Err EEmail
       | None => Err EEmail
       end.

Definition encodeKeyEnvelope (e : Envelope) (kind : string) : res cerr string :=
  validateKeyEnvelope e kind ≫= λ _,
  let encoded := MarshalEnvelope e in
  if len encoded >? 8192 then Err (EEnvelope "size") else Ok encoded.

Definition decodeKeyEnvelope (encoded kind : string) : res cerr Envelope :=
  if (len encoded <? 2) || (len encoded >? 8192) then Err (EEnvelope "size")
  else match UnmarshalEnvelope encoded with
       | None => Err (EEnvelope "decode")
       | Some e => validateKeyEnvelope e kind ≫= λ _, Ok e
       end.

Definition encodePasskeyEnvelope (e : Envelope) : res cerr string :=
  if bool_decide (env_Kind e = KindPasskey ∨ env_Kind e = KindServerPasskey) then encodeKeyEnvelope e (env_Kind e)
  else Err (EEnvelope "kind").
End Store.

Record RecoveryEnvelopeInput := RecoveryInput { ri_ID : string; ri_Envelope : Envelope }.
Record NewUserInput := UserInput {
  nu_ID : string; nu_Email : string; nu_DisplayName : string; nu_VaultID : string;
  nu_Password : Envelope; nu_Recovery : option RecoveryEnvelopeInput
}.
Record preparedNewUser := PreparedUser {
  pu_id : string; pu_email : string; pu_display : string; pu_vault : string;
  pu_password : string; pu_recovery_id : string; pu_recovery : string
}.

Definition prepareNewUser `{ControlLib} (input : NewUserInput) (generated : string) : res cerr preparedNewUser :=
  normalizeID (nu_ID input) ≫= λ i,
  normalizeEmail (nu_Email input) ≫= λ email,
  normalizeDisplayName (nu_DisplayName input) ≫= λ display,
  normalizeID (nu_VaultID input) ≫= λ vault,
  validateKeyEnvelope (nu_Password input) KindPassword ≫= λ _,
  encodeKeyEnvelope (nu_Password input) KindPassword ≫= λ password,
  match nu_Recovery input with
  | None => Err ERecoveryRequired
  | Some r =>
    validateKeyEnvelope (ri_Envelope r) KindRecovery ≫= λ _,
    idOrGenerate (ri_ID r) generated ≫= λ rid,
    encodeKeyEnvelope (ri_Envelope r) KindRecovery ≫= λ recovery,
    Ok (PreparedUser i email display vault password rid recovery)
  end.

(** * Statements *)

(** [COLLATE NOCASE]: ASCII letters compare without case. *)
Definition nocase (s : string) : list Z := (λ b, if between 65 90 b then b + 32 else b) <$> bytes s.

Definition select_user (i : string) : cop userrow :=
  s ← gets id; match users s !! i with Some u => mret u | None => fail ErrNotFound end.

(** [loadRoleAndState] *)
Definition loadRoleAndState (i : string) : cop (Role * UserState) := u ← select_user i; mret (u_role u, u_state u).

Definition active_admin (u : userrow) : Prop := u_role u = RoleAdmin ∧ u_state u = UserActive.
#[global] Instance active_admin_dec u : Decision (active_admin u).
Proof. unfold active_admin. apply _. Defined.

Definition requireActiveAdmin (i : string) : cop unit :=
  s ← gets id;
  match users s !! i with
  | Some u => require (bool_decide (active_admin u)) ErrForbidden
  | None => fail ErrForbidden
  end.

Definition requireActiveUser (i : string) : cop unit :=
  s ← gets id;
  match users s !! i with
  | Some u => require (bool_decide (u_state u = UserActive)) ErrForbidden
  | None => fail ErrForbidden
  end.

Definition requireAnotherActiveAdmin (i : string) : cop unit :=
  s ← gets id;
  require (negb (bool_decide (filter (λ x, active_admin x.2 ∧ x.1 ≠ i) (users s) = ∅))) ErrLastActiveAdmin.

(** The CHECK constraints that a later time could violate. *)
Definition user_check (u : userrow) : bool :=
  (0 <? u_created u) && (u_created u <=? u_updated u)
  && match u_last_login u with None => true | Some t => u_created u <=? t end.

Definition update_user (i : string) (f : userrow → userrow) : cop unit :=
  s ← gets id;
  match users s !! i with
  | None => mret tt
  | Some u =>
    require (user_check (f u)) ESQLConstraint;;
    modify (λ s, set_users (<[i := f u]> (users s)) s)
  end.

Definition with_state (st : UserState) (now : Z) (u : userrow) : userrow :=
  UserRow (u_email u) (u_display u) (u_role u) st (u_vault u) (u_created u) now (u_last_login u).
Definition with_role (r : Role) (now : Z) (u : userrow) : userrow :=
  UserRow (u_email u) (u_display u) r (u_state u) (u_vault u) (u_created u) now (u_last_login u).
Definition with_updated (now : Z) (u : userrow) : userrow :=
  UserRow (u_email u) (u_display u) (u_role u) (u_state u) (u_vault u) (u_created u)
    (if u_updated u <? now then now else u_updated u) (u_last_login u).
Definition with_login (now : Z) (u : userrow) : userrow :=
  UserRow (u_email u) (u_display u) (u_role u) (u_state u) (u_vault u) (u_created u) (u_updated u)
    (match u_last_login u with Some t => if t <? now then Some now else Some t | None => Some now end).

Definition resolve_invitation (st : InvitationState) (by_ : option string) (at_ : Z) (r : invitationrow) : invitationrow :=
  InvitationRow (iv_hash r) (iv_email r) (iv_role r) st (iv_by r)
    (match by_ with Some u => Some u | None => iv_accepted r end) (iv_created r) (iv_expires r) (Some at_).
Definition resolve_ticket (st : PasswordResetState) (at_ : Z) (r : ticketrow) : ticketrow :=
  TicketRow (tk_user r) (tk_hash r) st (tk_by r) (tk_created r) (tk_expires r) (Some at_).

Definition hit_invitation (P : string → invitationrow → bool) (i : string) (r : invitationrow) : bool :=
  bool_decide (iv_state r = InvitationPending) && P i r.
Definition hit_ticket (P : string → ticketrow → bool) (i : string) (r : ticketrow) : bool :=
  bool_decide (tk_state r = PasswordResetPending) && P i r.

Definition resolved_invitations (P : string → invitationrow → bool) (st : InvitationState) (by_ : option string)
    (t : invitationrow → Z) (m : gmap string invitationrow) : gmap string invitationrow :=
  map_imap (λ i r, Some (if hit_invitation P i r then resolve_invitation st by_ (t r) r else r)) m.
Definition resolved_tickets (P : string → ticketrow → bool) (st : ticketrow → PasswordResetState) (t : ticketrow → Z)
    (m : gmap string ticketrow) : gmap string ticketrow :=
  map_imap (λ i r, Some (if hit_ticket P i r then resolve_ticket (st r) (t r) r else r)) m.

(** [UPDATE invitations SET ... WHERE state = 'pending' AND P]; a resolution before
    the creation of a row violates its CHECK. *)
Definition resolve_invitations (P : string → invitationrow → bool) (st : InvitationState) (by_ : option string)
    (t : invitationrow → Z) : cop unit :=
  s ← gets id;
  require (bool_decide (map_Forall (λ i r, hit_invitation P i r = true → iv_created r <= t r) (invitations s))) ESQLConstraint;;
  modify (λ s, set_invitations (resolved_invitations P st by_ t (invitations s)) s).

(** The same for [password_reset_tickets]; the result is the number of rows. *)
Definition resolve_tickets (P : string → ticketrow → bool) (st : ticketrow → PasswordResetState) (t : ticketrow → Z) : cop Z :=
  s ← gets id;
  require (bool_decide (map_Forall (λ i r, hit_ticket P i r = true → tk_created r <= t r) (tickets s))) ESQLConstraint;;
  modify (λ s, set_tickets (resolved_tickets P st t (tickets s)) s);;
  mret (Z.of_nat (size (filter (λ x, hit_ticket P x.1 x.2 = true) (tickets s)))).

Definition revokePendingCapabilities (i : string) (now : Z) : cop unit :=
  resolve_invitations (λ _ r, bool_decide (iv_by r = i)) InvitationRevoked None (λ r, if iv_created r >? now then iv_created r else now);;
  resolve_tickets (λ _ r, bool_decide (tk_by r = i) || bool_decide (tk_user r = i)) (λ _, PasswordResetRevoked)
    (λ r, if tk_created r >? now then tk_created r else now);;
  mret tt.

Definition advanceUserUpdatedAt (i : string) (now : Z) : cop unit := update_user i (with_updated now).

(** [DELETE FROM passkey_credentials WHERE user_id = ?]: rows affected. *)
Definition delete_passkeys (i : string) : cop Z :=
  s ← gets id;
  modify (λ s, set_passkeys (filter (λ x, pk_user x.2 ≠ i) (passkeys s)) s);;
  mret (Z.of_nat (size (filter (λ x, pk_user x.2 = i) (passkeys s)))).

Definition id_check (i : string) : bool := between 16 128 (len i).

(** SQLite's [length] of a text: characters before the first NUL, a byte from 0xC0 on
    taking the continuation bytes after it. *)
Fixpoint sql_length (lead : bool) (l : list Z) : Z :=
  match l with
  | [] => 0
  | b :: l' => if b =? 0 then 0 else if lead && cont b then sql_length true l' else 1 + sql_length (b >=? 192) l'
  end.
Definition text_length (t : string) : Z := sql_length false (bytes t).

(** [INSERT INTO recovery_envelopes ... 'active']: the primary key, the foreign key,
    the partial unique index and the CHECKs. *)
Definition recovery_insertable (s : control) (rid user : string) (now : Z) : bool :=
  id_check rid && bool_decide (recoveries s !! rid = None) && bool_decide (is_Some (users s !! user)) && (0 <? now)
  && bool_decide (map_Forall (λ _ r, ¬ (rv_user r = user ∧ rv_state r = RecoveryEnvelopeActive)) (recoveries s)).

Definition insert_recovery (e : cerr) (rid user json : string) (now : Z) : cop unit :=
  s ← gets id;
  require (recovery_insertable s rid user now) e;;
  modify (λ s, set_recoveries (<[rid := RecoveryRow user json RecoveryEnvelopeActive now None]> (recoveries s)) s).

Definition insertActiveRecoveryEnvelope (rid user json : string) (now : Z) : cop unit := insert_recovery ErrConflict rid user json now.

(** [UPDATE recovery_envelopes SET state = 'revoked' ...]: whether one row matched. *)
Definition revokeExpectedRecoveryEnvelope (user rid json : string) (createdAt now : Z) : cop bool :=
  s ← gets id;
  match recoveries s !! rid with
  | None => mret false
  | Some r =>
    if bool_decide (rv_user r = user ∧ rv_state r = RecoveryEnvelopeActive ∧ rv_json r = json ∧ rv_created r = createdAt) then
      require (rv_created r <=? now) ESQLConstraint;;
      modify (λ s, set_recoveries
        (<[rid := RecoveryRow (rv_user r) (rv_json r) RecoveryEnvelopeRevoked (rv_created r) (Some now)]> (recoveries s)) s);;
      mret true
    else mret false
  end.

(** [UPDATE password_credentials SET envelope_json, updated_at_ms WHERE user_id = ? AND P]:
    rows affected. *)
Definition update_password (i : string) (P : passwordrow → bool) (json : string) (now : Z) : cop Z :=
  s ← gets id;
  match passwords s !! i with
  | None => mret 0
  | Some r =>
    if P r then
      require (pw_created r <=? now) ESQLConstraint;;
      modify (λ s, set_passwords (<[i := PasswordRow json (pw_created r) now]> (passwords s)) s);;
      mret 1
    else mret 0
  end.

Definition insert_user (i : string) (u : userrow) : cop unit :=
  s ← gets id;
  require (id_check i && between 3 254 (text_length (u_email u)) && between 1 200 (text_length (u_display u)) && id_check (u_vault u) && user_check u
           && bool_decide (users s !! i = None)
           && bool_decide (map_Forall (λ _ v, nocase (u_email v) ≠ nocase (u_email u) ∧ u_vault v ≠ u_vault u) (users s))) ErrConflict;;
  modify (λ s, set_users (<[i := u]> (users s)) s).

Definition insert_password (i : string) (json : string) (now : Z) : cop unit :=
  s ← gets id;
  require (bool_decide (passwords s !! i = None) && bool_decide (is_Some (users s !! i)) && (0 <? now)) ESQLConstraint;;
  modify (λ s, set_passwords (<[i := PasswordRow json now now]> (passwords s)) s).

Definition insertPreparedUser (p : preparedNewUser) (role : Role) (now : Z) : cop unit :=
  insert_user (pu_id p) (UserRow (pu_email p) (pu_display p) role UserActive (pu_vault p) now now None);;
  insert_password (pu_id p) (pu_password p) now;;
  insert_recovery ESQLConstraint (pu_recovery_id p) (pu_id p) (pu_recovery p) now.

(** * Operations

    [withImmediate] commits when the operation returns no error and rolls back
    otherwise. An expired bearer is recorded by the transaction and reported
    after the commit: [after_commit]. *)
Definition withImmediate {A} (operation : cop A) : cop A := transactional operation.

Definition after_commit {A} (operation : cop (A + cerr)) : cop A :=
  r ← withImmediate operation; match r with inl a => mret a | inr e => fail e end.

Record UserSummary := Summary {
  us_ID : string; us_Email : string; us_DisplayName : string; us_Role : Role; us_State : UserState;
  us_CreatedAt : Z; us_UpdatedAt : Z; us_LastLoginAt : option Z
}.
Definition scanUserSummary (i : string) (u : userrow) : UserSummary :=
  Summary i (u_email u) (u_display u) (u_role u) (u_state u) (u_created u) (u_updated u) (u_last_login u).
Definition summary (p : preparedNewUser) (role : Role) (now : Z) : UserSummary :=
  Summary (pu_id p) (pu_email p) (pu_display p) role UserActive now now None.

Record CreateInvitationInput := InvitationInput {
  ii_ID : string; ii_Email : string; ii_Role : string; ii_TokenHash : list Z; ii_ExpiresAt : Z
}.
Record CreatePasswordResetTicketInput := TicketInput { ti_ID : string; ti_TokenHash : list Z; ti_ExpiresAt : Z }.
Record PasswordCredential := PwCredential { pc_UserID : string; pc_Envelope : Envelope; pc_CreatedAt : Z; pc_UpdatedAt : Z }.
Record RecoveryEnvelope := RecEnvelope {
  re_ID : string; re_UserID : string; re_Envelope : Envelope; re_State : RecoveryEnvelopeState;
  re_CreatedAt : Z; re_RevokedAt : option Z
}.
Record CompletePasswordResetInput := CompleteInput {
  cp_TokenHash : list Z; cp_Expected : RecoveryEnvelope; cp_Password : Envelope; cp_Recovery : RecoveryEnvelopeInput
}.

Definition validateUserMutation (actorID targetID : string) (time : Z) : res cerr (string * string * Z) :=
  normalizeID actorID ≫= λ actor,
  normalizeID targetID ≫= λ target,
  op_time time ≫= λ now,
  Ok (actor, target, now).

Section Operations.
Context `{ControlLib}.

(** ** Users ([users.go]) *)
Definition BootstrapFirstAdmin (input : NewUserInput) (generated : string) (time : Z) : cop UserSummary :=
  now ← lift (op_time time);
  p ← lift (prepareNewUser input generated);
  withImmediate (
    s ← gets id;
    require (bool_decide (users s = ∅)) ErrAlreadyBootstrapped;;
    insertPreparedUser p RoleAdmin now;;
    mret (summary p RoleAdmin now)).

Definition IsBootstrapped : cop bool := s ← gets id; mret (negb (bool_decide (users s = ∅))).

Definition GetUser (userID : string) : cop UserSummary :=
  i ← lift (normalizeID userID);
  u ← select_user i;
  mret (scanUserSummary i u).

(** [WHERE email = ? COLLATE NOCASE] is unique: the first row found. *)
Definition GetUserByEmail (email : string) : cop UserSummary :=
  e ← lift (normalizeEmail email);
  s ← gets id;
  match map_to_list (filter (λ x, nocase (u_email x.2) = nocase e) (users s)) with
  | (i, u) :: _ => mret (scanUserSummary i u)
  | [] => fail ErrNotFound
  end.

Definition LookupVaultID (userID : string) : cop string :=
  i ← lift (normalizeID userID);
  u ← select_user i;
  mret (u_vault u).

Definition GetPasswordCredential (userID : string) : cop PasswordCredential :=
  i ← lift (normalizeID userID);
  s ← gets id;
  match passwords s !! i with
  | None => fail ErrNotFound
  | Some r =>
    e ← lift (decodeKeyEnvelope (pw_json r) KindPassword);
    mret (PwCredential i e (pw_created r * 1000000) (pw_updated r * 1000000))
  end.

Definition active_recovery (s : control) (i rid : string) (r : recoveryrow) : Prop :=
  recoveries s !! rid = Some r ∧ rv_user r = i ∧ rv_state r = RecoveryEnvelopeActive.

Definition GetActiveRecoveryEnvelope (userID : string) : cop RecoveryEnvelope :=
  i ← lift (normalizeID userID);
  s ← gets id;
  match map_to_list (filter (λ x, rv_user x.2 = i ∧ rv_state x.2 = RecoveryEnvelopeActive) (recoveries s)) with
  | [] => fail ErrNotFound
  | (rid, r) :: _ =>
    e ← lift (decodeKeyEnvelope (rv_json r) KindRecovery);
    mret (RecEnvelope rid i e (rv_state r) (rv_created r * 1000000) ((λ t, t * 1000000) <$> rv_revoked r))
  end.

Definition DisableUser (actorID targetID : string) (time : Z) : cop unit :=
  '(actor, target, now) ← lift (validateUserMutation actorID targetID time);
  if bool_decide (actor = target) then fail ErrSelfDisable
  else withImmediate (
    requireActiveAdmin actor;;
    '(role, state) ← loadRoleAndState target;
    if bool_decide (state = UserDisabled) then revokePendingCapabilities target now
    else
      (if bool_decide (role = RoleAdmin) then requireAnotherActiveAdmin target else mret tt);;
      update_user target (with_state UserDisabled now);;
      revokePendingCapabilities target now).

Definition EnableUser (actorID targetID : string) (time : Z) : cop unit :=
  '(actor, target, now) ← lift (validateUserMutation actorID targetID time);
  withImmediate (
    requireActiveAdmin actor;;
    loadRoleAndState target;;
    update_user target (with_state UserActive now)).

Definition SetUserRole (actorID targetID roleName : string) (time : Z) : cop unit :=
  role ← lift (validateRole roleName);
  '(actor, target, now) ← lift (validateUserMutation actorID targetID time);
  withImmediate (
    requireActiveAdmin actor;;
    '(current, state) ← loadRoleAndState target;
    if bool_decide (current = role) then mret tt
    else
      (if bool_decide (current = RoleAdmin ∧ role ≠ RoleAdmin ∧ state = UserActive) then requireAnotherActiveAdmin target else mret tt);;
      update_user target (with_role role now);;
      if bool_decide (current = RoleAdmin ∧ role ≠ RoleAdmin) then revokePendingCapabilities target now else mret tt).

(** ** Invitations ([invitations.go]) *)
Definition invitation_insertable (s : control) (i : string) (r : invitationrow) : bool :=
  id_check i && bool_decide (invitations s !! i = None) && between 3 254 (text_length (iv_email r))
  && bool_decide (length (iv_hash r) = 32%nat) && bool_decide (is_Some (users s !! iv_by r))
  && (0 <? iv_created r) && (iv_created r <? iv_expires r)
  && bool_decide (map_Forall (λ _ q, iv_hash q ≠ iv_hash r ∧
       ¬ (iv_state q = InvitationPending ∧ nocase (iv_email q) = nocase (iv_email r))) (invitations s)).

Definition CreateInvitation (actorID : string) (input : CreateInvitationInput) (generated : string) (time : Z)
    : cop (string * invitationrow) :=
  actor ← lift (normalizeID actorID);
  now ← lift (op_time time);
  i ← lift (idOrGenerate (ii_ID input) generated);
  email ← lift (normalizeEmail (ii_Email input));
  role ← lift (validateRole (ii_Role input));
  lift (validateTokenHash (ii_TokenHash input));;
  expires ← lift (validateBoundedExpiry now (ii_ExpiresAt input) MaxInvitationLifetime);
  let row := InvitationRow (ii_TokenHash input) email role InvitationPending actor None now expires None in
  withImmediate (
    requireActiveAdmin actor;;
    s ← gets id;
    require (bool_decide (map_Forall (λ _ u, nocase (u_email u) ≠ nocase email) (users s))) ErrConflict;;
    resolve_invitations (λ _ r, bool_decide (nocase (iv_email r) = nocase email) && (iv_expires r <=? now))
      InvitationExpired None (λ _, now);;
    s ← gets id;
    require (invitation_insertable s i row) ErrConflict;;
    modify (λ s, set_invitations (<[i := row]> (invitations s)) s);;
    mret (i, row)).

(** [WHERE token_hash = ?]: the column is UNIQUE. *)
Definition invitation_by_hash (h : list Z) (s : control) : option (string * invitationrow) :=
  head (map_to_list (filter (λ x, iv_hash x.2 = h) (invitations s))).

Definition GetInvitationByTokenHash (h : list Z) : cop (string * invitationrow) :=
  lift (validateTokenHash h);;
  s ← gets id;
  match invitation_by_hash h s with None => fail ErrNotFound | Some x => mret x end.

Definition AcceptInvitation (h : list Z) (input : NewUserInput) (generated : string) (time : Z) : cop UserSummary :=
  lift (validateTokenHash h);;
  now ← lift (op_time time);
  p ← lift (prepareNewUser input generated);
  after_commit (
    s ← gets id;
    match invitation_by_hash h s with
    | None => fail ErrNotFound
    | Some (i, r) =>
      require (bool_decide (iv_state r = InvitationPending)) ErrInvitationInactive;;
      if negb (iv_expires r >? now) then
        resolve_invitations (λ j _, bool_decide (j = i)) InvitationExpired None (λ _, now);;
        mret (inr ErrInvitationExpired)
      else
        require (bool_decide (pu_email p = iv_email r)) EInvitationEmail;;
        insertPreparedUser p (iv_role r) now;;
        resolve_invitations (λ j _, bool_decide (j = i)) InvitationAccepted (Some (pu_id p)) (λ _, now);;
        mret (inl (summary p (iv_role r) now))
    end).

Definition RevokeInvitation (actorID invitationID : string) (time : Z) : cop unit :=
  '(actor, i, now) ← lift (validateUserMutation actorID invitationID time);
  withImmediate (
    requireActiveAdmin actor;;
    s ← gets id;
    match invitations s !! i with
    | None => fail ErrNotFound
    | Some r =>
      require (bool_decide (iv_state r = InvitationPending)) ErrInvitationInactive;;
      resolve_invitations (λ j _, bool_decide (j = i)) InvitationRevoked None (λ _, now)
    end).

(** ** Password-reset tickets ([password_reset.go]) *)
Definition ticket_insertable (s : control) (i : string) (r : ticketrow) : bool :=
  id_check i && bool_decide (tickets s !! i = None)
  && bool_decide (length (tk_hash r) = 32%nat) && bool_decide (is_Some (users s !! tk_by r)) && bool_decide (is_Some (users s !! tk_user r))
  && (0 <? tk_created r) && (tk_created r <? tk_expires r)
  && bool_decide (map_Forall (λ _ q, tk_hash q ≠ tk_hash r) (tickets s)).

Definition CreatePasswordResetTicket (actorID targetID : string) (input : CreatePasswordResetTicketInput) (generated : string)
    (time : Z) : cop (string * ticketrow) :=
  '(actor, target, now) ← lift (validateUserMutation actorID targetID time);
  i ← lift (idOrGenerate (ti_ID input) generated);
  lift (validateTokenHash (ti_TokenHash input));;
  expires ← lift (validateBoundedExpiry now (ti_ExpiresAt input) MaxPasswordResetLifetime);
  let row := TicketRow target (ti_TokenHash input) PasswordResetPending actor now expires None in
  withImmediate (
    requireActiveAdmin actor;;
    '(_, state) ← loadRoleAndState target;
    require (bool_decide (state = UserActive)) ErrForbidden;;
    resolve_tickets (λ _ r, bool_decide (tk_user r = target))
      (λ r, if tk_expires r <=? now then PasswordResetExpired else PasswordResetRevoked) (λ _, now);;
    s ← gets id;
    require (ticket_insertable s i row) ErrConflict;;
    modify (λ s, set_tickets (<[i := row]> (tickets s)) s);;
    mret (i, row)).

Definition ticket_by_hash (h : list Z) (s : control) : option (string * ticketrow) :=
  head (map_to_list (filter (λ x, tk_hash x.2 = h) (tickets s))).

Definition GetPasswordResetTicketByTokenHash (h : list Z) : cop (string * ticketrow) :=
  lift (validateTokenHash h);;
  s ← gets id;
  match ticket_by_hash h s with None => fail ErrNotFound | Some x => mret x end.

Definition CompletePasswordReset (input : CompletePasswordResetInput) (generated : string) (time : Z) : cop (string * ticketrow) :=
  lift (validateTokenHash (cp_TokenHash input));;
  let expected := cp_Expected input in
  expectedUser ← match normalizeID (re_UserID expected) with
                 | Ok u => if bool_decide (re_State expected = RecoveryEnvelopeActive) then mret u else fail ErrRecoveryConflict
                 | Err _ => fail ErrRecoveryConflict
                 end;
  expectedID ← lift (normalizeID (re_ID expected));
  expectedJSON ← lift (encodeKeyEnvelope (re_Envelope expected) KindRecovery);
  expectedCreated ← lift (op_time (re_CreatedAt expected));
  passwordJSON ← lift (encodeKeyEnvelope (cp_Password input) KindPassword);
  newID ← lift (idOrGenerate (ri_ID (cp_Recovery input)) generated);
  require (negb (bool_decide (newID = expectedID))) ESameReplacement;;
  recoveryJSON ← lift (encodeKeyEnvelope (ri_Envelope (cp_Recovery input)) KindRecovery);
  require (negb (bool_decide (recoveryJSON = expectedJSON))) ESameReplacement;;
  now ← lift (op_time time);
  require (negb (now <? expectedCreated)) ErrRecoveryConflict;;
  after_commit (
    s ← gets id;
    match ticket_by_hash (cp_TokenHash input) s with
    | None => fail ErrNotFound
    | Some (i, r) =>
      require (bool_decide (tk_state r = PasswordResetPending)) ErrResetTicketInactive;;
      if negb (tk_expires r >? now) then
        resolve_tickets (λ j _, bool_decide (j = i)) (λ _, PasswordResetExpired) (λ _, now);;
        mret (inr ErrResetTicketExpired)
      else
        require (bool_decide (tk_user r = expectedUser)) ErrRecoveryConflict;;
        requireActiveUser (tk_user r);;
        delete_passkeys (tk_user r);;
        n ← update_password (tk_user r) (λ p, pw_updated p <? now) passwordJSON now;
        require (n =? 1) ErrCredentialConflict;;
        revoked ← revokeExpectedRecoveryEnvelope (tk_user r) expectedID expectedJSON expectedCreated now;
        require revoked ErrRecoveryConflict;;
        insertActiveRecoveryEnvelope newID (tk_user r) recoveryJSON now;;
        m ← resolve_tickets (λ j _, bool_decide (j = i)) (λ _, PasswordResetConsumed) (λ _, now);
        require (m =? 1) ErrResetTicketInactive;;
        resolve_tickets (λ j q, bool_decide (tk_user q = tk_user r) && negb (bool_decide (j = i))) (λ _, PasswordResetRevoked) (λ _, now);;
        advanceUserUpdatedAt (tk_user r) now;;
        mret (inl (i, resolve_ticket PasswordResetConsumed now r))
    end).

Definition RevokePasswordResetTicket (actorID ticketID : string) (time : Z) : cop unit :=
  '(actor, i, now) ← lift (validateUserMutation actorID ticketID time);
  withImmediate (
    requireActiveAdmin actor;;
    s ← gets id;
    match tickets s !! i with
    | None => fail ErrNotFound
    | Some r =>
      require (bool_decide (tk_state r = PasswordResetPending)) ErrResetTicketInactive;;
      resolve_tickets (λ j _, bool_decide (j = i)) (λ _, PasswordResetRevoked) (λ _, now);;
      mret tt
    end).

(** ** Credentials ([credentials.go]) *)
Definition RecordSuccessfulLogin (userID : string) (expected : PasswordCredential) (time : Z) : cop unit :=
  i ← lift (normalizeID userID);
  require (bool_decide (pc_UserID expected = i)) ErrCredentialConflict;;
  expectedJSON ← lift (encodeKeyEnvelope (pc_Envelope expected) KindPassword);
  expectedUpdated ← lift (op_time (pc_UpdatedAt expected));
  now ← lift (op_time time);
  require (negb (now <? expectedUpdated)) ErrCredentialConflict;;
  withImmediate (
    requireActiveUser i;;
    s ← gets id;
    require (match passwords s !! i with
             | Some r => bool_decide (pw_json r = expectedJSON) && (pw_updated r =? expectedUpdated)
             | None => false
             end) ErrCredentialConflict;;
    require (match users s !! i with
             | Some u => bool_decide (u_state u = UserActive) && (u_created u <=? now)
             | None => false
             end) ELoginTime;;
    update_user i (with_login now)).

Definition ReplacePasswordCredentialWithPasskeyPolicy (userID : string) (expected : PasswordCredential) (replacement : Envelope)
    (revokePasskeys : bool) (time : Z) : cop Z :=
  i ← lift (normalizeID userID);
  require (bool_decide (pc_UserID expected = i)) ErrCredentialConflict;;
  expectedJSON ← lift (encodeKeyEnvelope (pc_Envelope expected) KindPassword);
  replacementJSON ← lift (encodeKeyEnvelope replacement KindPassword);
  require (negb (bool_decide (expectedJSON = replacementJSON))) ESameReplacement;;
  expectedUpdated ← lift (op_time (pc_UpdatedAt expected));
  now ← lift (op_time time);
  require (negb (now <=? expectedUpdated)) ErrCredentialConflict;;
  withImmediate (
    requireActiveUser i;;
    n ← update_password i (λ r, bool_decide (pw_json r = expectedJSON) && (pw_updated r =? expectedUpdated)) replacementJSON now;
    require (n =? 1) ErrCredentialConflict;;
    k ← (if revokePasskeys then delete_passkeys i else mret 0);
    advanceUserUpdatedAt i now;;
    mret k).

Definition ReplacePasswordCredential (userID : string) (expected : PasswordCredential) (replacement : Envelope) (time : Z) : cop unit :=
  ReplacePasswordCredentialWithPasskeyPolicy userID expected replacement false time;; mret tt.

Definition RotateRecoveryEnvelope (userID : string) (expected : RecoveryEnvelope) (replacement : RecoveryEnvelopeInput)
    (generated : string) (time : Z) : cop RecoveryEnvelope :=
  i ← lift (normalizeID userID);
  require (bool_decide (re_UserID expected = i ∧ re_State expected = RecoveryEnvelopeActive)) ErrRecoveryConflict;;
  expectedID ← lift (normalizeID (re_ID expected));
  expectedJSON ← lift (encodeKeyEnvelope (re_Envelope expected) KindRecovery);
  expectedCreated ← lift (op_time (re_CreatedAt expected));
  newID ← lift (idOrGenerate (ri_ID replacement) generated);
  require (negb (bool_decide (newID = expectedID))) ErrRecoveryConflict;;
  newJSON ← lift (encodeKeyEnvelope (ri_Envelope replacement) KindRecovery);
  require (negb (bool_decide (newJSON = expectedJSON))) ErrRecoveryConflict;;
  now ← lift (op_time time);
  require (negb (now <? expectedCreated)) ErrRecoveryConflict;;
  stored ← lift (decodeKeyEnvelope newJSON KindRecovery);
  withImmediate (
    requireActiveUser i;;
    updated ← revokeExpectedRecoveryEnvelope i expectedID expectedJSON expectedCreated now;
    require updated ErrRecoveryConflict;;
    insertActiveRecoveryEnvelope newID i newJSON now;;
    advanceUserUpdatedAt i now;;
    mret (RecEnvelope newID i stored RecoveryEnvelopeActive (now * 1000000) None)).

(** ** Passkeys ([passkeys.go]) *)
Definition MaxPasskeysPerUser : Z := 10.

(** The JSON object with the member unlock set to password. *)
Definition q : string := String (Ascii.ascii_of_nat 34) EmptyString.
Definition legacyUnlockMarker : string := ("{" +:+ q +:+ "unlock" +:+ q +:+ ":" +:+ q +:+ "password" +:+ q +:+ "}")%string.

Record PasskeyCredentialInput := PasskeyInput {
  pi_UserID : string; pi_Name : string; pi_Credential : Credential; pi_PRFSalt : list Z;
  pi_VaultEnvelope : Envelope; pi_PasswordRequired : bool
}.
Record PasskeyCredential := PkCredential {
  pkc_ID : list Z; pkc_UserID : string; pkc_Name : string; pkc_Credential : Credential; pkc_PRFSalt : list Z;
  pkc_VaultEnvelope : Envelope; pkc_PasswordRequired : bool; pkc_Revision : Z; pkc_CreatedAt : Z; pkc_UpdatedAt : Z;
  pkc_LastUsedAt : option Z
}.

Definition validatePasskeyCredentialID (i : list Z) : res cerr unit :=
  ensure (between 16 1024 (Z.of_nat (length i))) EPasskeyID.

Definition credential_json (c : Credential) : res cerr string :=
  match MarshalCredential c with
  | Some j => if (len j <? 2) || (len j >? Z.shiftl 1 20) then Err EPasskeyEncode else Ok j
  | None => Err EPasskeyEncode
  end.

(** The prepared credential with the two JSON columns. *)
Definition preparePasskeyCredential (input : PasskeyCredentialInput) : res cerr (PasskeyCredential * string * string) :=
  normalizeID (pi_UserID input) ≫= λ user,
  let name := TrimSpace (pi_Name input) in
  ensure (between 1 120 (len name)) EPasskeyName ≫= λ _,
  validatePasskeyCredentialID (Credential_ID (pi_Credential input)) ≫= λ _,
  ensure (negb (bool_decide (Credential_PublicKey (pi_Credential input) = []))) EPasskeyKey ≫= λ _,
  ensure (bool_decide (length (pi_PRFSalt input) = 32%nat)) EPasskeySalt ≫= λ _,
  credential_json (pi_Credential input) ≫= λ json,
  (if pi_PasswordRequired input then Ok legacyUnlockMarker else encodePasskeyEnvelope (pi_VaultEnvelope input)) ≫= λ envelope,
  Ok (PkCredential (Credential_ID (pi_Credential input)) user name (pi_Credential input) (pi_PRFSalt input)
        (pi_VaultEnvelope input) (pi_PasswordRequired input) 0 0 0 None, json, envelope).

Definition passkeys_of (i : string) (s : control) : Z := Z.of_nat (size (filter (λ x, pk_user x.2 = i) (passkeys s))).

Definition CreatePasskeyCredential (input : PasskeyCredentialInput) (time : Z) : cop PasskeyCredential :=
  '(c, json, envelope) ← lift (preparePasskeyCredential input);
  let now := time / 1000000 in
  withImmediate (
    s ← gets id;
    require (negb (passkeys_of (pkc_UserID c) s >=? MaxPasskeysPerUser)) ErrConflict;;
    require (bool_decide (passkeys s !! pkc_ID c = None) && bool_decide (is_Some (users s !! pkc_UserID c))
             && between 1 120 (text_length (pkc_Name c)) && (0 <? now)) ErrConflict;;
    modify (λ s, set_passkeys
      (<[pkc_ID c := PasskeyRow (pkc_UserID c) (pkc_Name c) json (pkc_PRFSalt c) envelope 1 now now None]> (passkeys s)) s));;
  mret (PkCredential (pkc_ID c) (pkc_UserID c) (pkc_Name c) (pkc_Credential c) (pkc_PRFSalt c) (pkc_VaultEnvelope c)
          (pkc_PasswordRequired c) 1 time time None).

(** [UPDATE passkey_credentials SET f WHERE user_id = ? AND credential_id = ? AND revision = ?]:
    the next revision has to be an INTEGER, the times not before the creation. *)
Definition update_passkey (c : PasskeyCredential) (now : Z) (f : passkeyrow → passkeyrow) : cop unit :=
  s ← gets id;
  match passkeys s !! pkc_ID c with
  | Some r =>
    if bool_decide (pk_user r = pkc_UserID c ∧ pk_revision r = pkc_Revision c) then
      require ((pk_revision r <? MaxInt64) && (pk_created r <=? now)) ESQLConstraint;;
      modify (λ s, set_passkeys (<[pkc_ID c := f r]> (passkeys s)) s)
    else fail ErrCredentialConflict
  | None => fail ErrCredentialConflict
  end.

Definition used_passkey (json : string) (now : Z) (r : passkeyrow) : passkeyrow :=
  PasskeyRow (pk_user r) (pk_name r) json (pk_salt r) (pk_envelope r) (pk_revision r + 1) (pk_created r) now (Some now).
Definition rewrapped_passkey (envelope : string) (now : Z) (r : passkeyrow) : passkeyrow :=
  PasskeyRow (pk_user r) (pk_name r) (pk_json r) (pk_salt r) envelope (pk_revision r + 1) (pk_created r) now (pk_last_used r).

Definition with_passkey_login (now : Z) (u : userrow) : userrow :=
  UserRow (u_email u) (u_display u) (u_role u) (u_state u) (u_vault u) (u_created u)
    (if u_updated u <? now then now else u_updated u) (Some now).

Definition active_user (i : string) (s : control) : bool :=
  match users s !! i with Some u => bool_decide (u_state u = UserActive) | None => false end.

Definition RecordSuccessfulPasskeyUse (expected : PasskeyCredential) (updated : Credential) (time : Z) (recordLogin : bool) : cop unit :=
  require (negb ((pkc_Revision expected <? 1) || negb (bool_decide (pkc_ID expected = Credential_ID updated)))) ErrCredentialConflict;;
  json ← lift (credential_json updated);
  let now := time / 1000000 in
  withImmediate (
    update_passkey expected now (used_passkey json now);;
    s ← gets id;
    require (active_user (pkc_UserID expected) s) ErrCredentialConflict;;
    if recordLogin then update_user (pkc_UserID expected) (with_passkey_login now) else mret tt).

Definition DeletePasskeyCredential (userID : string) (i : list Z) : cop unit :=
  user ← lift (normalizeID userID);
  lift (validatePasskeyCredentialID i);;
  s ← gets id;
  match passkeys s !! i with
  | Some r =>
    require (bool_decide (pk_user r = user)) ErrNotFound;;
    modify (λ s, set_passkeys (delete i (passkeys s)) s)
  | None => fail ErrNotFound
  end.

Definition DeleteAllPasskeyCredentials (userID : string) : cop Z :=
  user ← lift (normalizeID userID);
  delete_passkeys user.

Definition ReplacePasskeyEnvelope (expected : PasskeyCredential) (envelope : Envelope) (time : Z) : cop unit :=
  require (negb (pkc_Revision expected <? 1)) ErrCredentialConflict;;
  json ← lift (encodeKeyEnvelope envelope KindServerPasskey);
  let now := time / 1000000 in
  s ← gets id;
  require (active_user (pkc_UserID expected) s) ErrCredentialConflict;;
  update_passkey expected now (rewrapped_passkey json now).

(** ** Calls *)
Inductive control_call :=
| CBootstrap (input : NewUserInput) (generated : string) (time : Z)
| CDisableUser (actor target : string) (time : Z)
| CEnableUser (actor target : string) (time : Z)
| CSetUserRole (actor target role : string) (time : Z)
| CCreateInvitation (actor : string) (input : CreateInvitationInput) (generated : string) (time : Z)
| CAcceptInvitation (h : list Z) (input : NewUserInput) (generated : string) (time : Z)
| CRevokeInvitation (actor i : string) (time : Z)
| CCreateTicket (actor target : string) (input : CreatePasswordResetTicketInput) (generated : string) (time : Z)
| CCompleteReset (input : CompletePasswordResetInput) (generated : string) (time : Z)
| CRevokeTicket (actor i : string) (time : Z)
| CRecordLogin (user : string) (expected : PasswordCredential) (time : Z)
| CReplacePassword (user : string) (expected : PasswordCredential) (replacement : Envelope) (revoke : bool) (time : Z)
| CRotateRecovery (user : string) (expected : RecoveryEnvelope) (replacement : RecoveryEnvelopeInput) (generated : string) (time : Z)
| CCreatePasskey (input : PasskeyCredentialInput) (time : Z)
| CPasskeyUse (expected : PasskeyCredential) (updated : Credential) (time : Z) (login : bool)
| CDeletePasskey (user : string) (i : list Z)
| CDeleteAllPasskeys (user : string)
| CReplacePasskeyEnvelope (expected : PasskeyCredential) (envelope : Envelope) (time : Z).

Definition void {A} (m : cop A) : cop unit := m;; mret tt.

Definition control_op (c : control_call) : cop unit :=
  match c with
  | CBootstrap i g t => void (BootstrapFirstAdmin i g t)
  | CDisableUser a u t => DisableUser a u t
  | CEnableUser a u t => EnableUser a u t
  | CSetUserRole a u r t => SetUserRole a u r t
  | CCreateInvitation a i g t => void (CreateInvitation a i g t)
  | CAcceptInvitation h i g t => void (AcceptInvitation h i g t)
  | CRevokeInvitation a i t => RevokeInvitation a i t
  | CCreateTicket a u i g t => void (CreatePasswordResetTicket a u i g t)
  | CCompleteReset i g t => void (CompletePasswordReset i g t)
  | CRevokeTicket a i t => RevokePasswordResetTicket a i t
  | CRecordLogin u e t => RecordSuccessfulLogin u e t
  | CReplacePassword u e r k t => void (ReplacePasswordCredentialWithPasskeyPolicy u e r k t)
  | CRotateRecovery u e r g t => void (RotateRecoveryEnvelope u e r g t)
  | CCreatePasskey i t => void (CreatePasskeyCredential i t)
  | CPasskeyUse e c t l => RecordSuccessfulPasskeyUse e c t l
  | CDeletePasskey u i => DeletePasskeyCredential u i
  | CDeleteAllPasskeys u => void (DeleteAllPasskeyCredentials u)
  | CReplacePasskeyEnvelope e v t => ReplacePasskeyEnvelope e v t
  end.

(** The store after a sequence of calls, whatever each of them returned. *)
Definition run_control (calls : list control_call) (s : control) : control :=
  foldl (λ s c, (control_op c s).2) s calls.
End Operations.
