(* ===== verification/ControlInv.v ===== *)
(** The guarantees of the control plane: the invariant of its tables, how rows
    evolve, and what every sequence of calls to [Control] keeps. *)
From Stdlib Require Import ZArith Lia.
From stdpp Require Import base gmap list strings sorting.
From S2P Require Import Prelude GoText Validation Throttle Control.
Open Scope Z_scope.

(** * The invariant, table by table *)
Definition is_admin (us : gmap string userrow) (i : string) : Prop := ∃ u, us !! i = Some u ∧ active_admin u.
Definition is_active (us : gmap string userrow) (i : string) : Prop := ∃ u, us !! i = Some u ∧ u_state u = UserActive.

Record users_ok (us : gmap string userrow) : Prop := {
  us_check : ∀ i u, us !! i = Some u → user_check u = true;
  us_email : ∀ i j u v, us !! i = Some u → us !! j = Some v → nocase (u_email u) = nocase (u_email v) → i = j;
  us_vault : ∀ i j u v, us !! i = Some u → us !! j = Some v → u_vault u = u_vault v → i = j
}.

(** Once there is a user, there is an active administrator. *)
Definition admin_ok (us : gmap string userrow) : Prop := us = ∅ ∨ ∃ i, is_admin us i.

(** Every user has one password credential. *)
Definition pw_ok (us : gmap string userrow) (pw : gmap string passwordrow) : Prop :=
  ∀ i, is_Some (us !! i) ↔ is_Some (pw !! i).

(** Every user has exactly one active recovery envelope. *)
Record rv_ok (us : gmap string userrow) (rv : gmap string recoveryrow) : Prop := {
  rv_owner : ∀ i r, rv !! i = Some r → is_Some (us !! rv_user r);
  rv_has : ∀ u, is_Some (us !! u) → ∃ i r, rv !! i = Some r ∧ rv_user r = u ∧ rv_state r = RecoveryEnvelopeActive;
  rv_one : ∀ i j r q, rv !! i = Some r → rv !! j = Some q → rv_user r = rv_user q →
    rv_state r = RecoveryEnvelopeActive → rv_state q = RecoveryEnvelopeActive → i = j
}.

(** A pending bearer was issued by someone who is an active administrator now. *)
Record iv_ok (us : gmap string userrow) (iv : gmap string invitationrow) : Prop := {
  iv_pending : ∀ i r, iv !! i = Some r → iv_state r = InvitationPending → is_admin us (iv_by r) ∧ iv_resolved r = None;
  iv_done : ∀ i r, iv !! i = Some r → iv_state r ≠ InvitationPending → is_Some (iv_resolved r);
  iv_unique : ∀ i j r q, iv !! i = Some r → iv !! j = Some q → iv_hash r = iv_hash q → i = j;
  iv_one : ∀ i j r q, iv !! i = Some r → iv !! j = Some q → iv_state r = InvitationPending → iv_state q = InvitationPending →
    nocase (iv_email r) = nocase (iv_email q) → i = j
}.

Record tk_ok (us : gmap string userrow) (tk : gmap string ticketrow) : Prop := {
  tk_pending : ∀ i r, tk !! i = Some r → tk_state r = PasswordResetPending →
    is_admin us (tk_by r) ∧ is_active us (tk_user r) ∧ tk_resolved r = None;
  tk_done : ∀ i r, tk !! i = Some r → tk_state r ≠ PasswordResetPending → is_Some (tk_resolved r);
  tk_unique : ∀ i j r q, tk !! i = Some r → tk !! j = Some q → tk_hash r = tk_hash q → i = j;
  tk_one : ∀ i j r q, tk !! i = Some r → tk !! j = Some q → tk_state r = PasswordResetPending → tk_state q = PasswordResetPending →
    tk_user r = tk_user q → i = j
}.

Definition owned (u : string) (pk : gmap (list Z) passkeyrow) : Z := Z.of_nat (size (filter (λ x, pk_user x.2 = u) pk)).

Record pk_ok (us : gmap string userrow) (pk : gmap (list Z) passkeyrow) : Prop := {
  pk_owner : ∀ i r, pk !! i = Some r → is_Some (us !! pk_user r) ∧ 1 <= pk_revision r;
  pk_limit : ∀ u, owned u pk <= MaxPasskeysPerUser
}.

Record control_wf (s : control) : Prop := {
  wf_users : users_ok (users s);
  wf_admin : admin_ok (users s);
  wf_pw : pw_ok (users s) (passwords s);
  wf_rv : rv_ok (users s) (recoveries s);
  wf_iv : iv_ok (users s) (invitations s);
  wf_tk : tk_ok (users s) (tickets s);
  wf_pk : pk_ok (users s) (passkeys s)
}.

(** * How rows evolve

    Rows of these tables are never removed; a resolved bearer and a revoked
    envelope never change, and a password row changes only to a later revision. *)
Definition us_evo (us us' : gmap string userrow) : Prop :=
  ∀ i u, us !! i = Some u → ∃ u', us' !! i = Some u' ∧ u_email u' = u_email u ∧ u_vault u' = u_vault u ∧ u_created u' = u_created u.
Definition pw_evo (pw pw' : gmap string passwordrow) : Prop :=
  ∀ i r, pw !! i = Some r → ∃ r', pw' !! i = Some r' ∧ (r' = r ∨ pw_updated r < pw_updated r').
Definition rv_evo (rv rv' : gmap string recoveryrow) : Prop :=
  ∀ i r, rv !! i = Some r → ∃ r', rv' !! i = Some r' ∧ (rv_state r = RecoveryEnvelopeRevoked → r' = r).
Definition iv_evo (iv iv' : gmap string invitationrow) : Prop :=
  ∀ i r, iv !! i = Some r → ∃ r', iv' !! i = Some r' ∧ iv_hash r' = iv_hash r ∧ (iv_state r ≠ InvitationPending → r' = r).
Definition tk_evo (tk tk' : gmap string ticketrow) : Prop :=
  ∀ i r, tk !! i = Some r → ∃ r', tk' !! i = Some r' ∧ tk_hash r' = tk_hash r ∧ (tk_state r ≠ PasswordResetPending → r' = r).

Record evolves (s s' : control) : Prop := {
  ev_us : us_evo (users s) (users s');
  ev_pw : pw_evo (passwords s) (passwords s');
  ev_rv : rv_evo (recoveries s) (recoveries s');
  ev_iv : iv_evo (invitations s) (invitations s');
  ev_tk : tk_evo (tickets s) (tickets s')
}.

#[global] Instance us_evo_po : PreOrder us_evo.
Proof. split; [intros ????; eauto|]. intros a b c H1 H2 i u (u1 & ? & ? & ? & ?)%H1. destruct (H2 i u1) as (u2 & ? & ? & ? & ?); [done|]. exists u2. naive_solver congruence. Qed.
#[global] Instance pw_evo_po : PreOrder pw_evo.
Proof. split; [intros ????; eauto|]. intros a b c H1 H2 i u (u1 & ? & [-> | ?])%H1; [eauto|]. destruct (H2 i u1) as (u2 & ? & [-> | ?]); [done|eauto|]. exists u2. split; [done|]. right. lia. Qed.
#[global] Instance rv_evo_po : PreOrder rv_evo.
Proof. split; [intros ????; eauto|]. intros a b c H1 H2 i u (u1 & ? & H)%H1. destruct (H2 i u1) as (u2 & ? & ?); [done|]. exists u2. naive_solver congruence. Qed.
#[global] Instance iv_evo_po : PreOrder iv_evo.
Proof. split; [intros ????; eauto|]. intros a b c H1 H2 i u (u1 & ? & H & ?)%H1. destruct (H2 i u1) as (u2 & ? & ? & ?); [done|]. exists u2. naive_solver congruence. Qed.
#[global] Instance tk_evo_po : PreOrder tk_evo.
Proof. split; [intros ????; eauto|]. intros a b c H1 H2 i u (u1 & ? & H & ?)%H1. destruct (H2 i u1) as (u2 & ? & ? & ?); [done|]. exists u2. naive_solver congruence. Qed.
#[global] Instance evolves_po : PreOrder evolves.
Proof.
  split; [intros s; by split|].
  intros a b c [] []. split; etrans; eauto.
Qed.

(** * Table lemmas *)
Lemma is_admin_update us i u u' j : us !! i = Some u → (active_admin u → active_admin u') → is_admin us j → is_admin (<[i := u']> us) j.
Proof.
  intros Hi Hu (v & Hv & Ha). destruct (decide (i = j)) as [->|].
  - simplify_eq. exists u'. rewrite lookup_insert_eq. auto.
  - exists v. by rewrite lookup_insert_ne.
Qed.

Lemma is_active_update us i u u' j :
  us !! i = Some u → (u_state u = UserActive → u_state u' = UserActive) → is_active us j → is_active (<[i := u']> us) j.
Proof.
  intros Hi Hu (v & Hv & Ha). destruct (decide (i = j)) as [->|].
  - simplify_eq. exists u'. rewrite lookup_insert_eq. auto.
  - exists v. by rewrite lookup_insert_ne.
Qed.

Lemma is_admin_ne us i u' j : i ≠ j → is_admin us j → is_admin (<[i := u']> us) j.
Proof. intros ? (v & ? & ?). exists v. by rewrite lookup_insert_ne. Qed.
Lemma is_active_ne us i u' j : i ≠ j → is_active us j → is_active (<[i := u']> us) j.
Proof. intros ? (v & ? & ?). exists v. by rewrite lookup_insert_ne. Qed.

Lemma users_ok_update us i u u' :
  users_ok us → us !! i = Some u → u_email u' = u_email u → u_vault u' = u_vault u → user_check u' = true →
  users_ok (<[i := u']> us).
Proof.
  intros [Hc He Hv] Hi HE HV Hu. split.
  - intros j v [[<- <-]|[? ?]]%lookup_insert_Some; eauto.
  - intros j k v w [[<- <-]|[? ?]]%lookup_insert_Some [[<- <-]|[? ?]]%lookup_insert_Some E; eauto; rewrite ?HE in E; eauto.
  - intros j k v w [[<- <-]|[? ?]]%lookup_insert_Some [[<- <-]|[? ?]]%lookup_insert_Some E; eauto; rewrite ?HV in E; eauto.
Qed.

Lemma users_ok_insert us i u' :
  users_ok us → user_check u' = true → map_Forall (λ _ v, nocase (u_email v) ≠ nocase (u_email u') ∧ u_vault v ≠ u_vault u') us →
  users_ok (<[i := u']> us).
Proof.
  intros [Hc He Hv] Hu HF. split.
  - intros j v [[<- <-]|[? ?]]%lookup_insert_Some; eauto.
  - intros j k v w [[<- <-]|[? Hj]]%lookup_insert_Some [[<- <-]|[? Hk]]%lookup_insert_Some E; eauto.
    + destruct (HF _ _ Hk). congruence.
    + destruct (HF _ _ Hj). congruence.
  - intros j k v w [[<- <-]|[? Hj]]%lookup_insert_Some [[<- <-]|[? Hk]]%lookup_insert_Some E; eauto.
    + destruct (HF _ _ Hk). congruence.
    + destruct (HF _ _ Hj). congruence.
Qed.

Lemma admin_ok_update us i u u' : admin_ok us → us !! i = Some u → (active_admin u → active_admin u') → admin_ok (<[i := u']> us).
Proof.
  intros [-> | [j Hj]] Hi Hu; [by rewrite lookup_empty in Hi|].
  right. exists j. eauto using is_admin_update.
Qed.

Lemma us_evo_update us i u u' :
  us !! i = Some u → u_email u' = u_email u → u_vault u' = u_vault u → u_created u' = u_created u → us_evo us (<[i := u']> us).
Proof.
  intros Hi He Hv Hc j v Hj. destruct (decide (i = j)) as [->|].
  - simplify_eq. exists u'. by rewrite lookup_insert_eq.
  - exists v. by rewrite lookup_insert_ne.
Qed.

(** The tables that only name users keep their part when no user disappears. *)
Definition same_dom (us us' : gmap string userrow) : Prop := ∀ i, is_Some (us !! i) ↔ is_Some (us' !! i).

Lemma same_dom_update us i u u' : us !! i = Some u → same_dom us (<[i := u']> us).
Proof.
  intros Hi j. destruct (decide (i = j)) as [->|]; [rewrite lookup_insert_eq, Hi|by rewrite lookup_insert_ne].
  split; eauto.
Qed.

Lemma pw_ok_dom us us' pw : same_dom us us' → pw_ok us pw → pw_ok us' pw.
Proof. intros Hd H i. by rewrite <-(Hd i). Qed.
Lemma rv_ok_dom us us' rv : same_dom us us' → rv_ok us rv → rv_ok us' rv.
Proof. intros Hd [H1 H2 H3]. split; [intros; rewrite <-(Hd _); eauto|intros u; rewrite <-(Hd u); eauto|done]. Qed.
Lemma pk_ok_dom us us' pk : same_dom us us' → pk_ok us pk → pk_ok us' pk.
Proof. intros Hd [H1 H2]. split; [|done]. intros i r Hi. rewrite <-(Hd _). eauto. Qed.
Lemma pk_ok_grow us i u pk : us !! i = None → pk_ok us pk → pk_ok (<[i := u]> us) pk.
Proof.
  intros Hn [H1 H2]. split; [|done]. intros j r Hj. destruct (H1 j r Hj) as [[v Hv] ?]. split; [|done].
  exists v. rewrite lookup_insert_ne; [done|congruence].
Qed.
Lemma is_admin_grow us i u j : us !! i = None → is_admin us j → is_admin (<[i := u]> us) j.
Proof. intros Hn (v & Hv & ?). exists v. rewrite lookup_insert_ne; [done|congruence]. Qed.
Lemma is_active_grow us i u j : us !! i = None → is_active us j → is_active (<[i := u]> us) j.
Proof. intros Hn (v & Hv & ?). exists v. rewrite lookup_insert_ne; [done|congruence]. Qed.

Lemma iv_ok_mono us us' iv : (∀ j, is_admin us j → is_admin us' j) → iv_ok us iv → iv_ok us' iv.
Proof. intros Ha [H1 H2 H3 H4]. split; [|done..]. intros i r Hi Hp. destruct (H1 i r Hi Hp). auto. Qed.
Lemma tk_ok_mono us us' tk :
  (∀ j, is_admin us j → is_admin us' j) → (∀ j, is_active us j → is_active us' j) → tk_ok us tk → tk_ok us' tk.
Proof. intros Ha Hb [H1 H2 H3 H4]. split; [|done..]. intros i r Hi Hp. destruct (H1 i r Hi Hp) as (? & ? & ?). auto. Qed.

(** Resolving bearers. *)
Lemma resolved_invitations_lookup P st b t m i r' :
  resolved_invitations P st b t m !! i = Some r' →
  ∃ r, m !! i = Some r ∧ r' = (if hit_invitation P i r then resolve_invitation st b (t r) r else r).
Proof.
  unfold resolved_invitations. rewrite map_lookup_imap. destruct (m !! i) as [r|]; cbn; [|done].
  intros [= <-]. eauto.
Qed.

Lemma resolved_tickets_lookup P st t m i r' :
  resolved_tickets P st t m !! i = Some r' →
  ∃ r, m !! i = Some r ∧ r' = (if hit_ticket P i r then resolve_ticket (st r) (t r) r else r).
Proof.
  unfold resolved_tickets. rewrite map_lookup_imap. destruct (m !! i) as [r|]; cbn; [|done].
  intros [= <-]. eauto.
Qed.

Lemma hit_invitation_pending P i r : hit_invitation P i r = true → iv_state r = InvitationPending.
Proof. unfold hit_invitation. intros. by split_bools. Qed.
Lemma hit_ticket_pending P i r : hit_ticket P i r = true → tk_state r = PasswordResetPending.
Proof. unfold hit_ticket. intros. by split_bools. Qed.
Lemma hit_invitation_miss P i r : hit_invitation P i r = false → iv_state r = InvitationPending → P i r = false.
Proof. unfold hit_invitation. intros H E. by rewrite E in H. Qed.
Lemma hit_ticket_miss P i r : hit_ticket P i r = false → tk_state r = PasswordResetPending → P i r = false.
Proof. unfold hit_ticket. intros H E. by rewrite E in H. Qed.

Lemma iv_ok_resolve us us' iv P st b t :
  iv_ok us iv → st ≠ InvitationPending →
  (∀ i r, iv !! i = Some r → iv_state r = InvitationPending → P i r = false → is_admin us (iv_by r) → is_admin us' (iv_by r)) →
  iv_ok us' (resolved_invitations P st b t iv).
Proof.
  intros [H1 H2 H3 H4] Hst Ha. split.
  - intros i r' (r & Hi & ->)%resolved_invitations_lookup. destruct (hit_invitation P i r) eqn:E; [done|].
    intros Hp. destruct (H1 i r Hi Hp). split; [|done]. eapply Ha; eauto using hit_invitation_miss.
  - intros i r' (r & Hi & ->)%resolved_invitations_lookup. destruct (hit_invitation P i r); cbn; eauto.
  - intros i j r' q' (r & Hi & ->)%resolved_invitations_lookup (q & Hj & ->)%resolved_invitations_lookup E.
    eapply H3; eauto. destruct (hit_invitation P i r), (hit_invitation P j q); done.
  - intros i j r' q' (r & Hi & ->)%resolved_invitations_lookup (q & Hj & ->)%resolved_invitations_lookup.
    destruct (hit_invitation P i r), (hit_invitation P j q); try done. eauto.
Qed.

Lemma tk_ok_resolve us us' tk P st t :
  tk_ok us tk → (∀ r, st r ≠ PasswordResetPending) →
  (∀ i r, tk !! i = Some r → P i r = false → is_admin us (tk_by r) → is_active us (tk_user r) →
     is_admin us' (tk_by r) ∧ is_active us' (tk_user r)) →
  tk_ok us' (resolved_tickets P st t tk).
Proof.
  intros [H1 H2 H3 H4] Hst Ha. split.
  - intros i r' (r & Hi & ->)%resolved_tickets_lookup. destruct (hit_ticket P i r) eqn:E; [by intros []%Hst|].
    intros Hp. destruct (H1 i r Hi Hp) as (? & ? & ?). destruct (Ha i r) as [? ?]; eauto using hit_ticket_miss.
  - intros i r' (r & Hi & ->)%resolved_tickets_lookup. destruct (hit_ticket P i r); cbn; eauto.
  - intros i j r' q' (r & Hi & ->)%resolved_tickets_lookup (q & Hj & ->)%resolved_tickets_lookup E.
    eapply H3; eauto. destruct (hit_ticket P i r), (hit_ticket P j q); done.
  - intros i j r' q' (r & Hi & ->)%resolved_tickets_lookup (q & Hj & ->)%resolved_tickets_lookup.
    destruct (hit_ticket P i r), (hit_ticket P j q); cbn; intros A B; try by apply Hst in A + apply Hst in B.
    eauto.
Qed.

Lemma iv_evo_resolve P st b t iv : iv_evo iv (resolved_invitations P st b t iv).
Proof.
  intros i r Hi. unfold resolved_invitations. rewrite map_lookup_imap, Hi. cbn. eexists. split; [done|].
  destruct (hit_invitation P i r) eqn:E; [|done]. split; [done|]. by intros []; eapply hit_invitation_pending.
Qed.

Lemma tk_evo_resolve P st t tk : tk_evo tk (resolved_tickets P st t tk).
Proof.
  intros i r Hi. unfold resolved_tickets. rewrite map_lookup_imap, Hi. cbn. eexists. split; [done|].
  destruct (hit_ticket P i r) eqn:E; [|done]. split; [done|]. by intros []; eapply hit_ticket_pending.
Qed.

Lemma iv_ok_insert us iv i r :
  iv_ok us iv → iv_state r = InvitationPending → is_admin us (iv_by r) → iv_resolved r = None →
  map_Forall (λ _ q, iv_hash q ≠ iv_hash r ∧ ¬ (iv_state q = InvitationPending ∧ nocase (iv_email q) = nocase (iv_email r))) iv →
  iv_ok us (<[i := r]> iv).
Proof.
  intros [H1 H2 H3 H4] Hp Ha Hr HF. split.
  - intros j q [[<- <-]|[? ?]]%lookup_insert_Some; eauto.
  - intros j q [[<- <-]|[? ?]]%lookup_insert_Some; [congruence|eauto].
  - intros j k q q' [[<- <-]|[? Hj]]%lookup_insert_Some [[<- <-]|[? Hk]]%lookup_insert_Some E; eauto.
    + destruct (HF _ _ Hk). congruence.
    + destruct (HF _ _ Hj). congruence.
  - intros j k q q' [[<- <-]|[? Hj]]%lookup_insert_Some [[<- <-]|[? Hk]]%lookup_insert_Some P1 P2 E; eauto.
    + destruct (HF _ _ Hk) as [_ []]. auto.
    + destruct (HF _ _ Hj) as [_ []]. auto.
Qed.

Lemma tk_ok_insert us tk i r :
  tk_ok us tk → tk_state r = PasswordResetPending → is_admin us (tk_by r) → is_active us (tk_user r) → tk_resolved r = None →
  map_Forall (λ _ q, tk_hash q ≠ tk_hash r) tk →
  (∀ j q, tk !! j = Some q → tk_state q = PasswordResetPending → tk_user q ≠ tk_user r) →
  tk_ok us (<[i := r]> tk).
Proof.
  intros [H1 H2 H3 H4] Hp Ha Hb Hr HF Ho. split.
  - intros j q [[<- <-]|[? ?]]%lookup_insert_Some; eauto.
  - intros j q [[<- <-]|[? ?]]%lookup_insert_Some; [congruence|eauto].
  - intros j k q q' [[<- <-]|[? Hj]]%lookup_insert_Some [[<- <-]|[? Hk]]%lookup_insert_Some E; eauto.
    + destruct (HF _ _ Hk). congruence.
    + destruct (HF _ _ Hj). congruence.
  - intros j k q q' [[<- <-]|[? Hj]]%lookup_insert_Some [[<- <-]|[? Hk]]%lookup_insert_Some P1 P2 E; eauto.
    + by destruct (Ho _ _ Hk P2).
    + by destruct (Ho _ _ Hj P1).
Qed.

Lemma iv_evo_insert iv i r : iv !! i = None → iv_evo iv (<[i := r]> iv).
Proof. intros Hn j q Hj. exists q. rewrite lookup_insert_ne by congruence. auto. Qed.
Lemma tk_evo_insert tk i r : tk !! i = None → tk_evo tk (<[i := r]> tk).
Proof. intros Hn j q Hj. exists q. rewrite lookup_insert_ne by congruence. auto. Qed.
Lemma us_evo_insert us i u : us !! i = None → us_evo us (<[i := u]> us).
Proof. intros Hn j q Hj. exists q. rewrite lookup_insert_ne by congruence. auto. Qed.
Lemma pw_evo_insert pw i r : pw !! i = None → pw_evo pw (<[i := r]> pw).
Proof. intros Hn j q Hj. exists q. rewrite lookup_insert_ne by congruence. auto. Qed.
Lemma rv_evo_insert rv i r : rv !! i = None → rv_evo rv (<[i := r]> rv).
Proof. intros Hn j q Hj. exists q. rewrite lookup_insert_ne by congruence. auto. Qed.

Lemma pw_evo_update pw i r r' : pw !! i = Some r → pw_updated r < pw_updated r' → pw_evo pw (<[i := r']> pw).
Proof.
  intros Hi Hlt j q Hj. destruct (decide (i = j)) as [->|].
  - simplify_eq. exists r'. rewrite lookup_insert_eq. auto.
  - exists q. rewrite lookup_insert_ne by done. auto.
Qed.
Lemma rv_evo_update rv i r r' : rv !! i = Some r → rv_state r = RecoveryEnvelopeActive → rv_evo rv (<[i := r']> rv).
Proof.
  intros Hi Hs j q Hj. destruct (decide (i = j)) as [->|].
  - simplify_eq. exists r'. rewrite lookup_insert_eq. split; [done|]. congruence.
  - exists q. rewrite lookup_insert_ne by done. auto.
Qed.

(** Credentials. *)
Lemma pw_ok_insert us pw i u r : pw_ok us pw → pw_ok (<[i := u]> us) (<[i := r]> pw).
Proof.
  intros H j. destruct (decide (i = j)) as [->|]; [rewrite !lookup_insert_eq|by rewrite !lookup_insert_ne].
  split; eauto.
Qed.
Lemma pw_ok_update us pw i r r' : pw_ok us pw → pw !! i = Some r → pw_ok us (<[i := r']> pw).
Proof.
  intros H Hi j. rewrite (H j). destruct (decide (i = j)) as [->|]; [rewrite lookup_insert_eq, Hi|by rewrite lookup_insert_ne].
  split; eauto.
Qed.

Lemma rv_ok_new_user us rv i u rid json now :
  rv_ok us rv → us !! i = None → rv !! rid = None →
  rv_ok (<[i := u]> us) (<[rid := RecoveryRow i json RecoveryEnvelopeActive now None]> rv).
Proof.
  intros [H1 H2 H3] Hi Hr. split.
  - intros j r [[<- <-]|[? Hj]]%lookup_insert_Some; cbn; [by rewrite lookup_insert_eq; eauto|].
    apply H1 in Hj as Hs. rewrite lookup_insert_ne; [done|]. intros ->. rewrite Hi in Hs. by destruct Hs.
  - intros v Hv. destruct (decide (i = v)) as [->|].
    + exists rid, (RecoveryRow v json RecoveryEnvelopeActive now None). by rewrite lookup_insert_eq.
    + rewrite lookup_insert_ne in Hv by done. destruct (H2 v Hv) as (k & r & Hk & ?).
      exists k, r. rewrite lookup_insert_ne; [done|congruence].
  - assert (∀ j r, rv !! j = Some r → rv_user r ≠ i) as Hne.
    { intros j r Hj E. apply H1 in Hj. rewrite E, Hi in Hj. by destruct Hj. }
    intros j k r r' [[<- <-]|[? Hj]]%lookup_insert_Some [[<- <-]|[? Hk]]%lookup_insert_Some E; eauto.
    + by destruct (Hne _ _ Hk).
    + by destruct (Hne _ _ Hj).
Qed.

(** Revoking the active envelope and inserting its successor. *)
Lemma rv_ok_rotate us rv old r new json now t :
  rv_ok us rv → rv !! old = Some r → rv_state r = RecoveryEnvelopeActive → new ≠ old → rv !! new = None →
  rv_ok us (<[new := RecoveryRow (rv_user r) json RecoveryEnvelopeActive now None]>
             (<[old := RecoveryRow (rv_user r) (rv_json r) RecoveryEnvelopeRevoked (rv_created r) t]> rv)).
Proof.
  intros [H1 H2 H3] Ho Hs Hne Hn. split.
  - intros j q [[<- <-]|[? [[<- <-]|[? Hj]]%lookup_insert_Some]]%lookup_insert_Some; cbn; eauto.
  - intros v Hv. destruct (decide (v = rv_user r)) as [-> |].
    + eexists new, _. by rewrite lookup_insert_eq.
    + destruct (H2 v Hv) as (k & q & Hk & Hu & ?). exists k, q. rewrite !lookup_insert_ne by congruence. done.
  - assert (∀ j q, rv !! j = Some q → rv_user q = rv_user r → rv_state q = RecoveryEnvelopeActive → j = old) as Hone by eauto.
    intros j k q q' [[<- <-]|[? [[<- <-]|[? Hj]]%lookup_insert_Some]]%lookup_insert_Some
      [[<- <-]|[? [[<- <-]|[? Hk]]%lookup_insert_Some]]%lookup_insert_Some E A B; cbn in *; try done; eauto.
    + assert (k = old) by (eapply Hone; eauto). congruence.
    + assert (j = old) by (eapply Hone; eauto). congruence.
Qed.

(** Passkeys. *)
Lemma owned_insert u pk i r :
  pk !! i = None → owned u (<[i := r]> pk) = (if decide (pk_user r = u) then 1 else 0) + owned u pk.
Proof.
  intros Hn. unfold owned. case_decide.
  - rewrite map_filter_insert_True by done. rewrite map_size_insert_None; [lia|].
    apply map_lookup_filter_None_2. by left.
  - rewrite map_filter_insert_False, delete_id by done. done.
Qed.
Lemma owned_update u pk i r r' : pk !! i = Some r → pk_user r' = pk_user r → owned u (<[i := r']> pk) = owned u pk.
Proof.
  intros Hi Hu. rewrite <-(insert_delete_id pk i r Hi) at 2. rewrite <-(insert_delete_eq pk i r').
  rewrite !owned_insert by apply lookup_delete_eq. by rewrite Hu.
Qed.
Lemma owned_le u pk pk' : pk' ⊆ pk → owned u pk' <= owned u pk.
Proof.
  intros Hs. unfold owned. apply inj_le, map_subseteq_size. by apply map_filter_subseteq_mono.
Qed.

Lemma pk_ok_subset us pk pk' : pk_ok us pk → pk' ⊆ pk → pk_ok us pk'.
Proof.
  intros [H1 H2] Hs. split; [intros i r Hi; eapply H1, lookup_weaken; eauto|].
  intros u. etrans; [by apply owned_le|done].
Qed.
Lemma pk_ok_insert us pk i r :
  pk_ok us pk → pk !! i = None → is_Some (us !! pk_user r) → 1 <= pk_revision r → owned (pk_user r) pk < MaxPasskeysPerUser →
  pk_ok us (<[i := r]> pk).
Proof.
  intros [H1 H2] Hi Hu Hr Hc. split.
  - intros j q [[<- <-]|[? ?]]%lookup_insert_Some; eauto.
  - intros u. rewrite owned_insert by done. case_decide as E; [subst; lia|apply H2].
Qed.
Lemma pk_ok_update us pk i r r' :
  pk_ok us pk → pk !! i = Some r → pk_user r' = pk_user r → pk_revision r <= pk_revision r' → pk_ok us (<[i := r']> pk).
Proof.
  intros [H1 H2] Hi Hu Hr. split.
  - intros j q [[<- <-]|[? ?]]%lookup_insert_Some; [|eauto]. rewrite Hu. destruct (H1 _ _ Hi). split; [done|lia].
  - intros u. rewrite (owned_update u pk i r r') by done. apply H2.
Qed.

(** * Statements as steps

    [good s] is what a committed statement sequence has to establish from [s]. *)
Definition good (s s' : control) : Prop := control_wf s' ∧ evolves s s'.
Definition keeps {A} (m : cop A) : Prop := ∀ s, control_wf s → good s (m s).2.

Lemma good_refl s : control_wf s → good s s.
Proof. intros. by split. Qed.

Lemma keeps_lift {A B} (r : res cerr A) (f : A → cop B) : (∀ a, r = Ok a → keeps (f a)) → keeps (lift r ≫= f).
Proof. intros Hf s Hs. unfold mbind, stm_bind, lift. destruct r; [by apply Hf|by apply good_refl]. Qed.
Lemma keeps_require {B} b e (f : unit → cop B) : (b = true → keeps (f tt)) → keeps (require b e ≫= f).
Proof. intros Hf. apply keeps_lift. unfold ensure. destruct b; [intros []; auto|done]. Qed.
Lemma keeps_fail {A} e : keeps (fail e : cop A).
Proof. intros s Hs. by apply good_refl. Qed.
Lemma keeps_ret {A B} (a : A) (f : A → cop B) : keeps (f a) → keeps (mret a ≫= f).
Proof. done. Qed.
Lemma keeps_fails {A B} e (f : A → cop B) : keeps (fail e ≫= f).
Proof. intros s Hs. by apply good_refl. Qed.
Lemma keeps_void {A} (m : cop A) : keeps m → keeps (void m).
Proof. intros Hm s Hs. specialize (Hm s Hs). unfold void, mbind, stm_bind. by destruct (m s) as [[] ?]. Qed.

Lemma keeps_immediate {A} (m : cop A) : (∀ s, control_wf s → wp m (λ _, good s) s) → keeps (withImmediate m).
Proof.
  intros Hm s Hs. specialize (Hm s Hs). unfold withImmediate, transactional, wp in *.
  destruct (m s) as [[] ?]; [done|by apply good_refl].
Qed.
Lemma keeps_after_commit {A} (m : cop (A + cerr)) : (∀ s, control_wf s → wp m (λ _, good s) s) → keeps (after_commit m).
Proof.
  intros Hm s Hs. apply (keeps_immediate m) in Hs; [|done]. unfold after_commit, mbind, stm_bind.
  destruct (withImmediate m s) as [[[]|] ?]; done.
Qed.
Lemma keeps_wp {A} (m : cop A) : (∀ s, control_wf s → wp m (λ _, good s) s) → (∀ s e s', m s = (Err e, s') → s' = s) → keeps m.
Proof.
  intros Hm He s Hs. specialize (Hm s Hs). unfold wp in Hm.
  destruct (m s) as [[] s'] eqn:E; [done|]. rewrite (He _ _ _ E). by apply good_refl.
Qed.

(** Symbolic execution through the statements of [Control]. *)
Ltac control_unfold :=
  lazymatch goal with
  | |- wp (select_user _) _ _ => unfold select_user
  | |- wp (loadRoleAndState _) _ _ => unfold loadRoleAndState
  | |- wp (requireActiveAdmin _) _ _ => unfold requireActiveAdmin
  | |- wp (requireActiveUser _) _ _ => unfold requireActiveUser
  | |- wp (requireAnotherActiveAdmin _) _ _ => unfold requireAnotherActiveAdmin
  | |- wp (update_user _ _) _ _ => unfold update_user
  | |- wp (advanceUserUpdatedAt _ _) _ _ => unfold advanceUserUpdatedAt
  | |- wp (resolve_invitations _ _ _ _) _ _ => unfold resolve_invitations
  | |- wp (resolve_tickets _ _ _) _ _ => unfold resolve_tickets
  | |- wp (revokePendingCapabilities _ _) _ _ => unfold revokePendingCapabilities
  | |- wp (insertPreparedUser _ _ _) _ _ => unfold insertPreparedUser
  | |- wp (insert_user _ _) _ _ => unfold insert_user
  | |- wp (insert_password _ _ _) _ _ => unfold insert_password
  | |- wp (insert_recovery _ _ _ _ _) _ _ => unfold insert_recovery
  | |- wp (insertActiveRecoveryEnvelope _ _ _ _) _ _ => unfold insertActiveRecoveryEnvelope
  | |- wp (revokeExpectedRecoveryEnvelope _ _ _ _ _) _ _ => unfold revokeExpectedRecoveryEnvelope
  | |- wp (update_password _ _ _ _) _ _ => unfold update_password
  | |- wp (delete_passkeys _) _ _ => unfold delete_passkeys
  end.
Ltac control_cbn :=
  unfold set_users, set_passwords, set_recoveries, set_invitations, set_tickets, set_passkeys in *;
  cbn [users passwords recoveries invitations tickets passkeys] in *.
Ltac wp_hook ::= control_unfold.
Ltac control_split := split; [split|split]; control_cbn; try done.

Ltac keeps_pre :=
  repeat lazymatch goal with
  | |- keeps (lift _ ≫= _) => apply keeps_lift; intros ?r ?Hr
  | |- keeps (require _ _ ≫= _) => apply keeps_require; intros ?Hr
  | |- keeps (fail _) => apply keeps_fail
  | |- keeps (mret _ ≫= _) => apply keeps_ret
  | |- keeps (fail _ ≫= _) => apply keeps_fails
  | |- keeps ((match ?x with _ => _ end) ≫= _) => destruct x eqn:?
  | |- keeps (match ?x with _ => _ end) => destruct x eqn:?
  end.

Lemma is_admin_intro us i u : us !! i = Some u → active_admin u → is_admin us i.
Proof. exists u. auto. Qed.
Lemma is_active_intro us i u : us !! i = Some u → u_state u = UserActive → is_active us i.
Proof. exists u. auto. Qed.
Create HintDb control.
#[global] Hint Resolve is_admin_intro is_active_intro : control.

Section Keeps.
Context `{ControlLib}.

(** An update of a user that keeps identity and rights. *)
Lemma good_update_user s i u u' :
  control_wf s → users s !! i = Some u → u_email u' = u_email u → u_vault u' = u_vault u → u_created u' = u_created u →
  user_check u' = true → (active_admin u → active_admin u') → (u_state u = UserActive → u_state u' = UserActive) →
  good s (set_users (<[i := u']> (users s)) s).
Proof.
  intros [] Hi ??????. pose proof (same_dom_update _ i u u' Hi). control_split;
    eauto using users_ok_update, admin_ok_update, pw_ok_dom, rv_ok_dom, pk_ok_dom, us_evo_update.
  - eapply iv_ok_mono; [|done]. eauto using is_admin_update.
  - eapply tk_ok_mono; [..|done]; eauto using is_admin_update, is_active_update.
Qed.

Lemma EnableUser_keeps a u t : keeps (EnableUser a u t).
Proof.
  unfold EnableUser. keeps_pre. apply keeps_immediate. intros st Hs. wp_auto; [|by apply good_refl].
  eapply good_update_user; eauto. intros [? ?]. by split.
Qed.

Lemma RecordSuccessfulLogin_keeps u e t : keeps (RecordSuccessfulLogin u e t).
Proof.
  unfold RecordSuccessfulLogin. keeps_pre. apply keeps_immediate. intros st Hs. wp_auto; try by apply good_refl.
  eapply good_update_user; eauto.
Qed.

(** Taking rights from a user together with every bearer that depended on them. *)
Lemma another_admin us i :
  filter (λ x, active_admin x.2 ∧ x.1 ≠ i) us ≠ ∅ → ∃ j, j ≠ i ∧ is_admin us j.
Proof.
  intros (j & u & Hj)%map_choose. apply map_lookup_filter_Some in Hj as [? [? ?]].
  exists j. split; [done|]. by exists u.
Qed.

Lemma good_demote s i u u' tI tT :
  control_wf s → users s !! i = Some u → u_email u' = u_email u → u_vault u' = u_vault u → u_created u' = u_created u →
  user_check u' = true → (¬ active_admin u ∨ ∃ j, j ≠ i ∧ is_admin (users s) j) →
  good s (Control (<[i := u']> (users s)) (passwords s) (recoveries s)
    (resolved_invitations (λ _ r, bool_decide (iv_by r = i)) InvitationRevoked None tI (invitations s))
    (resolved_tickets (λ _ r, bool_decide (tk_by r = i) || bool_decide (tk_user r = i)) (λ _, PasswordResetRevoked) tT (tickets s))
    (passkeys s)).
Proof.
  intros [] Hi ???? Ha. pose proof (same_dom_update _ i u u' Hi). control_split;
    eauto using users_ok_update, pw_ok_dom, rv_ok_dom, pk_ok_dom, us_evo_update, iv_evo_resolve, tk_evo_resolve.
  - destruct Ha as [Ha|(j & ? & Hj)]; [by eapply admin_ok_update|].
    right. exists j. by apply is_admin_ne.
  - eapply iv_ok_resolve; [done|done|]. intros j r _ _ E ?. split_bools. by apply is_admin_ne.
  - eapply tk_ok_resolve; [done|done|]. intros j r _ E ??. apply orb_false_iff in E as [??]. split_bools.
    split; [by apply is_admin_ne|by apply is_active_ne].
Qed.

Lemma good_revoke s i tI tT :
  control_wf s →
  good s (Control (users s) (passwords s) (recoveries s)
    (resolved_invitations (λ _ r, bool_decide (iv_by r = i)) InvitationRevoked None tI (invitations s))
    (resolved_tickets (λ _ r, bool_decide (tk_by r = i) || bool_decide (tk_user r = i)) (λ _, PasswordResetRevoked) tT (tickets s))
    (passkeys s)).
Proof. intros []. control_split; eauto using iv_ok_resolve, tk_ok_resolve, iv_evo_resolve, tk_evo_resolve. Qed.

Lemma DisableUser_keeps a u t : keeps (DisableUser a u t).
Proof.
  unfold DisableUser. keeps_pre. apply keeps_immediate. intros st Hs.
  wp_auto; control_cbn; split_bools; simplify_eq; try (by apply good_revoke).
  - eapply good_demote; eauto using another_admin.
  - eapply good_demote; eauto. left. by intros [? ?].
Qed.

Lemma SetUserRole_keeps a u r t : keeps (SetUserRole a u r t).
Proof.
  unfold SetUserRole. keeps_pre. apply keeps_immediate. intros st Hs.
  wp_auto; control_cbn; split_bools; simplify_eq; try (by apply good_refl).
  - eapply good_demote; eauto using another_admin.
  - naive_solver.
  - eapply good_demote; eauto. left. intros [? ?]. naive_solver.
  - eapply good_update_user; eauto. intros [? ?]. destruct r0; naive_solver.
Qed.

(** New users. *)
Lemma good_trans s1 s2 s3 : good s1 s2 → good s2 s3 → good s1 s3.
Proof. intros [_ ?] [? ?]. split; [done|by etrans]. Qed.

Lemma good_new_user s i u r rid json now :
  control_wf s → users s !! i = None → passwords s !! i = None → recoveries s !! rid = None → user_check u = true →
  map_Forall (λ _ v, nocase (u_email v) ≠ nocase (u_email u) ∧ u_vault v ≠ u_vault u) (users s) →
  (active_admin u ∨ users s ≠ ∅) →
  good s (Control (<[i := u]> (users s)) (<[i := r]> (passwords s))
    (<[rid := RecoveryRow i json RecoveryEnvelopeActive now None]> (recoveries s)) (invitations s) (tickets s) (passkeys s)).
Proof.
  intros [] Hi ???? Ha. control_split;
    eauto using users_ok_insert, pw_ok_insert, rv_ok_new_user, pk_ok_grow, us_evo_insert, pw_evo_insert, rv_evo_insert.
  - right. destruct Ha as [Ha|Ha]; [exists i, u; by rewrite lookup_insert_eq|].
    destruct wf_admin0 as [|[j ?]]; [done|]. exists j. by apply is_admin_grow.
  - eapply iv_ok_mono; [|done]. eauto using is_admin_grow.
  - eapply tk_ok_mono; [..|done]; eauto using is_admin_grow, is_active_grow.
Qed.

Lemma good_resolve_iv s P st b t :
  control_wf s → st ≠ InvitationPending → good s (set_invitations (resolved_invitations P st b t (invitations s)) s).
Proof. intros [] ?. control_split; eauto using iv_ok_resolve, iv_evo_resolve. Qed.

Lemma good_resolve_tk s P st t :
  control_wf s → (∀ r, st r ≠ PasswordResetPending) → good s (set_tickets (resolved_tickets P st t (tickets s)) s).
Proof. intros [] ?. control_split; eauto using tk_ok_resolve, tk_evo_resolve. Qed.

Lemma insertPreparedUser_good p role now s :
  control_wf s → (role = RoleAdmin ∨ users s ≠ ∅) → wp (insertPreparedUser p role now) (λ _, good s) s.
Proof.
  intros Hs Ha. wp_auto; control_cbn; unfold recovery_insertable in *; control_cbn; split_bools.
  apply good_new_user; try done. destruct Ha as [-> |]; [by left|by right].
Qed.

Lemma BootstrapFirstAdmin_keeps i g t : keeps (BootstrapFirstAdmin i g t).
Proof.
  unfold BootstrapFirstAdmin. keeps_pre. apply keeps_immediate. intros st Hs. do 4 wp_step.
  eapply wp_bind, wp_mono; [by apply insertPreparedUser_good; [|left]|]. intros ???. by wp_auto.
Qed.

Lemma wp_good {A} (m : cop A) s0 s : wp m (λ _, good s) s → good s0 s → wp m (λ _, good s0) s.
Proof. intros Hm Hg. eapply wp_mono; [exact Hm|]. intros. by eapply good_trans. Qed.

Lemma resolve_invitations_good P st b t s :
  control_wf s → st ≠ InvitationPending → wp (resolve_invitations P st b t) (λ _, good s) s.
Proof. intros. wp_auto. by apply good_resolve_iv. Qed.
Lemma resolve_tickets_good P st t s :
  control_wf s → (∀ r, st r ≠ PasswordResetPending) → wp (resolve_tickets P st t) (λ _, good s) s.
Proof. intros. wp_auto. by apply good_resolve_tk. Qed.

Lemma invitation_by_hash_lookup h s i r : invitation_by_hash h s = Some (i, r) → invitations s !! i = Some r ∧ iv_hash r = h.
Proof.
  unfold invitation_by_hash. intros He%head_Some_elem_of. apply elem_of_map_to_list, map_lookup_filter_Some in He. naive_solver.
Qed.
Lemma ticket_by_hash_lookup h s i r : ticket_by_hash h s = Some (i, r) → tickets s !! i = Some r ∧ tk_hash r = h.
Proof.
  unfold ticket_by_hash. intros He%head_Some_elem_of. apply elem_of_map_to_list, map_lookup_filter_Some in He. naive_solver.
Qed.

Lemma AcceptInvitation_keeps h i g t : keeps (AcceptInvitation h i g t).
Proof.
  unfold AcceptInvitation. keeps_pre. apply keeps_after_commit. intros st Hs.
  do 2 wp_step. destruct (invitation_by_hash h st) as [[j q]|] eqn:Eh; [|done].
  apply invitation_by_hash_lookup in Eh as [Hj _]. do 2 wp_step. split_bools.
  wp_step; [apply wp_bind; eapply wp_mono; [by apply resolve_invitations_good|]; intros; by wp_auto|].
  do 2 wp_step. apply wp_bind. eapply wp_mono; [apply insertPreparedUser_good; [done|]|].
  - right. destruct (iv_pending _ _ (wf_iv _ Hs) j q) as [(u & Hu & _) _]; [done..|]. intros E. by rewrite E in Hu.
  - intros [] s1 Hg. apply wp_bind. eapply wp_mono; [apply wp_good; [apply resolve_invitations_good; [by destruct Hg|done]|done]|].
    intros. by wp_auto.
Qed.

Lemma RevokeInvitation_keeps a i t : keeps (RevokeInvitation a i t).
Proof.
  unfold RevokeInvitation. keeps_pre. apply keeps_immediate. intros st Hs. wp_auto. by apply good_resolve_iv.
Qed.

Lemma RevokePasswordResetTicket_keeps a i t : keeps (RevokePasswordResetTicket a i t).
Proof.
  unfold RevokePasswordResetTicket. keeps_pre. apply keeps_immediate. intros st Hs. wp_auto. by apply good_resolve_tk.
Qed.

Lemma good_insert_iv s i r :
  control_wf s → invitation_insertable s i r = true → iv_state r = InvitationPending → is_admin (users s) (iv_by r) →
  iv_resolved r = None → good s (set_invitations (<[i := r]> (invitations s)) s).
Proof.
  intros [] Hi ???. unfold invitation_insertable in Hi. split_bools. control_split; eauto using iv_ok_insert, iv_evo_insert.
Qed.

Lemma CreateInvitation_keeps a i g t : keeps (CreateInvitation a i g t).
Proof.
  unfold CreateInvitation. keeps_pre. apply keeps_immediate. intros st Hs. wp_auto. split_bools.
  match goal with |- good _ (set_invitations _ ?s) => assert (good st s) as Hg by by apply good_resolve_iv end.
  eapply good_trans; [done|]. apply good_insert_iv; [by destruct Hg|done|done| |done]. control_cbn. eauto with control.
Qed.

Lemma CreatePasswordResetTicket_keeps a u i g t : keeps (CreatePasswordResetTicket a u i g t).
Proof.
  unfold CreatePasswordResetTicket. keeps_pre. apply keeps_immediate. intros st Hs. wp_auto. split_bools.
  match goal with |- good _ (set_tickets _ ?s) => assert (good st s) as Hg by (apply good_resolve_tk; [done|intros q']; by case_match) end.
  eapply good_trans; [done|]. unfold ticket_insertable in *. split_bools. destruct Hg as [Hg _]. destruct Hg. control_split.
  - apply tk_ok_insert; eauto with control. intros j q (q0 & Hj & ->)%resolved_tickets_lookup.
    destruct (hit_ticket _ j q0) eqn:E; cbn; [by case_match|].
    intros Hp. eapply hit_ticket_miss in E; [|done]. by split_bools.
  - by apply tk_evo_insert.
Qed.

(** Credentials. *)
Lemma good_password s i r r' :
  control_wf s → passwords s !! i = Some r → pw_updated r < pw_updated r' → good s (set_passwords (<[i := r']> (passwords s)) s).
Proof. intros [] ??. control_split; eauto using pw_ok_update, pw_evo_update. Qed.

Lemma good_passkeys s pk : control_wf s → pk ⊆ passkeys s → good s (set_passkeys pk s).
Proof. intros [] ?. control_split; eauto using pk_ok_subset. Qed.

Lemma good_rotate s old r new json now t :
  control_wf s → recoveries s !! old = Some r → rv_state r = RecoveryEnvelopeActive → new ≠ old → recoveries s !! new = None →
  good s (set_recoveries (<[new := RecoveryRow (rv_user r) json RecoveryEnvelopeActive now None]>
           (<[old := RecoveryRow (rv_user r) (rv_json r) RecoveryEnvelopeRevoked (rv_created r) t]> (recoveries s))) s).
Proof.
  intros [] ????. control_split; eauto using rv_ok_rotate.
  etrans; [by eapply (rv_evo_update _ old)|]. apply rv_evo_insert. by rewrite lookup_insert_ne.
Qed.

Lemma delete_passkeys_good i s : control_wf s → wp (delete_passkeys i) (λ _, good s) s.
Proof. intros. wp_auto. apply good_passkeys; [done|]. apply map_filter_subseteq. Qed.

Lemma update_password_good i P json now s :
  control_wf s → (∀ r, P r = true → pw_updated r < now) → wp (update_password i P json now) (λ _, good s) s.
Proof. intros ? HP. wp_auto; try by apply good_refl. eapply good_password; eauto. Qed.

Lemma advanceUserUpdatedAt_good i now s : control_wf s → wp (advanceUserUpdatedAt i now) (λ _, good s) s.
Proof. intros. wp_auto; [|by apply good_refl]. eapply good_update_user; eauto. Qed.

Lemma rotate_good {B} u old new oldJ newJ created now s (k : cop B) Q :
  control_wf s → new ≠ old → (∀ s', good s s' → wp k Q s') →
  wp (b ← revokeExpectedRecoveryEnvelope u old oldJ created now;
      require b ErrRecoveryConflict;; insertActiveRecoveryEnvelope new u newJ now;; k) Q s.
Proof.
  intros ?? Hk. wp_auto; try done. split_bools. apply Hk. unfold recovery_insertable in *. control_cbn. split_bools.
  match goal with E : _ ∧ _ |- _ => destruct E as (<- & ? & <- & <-) end.
  eapply good_rotate; eauto. match goal with E : <[_ := _]> _ !! _ = None |- _ => by rewrite lookup_insert_ne in E end.
Qed.

(** Running one good statement after a good prefix. *)
Lemma wp_then {A B} (m : cop A) (f : A → cop B) s0 s :
  good s0 s → (control_wf s → wp m (λ _, good s) s) → (∀ a s', good s0 s' → wp (f a) (λ _, good s0) s') →
  wp (m ≫= f) (λ _, good s0) s.
Proof.
  intros Hg Hm Hf. apply wp_bind. eapply wp_mono; [apply Hm; by destruct Hg|].
  intros a s' ?. apply Hf. by eapply good_trans.
Qed.
Lemma wp_guard {B} b e (f : unit → cop B) s0 s :
  (b = true → wp (f tt) (λ _, good s0) s) → wp (require b e ≫= f) (λ _, good s0) s.
Proof. intros. wp_auto. auto. Qed.
Lemma requireActiveUser_good i s : control_wf s → wp (requireActiveUser i) (λ _, good s) s.
Proof. intros. wp_auto. by apply good_refl. Qed.

Lemma RotateRecoveryEnvelope_keeps u e r g t : keeps (RotateRecoveryEnvelope u e r g t).
Proof.
  unfold RotateRecoveryEnvelope. keeps_pre. apply keeps_immediate. intros st Hs. split_bools.
  eapply wp_then; [by apply good_refl|apply requireActiveUser_good|]. intros [] s1 Hg.
  apply rotate_good; [by destruct Hg|done|]. intros s2 Hg2.
  eapply wp_then; [by eapply good_trans|apply advanceUserUpdatedAt_good|]. by wp_auto.
Qed.

Lemma ReplacePassword_keeps u e r k t : keeps (ReplacePasswordCredentialWithPasskeyPolicy u e r k t).
Proof.
  unfold ReplacePasswordCredentialWithPasskeyPolicy. keeps_pre. apply keeps_immediate. intros st Hs. split_bools.
  eapply wp_then; [by apply good_refl|apply requireActiveUser_good|]. intros [] s1 Hg.
  eapply wp_then; [done|intros; apply update_password_good; [done|]|].
  { intros q' E. split_bools. lia. }
  intros n s2 Hg2. apply wp_guard. intros _.
  eapply wp_then; [done|destruct k; [apply delete_passkeys_good|intros; wp_auto; by apply good_refl]|]. intros c s3 Hg3.
  eapply wp_then; [done|apply advanceUserUpdatedAt_good|]. by wp_auto.
Qed.

Lemma CompletePasswordReset_keeps i g t : keeps (CompletePasswordReset i g t).
Proof.
  unfold CompletePasswordReset. keeps_pre. apply keeps_after_commit. intros st Hs. split_bools.
  do 2 wp_step. destruct (ticket_by_hash _ st) as [[j q]|] eqn:Eh; [|done]. apply wp_guard. intros _.
  wp_step; [apply wp_bind; eapply wp_mono; [by apply resolve_tickets_good|]; intros; by wp_auto|].
  apply wp_guard. intros _.
  eapply wp_then; [by apply good_refl|apply requireActiveUser_good|]. intros [] s1 Hg1.
  eapply wp_then; [done|apply delete_passkeys_good|]. intros _ s2 Hg2.
  eapply wp_then; [done|intros; apply update_password_good; [done|intros; lia]|]. intros n s3 Hg3.
  apply wp_guard. intros _. apply rotate_good; [by destruct Hg3|done|]. intros s4 Hg4.
  eapply wp_then; [by eapply good_trans|intros; by apply resolve_tickets_good|]. intros m s5 Hg5.
  apply wp_guard. intros _.
  eapply wp_then; [done|intros; by apply resolve_tickets_good|]. intros m' s6 Hg6.
  eapply wp_then; [done|apply advanceUserUpdatedAt_good|]. by wp_auto.
Qed.

(** Passkeys. *)
Lemma good_passkey_update s i r r' :
  control_wf s → passkeys s !! i = Some r → pk_user r' = pk_user r → pk_revision r <= pk_revision r' →
  good s (set_passkeys (<[i := r']> (passkeys s)) s).
Proof. intros [] ???. control_split; eauto using pk_ok_update. Qed.

Lemma CreatePasskeyCredential_keeps i t : keeps (CreatePasskeyCredential i t).
Proof.
  unfold CreatePasskeyCredential. keeps_pre.
  match goal with |- keeps (withImmediate ?m ≫= _) => enough (keeps (withImmediate m)) as Hk end.
  { intros st Hs. specialize (Hk st Hs). unfold mbind, stm_bind. by destruct (withImmediate _ st) as [[] ?]. }
  apply keeps_immediate. intros st [] . wp_auto. split_bools. control_split.
  apply pk_ok_insert; try done; cbn. unfold passkeys_of in *. unfold owned. lia.
Qed.

Lemma update_passkey_good c now f s :
  control_wf s → (∀ r, pk_user (f r) = pk_user r ∧ pk_revision r <= pk_revision (f r)) →
  wp (update_passkey c now f) (λ _, good s) s.
Proof. intros ? Hf. unfold update_passkey. wp_auto. eapply good_passkey_update; eauto; apply Hf. Qed.

Lemma RecordSuccessfulPasskeyUse_keeps e c t l : keeps (RecordSuccessfulPasskeyUse e c t l).
Proof.
  unfold RecordSuccessfulPasskeyUse. keeps_pre. apply keeps_immediate. intros st Hs.
  eapply wp_then; [by apply good_refl|intros; apply update_passkey_good; [done|]|].
  { intros q'. cbn. split; [done|lia]. }
  intros [] s1 Hg. wp_auto; [|done..]. eapply good_trans; [done|]. eapply good_update_user; eauto. by destruct Hg.
Qed.

Lemma DeletePasskeyCredential_keeps u i : keeps (DeletePasskeyCredential u i).
Proof.
  unfold DeletePasskeyCredential. keeps_pre. apply keeps_wp.
  - intros st Hs. wp_auto. apply good_passkeys; [done|]. apply delete_subseteq.
  - intros st e s'. unfold mbind, stm_bind, gets, require, lift, ensure, modify, fail, id. repeat case_match; congruence.
Qed.

Lemma DeleteAllPasskeyCredentials_keeps u : keeps (DeleteAllPasskeyCredentials u).
Proof.
  unfold DeleteAllPasskeyCredentials. keeps_pre. apply keeps_wp; [intros; by apply delete_passkeys_good|done].
Qed.

Lemma ReplacePasskeyEnvelope_keeps e v t : keeps (ReplacePasskeyEnvelope e v t).
Proof.
  unfold ReplacePasskeyEnvelope. keeps_pre. apply keeps_wp.
  - intros st Hs. do 4 wp_step. apply update_passkey_good; [done|]. intros q'. cbn. split; [done|lia].
  - intros st e' s'. unfold update_passkey, mbind, stm_bind, gets, require, lift, ensure, modify, fail, id. repeat case_match; congruence.
Qed.

Lemma control_op_keeps c : keeps (control_op c).
Proof.
  destruct c; cbn [control_op]; try apply keeps_void;
    eauto using BootstrapFirstAdmin_keeps, DisableUser_keeps, EnableUser_keeps, SetUserRole_keeps, CreateInvitation_keeps,
      AcceptInvitation_keeps, RevokeInvitation_keeps, CreatePasswordResetTicket_keeps, CompletePasswordReset_keeps,
      RevokePasswordResetTicket_keeps, RecordSuccessfulLogin_keeps, ReplacePassword_keeps, RotateRecoveryEnvelope_keeps,
      CreatePasskeyCredential_keeps, RecordSuccessfulPasskeyUse_keeps, DeletePasskeyCredential_keeps,
      DeleteAllPasskeyCredentials_keeps, ReplacePasskeyEnvelope_keeps.
Qed.

Lemma run_control_good calls s : control_wf s → good s (run_control calls s).
Proof.
  revert s. induction calls as [|c calls IH]; intros s Hs; [by apply good_refl|].
  cbn. pose proof (control_op_keeps c s Hs) as Hg. eapply good_trans; [done|]. apply IH. by destruct Hg.
Qed.

(** ** Reading bearers by their hash *)
Lemma by_hash_unique {A} (f : A → list Z) (m : gmap string A) i r :
  m !! i = Some r → (∀ j q, m !! j = Some q → f q = f r → j = i) →
  head (map_to_list (filter (λ x, f x.2 = f r) m)) = Some (i, r).
Proof.
  intros Hi Hu. replace (filter (λ x, f x.2 = f r) m) with ({[i := r]} : gmap string A).
  { by rewrite map_to_list_singleton. }
  apply map_eq. intros j. destruct (decide (i = j)) as [<-|Hne].
  - rewrite lookup_singleton_eq. symmetry. by apply map_lookup_filter_Some.
  - rewrite lookup_singleton_ne by done. symmetry. apply map_lookup_filter_None. right. intros q' Hj E. cbn in E.
    by destruct Hne; symmetry; eapply Hu.
Qed.

Lemma invitation_by_hash_wf s i r : control_wf s → invitations s !! i = Some r → invitation_by_hash (iv_hash r) s = Some (i, r).
Proof. intros Hs Hi. apply by_hash_unique; [done|]. intros j q' Hj E. by eapply (iv_unique _ _ (wf_iv _ Hs)). Qed.
Lemma ticket_by_hash_wf s i r : control_wf s → tickets s !! i = Some r → ticket_by_hash (tk_hash r) s = Some (i, r).
Proof. intros Hs Hi. apply by_hash_unique; [done|]. intros j q' Hj E. by eapply (tk_unique _ _ (wf_tk _ Hs)). Qed.

(** A resolved bearer is refused without effect. *)
Lemma AcceptInvitation_inactive s i r h input g t :
  invitation_by_hash h s = Some (i, r) → iv_state r ≠ InvitationPending → ∃ e, AcceptInvitation h input g t s = (Err e, s).
Proof.
  intros Hh Hp. unfold AcceptInvitation, after_commit, withImmediate, transactional, mbind, stm_bind, lift, gets, id.
  destruct (validateTokenHash h), (op_time t), (prepareNewUser input g); eauto. rewrite Hh.
  unfold require, lift, ensure. rewrite bool_decide_eq_false_2 by done. eauto.
Qed.

Lemma AcceptInvitation_wp h input g t s :
  wp (AcceptInvitation h input g t) (λ u s', ∃ i r, invitations s' !! i = Some r ∧ iv_hash r = h ∧ iv_state r = InvitationAccepted ∧
    iv_accepted r = Some (us_ID u) ∧ iv_role r = us_Role u ∧ users s !! us_ID u = None) s.
Proof.
  unfold AcceptInvitation, after_commit, withImmediate. do 9 wp_step.
  wp_step. destruct (invitation_by_hash h s) as [[j q']|] eqn:Eh; [|done].
  apply invitation_by_hash_lookup in Eh as [Hj Hq]. wp_auto; try done. control_cbn. split_bools. simplify_eq.
  exists j, (resolve_invitation InvitationAccepted (Some (pu_id a1)) a0 q').
  unfold resolved_invitations. rewrite map_lookup_imap, Hj. cbn. unfold hit_invitation.
  rewrite !bool_decide_eq_true_2 by done. done.
Qed.

(** ** Completing a reset *)

(** What a completed reset of the pending ticket [i] leaves for its user, and that
    nobody else's credentials moved. *)
Record reset_done (input : CompletePasswordResetInput) (now : Z) (s s' : control) (i : string) (r q : ticketrow) : Prop := {
  rd_before : tickets s !! i = Some q ∧ tk_hash q = cp_TokenHash input ∧ tk_state q = PasswordResetPending ∧ now < tk_expires q
    ∧ is_active (users s) (tk_user q);
  rd_ticket : tickets s' !! i = Some r ∧ tk_state r = PasswordResetConsumed;
  rd_siblings : ∀ j p, tickets s' !! j = Some p → tk_user p = tk_user q → tk_state p ≠ PasswordResetPending;
  rd_passkeys : passkeys_of (tk_user q) s' = 0;
  rd_password : ∃ p, passwords s' !! tk_user q = Some p ∧ pw_json p = MarshalEnvelope (cp_Password input) ∧ pw_updated p = now;
  rd_old : ∃ p, recoveries s' !! re_ID (cp_Expected input) = Some p ∧ rv_user p = tk_user q ∧ rv_state p = RecoveryEnvelopeRevoked;
  rd_new : ∃ k p, recoveries s' !! k = Some p ∧ rv_user p = tk_user q ∧ rv_state p = RecoveryEnvelopeActive
    ∧ rv_json p = MarshalEnvelope (ri_Envelope (cp_Recovery input));
  rd_others : ∀ v, v ≠ tk_user q →
    passwords s' !! v = passwords s !! v ∧ passkeys_of v s' = passkeys_of v s ∧ users s' !! v = users s !! v
}.

Lemma encodeKeyEnvelope_Ok e k j : encodeKeyEnvelope e k = Ok j → j = MarshalEnvelope e.
Proof. unfold encodeKeyEnvelope. intros (a & _ & E)%res_bind_Ok_inv. case_match; congruence. Qed.
Lemma normalizeID_Ok i j : normalizeID i = Ok j → j = i.
Proof. unfold normalizeID. repeat case_match; congruence. Qed.

Lemma passkeys_of_deleted u pk : owned u (filter (λ x, pk_user x.2 ≠ u) pk) = 0.
Proof.
  unfold owned. replace (filter _ _) with (∅ : gmap (list Z) passkeyrow); [done|].
  symmetry. apply map_empty. intros k. apply map_lookup_filter_None. right. intros r' [_ ?]%map_lookup_filter_Some. done.
Qed.
Lemma passkeys_of_kept u v pk : v ≠ u → owned v (filter (λ x, pk_user x.2 ≠ u) pk) = owned v pk.
Proof.
  intros Hne. unfold owned. do 2 f_equal. rewrite map_filter_filter. apply map_filter_ext. intros k r' _. cbn. naive_solver.
Qed.

(** The two ticket statements of a completion together. *)
Lemma consumed_tickets tk i q now :
  tk !! i = Some q → tk_state q = PasswordResetPending →
  let tk1 := resolved_tickets (λ j _, bool_decide (j = i)) (λ _, PasswordResetConsumed) (λ _, now) tk in
  let tk2 := resolved_tickets (λ j p, bool_decide (tk_user p = tk_user q) && negb (bool_decide (j = i))) (λ _, PasswordResetRevoked)
               (λ _, now) tk1 in
  tk2 !! i = Some (resolve_ticket PasswordResetConsumed now q) ∧
  (∀ j p, tk2 !! j = Some p → tk_user p = tk_user q → tk_state p ≠ PasswordResetPending).
Proof.
  intros Hi Hp tk1 tk2. assert (tk1 !! i = Some (resolve_ticket PasswordResetConsumed now q)) as H1.
  { unfold tk1, resolved_tickets. rewrite map_lookup_imap, Hi. cbn. unfold hit_ticket. by rewrite !bool_decide_eq_true_2. }
  split; [unfold tk2, resolved_tickets at 1; by rewrite map_lookup_imap, H1|].
  intros j p (p1 & Hj & ->)%resolved_tickets_lookup. destruct (hit_ticket _ j p1) eqn:E; [done|].
  intros Hu Hs. eapply hit_ticket_miss in E; [|done]. cbv beta in E.
  apply andb_false_iff in E as [E|E]; split_bools; [done|]. apply negb_false_iff, bool_decide_eq_true in E as ->.
  rewrite H1 in Hj. by simplify_eq.
Qed.

Lemma CompletePasswordReset_wp input g t s :
  wp (CompletePasswordReset input g t) (λ x s', ∃ now q, op_time t = Ok now ∧ reset_done input now s s' x.1 x.2 q) s.
Proof.
  unfold CompletePasswordReset, after_commit, withImmediate. wp_auto; try done; control_cbn; split_bools.
  all: repeat match goal with E : encodeKeyEnvelope _ _ = Ok _ |- _ => apply encodeKeyEnvelope_Ok in E as ->
    | E : normalizeID _ = Ok _ |- _ => apply normalizeID_Ok in E as -> end.
  all: match goal with E : ticket_by_hash _ _ = Some _ |- _ => apply ticket_by_hash_lookup in E as [Hi Hh] end.
  all: destruct Heqb2 as (Hu & Hact & Hj & Hc). 2: congruence.
  exists a7, t0. split; [done|]. destruct (consumed_tickets (tickets s) s0 t0 a7) as [Hcons Hsib]; [done..|].
  assert (a7 < tk_expires t0) by (apply negb_false_iff in Heqb0; lia).
  split; control_cbn; cbn [fst snd].
  - split_and!; try done. by exists u.
  - done.
  - done.
  - apply passkeys_of_deleted.
  - eexists. by rewrite lookup_insert_eq.
  - eexists. rewrite lookup_insert_ne, lookup_insert_eq by done. by split_and!.
  - eexists a5, _. by rewrite lookup_insert_eq.
  - intros v Hv. rewrite !lookup_insert_ne by done. split_and!; [done| |done]. by apply passkeys_of_kept.
Qed.

(** A replaced password revision never comes back. *)
Lemma pw_evo_stale pw pw' i r :
  pw_evo pw pw' → pw !! i = Some r → pw' !! i ≠ Some r → ∃ r', pw' !! i = Some r' ∧ pw_updated r < pw_updated r'.
Proof. intros He Hi Hn. destruct (He i r Hi) as (r' & ? & [-> | ?]); [done|eauto]. Qed.

(** A call that validates first and then runs one transaction fails without effect. *)
Definition unchanged_on_error {A} (m : cop A) : Prop := ∀ s e s', m s = (Err e, s') → s' = s.
Lemma unchanged_lift {A B} (r : res cerr A) (f : A → cop B) : (∀ a, unchanged_on_error (f a)) → unchanged_on_error (lift r ≫= f).
Proof. intros Hf s e s'. unfold mbind, stm_bind, lift. destruct r; [apply Hf|congruence]. Qed.
Lemma unchanged_immediate {A} (m : cop A) : unchanged_on_error (withImmediate m).
Proof. intros s e s'. apply transactional_rollback. Qed.

Lemma refused {A} (m : cop A) s : unchanged_on_error m → wp m (λ _ _, False) s → ∃ e, m s = (Err e, s).
Proof. unfold wp. intros Hm Hw. destruct (m s) as [[]?] eqn:E; [done|]. rewrite (Hm _ _ _ E). eauto. Qed.

Lemma stale_revision e ts x r :
  pw_updated r ≠ ts → op_time e = Ok ts → op_time e = Ok x → (pw_updated r =? x) = true → False.
Proof. intros Hne -> [= ->]. lia. Qed.

Lemma RecordSuccessfulLogin_stale s i r expected t ts :
  passwords s !! i = Some r → op_time (pc_UpdatedAt expected) = Ok ts → pw_updated r ≠ ts →
  ∃ e, RecordSuccessfulLogin i expected t s = (Err e, s).
Proof.
  intros Hr Ht Hne. apply refused.
  - repeat (apply unchanged_lift; intros ?). apply unchanged_immediate.
  - unfold RecordSuccessfulLogin, withImmediate. wp_auto; exfalso;
      match goal with E : normalizeID _ = Ok _ |- _ => apply normalizeID_Ok in E as -> end;
      match goal with E : match passwords s !! _ with _ => _ end = true |- _ => rewrite Hr in E end;
      simplify_eq; split_bools; eauto using stale_revision.
Qed.

Lemma ReplacePassword_stale s i r expected replacement k t ts :
  passwords s !! i = Some r → op_time (pc_UpdatedAt expected) = Ok ts → pw_updated r ≠ ts →
  ∃ e, ReplacePasswordCredentialWithPasskeyPolicy i expected replacement k t s = (Err e, s).
Proof.
  intros Hr Ht Hne. apply refused.
  - repeat (apply unchanged_lift; intros ?). apply unchanged_immediate.
  - unfold ReplacePasswordCredentialWithPasskeyPolicy, withImmediate. wp_auto; exfalso;
      match goal with E : normalizeID _ = Ok _ |- _ => apply normalizeID_Ok in E as -> end;
      simplify_eq; split_bools; first [lia | eauto using stale_revision].
Qed.

(** ** The guarantees *)
Lemma control_wf_empty : control_wf empty_control.
Proof. split; cbn; [| by left | | | | |]; split; intros *; rewrite ?lookup_empty; try done. Qed.

(** C18. In every store a sequence of calls of the control plane can reach, failed
    calls included, there is an active administrator once there is a user; emails
    and vaults are unique; every user has a password credential and exactly one
    active recovery envelope; every pending invitation and reset ticket was issued
    by a user who still is an active administrator, at most one pending per email
    and per user; nobody owns more than [MaxPasskeysPerUser] passkeys. *)
Theorem control_calls_keep_invariant calls : control_wf (run_control calls empty_control).
Proof.
  apply run_control_good, control_wf_empty.
Qed.

(** An accepted invitation created exactly the user it names with the invited
    role, stays accepted whatever is called later, and its bearer is then refused
    without any effect. *)
Theorem invitation_single_use s h input g t u s1 calls :
  control_wf s → AcceptInvitation h input g t s = (Ok u, s1) →
  let s2 := run_control calls s1 in
  users s !! us_ID u = None ∧
  (∃ i r, invitations s2 !! i = Some r ∧ iv_hash r = h ∧ iv_state r = InvitationAccepted ∧ iv_accepted r = Some (us_ID u)
     ∧ iv_role r = us_Role u) ∧
  ∀ input' g' t', ∃ e, AcceptInvitation h input' g' t' s2 = (Err e, s2).
Proof.
  intros Hs Hrun s2. destruct (wp_run _ _ _ _ _ (AcceptInvitation_wp h input g t s) Hrun) as (i & r & Hi & Hh & Hst & Hby & Hr & Hn).
  pose proof (AcceptInvitation_keeps h input g t s Hs) as [Hs1 _]. rewrite Hrun in Hs1.
  destruct (run_control_good calls s1 Hs1) as [Hs2 Hev].
  destruct (ev_iv _ _ Hev i r Hi) as (r' & Hi' & _ & Hf). rewrite Hf in Hi' by congruence. split; [done|]. split; [by exists i, r|].
  intros. eapply AcceptInvitation_inactive; [rewrite <-Hh; by apply invitation_by_hash_wf|congruence].
Qed.

(** A completed password reset used a pending, unexpired ticket of an active
    user; it consumed the ticket and every sibling, deleted the user's passkeys,
    replaced the password and the active recovery envelope, and touched nobody
    else's credentials. *)
Theorem CompletePasswordReset_correct input g t s x s' :
  CompletePasswordReset input g t s = (Ok x, s') → ∃ now q, op_time t = Ok now ∧ reset_done input now s s' x.1 x.2 q.
Proof. apply (wp_run _ _ _ _ _ (CompletePasswordReset_wp input g t s)). Qed.

(** Once a password credential was replaced, by whatever sequence of calls, a
    login or a further replacement that was checked against the old revision is
    refused and changes nothing. *)
Theorem stale_credential_refused s calls i r expected replacement revoke t :
  control_wf s → passwords s !! i = Some r → op_time (pc_UpdatedAt expected) = Ok (pw_updated r) →
  let s' := run_control calls s in
  passwords s' !! i ≠ Some r →
  (∃ e, RecordSuccessfulLogin i expected t s' = (Err e, s')) ∧
  (∃ e, ReplacePasswordCredentialWithPasskeyPolicy i expected replacement revoke t s' = (Err e, s')).
Proof.
  intros Hs Hi Ht s' Hn. destruct (run_control_good calls s Hs) as [_ Hev].
  destruct (pw_evo_stale _ _ _ _ (ev_pw _ _ Hev) Hi Hn) as (r' & Hr' & Hlt). fold s' in Hr'.
  split; [eapply RecordSuccessfulLogin_stale|eapply ReplacePassword_stale]; eauto; lia.
Qed.
End Keeps.

(** * A concrete store *)
Definition demo_marshal (e : Envelope) : string :=
  (env_Kind e +:+ String (Ascii.ascii_of_nat (Z.to_nat (default 0 (head (env_Salt e))))) EmptyString)%string.
#[local] Instance demo_lib : ControlLib := {|
  ToLower := λ s, s; ParseAddress := Some; MarshalEnvelope := demo_marshal; UnmarshalEnvelope := λ _, None;
  Credential := list Z; Credential_ID := λ c, c; Credential_PublicKey := λ c, c; MarshalCredential := λ _, Some "{}"%string
|}.

Definition demo_pw (b : Z) : Envelope :=
  MkEnvelope 1 KindPassword "argon2id-hkdf-sha256" DefaultProfile (replicate 32 b) (replicate 12 0) (replicate 48 0) (replicate 32 0).
Definition demo_rv (b : Z) : Envelope :=
  MkEnvelope 1 KindRecovery "hkdf-sha256" (Profile 0 0 0) (replicate 32 b) (replicate 12 0) (replicate 48 0) [].
Definition demo_time (k : Z) : Z := (1700000000000 + k) * 1000000.
Definition demo_hash (b : Z) : list Z := replicate 32 b.
Definition demo_admin : NewUserInput :=
  UserInput "admin-0000000001" "admin@example.org" "Admin" "vault-0000000001" (demo_pw 65)
    (Some (RecoveryInput "recov-0000000001" (demo_rv 65))).
Definition demo_guest : NewUserInput :=
  UserInput "guest-0000000001" "guest@example.org" "Guest" "vault-0000000002" (demo_pw 66)
    (Some (RecoveryInput "recov-0000000002" (demo_rv 66))).

(** The administrator, a pending invitation and a pending ticket for the administrator. *)
Definition demo_calls : list control_call := [
  CBootstrap demo_admin "" (demo_time 0);
  CCreateInvitation "admin-0000000001" (InvitationInput "invit-0000000001" "guest@example.org" "user" (demo_hash 1) (demo_time 1000)) "" (demo_time 1);
  CCreateTicket "admin-0000000001" "admin-0000000001" (TicketInput "tickt-0000000001" (demo_hash 2) (demo_time 1000)) "" (demo_time 2)
].
Definition demo_store : control := run_control demo_calls empty_control.
Definition demo_expected : PasswordCredential := PwCredential "admin-0000000001" (demo_pw 65) (demo_time 0) (demo_time 0).
Definition demo_reset : CompletePasswordResetInput :=
  CompleteInput (demo_hash 2) (RecEnvelope "recov-0000000001" "admin-0000000001" (demo_rv 65) RecoveryEnvelopeActive (demo_time 0) None)
    (demo_pw 67) (RecoveryInput "recov-0000000003" (demo_rv 67)).

Lemma demo_store_wf : control_wf demo_store.
Proof.
  apply run_control_good, control_wf_empty.
Qed.

Lemma control_calls_keep_invariant_witness : control_wf demo_store ∧ (∃ i, is_admin (users demo_store) i).
Proof.
  split; [apply (control_calls_keep_invariant demo_calls)|].
  exists "admin-0000000001"%string. eexists. split; [vm_compute; reflexivity|done].
Defined.

Lemma invitation_single_use_witness :
  ∃ u s1, AcceptInvitation (demo_hash 1) demo_guest "" (demo_time 3) demo_store = (Ok u, s1) ∧
  ∃ e, AcceptInvitation (demo_hash 1) demo_guest "" (demo_time 4) s1 = (Err e, s1).
Proof.
  destruct (AcceptInvitation (demo_hash 1) demo_guest "" (demo_time 3) demo_store) as [[u|e] s1] eqn:E.
  - exists u, s1. split; [reflexivity|].
    apply (invitation_single_use demo_store (demo_hash 1) demo_guest "" (demo_time 3) u s1 [] demo_store_wf E).
  - exfalso. assert (is_ok (AcceptInvitation (demo_hash 1) demo_guest "" (demo_time 3) demo_store).1 = true) as H by (vm_compute; reflexivity).
    rewrite E in H. discriminate H.
Defined.

Lemma CompletePasswordReset_correct_witness :
  ∃ x s' now q, CompletePasswordReset demo_reset "" (demo_time 5) demo_store = (Ok x, s') ∧
    reset_done demo_reset now demo_store s' x.1 x.2 q.
Proof.
  destruct (CompletePasswordReset demo_reset "" (demo_time 5) demo_store) as [[x|e] s'] eqn:E.
  - destruct (CompletePasswordReset_correct demo_reset "" (demo_time 5) demo_store x s' E) as (now & q & _ & Hd).
    exists x, s', now, q. split; [reflexivity|exact Hd].
  - exfalso. assert (is_ok (CompletePasswordReset demo_reset "" (demo_time 5) demo_store).1 = true) as H by (vm_compute; reflexivity).
    rewrite E in H. discriminate H.
Defined.

Lemma stale_credential_refused_witness :
  let s' := run_control [CCompleteReset demo_reset "" (demo_time 5)] demo_store in
  ∃ e, RecordSuccessfulLogin "admin-0000000001" demo_expected (demo_time 6) s' = (Err e, s').
Proof.
  eapply (stale_credential_refused demo_store [CCompleteReset demo_reset "" (demo_time 5)] "admin-0000000001" _ demo_expected (demo_pw 68) false (demo_time 6)).
  - exact demo_store_wf.
  - vm_compute. reflexivity.
  - vm_compute. reflexivity.
  - vm_compute. discriminate.
Defined.

(** The administrator cannot be disabled, nor demoted while the only one. *)
Example demo_last_admin :
  (DisableUser "admin-0000000001" "admin-0000000001" (demo_time 3) demo_store).1 = Err ErrSelfDisable ∧
  (SetUserRole "admin-0000000001" "admin-0000000001" "user" (demo_time 3) demo_store).1 = Err ErrLastActiveAdmin.
Proof. split; vm_compute; reflexivity. Qed.
