(* ===== verification/KeyEnvelope.v ===== *)
(** Key envelopes ([keyenvelope/envelope.go], [keyenvelope/server_passkey.go]): a vault's
    data-encryption key (DEK) sealed under a password, a recovery secret, a WebAuthn PRF
    output or the server's custody key, bound to one user, vault, kind and, for server
    custody, credential. Random bytes are inputs; [None] is a failed read. *)
From Stdlib Require Import ZArith Lia.
From stdpp Require Import base gmap list strings sorting.
From S2P Require Import Prelude GoText Validation Totp Crypto Control.
Open Scope Z_scope.

Inductive kerr :=
| ErrAuthentication | ErrInvalidContext | ErrInvalidDEK | ErrInvalidEnvelope (what : string)
| ErrKeyPassword | ErrInvalidRecoverySecret | ErrInvalidPasskeySecret | EKeyRandom.
#[global] Instance kerr_dec : EqDecision kerr. Proof. solve_decision. Defined.

Definition CurrentVersion : Z := 1.
Definition DEKSize : nat := 32.
Definition RecoverySecretSize : nat := 32.
Definition PasskeySecretSize : nat := 32.
Definition SaltSize : nat := 32.
Definition VerifierSize : nat := 32.
Definition nonceSize : nat := 12.
Definition gcmTagSize : nat := 16.
Definition maxPasswordSize : Z := 1024 * 1024.
Definition maxContextIDSize : Z := 4096.
Definition passwordKDF : string := "argon2id-hkdf-sha256".
Definition recoveryKDF : string := "hkdf-sha256".
Definition passkeyKDF : string := "hkdf-sha256".

Record Context := MkContext { cx_UserID : string; cx_VaultID : string }.

(** * Validation *)
Definition validateCommonEnvelope (e : Envelope) (kind kdf : string) : res kerr unit :=
  ensure ((env_Version e =? CurrentVersion) && bool_decide (env_Kind e = kind) && bool_decide (env_KDF e = kdf))
    (ErrInvalidEnvelope "metadata") ≫= λ _,
  ensure ((length (env_Salt e) =? SaltSize)%nat && (length (env_Nonce e) =? nonceSize)%nat
          && (length (env_Ciphertext e) =? DEKSize + gcmTagSize)%nat) (ErrInvalidEnvelope "size").

Definition validatePasswordEnvelope (e : Envelope) : res kerr unit :=
  validateCommonEnvelope e KindPassword passwordKDF ≫= λ _,
  ensure (bool_decide (env_Profile e = DefaultProfile)) (ErrInvalidEnvelope "profile") ≫= λ _,
  ensure (length (env_Verifier e) =? VerifierSize)%nat (ErrInvalidEnvelope "verifier").

Definition no_password_metadata (e : Envelope) : res kerr unit :=
  ensure (bool_decide (env_Profile e = Profile 0 0 0) && (length (env_Verifier e) =? 0)%nat) (ErrInvalidEnvelope "password metadata").
Definition validateRecoveryEnvelope (e : Envelope) : res kerr unit :=
  validateCommonEnvelope e KindRecovery recoveryKDF ≫= λ _, no_password_metadata e.
Definition validatePasskeyEnvelope (e : Envelope) : res kerr unit :=
  validateCommonEnvelope e KindPasskey passkeyKDF ≫= λ _, no_password_metadata e.

Definition validateDEK (dek : list Z) : res kerr unit := ensure (length dek =? DEKSize)%nat ErrInvalidDEK.
Definition validatePassword (p : list Z) : res kerr unit :=
  ensure (negb ((length p =? 0)%nat || (Z.of_nat (length p) >? maxPasswordSize))) ErrKeyPassword.
Definition validateKeyRecoverySecret (s : list Z) : res kerr unit := ensure (length s =? RecoverySecretSize)%nat ErrInvalidRecoverySecret.
Definition validatePasskeySecret (s : list Z) : res kerr unit := ensure (length s =? PasskeySecretSize)%nat ErrInvalidPasskeySecret.
Definition validateContext (c : Context) : res kerr unit :=
  ensure (negb ((len (cx_UserID c) =? 0) || (len (cx_UserID c) >? maxContextIDSize)
                || (len (cx_VaultID c) =? 0) || (len (cx_VaultID c) >? maxContextIDSize))) ErrInvalidContext.

(** [x, err := f(); if err != nil { return e }] *)
Definition or_else {A} (r : res kerr A) (e : kerr) : res kerr A := match r with Ok a => Ok a | Err _ => Err e end.

(** * Authenticated data *)
Definition appendLengthPrefixed (destination value : list Z) : list Z :=
  destination ++ be_bytes 4 (Z.of_nat (length value)) ++ value.

Definition aad_prefix : list Z := bytes "omni-money/key-envelope/aad" ++ [0].
Definition authenticatedData (c : Context) (kind : string) (version : Z) : list Z :=
  appendLengthPrefixed (appendLengthPrefixed (appendLengthPrefixed (aad_prefix ++ [version]) (bytes kind))
    (bytes (cx_UserID c))) (bytes (cx_VaultID c)).

Definition serverPasskeyAAD (c : Context) (credentialID : list Z) : res kerr (list Z) :=
  validateContext c ≫= λ _,
  ensure (between 16 1024 (Z.of_nat (length credentialID))) ErrInvalidContext ≫= λ _,
  Ok (appendLengthPrefixed (authenticatedData c KindServerPasskey CurrentVersion) credentialID).

Definition hkdfInfo (kind purpose : string) : list Z :=
  bytes "omni-money/key-envelope/v1/" ++ bytes kind ++ bytes "/" ++ bytes purpose.

Definition randomBytes (size : nat) (read : option (list Z)) : res kerr (list Z) :=
  match read with Some l => if (length l =? size)%nat then Ok l else Err EKeyRandom | None => Err EKeyRandom end.

(** [salt], then [nonce]. *)
Definition entropy : Type := option (list Z) * option (list Z).

Section Envelopes.
Context `{KDFLib}.

Definition passwordVerifier (key aad : list Z) : list Z :=
  hmac_sha256 key (bytes "omni-money/key-envelope/password-verifier/v1" ++ [0] ++ aad).

Definition deriveKey (secret salt info : list Z) : list Z := HKDF secret salt info.

Definition seal (key plaintext aad : list Z) (read : option (list Z)) : res kerr (list Z * list Z) :=
  randomBytes nonceSize read ≫= λ nonce, Ok (nonce, gcm_seal (aes_encrypt key) nonce plaintext aad).

Definition open (key nonce ciphertext aad : list Z) : res kerr (list Z) :=
  match gcm_open (aes_encrypt key) nonce ciphertext aad with Some p => Ok p | None => Err ErrAuthentication end.

Definition GenerateDEK (read : option (list Z)) : res kerr (list Z) := randomBytes DEKSize read.

(** * Passwords *)
Definition password_root (password salt : list Z) (p : Argon2idProfile) : list Z :=
  IDKey password salt (Iterations p) (MemoryKiB p) (Parallelism p).

Definition WrapWithPassword (dek password : list Z) (c : Context) (r : entropy) : res kerr Envelope :=
  validateDEK dek ≫= λ _,
  validatePassword password ≫= λ _,
  validateContext c ≫= λ _,
  randomBytes SaltSize r.1 ≫= λ salt,
  let root := password_root password salt DefaultProfile in
  let wrappingKey := deriveKey root salt (hkdfInfo KindPassword "aead") in
  let verifierKey := deriveKey root salt (hkdfInfo KindPassword "verifier") in
  let aad := authenticatedData c KindPassword CurrentVersion in
  seal wrappingKey dek aad r.2 ≫= λ '(nonce, ciphertext),
  Ok (MkEnvelope CurrentVersion KindPassword passwordKDF DefaultProfile salt nonce ciphertext (passwordVerifier verifierKey aad)).

Definition UnwrapWithPassword (e : Envelope) (password : list Z) (c : Context) : res kerr (list Z) :=
  validatePasswordEnvelope e ≫= λ _,
  or_else (validatePassword password) ErrAuthentication ≫= λ _,
  validateContext c ≫= λ _,
  let root := password_root password (env_Salt e) (env_Profile e) in
  let wrappingKey := deriveKey root (env_Salt e) (hkdfInfo KindPassword "aead") in
  let verifierKey := deriveKey root (env_Salt e) (hkdfInfo KindPassword "verifier") in
  let aad := authenticatedData c (env_Kind e) (env_Version e) in
  let verifierOK := bool_decide (passwordVerifier verifierKey aad = env_Verifier e) in
  match open wrappingKey (env_Nonce e) (env_Ciphertext e) aad with
  | Ok dek => if negb verifierOK then Err ErrAuthentication else if (length dek =? DEKSize)%nat then Ok dek else Err ErrAuthentication
  | Err _ => Err ErrAuthentication
  end.

Definition VerifyPassword (e : Envelope) (password : list Z) (c : Context) : res kerr bool :=
  validatePasswordEnvelope e ≫= λ _,
  match validatePassword password with
  | Err _ => Ok false
  | Ok _ =>
    validateContext c ≫= λ _,
    let root := password_root password (env_Salt e) (env_Profile e) in
    let verifierKey := deriveKey root (env_Salt e) (hkdfInfo KindPassword "verifier") in
    let aad := authenticatedData c (env_Kind e) (env_Version e) in
    Ok (bool_decide (passwordVerifier verifierKey aad = env_Verifier e))
  end.

(** * Secrets of 256 bits *)
Definition checked_open (key nonce ciphertext aad : list Z) : res kerr (list Z) :=
  match open key nonce ciphertext aad with
  | Ok dek => if (length dek =? DEKSize)%nat then Ok dek else Err ErrAuthentication
  | Err _ => Err ErrAuthentication
  end.

Definition WrapWithRecovery (dek recoverySecret : list Z) (c : Context) (r : entropy) : res kerr Envelope :=
  validateDEK dek ≫= λ _,
  validateKeyRecoverySecret recoverySecret ≫= λ _,
  validateContext c ≫= λ _,
  randomBytes SaltSize r.1 ≫= λ salt,
  let wrappingKey := deriveKey recoverySecret salt (hkdfInfo KindRecovery "aead") in
  seal wrappingKey dek (authenticatedData c KindRecovery CurrentVersion) r.2 ≫= λ '(nonce, ciphertext),
  Ok (MkEnvelope CurrentVersion KindRecovery recoveryKDF (Profile 0 0 0) salt nonce ciphertext []).

Definition UnwrapWithRecovery (e : Envelope) (recoverySecret : list Z) (c : Context) : res kerr (list Z) :=
  validateRecoveryEnvelope e ≫= λ _,
  or_else (validateKeyRecoverySecret recoverySecret) ErrAuthentication ≫= λ _,
  validateContext c ≫= λ _,
  let wrappingKey := deriveKey recoverySecret (env_Salt e) (hkdfInfo KindRecovery "aead") in
  checked_open wrappingKey (env_Nonce e) (env_Ciphertext e) (authenticatedData c (env_Kind e) (env_Version e)).

Definition WrapWithPasskey (dek prfSecret : list Z) (c : Context) (r : entropy) : res kerr Envelope :=
  validateDEK dek ≫= λ _,
  validatePasskeySecret prfSecret ≫= λ _,
  validateContext c ≫= λ _,
  randomBytes SaltSize r.1 ≫= λ salt,
  let wrappingKey := deriveKey prfSecret salt (hkdfInfo KindPasskey "aead") in
  seal wrappingKey dek (authenticatedData c KindPasskey CurrentVersion) r.2 ≫= λ '(nonce, ciphertext),
  Ok (MkEnvelope CurrentVersion KindPasskey passkeyKDF (Profile 0 0 0) salt nonce ciphertext []).

Definition UnwrapWithPasskey (e : Envelope) (prfSecret : list Z) (c : Context) : res kerr (list Z) :=
  validatePasskeyEnvelope e ≫= λ _,
  or_else (validatePasskeySecret prfSecret) ErrAuthentication ≫= λ _,
  validateContext c ≫= λ _,
  let wrappingKey := deriveKey prfSecret (env_Salt e) (hkdfInfo KindPasskey "aead") in
  checked_open wrappingKey (env_Nonce e) (env_Ciphertext e) (authenticatedData c KindPasskey (env_Version e)).

Definition WrapWithServerPasskey (dek custodyKey : list Z) (c : Context) (credentialID : list Z) (r : entropy) : res kerr Envelope :=
  validateDEK dek ≫= λ _,
  validatePasskeySecret custodyKey ≫= λ _,
  serverPasskeyAAD c credentialID ≫= λ aad,
  randomBytes SaltSize r.1 ≫= λ salt,
  let key := deriveKey custodyKey salt (hkdfInfo KindServerPasskey "aead") in
  seal key dek aad r.2 ≫= λ '(nonce, ciphertext),
  Ok (MkEnvelope CurrentVersion KindServerPasskey passkeyKDF (Profile 0 0 0) salt nonce ciphertext []).

Definition UnwrapWithServerPasskey (e : Envelope) (custodyKey : list Z) (c : Context) (credentialID : list Z) : res kerr (list Z) :=
  validateCommonEnvelope e KindServerPasskey passkeyKDF ≫= λ _,
  no_password_metadata e ≫= λ _,
  or_else (validatePasskeySecret custodyKey) ErrAuthentication ≫= λ _,
  serverPasskeyAAD c credentialID ≫= λ aad,
  let key := deriveKey custodyKey (env_Salt e) (hkdfInfo KindServerPasskey "aead") in
  checked_open key (env_Nonce e) (env_Ciphertext e) aad.
End Envelopes.

(** * An envelope opens exactly when it was wrapped *)
Lemma ensure_if {E} b (e : E) : ensure b e = if b then Ok tt else Err e. Proof. done. Qed.
Lemma or_else_Ok {A} (r : res kerr A) e a : or_else r e = Ok a ↔ r = Ok a.
Proof. destruct r; cbn; split; congruence. Qed.
Lemma res_bind_Ok {E A B} (m : res E A) (f : A → res E B) b : m ≫= f = Ok b ↔ ∃ a, m = Ok a ∧ f a = Ok b.
Proof. split; [apply res_bind_Ok_inv|]. intros (a & -> & Hf). exact Hf. Qed.

(** The fields that the validators fix. *)
Record plain_envelope (e : Envelope) (kind kdf : string) : Prop := {
  pe_version : env_Version e = CurrentVersion; pe_kind : env_Kind e = kind; pe_kdf : env_KDF e = kdf;
  pe_salt : length (env_Salt e) = SaltSize; pe_nonce : length (env_Nonce e) = nonceSize;
  pe_ciphertext : length (env_Ciphertext e) = (DEKSize + gcmTagSize)%nat
}.
Lemma validateCommonEnvelope_Ok e kind kdf : validateCommonEnvelope e kind kdf = Ok tt ↔ plain_envelope e kind kdf.
Proof.
  unfold validateCommonEnvelope. split.
  - intros ([] & H1%ensure_Ok & H2%ensure_Ok)%res_bind_Ok_inv. rewrite !andb_true_iff, ?bool_decide_eq_true, ?Z.eqb_eq, ?Nat.eqb_eq in *.
    destruct H1 as ((? & ?) & ?), H2 as ((? & ?) & ?). by constructor.
  - intros []. apply res_bind_Ok. exists tt. rewrite !ensure_Ok, !andb_true_iff, !bool_decide_eq_true, Z.eqb_eq, !Nat.eqb_eq. done.
Qed.

Section Exact.
Context `{KDFLib}.

Lemma randomBytes_Some n l : randomBytes n (Some l) = if (length l =? n)%nat then Ok l else Err EKeyRandom. Proof. done. Qed.
Lemma open_Ok key nonce c aad p : open key nonce c aad = Ok p ↔ c = gcm_seal (aes_encrypt key) nonce p aad.
Proof. unfold open. rewrite <- gcm_open_Some. destruct (gcm_open _ _ _ _); split; congruence. Qed.
Lemma seal_Ok key p aad l r : length l = nonceSize → seal key p aad (Some l) = Ok r ↔ r = (l, gcm_seal (aes_encrypt key) l p aad).
Proof. intros Hl. unfold seal. rewrite randomBytes_Some, Hl. cbn. split; congruence. Qed.
Lemma checked_open_Ok key nonce c aad p : checked_open key nonce c aad = Ok p ↔ c = gcm_seal (aes_encrypt key) nonce p aad ∧ length p = DEKSize.
Proof.
  unfold checked_open. rewrite <- open_Ok. destruct (open key nonce c aad) as [q|]; [|split; [done|intros [? ?]; done]].
  destruct (Nat.eqb_spec (length q) DEKSize); split; try naive_solver congruence.
Qed.
Lemma wrap_shape kind kdf (verifier : list Z) (profile : Argon2idProfile) (e : Envelope) dek key aad :
  plain_envelope e kind kdf → env_Profile e = profile → env_Verifier e = verifier →
  (env_Ciphertext e = gcm_seal (aes_encrypt key) (env_Nonce e) dek aad ↔
   (seal key dek aad (Some (env_Nonce e)) ≫= λ '(nonce, ciphertext),
    Ok (MkEnvelope CurrentVersion kind kdf profile (env_Salt e) nonce ciphertext verifier)) = Ok e).
Proof.
  intros [Hv Hk Hf Hs Hn Hc] <- <-. rewrite res_bind_Ok. split.
  - intros Hct. exists (env_Nonce e, gcm_seal (aes_encrypt key) (env_Nonce e) dek aad). rewrite seal_Ok by done. split; [done|].
    rewrite <- Hv, <- Hk, <- Hf, <- Hct. by destruct e.
  - intros ([n c] & Hseal & Heq). apply seal_Ok in Hseal; [|done]. assert (env_Ciphertext e = c) as -> by (by injection Heq as <-). congruence.
Qed.
Lemma randomBytes_Ok n r l : randomBytes n r = Ok l ↔ r = Some l ∧ length l = n.
Proof.
  unfold randomBytes. destruct r as [k|]; [|split; [done|by intros [? _]]].
  destruct (Nat.eqb_spec (length k) n); split; naive_solver congruence.
Qed.

(** What every wrap leaves, whatever its random bytes. *)
Lemma wrapped kind kdf profile verifier salt (e : Envelope) dek key aad r :
  (seal key dek aad r ≫= λ '(nonce, ciphertext), Ok (MkEnvelope CurrentVersion kind kdf profile salt nonce ciphertext verifier)) = Ok e →
  length salt = SaltSize → length dek = DEKSize →
  plain_envelope e kind kdf ∧ env_Profile e = profile ∧ env_Verifier e = verifier ∧ env_Salt e = salt ∧ r = Some (env_Nonce e) ∧
  env_Ciphertext e = gcm_seal (aes_encrypt key) (env_Nonce e) dek aad.
Proof.
  intros ([n c] & Hseal & [= <-])%res_bind_Ok_inv Hs Hd. unfold seal in Hseal.
  apply res_bind_Ok_inv in Hseal as (nonce & [-> Hn]%randomBytes_Ok & [= <- <-]). cbn.
  split; [|done]. constructor; cbn; try done. by rewrite gcm_seal_length, Hd.
Qed.

Lemma dek_ok dek : validateDEK dek = Ok tt ↔ length dek = DEKSize.
Proof. unfold validateDEK. by rewrite ensure_Ok, Nat.eqb_eq. Qed.

Lemma no_metadata_Ok e : no_password_metadata e = Ok tt ↔ env_Profile e = Profile 0 0 0 ∧ env_Verifier e = [].
Proof. unfold no_password_metadata. by rewrite ensure_Ok, andb_true_iff, bool_decide_eq_true, Nat.eqb_eq, length_zero_iff_nil. Qed.

Lemma validatePasswordEnvelope_Ok e : validatePasswordEnvelope e = Ok tt ↔
  plain_envelope e KindPassword passwordKDF ∧ env_Profile e = DefaultProfile ∧ length (env_Verifier e) = VerifierSize.
Proof.
  unfold validatePasswordEnvelope. split.
  - intros ([] & H1%validateCommonEnvelope_Ok & ([] & H2%ensure_Ok & H3%ensure_Ok)%res_bind_Ok_inv)%res_bind_Ok_inv.
    rewrite bool_decide_eq_true in H2. rewrite Nat.eqb_eq in H3. done.
  - intros (H1%validateCommonEnvelope_Ok & -> & H3). rewrite H1. cbn [mbind res_bind]. rewrite bool_decide_eq_true_2 by done. cbn [ensure mbind res_bind].
    by rewrite H3, Nat.eqb_refl.
Qed.

Lemma UnwrapWithPassword_exact e pw c dek :
  UnwrapWithPassword e pw c = Ok dek ↔ WrapWithPassword dek pw c (Some (env_Salt e), Some (env_Nonce e)) = Ok e.
Proof.
  unfold UnwrapWithPassword, WrapWithPassword. cbn [fst snd]. split.
  - intros ([] & (Hp & Hpr & Hv)%validatePasswordEnvelope_Ok & ([] & Hpw%or_else_Ok & ([] & Hc & Hm)%res_bind_Ok_inv)%res_bind_Ok_inv)%res_bind_Ok_inv.
    destruct (open _ _ _ _) as [q|] eqn:Ho; [|done]. case_bool_decide as Hver; [|done]. cbn [negb] in Hm.
    destruct (Nat.eqb_spec (length q) DEKSize) as [Hq|]; [|done]. injection Hm as ->.
    apply dek_ok in Hq. rewrite Hq, Hpw, Hc. cbn [mbind res_bind].
    destruct (Hp). rewrite randomBytes_Some, pe_salt0, Nat.eqb_refl. cbn [mbind res_bind].
    rewrite pe_kind0, pe_version0, Hpr in *. apply (wrap_shape KindPassword passwordKDF); [done|done|by rewrite <- Hver|by apply open_Ok].
  - intros ([] & Hd%dek_ok & ([] & Hpw & ([] & Hc & (salt & [[= <-] Hs]%randomBytes_Ok & Hw)%res_bind_Ok_inv)%res_bind_Ok_inv)%res_bind_Ok_inv)%res_bind_Ok_inv.
    apply wrapped in Hw as (Hp & Hpr & Hv & _ & _ & Hct); [|done|done].
    assert (validatePasswordEnvelope e = Ok tt) as -> by (apply validatePasswordEnvelope_Ok; rewrite Hv; split_and!; [done|done|apply hmac_sha256_length]).
    cbn [mbind res_bind]. rewrite Hpw. cbn [or_else mbind res_bind]. rewrite Hc. cbn [mbind res_bind].
    destruct Hp. rewrite pe_kind0, pe_version0, Hpr, <- Hv. apply open_Ok in Hct. rewrite Hct, bool_decide_eq_true_2 by done. cbn [negb]. by rewrite Hd.
Qed.

(** The three kinds sealed under a secret of 256 bits have one shape. *)
Definition wrap_secret (kind kdf : string) (secret dek aad : list Z) (r : entropy) : res kerr Envelope :=
  randomBytes SaltSize r.1 ≫= λ salt,
  seal (deriveKey secret salt (hkdfInfo kind "aead")) dek aad r.2 ≫= λ '(nonce, ciphertext),
  Ok (MkEnvelope CurrentVersion kind kdf (Profile 0 0 0) salt nonce ciphertext []).
Lemma secret_exact kind kdf secret dek aad (e : Envelope) :
  (plain_envelope e kind kdf ∧ no_password_metadata e = Ok tt ∧
   checked_open (deriveKey secret (env_Salt e) (hkdfInfo kind "aead")) (env_Nonce e) (env_Ciphertext e) aad = Ok dek) ↔
  validateDEK dek = Ok tt ∧ wrap_secret kind kdf secret dek aad (Some (env_Salt e), Some (env_Nonce e)) = Ok e.
Proof.
  rewrite no_metadata_Ok, checked_open_Ok, dek_ok. unfold wrap_secret. cbn [fst snd]. split.
  - intros (Hp & (Hpr & Hv) & Hct & Hd). split; [done|]. rewrite randomBytes_Some, (pe_salt _ _ _ Hp), Nat.eqb_refl. cbn [mbind res_bind].
    by apply wrap_shape.
  - intros (Hd & (salt & [[= <-] Hs]%randomBytes_Ok & Hw)%res_bind_Ok_inv). apply wrapped in Hw as (? & ? & ? & _ & _ & ?); done.
Qed.

(** The guards of a wrap and of an unwrap around that shape. *)
Lemma secret_guarded kind kdf secret dek aad (e : Envelope) (G : res kerr unit) (C : res kerr unit) err :
  (validateCommonEnvelope e kind kdf ≫= λ _, no_password_metadata e ≫= λ _, or_else G err ≫= λ _, C ≫= λ _,
   checked_open (deriveKey secret (env_Salt e) (hkdfInfo kind "aead")) (env_Nonce e) (env_Ciphertext e) aad) = Ok dek ↔
  (validateDEK dek ≫= λ _, G ≫= λ _, C ≫= λ _, wrap_secret kind kdf secret dek aad (Some (env_Salt e), Some (env_Nonce e))) = Ok e.
Proof.
  pose proof (secret_exact kind kdf secret dek aad e) as Hx. rewrite <- validateCommonEnvelope_Ok in Hx.
  destruct (validateCommonEnvelope e kind kdf) as [[]|], (no_password_metadata e) as [[]|], G as [[]|], C as [[]|], (validateDEK dek) as [[]|];
    cbn [mbind res_bind or_else]; naive_solver.
Qed.

Lemma UnwrapWithRecovery_exact e secret c dek :
  UnwrapWithRecovery e secret c = Ok dek ↔ WrapWithRecovery dek secret c (Some (env_Salt e), Some (env_Nonce e)) = Ok e.
Proof.
  etrans; [|apply (secret_guarded KindRecovery recoveryKDF secret dek (authenticatedData c KindRecovery CurrentVersion) e
                     (validateKeyRecoverySecret secret) (validateContext c) ErrAuthentication)].
  unfold UnwrapWithRecovery, validateRecoveryEnvelope. destruct (validateCommonEnvelope e KindRecovery recoveryKDF) as [[]|] eqn:Hv; [|reflexivity].
  apply validateCommonEnvelope_Ok in Hv as []. rewrite pe_kind0, pe_version0. reflexivity.
Qed.
Lemma UnwrapWithPasskey_exact e prf c dek :
  UnwrapWithPasskey e prf c = Ok dek ↔ WrapWithPasskey dek prf c (Some (env_Salt e), Some (env_Nonce e)) = Ok e.
Proof.
  etrans; [|apply (secret_guarded KindPasskey passkeyKDF prf dek (authenticatedData c KindPasskey CurrentVersion) e
                     (validatePasskeySecret prf) (validateContext c) ErrAuthentication)].
  unfold UnwrapWithPasskey, validatePasskeyEnvelope. destruct (validateCommonEnvelope e KindPasskey passkeyKDF) as [[]|] eqn:Hv; [|reflexivity].
  apply validateCommonEnvelope_Ok in Hv as []. rewrite pe_version0. reflexivity.
Qed.
Lemma UnwrapWithServerPasskey_exact e custody c i dek :
  UnwrapWithServerPasskey e custody c i = Ok dek ↔ WrapWithServerPasskey dek custody c i (Some (env_Salt e), Some (env_Nonce e)) = Ok e.
Proof.
  unfold UnwrapWithServerPasskey, WrapWithServerPasskey. destruct (serverPasskeyAAD c i) as [aad|err].
  - apply (secret_guarded KindServerPasskey passkeyKDF custody dek aad e (validatePasskeySecret custody) (Ok tt) ErrAuthentication).
  - split; intros Hx; exfalso; repeat (apply res_bind_Ok_inv in Hx as (? & ? & Hx)); done.
Qed.

(** Verifying a password agrees with unwrapping. *)
Lemma VerifyPassword_unwrap e pw c dek : UnwrapWithPassword e pw c = Ok dek → VerifyPassword e pw c = Ok true.
Proof.
  unfold UnwrapWithPassword, VerifyPassword.
  intros ([] & -> & ([] & Hpw%or_else_Ok & ([] & -> & Hm)%res_bind_Ok_inv)%res_bind_Ok_inv)%res_bind_Ok_inv. rewrite Hpw. cbn [mbind res_bind].
  destruct (open _ _ _ _); [|done]. by case_bool_decide.
Qed.
End Exact.

(** * What a wrap produces *)
Record envelope_bytes (e : Envelope) : Prop := {
  eb_salt : Forall is_byte (env_Salt e); eb_nonce : Forall is_byte (env_Nonce e);
  eb_ciphertext : Forall is_byte (env_Ciphertext e); eb_verifier : Forall is_byte (env_Verifier e)
}.

(** Random bytes are bytes. *)
Definition fresh_bytes (r : entropy) : Prop :=
  (∀ l, r.1 = Some l → Forall is_byte l) ∧ (∀ l, r.2 = Some l → Forall is_byte l).

Section Wrapped.
Context `{KDFLib}.

Lemma sealed_bytes (e : Envelope) (r : entropy) dek secret salt info aad verifier :
  fresh_bytes r → Forall is_byte dek → r = (Some (env_Salt e), Some (env_Nonce e)) → env_Verifier e = verifier → Forall is_byte verifier →
  env_Ciphertext e = gcm_seal (aes_encrypt (deriveKey secret salt info)) (env_Nonce e) dek aad → envelope_bytes e.
Proof.
  intros [Hs Hn] Hd -> Hv Hvb Hc. constructor; [by apply Hs|by apply Hn| |by rewrite Hv].
  rewrite Hc. apply gcm_seal_range; [|done]. intros b. apply aes_encrypt_range, HKDF_bytes.
Qed.

Lemma WrapWithPassword_spec dek pw c r e : WrapWithPassword dek pw c r = Ok e →
  UnwrapWithPassword e pw c = Ok dek ∧ validateKeyEnvelope e KindPassword = Ok tt ∧ (fresh_bytes r → Forall is_byte dek → envelope_bytes e).
Proof.
  intros Hw. assert (r = (Some (env_Salt e), Some (env_Nonce e)) ∧ validatePasswordEnvelope e = Ok tt ∧ (fresh_bytes r → Forall is_byte dek → envelope_bytes e)) as (-> & Hv & Hb).
  { unfold WrapWithPassword in Hw. destruct r as [r1 r2]. cbn [fst snd] in Hw.
    apply res_bind_Ok_inv in Hw as ([] & Hd%dek_ok & ([] & _ & ([] & _ & (salt & [-> Hs]%randomBytes_Ok & Hw)%res_bind_Ok_inv)%res_bind_Ok_inv)%res_bind_Ok_inv).
    apply wrapped in Hw as (Hp & Hpr & Hv & <- & -> & Hct); [|done|done]. split; [done|]. split.
    - apply validatePasswordEnvelope_Ok. rewrite Hv. split_and!; [done|done|apply hmac_sha256_length].
    - intros Hr Hdb. eapply sealed_bytes; [done|done|done|done| |done]. apply hmac_sha256_range. }
  split; [by apply UnwrapWithPassword_exact|]. split; [|done]. apply validatePasswordEnvelope_Ok in Hv as ([Hv Hk Hf Hs Hn Hc] & Hpr & Hver).
  unfold validateKeyEnvelope. rewrite Hv, Hk, Hf, Hs, Hn, Hc, Hpr, Hver. done.
Qed.

Lemma wrap_secret_spec kind kdf secret dek aad r e : wrap_secret kind kdf secret dek aad r = Ok e → length dek = DEKSize →
  r = (Some (env_Salt e), Some (env_Nonce e)) ∧ (kind = KindRecovery ∨ kind = KindPasskey ∨ kind = KindServerPasskey → kdf = recoveryKDF → validateKeyEnvelope e kind = Ok tt) ∧
  env_Kind e = kind ∧ (fresh_bytes r → Forall is_byte dek → envelope_bytes e).
Proof.
  intros Hw Hd. unfold wrap_secret in Hw. destruct r as [r1 r2]. cbn [fst snd] in Hw. apply res_bind_Ok_inv in Hw as (salt & [-> Hs]%randomBytes_Ok & Hw).
  apply wrapped in Hw as ([Hv Hk Hf Hs' Hn Hc] & Hpr & Hver & <- & -> & Hct); [|done|done]. split_and!; [done| |done|].
  - intros Hkind ->. unfold validateKeyEnvelope. rewrite Hv, Hk, Hf, Hs', Hn, Hc, Hpr, Hver.
    destruct Hkind as [->|[->| ->]]; done.
  - intros Hr Hdb. by eapply sealed_bytes.
Qed.

Lemma WrapWithRecovery_spec dek secret c r e : WrapWithRecovery dek secret c r = Ok e →
  UnwrapWithRecovery e secret c = Ok dek ∧ validateKeyEnvelope e KindRecovery = Ok tt ∧ (fresh_bytes r → Forall is_byte dek → envelope_bytes e).
Proof.
  intros Hw. pose proof Hw as Hw'. unfold WrapWithRecovery in Hw'.
  apply res_bind_Ok_inv in Hw' as ([] & Hd%dek_ok & ([] & _ & ([] & _ & Hs)%res_bind_Ok_inv)%res_bind_Ok_inv).
  apply (wrap_secret_spec KindRecovery) in Hs as (-> & Hv & _ & Hb); [|done]. split; [by apply UnwrapWithRecovery_exact|]. split; [|done]. apply Hv; [by left|done].
Qed.
Lemma WrapWithServerPasskey_spec dek custody c i r e : WrapWithServerPasskey dek custody c i r = Ok e →
  UnwrapWithServerPasskey e custody c i = Ok dek ∧ validateKeyEnvelope e KindServerPasskey = Ok tt ∧ env_Kind e = KindServerPasskey ∧
  (fresh_bytes r → Forall is_byte dek → envelope_bytes e).
Proof.
  intros Hw. pose proof Hw as Hw'. unfold WrapWithServerPasskey in Hw'.
  apply res_bind_Ok_inv in Hw' as ([] & Hd%dek_ok & ([] & _ & (aad & _ & Hs)%res_bind_Ok_inv)%res_bind_Ok_inv).
  apply (wrap_secret_spec KindServerPasskey) in Hs as (-> & Hv & Hk & Hb); [|done]. split; [by apply UnwrapWithServerPasskey_exact|].
  split; [|done]. apply Hv; [by right; right|done].
Qed.
Lemma WrapWithPasskey_spec dek prf c r e : WrapWithPasskey dek prf c r = Ok e →
  UnwrapWithPasskey e prf c = Ok dek ∧ validateKeyEnvelope e KindPasskey = Ok tt ∧ env_Kind e = KindPasskey ∧
  (fresh_bytes r → Forall is_byte dek → envelope_bytes e).
Proof.
  intros Hw. pose proof Hw as Hw'. unfold WrapWithPasskey in Hw'.
  apply res_bind_Ok_inv in Hw' as ([] & Hd%dek_ok & ([] & _ & ([] & _ & Hs)%res_bind_Ok_inv)%res_bind_Ok_inv).
  apply (wrap_secret_spec KindPasskey) in Hs as (-> & Hv & Hk & Hb); [|done]. split; [by apply UnwrapWithPasskey_exact|].
  split; [|done]. apply Hv; [by right; left|done].
Qed.
End Wrapped.

(** * Bindings do not collide *)
Lemma be_num_bytes4 x : 0 <= x < 2 ^ 32 → be_num (be_bytes 4 x) = x.
Proof.
  intros Hx. unfold be_num, be_bytes. cbn [seq fmap list_fmap foldl Nat.sub]. rewrite !Z.shiftr_div_pow2 by lia.
  change (8 * Z.of_nat 3) with 24. change (8 * Z.of_nat 2) with 16. change (8 * Z.of_nat 1) with 8. change (8 * Z.of_nat 0) with 0.
  change (2 ^ 32) with 4294967296 in Hx. change (2 ^ 24) with 16777216. change (2 ^ 16) with 65536. change (2 ^ 8) with 256. change (2 ^ 0) with 1.
  Z.to_euclidean_division_equations. lia.
Qed.

(** A length-prefixed value is the start of at most one stream. *)
Lemma prefixed_inj v1 v2 t1 t2 : Z.of_nat (length v1) < 2 ^ 32 → Z.of_nat (length v2) < 2 ^ 32 →
  be_bytes 4 (Z.of_nat (length v1)) ++ v1 ++ t1 = be_bytes 4 (Z.of_nat (length v2)) ++ v2 ++ t2 → v1 = v2 ∧ t1 = t2.
Proof.
  intros H1 H2 Heq. apply app_inj_1 in Heq as [Hn Heq]; [|by rewrite !be_bytes_length].
  assert (length v1 = length v2) as Hl.
  { apply (f_equal be_num) in Hn. rewrite !be_num_bytes4 in Hn by lia. lia. }
  by apply app_inj_1 in Heq.
Qed.

Lemma authenticatedData_stream c kind v t : authenticatedData c kind v ++ t =
  aad_prefix ++ [v] ++ be_bytes 4 (Z.of_nat (length (bytes kind))) ++ bytes kind ++
  be_bytes 4 (Z.of_nat (length (bytes (cx_UserID c)))) ++ bytes (cx_UserID c) ++
  be_bytes 4 (Z.of_nat (length (bytes (cx_VaultID c)))) ++ bytes (cx_VaultID c) ++ t.
Proof. unfold authenticatedData, appendLengthPrefixed. by rewrite <- !app_assoc. Qed.

Lemma validContext_sizes c : validateContext c = Ok tt →
  Z.of_nat (length (bytes (cx_UserID c))) < 2 ^ 32 ∧ Z.of_nat (length (bytes (cx_VaultID c))) < 2 ^ 32.
Proof.
  unfold validateContext. rewrite ensure_Ok, negb_true_iff, !orb_false_iff. unfold len, maxContextIDSize. rewrite !Z.gtb_ltb. lia.
Qed.

Lemma authenticatedData_inj c1 c2 k1 k2 v1 v2 t1 t2 :
  validateContext c1 = Ok tt → validateContext c2 = Ok tt →
  Z.of_nat (length (bytes k1)) < 2 ^ 32 → Z.of_nat (length (bytes k2)) < 2 ^ 32 →
  authenticatedData c1 k1 v1 ++ t1 = authenticatedData c2 k2 v2 ++ t2 → c1 = c2 ∧ k1 = k2 ∧ v1 = v2 ∧ t1 = t2.
Proof.
  intros [Hu1 Hv1]%validContext_sizes [Hu2 Hv2]%validContext_sizes Hk1 Hk2. rewrite !authenticatedData_stream.
  intros Heq%app_inv_head. apply (app_inj_1 [v1] [v2]) in Heq as [[= Hver] Heq]; [|done].
  apply prefixed_inj in Heq as [Hk Heq]; [|done|done]. apply prefixed_inj in Heq as [Hu Heq]; [|done|done].
  apply prefixed_inj in Heq as [Hv Ht]; [|done|done]. apply bytes_inj in Hk, Hu, Hv. destruct c1, c2; cbn in *. by subst.
Qed.

(** ** What an envelope is for *)
Inductive purpose := ForPassword | ForRecovery | ForPRF | ForCustody (credentialID : list Z).
(** The data each of the four wraps authenticates. *)
Definition authenticated (c : Context) (p : purpose) : res kerr (list Z) :=
  match p with
  | ForPassword => validateContext c ≫= λ _, Ok (authenticatedData c KindPassword CurrentVersion)
  | ForRecovery => validateContext c ≫= λ _, Ok (authenticatedData c KindRecovery CurrentVersion)
  | ForPRF => validateContext c ≫= λ _, Ok (authenticatedData c KindPasskey CurrentVersion)
  | ForCustody i => serverPasskeyAAD c i
  end.

Definition purpose_kind (p : purpose) : string :=
  match p with ForPassword => KindPassword | ForRecovery => KindRecovery | ForPRF => KindPasskey | ForCustody _ => KindServerPasskey end.
Definition purpose_tail (p : purpose) : list Z := match p with ForCustody i => appendLengthPrefixed [] i | _ => [] end.
Definition purpose_fits (p : purpose) : Prop := match p with ForCustody i => Z.of_nat (length i) <= 1024 | _ => True end.

Lemma authenticated_Ok c p a : authenticated c p = Ok a →
  validateContext c = Ok tt ∧ purpose_fits p ∧ a = authenticatedData c (purpose_kind p) CurrentVersion ++ purpose_tail p.
Proof.
  destruct p as [| | |i]; cbn [authenticated purpose_kind purpose_tail purpose_fits].
  1-3: intros ([] & Hc & [= <-])%res_bind_Ok_inv; rewrite app_nil_r; done.
  intros ([] & Hc & ([] & Hi%ensure_Ok & [= <-])%res_bind_Ok_inv)%res_bind_Ok_inv. unfold between in Hi. split_and!; [done|lia|].
  by unfold appendLengthPrefixed.
Qed.

(** The data a key envelope authenticates names its user, vault, kind and, under
    server custody, credential without ambiguity: two valid bindings with the same data
    are the same binding. *)
Theorem key_envelope_binding c1 c2 p1 p2 a :
  authenticated c1 p1 = Ok a → authenticated c2 p2 = Ok a → c1 = c2 ∧ p1 = p2.
Proof.
  intros (Hc1 & Hf1 & ->)%authenticated_Ok (Hc2 & Hf2 & Heq)%authenticated_Ok.
  apply authenticatedData_inj in Heq as (Hc & Hk & _ & Ht); [|done|done|by destruct p1|by destruct p2]. split; [done|].
  destruct p1, p2; try done. cbn in *. unfold appendLengthPrefixed in Ht. cbn [app] in Ht.
  f_equal. apply (prefixed_inj _ _ [] []); [lia|lia|]. by rewrite !app_nil_r.
Qed.

(** C15. Unwrapping is the exact inverse of wrapping, for all four kinds: an envelope opens
    to a key exactly when wrapping that key for that secret, user, vault (and credential)
    with the envelope's salt and nonce gives this envelope, field by field. *)
Theorem key_envelope_exact `{KDFLib} e secret c i dek :
  (UnwrapWithPassword e secret c = Ok dek ↔ WrapWithPassword dek secret c (Some (env_Salt e), Some (env_Nonce e)) = Ok e) ∧
  (UnwrapWithRecovery e secret c = Ok dek ↔ WrapWithRecovery dek secret c (Some (env_Salt e), Some (env_Nonce e)) = Ok e) ∧
  (UnwrapWithPasskey e secret c = Ok dek ↔ WrapWithPasskey dek secret c (Some (env_Salt e), Some (env_Nonce e)) = Ok e) ∧
  (UnwrapWithServerPasskey e secret c i = Ok dek ↔
     WrapWithServerPasskey dek secret c i (Some (env_Salt e), Some (env_Nonce e)) = Ok e) ∧
  (UnwrapWithPassword e secret c = Ok dek → VerifyPassword e secret c = Ok true).
Proof.
  split_and!; [apply UnwrapWithPassword_exact|apply UnwrapWithRecovery_exact|apply UnwrapWithPasskey_exact|
    apply UnwrapWithServerPasskey_exact|apply VerifyPassword_unwrap].
Qed.

(** A key derivation for examples: one hash over its inputs. *)
#[local] Instance demo_kdf : KDFLib := {|
  IDKey password salt iterations memory parallelism := hmac_sha256 password (salt ++ [iterations; memory; parallelism]);
  HKDF secret salt info := hmac_sha256 secret (salt ++ info);
  HKDF_length secret salt info := hmac_sha256_length secret (salt ++ info);
  HKDF_bytes secret salt info := hmac_sha256_range secret (salt ++ info)
|}.
Definition demo_context : Context := MkContext "user-00000000001" "vault-0000000001".
Definition demo_dek : list Z := seqZ 1 32.
Definition demo_entropy : entropy := (Some (seqZ 100 32), Some (seqZ 200 12)).
Definition demo_envelope (pw : string) : res kerr Envelope := WrapWithPassword demo_dek (bytes pw) demo_context demo_entropy.
Definition no_envelope : Envelope := MkEnvelope 0 "" "" (Profile 0 0 0) [] [] [] [].
Definition got (r : res kerr Envelope) : Envelope := match r with Ok e => e | Err _ => no_envelope end.

Lemma key_envelope_exact_witness :
  UnwrapWithPassword (got (demo_envelope "correct horse battery")) (bytes "correct horse battery") demo_context = Ok demo_dek ∧
  UnwrapWithPassword (got (demo_envelope "correct horse battery")) (bytes "correct horse batterx") demo_context = Err ErrAuthentication.
Proof.
  split; [|vm_compute; reflexivity].
  apply (proj1 (key_envelope_exact (got (demo_envelope "correct horse battery")) (bytes "correct horse battery") demo_context [] demo_dek)).
  vm_compute. reflexivity.
Defined.

Lemma key_envelope_binding_witness :
  authenticated demo_context (ForCustody (seqZ 0 16)) = Ok (appendLengthPrefixed (authenticatedData demo_context KindServerPasskey 1) (seqZ 0 16)) ∧
  (demo_context = demo_context ∧ ForCustody (seqZ 0 16) = ForCustody (seqZ 0 16)).
Proof.
  split; [vm_compute; reflexivity|].
  apply (key_envelope_binding demo_context demo_context (ForCustody (seqZ 0 16)) (ForCustody (seqZ 0 16))
    (appendLengthPrefixed (authenticatedData demo_context KindServerPasskey 1) (seqZ 0 16))); vm_compute; reflexivity.
Defined.
