(* ===== verification/AiTransactions.v ===== *)
(** Transactions written by an AI credential ([core/ai_transaction.go]): the
    idempotency table and the daily quota live in the ledger database and are
    updated in the SQL transaction that inserts the row. *)
From Stdlib Require Import ZArith Lia.
From stdpp Require Import base gmap list strings sorting.
From S2P Require Import Prelude GoText Validation Settings GoTime ImageContainers Schema Balance Tags Links Images LedgerOps Service.
Open Scope Z_scope.

Inductive aierr :=
| EIdentity
| ELedger (e : lerr)
| ErrAIIdempotencyConflict
| EIdempotencyIncomplete
| AIDailyQuotaExceeded (retryAfterSeconds : Z)
| EAIConstraint
| EStoredCount.

(** The CHECK of the table makes the three response columns present together. *)
Record idemrow := IdemRow { im_request : list Z; im_response : option (Z * string * Z); im_created : Z }.

(** The ledger with the two AI tables; usage is keyed by credential and UTC day. *)
Record aidb := AIDB { ai_ledger : ledger; idempotency : gmap (string * list Z) idemrow; usage : gmap (string * Z) Z }.
Abbreviation aiop := (stm aidb aierr).

Definition set_idempotency (m : gmap (string * list Z) idemrow) (s : aidb) : aidb := AIDB (ai_ledger s) m (usage s).
Definition set_usage (m : gmap (string * Z) Z) (s : aidb) : aidb := AIDB (ai_ledger s) (idempotency s) m.

(** A ledger statement inside the same SQL transaction. *)
Definition on_ledger {A} (m : op A) : aiop A := λ s,
  match m (ai_ledger s) with
  | (Ok a, db) => (Ok a, AIDB db (idempotency s) (usage s))
  | (Err e, db) => (Err (ELedger e), AIDB db (idempotency s) (usage s))
  end.

Record AITransactionIdentity := Identity {
  CredentialID : string;
  IdempotencyKeySHA256 : list Z;
  RequestSHA256 : list Z;
  MaxTransactionsPerDay : Z;
  Now : Z
}.
Definition key_of (i : AITransactionIdentity) : string * list Z := (CredentialID i, IdempotencyKeySHA256 i).
Definition zero_time : Z := -62135596800 * second.

(** [now.Format]: the stored date names the UTC day; its CHECK wants ten characters,
    the years 0 to 9999. *)
Definition utc_day (now : Z) : Z := now / day.
Definition utc_date_ok (d : Z) : bool := between (unix_days 0 1 1) (unix_days 10000 1 1 - 1) d.

(** [INSERT ... ON CONFLICT DO NOTHING], then the stored response of a replay. *)
Definition claimAIIdempotency (i : AITransactionIdentity) (now : Z) : aiop (option (Z * string * Z)) :=
  s ← gets id;
  match idempotency s !! key_of i with
  | None =>
    require ((zlen (IdempotencyKeySHA256 i) =? 32) && (zlen (RequestSHA256 i) =? 32)) EAIConstraint;;
    modify (λ s, set_idempotency (<[key_of i := IdemRow (RequestSHA256 i) None now]> (idempotency s)) s);;
    mret None
  | Some r =>
    require (bool_decide (im_request r = RequestSHA256 i)) ErrAIIdempotencyConflict;;
    match im_response r with
    | None => fail EIdempotencyIncomplete
    | Some resp => mret (Some resp)
    end
  end.

Definition retry_after (now : Z) : Z :=
  let remaining := (utc_day now + 1) * day - now in
  Z.max 1 (remaining / second + (if remaining mod second =? 0 then 0 else 1)).

Definition consumeAIDailyQuota (i : AITransactionIdentity) (now : Z) : aiop unit :=
  s ← gets id;
  match usage s !! (CredentialID i, utc_day now) with
  | None =>
    require (utc_date_ok (utc_day now)) EAIConstraint;;
    modify (λ s, set_usage (<[(CredentialID i, utc_day now) := 1]> (usage s)) s)
  | Some n =>
    if n <? MaxTransactionsPerDay i then modify (λ s, set_usage (<[(CredentialID i, utc_day now) := n + 1]> (usage s)) s)
    else fail (AIDailyQuotaExceeded (retry_after now))
  end.

(** [UPDATE ai_transaction_idempotency SET ... WHERE ... AND transaction_id IS NULL]
    under UNIQUE(transaction_id). *)
Definition store_response (i : AITransactionIdentity) (resp : TransactionResponse) : aiop unit :=
  s ← gets id;
  match idempotency s !! key_of i with
  | Some (IdemRow h None c) =>
    require (bool_decide (map_Forall (λ _ r, (λ x, x.1.1) <$> im_response r ≠ Some (resp_id resp)) (idempotency s))) EAIConstraint;;
    modify (λ s, set_idempotency
      (<[key_of i := IdemRow h (Some (resp_id resp, resp_account resp, resp_date resp)) c]> (idempotency s)) s)
  | _ => fail EStoredCount
  end.

Record AITransactionResult := AIResult { ar_id : Z; ar_account : string; ar_date : Z; Replayed : bool }.

Section AI.
Context (DecodeConfig Decode : list Z → option (Z * Z * string)) (now : Z).

Definition AddAITransaction (req : TransactionRequest) (i : AITransactionIdentity) : aiop AITransactionResult :=
  require (negb (bool_decide (CredentialID i = "") || (MaxTransactionsPerDay i <=? 0) || (Now i =? zero_time))) EIdentity;;
  prepared ← on_ledger (prepareTransactionInsert DecodeConfig Decode req);
  transactional (
    replay ← claimAIIdempotency i (Now i);
    match replay with
    | Some (n, account, date) => mret (AIResult n account date true)
    | None =>
      consumeAIDailyQuota i (Now i);;
      resp ← on_ledger (addPreparedTransactionIn now prepared);
      store_response i resp;;
      mret (AIResult (resp_id resp) (resp_account resp) (resp_date resp) false)
    end).

(** * What a call does *)
Definition used (s : aidb) (c : string) (d : Z) : Z := default 0 (usage s !! (c, d)).

(** No tag was touched, and no label but those of row [n] with the given tags was added. *)
Definition labelled (n : Z) (ids : list Z) (db db' : ledger) : Prop :=
  tags db' = tags db ∧ ∀ p, p ∈ transaction_tags db' → p ∈ transaction_tags db ∨ p.1 = n ∧ p.2 ∈ ids.

(** A row was created for the first time for this key. *)
Record fresh_create (req : TransactionRequest) (i : AITransactionIdentity) (s : aidb) (r : AITransactionResult) (s' : aidb) : Prop := {
  fc_new : idempotency s !! key_of i = None;
  fc_stored : idempotency s' = <[key_of i := IdemRow (RequestSHA256 i) (Some (ar_id r, ar_account r, ar_date r)) (Now i)]> (idempotency s);
  fc_quota : used s (CredentialID i) (utc_day (Now i)) < MaxTransactionsPerDay i;
  fc_usage : usage s' = <[(CredentialID i, utc_day (Now i)) := used s (CredentialID i) (utc_day (Now i)) + 1]> (usage s);
  fc_row : ∃ date resp, parseTransactionDate (req_date req) (req_time req) = Ok date ∧ add_post req date (ai_ledger s) resp (ai_ledger s') ∧
    ar_id r = resp_id resp ∧ ar_account r = resp_account resp ∧ ar_date r = resp_date resp;
  fc_labels : req_new_tag_paths req = [] → labelled (tx_seq (ai_ledger s) + 1) (req_tags req) (ai_ledger s) (ai_ledger s')
}.

Definition replayed (i : AITransactionIdentity) (s : aidb) (r : AITransactionResult) (s' : aidb) : Prop :=
  s' = s ∧ ∃ c, idempotency s !! key_of i = Some (IdemRow (RequestSHA256 i) (Some (ar_id r, ar_account r, ar_date r)) c).

Lemma wp_on_ledger {A} (m : op A) (Q : A → aidb → Prop) s :
  wp m (λ a db, Q a (AIDB db (idempotency s) (usage s))) (ai_ledger s) → wp (on_ledger m) Q s.
Proof. unfold wp, on_ledger. by destruct (m (ai_ledger s)) as [[]?]. Qed.

Lemma labelled_same n ids db db1 db2 : tags db2 = tags db1 → transaction_tags db2 = transaction_tags db1 → labelled n ids db db1 → labelled n ids db db2.
Proof. intros E1 E2 [H1 H2]. split; [congruence|]. intros p. rewrite E2. apply H2. Qed.
Lemma wp_and {S E A} (m : stm S E A) (P Q : A → S → Prop) s : wp m P s → wp m Q s → wp m (λ a s', P a s' ∧ Q a s') s.
Proof. unfold wp. destruct (m s) as [[]?]; auto. Qed.
Lemma update_balances_labels n ids updates db0 db : labelled n ids db0 db → wp (apply_updates updates) (λ _, labelled n ids db0) db.
Proof.
  intros H. apply (wp_for_each (labelled n ids db0)); [done|]. intros u db1 _ H1. unfold update_balance. wp_auto. by eapply labelled_same; [..|exact H1].
Qed.
Lemma images_labels n ids t imgs db0 db : labelled n ids db0 db → wp (insertPreparedTransactionImages now t imgs) (λ _, labelled n ids db0) db.
Proof.
  intros H. unfold insertPreparedTransactionImages. wp_step; [by wp_step|]. wp_step. eapply wp_mono; [apply checkImageStorageQuota_wp|]. intros _ ? ->.
  apply (wp_for_each (labelled n ids db0)); [done|]. intros i db1 _ H1. unfold insertPreparedTransactionImage, next_id. wp_auto. by eapply labelled_same; [..|exact H1].
Qed.
Lemma tags_labels n ids db0 db : labelled n ids db0 db → wp (for_each (insert_transaction_tag n) ids) (λ _, labelled n ids db0) db.
Proof.
  intros H. apply (wp_for_each (labelled n ids db0)); [done|]. intros g db1 Hg [H1 H2]. unfold insert_transaction_tag. wp_auto. split; [exact H1|].
  intros p. cbn. rewrite elem_of_union, elem_of_singleton. intros [->|Hp]; [by right|by apply H2].
Qed.
Lemma add_labels req date imgs db :
  wp (addPreparedTransactionIn now (PreparedInsert req date imgs)) (λ _ db', req_new_tag_paths req = [] → labelled (tx_seq db + 1) (req_tags req) db db') db.
Proof.
  destruct (decide (req_new_tag_paths req = [])) as [Hnew|]; [|apply wp_intro; naive_solver].
  unfold addPreparedTransactionIn, resolveTransactionTagIDsIn, validateTagIDsIn. cbn [pt_request pt_date pt_images]. rewrite Hnew. cbn [create_paths].
  do 10 wp_step. rewrite app_nil_r. unfold insert_transaction, next_id. do 12 wp_step.
  eapply wp_mono; [apply (images_labels (tx_seq db + 1) (req_tags req) _ _ db); split; [done|by left]|]. cbv beta. intros _ db2 H2. wp_step.
  eapply wp_mono; [by apply (tags_labels _ _ db)|]. cbv beta. intros _ db3 H3. unfold recalculateBalanceIn. do 5 wp_step.
  eapply wp_mono; [by apply (update_balances_labels (tx_seq db + 1) (req_tags req) _ db)|]. cbv beta. intros _ db4 Hl4. unfold read_back, select_transaction. by wp_auto.
Qed.

Lemma prepare_run req s :
  (∃ date imgs, parseTransactionDate (req_date req) (req_time req) = Ok date ∧ on_ledger (prepareTransactionInsert DecodeConfig Decode req) s = (Ok (PreparedInsert req date imgs), s)) ∨
  (∃ e, on_ledger (prepareTransactionInsert DecodeConfig Decode req) s = (Err e, s)).
Proof.
  unfold on_ledger, prepareTransactionInsert, prepare_parts, mbind, stm_bind, liftd, lifti, lift.
  destruct s as [db im us]. cbn [ai_ledger idempotency usage].
  destruct (parseTransactionDate (req_date req) (req_time req)) as [date|?] eqn:Hd; [|by right; eexists].
  destruct (validateTransactionData req) as [u|?]; [|by right; eexists].
  destruct (prepareTransactionImages _ _ _) as [imgs|?]; [|by right; eexists]. left. eauto.
Qed.

Ltac wp_hook ::=
  lazymatch goal with
  | |- wp (claimAIIdempotency _ _) _ _ => unfold claimAIIdempotency
  | |- wp (consumeAIDailyQuota _ _) _ _ => unfold consumeAIDailyQuota
  | |- wp (store_response _ _) _ _ => unfold store_response
  end.

Lemma quota_wp i t s :
  0 < MaxTransactionsPerDay i →
  wp (consumeAIDailyQuota i t) (λ _ s', used s (CredentialID i) (utc_day t) < MaxTransactionsPerDay i ∧
    s' = set_usage (<[(CredentialID i, utc_day t) := used s (CredentialID i) (utc_day t) + 1]> (usage s)) s) s.
Proof.
  intros Hm. unfold used, consumeAIDailyQuota. do 2 wp_step.
  destruct (usage s !! _) as [n|]; cbn [default]; wp_auto; (split; [lia|done]).
Qed.

Lemma AddAITransaction_unchanged req i s e s' : AddAITransaction req i s = (Err e, s') → s' = s.
Proof.
  unfold AddAITransaction. unfold mbind at 1, stm_bind at 1, require, lift, ensure. destruct (negb _); [|congruence].
  unfold mbind at 1, stm_bind at 1.
  destruct (prepare_run req s) as [(date & imgs & _ & ->)|(e' & ->)]; [apply transactional_rollback|congruence].
Qed.

Lemma AddAITransaction_wp req i s :
  ledger_wf (ai_ledger s) →
  wp (AddAITransaction req i) (λ r s', if Replayed r then replayed i s r s' else fresh_create req i s r s') s.
Proof.
  intros Hwf. unfold AddAITransaction. do 2 wp_step. split_bools. wp_step.
  destruct (prepare_run req s) as [(date & imgs & Hdate & Hrun)|(e & Hrun)]; apply wp_intro; intros p s1; rewrite Hrun; [|done].
  intros [= <- <-]. do 5 wp_step. destruct (idempotency s !! key_of i) as [[h resp c]|] eqn:Hkey.
  - do 2 wp_step. split_bools. cbn in *. subst h. destruct resp as [[[n acc] dt]|]; [|done].
    wp_auto. split; [done|]. by exists c.
  - do 6 wp_step. apply orb_false_iff in H as [[_ Hmax]%orb_false_iff _].
    set (s1 := set_idempotency _ s). eapply wp_mono; [by apply (quota_wp i (Now i) s1); lia|].
    change (used s1) with (used s). change (usage s1) with (usage s).
    intros _ s2 [Hq ->]. wp_step. apply wp_on_ledger. eapply wp_mono; [apply wp_and; [by apply addPreparedTransactionIn_wp|apply add_labels]|].
    intros resp db' [Hpost Hlab]. wp_step. do 3 wp_step. subst s1. cbn [set_idempotency set_usage idempotency usage ai_ledger].
    rewrite lookup_insert_eq. wp_auto. cbn [Replayed]. split; cbn [set_idempotency set_usage idempotency usage ai_ledger ar_id ar_account ar_date]; try done.
    + by rewrite insert_insert_eq.
    + by exists date, resp.
Qed.
End AI.

(** * Sequences of calls *)
Inductive ai_call :=
| AILedger (t : Z) (c : ledger_call)
| AIAdd (t : Z) (req : TransactionRequest) (i : AITransactionIdentity).

Section Sequences.
Context (DecodeConfig Decode : list Z → option (Z * Z * string)).

Definition run_ai (s : aidb) (c : ai_call) : aidb :=
  match c with
  | AILedger t c => AIDB (run_ledger_call DecodeConfig Decode (ai_ledger s) (t, c)) (idempotency s) (usage s)
  | AIAdd t req i => (AddAITransaction DecodeConfig Decode t req i s).2
  end.

(** The credential and day a call created a row for. *)
Definition created_by (s : aidb) (c : ai_call) : option (string * Z) :=
  match c with
  | AILedger _ _ => None
  | AIAdd t req i =>
    match (AddAITransaction DecodeConfig Decode t req i s).1 with
    | Ok r => if Replayed r then None else Some (CredentialID i, utc_day (Now i))
    | Err _ => None
    end
  end.
Fixpoint creations (x : string * Z) (calls : list ai_call) (s : aidb) : Z :=
  match calls with
  | [] => 0
  | c :: calls' => (if bool_decide (created_by s c = Some x) then 1 else 0) + creations x calls' (run_ai s c)
  end.

Lemma run_ai_cases t req i s :
  ledger_wf (ai_ledger s) →
  (∃ e, AddAITransaction DecodeConfig Decode t req i s = (Err e, s)) ∨
  (∃ r, AddAITransaction DecodeConfig Decode t req i s = (Ok r, s) ∧ Replayed r = true ∧ replayed i s r s) ∨
  (∃ r s', AddAITransaction DecodeConfig Decode t req i s = (Ok r, s') ∧ Replayed r = false ∧ fresh_create req i s r s').
Proof.
  intros Hwf. pose proof (AddAITransaction_wp DecodeConfig Decode t req i s Hwf) as Hw. unfold wp in Hw.
  destruct (AddAITransaction DecodeConfig Decode t req i s) as [[r|e] s'] eqn:Hrun.
  - destruct (Replayed r) eqn:Hr.
    + right. left. destruct Hw as [-> Hw]. exists r. by split_and!.
    + right. right. by exists r, s'.
  - left. exists e. by rewrite (AddAITransaction_unchanged _ _ _ _ _ _ _ _ Hrun).
Qed.

Lemma run_ai_wf s c : ledger_wf (ai_ledger s) → ledger_wf (ai_ledger (run_ai s c)).
Proof.
  intros Hwf. destruct c as [t c|t req i]; cbn [run_ai]; [by apply run_ledger_call_wf|].
  destruct (run_ai_cases t req i s Hwf) as [(e & ->)|[(r & -> & _)|(r & s' & -> & _ & Hf)]]; cbn; [done..|].
  by destruct (fc_row _ _ _ _ _ Hf) as (date & resp & _ & [? _] & _).
Qed.






Lemma used_step s c x :
  ledger_wf (ai_ledger s) →
  used (run_ai s c) x.1 x.2 = used s x.1 x.2 + (if bool_decide (created_by s c = Some x) then 1 else 0) ∧
  (created_by s c = Some x → ∃ t req i, c = AIAdd t req i ∧ CredentialID i = x.1 ∧ used s x.1 x.2 < MaxTransactionsPerDay i).
Proof.
  intros Hwf. destruct c as [t c|t req i]; cbn [run_ai created_by]; [by rewrite bool_decide_eq_false_2, Z.add_0_r|].
  destruct (run_ai_cases t req i s Hwf) as [(e & ->)|[(r & -> & Hr & _)|(r & s' & -> & Hr & Hf)]]; cbn [fst snd].
  - by rewrite bool_decide_eq_false_2, Z.add_0_r.
  - by rewrite Hr, bool_decide_eq_false_2, Z.add_0_r.
  - rewrite Hr. unfold used at 1. rewrite (fc_usage _ _ _ _ _ Hf). destruct x as [c d]. cbn [fst snd].
    case_bool_decide as E.
    + injection E as <- <-. rewrite lookup_insert_eq. split; [done|]. intros _. exists t, req, i.
      split; [done|]. split; [done|]. exact (fc_quota _ _ _ _ _ Hf).
    + rewrite lookup_insert_ne by congruence. split; [unfold used; lia|done].
Qed.

(** The daily quota: whatever is called in whatever order, a credential whose
    calls carry a limit of at most [n] never gets more than [n] rows on one UTC
    day, replays and failures not counted. *)
Theorem ai_daily_quota calls s c d n :
  ledger_wf (ai_ledger s) → used s c d <= n →
  Forall (λ x, ∀ t req i, x = AIAdd t req i → CredentialID i = c → MaxTransactionsPerDay i <= n) calls →
  creations (c, d) calls s <= n - used s c d.
Proof.
  revert s. induction calls as [|x calls IH]; intros s Hwf Hu Hall; cbn [creations]; [lia|].
  apply Forall_cons in Hall as [Hx Hall]. destruct (used_step s x (c, d) Hwf) as [Hstep Hlim]. cbn [fst snd] in *.
  specialize (IH (run_ai s x) (run_ai_wf _ _ Hwf)). rewrite Hstep in IH. case_bool_decide as E.
  - destruct (Hlim E) as (t & req & i & -> & Hc & Hlt). specialize (Hx t req i eq_refl Hc). specialize (IH ltac:(lia) Hall). lia.
  - specialize (IH ltac:(lia) Hall). lia.
Qed.
End Sequences.

(** * Witnesses *)
Definition empty_ai : aidb := AIDB empty_ledger ∅ ∅.
Definition demo_identity (k h : Z) : AITransactionIdentity :=
  Identity "cred" (replicate 32 k) (replicate 32 h) 1 (1700000000 * second).
Definition demo_ai_req : TransactionRequest := demo_add "bank" "2024-05-02" "salary" "income" 1000.
Abbreviation demo_ai := (AddAITransaction demo_decoder demo_decoder 5 demo_ai_req).


(** With a limit of one, the second key of the day is refused and the first replays. *)
Definition demo_ai_calls : list ai_call :=
  [AIAdd 5 demo_ai_req (demo_identity 1 2); AIAdd 6 demo_ai_req (demo_identity 3 4); AIAdd 7 demo_ai_req (demo_identity 1 2)].

Lemma ai_daily_quota_witness :
  creations demo_decoder demo_decoder ("cred", utc_day (1700000000 * second)) demo_ai_calls empty_ai = 1 ∧
  creations demo_decoder demo_decoder ("cred", utc_day (1700000000 * second)) demo_ai_calls empty_ai <= 1.
Proof.
  split; [vm_compute; reflexivity|].
  apply (ai_daily_quota demo_decoder demo_decoder demo_ai_calls empty_ai "cred" (utc_day (1700000000 * second)) 1 ledger_wf_empty).
  - vm_compute. discriminate.
  - repeat constructor; intros t req i [= <- <- <-] _; vm_compute; discriminate.
Defined.
