(* ===== verification/Vault.v ===== *)
(** The lifecycle of per-user vaults ([vault/manager.go]): reservation, opening,
    reference counting, draining, automatic retirement, restore and closing.

    Every critical section of [Manager.mu] is one definition; a step of the system
    is one critical section (or one call of the opener or of [Instance.Close]) of
    any goroutine, so a run is an interleaving of sections. A wait on a channel may
    end at any time here: the sections re-check what they need, as in the source.

    The nullable fields [ready], [instance], [openErr] and [closing] of an entry are
    set together, so they are one [phase]; the goroutine that opens an entry and the
    one that closes it are unique and their progress is part of the phase. *)
From Stdlib Require Import ZArith Lia.
From stdpp Require Import base gmap list strings sorting.
From S2P Require Import Prelude GoText.
Open Scope Z_scope.

Inductive verror := ErrClosed | ErrDraining | ErrRestoreInFlight | ErrBindingMismatch | ErrInvalidIdentity | ErrLeaseReleased | EOpen.

(** [Opening oi]: [ready] is set; [oi] is the instance the opener returned.
    [Open i]: [instance] is set. [Failed]: [openErr] is set.
    [Closing oi]: [closing] is open, the instance is being closed until [oi] is gone.
    [Closed]: [closing] is closed. *)
Inductive phase := Opening (oi : option nat) | Open (i : nat) | Failed | Closing (oi : option nat) | Closed.

Record entry := Entry {
  e_user : string;
  e_vault : string;
  e_key : list Z;
  e_fingerprint : list Z;
  e_phase : phase;
  e_references : Z;
  e_roots : Z;
  e_draining : bool;
  e_auto : bool;
  e_retired : option nat
}.

(** The key [e_key] the entry was reserved with and the arguments [l_vault], [l_key]
    of the call a lease comes from are not stored by the source. *)
Record lease := Lease { l_entry : nat; l_root : bool; l_released : bool; l_vault : string; l_key : list Z }.
(** A [RestoreOperation] before [waitForReferences] returned, after it, and while
    [RestoreSnapshotContext] of the instance runs. An operation belongs to one
    goroutine, so [Release] is not called while it runs. *)
Inductive rstage := RWaiting | RAlone | RRunning.
#[global] Instance rstage_eq_dec : EqDecision rstage.
Proof. solve_decision. Defined.
Record restoreop := RestoreOp { o_entry : nat; o_released : bool; o_stage : rstage }.
Record waiter := Waiter { w_entry : nat; w_vault : string; w_key : list Z }.

(** Where a run of [closeEntry] stands: before its first section, past it, or past
    the capture of [autoRetiring] and [retired]. *)
Inductive closer := CLook (p : nat) | CIdle (p : nat) | CCheck (p : nat) (auto : bool) (retired : option nat).

Record vstate := VState {
  heap : gmap nat entry;
  entries : gmap string nat;
  byVault : gmap string nat;
  mclosing : bool;
  leases : gmap nat lease;
  rops : gmap nat restoreop;
  waiters : gmap nat waiter;
  closers : gmap nat closer;
  fresh : nat
}.

Definition NewManager : vstate := VState ∅ ∅ ∅ false ∅ ∅ ∅ ∅ 0.

(** * Access *)
Definition ready (e : entry) : bool := match e_phase e with Opening _ => true | _ => false end.
Definition instance (e : entry) : option nat := match e_phase e with Open i => Some i | _ => None end.
Definition closing (e : entry) : bool := match e_phase e with Closing _ | Closed => true | _ => false end.
Definition openErr (e : entry) : bool := match e_phase e with Failed => true | _ => false end.
(** Some file handle of the vault is open. *)
Definition handle (e : entry) : option nat :=
  match e_phase e with Opening oi | Closing oi => oi | Open i => Some i | _ => None end.

Definition set_phase (ph : phase) (e : entry) : entry :=
  Entry (e_user e) (e_vault e) (e_key e) (e_fingerprint e) ph (e_references e) (e_roots e) (e_draining e) (e_auto e) (e_retired e).
Definition set_counts (n r : Z) (e : entry) : entry :=
  Entry (e_user e) (e_vault e) (e_key e) (e_fingerprint e) (e_phase e) n r (e_draining e) (e_auto e) (e_retired e).
Definition set_drain (d a : bool) (t : option nat) (e : entry) : entry :=
  Entry (e_user e) (e_vault e) (e_key e) (e_fingerprint e) (e_phase e) (e_references e) (e_roots e) d a t.
Definition clear_fingerprint (e : entry) : entry :=
  Entry (e_user e) (e_vault e) (e_key e) (replicate 32 0) (e_phase e) (e_references e) (e_roots e) (e_draining e) (e_auto e) (e_retired e).

Definition put (p : nat) (e : entry) (s : vstate) : vstate :=
  VState (<[p := e]> (heap s)) (entries s) (byVault s) (mclosing s) (leases s) (rops s) (waiters s) (closers s) (fresh s).
Definition set_maps (en bv : gmap string nat) (s : vstate) : vstate :=
  VState (heap s) en bv (mclosing s) (leases s) (rops s) (waiters s) (closers s) (fresh s).
Definition add_lease (l : lease) (s : vstate) : vstate :=
  VState (heap s) (entries s) (byVault s) (mclosing s) (<[fresh s := l]> (leases s)) (rops s) (waiters s) (closers s) (S (fresh s)).
Definition set_lease (n : nat) (l : lease) (s : vstate) : vstate :=
  VState (heap s) (entries s) (byVault s) (mclosing s) (<[n := l]> (leases s)) (rops s) (waiters s) (closers s) (fresh s).
Definition add_rop (o : restoreop) (s : vstate) : vstate :=
  VState (heap s) (entries s) (byVault s) (mclosing s) (leases s) (<[fresh s := o]> (rops s)) (waiters s) (closers s) (S (fresh s)).
Definition set_rop (n : nat) (o : restoreop) (s : vstate) : vstate :=
  VState (heap s) (entries s) (byVault s) (mclosing s) (leases s) (<[n := o]> (rops s)) (waiters s) (closers s) (fresh s).
Definition add_waiter (w : waiter) (s : vstate) : vstate :=
  VState (heap s) (entries s) (byVault s) (mclosing s) (leases s) (rops s) (<[fresh s := w]> (waiters s)) (closers s) (S (fresh s)).
Definition drop_waiter (n : nat) (s : vstate) : vstate :=
  VState (heap s) (entries s) (byVault s) (mclosing s) (leases s) (rops s) (delete n (waiters s)) (closers s) (fresh s).
Definition add_closer (c : closer) (s : vstate) : vstate :=
  VState (heap s) (entries s) (byVault s) (mclosing s) (leases s) (rops s) (waiters s) (<[fresh s := c]> (closers s)) (S (fresh s)).
Definition set_closer (n : nat) (c : closer) (s : vstate) : vstate :=
  VState (heap s) (entries s) (byVault s) (mclosing s) (leases s) (rops s) (waiters s) (<[n := c]> (closers s)) (fresh s).
Definition drop_closer (n : nat) (s : vstate) : vstate :=
  VState (heap s) (entries s) (byVault s) (mclosing s) (leases s) (rops s) (waiters s) (delete n (closers s)) (fresh s).
Definition set_mclosing (s : vstate) : vstate :=
  VState (heap s) (entries s) (byVault s) true (leases s) (rops s) (waiters s) (closers s) (fresh s).

(** [m.entries[e.userID] == e] *)
Definition current (s : vstate) (p : nat) (e : entry) : bool := bool_decide (entries s !! e_user e = Some p).

Definition addReferenceLocked (root : bool) (e : entry) : entry :=
  set_counts (e_references e + 1) (if root then e_roots e + 1 else e_roots e) e.

(** * Identities *)
Definition validateUserID (v : string) : res verror unit :=
  if bool_decide (v = "") || negb (bool_decide (TrimSpace v = v)) || (len v >? 128) then Err ErrInvalidIdentity
  else if existsb IsControl (runes v) then Err ErrInvalidIdentity else Ok tt.

Definition vault_rune (c : Z) : bool := between 97 122 c || between 65 90 c || between 48 57 c || (c =? 45) || (c =? 95).
Definition validateVaultID (v : string) : res verror unit :=
  if (len v <? 16) || (len v >? 128) then Err ErrInvalidIdentity
  else if forallb vault_rune (runes v) then Ok tt else Err ErrInvalidIdentity.

(** * Sections *)
Section Manager.
Context (Sum256 : list Z → list Z).

Inductive acquired := AErr (e : verror) | ALease (l : nat) | AWait (w : nat) | ARetry | AOpening (p : nat).

(** The reference of a new lease on entry [p]. *)
Definition grant (p : nat) (e : entry) (root : bool) (v : string) (k : list Z) (s : vstate) : acquired * vstate :=
  (ALease (fresh s), add_lease (Lease p root false v k) (put p (addReferenceLocked root e) s)).

Definition unretire (e : entry) : entry := if e_auto e then set_drain false false None e else e.

(** One turn of the loop of [Acquire]. *)
Definition Acquire (u v : string) (k : list Z) (s : vstate) : acquired * vstate :=
  match validateUserID u, validateVaultID v with
  | Err e, _ | _, Err e => (AErr e, s)
  | Ok _, Ok _ =>
    if mclosing s then (AErr ErrClosed, s)
    else match entries s !! u ≫= λ p, (p,.) <$> heap s !! p with
         | Some (p, e) =>
           if e_draining e && negb (e_auto e) then (AErr ErrDraining, s)
           else if negb (bool_decide (e_vault e = v ∧ e_fingerprint e = Sum256 k)) then (AErr ErrBindingMismatch, s)
           else if e_auto e && closing e then (ARetry, s)
           else if ready e then (AWait (fresh s), add_waiter (Waiter p v k) (put p (unretire e) s))
           else match instance e with
                | None => (AErr ErrDraining, put p (unretire e) s)
                | Some _ => grant p (unretire e) true v k s
                end
         | None =>
           if match byVault s !! v ≫= λ p, heap s !! p with Some e => negb (bool_decide (e_user e = u)) | None => false end
           then (AErr ErrBindingMismatch, s)
           else
             let p := fresh s in
             (AOpening p,
              VState (<[p := Entry u v k (Sum256 k) (Opening None) 0 0 false false None]> (heap s))
                (<[u := p]> (entries s)) (<[v := p]> (byVault s)) (mclosing s) (leases s) (rops s) (waiters s) (closers s) (S p))
         end
  end.

(** The section of [Acquire] after [<-ready]. *)
Definition acquire_ready (n : nat) (s : vstate) : option (acquired * vstate) :=
  w ← waiters s !! n;
  e ← heap s !! w_entry w;
  let s' := drop_waiter n s in
  if ready e then None
  else Some (
    if openErr e then (AErr EOpen, s')
    else if mclosing s then (AErr ErrClosed, s')
    else if e_draining e || negb (current s (w_entry w) e) || bool_decide (instance e = None) then (AErr ErrDraining, s')
    else grant (w_entry w) e true (w_vault w) (w_key w) s').

(** The opener returns an instance; a path that fails validation closes it again. *)
Definition open_returns (p : nat) (s : vstate) : option vstate :=
  e ← heap s !! p;
  match e_phase e with Opening None => Some (put p (set_phase (Opening (Some (fresh s))) e)
    (VState (heap s) (entries s) (byVault s) (mclosing s) (leases s) (rops s) (waiters s) (closers s) (S (fresh s))))
  | _ => None end.
Definition open_rejected (p : nat) (s : vstate) : option vstate :=
  e ← heap s !! p;
  match e_phase e with Opening (Some _) => Some (put p (set_phase (Opening None) e) s) | _ => None end.

Definition unlink (p : nat) (e : entry) (s : vstate) : vstate :=
  set_maps (if bool_decide (entries s !! e_user e = Some p) then delete (e_user e) (entries s) else entries s)
    (if bool_decide (byVault s !! e_vault e = Some p) then delete (e_vault e) (byVault s) else byVault s) s.

(** [finishOpening] of the instance the opener holds, or of an error. *)
Definition finishOpening (p : nat) (s : vstate) : option (acquired * vstate) :=
  e ← heap s !! p;
  match e_phase e with
  | Opening oi =>
    let terminal := e_draining e || mclosing s in
    Some match oi with
    | None =>
      let s1 := if terminal then s else unlink p e s in
      let s2 := put p (clear_fingerprint (set_phase Failed e)) s1 in
      (AErr EOpen, if terminal then add_closer (CLook p) s2 else s2)
    | Some i =>
      let e' := set_phase (Open i) e in
      if mclosing s then (AErr ErrClosed, add_closer (CLook p) (put p e' s))
      else if e_draining e then (AErr ErrDraining, add_closer (CLook p) (put p e' s))
      else grant p e' true (e_vault e) (e_key e) s
    end
  | _ => None
  end.

(** [Borrow], [BeginRestore] and [ValidateSessionRoot] of a lease. *)
Definition lease_root (n : nat) (s : vstate) : res verror (lease * entry) :=
  match leases s !! n with
  | Some l =>
    if l_released l || negb (l_root l) then Err ErrLeaseReleased
    else match heap s !! l_entry l with
         | Some e => if mclosing s then Err ErrClosed else Ok (l, e)
         | None => Err ErrLeaseReleased
         end
  | None => Err ErrLeaseReleased
  end.

Definition usable (s : vstate) (p : nat) (e : entry) : bool :=
  current s p e && negb (e_draining e) && negb (ready e) && negb (bool_decide (instance e = None)).

Definition ValidateSessionRoot (n : nat) (s : vstate) : res verror unit :=
  lease_root n s ≫= λ '(l, e), if usable s (l_entry l) e then Ok tt else Err ErrDraining.

Definition Borrow (n : nat) (s : vstate) : acquired * vstate :=
  match lease_root n s with
  | Err e => (AErr e, s)
  | Ok (l, e) => if usable s (l_entry l) e then grant (l_entry l) e false (l_vault l) (l_key l) s else (AErr ErrDraining, s)
  end.

Definition BeginRestore (n : nat) (s : vstate) : res verror nat * vstate :=
  match lease_root n s with
  | Err e => (Err e, s)
  | Ok (l, e) =>
    if negb (current s (l_entry l) e) || ready e || bool_decide (instance e = None) then (Err ErrDraining, s)
    else if e_draining e then (Err ErrRestoreInFlight, s)
    else (Ok (fresh s),
          add_rop (RestoreOp (l_entry l) false RWaiting)
            (put (l_entry l) (addReferenceLocked false (set_drain true (e_auto e) (e_retired e) e)) s))
  end.

(** [waitForReferences] returns nil; the section of [RestoreSnapshot] after it; the
    restore returns. *)
Definition waitForReferences (n : nat) (s : vstate) : option vstate :=
  o ← rops s !! n;
  e ← heap s !! o_entry o;
  if o_released o || negb (bool_decide (o_stage o = RWaiting)) then None
  else if current s (o_entry o) e && (e_references e <=? 1) && negb (ready e) && negb (closing e)
  then Some (set_rop n (RestoreOp (o_entry o) false RAlone) s) else None.
Definition RestoreSnapshot (n : nat) (s : vstate) : option vstate :=
  o ← rops s !! n;
  e ← heap s !! o_entry o;
  if o_released o || negb (bool_decide (o_stage o = RAlone)) then None
  else if negb (current s (o_entry o) e) || bool_decide (instance e = None) then None
  else Some (set_rop n (RestoreOp (o_entry o) false RRunning) s).
Definition restore_returns (n : nat) (s : vstate) : option vstate :=
  o ← rops s !! n;
  if bool_decide (o_stage o = RRunning) then Some (set_rop n (RestoreOp (o_entry o) (o_released o) RAlone) s) else None.

(** The last reference of a draining entry starts a [closeEntry]. *)
Definition after_release (p : nat) (e : entry) (s : vstate) : vstate :=
  if (e_references e =? 0) && e_draining e then add_closer (CLook p) (put p e s) else put p e s.

Definition RestoreOperation_Release (n : nat) (s : vstate) : vstate :=
  match rops s !! n with
  | Some o =>
    if o_released o || bool_decide (o_stage o = RRunning) then s
    else
      let s' := set_rop n (RestoreOp (o_entry o) true RWaiting) s in
      match heap s !! o_entry o with
      | Some e =>
        if current s (o_entry o) e && (0 <? e_references e) then after_release (o_entry o) (set_counts (e_references e - 1) (e_roots e) e) s'
        else s'
      | None => s'
      end
  | None => s
  end.

(** The last root of a live entry retires it. *)
Definition drop_root (t : nat) (e : entry) : entry :=
  if 0 <? e_roots e then
    let e' := set_counts (e_references e) (e_roots e - 1) e in
    if (e_roots e' =? 0) && negb (e_draining e) then set_drain true true (Some t) e' else e'
  else e.

Definition Release (n : nat) (s : vstate) : vstate :=
  match leases s !! n with
  | Some l =>
    if l_released l then s
    else
      let s' := set_lease n (Lease (l_entry l) (l_root l) true (l_vault l) (l_key l)) s in
      match heap s !! l_entry l with
      | Some e =>
        if current s (l_entry l) e && (0 <? e_references e) then
          let e1 := set_counts (e_references e - 1) (e_roots e) e in
          after_release (l_entry l) (if l_root l then drop_root (fresh s) e1 else e1)
            (VState (heap s') (entries s') (byVault s') (mclosing s') (leases s') (rops s') (waiters s') (closers s') (S (fresh s')))
        else s'
      | None => s'
      end
  | None => s
  end.

(** [BeginUserDrain]; the waiter it returns runs [closeEntry]. *)
Definition BeginUserDrain (u : string) (s : vstate) : res verror unit * vstate :=
  match validateUserID u with
  | Err e => (Err e, s)
  | Ok _ =>
    (Ok tt,
     match entries s !! u ≫= λ p, (p,.) <$> heap s !! p with
     | Some (p, e) => put p (set_drain true false (e_retired e) e) s
     | None => s
     end)
  end.

Definition drain_all (s : vstate) (m : gmap nat entry) : gmap nat entry :=
  map_imap (λ p e, Some (if current s p e then set_drain true false (e_retired e) e else e)) m.

(** The section of [Close]; it then runs [closeEntry] on every entry. *)
Definition Close (s : vstate) : vstate :=
  VState (drain_all s (heap s)) (entries s) (byVault s) true (leases s) (rops s) (waiters s) (closers s) (fresh s).

(** ** [closeEntry]: a call, its sections, and its cancellation while it waits *)
Definition closeEntry (p : nat) (s : vstate) : vstate := add_closer (CLook p) s.
Definition close_cancelled (n : nat) (s : vstate) : vstate := drop_closer n s.

Definition close_look (n : nat) (s : vstate) : option vstate :=
  c ← closers s !! n;
  match c with
  | CLook p =>
    e ← heap s !! p;
    Some (if negb (current s p e) || negb (e_draining e) || closing e then drop_closer n s
          else if ready e then s else set_closer n (CIdle p) s)
  | _ => None
  end.

Definition close_capture (n : nat) (s : vstate) : option vstate :=
  c ← closers s !! n;
  match c with
  | CIdle p =>
    e ← heap s !! p;
    Some (set_closer n (CCheck p (e_auto e && (e_references e =? 0) && negb (closing e)) (e_retired e)) s)
  | _ => None
  end.

Definition close_start (n : nat) (s : vstate) : option vstate :=
  c ← closers s !! n;
  match c with
  | CCheck p auto retired =>
    e ← heap s !! p;
    Some (if auto && (negb (bool_decide (e_retired e = retired)) || negb (e_auto e)) then drop_closer n s
          else if negb (current s p e) || negb (e_draining e) || ready e || negb (e_references e =? 0) || closing e
          then set_closer n (CLook p) s
          else drop_closer n (put p (set_phase (Closing (instance e)) e) s))
  | _ => None
  end.

(** [instance.Close()] and the last section. *)
Definition instance_closed (p : nat) (s : vstate) : option vstate :=
  e ← heap s !! p;
  match e_phase e with Closing (Some _) => Some (put p (set_phase (Closing None) e) s) | _ => None end.
Definition close_done (p : nat) (s : vstate) : option vstate :=
  e ← heap s !! p;
  match e_phase e with
  | Closing None => Some (put p (clear_fingerprint (set_drain (e_draining e) (e_auto e) None (set_phase Closed e))) (unlink p e s))
  | _ => None
  end.

(** * Runs *)
Inductive vstep : vstate → vstate → Prop :=
| vs_acquire u v k s : vstep s (Acquire u v k s).2
| vs_ready n s r : acquire_ready n s = Some r → vstep s r.2
| vs_open p s s' : open_returns p s = Some s' → vstep s s'
| vs_reject p s s' : open_rejected p s = Some s' → vstep s s'
| vs_finish p s r : finishOpening p s = Some r → vstep s r.2
| vs_borrow n s : vstep s (Borrow n s).2
| vs_restore n s : vstep s (BeginRestore n s).2
| vs_alone n s s' : waitForReferences n s = Some s' → vstep s s'
| vs_restore_starts n s s' : RestoreSnapshot n s = Some s' → vstep s s'
| vs_restore_returns n s s' : restore_returns n s = Some s' → vstep s s'
| vs_restore_release n s : vstep s (RestoreOperation_Release n s)
| vs_release n s : vstep s (Release n s)
| vs_drain u s : vstep s (BeginUserDrain u s).2
| vs_close s : vstep s (Close s)
| vs_call p s : is_Some (heap s !! p) → vstep s (closeEntry p s)
| vs_cancel n s : vstep s (close_cancelled n s)
| vs_look n s s' : close_look n s = Some s' → vstep s s'
| vs_capture n s s' : close_capture n s = Some s' → vstep s s'
| vs_start n s s' : close_start n s = Some s' → vstep s s'
| vs_instance p s s' : instance_closed p s = Some s' → vstep s s'
| vs_done p s s' : close_done p s = Some s' → vstep s s'.

(** * The invariant *)
Definition on_lease (p : nat) (x : nat * lease) : Prop := l_entry x.2 = p ∧ l_released x.2 = false.
Definition on_root (p : nat) (x : nat * lease) : Prop := l_entry x.2 = p ∧ l_released x.2 = false ∧ l_root x.2 = true.
Definition on_rop (p : nat) (x : nat * restoreop) : Prop := o_entry x.2 = p ∧ o_released x.2 = false.
#[local] Instance on_lease_dec p x : Decision (on_lease p x). Proof. unfold on_lease. apply _. Defined.
#[local] Instance on_root_dec p x : Decision (on_root p x). Proof. unfold on_root. apply _. Defined.
#[local] Instance on_rop_dec p x : Decision (on_rop p x). Proof. unfold on_rop. apply _. Defined.

Definition held_leases (m : gmap nat lease) (p : nat) : Z := Z.of_nat (size (filter (on_lease p) m)).
Definition held_roots (m : gmap nat lease) (p : nat) : Z := Z.of_nat (size (filter (on_root p) m)).
Definition held_rops (m : gmap nat restoreop) (p : nat) : Z := Z.of_nat (size (filter (on_rop p) m)).
Definition held (s : vstate) (p : nat) : Z := held_leases (leases s) p + held_rops (rops s) p.

Definition is_current (s : vstate) (p : nat) (e : entry) : Prop := entries s !! e_user e = Some p.
Definition removed (e : entry) : Prop := e_phase e = Failed ∨ e_phase e = Closed.
Definition gone (e : entry) : Prop := (e_phase e = Failed ∨ e_phase e = Closing None) ∨ e_phase e = Closed.

(** What holds of one entry. *)
Record entry_inv (s : vstate) (p : nat) (e : entry) : Prop := {
  ei_counts : is_current s p e → e_references e = held s p ∧ e_roots e = held_roots (leases s) p;
  ei_gone : ¬ is_current s p e → removed e ∧ held s p = 0;
  ei_live : is_current s p e → e_phase e ≠ Closed;
  ei_held : 0 < held s p → is_Some (instance e);
  ei_key : ¬ gone e → e_fingerprint e = Sum256 (e_key e);
  ei_auto : e_auto e = true → e_draining e = true
}.

Record vinv (s : vstate) : Prop := {
  vi_entries : ∀ u p, entries s !! u = Some p → ∃ e, heap s !! p = Some e ∧ e_user e = u ∧ byVault s !! e_vault e = Some p;
  vi_byVault : ∀ v p, byVault s !! v = Some p → ∃ e, heap s !! p = Some e ∧ e_vault e = v ∧ entries s !! e_user e = Some p;
  vi_heap : ∀ p e, heap s !! p = Some e → entry_inv s p e;
  vi_lease : ∀ n l, leases s !! n = Some l → ∃ e, heap s !! l_entry l = Some e ∧
    (l_released l = false → e_vault e = l_vault l ∧ Sum256 (l_key l) = Sum256 (e_key e));
  vi_rop : ∀ n o, rops s !! n = Some o → ∃ e, heap s !! o_entry o = Some e ∧
    (o_released o = false → e_draining e = true ∧ e_auto e = false) ∧
    (o_stage o ≠ RWaiting → o_released o = false ∧ held s (o_entry o) = 1);
  vi_waiter : ∀ n w, waiters s !! n = Some w → ∃ e, heap s !! w_entry w = Some e ∧
    e_vault e = w_vault w ∧ (¬ gone e → Sum256 (w_key w) = Sum256 (e_key e));
  vi_fresh : ∀ n, (fresh s <= n)%nat → heap s !! n = None ∧ leases s !! n = None ∧ rops s !! n = None ∧ waiters s !! n = None ∧ closers s !! n = None
}.

(** ** Counting leases and operations *)
Lemma held_leases_nonneg m p : 0 <= held_leases m p. Proof. unfold held_leases. lia. Qed.
Lemma held_rops_nonneg m p : 0 <= held_rops m p. Proof. unfold held_rops. lia. Qed.
Lemma held_lease_pos s n l : leases s !! n = Some l → l_released l = false → 0 < held_leases (leases s) (l_entry l).
Proof. intros Hl Hr. by apply (size_filter_pos _ _ n l). Qed.
Lemma held_root_pos s n l :
  leases s !! n = Some l → l_released l = false → l_root l = true → 0 < held_roots (leases s) (l_entry l).
Proof. intros Hl Hr Ht. by apply (size_filter_pos _ _ n l). Qed.
Lemma held_rop_pos s n o : rops s !! n = Some o → o_released o = false → 0 < held_rops (rops s) (o_entry o).
Proof. intros Hl Hr. by apply (size_filter_pos _ _ n o). Qed.
Lemma roots_le_leases m p : held_roots m p <= held_leases m p.
Proof.
  unfold held_roots, held_leases. apply inj_le, map_subseteq_size, map_subseteq_spec. intros n l [? (? & ? & ?)]%map_lookup_filter_Some.
  by apply map_lookup_filter_Some.
Qed.

(** ** Updates of one entry *)
Lemma heap_fresh s p e : vinv s → heap s !! p = Some e → (p < fresh s)%nat.
Proof. intros Hi Hp. destruct (decide (p < fresh s)%nat); [done|]. destruct (vi_fresh s Hi p) as (E & _); [lia|congruence]. Qed.

(** An operation that changes entry [p] and the leases and operations on it. *)
Lemma frame_inv s s' p e e' :
  vinv s → heap s !! p = Some e → e_user e' = e_user e → e_vault e' = e_vault e → e_key e' = e_key e →
  heap s' = <[p := e']> (heap s) → entries s' = entries s → byVault s' = byVault s → waiters s' = waiters s →
  (∀ q, q ≠ p → held s' q = held s q ∧ held_roots (leases s') q = held_roots (leases s) q) →
  entry_inv s' p e' → (¬ gone e' → ¬ gone e) →
  (∀ n l, leases s' !! n = Some l →
     leases s !! n = Some l ∨ l_entry l = p ∧ (l_released l = false → e_vault e = l_vault l ∧ Sum256 (l_key l) = Sum256 (e_key e))) →
  (∀ n o, rops s' !! n = Some o →
     rops s !! n = Some o ∧ o_entry o ≠ p ∨
     o_entry o = p ∧ (o_released o = false → e_draining e' = true ∧ e_auto e' = false) ∧
     (o_stage o ≠ RWaiting → o_released o = false ∧ held s' p = 1)) →
  (∀ n, (fresh s' <= n)%nat → (fresh s <= n)%nat ∧ leases s' !! n = None ∧ rops s' !! n = None ∧ closers s' !! n = None) →
  vinv s'.
Proof.
  intros Hi Hp Hu Hv Hk Eh Ee Eb Ew Hq He Hg Hl Ho Hf. pose proof (heap_fresh _ _ _ Hi Hp) as Hlt. destruct Hi as [H1 H2 H3 H4 H5 H6 H7].
  assert (∀ q f, heap s !! q = Some f → ∃ f', heap s' !! q = Some f' ∧ e_user f' = e_user f ∧ e_vault f' = e_vault f
            ∧ e_key f' = e_key f ∧ (¬ gone f' → ¬ gone f) ∧ (q ≠ p → f' = f)) as Hmap.
  { intros q f Hqf. rewrite Eh. destruct (decide (p = q)) as [->|].
    - simplify_eq. exists e'. rewrite lookup_insert_eq. by split_and!.
    - exists f. rewrite lookup_insert_ne by done. by split_and!. }
  split; rewrite ?Ee, ?Eb, ?Ew.
  - intros u q (f & Hqf & <- & ?)%H1. destruct (Hmap q f Hqf) as (f' & ? & ? & Hv' & _). exists f'. by rewrite Hv'.
  - intros v q (f & Hqf & <- & ?)%H2. destruct (Hmap q f Hqf) as (f' & ? & Hu' & ? & _). exists f'. by rewrite Hu'.
  - rewrite Eh. intros q f [[<- <-]|[? Hqf]]%lookup_insert_Some; [done|]. destruct (H3 q f Hqf), (Hq q) as [E1 E2]; [done|].
    unfold is_current in *. split; unfold is_current; rewrite ?Ee, ?E1, ?E2; done.
  - intros n l [Hn|[<- ?]]%Hl.
    + destruct (H4 n l Hn) as (f & Hqf & Hx). destruct (Hmap _ f Hqf) as (f' & ? & ? & Hv' & Hk' & _). exists f'. by rewrite Hv', Hk'.
    + destruct (Hmap _ e Hp) as (f' & ? & ? & Hv' & Hk' & _). exists f'. by rewrite Hv', Hk'.
  - intros n o [[Hn Hne]|(<- & Ha & Hb)]%Ho.
    + destruct (H5 n o Hn) as (f & Hqf & Ha & Hb). destruct (Hmap _ f Hqf) as (f' & ? & _ & _ & _ & _ & Hd'). exists f'.
      rewrite Hd' in * by done. split_and!; [done|done|]. by rewrite (proj1 (Hq _ Hne)).
    + exists e'. rewrite Eh, lookup_insert_eq. done.
  - intros n w (f & Hqf & ? & Hw)%H6. destruct (Hmap _ f Hqf) as (f' & ? & _ & Hv' & Hk' & Hg' & _). exists f'.
    rewrite Hv', Hk'. split_and!; auto.
  - intros n (Hn & ? & ? & ?)%Hf. destruct (H7 n Hn) as (? & ? & ? & ? & ?). split_and!; [|done..]. rewrite Eh, lookup_insert_ne; [done|lia].
Qed.

Lemma put_inv s p e e' :
  vinv s → heap s !! p = Some e → e_user e' = e_user e → e_vault e' = e_vault e → e_key e' = e_key e →
  entry_inv s p e' → (¬ gone e' → ¬ gone e) →
  (e_draining e = true → e_auto e = false → e_draining e' = true ∧ e_auto e' = false) →
  vinv (put p e' s).
Proof.
  intros Hi Hp Hu Hv Hk He Hg Hd. pose proof (heap_fresh _ _ _ Hi Hp) as Hlt. destruct Hi as [H1 H2 H3 H4 H5 H6 H7].
  assert (∀ q f, heap s !! q = Some f → ∃ f', <[p := e']> (heap s) !! q = Some f' ∧ e_user f' = e_user f ∧ e_vault f' = e_vault f
            ∧ e_key f' = e_key f ∧ (¬ gone f' → ¬ gone f) ∧
            (e_draining f = true → e_auto f = false → e_draining f' = true ∧ e_auto f' = false)) as Hmap.
  { intros q f Hq. destruct (decide (p = q)) as [->|].
    - simplify_eq. exists e'. by rewrite lookup_insert_eq.
    - exists f. rewrite lookup_insert_ne by done. by split_and!. }
  split; cbn.
  - intros u q (f & Hq & <- & ?)%H1. destruct (Hmap q f Hq) as (f' & ? & ? & Hv' & _). exists f'. by rewrite Hv'.
  - intros v q (f & Hq & <- & ?)%H2. destruct (Hmap q f Hq) as (f' & ? & Hu' & ? & _). exists f'. by rewrite Hu'.
  - intros q f [[<- <-]|[? ?]]%lookup_insert_Some; [by destruct He|by destruct (H3 q f)].
  - intros n l (f & Hq & Hl)%H4. destruct (Hmap _ f Hq) as (f' & ? & ? & Hv' & Hk' & _). exists f'. by rewrite Hv', Hk'.
  - intros n o (f & Hq & Ho & Hr)%H5. destruct (Hmap _ f Hq) as (f' & ? & _ & _ & _ & _ & Hd'). exists f'. split; [done|].
    split; [|done]. intros [? ?]%Ho. auto.
  - intros n w (f & Hq & ? & Hw)%H6. destruct (Hmap _ f Hq) as (f' & ? & _ & Hv' & Hk' & Hg' & _). exists f'.
    rewrite Hv', Hk'. split_and!; auto.
  - intros n Hn. rewrite lookup_insert_ne by lia. auto.
Qed.

Lemma put_put p e1 e2 s : put p e2 (put p e1 s) = put p e2 s.
Proof. unfold put. cbn. by rewrite insert_insert_eq. Qed.

(** Waiters and runs of [closeEntry] carry no reference. *)
Lemma drop_waiter_inv n s : vinv s → vinv (drop_waiter n s).
Proof.
  intros [H1 H2 H3 H4 H5 H6 H7]. split; cbn; try done.
  - intros p e Hp. by destruct (H3 p e Hp).
  - intros m w [_ ?]%lookup_delete_Some. eauto.
  - intros m Hm. destruct (H7 m Hm) as (? & ? & ? & ? & ?). split_and!; try done. apply lookup_delete_None. auto.
Qed.
Lemma add_waiter_inv w s :
  vinv s → (∃ e, heap s !! w_entry w = Some e ∧ e_vault e = w_vault w ∧ (¬ gone e → Sum256 (w_key w) = Sum256 (e_key e))) →
  vinv (add_waiter w s).
Proof.
  intros [H1 H2 H3 H4 H5 H6 H7] Hw. split; cbn; try done.
  - intros p e Hp. by destruct (H3 p e Hp).
  - intros m w' [[<- <-]|[_ ?]]%lookup_insert_Some; eauto.
  - intros m Hm. destruct (H7 m) as (? & ? & ? & ? & ?); [lia|]. rewrite lookup_insert_ne by lia. by split_and!.
Qed.
Lemma closers_inv cs f s :
  vinv s → (fresh s <= f)%nat → (∀ n, (f <= n)%nat → cs !! n = None) →
  vinv (VState (heap s) (entries s) (byVault s) (mclosing s) (leases s) (rops s) (waiters s) cs f).
Proof.
  intros [H1 H2 H3 H4 H5 H6 H7] Hf Hc. split; cbn; try done.
  - intros p e Hp. by destruct (H3 p e Hp).
  - intros m Hm. destruct (H7 m) as (? & ? & ? & ? & _); [lia|]. split_and!; auto.
Qed.
Lemma add_closer_inv c s : vinv s → vinv (add_closer c s).
Proof.
  intros Hi. apply (closers_inv _ _ s); [done|lia|]. intros n Hn. rewrite lookup_insert_ne by lia.
  by destruct (vi_fresh s Hi n) as (_ & _ & _ & _ & ?); [lia|].
Qed.
Lemma set_closer_inv n c s : vinv s → is_Some (closers s !! n) → vinv (set_closer n c s).
Proof.
  intros Hi [c' Hc]. apply (closers_inv _ _ s); [done|lia|]. intros m Hm. destruct (vi_fresh s Hi m Hm) as (_ & _ & _ & _ & E).
  rewrite lookup_insert_ne; [done|congruence].
Qed.
Lemma drop_closer_inv n s : vinv s → vinv (drop_closer n s).
Proof.
  intros Hi. apply (closers_inv _ _ s); [done|lia|]. intros m Hm. destruct (vi_fresh s Hi m Hm) as (_ & _ & _ & _ & E).
  apply lookup_delete_None. auto.
Qed.

(** ** References *)
Lemma no_rops s p e n o :
  vinv s → heap s !! p = Some e → ¬ (e_draining e = true ∧ e_auto e = false) → rops s !! n = Some o → o_entry o = p →
  o_released o = true ∧ o_stage o = RWaiting.
Proof.
  intros Hi Hp Hd Ho <-. destruct (vi_rop s Hi n o Ho) as (f & Hf & Ha & Hb). simplify_eq.
  destruct (o_released o) eqn:Er; [|naive_solver]. destruct (o_stage o); naive_solver.
Qed.

Lemma current_spec s p e : current s p e = true ↔ is_current s p e.
Proof. unfold current, is_current. apply bool_decide_eq_true. Qed.

Lemma fresh_lease s : vinv s → leases s !! fresh s = None.
Proof. intros Hi. by destruct (vi_fresh s Hi (fresh s)) as (_ & ? & _). Qed.
Lemma fresh_rop s : vinv s → rops s !! fresh s = None.
Proof. intros Hi. by destruct (vi_fresh s Hi (fresh s)) as (_ & _ & ? & _). Qed.

Lemma held_leases_fresh s l q :
  vinv s → held_leases (<[fresh s := l]> (leases s)) q = held_leases (leases s) q + Z.b2z (bool_decide (l_entry l = q ∧ l_released l = false)).
Proof. intros Hi. unfold held_leases. rewrite size_filter_fresh by (by apply fresh_lease). f_equal. Qed.
Lemma held_roots_fresh s l q :
  vinv s → held_roots (<[fresh s := l]> (leases s)) q =
    held_roots (leases s) q + Z.b2z (bool_decide (l_entry l = q ∧ l_released l = false ∧ l_root l = true)).
Proof. intros Hi. unfold held_roots. rewrite size_filter_fresh by (by apply fresh_lease). f_equal. Qed.
Lemma held_rops_fresh s o q :
  vinv s → held_rops (<[fresh s := o]> (rops s)) q = held_rops (rops s) q + Z.b2z (bool_decide (o_entry o = q ∧ o_released o = false)).
Proof. intros Hi. unfold held_rops. rewrite size_filter_fresh by (by apply fresh_rop). f_equal. Qed.

Lemma instance_live e : is_Some (instance e) → ¬ gone e.
Proof. intros [i Hi] [[E|E]|E]; unfold instance in Hi; by rewrite E in Hi. Qed.

Lemma live_current s p e : vinv s → heap s !! p = Some e → ¬ gone e → is_current s p e.
Proof.
  intros Hi Hp Hg. destruct (decide (entries s !! e_user e = Some p)) as [|Hc]; [done|]. unfold gone in Hg.
  destruct (ei_gone _ _ _ (vi_heap s Hi p e Hp) Hc) as [[?|?] _]; tauto.
Qed.

Lemma grant_inv s p e e' root v k :
  vinv s → heap s !! p = Some e → ¬ gone e → is_Some (instance e') → ¬ (e_draining e = true ∧ e_auto e = false) →
  e_user e' = e_user e → e_vault e' = e_vault e → e_key e' = e_key e → e_fingerprint e' = e_fingerprint e →
  e_references e' = e_references e → e_roots e' = e_roots e → e_auto e' = false →
  e_vault e = v → Sum256 k = Sum256 (e_key e) → vinv (grant p e' root v k s).2.
Proof.
  intros Hi Hp Hg Hins Hd Eu Ev Ek Ef Er Et Ea <- Hk. pose proof (live_current _ _ _ Hi Hp Hg) as Hc.
  destruct (vi_heap s Hi p e Hp) as [Hcnt _ _ _ Hkey _]. destruct (Hcnt Hc) as [Hr Ht].
  apply (frame_inv s _ p e (addReferenceLocked root e')); try done.
  - intros q Hq. unfold held. cbn. rewrite held_leases_fresh, held_roots_fresh by done. cbn.
    rewrite !bool_decide_eq_false_2 by naive_solver. cbn. lia.
  - split; cbn.
    + intros _. rewrite Er, Et, Hr, Ht. unfold held. cbn. rewrite held_leases_fresh, held_roots_fresh by done. cbn.
      rewrite (bool_decide_eq_true_2 (p = p ∧ false = false)) by done. destruct root; cbn.
      * rewrite bool_decide_eq_true_2 by done. cbn. lia.
      * rewrite bool_decide_eq_false_2 by naive_solver. cbn. lia.
    + unfold is_current. cbn. by rewrite Eu.
    + intros _ E. apply (instance_live e' Hins). by right.
    + intros _. destruct Hins as [i Hins]. by exists i.
    + intros _. rewrite Ef, Ek. by apply Hkey.
    + by rewrite Ea.
  - cbn. intros n l [[<- <-]|[_ ?]]%lookup_insert_Some; [right|by left]. by split.
  - intros n o Ho. cbn in Ho. destruct (decide (o_entry o = p)) as [Hop|]; [right|by left].
    destruct (no_rops s p e n o Hi Hp Hd Ho Hop) as [E1 E2]. rewrite E1, E2. by split_and!.
  - cbn. intros n Hn. destruct (vi_fresh s Hi n) as (_ & ? & ? & _ & ?); [lia|]. rewrite lookup_insert_ne by lia. split_and!; try done. lia.
Qed.

Lemma held_leases_release s n l q l' :
  leases s !! n = Some l → l_released l = false → l_released l' = true →
  held_leases (<[n := l']> (leases s)) q = held_leases (leases s) q - Z.b2z (bool_decide (l_entry l = q)).
Proof.
  intros Hl Hr Hr'. pose proof (size_filter_update (on_lease q) (leases s) n l' l Hl) as E. unfold held_leases.
  rewrite (bool_decide_eq_false_2 (on_lease q (n, l'))) in E by (unfold on_lease; cbn; naive_solver congruence).
  rewrite (bool_decide_ext (on_lease q (n, l)) (l_entry l = q)) in E by (unfold on_lease; cbn; naive_solver). cbn [Z.b2z] in E. lia.
Qed.
Lemma held_roots_release s n l q l' :
  leases s !! n = Some l → l_released l = false → l_released l' = true →
  held_roots (<[n := l']> (leases s)) q = held_roots (leases s) q - Z.b2z (bool_decide (l_entry l = q ∧ l_root l = true)).
Proof.
  intros Hl Hr Hr'. pose proof (size_filter_update (on_root q) (leases s) n l' l Hl) as E. unfold held_roots.
  rewrite (bool_decide_eq_false_2 (on_root q (n, l'))) in E by (unfold on_root; cbn; naive_solver congruence).
  rewrite (bool_decide_ext (on_root q (n, l)) (l_entry l = q ∧ l_root l = true)) in E by (unfold on_root; cbn; naive_solver).
  cbn [Z.b2z] in E. lia.
Qed.
Lemma held_rops_release s n o q o' :
  rops s !! n = Some o → o_released o = false → o_released o' = true →
  held_rops (<[n := o']> (rops s)) q = held_rops (rops s) q - Z.b2z (bool_decide (o_entry o = q)).
Proof.
  intros Hl Hr Hr'. pose proof (size_filter_update (on_rop q) (rops s) n o' o Hl) as E. unfold held_rops.
  rewrite (bool_decide_eq_false_2 (on_rop q (n, o'))) in E by (unfold on_rop; cbn; naive_solver congruence).
  rewrite (bool_decide_ext (on_rop q (n, o)) (o_entry o = q)) in E by (unfold on_rop; cbn; naive_solver). cbn [Z.b2z] in E. lia.
Qed.

(** An unreleased lease holds its entry open. *)
Lemma held_live s p : vinv s → 0 < held s p → ∀ e, heap s !! p = Some e →
  is_Some (instance e) ∧ is_current s p e ∧ e_references e = held s p ∧ e_roots e = held_roots (leases s) p.
Proof.
  intros Hi Hh e Hp. pose proof (vi_heap s Hi p e Hp) as He. pose proof (ei_held _ _ _ He Hh) as Hins.
  pose proof (live_current _ _ _ Hi Hp (instance_live _ Hins)) as Hc. by destruct (ei_counts _ _ _ He Hc).
Qed.

Lemma release_inv s n l e e' :
  vinv s → leases s !! n = Some l → l_released l = false → heap s !! l_entry l = Some e →
  e_user e' = e_user e → e_vault e' = e_vault e → e_key e' = e_key e → e_fingerprint e' = e_fingerprint e → e_phase e' = e_phase e →
  e_references e' = e_references e - 1 → e_roots e' = e_roots e - Z.b2z (l_root l) →
  (e_auto e' = true → e_draining e' = true) → (e_draining e = true → e_draining e' = true ∧ e_auto e' = e_auto e) →
  vinv (put (l_entry l) e' (VState (heap s) (entries s) (byVault s) (mclosing s)
    (<[n := Lease (l_entry l) (l_root l) true (l_vault l) (l_key l)]> (leases s)) (rops s) (waiters s) (closers s) (S (fresh s)))).
Proof.
  intros Hi Hl Hrel Hp Eu Ev Ek Ef Eph Er Et Ea Ed.
  pose proof (held_lease_pos _ _ _ Hl Hrel) as Hpos. pose proof (held_rops_nonneg (rops s) (l_entry l)) as Hnn.
  destruct (held_live s (l_entry l) Hi) with (e := e) as (Hins & Hc & Hr & Ht); [unfold held; lia|done|].
  destruct (vi_heap s Hi _ e Hp) as [_ _ _ _ Hkey _].
  assert (∀ q, held_leases (<[n := Lease (l_entry l) (l_root l) true (l_vault l) (l_key l)]> (leases s)) q
             = held_leases (leases s) q - Z.b2z (bool_decide (l_entry l = q))) as HL by (intros; by apply held_leases_release).
  assert (∀ q, held_roots (<[n := Lease (l_entry l) (l_root l) true (l_vault l) (l_key l)]> (leases s)) q
             = held_roots (leases s) q - Z.b2z (bool_decide (l_entry l = q ∧ l_root l = true))) as HR by (intros; by apply held_roots_release).
  apply (frame_inv s _ (l_entry l) e e'); try done.
  - intros q Hq. unfold held. cbn. rewrite HL, HR. rewrite !bool_decide_eq_false_2 by naive_solver. cbn. lia.
  - split; cbn.
    + intros _. rewrite Er, Et, Hr, Ht. unfold held. cbn. rewrite HL, HR.
      rewrite (bool_decide_eq_true_2 (l_entry l = l_entry l)) by done. destruct (l_root l); cbn.
      * rewrite bool_decide_eq_true_2 by done. cbn. lia.
      * rewrite bool_decide_eq_false_2 by naive_solver. cbn. lia.
    + unfold is_current. cbn. by rewrite Eu.
    + intros _ E. apply (instance_live e Hins). rewrite Eph in E. by right.
    + intros _. unfold instance. rewrite Eph. done.
    + intros _. rewrite Ef, Ek. by apply Hkey, instance_live.
    + done.
  - unfold gone. rewrite Eph. done.
  - cbn. intros m l' [[<- <-]|[_ ?]]%lookup_insert_Some; [right|by left]. by split.
  - cbn. intros m o Ho. destruct (decide (o_entry o = l_entry l)) as [Hop|]; [right|by left].
    destruct (vi_rop s Hi m o Ho) as (f & Hf & Ha & Hb). rewrite Hop in Hf, Hb. simplify_eq. split_and!; [done| |].
    + intros [E1 E2]%Ha. destruct (Ed E1) as [-> ->]. done.
    + intros [E1 E2]%Hb. pose proof (held_rop_pos s m o Ho E1) as Hx. rewrite Hop in Hx. unfold held in E2. lia.
  - cbn. intros m Hm. destruct (vi_fresh s Hi m) as (_ & ? & ? & _ & ?); [lia|]. rewrite lookup_insert_ne by congruence. split_and!; try done. lia.
Qed.

(** ** Restore operations *)
Lemma rop_entry_inv s n o e e' :
  vinv s → rops s !! n = Some o → o_released o = false → heap s !! o_entry o = Some e → e' = set_counts (e_references e - 1) (e_roots e) e →
  vinv (put (o_entry o) e' (set_rop n (RestoreOp (o_entry o) true RWaiting) s)).
Proof.
  intros Hi Hl Hrel Hp ->.
  pose proof (held_rop_pos _ _ _ Hl Hrel) as Hpos. pose proof (held_leases_nonneg (leases s) (o_entry o)) as Hnn.
  destruct (held_live s (o_entry o) Hi) with (e := e) as (Hins & Hc & Hr & Ht); [unfold held; lia|done|].
  destruct (vi_heap s Hi _ e Hp) as [_ _ _ _ Hkey Hauto].
  assert (∀ q, held_rops (<[n := RestoreOp (o_entry o) true RWaiting]> (rops s)) q
             = held_rops (rops s) q - Z.b2z (bool_decide (o_entry o = q))) as HL by (intros; by apply held_rops_release).
  apply (frame_inv s _ (o_entry o) e (set_counts (e_references e - 1) (e_roots e) e)); try done.
  - intros q Hq. unfold held. cbn. rewrite HL. rewrite !bool_decide_eq_false_2 by naive_solver. cbn. lia.
  - split; cbn; try done.
    + intros _. rewrite Hr, Ht. unfold held. cbn. rewrite HL. rewrite (bool_decide_eq_true_2 (o_entry o = o_entry o)) by done. cbn. lia.
    + intros _ E. apply (instance_live e Hins). by right.
  - cbn. by left.
  - cbn. intros m o' [[<- <-]|[Hmn Ho]]%lookup_insert_Some; [by right|].
    destruct (decide (o_entry o' = o_entry o)) as [Hop|]; [right|by left].
    destruct (vi_rop s Hi m o' Ho) as (f & Hf & Ha & Hb). rewrite Hop in Hf, Hb. simplify_eq. split_and!; [done|done|].
    intros [E1 E2]%Hb. exfalso. set (s' := set_rop n (RestoreOp (o_entry o) true RWaiting) s).
    assert (rops s' !! m = Some o') as Hm' by (cbn; by rewrite lookup_insert_ne).
    pose proof (held_rop_pos s' m o' Hm' E1) as Hx. cbn in Hx. rewrite HL, Hop, bool_decide_eq_true_2 in Hx by done. cbn in Hx.
    unfold held in E2. lia.
  - cbn. intros m Hm. destruct (vi_fresh s Hi m) as (_ & ? & ? & _ & ?); [lia|]. rewrite lookup_insert_ne by congruence. by split_and!.
Qed.

(** A change of stage of an unreleased operation. *)
Lemma rop_stage_inv s n o st :
  vinv s → rops s !! n = Some o → o_released o = false → (st ≠ RWaiting → held s (o_entry o) = 1) →
  vinv (set_rop n (RestoreOp (o_entry o) false st) s).
Proof.
  intros Hi Hn Hr Hst.
  assert (∀ q, held (set_rop n (RestoreOp (o_entry o) false st) s) q = held s q) as Hh.
  { intros q. unfold held, held_rops. cbn. pose proof (size_filter_update (on_rop q) (rops s) n (RestoreOp (o_entry o) false st) o Hn) as E.
    rewrite (bool_decide_ext (on_rop q (n, o)) (on_rop q (n, RestoreOp (o_entry o) false st))) in E
      by (unfold on_rop; cbn; rewrite Hr; done). lia. }
  destruct Hi as [H1 H2 H3 H4 H5 H6 H7]. split; cbn; try done.
  - intros p e Hp. destruct (H3 p e Hp) as [A1 A2 A3 A4 A5 A6]. split; unfold is_current in *; cbn; rewrite ?Hh; done.
  - intros m o' [[<- <-]|[_ Ho]]%lookup_insert_Some.
    + cbn. destruct (H5 n o Hn) as (f & Hf & Ha & Hb). exists f. rewrite Hh. split_and!; auto.
    + rewrite Hh. by apply (H5 m).
  - intros m Hm. destruct (H7 m Hm) as (? & ? & ? & ? & ?). rewrite lookup_insert_ne by congruence. by split_and!.
Qed.

Lemma BeginRestore_inv n s : vinv s → vinv (BeginRestore n s).2.
Proof.
  intros Hi. unfold BeginRestore, lease_root. destruct (leases s !! n) as [l|] eqn:Hl; [|done].
  destruct (l_released l || negb (l_root l)) eqn:Hrel; [done|]. destruct (heap s !! l_entry l) as [e|] eqn:Hp; [|done].
  destruct (mclosing s); [done|]. destruct (negb (current s (l_entry l) e) || ready e || bool_decide (instance e = None)) eqn:Hcur; [done|].
  destruct (e_draining e) eqn:Hd; [done|]. cbn [snd].
  apply orb_false_iff in Hcur as [[Hcur%negb_false_iff%current_spec _]%orb_false_iff Hins%bool_decide_eq_false].
  destruct (vi_heap s Hi _ e Hp) as [Hcnt _ _ _ Hkey Hauto]. destruct (Hcnt Hcur) as [Hr Ht].
  assert (is_Some (instance e)) as Hins' by (by apply not_eq_None_Some).
  assert (e_auto e = false) as Ha by (destruct (e_auto e); [by rewrite Hauto in Hd|done]). clear Hrel.
  apply (frame_inv s _ (l_entry l) e (addReferenceLocked false (set_drain true (e_auto e) (e_retired e) e))); try done.
  - intros q Hq. unfold held. cbn. rewrite held_rops_fresh by done. cbn. rewrite !bool_decide_eq_false_2 by naive_solver. cbn. lia.
  - split; cbn; try done.
    + intros _. rewrite Hr, Ht. unfold held. cbn. rewrite held_rops_fresh by done. cbn. rewrite bool_decide_eq_true_2 by done. cbn. lia.
    + intros _ E. apply (instance_live e Hins'). by right.
  - by left.
  - cbn. intros m o [[<- <-]|[_ Ho]]%lookup_insert_Some; [right; by split_and!|].
    destruct (decide (o_entry o = l_entry l)) as [Hop|]; [right|by left].
    destruct (no_rops s (l_entry l) e m o Hi Hp) as [E1 E2]; [naive_solver congruence|done|done|]. rewrite E1, E2. by split_and!.
  - cbn. intros m Hm. destruct (vi_fresh s Hi m) as (_ & ? & ? & _ & ?); [lia|]. rewrite lookup_insert_ne by lia. split_and!; try done. lia.
Qed.

(** ** Reservation and removal of entries *)
Lemma held_absent s p : vinv s → heap s !! p = None → held s p = 0 ∧ held_roots (leases s) p = 0.
Proof.
  intros Hi Hp. assert (held_leases (leases s) p = 0) as E1.
  { unfold held_leases. rewrite (proj2 (map_empty_filter (on_lease p) (leases s))); [done|]. intros n l Hl [<- _]. cbn in Hp.
    destruct (vi_lease s Hi n l Hl) as (? & ? & _). congruence. }
  assert (held_rops (rops s) p = 0) as E2.
  { unfold held_rops. rewrite (proj2 (map_empty_filter (on_rop p) (rops s))); [done|]. intros n l Hl [<- _]. cbn in Hp.
    destruct (vi_rop s Hi n l Hl) as (? & ? & _). congruence. }
  pose proof (roots_le_leases (leases s) p) as E3. unfold held. unfold held_roots in *. lia.
Qed.

Lemma reserve_inv s u v k :
  vinv s → entries s !! u = None → byVault s !! v = None →
  vinv (VState (<[fresh s := Entry u v k (Sum256 k) (Opening None) 0 0 false false None]> (heap s)) (<[u := fresh s]> (entries s))
    (<[v := fresh s]> (byVault s)) (mclosing s) (leases s) (rops s) (waiters s) (closers s) (S (fresh s))).
Proof.
  intros Hi Hu Hv. assert (heap s !! fresh s = None) as Hn by (by destruct (vi_fresh s Hi (fresh s)) as (? & _)).
  destruct (held_absent s (fresh s) Hi Hn) as [Eh Er].
  pose proof Hi as [H1 H2 H3 H4 H5 H6 H7].
  assert (∀ q f, heap s !! q = Some f → ∀ x, <[fresh s := x]> (heap s) !! q = Some f) as Hmap.
  { intros q f Hq x. rewrite lookup_insert_ne; [done|congruence]. }
  split; cbn.
  - intros w q [[<- <-]|[Hw Hq]]%lookup_insert_Some.
    + eexists. rewrite lookup_insert_eq. split_and!; [done..|]. cbn. by rewrite lookup_insert_eq.
    + destruct (H1 w q Hq) as (f & Hf & ? & ?). exists f. rewrite lookup_insert_ne by congruence. split_and!; try done.
      rewrite lookup_insert_ne; [done|congruence].
  - intros w q [[<- <-]|[Hw Hq]]%lookup_insert_Some.
    + eexists. rewrite lookup_insert_eq. split_and!; [done..|]. cbn. by rewrite lookup_insert_eq.
    + destruct (H2 w q Hq) as (f & Hf & ? & ?). exists f. rewrite lookup_insert_ne by congruence. split_and!; try done.
      rewrite lookup_insert_ne; [done|congruence].
  - intros q f [[<- <-]|[Hne Hq]]%lookup_insert_Some.
    + split; cbn; unfold is_current, held; cbn; fold (held s (fresh s)); rewrite ?lookup_insert_eq, ?Eh, ?Er; done.
    + destruct (H3 q f Hq) as [A1 A2 A3 A4 A5 A6].
      assert (<[u := fresh s]> (entries s) !! e_user f = Some q ↔ entries s !! e_user f = Some q) as Hiff.
      { destruct (decide (e_user f = u)) as [->|]; [|by rewrite lookup_insert_ne]. rewrite lookup_insert_eq. naive_solver congruence. }
      split; unfold is_current in *; cbn; rewrite ?Hiff; done.
  - intros n l (f & ? & ?)%H4. eauto.
  - intros n l (f & ? & ?)%H5. eauto.
  - intros n l (f & ? & ?)%H6. eauto.
  - intros n Hm. destruct (H7 n) as (? & ? & ? & ? & ?); [lia|]. rewrite lookup_insert_ne by lia. by split_and!.
Qed.

Lemma unlink_inv s p e e' :
  vinv s → heap s !! p = Some e → is_current s p e → held s p = 0 → removed e' →
  e_user e' = e_user e → e_vault e' = e_vault e → e_key e' = e_key e → (e_auto e' = true → e_draining e' = true) →
  vinv (put p e' (unlink p e s)).
Proof.
  intros Hi Hp Hc Hh Hg Eu Ev Ek Ea. unfold is_current in Hc. pose proof Hi as [H1 H2 H3 H4 H5 H6 H7].
  destruct (H1 _ _ Hc) as (e0 & Hp' & _ & Hb). simplify_eq.
  assert (∀ q f, heap s !! q = Some f → q ≠ p → <[p := e']> (heap s) !! q = Some f) as Hmap by (intros; by rewrite lookup_insert_ne).
  assert (∀ q f, heap s !! q = Some f → q ≠ p → delete (e_user e) (entries s) !! e_user f = Some q ↔ entries s !! e_user f = Some q) as Hiff.
  { intros q f Hq Hne. destruct (decide (e_user f = e_user e)) as [->|]; [|by rewrite lookup_delete_ne]. rewrite lookup_delete_eq.
    split; [done|]. intros; congruence. }
  unfold unlink. rewrite !bool_decide_eq_true_2 by done. split; cbn.
  - intros u q [Hne Hq]%lookup_delete_Some. destruct (H1 u q Hq) as (f & Hf & <- & Hbf). assert (q ≠ p) by congruence.
    exists f. rewrite lookup_delete_ne by congruence. auto.
  - intros u q [Hne Hq]%lookup_delete_Some. destruct (H2 u q Hq) as (f & Hf & <- & Hbf). assert (q ≠ p) by congruence.
    exists f. rewrite lookup_delete_ne by congruence. auto.
  - intros q f [[<- <-]|[Hne Hq]]%lookup_insert_Some.
    + split; unfold is_current; cbn; rewrite ?Eu, ?lookup_delete_eq; try done.
      * change (0 < held s p → is_Some (instance e')). lia.
      * intros []. unfold gone. destruct Hg; tauto.
    + destruct (H3 q f Hq) as [A1 A2 A3 A4 A5 A6]. split; unfold is_current in *; cbn; rewrite ?(Hiff q f) by done; done.
  - intros n l Hl. destruct (H4 n l Hl) as (f & Hf & Hx). destruct (decide (l_entry l = p)) as [<-|]; [|eauto].
    simplify_eq. exists e'. by rewrite lookup_insert_eq, Ev, Ek.
  - intros n o Ho. destruct (H5 n o Ho) as (f & Hf & Hx & Hy). destruct (decide (o_entry o = p)) as [<-|]; [|by eauto].
    exists e'. rewrite lookup_insert_eq. split_and!; [done| |].
    + intros Hr. pose proof (held_rop_pos s n o Ho Hr). pose proof (held_leases_nonneg (leases s) (o_entry o)). unfold held in Hh. lia.
    + intros [? ?]%Hy. lia.
  - intros n w Hw. destruct (H6 n w Hw) as (f & Hf & Hx & Hy). destruct (decide (w_entry w = p)) as [<-|]; [|by eauto].
    simplify_eq. exists e'. rewrite lookup_insert_eq, Ev. split_and!; [done..|]. intros []. unfold gone. destruct Hg; tauto.
  - intros n Hn. pose proof (heap_fresh _ _ _ Hi Hp). rewrite lookup_insert_ne by lia. auto.
Qed.

Lemma Close_inv s : vinv s → vinv (Close s).
Proof.
  intros [H1 H2 H3 H4 H5 H6 H7]. set (g := λ p e, if current s p e then set_drain true false (e_retired e) e else e).
  assert (∀ q, drain_all s (heap s) !! q = g q <$> heap s !! q) as Hmap.
  { intros q. unfold drain_all. rewrite map_lookup_imap. by destruct (heap s !! q). }
  assert (∀ q f, e_user (g q f) = e_user f ∧ e_vault (g q f) = e_vault f ∧ e_key (g q f) = e_key f ∧ e_phase (g q f) = e_phase f ∧
    e_fingerprint (g q f) = e_fingerprint f ∧ e_references (g q f) = e_references f ∧ e_roots (g q f) = e_roots f ∧
    (e_auto (g q f) = true → e_auto f = true) ∧ (e_draining f = true → e_draining (g q f) = true)) as Hg.
  { intros q f. unfold g. by destruct (current s q f). }
  assert (∀ q f, heap s !! q = Some f → drain_all s (heap s) !! q = Some (g q f)) as Hm by (intros ?? E; by rewrite Hmap, E).
  split; cbn.
  - intros u q (f & Hf & ? & ?)%H1. exists (g q f). destruct (Hg q f) as (-> & -> & _). auto.
  - intros u q (f & Hf & ? & ?)%H2. exists (g q f). destruct (Hg q f) as (-> & -> & _). auto.
  - intros q f'. rewrite Hmap. intros (f & Hf & ->)%fmap_Some. destruct (Hg q f) as (Eu & Ev & Ek & Eph & Ef & Er & Et & Ea & Ed).
    destruct (H3 q f Hf) as [A1 A2 A3 A4 A5 A6].
    split; unfold is_current, held, gone, removed, instance in *; cbn; rewrite ?Eu, ?Eph, ?Er, ?Et, ?Ef, ?Ek; auto.
  - intros n l (f & Hf & ?)%H4. exists (g (l_entry l) f). destruct (Hg (l_entry l) f) as (_ & -> & -> & _). auto.
  - intros n o (f & Hf & Hx & Hy)%H5. exists (g (o_entry o) f). destruct (Hg (o_entry o) f) as (_ & _ & _ & _ & _ & _ & _ & Ea & Ed).
    split_and!; [by auto| |done]. intros [E1 E2]%Hx. split; [by auto|]. destruct (e_auto (g _ f)); [by rewrite Ea in E2|done].
  - intros n w (f & Hf & ? & ?)%H6. exists (g (w_entry w) f). unfold gone in *. destruct (Hg (w_entry w) f) as (_ & -> & -> & -> & _). auto.
  - intros n Hn. rewrite Hmap. destruct (H7 n Hn) as (-> & ?). done.
Qed.

(** ** Every step keeps the invariant *)
Lemma quiet_inv s p e e' :
  vinv s → heap s !! p = Some e → is_current s p e → held s p = 0 → e_phase e' ≠ Closed →
  e_user e' = e_user e → e_vault e' = e_vault e → e_key e' = e_key e → e_references e' = e_references e → e_roots e' = e_roots e →
  e_draining e' = e_draining e → e_auto e' = e_auto e → (¬ gone e' → ¬ gone e ∧ e_fingerprint e' = e_fingerprint e) →
  vinv (put p e' s).
Proof.
  intros Hi Hp Hc Hh Hph Eu Ev Ek Er Et Ed Ea Hg. destruct (vi_heap s Hi p e Hp) as [A1 A2 A3 A4 A5 A6].
  apply (put_inv s p e); try done; [|naive_solver|by rewrite Ed, Ea].
  split; unfold is_current in *; rewrite ?Eu, ?Er, ?Et, ?Ek, ?Ed, ?Ea; try done; [lia|].
  intros (Hg' & ->)%Hg. auto.
Qed.

Lemma drain_inv s p e d a t :
  vinv s → heap s !! p = Some e → (a = true → d = true) → (e_draining e = true → e_auto e = false → d = true ∧ a = false) →
  vinv (put p (set_drain d a t e) s).
Proof.
  intros Hi Hp Had Hd. destruct (vi_heap s Hi p e Hp) as [A1 A2 A3 A4 A5 A6]. by apply (put_inv s p e).
Qed.

Lemma held_idle s p e : vinv s → heap s !! p = Some e → instance e = None → held s p = 0.
Proof.
  intros Hi Hp Hn. destruct (decide (0 < held s p)) as [Hh|].
  - destruct (ei_held _ _ _ (vi_heap s Hi p e Hp) Hh) as [i Hx]. congruence.
  - pose proof (held_leases_nonneg (leases s) p). pose proof (held_rops_nonneg (rops s) p). unfold held in *. lia.
Qed.

Lemma unretire_inv s p e :
  vinv s → heap s !! p = Some e → vinv (put p (unretire e) s).
Proof.
  intros Hi Hp. unfold unretire. destruct (e_auto e) eqn:Ea.
  - apply drain_inv; [done..|]. congruence.
  - replace (put p e s) with s; [done|]. destruct s. unfold put. cbn in *. by rewrite insert_id.
Qed.

Lemma Acquire_inv u v k s : vinv s → vinv (Acquire u v k s).2.
Proof.
  intros Hi. unfold Acquire. destruct (validateUserID u), (validateVaultID v); try done.
  destruct (mclosing s) eqn:Hmc; [done|]. destruct (entries s !! u) as [p|] eqn:Hu; cbn [mbind option_bind].
  - destruct (vi_entries s Hi u p Hu) as (e & Hp & Heu & Hb). rewrite Hp. cbn [fmap option_fmap option_map].
    destruct (e_draining e && negb (e_auto e)) eqn:Hd; [done|].
    destruct (bool_decide (e_vault e = v ∧ e_fingerprint e = Sum256 k)) eqn:Hm; [|done]. cbn [negb].
    destruct (e_auto e && closing e); [done|]. apply bool_decide_eq_true in Hm as [Hv Hk].
    assert (¬ gone e → Sum256 k = Sum256 (e_key e)) as Hkey.
    { intros Hg. rewrite <- Hk. by apply (ei_key _ _ _ (vi_heap s Hi p e Hp)). }
    destruct (ready e) eqn:Hr; [|destruct (instance e) as [i|] eqn:Hins]; cbn [snd].
    + apply add_waiter_inv; [by apply unretire_inv|]. exists (unretire e). cbn. rewrite lookup_insert_eq.
      unfold unretire. destruct (e_auto e); by split_and!.
    + assert (¬ gone e) as Hg by (apply instance_live; eauto).
      assert (¬ (e_draining e = true ∧ e_auto e = false)) as Hnd by (destruct (e_draining e), (e_auto e); naive_solver).
      apply (grant_inv s p e); try (unfold unretire; destruct (e_auto e) eqn:Ea; by eauto); by eauto.
    + by apply unretire_inv.
  - destruct (byVault s !! v) as [p|] eqn:Hb.
    + destruct (vi_byVault s Hi v p Hb) as (e & Hp & Hv & He). cbn. rewrite Hp.
      destruct (bool_decide (e_user e = u)) eqn:Hx; cbn; [|done]. apply bool_decide_eq_true in Hx. congruence.
    + cbn. pose proof (reserve_inv s u v k Hi Hu Hb) as Hx. by rewrite Hmc in Hx.
Qed.

Lemma acquire_ready_inv n s r : vinv s → acquire_ready n s = Some r → vinv r.2.
Proof.
  intros Hi. unfold acquire_ready. destruct (waiters s !! n) as [w|] eqn:Hw; cbn [mbind option_bind]; [|done].
  destruct (vi_waiter s Hi n w Hw) as (e & Hp & Hv & Hk). rewrite Hp. cbn [mbind option_bind].
  destruct (ready e) eqn:Hr; [done|]. intros [= <-]. pose proof (drop_waiter_inv n s Hi) as Hi'.
  destruct (openErr e); [done|]. destruct (mclosing s); [done|].
  destruct (e_draining e || negb (current s (w_entry w) e) || bool_decide (instance e = None)) eqn:Hc; [done|].
  apply orb_false_iff in Hc as [[Hd _]%orb_false_iff Hins%bool_decide_eq_false]. apply not_eq_None_Some in Hins.
  pose proof (instance_live e Hins) as Hg. pose proof (ei_auto _ _ _ (vi_heap s Hi _ e Hp)) as Ha.
  apply (grant_inv (drop_waiter n s) _ e); try done; auto.
  - rewrite Hd. naive_solver.
  - destruct (e_auto e); [|done]. by rewrite Ha in Hd.
Qed.

Lemma fresh_bump_inv s : vinv s →
  vinv (VState (heap s) (entries s) (byVault s) (mclosing s) (leases s) (rops s) (waiters s) (closers s) (S (fresh s))).
Proof.
  intros Hi. apply (closers_inv _ _ s); [done|lia|]. intros n Hn. by destruct (vi_fresh s Hi n) as (_ & _ & _ & _ & ?); [lia|].
Qed.

(** The phases of the opener and the closer carry no reference. *)
Lemma phase_inv s p e ph :
  vinv s → heap s !! p = Some e → ¬ removed e → instance e = None → ph ≠ Closed → (gone e → gone (set_phase ph e)) →
  vinv (put p (set_phase ph e) s).
Proof.
  intros Hi Hp Hr Hn Hph Hg.
  assert (is_current s p e) as Hc.
  { destruct (decide (entries s !! e_user e = Some p)) as [|Hc]; [done|]. by destruct (ei_gone _ _ _ (vi_heap s Hi p e Hp) Hc). }
  apply (quiet_inv s p e); try done; [by apply (held_idle s p e)|]. intros Hg'. split; [by intros ?%Hg|done].
Qed.

Ltac not_removed := let E := fresh in match goal with
  | H : e_phase _ = _ |- ¬ removed _ => intros [E|E]; by rewrite H in E
  | H : e_phase _ = _ |- gone _ → _ => intros [[E|E]|E]; by rewrite H in E
  end.

Lemma open_returns_inv p s s' : vinv s → open_returns p s = Some s' → vinv s'.
Proof.
  intros Hi. unfold open_returns. destruct (heap s !! p) as [e|] eqn:Hp; cbn [mbind option_bind]; [|done].
  destruct (e_phase e) as [[?|]| | | |] eqn:Hph; try done. intros [= <-]. apply phase_inv; try done; try not_removed.
  - by apply fresh_bump_inv.
  - unfold instance. by rewrite Hph.
Qed.
Lemma open_rejected_inv p s s' : vinv s → open_rejected p s = Some s' → vinv s'.
Proof.
  intros Hi. unfold open_rejected. destruct (heap s !! p) as [e|] eqn:Hp; cbn [mbind option_bind]; [|done].
  destruct (e_phase e) as [[?|]| | | |] eqn:Hph; try done. intros [= <-]. apply phase_inv; try done; try not_removed.
  unfold instance. by rewrite Hph.
Qed.

Lemma finishOpening_inv p s r : vinv s → finishOpening p s = Some r → vinv r.2.
Proof.
  intros Hi. unfold finishOpening. destruct (heap s !! p) as [e|] eqn:Hp; cbn [mbind option_bind]; [|done].
  destruct (e_phase e) as [oi| | | |] eqn:Hph; try done. intros [= <-].
  assert (instance e = None) as Hn by (unfold instance; by rewrite Hph).
  assert (¬ gone e) as Hg by (intros [[E|E]|E]; by rewrite Hph in E). assert (¬ removed e) as Hr by (intros [E|E]; by rewrite Hph in E).
  pose proof (live_current _ _ _ Hi Hp Hg) as Hc. pose proof (held_idle s p e Hi Hp Hn) as Hh.
  pose proof (ei_auto _ _ _ (vi_heap s Hi _ e Hp)) as Ha.
  destruct oi as [i|].
  - assert (vinv (put p (set_phase (Open i) e) s)) as Hopen by (apply phase_inv; try done; by intros ?%Hg).
    destruct (mclosing s); [by apply add_closer_inv|]. destruct (e_draining e) eqn:Hd; [by apply add_closer_inv|].
    assert (e_auto e = false) as Ha' by (destruct (e_auto e); [by specialize (Ha eq_refl)|done]).
    apply (grant_inv s p e); try done; cbn; solve [by exists i|naive_solver congruence].
  - destruct (e_draining e || mclosing s); cbn [snd].
    + apply add_closer_inv, (quiet_inv s p e); try done. intros []. by left; left.
    + apply unlink_inv; try done. by left.
Qed.

Lemma Borrow_inv n s : vinv s → vinv (Borrow n s).2.
Proof.
  intros Hi. unfold Borrow, lease_root. destruct (leases s !! n) as [l|] eqn:Hl; [|done].
  destruct (l_released l || negb (l_root l)) eqn:Hrel; [done|]. destruct (heap s !! l_entry l) as [e|] eqn:Hp; [|done].
  destruct (mclosing s); [done|]. destruct (usable s (l_entry l) e) eqn:Hu; [|done].
  apply orb_false_iff in Hrel as [Hrel _]. destruct (vi_lease s Hi n l Hl) as (e0 & Hp' & Hx). simplify_eq.
  destruct (Hx Hrel) as [Hv Hk]. pose proof (ei_auto _ _ _ (vi_heap s Hi _ e Hp)) as Ha.
  unfold usable in Hu. apply andb_true_iff in Hu as [[[_ Hd%negb_true_iff]%andb_true_iff _]%andb_true_iff Hins%negb_true_iff%bool_decide_eq_false].
  apply not_eq_None_Some in Hins. apply (grant_inv s _ e); try done; [by apply instance_live|naive_solver congruence|].
  destruct (e_auto e); [by rewrite Ha in Hd|done].
Qed.

Lemma after_release_inv p e s : vinv (put p e s) → vinv (after_release p e s).
Proof. intros Hi. unfold after_release. destruct (_ && _); [by apply add_closer_inv|done]. Qed.

Lemma RestoreOperation_Release_inv n s : vinv s → vinv (RestoreOperation_Release n s).
Proof.
  intros Hi. unfold RestoreOperation_Release. destruct (rops s !! n) as [o|] eqn:Ho; [|done].
  destruct (o_released o || bool_decide (o_stage o = RRunning)) eqn:Hx; [done|]. apply orb_false_iff in Hx as [Hr _].
  destruct (vi_rop s Hi n o Ho) as (e & Hp & _). rewrite Hp.
  pose proof (held_rop_pos _ _ _ Ho Hr) as Hpos. pose proof (held_leases_nonneg (leases s) (o_entry o)) as Hnn.
  destruct (held_live s (o_entry o) Hi) with (e := e) as (_ & Hc%current_spec & Href & _); [unfold held; lia|done|].
  rewrite Hc. destruct (Z.ltb_spec 0 (e_references e)); [|unfold held in *; lia]. cbn [andb].
  by eapply after_release_inv, rop_entry_inv.
Qed.

Lemma drop_root_spec t e : 0 < e_roots e → let e' := drop_root t e in
  e_user e' = e_user e ∧ e_vault e' = e_vault e ∧ e_key e' = e_key e ∧ e_fingerprint e' = e_fingerprint e ∧ e_phase e' = e_phase e ∧
  e_references e' = e_references e ∧ e_roots e' = e_roots e - 1 ∧
  ((e_auto e = true → e_draining e = true) → e_auto e' = true → e_draining e' = true) ∧
  (e_draining e = true → e_draining e' = true ∧ e_auto e' = e_auto e).
Proof.
  intros Hr. unfold drop_root. destruct (Z.ltb_spec 0 (e_roots e)) as [_|]; [|lia]. cbn.
  destruct (e_roots e - 1 =? 0), (e_draining e) eqn:Hd; cbn; rewrite ?Hd; by split_and!.
Qed.

Lemma Release_inv n s : vinv s → vinv (Release n s).
Proof.
  intros Hi. unfold Release. destruct (leases s !! n) as [l|] eqn:Hl; [|done]. destruct (l_released l) eqn:Hr; [done|].
  destruct (vi_lease s Hi n l Hl) as (e & Hp & _). rewrite Hp.
  pose proof (held_lease_pos _ _ _ Hl Hr) as Hpos. pose proof (held_rops_nonneg (rops s) (l_entry l)) as Hnn.
  destruct (held_live s (l_entry l) Hi) with (e := e) as (_ & Hc%current_spec & Href & Hroot); [unfold held; lia|done|].
  rewrite Hc. destruct (Z.ltb_spec 0 (e_references e)); [|unfold held in *; lia]. cbn [andb].
  pose proof (ei_auto _ _ _ (vi_heap s Hi _ e Hp)) as Ha.
  apply after_release_inv, (release_inv s n l e); try done.
  all: destruct (l_root l) eqn:Hlr; cbn; try done; try lia.
  all: pose proof (held_root_pos _ _ _ Hl Hr Hlr) as Hrp; pose proof (drop_root_spec (fresh s) (set_counts (e_references e - 1) (e_roots e) e));
    cbn in *; naive_solver lia.
Qed.

Lemma BeginUserDrain_inv u s : vinv s → vinv (BeginUserDrain u s).2.
Proof.
  intros Hi. unfold BeginUserDrain. destruct (validateUserID u); [|done]. cbn [snd].
  destruct (entries s !! u) as [p|]; cbn; [|done]. destruct (heap s !! p) as [e|] eqn:Hp; cbn; [|done]. by apply drain_inv.
Qed.

Lemma rop_steps_inv n s s' :
  vinv s → waitForReferences n s = Some s' ∨ RestoreSnapshot n s = Some s' ∨ restore_returns n s = Some s' → vinv s'.
Proof.
  intros Hi. unfold waitForReferences, RestoreSnapshot, restore_returns. destruct (rops s !! n) as [o|] eqn:Ho; cbn [mbind option_bind];
    [|naive_solver].
  destruct (vi_rop s Hi n o Ho) as (e & Hp & Hd & Hs). rewrite Hp. cbn [mbind option_bind]. intros [E|[E|E]].
  - destruct (o_released o) eqn:Hr; [done|]. destruct (bool_decide (o_stage o = RWaiting)); [|done]. cbn [orb negb] in E.
    destruct (current s (o_entry o) e) eqn:Hc; [|done]. destruct (Z.leb_spec (e_references e) 1); [|done].
    cbn [andb] in E. destruct (negb (ready e) && negb (closing e)); [|done]. injection E as <-. apply (rop_stage_inv s n o); try done. intros _.
    apply current_spec in Hc. destruct (ei_counts _ _ _ (vi_heap s Hi _ e Hp) Hc) as [Hx _].
    pose proof (held_rop_pos _ _ _ Ho Hr) as Hpos. pose proof (held_leases_nonneg (leases s) (o_entry o)). unfold held in *. lia.
  - destruct (o_released o) eqn:Hr; [done|]. destruct (bool_decide_reflect (o_stage o = RAlone)) as [Hst|]; [|done]. cbn [orb negb] in E.
    destruct (negb _ || _); [done|]. injection E as <-. apply (rop_stage_inv s n o); try done. intros _. apply Hs. congruence.
  - case_bool_decide as Hst; [|done]. destruct Hs as [Hr Hh]; [congruence|]. rewrite Hr in E. injection E as <-. by apply (rop_stage_inv s n o).
Qed.

Lemma close_steps_inv n s s' :
  vinv s → close_look n s = Some s' ∨ close_capture n s = Some s' ∨ close_start n s = Some s' → vinv s'.
Proof.
  intros Hi. unfold close_look, close_capture, close_start. destruct (closers s !! n) as [c|] eqn:Hn; cbn [mbind option_bind]; [|naive_solver].
  intros [E|[E|E]]; destruct c as [p|p|p auto retired]; try done; destruct (heap s !! p) as [e|] eqn:Hp; try done; cbn [mbind option_bind] in E;
    injection E as <-.
  - destruct (_ || _); [by apply drop_closer_inv|]. destruct (ready e); [done|]. apply set_closer_inv; eauto.
  - apply set_closer_inv; eauto.
  - destruct (_ && _); [by apply drop_closer_inv|].
    destruct (negb (current s p e) || negb (e_draining e) || ready e || negb (e_references e =? 0) || closing e) eqn:Hc;
      [apply set_closer_inv; eauto|].
    apply drop_closer_inv. apply orb_false_iff in Hc as [[[[Hcur%negb_false_iff%current_spec _]%orb_false_iff
      _]%orb_false_iff Href%negb_false_iff%Z.eqb_eq]%orb_false_iff Hcl].
    destruct (ei_counts _ _ _ (vi_heap s Hi p e Hp) Hcur) as [Hh _].
    apply (quiet_inv s p e); try done; [lia|]. intros Hg. split; [|done]. intros [[E|E]|E]; unfold closing in Hcl; rewrite E in Hcl; try done.
    apply Hg. left. right. unfold instance. by rewrite E.
Qed.

Lemma instance_steps_inv p s s' : vinv s → instance_closed p s = Some s' ∨ close_done p s = Some s' → vinv s'.
Proof.
  intros Hi. unfold instance_closed, close_done. destruct (heap s !! p) as [e|] eqn:Hp; cbn [mbind option_bind]; [|naive_solver].
  destruct (e_phase e) as [| | |oi|] eqn:Hph; try naive_solver.
  assert (instance e = None) as Hn by (unfold instance; by rewrite Hph). assert (¬ removed e) as Hr by not_removed.
  destruct oi as [i|].
  - intros [[= <-]|?]; [|done]. apply phase_inv; try done. not_removed.
  - intros [?|[= <-]]; [done|].
    assert (is_current s p e) as Hc.
    { destruct (decide (entries s !! e_user e = Some p)) as [|Hc]; [done|]. by destruct (ei_gone _ _ _ (vi_heap s Hi p e Hp) Hc). }
    apply unlink_inv; try done; [by apply (held_idle s p e)|by right|]. by apply (ei_auto _ _ _ (vi_heap s Hi p e Hp)).
Qed.

Create HintDb vault.
#[local] Hint Resolve Acquire_inv acquire_ready_inv open_returns_inv open_rejected_inv finishOpening_inv Borrow_inv BeginRestore_inv
  RestoreOperation_Release_inv Release_inv BeginUserDrain_inv Close_inv add_closer_inv drop_closer_inv : vault.

Lemma vstep_inv s s' : vinv s → vstep s s' → vinv s'.
Proof.
  intros Hi Hs. destruct Hs; eauto 2 with vault; first
    [ by apply add_closer_inv | by apply drop_closer_inv | by eapply rop_steps_inv; eauto
    | by eapply close_steps_inv; eauto | by eapply instance_steps_inv; eauto ].
Qed.

Lemma NewManager_inv : vinv NewManager.
Proof. by split; cbn; intros *; rewrite ?lookup_empty; try done. Qed.

Lemma vault_reachable_inv s : rtc vstep NewManager s → vinv s.
Proof.
  intros Hs. pose proof NewManager_inv as Hi. induction Hs as [|s1 s2 s3 Hst _ IH]; [done|]. by apply IH, (vstep_inv s1).
Qed.

(** * Properties of every interleaving *)
(** The entry's database is being opened, open, or being closed. *)
Definition active (e : entry) : bool := match e_phase e with Opening _ | Open _ | Closing _ => true | Failed | Closed => false end.

Lemma active_current s p e : vinv s → heap s !! p = Some e → active e = true → is_current s p e.
Proof.
  intros Hi Hp Ha. destruct (decide (entries s !! e_user e = Some p)) as [|Hc]; [done|].
  destruct (ei_gone _ _ _ (vi_heap s Hi p e Hp) Hc) as [[E|E] _]; unfold active in Ha; by rewrite E in Ha.
Qed.

(** C16. However the goroutines interleave, a vault's database is opened, held open or
    being closed by one entry at a time, and so is a user's: two such entries of the
    same user or of the same vault are the same entry. *)
Theorem vault_opened_once s p1 p2 e1 e2 :
  rtc vstep NewManager s → heap s !! p1 = Some e1 → heap s !! p2 = Some e2 → active e1 = true → active e2 = true →
  e_user e1 = e_user e2 ∨ e_vault e1 = e_vault e2 → p1 = p2.
Proof.
  intros Hi%vault_reachable_inv H1 H2 A1%(active_current _ _ _ Hi H1) A2%(active_current _ _ _ Hi H2) E. unfold is_current in *.
  destruct (vi_entries s Hi _ _ A1) as (f1 & ? & _ & B1), (vi_entries s Hi _ _ A2) as (f2 & ? & _ & B2). destruct E; congruence.
Qed.

(** C17. While a lease is not released, the instance of its entry is open and is not
    being closed, it is the database of the vault the caller asked for, and the
    caller's key has the fingerprint of the key the database was opened with. *)
Theorem lease_keeps_vault_open s n l :
  rtc vstep NewManager s → leases s !! n = Some l → l_released l = false →
  ∃ e i, heap s !! l_entry l = Some e ∧ e_phase e = Open i ∧ e_vault e = l_vault l ∧ Sum256 (l_key l) = Sum256 (e_key e).
Proof.
  intros Hi%vault_reachable_inv Hl Hr. destruct (vi_lease s Hi n l Hl) as (e & Hp & Hx). destruct (Hx Hr) as [Hv Hk].
  pose proof (held_lease_pos _ _ _ Hl Hr). pose proof (held_rops_nonneg (rops s) (l_entry l)).
  destruct (held_live s (l_entry l) Hi) with (e := e) as ([i Hins] & _); [unfold held; lia|done|].
  exists e, i. split_and!; try done. unfold instance in Hins. destruct (e_phase e); naive_solver.
Qed.

(** While a restore replaces the database of an entry, the entry's instance is
    open, no lease on it is live, no other operation on it is pending, and new ones are
    refused because it is draining for good. *)
Theorem restore_is_exclusive s n o :
  rtc vstep NewManager s → rops s !! n = Some o → o_stage o = RRunning →
  (∃ e i, heap s !! o_entry o = Some e ∧ e_phase e = Open i ∧ e_draining e = true ∧ e_auto e = false) ∧
  (∀ m l, leases s !! m = Some l → l_entry l = o_entry o → l_released l = true) ∧
  (∀ m o', rops s !! m = Some o' → o_entry o' = o_entry o → o_released o' = false → m = n).
Proof.
  intros Hi%vault_reachable_inv Ho Hst. destruct (vi_rop s Hi n o Ho) as (e & Hp & Hd & Hs).
  destruct Hs as [Hr Hh]; [congruence|]. destruct (Hd Hr) as [Hd1 Hd2]. pose proof (held_rop_pos _ _ _ Ho Hr) as Hpos.
  pose proof (held_leases_nonneg (leases s) (o_entry o)) as Hnn. split_and!.
  - destruct (held_live s (o_entry o) Hi) with (e := e) as ([i Hins] & _); [lia|done|].
    exists e, i. split_and!; try done. unfold instance in Hins. destruct (e_phase e); naive_solver.
  - intros m l Hl El. destruct (l_released l) eqn:Er; [done|]. pose proof (held_lease_pos _ _ _ Hl Er) as Hx. rewrite El in Hx.
    unfold held in Hh. lia.
  - intros m o' Ho' Eo Er. destruct (decide (m = n)) as [|Hne]; [done|]. exfalso.
    pose proof (held_rops_release s n o (o_entry o) (RestoreOp (o_entry o) true RWaiting) Ho Hr eq_refl) as Hx.
    rewrite bool_decide_eq_true_2 in Hx by done. cbn in Hx.
    assert (0 < held_rops (<[n := RestoreOp (o_entry o) true RWaiting]> (rops s)) (o_entry o)) as Hy.
    { apply (size_filter_pos _ _ m o'); [by rewrite lookup_insert_ne|]. by split. }
    unfold held in Hh. lia.
Qed.
End Manager.

(** * Runs at concrete inputs: open, borrow, restore *)
Module Demo.
Definition sum (k : list Z) : list Z := k.
Definition run (s : vstate) (f : vstate → option vstate) : vstate := default s (f s).
Definition s1 : vstate := (Acquire sum "alice" "vault-0000000000" [7] NewManager).2.
Definition s2 : vstate := run s1 (open_returns 0).
Definition s3 : vstate := run s2 (λ s, snd <$> finishOpening 0 s).
(** Lease 2 is the root, lease 3 a borrowed child, operation 4 the restore. *)
Definition s4 : vstate := (Borrow 2 s3).2.
Definition s5 : vstate := (BeginRestore 2 s4).2.
Definition s6 : vstate := Release 2 (Release 3 s5).
Definition s7 : vstate := run s6 (waitForReferences 4).
Definition s8 : vstate := run s7 (RestoreSnapshot 4).

Lemma reach4 : rtc (vstep sum) NewManager s4.
Proof.
  eapply rtc_l; [apply (vs_acquire sum "alice" "vault-0000000000" [7])|]. eapply rtc_l; [apply (vs_open sum 0 s1 s2); by vm_compute|].
  eapply rtc_l; [apply (vs_finish sum 0 s2 (ALease 2, s3)); by vm_compute|]. eapply rtc_l; [apply (vs_borrow sum 2)|]. apply rtc_refl.
Qed.
Lemma reach8 : rtc (vstep sum) NewManager s8.
Proof.
  etrans; [apply reach4|]. eapply rtc_l; [apply (vs_restore sum 2)|]. eapply rtc_l; [apply (vs_release sum 3)|].
  eapply rtc_l; [apply (vs_release sum 2)|]. eapply rtc_l; [apply (vs_alone sum 4 s6 s7); by vm_compute|].
  eapply rtc_l; [apply (vs_restore_starts sum 4 s7 s8); by vm_compute|]. apply rtc_refl.
Qed.
Definition entry4 : entry := default (Entry "" "" [] [] Failed 0 0 false false None) (heap s4 !! 0%nat).
End Demo.

Lemma vault_opened_once_witness :
  heap Demo.s4 !! 0%nat = Some Demo.entry4 ∧ active Demo.entry4 = true ∧ (0 = 0)%nat.
Proof.
  split; [by vm_compute|]. split; [by vm_compute|].
  apply (vault_opened_once Demo.sum Demo.s4 0 0 Demo.entry4 Demo.entry4 Demo.reach4); [by vm_compute..|by left].
Defined.

Lemma lease_keeps_vault_open_witness :
  ∃ e i, heap Demo.s4 !! 0%nat = Some e ∧ e_phase e = Open i ∧ e_vault e = "vault-0000000000" ∧ Demo.sum [7] = Demo.sum (e_key e).
Proof.
  apply (lease_keeps_vault_open Demo.sum Demo.s4 3 (Lease 0 false false "vault-0000000000" [7]) Demo.reach4); by vm_compute.
Defined.

Lemma restore_is_exclusive_witness :
  (∃ e i, heap Demo.s8 !! 0%nat = Some e ∧ e_phase e = Open i ∧ e_draining e = true ∧ e_auto e = false) ∧
  (∀ m l, leases Demo.s8 !! m = Some l → l_entry l = 0%nat → l_released l = true) ∧
  (∀ m o', rops Demo.s8 !! m = Some o' → o_entry o' = 0%nat → o_released o' = false → m = 4%nat).
Proof. apply (restore_is_exclusive Demo.sum Demo.s8 4 (RestoreOp 0 false RRunning) Demo.reach8); by vm_compute. Defined.
