(* ===== verification/Session.v ===== *)
(** Server sessions ([middleware/session.go]): configuration, creation, lookup,
    rotation, revocation, expiry and the ownership of the vault roots.

    Every method of [SessionManager] is one critical section of its mutex, so a run
    is a sequence of calls. Times and durations are nanoseconds. What the vault
    lease of a call answers (its owner, [ValidateSessionRoot], [Borrow],
    [BeginRestore], modelled in Vault) is an argument of the call. A root whose
    [Release] a section hands to its caller is recorded in [released]. *)
From Stdlib Require Import ZArith Lia.
From stdpp Require Import base gmap list strings sorting.
From S2P Require Import Prelude GoText Control Vault.
Open Scope Z_scope.

Module Session.

(** * Durations *)
Definition Second : Z := 1000000000.
Definition Minute : Z := 60 * Second.
Definition Hour : Z := 60 * Minute.
Definition DefaultSessionMaxAge : Z := 8 * Hour.
Definition DefaultSessionIdleTimeout : Z := 15 * Minute.
Definition DefaultRecentAuthAge : Z := 5 * Minute.
Definition DefaultMaxConcurrent : Z := 3.
Definition minSessionMaxAge : Z := Hour.
Definition maxSessionMaxAge : Z := 7 * 24 * Hour.
Definition minSessionIdleTimeout : Z := 5 * Minute.
Definition maxSessionIdleTimeout : Z := 2 * Hour.
Definition minRecentAuthAge : Z := Minute.
Definition maxRecentAuthAge : Z := 30 * Minute.
Definition maxConcurrentSessionCeiling : Z := 10.

(** [int64] arithmetic wraps; [Time.Sub] saturates. *)
Definition wrap64 (n : Z) : Z := (n + 2 ^ 63) mod 2 ^ 64 - 2 ^ 63.
Definition Sub (t u : Z) : Z := Z.max (- 2 ^ 63) (Z.min (2 ^ 63 - 1) (t - u)).

(** * Configuration *)
Record SessionConfig := Config { MaxAge : Z; IdleTimeout : Z; RecentAuthAge : Z; MaxConcurrent : Z }.
Definition DefaultSessionConfig : SessionConfig :=
  Config DefaultSessionMaxAge DefaultSessionIdleTimeout DefaultRecentAuthAge DefaultMaxConcurrent.

Definition durationEnv (env : string → string) (name : string) (unit fallback minimum maximum : Z) : option Z :=
  let raw := TrimSpace (env name) in
  if bool_decide (raw = "") then Some fallback
  else match ParseInt raw 32 with
       | Some value =>
         if value <=? 0 then None
         else
           let duration := wrap64 (value * unit) in
           if (duration <? minimum) || (duration >? maximum) then None else Some duration
       | None => None
       end.

Definition concurrentEnv (env : string → string) (fallback : Z) : option Z :=
  let raw := TrimSpace (env "SESSION_MAX_CONCURRENT") in
  if bool_decide (raw = "") then Some fallback
  else match ParseInt raw 64 with
       | Some value => if (value <? 1) || (value >? maxConcurrentSessionCeiling) then None else Some value
       | None => None
       end.

Definition SessionConfigFromEnv (env : string → string) : option SessionConfig :=
  maxAge ← durationEnv env "SESSION_MAX_AGE_HOURS" Hour DefaultSessionMaxAge minSessionMaxAge maxSessionMaxAge;
  idle ← durationEnv env "SESSION_IDLE_TIMEOUT_MINUTES" Minute DefaultSessionIdleTimeout minSessionIdleTimeout maxSessionIdleTimeout;
  recent ← durationEnv env "SESSION_REAUTH_MAX_AGE_MINUTES" Minute DefaultRecentAuthAge minRecentAuthAge maxRecentAuthAge;
  concurrent ← concurrentEnv env DefaultMaxConcurrent;
  if idle >? maxAge then None
  else if recent >? idle then None
  else Some (Config maxAge idle recent concurrent).

Definition SessionMaxAgeFromEnv (env : string → string) : Z :=
  match SessionConfigFromEnv env with Some c => MaxAge c | None => DefaultSessionMaxAge end.

Definition minDuration (a b : Z) : Z := if a <? b then a else b.

(** * State *)
Record Session := MkSession {
  familyID : string;
  ID : string;
  Username : string;
  UserID : string;
  Email : string;
  DisplayName : string;
  SRole : option Role;
  CreatedAt : Z;
  LastSeenAt : Z;
  ExpiresAt : Z;
  ReauthenticatedAt : Z;
  CSRFToken : string
}.

(** [root]: the vault root the record owns. *)
Record sessionRecord := SRecord { session : Session; root : option nat }.

Record manager := Manager {
  config : SessionConfig;
  sessions : gmap string sessionRecord;
  closed : bool;
  released : list nat
}.

Inductive serror := errSessionNotFound | ErrSessionManagerClosed | ErrInvalidVaultSession | ERandom | EVault (e : verror).

Definition normal_config (c : SessionConfig) : SessionConfig :=
  let d := DefaultSessionConfig in
  let maxAge := if MaxAge c <=? 0 then MaxAge d else MaxAge c in
  let idle := if (IdleTimeout c <=? 0) || (IdleTimeout c >? maxAge) then minDuration (IdleTimeout d) maxAge else IdleTimeout c in
  let recent := if (RecentAuthAge c <=? 0) || (RecentAuthAge c >? idle) then minDuration (RecentAuthAge d) idle else RecentAuthAge c in
  let concurrent := if MaxConcurrent c <=? 0 then MaxConcurrent d else MaxConcurrent c in
  Config maxAge idle recent concurrent.

Definition NewSessionManagerWithConfig (c : SessionConfig) : manager := Manager (normal_config c) ∅ false [].

Definition NewSessionManager (maxAge : Z) : manager :=
  let d := DefaultSessionConfig in
  NewSessionManagerWithConfig
    (if 0 <? maxAge then
       let idle := if IdleTimeout d >? maxAge then maxAge else IdleTimeout d in
       let recent := if RecentAuthAge d >? idle then idle else RecentAuthAge d in
       Config maxAge idle recent (MaxConcurrent d)
     else d).

Definition set_sessions (s : gmap string sessionRecord) (m : manager) : manager := Manager (config m) s (closed m) (released m).
Definition release (roots : list nat) (m : manager) : manager := Manager (config m) (sessions m) (closed m) (released m ++ roots).

(** * Secrets *)
(** [hex.EncodeToString] of a read of [rand]; [None] is an error of the read. *)
Definition hex_digit (n : Z) : Z := if n <? 10 then 48 + n else 87 + n.
Definition EncodeToString (l : list Z) : string := of_bytes (concat ((λ b, [hex_digit (b / 16); hex_digit (b mod 16)]) <$> l)).
Definition randomHex (size : nat) (read : option (list Z)) : option string :=
  b ← read; if bool_decide (length b = size) then Some (EncodeToString b) else None.

Definition draw : Type := option (list Z) * option (list Z).
Definition generateSessionSecrets (d : draw) : option (string * string) :=
  id ← randomHex 32 d.1; csrf ← randomHex 32 d.2; Some (id, csrf).

Definition hex_rune (c : Z) : bool := between 48 57 c || between 97 102 c.
Definition isCanonicalSessionSecret (v : string) : bool := (len v =? 64) && forallb hex_rune (runes v).

(** * Expiry and removal *)
Definition expiredLocked (m : manager) (r : sessionRecord) (now : Z) : bool :=
  negb (now <? ExpiresAt (session r)) || (IdleTimeout (config m) <=? Sub now (LastSeenAt (session r))).

Definition deleteRecordLocked (id : string) (m : manager) : option nat * manager :=
  (sessions m !! id ≫= root, set_sessions (delete id (sessions m)) m).

(** The removals that range over the map, with the roots they hand out. *)
Definition roots_of (s : gmap string sessionRecord) : list nat := omap (λ x, root x.2) (map_to_list s).
Definition delete_where (P : string → sessionRecord → bool) (m : manager) : list nat * manager :=
  (roots_of (filter (λ x, P x.1 x.2 = true) (sessions m)), set_sessions (filter (λ x, P x.1 x.2 = false) (sessions m)) m).

Definition purgeExpiredLocked (now : Z) (m : manager) : list nat * manager := delete_where (λ _ r, expiredLocked m r now) m.

Definition sessionOwnerKey (s : Session) : string :=
  if bool_decide (UserID s = "") then "username" +:+ String (Ascii.ascii_of_nat 0) (Username s)
  else "user-id" +:+ String (Ascii.ascii_of_nat 0) (UserID s).

(** The order in which [range] visits the records of a map. *)
Definition order : Type := gmap string sessionRecord → list (string * sessionRecord).

Definition scan_oldest (owner : string) (acc : Z * string * Z) (x : string * sessionRecord) : Z * string * Z :=
  let '(count, oldestID, oldest) := acc in
  if bool_decide (sessionOwnerKey (session x.2) = owner) then
    if bool_decide (oldestID = "") || (CreatedAt (session x.2) <? oldest) then (count + 1, x.1, CreatedAt (session x.2))
    else (count + 1, oldestID, oldest)
  else acc.

Fixpoint evict_loop (fuel : nat) (iter : order) (owner : string) (m : manager) : list nat * manager :=
  match fuel with
  | O => ([], m)
  | S fuel' =>
    let '(count, oldestID, _) := fold_left (scan_oldest owner) (iter (sessions m)) (0, "", 0) in
    if (count <? MaxConcurrent (config m)) || bool_decide (oldestID = "") then ([], m)
    else
      let '(r, m1) := deleteRecordLocked oldestID m in
      let '(roots, m2) := evict_loop fuel' iter owner m1 in
      (option_list r ++ roots, m2)
  end.
Definition evictOldestForOwnerLocked (iter : order) (owner : string) (m : manager) : list nat * manager :=
  evict_loop (S (size (sessions m))) iter owner m.

(** * Operations *)
(** What the vault lease offered to a new session answers. *)
Record lease_view := LeaseView {
  lv_root : nat;
  lv_user : string;
  lv_vault : string;
  lv_service : bool;
  lv_validate : res verror unit
}.

Definition createSession (username : string) (user : option UserSummary) (lv : option lease_view) (d : draw) (now : Z) (iter : order)
    (m : manager) : res serror Session * manager :=
  match generateSessionSecrets d with
  | None => (Err ERandom, m)
  | Some (sessionID, csrfToken) =>
    let s :=
      MkSession sessionID sessionID username
        (from_option us_ID "" user) (from_option us_Email "" user) (from_option us_DisplayName "" user) (us_Role <$> user)
        now now (now + MaxAge (config m)) now csrfToken in
    if closed m then (Err ErrSessionManagerClosed, m)
    else match from_option lv_validate (Ok tt) lv with
         | Err e => (Err (EVault e), m)
         | Ok _ =>
           let '(roots, m1) := purgeExpiredLocked now m in
           let '(roots', m2) := evictOldestForOwnerLocked iter (sessionOwnerKey s) m1 in
           (Ok s, release (roots ++ roots') (set_sessions (<[sessionID := SRecord s (lv_root <$> lv)]> (sessions m2)) m2))
         end
  end.

Definition CreateSession (username : string) := createSession username None None.

(** The source also refuses a role other than the two that exist; here a role is one of
    them. *)
Definition CreateVaultSession (user : UserSummary) (lv : option lease_view) (d : draw) (now : Z) (iter : order) (m : manager)
    : res serror Session * manager :=
  match lv with
  | None => (Err ErrInvalidVaultSession, m)
  | Some l =>
    if bool_decide (lv_user l = "") || bool_decide (lv_vault l = "") || negb (lv_service l) then (Err ErrInvalidVaultSession, m)
    else if bool_decide (us_ID user = "") || bool_decide (us_Email user = "") || negb (bool_decide (us_State user = UserActive))
            || negb (bool_decide (lv_user l = us_ID user))
    then (Err ErrInvalidVaultSession, m)
    else createSession (us_Email user) (Some user) (Some l) d now iter m
  end.

(** The lookup the other sections share: a missing or expired record is removed. *)
Definition find_live (id : string) (now : Z) (m : manager) : option sessionRecord * manager :=
  match sessions m !! id with
  | Some r =>
    if expiredLocked m r now then let '(o, m') := deleteRecordLocked id m in (None, release (option_list o) m')
    else (Some r, m)
  | None => (None, m)
  end.

Definition touch (now : Z) (s : Session) : Session :=
  MkSession (familyID s) (ID s) (Username s) (UserID s) (Email s) (DisplayName s) (SRole s) (CreatedAt s) now (ExpiresAt s)
    (ReauthenticatedAt s) (CSRFToken s).

Definition GetSession (id : string) (now : Z) (m : manager) : option Session * manager :=
  if negb (isCanonicalSessionSecret id) || closed m then (None, m)
  else match find_live id now m with
       | (None, m') => (None, m')
       | (Some r, m') =>
         let s := touch now (session r) in (Some s, set_sessions (<[id := SRecord s (root r)]> (sessions m')) m')
       end.

(** [borrowVaultSessionFromRequest] after the cookie: [borrowed] is the answer of
    the root's [Borrow]. *)
Definition borrowVaultSession (id : string) (now : Z) (borrowed : res verror nat) (m : manager) : option (Session * nat) * manager :=
  if negb (isCanonicalSessionSecret id) || closed m then (None, m)
  else match find_live id now m with
       | (None, m') => (None, m')
       | (Some r, m') =>
         if bool_decide (root r = None) || bool_decide (UserID (session r) = "") then (None, m')
         else match borrowed with
              | Err _ => let '(o, m2) := deleteRecordLocked id m' in (None, release (option_list o) m2)
              | Ok child =>
                let s := touch now (session r) in
                (Some (s, child), set_sessions (<[id := SRecord s (root r)]> (sessions m')) m')
              end
       end.

Definition DeleteSession (id : string) (m : manager) : manager :=
  if negb (isCanonicalSessionSecret id) then m
  else let '(o, m') := deleteRecordLocked id m in release (option_list o) m'.

Definition release_where (P : string → sessionRecord → bool) (m : manager) : manager :=
  let '(roots, m') := delete_where P m in release roots m'.

Definition RevokeSession (s : Session) (m : manager) : manager :=
  if negb (isCanonicalSessionSecret (ID s)) then m
  else release_where (λ id r, bool_decide (id = ID s)
         || (negb (bool_decide (familyID s = "")) && bool_decide (familyID (session r) = familyID s))) m.

Definition count_where (P : string → sessionRecord → bool) (m : manager) : Z :=
  Z.of_nat (size (filter (λ x, P x.1 x.2 = true) (sessions m))).

Definition DeleteAllSessions (username : string) (m : manager) : Z * manager :=
  let P := λ (_ : string) r, bool_decide (Username (session r) = username) in (count_where P m, release_where P m).

Definition DeleteAllSessionsForUser (userID : string) (m : manager) : Z * manager :=
  if bool_decide (userID = "") then (0, m)
  else let P := λ (_ : string) r, bool_decide (UserID (session r) = userID) in (count_where P m, release_where P m).

(** [began] is the answer of the root's [BeginRestore]. *)
Definition BeginRestore (id : string) (now : Z) (began : res verror nat) (m : manager) : res serror (nat * string) :=
  if negb (isCanonicalSessionSecret id) || closed m then Err errSessionNotFound
  else match sessions m !! id with
       | Some r =>
         if expiredLocked m r now || bool_decide (root r = None) || bool_decide (UserID (session r) = "") then Err errSessionNotFound
         else match began with Ok o => Ok (o, UserID (session r)) | Err e => Err (EVault e) end
       | None => Err errSessionNotFound
       end.

Definition rotate (newID newCSRF : string) (now : Z) (s : Session) : Session :=
  MkSession (familyID s) newID (Username s) (UserID s) (Email s) (DisplayName s) (SRole s) (CreatedAt s) now (ExpiresAt s) now newCSRF.

Definition RotateAfterReauthentication (oldID : string) (d : draw) (now : Z) (m : manager) : res serror Session * manager :=
  if negb (isCanonicalSessionSecret oldID) then (Err errSessionNotFound, m)
  else match generateSessionSecrets d with
       | None => (Err ERandom, m)
       | Some (newID, newCSRF) =>
         if closed m then (Err errSessionNotFound, m)
         else match find_live oldID now m with
              | (None, m') => (Err errSessionNotFound, m')
              | (Some r, m') =>
                let s := rotate newID newCSRF now (session r) in
                (Ok s, set_sessions (<[newID := SRecord s (root r)]> (delete oldID (sessions m'))) m')
              end
       end.

Definition ValidateCSRF (id token : string) (now : Z) (m : manager) : bool * manager :=
  if negb (isCanonicalSessionSecret id) || negb (isCanonicalSessionSecret token) || closed m then (false, m)
  else match find_live id now m with
       | (None, m') => (false, m')
       | (Some r, m') => (bool_decide (CSRFToken (session r) = token), m')
       end.

Definition IsRecent (id : string) (now : Z) (m : manager) : bool * manager :=
  if negb (isCanonicalSessionSecret id) || closed m then (false, m)
  else match find_live id now m with
       | (None, m') => (false, m')
       | (Some r, m') => (Sub now (ReauthenticatedAt (session r)) <=? RecentAuthAge (config m'), m')
       end.

(** A tick of [cleanupLoop]. *)
Definition cleanup (now : Z) (m : manager) : manager :=
  let '(roots, m') := purgeExpiredLocked now m in release roots m'.

Definition CloseContext (m : manager) : manager :=
  let '(roots, m') := delete_where (λ _ _, true) m in
  release roots (Manager (config m') (sessions m') true (released m')).

Definition IdleTimeoutSeconds (m : manager) : Z := Z.quot (IdleTimeout (config m)) Second.

(** * Runs *)
Inductive session_call :=
| SCreate (username : string) (d : draw) (now : Z) (iter : order)
| SCreateVault (user : UserSummary) (lv : lease_view) (d : draw) (now : Z) (iter : order)
| SGet (id : string) (now : Z)
| SBorrow (id : string) (now : Z) (borrowed : res verror nat)
| SDelete (id : string)
| SRevoke (s : Session)
| SDeleteAll (username : string)
| SDeleteUser (userID : string)
| SRotate (id : string) (d : draw) (now : Z)
| SValidateCSRF (id token : string) (now : Z)
| SIsRecent (id : string) (now : Z)
| SCleanup (now : Z)
| SClose.

Definition call (c : session_call) (m : manager) : manager :=
  match c with
  | SCreate u d now iter => (CreateSession u d now iter m).2
  | SCreateVault u lv d now iter => (CreateVaultSession u (Some lv) d now iter m).2
  | SGet id now => (GetSession id now m).2
  | SBorrow id now b => (borrowVaultSession id now b m).2
  | SDelete id => DeleteSession id m
  | SRevoke s => RevokeSession s m
  | SDeleteAll u => (DeleteAllSessions u m).2
  | SDeleteUser u => (DeleteAllSessionsForUser u m).2
  | SRotate id d now => (RotateAfterReauthentication id d now m).2
  | SValidateCSRF id tok now => (ValidateCSRF id tok now m).2
  | SIsRecent id now => (IsRecent id now m).2
  | SCleanup now => cleanup now m
  | SClose => CloseContext m
  end.

(** The root a call hands over to the manager. *)
Definition accepted (c : session_call) (m : manager) : list nat :=
  match c with
  | SCreateVault u lv d now iter => if is_ok (CreateVaultSession u (Some lv) d now iter m).1 then [lv_root lv] else []
  | _ => []
  end.

Fixpoint run (cs : list session_call) (m : manager) : list nat * manager :=
  match cs with
  | [] => ([], m)
  | c :: cs' => let '(acc, m') := run cs' (call c m) in (accepted c m ++ acc, m')
  end.

(** The identifier a call draws. *)
Definition drawn (c : session_call) : list string :=
  match c with
  | SCreate _ d _ _ | SCreateVault _ _ d _ _ | SRotate _ d _ => option_list (fst <$> generateSessionSecrets d)
  | _ => []
  end.
Definition visits (iter : order) : Prop := ∀ s, iter s ≡ₚ map_to_list s.
Definition call_ok (c : session_call) : Prop :=
  match c with SCreate _ _ _ iter | SCreateVault _ _ _ _ iter => visits iter | _ => True end.

(** * Removal *)
Lemma roots_insert_fresh s id r : s !! id = None → roots_of (<[id := r]> s) ≡ₚ option_list (root r) ++ roots_of s.
Proof. intros Hid. unfold roots_of. rewrite map_to_list_insert by done. cbn. by destruct (root r). Qed.
Lemma roots_delete s id r : s !! id = Some r → roots_of s ≡ₚ option_list (root r) ++ roots_of (delete id s).
Proof. intros Hid. rewrite <- (insert_delete_id s id r Hid) at 1. apply roots_insert_fresh, lookup_delete_eq. Qed.
Lemma roots_update s id r r' : s !! id = Some r → root r' = root r → roots_of (<[id := r']> s) ≡ₚ roots_of s.
Proof.
  intros Hid Hr. rewrite <- (insert_delete_eq s id r'), roots_insert_fresh, Hr by apply lookup_delete_eq. by rewrite <- roots_delete.
Qed.
Lemma roots_filter (P : string → sessionRecord → bool) s :
  roots_of s ≡ₚ roots_of (filter (λ x, P x.1 x.2 = true) s) ++ roots_of (filter (λ x, P x.1 x.2 = false) s).
Proof.
  induction s as [|id r s Hid IH] using map_ind; [by rewrite !map_filter_empty|].
  rewrite roots_insert_fresh, IH by done. destruct (P id r) eqn:HP.
  - rewrite map_filter_insert_True, (map_filter_insert_False (λ x, P x.1 x.2 = false)) by (cbn; congruence).
    rewrite delete_id by done. rewrite roots_insert_fresh by (apply map_lookup_filter_None; auto). by rewrite app_assoc.
  - rewrite map_filter_insert_False, (map_filter_insert_True (λ x, P x.1 x.2 = false)) by (cbn; congruence).
    rewrite delete_id by done. rewrite roots_insert_fresh by (apply map_lookup_filter_None; auto). rewrite !app_assoc.
    apply Permutation_app_tail, Permutation_app_comm.
Qed.

(** [m'] is [m] without some records, whose roots are [roots]. *)
Record shrunk (m m' : manager) (roots : list nat) : Prop := {
  sh_sub : sessions m' ⊆ sessions m;
  sh_roots : roots_of (sessions m) ≡ₚ roots ++ roots_of (sessions m');
  sh_config : config m' = config m;
  sh_closed : closed m' = closed m;
  sh_released : released m' = released m
}.

Lemma shrunk_refl m : shrunk m m []. Proof. done. Qed.
Lemma shrunk_trans m1 m2 m3 r1 r2 : shrunk m1 m2 r1 → shrunk m2 m3 r2 → shrunk m1 m3 (r1 ++ r2).
Proof.
  intros [A1 A2 A3 A4 A5] [B1 B2 B3 B4 B5]. split; try congruence; [by etrans|]. by rewrite A2, B2, app_assoc.
Qed.
Lemma shrunk_delete id m : let '(o, m') := deleteRecordLocked id m in shrunk m m' (option_list o).
Proof.
  cbn. destruct (sessions m !! id) as [r|] eqn:Hid; cbn.
  - split; try done; [apply delete_subseteq|]. by apply roots_delete.
  - rewrite delete_id by done. split; done.
Qed.
Lemma shrunk_where P m : let '(roots, m') := delete_where P m in shrunk m m' roots.
Proof. cbn. split; try done; [apply map_filter_subseteq|]. apply roots_filter. Qed.
Lemma shrunk_evict_loop fuel iter owner m : let '(roots, m') := evict_loop fuel iter owner m in shrunk m m' roots.
Proof.
  revert m. induction fuel as [|fuel IH]; intros m; cbn [evict_loop]; [apply shrunk_refl|].
  destruct (fold_left _ _ _) as [[count id] ?]. destruct (_ || _); [apply shrunk_refl|].
  pose proof (shrunk_delete id m) as Hd. destruct (deleteRecordLocked id m) as [o m1].
  specialize (IH m1). destruct (evict_loop fuel iter owner m1) as [roots m2]. by eapply shrunk_trans.
Qed.

(** * The sessions of an owner *)
Definition owned_by (owner : string) (x : string * sessionRecord) : Prop := sessionOwnerKey (session x.2) = owner.
#[local] Instance owned_by_dec owner x : Decision (owned_by owner x). Proof. unfold owned_by. apply _. Defined.
Definition owned (owner : string) (s : gmap string sessionRecord) : Z := Z.of_nat (size (filter (owned_by owner) s)).

Lemma owned_list owner s : owned owner s = Z.of_nat (length (filter (owned_by owner) (map_to_list s))).
Proof.
  unfold owned. f_equal. induction s as [|id r s Hid IH] using map_ind; [done|].
  rewrite map_to_list_insert by done. cbn. case_decide as Ho; cbn.
  - rewrite map_filter_insert_True by done. rewrite map_size_insert_None by (apply map_lookup_filter_None; auto). by rewrite IH.
  - rewrite map_filter_insert_False, delete_id by done. done.
Qed.
Lemma owned_mono owner s s' : s' ⊆ s → owned owner s' <= owned owner s.
Proof. intros Hs. unfold owned. apply inj_le, map_subseteq_size. by apply map_filter_subseteq_mono. Qed.

Lemma scan_spec owner l : ∀ c i t, Forall (λ x, x.1 ≠ "") l →
  let '(c', i', _) := fold_left (scan_oldest owner) l (c, i, t) in
  c' = c + Z.of_nat (length (filter (owned_by owner) l)) ∧
  (i' = i ∨ ∃ r, (i', r) ∈ l ∧ owned_by owner (i', r)) ∧ (i ≠ "" ∨ filter (owned_by owner) l ≠ [] → i' ≠ "").
Proof.
  induction l as [|[id r] l IH]; intros c i t Hl; [cbn; naive_solver lia|]; rewrite filter_cons; cbn [fold_left].
  apply Forall_cons in Hl as [Hid Hl]. cbn in Hid.
  unfold scan_oldest at 2. cbn. destruct (bool_decide (sessionOwnerKey (session r) = owner)) eqn:Ho.
  - apply bool_decide_eq_true in Ho. rewrite decide_True by done. cbn [length].
    destruct (bool_decide (i = "") || (CreatedAt (session r) <? t)) eqn:Hx.
    + specialize (IH (c + 1) id (CreatedAt (session r)) Hl). destruct (fold_left _ _ _) as [[c' i'] t'].
      destruct IH as (-> & Hi & Hne). split_and!; [lia| |by auto]. right. destruct Hi as [->|(r' & ? & ?)].
      * exists r. split; [by left|done].
      * exists r'. split; [by right|done].
    + apply orb_false_iff in Hx as [Hx%bool_decide_eq_false _].
      specialize (IH (c + 1) i t Hl). destruct (fold_left _ _ _) as [[c' i'] t']. destruct IH as (-> & Hi & Hne).
      split_and!; [lia| |by auto]. destruct Hi as [->|(r' & ? & ?)]; [by left|]. right. exists r'. split; [by right|done].
  - apply bool_decide_eq_false in Ho. rewrite decide_False by done.
    specialize (IH c i t Hl). destruct (fold_left _ _ _) as [[c' i'] t']. destruct IH as (-> & Hi & Hne).
    split_and!; [lia| |by auto]. destruct Hi as [->|(r' & ? & ?)]; [by left|]. right. exists r'. split; [by right|done].
Qed.

(** The eviction stops, below the limit of the owner. *)
Lemma evict_bound fuel iter owner m :
  visits iter → (∀ id r, sessions m !! id = Some r → id ≠ "") → 1 <= MaxConcurrent (config m) → (size (sessions m) < fuel)%nat →
  owned owner (sessions (evict_loop fuel iter owner m).2) < MaxConcurrent (config m).
Proof.
  intros Hit. revert m. induction fuel as [|fuel IH]; intros m Hne Hmax Hf; [lia|]. cbn [evict_loop].
  assert (Forall (λ x, x.1 ≠ "") (iter (sessions m))) as Hall.
  { apply Forall_forall. intros [id r] Hin. rewrite (Hit (sessions m)) in Hin. apply elem_of_map_to_list in Hin. by apply (Hne id r). }
  pose proof (scan_spec owner (iter (sessions m)) 0 "" 0 Hall) as Hs.
  assert (length (filter (owned_by owner) (iter (sessions m))) = length (filter (owned_by owner) (map_to_list (sessions m)))) as Hlen
    by (by rewrite (Hit (sessions m))).
  destruct (fold_left _ _ _) as [[count id] tt]. destruct Hs as (-> & Hid & Hnz). rewrite Hlen, <- owned_list in *.
  destruct (Z.ltb_spec (0 + owned owner (sessions m)) (MaxConcurrent (config m))); [cbn; lia|]. cbn [orb].
  assert (filter (owned_by owner) (iter (sessions m)) ≠ []) as Hfil.
  { intros E. rewrite E in Hlen. pose proof (owned_list owner (sessions m)). rewrite <- Hlen in *. cbn in *. lia. }
  specialize (Hnz (or_intror Hfil)). rewrite bool_decide_eq_false_2 by done.
  destruct Hid as [->|(r & Hin & Hown)]; [done|]. rewrite (Hit (sessions m)) in Hin. apply elem_of_map_to_list in Hin.
  cbn [deleteRecordLocked]. pose proof (IH (set_sessions (delete id (sessions m)) m)) as IH'. cbn in IH'.
  destruct (evict_loop fuel iter owner _) as [roots m2]. cbn in *. apply IH'; [|done|].
  - intros k r' [_ Hk]%lookup_delete_Some. by apply (Hne k r').
  - assert (size (sessions m) ≠ 0%nat) by (intros E%map_size_empty_inv; by rewrite E, lookup_empty in Hin).
    rewrite map_size_delete_Some by eauto. lia.
Qed.

(** * Secrets are canonical *)
Lemma hex_digit_rune n : 0 <= n < 16 → hex_rune (hex_digit n) = true ∧ 0 <= hex_digit n < 128.
Proof. unfold hex_digit, hex_rune, between. destruct (Z.ltb_spec n 10); lia. Qed.
Lemma runes_ascii l : Forall (λ b, 0 <= b < 128) l → runes (of_bytes l) = l.
Proof.
  intros Hl. unfold runes. rewrite bytes_of_bytes by (eapply Forall_impl; [done|]; unfold is_byte; cbn; lia).
  assert (concat ((λ b, [b]) <$> l) = l) as E by (clear; induction l; cbn; congruence). rewrite <- E at 1.
  rewrite runes_w_concat.
  - rewrite <- !list_fmap_compose. rewrite <- (list_fmap_id l) at 2. apply list_fmap_ext. intros i b Hb. cbn.
    rewrite Forall_lookup in Hl. specialize (Hl i b Hb). cbn in Hl. unfold DecodeRune. by destruct (Z.ltb_spec b 128); [|lia].
  - apply Forall_fmap. eapply Forall_impl; [done|]. cbn. intros b Hb. apply is_chunk_ascii. lia.
Qed.

Lemma hex_bytes l : Forall is_byte l →
  Forall (λ b, hex_rune b = true ∧ 0 <= b < 128) (concat ((λ b, [hex_digit (b / 16); hex_digit (b mod 16)]) <$> l)) ∧
  length (concat ((λ b, [hex_digit (b / 16); hex_digit (b mod 16)]) <$> l)) = (2 * length l)%nat.
Proof.
  induction l as [|b l IH]; intros Hl; cbn; [done|]. apply Forall_cons in Hl as [Hb Hl]. destruct (IH Hl) as [IH1 IH2].
  unfold is_byte in Hb. split; [|cbn; rewrite IH2; lia].
  repeat apply Forall_cons_2; [apply hex_digit_rune; split; [apply Z.div_pos|apply Z.div_lt_upper_bound]; lia|
    apply hex_digit_rune, Z.mod_pos_bound; lia|done].
Qed.

Lemma EncodeToString_canonical l : Forall is_byte l → length l = 32%nat → isCanonicalSessionSecret (EncodeToString l) = true.
Proof.
  intros Hl Hlen. destruct (hex_bytes l Hl) as [H1 H2]. unfold isCanonicalSessionSecret, EncodeToString, len.
  rewrite runes_ascii by (eapply Forall_impl; [done|]; cbn; naive_solver).
  rewrite bytes_of_bytes by (eapply Forall_impl; [done|]; unfold is_byte; cbn; naive_solver lia).
  rewrite H2, Hlen. apply andb_true_intro. split; [done|]. apply Is_true_true, forallb_True.
  eapply Forall_impl; [done|]. cbn. intros ? [-> _]. done.
Qed.

Lemma drawn_nonempty d id csrf : generateSessionSecrets d = Some (id, csrf) → id ≠ "".
Proof.
  unfold generateSessionSecrets, randomHex. destruct d as [[[|b l]|] [r|]]; cbn; try done; repeat case_bool_decide; cbn; try done.
  intros [= <- _]. unfold EncodeToString. cbn. done.
Qed.

(** * The invariant of a run *)
(** [used]: the identifiers drawn so far; [acc]: the roots handed over so far. *)
Record sinv (used : list string) (acc : list nat) (m : manager) : Prop := {
  si_record : ∀ id r, sessions m !! id = Some r →
    ID (session r) = id ∧ id ∈ used ∧ id ≠ "" ∧ familyID (session r) ∈ used ∧ familyID (session r) ≠ "" ∧
    ExpiresAt (session r) = CreatedAt (session r) + MaxAge (config m);
  si_roots : roots_of (sessions m) ++ released m ≡ₚ acc;
  si_closed : closed m = true → sessions m = ∅;
  si_owned : ∀ owner, owned owner (sessions m) <= MaxConcurrent (config m);
  si_config : 1 <= MaxConcurrent (config m)
}.

Lemma shrunk_inv used acc m m' roots : sinv used acc m → shrunk m m' roots → sinv used acc (release roots m').
Proof.
  intros [H1 H2 H3 H4 H5] [S1 S2 S3 S4 S5]. split; cbn.
  - rewrite S3. intros id r Hid. apply (H1 id r). by eapply lookup_weaken.
  - rewrite S5, <- H2, S2, (Permutation_app_comm (released m)), app_assoc.
    apply Permutation_app_tail, Permutation_app_comm.
  - rewrite S4. intros Hc%H3. rewrite Hc in S1. apply (anti_symm (⊆)); [done|apply map_empty_subseteq].
  - rewrite S3. intros owner. etrans; [by apply owned_mono|]. done.
  - by rewrite S3.
Qed.

Lemma release_nil m : release [] m = m.
Proof. destruct m. unfold release. cbn. by rewrite app_nil_r. Qed.

Lemma find_live_inv used acc id now m o m' :
  sinv used acc m → find_live id now m = (o, m') → sinv used acc m' ∧ (∀ r, o = Some r → m' = m ∧ sessions m !! id = Some r ∧ expiredLocked m r now = false).
Proof.
  intros Hi. unfold find_live. destruct (sessions m !! id) as [r|] eqn:Hid; [|by intros [= <- <-]].
  destruct (expiredLocked m r now) eqn:He; [|intros [= <- <-]; naive_solver].
  pose proof (shrunk_delete id m) as Hd. destruct (deleteRecordLocked id m) as [o' m1]. intros [= <- <-]. split; [|done].
  by eapply shrunk_inv.
Qed.

(** A record replaced by one of the same owner, lifetime and root. *)
Definition same_login (s s' : Session) : Prop :=
  familyID s' = familyID s ∧ sessionOwnerKey s' = sessionOwnerKey s ∧ CreatedAt s' = CreatedAt s ∧ ExpiresAt s' = ExpiresAt s.

Lemma update_inv used acc m id r s' :
  sinv used acc m → sessions m !! id = Some r → same_login (session r) s' → ID s' = id → closed m = false →
  sinv used acc (set_sessions (<[id := SRecord s' (root r)]> (sessions m)) m).
Proof.
  intros [H1 H2 H3 H4 H5] Hid (Ef & Eo & Ec & Ee) Ei Hc. split; cbn; try done; [| |by rewrite Hc|].
  - intros k r' [[<- <-]|[_ Hk]]%lookup_insert_Some; [|by apply H1]. cbn. rewrite Ef, Ec, Ee. destruct (H1 id r Hid) as (? & ? & ? & ? & ? & ?).
    by split_and!.
  - by rewrite roots_update.
  - intros owner. pose proof (size_filter_update (owned_by owner) (sessions m) id (SRecord s' (root r)) r Hid) as E.
    rewrite (bool_decide_ext (owned_by owner (id, SRecord s' (root r))) (owned_by owner (id, r))) in E
      by (unfold owned_by; cbn; by rewrite Eo). specialize (H4 owner). unfold owned in *. lia.
Qed.

Lemma insert_inv used acc m id r :
  sinv used acc m → id ∉ used → id ≠ "" → closed m = false → ID (session r) = id → familyID (session r) ∈ id :: used → familyID (session r) ≠ "" →
  ExpiresAt (session r) = CreatedAt (session r) + MaxAge (config m) →
  owned (sessionOwnerKey (session r)) (sessions m) < MaxConcurrent (config m) →
  sinv (id :: used) (option_list (root r) ++ acc) (set_sessions (<[id := r]> (sessions m)) m).
Proof.
  intros [H1 H2 H3 H4 H5] Hn Hne Hc Ei Ef Efn Ee Ho.
  assert (sessions m !! id = None) as Hid.
  { destruct (sessions m !! id) as [r'|] eqn:E; [|done]. destruct (H1 id r' E) as (_ & ? & _). done. }
  split; cbn; try done; [| |by rewrite Hc|].
  - intros k r' [[<- <-]|[_ Hk]]%lookup_insert_Some; [split_and!; try done; by left|].
    destruct (H1 k r' Hk) as (? & ? & ? & ? & ? & ?). split_and!; try done; by right.
  - rewrite roots_insert_fresh by done. by rewrite <- app_assoc, H2.
  - intros owner. unfold owned in *. rewrite size_filter_fresh by done. specialize (H4 owner). case_bool_decide as E; cbn; [|lia].
    unfold owned_by in E. cbn in E. rewrite E in Ho. lia.
Qed.

Lemma used_mono used used' acc m : used ⊆ used' → sinv used acc m → sinv used' acc m.
Proof.
  intros Hu [H1 H2 H3 H4 H5]. split; try done. intros id r Hid. destruct (H1 id r Hid) as (? & ? & ? & ? & ? & ?). split_and!; auto.
Qed.

Lemma acc_perm used acc acc' m : acc ≡ₚ acc' → sinv used acc m → sinv used acc' m.
Proof. intros Hp [H1 H2 H3 H4 H5]. split; try done. by rewrite H2. Qed.

(** * Every call keeps it *)
Lemma createSession_inv used acc u user lv d now iter m :
  sinv used acc m → visits iter → (∀ id c, generateSessionSecrets d = Some (id, c) → id ∉ used) →
  sinv (option_list (fst <$> generateSessionSecrets d) ++ used)
    ((if is_ok (createSession u user lv d now iter m).1 then option_list (lv_root <$> lv) else []) ++ acc)
    (createSession u user lv d now iter m).2.
Proof.
  intros Hi Hit Hfresh. unfold createSession. destruct (generateSessionSecrets d) as [[id csrf]|] eqn:Hd; [|done].
  pose proof (drawn_nonempty _ _ _ Hd) as Hne. specialize (Hfresh id csrf eq_refl).
  cbn [fmap option_fmap option_map fst option_list app].
  assert (sinv (id :: used) acc m) as Hi' by (eapply used_mono; [|done]; set_solver).
  destruct (closed m) eqn:Hc; [done|]. destruct (from_option lv_validate (Ok tt) lv); [|done].
  set (s := MkSession _ _ _ _ _ _ _ _ _ _ _ _).
  pose proof (shrunk_where (λ _ r, expiredLocked m r now) m) as Hp. fold (purgeExpiredLocked now m) in Hp.
  destruct (purgeExpiredLocked now m) as [roots m1]. unfold evictOldestForOwnerLocked.
  pose proof (shrunk_evict_loop (S (size (sessions m1))) iter (sessionOwnerKey s) m1) as He.
  pose proof (evict_bound (S (size (sessions m1))) iter (sessionOwnerKey s) m1 Hit) as Hb.
  destruct (evict_loop _ iter _ m1) as [roots' m2]. cbn [fst snd is_ok] in *.
  pose proof (shrunk_trans _ _ _ _ _ Hp He) as Hs. pose proof (shrunk_inv _ _ _ _ _ Hi Hs) as Hi2. destruct Hs as [_ _ Hcfg Hcl _].
  change (sinv (id :: used) (option_list (root (SRecord s (lv_root <$> lv))) ++ acc)
    (set_sessions (<[id := SRecord s (lv_root <$> lv)]> (sessions (release (roots ++ roots') m2))) (release (roots ++ roots') m2))).
  apply insert_inv; try done.
  - cbn. by rewrite Hcl.
  - by left.
  - cbn. by rewrite Hcfg.
  - cbn [sessions config release session]. rewrite (sh_config _ _ _ He). apply Hb; [| |lia].
    + intros k r Hk. apply (si_record _ _ _ Hi k r). eapply lookup_weaken; [done|]. by destruct Hp.
    + rewrite (sh_config _ _ _ Hp). apply (si_config _ _ _ Hi).
Qed.

Lemma CreateVaultSession_inv used acc u lv d now iter m :
  sinv used acc m → visits iter → (∀ id c, generateSessionSecrets d = Some (id, c) → id ∉ used) →
  sinv (option_list (fst <$> generateSessionSecrets d) ++ used)
    ((if is_ok (CreateVaultSession u (Some lv) d now iter m).1 then [lv_root lv] else []) ++ acc)
    (CreateVaultSession u (Some lv) d now iter m).2.
Proof.
  intros Hi Hit Hf. unfold CreateVaultSession. pose proof (createSession_inv used acc (us_Email u) (Some u) (Some lv) d now iter m Hi Hit Hf) as Hc.
  destruct (_ || _); [|destruct (_ || _)]; [| |exact Hc]; cbn; (eapply used_mono; [|done]); set_solver.
Qed.

Lemma rotate_inv used acc id d now m :
  sinv used acc m → (∀ i c, generateSessionSecrets d = Some (i, c) → i ∉ used) →
  sinv (option_list (fst <$> generateSessionSecrets d) ++ used) acc (RotateAfterReauthentication id d now m).2.
Proof.
  intros Hi Hfresh.
  assert (sinv (option_list (fst <$> generateSessionSecrets d) ++ used) acc m) as Hi' by (eapply used_mono; [|done]; set_solver).
  unfold RotateAfterReauthentication. destruct (isCanonicalSessionSecret id); [|done]. cbn [negb].
  destruct (generateSessionSecrets d) as [[newID newCSRF]|] eqn:Hd; [|done]. pose proof (drawn_nonempty _ _ _ Hd) as Hne.
  specialize (Hfresh newID newCSRF eq_refl). cbn [fmap option_fmap option_map fst option_list app] in *.
  destruct (closed m) eqn:Hc; [done|]. destruct (find_live id now m) as [o m1] eqn:Hf.
  destruct (find_live_inv _ _ _ _ _ _ _ Hi' Hf) as [Hi1 Hl]. destruct o as [r|]; [|done]. destruct (Hl r eq_refl) as (-> & Hid & _).
  destruct (si_record _ _ _ Hi id r Hid) as (E1 & E2 & E3 & E4 & E5 & E6). cbn [snd].
  pose proof (shrunk_delete id m) as Hs. cbn in Hs. rewrite Hid in Hs. cbn in Hs. pose proof Hs as [S1 S2 _ _ _]. cbn in S1, S2.
  assert (sinv used (roots_of (delete id (sessions m)) ++ released m) (set_sessions (delete id (sessions m)) m)) as Hdel.
  { destruct Hi as [H1 H2 H3 H4 H5]. split; cbn; try done.
    - intros k r' Hk. apply (H1 k r'). by eapply lookup_weaken.
    - by rewrite Hc.
    - intros owner. etrans; [by apply owned_mono|done]. }
  apply (acc_perm _ (option_list (root r) ++ roots_of (delete id (sessions m)) ++ released m)).
  { rewrite app_assoc, <- S2. apply (si_roots _ _ _ Hi). }
  set (r' := SRecord (rotate newID newCSRF now (session r)) (root r)). set (m' := set_sessions (delete id (sessions m)) m).
  change (sinv (newID :: used) (option_list (root r') ++ roots_of (delete id (sessions m)) ++ released m)
    (set_sessions (<[newID := r']> (sessions m')) m')).
  apply insert_inv; try done.
  - cbn. by right.
  - cbn [sessions set_sessions config m']. change (sessionOwnerKey (session r')) with (sessionOwnerKey (session r)).
    pose proof (size_filter_fresh (owned_by (sessionOwnerKey (session r))) (delete id (sessions m)) id r (lookup_delete_eq _ _)) as E.
    rewrite insert_delete_id in E by done. rewrite bool_decide_eq_true_2 in E by done. cbn in E.
    pose proof (si_owned _ _ _ Hi (sessionOwnerKey (session r))). unfold owned in *. lia.
Qed.

Lemma release_where_inv used acc P m : sinv used acc m → sinv used acc (release_where P m).
Proof.
  intros Hi. unfold release_where. pose proof (shrunk_where P m) as Hs. destruct (delete_where P m). by eapply shrunk_inv.
Qed.
Lemma delete_inv used acc id m :
  sinv used acc m → let '(o, m') := deleteRecordLocked id m in sinv used acc (release (option_list o) m').
Proof. intros Hi. pose proof (shrunk_delete id m) as Hs. destruct (deleteRecordLocked id m). by eapply shrunk_inv. Qed.
Lemma CloseContext_inv used acc m : sinv used acc m → sinv used acc (CloseContext m).
Proof.
  intros Hi. unfold CloseContext. pose proof (shrunk_where (λ _ _, true) m) as Hs. destruct (delete_where _ m) as [roots m'] eqn:E.
  assert (sessions m' = ∅) as He.
  { injection E as _ <-. cbn. apply map_empty. intros id. apply map_lookup_filter_None. right. by intros ? _. }
  pose proof (shrunk_inv _ _ _ _ _ Hi Hs) as [H1 H2 H3 H4 H5]. by split.
Qed.

(** [closed] and a live record exclude each other. *)
Ltac session_cases := match goal with
  | |- context [if ?b then _ else _] => destruct b eqn:?; try done
  end.

Lemma live_inv used acc id now m (Hi : sinv used acc m) :
  sinv used acc (GetSession id now m).2 ∧ (∀ b, sinv used acc (borrowVaultSession id now b m).2) ∧
  (∀ tok, sinv used acc (ValidateCSRF id tok now m).2) ∧ sinv used acc (IsRecent id now m).2.
Proof.
  unfold GetSession, borrowVaultSession, ValidateCSRF, IsRecent.
  destruct (closed m) eqn:Hc; [by rewrite ?orb_true_r; split_and!; intros; rewrite ?orb_true_r|]. rewrite !orb_false_r.
  destruct (isCanonicalSessionSecret id); [|done]. cbn [negb orb].
  destruct (find_live id now m) as [o m1] eqn:Hf. destruct (find_live_inv _ _ _ _ _ _ _ Hi Hf) as [Hi1 Hl].
  destruct o as [r|]; [|by split_and!; intros; repeat session_cases]. destruct (Hl r eq_refl) as (-> & Hid & _).
  destruct (si_record _ _ _ Hi id r Hid) as (Eid & _).
  assert (sinv used acc (set_sessions (<[id := SRecord (touch now (session r)) (root r)]> (sessions m)) m)) as Ht
    by (by apply update_inv).
  split_and!; [done| |intros; by repeat session_cases|done].
  intros b. destruct (_ || _); [done|]. destruct b as [child|e]; [done|]. by apply (delete_inv used acc id m).
Qed.

Lemma call_inv used acc c m :
  sinv used acc m → call_ok c → (∀ id, id ∈ drawn c → id ∉ used) → sinv (drawn c ++ used) (accepted c m ++ acc) (call c m).
Proof.
  intros Hi Hok Hf. destruct c; cbn [call drawn accepted call_ok app] in *;
    try (by apply (live_inv used acc)); try (by apply release_where_inv).
  - assert (∀ i c, generateSessionSecrets d = Some (i, c) → i ∉ used) as Hf' by (intros i c E; apply Hf; rewrite E; set_solver).
    pose proof (createSession_inv used acc username None None d now iter m Hi Hok Hf') as H.
    unfold CreateSession in *. by destruct (is_ok _).
  - apply CreateVaultSession_inv; try done. intros i c E. apply Hf. rewrite E. set_solver.
  - unfold DeleteSession. session_cases. by apply (delete_inv used acc id m).
  - unfold RevokeSession. session_cases. by apply release_where_inv.
  - unfold DeleteAllSessionsForUser. session_cases. by apply release_where_inv.
  - apply rotate_inv; try done. intros i c E. apply Hf. rewrite E. set_solver.
  - by apply CloseContext_inv.
Qed.

Definition draws (cs : list session_call) : list string := concat (drawn <$> cs).

Lemma run_inv cs : ∀ used acc m,
  sinv used acc m → Forall call_ok cs → NoDup (draws cs) → (∀ id, id ∈ draws cs → id ∉ used) →
  let '(a, m') := run cs m in ∃ used', used ⊆ used' ∧ draws cs ⊆ used' ∧ (∀ id, id ∈ used' → id ∈ used ∨ id ∈ draws cs) ∧ sinv used' (a ++ acc) m'.
Proof.
  induction cs as [|c cs IH]; intros used acc m Hi Hok Hnd Hf; cbn [run].
  { exists used. split_and!; [done|set_solver|auto|done]. }
  apply Forall_cons in Hok as [Hc Hok]. unfold draws in Hnd, Hf. cbn in Hnd, Hf. apply NoDup_app in Hnd as (_ & Hdis & Hnd).
  pose proof (call_inv used acc c m Hi Hc) as Hi1. specialize (IH (drawn c ++ used) (accepted c m ++ acc) (call c m)).
  destruct (run cs (call c m)) as [a m']. destruct IH as (used' & H1 & H2 & H3 & H4).
  - apply Hi1. intros id Hid. apply Hf. set_solver.
  - done.
  - done.
  - intros id Hid [Hx|Hx]%elem_of_app; [by apply (Hdis id)|]. apply (Hf id); [|done]. fold (draws cs). set_solver.
  - exists used'. split_and!.
    + set_solver.
    + unfold draws. cbn. fold (draws cs). set_solver.
    + intros id Hid%H3. unfold draws. cbn. fold (draws cs). set_solver.
    + eapply acc_perm; [|done]. rewrite !app_assoc. apply Permutation_app_tail, Permutation_app_comm.
Qed.

Lemma new_inv c : sinv [] [] (NewSessionManagerWithConfig c).
Proof.
  assert (1 <= MaxConcurrent (normal_config c)) as Hm.
  { cbn [normal_config MaxConcurrent DefaultSessionConfig]. destruct (Z.leb_spec (MaxConcurrent c) 0); unfold DefaultMaxConcurrent; lia. }
  split; try done. intros owner. change (owned owner (sessions (NewSessionManagerWithConfig c))) with 0.
  change (config (NewSessionManagerWithConfig c)) with (normal_config c). lia.
Qed.

(** * Logins *)
Lemma same_login_refl s : same_login s s. Proof. done. Qed.
Lemma find_live_sub id now m : sessions (find_live id now m).2 ⊆ sessions m.
Proof.
  unfold find_live. destruct (sessions m !! id) as [r|]; [|done]. destruct (expiredLocked m r now); [|done]. apply delete_subseteq.
Qed.
Lemma find_live_Some id now m r m1 : find_live id now m = (Some r, m1) → m1 = m ∧ sessions m !! id = Some r ∧ expiredLocked m r now = false.
Proof. unfold find_live. destruct (sessions m !! id) as [r0|]; [|done]. destruct (expiredLocked m r0 now) eqn:E; [done|]. by intros [= -> ->]. Qed.
Lemma release_where_sub P m : sessions (release_where P m) ⊆ sessions m.
Proof. apply map_filter_subseteq. Qed.

Lemma createSession_continues u user lv d now iter m id r' :
  sessions (createSession u user lv d now iter m).2 !! id = Some r' →
  sessions m !! id = Some r' ∨
  (∃ csrf, generateSessionSecrets d = Some (id, csrf)) ∧ familyID (session r') = id ∧ CreatedAt (session r') = now.
Proof.
  unfold createSession. destruct (generateSessionSecrets d) as [[i csrf]|]; [|by left]. destruct (closed m); [by left|].
  destruct (from_option lv_validate (Ok tt) lv); [|by left].
  pose proof (shrunk_where (λ _ r, expiredLocked m r now) m) as Hp. fold (purgeExpiredLocked now m) in Hp.
  destruct (purgeExpiredLocked now m) as [roots m1]. unfold evictOldestForOwnerLocked.
  match goal with |- context [evict_loop ?f ?it ?o m1] => pose proof (shrunk_evict_loop f it o m1) as He; destruct (evict_loop f it o m1) as [roots' m2] end.
  pose proof (sh_sub _ _ _ (shrunk_trans _ _ _ _ _ Hp He)) as Hs. cbn [snd sessions release set_sessions].
  intros [[<- <-]|[_ Hk]]%lookup_insert_Some; [right; by eauto|left]. by eapply lookup_weaken.
Qed.
Lemma CreateVaultSession_continues u lv d now iter m id r' :
  sessions (CreateVaultSession u lv d now iter m).2 !! id = Some r' →
  sessions m !! id = Some r' ∨
  (∃ csrf, generateSessionSecrets d = Some (id, csrf)) ∧ familyID (session r') = id ∧ CreatedAt (session r') = now.
Proof.
  unfold CreateVaultSession. destruct lv as [lv|]; [|by left]. destruct (_ || _); [by left|]. destruct (_ || _); [by left|]. apply createSession_continues.
Qed.

Definition continues (m : manager) (new : list string) (id : string) (r' : sessionRecord) : Prop :=
  ∃ id0 r, sessions m !! id0 = Some r ∧ (id0 = id ∨ id ∈ new) ∧ same_login (session r) (session r').

Lemma continues_sub m s new id r' : s ⊆ sessions m → s !! id = Some r' → continues m new id r'.
Proof. intros Hs Hid. exists id, r'. split_and!; [by eapply lookup_weaken|by left|done]. Qed.

Lemma live_continues id0 now m id r' :
  sessions (GetSession id0 now m).2 !! id = Some r' ∨ (∃ b, sessions (borrowVaultSession id0 now b m).2 !! id = Some r') ∨
  (∃ tok, sessions (ValidateCSRF id0 tok now m).2 !! id = Some r') ∨ sessions (IsRecent id0 now m).2 !! id = Some r' → continues m [] id r'.
Proof.
  unfold GetSession, borrowVaultSession, ValidateCSRF, IsRecent. pose proof (find_live_sub id0 now m) as Hs.
  destruct (find_live id0 now m) as [[r|] m1] eqn:Hf; cbn in Hs.
  - apply find_live_Some in Hf as (-> & Hid & _).
    assert (∀ k, (<[id0 := SRecord (touch now (session r)) (root r)]> (sessions m)) !! k = Some r' → continues m [] k r') as Ht.
    { intros k [[<- <-]|[_ Hk]]%lookup_insert_Some; [|by eapply continues_sub]. exists id0, r. split_and!; [done|by left|done]. }
    intros [H|[[b H]|[[tok H]|H]]]; repeat (match type of H with context [if ?b then _ else _] => destruct b end); try (by eapply continues_sub; [|exact H]);
      try (by apply Ht). destruct b; [by apply Ht|]. eapply continues_sub; [|done]. apply delete_subseteq.
  - intros [H|[[b H]|[[tok H]|H]]]; repeat (match type of H with context [if ?b then _ else _] => destruct b end); by eapply continues_sub; [|exact H].
Qed.

(** A record of the next state continues a login of this one or is a new login. *)
Lemma call_continues c m id r' :
  sessions (call c m) !! id = Some r' →
  continues m (drawn c) id r' ∨ id ∈ drawn c ∧ familyID (session r') = id.
Proof.
  destruct c; cbn [call drawn]; try (intros H; left; eapply live_continues; by eauto);
    try (intros H; left; eapply continues_sub; [|done]; apply release_where_sub).
  - intros [H|((csrf & ->) & ? & _)]%createSession_continues; [left; by eapply continues_sub|right; split; [by left|done]].
  - intros [H|((csrf & ->) & ? & _)]%CreateVaultSession_continues; [left; by eapply continues_sub|right; split; [by left|done]].
  - unfold DeleteSession. destruct (negb _); intros H; left; (eapply continues_sub; [|done]); [done|apply delete_subseteq].
  - unfold RevokeSession. destruct (negb _); intros H; left; (eapply continues_sub; [|done]); [done|apply release_where_sub].
  - unfold DeleteAllSessionsForUser. destruct (bool_decide _); intros H; left; (eapply continues_sub; [|done]); [done|apply release_where_sub].
  - intros H. left. revert H. unfold RotateAfterReauthentication. destruct (negb _); [by apply continues_sub|].
    destruct (generateSessionSecrets d) as [[i csrf]|]; [|by apply continues_sub]. destruct (closed m); [by apply continues_sub|].
    pose proof (find_live_sub id0 now m) as Hs. destruct (find_live id0 now m) as [[r|] m1] eqn:Hf; [|by apply continues_sub].
    apply find_live_Some in Hf as (-> & Hid & _). cbn [snd sessions set_sessions].
    intros [[<- <-]|[_ Hk]]%lookup_insert_Some.
    + exists id0, r. split_and!; [done|right; by left|done].
    + eapply continues_sub; [|done]. apply delete_subseteq.
Qed.

Definition reach (cs : list session_call) (m : manager) : manager := (run cs m).2.
Lemma reach_cons c cs m : reach (c :: cs) m = reach cs (call c m).
Proof. unfold reach. cbn. by destruct (run cs (call c m)). Qed.
Lemma reach_app cs1 cs2 m : reach (cs1 ++ cs2) m = reach cs2 (reach cs1 m).
Proof. revert m. induction cs1 as [|c cs1 IH]; intros m; [done|]. cbn [app]. by rewrite !reach_cons, IH. Qed.
Lemma draws_app cs1 cs2 : draws (cs1 ++ cs2) = draws cs1 ++ draws cs2.
Proof. unfold draws. by rewrite fmap_app, concat_app. Qed.

Lemma reach_family cs : ∀ m f (P : Z → Prop),
  f ∉ draws cs → (∀ id r, sessions m !! id = Some r → familyID (session r) = f → P (CreatedAt (session r))) →
  ∀ id r, sessions (reach cs m) !! id = Some r → familyID (session r) = f → P (CreatedAt (session r)).
Proof.
  induction cs as [|c cs IH]; intros m f P Hf Hm; [done|]. rewrite reach_cons. unfold draws in Hf. cbn in Hf. fold (draws cs) in Hf.
  apply IH; [set_solver|]. intros id r [(id0 & r0 & Hr & _ & E1 & _ & E2 & _)|[Hd E]]%call_continues Hfam.
  - rewrite E2. apply (Hm id0 r0 Hr). congruence.
  - set_solver.
Qed.
Lemma reach_id cs : ∀ m id, id ∉ draws cs → sessions m !! id = None → sessions (reach cs m) !! id = None.
Proof.
  induction cs as [|c cs IH]; intros m id Hd Hm; [done|]. rewrite reach_cons. unfold draws in Hd. cbn in Hd. fold (draws cs) in Hd.
  apply IH; [set_solver|]. destruct (sessions (call c m) !! id) as [r|] eqn:Hr; [|done].
  apply call_continues in Hr as [(id0 & r0 & Hr & [->|?] & _)|[? _]]; [congruence|set_solver..].
Qed.

(** The state after [cs], with the identifiers drawn so far. *)
Lemma reach_inv c cs : Forall call_ok cs → NoDup (draws cs) →
  ∃ acc, (run cs (NewSessionManagerWithConfig c)).1 ≡ₚ acc ∧ sinv (draws cs) acc (reach cs (NewSessionManagerWithConfig c)).
Proof.
  intros Hok Hnd. pose proof (run_inv cs [] [] _ (new_inv c) Hok Hnd ltac:(set_solver)) as H. unfold reach.
  destruct (run cs _) as [a m]. destruct H as (used & _ & _ & Hu & Hi). exists a. split; [done|]. rewrite app_nil_r in Hi.
  eapply used_mono; [|done]. intros id Hid. destruct (Hu id Hid); [set_solver|done].
Qed.

Lemma GetSession_Some id now m s :
  (GetSession id now m).1 = Some s →
  isCanonicalSessionSecret id = true ∧ closed m = false ∧
  ∃ r, sessions m !! id = Some r ∧ expiredLocked m r now = false ∧ s = touch now (session r) ∧
    (GetSession id now m).2 = set_sessions (<[id := SRecord s (root r)]> (sessions m)) m.
Proof.
  unfold GetSession. destruct (isCanonicalSessionSecret id); [|done]. destruct (closed m); [done|]. cbn [negb orb].
  destruct (find_live id now m) as [[r|] m1] eqn:Hf; [|done]. apply find_live_Some in Hf as (-> & Hid & He). intros [= <-].
  split_and!; try done. by exists r.
Qed.

Definition offered (cs : list session_call) : list nat :=
  omap (λ c, match c with SCreateVault _ lv _ _ _ => Some (lv_root lv) | _ => None end) cs.
Lemma accepted_offered cs m : (run cs m).1 `sublist_of` offered cs.
Proof.
  revert m. induction cs as [|c cs IH]; intros m; cbn [run]; [done|]. specialize (IH (call c m)). destruct (run cs (call c m)) as [a m'].
  cbn [fst] in *. destruct c; cbn; try done. destruct (is_ok _); cbn; by constructor.
Qed.

(** C30. Every vault root handed over to the manager is, after any sequence of calls,
    owned by exactly one session or has been released exactly once, provided random
    identifiers do not repeat; no owner has more sessions than the configured maximum;
    and after a close every root has been released. *)
Theorem session_roots_owned_once c cs :
  Forall call_ok cs → NoDup (draws cs) → NoDup (offered cs) →
  let '(acc, m) := run cs (NewSessionManagerWithConfig c) in
  roots_of (sessions m) ++ released m ≡ₚ acc ∧ NoDup (roots_of (sessions m) ++ released m) ∧
  (∀ owner, owned owner (sessions m) <= MaxConcurrent (config m)) ∧ (closed m = true → released m ≡ₚ acc).
Proof.
  intros Hok Hnd Hoff. destruct (reach_inv c cs Hok Hnd) as (acc & Hacc & Hi). unfold reach in Hi.
  pose proof (accepted_offered cs (NewSessionManagerWithConfig c)) as Hsub. destruct (run cs _) as [a m]. cbn [fst snd] in *.
  destruct Hi as [_ H2 H3 H4 _]. rewrite <- Hacc in H2. split_and!; [done| |done|].
  - rewrite H2. by eapply sublist_NoDup.
  - intros Hc%H3. rewrite <- H2, Hc. done.
Qed.

(** A login is usable for at most the maximum age after it was created: whenever a
    session of its family is found later, at any time and after any number of
    rotations, it carries the creation time of the login and the present is before
    that time plus the maximum age. *)
Theorem login_never_outlives_max_age c before user lv d t iter s after id now s' :
  let m1 := reach before (NewSessionManagerWithConfig c) in
  let m2 := reach (before ++ SCreateVault user lv d t iter :: after) (NewSessionManagerWithConfig c) in
  Forall call_ok (before ++ SCreateVault user lv d t iter :: after) →
  NoDup (draws (before ++ SCreateVault user lv d t iter :: after)) →
  (CreateVaultSession user (Some lv) d t iter m1).1 = Ok s → (GetSession id now m2).1 = Some s' → familyID s' = familyID s →
  CreatedAt s' = t ∧ ExpiresAt s' = t + MaxAge (config m2) ∧ now < t + MaxAge (config m2).
Proof.
  intros m1 m2 Hok Hnd Hs Hget Hfam. destruct (reach_inv c _ Hok Hnd) as (acc & _ & Hi). fold m2 in Hi.
  apply GetSession_Some in Hget as (_ & _ & r & Hr & He & -> & _). cbn [touch familyID] in Hfam.
  destruct (si_record _ _ _ Hi id r Hr) as (_ & _ & _ & _ & _ & Hexp). cbn [touch CreatedAt ExpiresAt].
  assert (CreatedAt (session r) = t) as Ht.
  { apply Forall_app in Hok as [Hok1 _]. rewrite draws_app in Hnd. apply NoDup_app in Hnd as (Hnd1 & Hdis & Hnd2).
    destruct (reach_inv c before Hok1 Hnd1) as (acc1 & _ & Hi1). fold m1 in Hi1.
    unfold draws in Hnd2, Hdis. cbn in Hnd2, Hdis. fold (draws after) in Hnd2, Hdis.
    assert (∃ csrf, generateSessionSecrets d = Some (familyID s, csrf)) as [csrf Hd].
    { revert Hs. unfold CreateVaultSession. repeat (destruct (_ || _); [done|]). unfold createSession.
      destruct (generateSessionSecrets d) as [[i csrf]|]; [|done]. destruct (closed m1); [done|]. destruct (from_option _ _ _); [|done].
      destruct (purgeExpiredLocked t m1) as [? mm]. destruct (evictOldestForOwnerLocked _ _ mm). intros [= <-]. by exists csrf. }
    rewrite Hd in Hnd2, Hdis. cbn in Hnd2, Hdis. apply NoDup_cons in Hnd2 as [Hn _].
    revert Hr Hfam. unfold m2. rewrite reach_app, reach_cons. fold m1. apply (reach_family after _ (familyID s) (λ x, x = t)); [done|].
    intros k r0 Hk Hf. cbn [call] in Hk. apply CreateVaultSession_continues in Hk as [Hk|(_ & _ & ?)]; [|done].
    destruct (si_record _ _ _ Hi1 k r0 Hk) as (_ & _ & _ & Hu & _). rewrite Hf in Hu. exfalso. apply (Hdis (familyID s)); [done|by left]. }
  rewrite Ht in *. split_and!; [done|done|]. unfold expiredLocked in He. apply orb_false_iff in He as [He _].
  apply negb_false_iff, Z.ltb_lt in He. lia.
Qed.

(** Revoking a session ends its login for good: whatever calls, rotations included,
    come between the moment a request obtained the session and its revocation, and
    whatever calls follow, no session of that login is ever found again. *)
Theorem revoked_login_is_gone c before id now s between after id' now' s' :
  let cs := before ++ SGet id now :: between ++ SRevoke s :: after in
  Forall call_ok cs → NoDup (draws cs) →
  (GetSession id now (reach before (NewSessionManagerWithConfig c))).1 = Some s →
  (GetSession id' now' (reach cs (NewSessionManagerWithConfig c))).1 = Some s' →
  familyID s' ≠ familyID s ∧ id' ≠ id.
Proof.
  intros cs Hok Hnd Hget Hget'. set (m1 := reach before _) in *.
  apply Forall_app in Hok as [Hok1 Hok2]. apply Forall_cons in Hok2 as [_ Hok2]. apply Forall_app in Hok2 as [Hok2 _].
  unfold cs in Hnd. rewrite draws_app in Hnd. apply NoDup_app in Hnd as (Hnd1 & Hdis & Hnd2).
  change (draws (SGet id now :: between ++ SRevoke s :: after)) with (draws (between ++ SRevoke s :: after)) in Hnd2, Hdis.
  destruct (reach_inv c before Hok1 Hnd1) as (acc & _ & Hi). fold m1 in Hi.
  apply GetSession_Some in Hget as (Hcan & _ & r & Hr & _ & -> & _). destruct (si_record _ _ _ Hi id r Hr) as (Eid & Hu & _ & Hfu & Hfn & _).
  apply GetSession_Some in Hget' as (_ & _ & r' & Hr' & _ & -> & _). cbn [touch familyID ID].
  rewrite draws_app in Hdis. change (draws (SRevoke (touch now (session r)) :: after)) with (draws after) in Hdis.
  assert (familyID (session r) ∉ draws after) as Hfa by (intros ?; apply (Hdis (familyID (session r))); [done|set_solver]).
  assert (id ∉ draws after) as Hia by (intros ?; apply (Hdis id); [done|set_solver]).
  revert Hr'. unfold cs. rewrite reach_app, reach_cons, reach_app, reach_cons. fold m1. cbn [call].
  set (m2 := reach between _). set (m3 := RevokeSession _ m2). intros Hr'.
  assert (∀ k x, sessions m3 !! k = Some x → k ≠ id ∧ familyID (session x) ≠ familyID (session r)) as Hm3.
  { intros k x. unfold m3, RevokeSession. cbn [touch ID familyID]. rewrite Eid, Hcan. cbn [negb].
    intros [_ Hx]%map_lookup_filter_Some. cbn in Hx. apply orb_false_iff in Hx as [Hx1%bool_decide_eq_false Hx2].
    rewrite bool_decide_eq_false_2 in Hx2 by done. cbn in Hx2. by apply bool_decide_eq_false in Hx2. }
  split.
  - intros E. apply (reach_family after m3 (familyID (session r)) (λ _, False) Hfa) with (id := id') (r := r'); try done.
    intros k x Hk Hf. by destruct (Hm3 k x Hk).
  - intros ->. assert (sessions m3 !! id = None) as Hn.
    { destruct (sessions m3 !! id) as [x|] eqn:Hx; [|done]. by destruct (Hm3 id x Hx). }
    pose proof (reach_id after m3 id Hia Hn). congruence.
Qed.

Lemma secrets_Some b1 b2 i csrf :
  generateSessionSecrets (Some b1, Some b2) = Some (i, csrf) → length b1 = 32%nat ∧ i = EncodeToString b1 ∧ csrf = EncodeToString b2.
Proof.
  unfold generateSessionSecrets, randomHex. cbn [fst snd mbind option_bind].
  destruct (bool_decide_reflect (length b1 = 32%nat)) as [H1|]; [|done].
  destruct (bool_decide_reflect (length b2 = 32%nat)); [|done]. cbn [mbind option_bind]. by intros [= <- <-].
Qed.

(** A rotation succeeds only on a live session. It moves the login to the new
    identifier and token with the same family, creation time, expiry and root, which is
    not released; the old identifier is unknown at once and no token is valid for it;
    the other sessions are untouched. *)
Theorem RotateAfterReauthentication_correct oldID b1 b2 now m s m' :
  Forall is_byte b1 → sessions m !! EncodeToString b1 = None →
  RotateAfterReauthentication oldID (Some b1, Some b2) now m = (Ok s, m') →
  ∃ r, sessions m !! oldID = Some r ∧ expiredLocked m r now = false ∧ same_login (session r) s ∧
    ID s = EncodeToString b1 ∧ CSRFToken s = EncodeToString b2 ∧ ReauthenticatedAt s = now ∧ isCanonicalSessionSecret (ID s) = true ∧
    sessions m' !! ID s = Some (SRecord s (root r)) ∧ released m' = released m ∧
    (∀ t tok, (GetSession oldID t m').1 = None ∧ (ValidateCSRF oldID tok t m').1 = false) ∧
    (∀ k, k ≠ oldID → k ≠ ID s → sessions m' !! k = sessions m !! k).
Proof.
  intros Hb Hfresh. unfold RotateAfterReauthentication. destruct (isCanonicalSessionSecret oldID) eqn:Hcan; [|done]. cbn [negb].
  destruct (generateSessionSecrets (Some b1, Some b2)) as [[i csrf]|] eqn:Hd; [|done].
  apply secrets_Some in Hd as (Hl1 & -> & ->). destruct (closed m) eqn:Hc; [done|].
  destruct (find_live oldID now m) as [[r|] m1] eqn:Hf; [|done]. apply find_live_Some in Hf as (-> & Hid & He). intros [= <- <-].
  exists r. assert (EncodeToString b1 ≠ oldID) as Hne by congruence. cbn [sessions set_sessions released ID rotate CSRFToken ReauthenticatedAt].
  assert (sessions (set_sessions (<[EncodeToString b1 := SRecord (rotate (EncodeToString b1) (EncodeToString b2) now (session r)) (root r)]>
    (delete oldID (sessions m))) m) !! oldID = None) as Hold by (cbn; by rewrite lookup_insert_ne, lookup_delete_eq).
  split_and!; try done.
  - by apply EncodeToString_canonical.
  - by rewrite lookup_insert_eq.
  - intros t tok. unfold GetSession, ValidateCSRF, find_live. rewrite Hold, Hcan. cbn [closed set_sessions]. rewrite Hc.
    by destruct (isCanonicalSessionSecret tok).
  - intros k Hk1 Hk2. by rewrite lookup_insert_ne, lookup_delete_ne.
Qed.

Lemma durationEnv_bounds env name unit fb lo hi v : lo <= fb <= hi → durationEnv env name unit fb lo hi = Some v → lo <= v <= hi.
Proof.
  intros Hfb. unfold durationEnv. case_bool_decide; [by intros [= <-]|]. destruct (ParseInt _ 32) as [x|]; [|done].
  destruct (x <=? 0); [done|]. destruct (_ || _) eqn:E; [done|]. intros [= <-]. lia.
Qed.

(** A configuration read from the environment is within the documented limits,
    ordered (re-authentication age, idle timeout, maximum age), and a manager built
    from it uses it unchanged. *)
Theorem SessionConfigFromEnv_bounds env c :
  SessionConfigFromEnv env = Some c →
  minSessionMaxAge <= MaxAge c <= maxSessionMaxAge ∧ minSessionIdleTimeout <= IdleTimeout c <= maxSessionIdleTimeout ∧
  minRecentAuthAge <= RecentAuthAge c <= maxRecentAuthAge ∧ RecentAuthAge c <= IdleTimeout c <= MaxAge c ∧
  1 <= MaxConcurrent c <= maxConcurrentSessionCeiling ∧ config (NewSessionManagerWithConfig c) = c.
Proof.
  unfold SessionConfigFromEnv.
  destruct (durationEnv env "SESSION_MAX_AGE_HOURS" _ _ _ _) as [a|] eqn:Ea; [|done].
  destruct (durationEnv env "SESSION_IDLE_TIMEOUT_MINUTES" _ _ _ _) as [i|] eqn:Ei; [|done].
  destruct (durationEnv env "SESSION_REAUTH_MAX_AGE_MINUTES" _ _ _ _) as [r|] eqn:Er; [|done].
  apply durationEnv_bounds in Ea, Ei, Er; [|by vm_compute..].
  destruct (concurrentEnv env DefaultMaxConcurrent) as [n|] eqn:En; [|done]. cbn [mbind option_bind].
  assert (1 <= n <= maxConcurrentSessionCeiling) as Hn.
  { revert En. unfold concurrentEnv. case_bool_decide; [intros [= <-]; by vm_compute|]. destruct (ParseInt _ 64) as [x|]; [|done].
    destruct (_ || _) eqn:E; [done|]. intros [= <-]. lia. }
  destruct (i >? a) eqn:E1; [done|]. destruct (r >? i) eqn:E2; [done|]. intros [= <-].
  assert (0 < a ∧ 0 < i ∧ 0 < r) as (? & ? & ?).
  { unfold minSessionMaxAge, minSessionIdleTimeout, minRecentAuthAge, Hour, Minute, Second in *. lia. }
  cbn [MaxAge IdleTimeout RecentAuthAge MaxConcurrent config NewSessionManagerWithConfig normal_config].
  split_and!; try lia. unfold normal_config. cbn [MaxAge IdleTimeout RecentAuthAge MaxConcurrent].
  repeat match goal with |- context [?x <=? 0] => destruct (Z.leb_spec x 0); [lia|] end. rewrite E1. cbn [orb]. rewrite E2. done.
Qed.

(** An age of 5124097 hours, far above the limit of a week, is accepted as about 85
    minutes: the product of the hours and the unit wraps around before it is compared. *)
Definition overflow_env (name : string) : string := if bool_decide (name = "SESSION_MAX_AGE_HOURS") then "5124097" else "".
Theorem session_max_age_overflow :
  ParseInt "5124097" 32 = Some 5124097 ∧ 5124097 * Hour > maxSessionMaxAge ∧
  SessionConfigFromEnv overflow_env = Some (Config 5126290448384 DefaultSessionIdleTimeout DefaultRecentAuthAge DefaultMaxConcurrent).
Proof. split_and!; [by vm_compute|by vm_compute|vm_compute; reflexivity]. Qed.

(** * Concrete runs *)
Definition demo_draw (n : Z) : draw := (Some (replicate 32 n), Some (replicate 32 (n + 100))).
Definition demo_id (n : Z) : string := EncodeToString (replicate 32 n).
Definition demo_user : UserSummary := Summary "u-1" "a@example.org" "A" RoleUser UserActive 0 0 None.
Definition demo_lease (n : nat) : lease_view := LeaseView n "u-1" "vault-0000000000" true (Ok tt).
Definition demo_config : SessionConfig := DefaultSessionConfig.
Definition demo_new : manager := NewSessionManagerWithConfig demo_config.
Definition no_session : Session := MkSession "" "" "" "" "" "" None 0 0 0 0 "".
Definition demo_create (n : Z) (l : nat) (t : Z) : session_call := SCreateVault demo_user (demo_lease l) (demo_draw n) t map_to_list.
Lemma demo_visits : visits map_to_list. Proof. intros s. reflexivity. Qed.
Ltac demo_ok := repeat first [apply Forall_nil_2 | apply Forall_cons_2 | exact demo_visits | exact I].
Ltac by_decide := match goal with |- ?P => apply (bool_decide_unpack P); vm_compute; exact I end.

Definition demo_calls : list session_call :=
  [demo_create 1 7 0; SGet (demo_id 1) 10; SRotate (demo_id 1) (demo_draw 2) 20; demo_create 3 8 30; demo_create 4 9 40; demo_create 5 10 50].
(** The fourth login evicted the oldest one and released its root. *)
Lemma session_roots_owned_once_witness :
  let '(acc, m) := run demo_calls demo_new in
  roots_of (sessions m) ++ released m ≡ₚ acc ∧ NoDup (roots_of (sessions m) ++ released m) ∧
  (∀ owner, owned owner (sessions m) <= MaxConcurrent (config m)) ∧ (closed m = true → released m ≡ₚ acc).
Proof. apply (session_roots_owned_once demo_config demo_calls); [demo_ok|by_decide|by_decide]. Defined.
Example demo_evicted : released (reach demo_calls demo_new) = [7%nat]. Proof. vm_compute. reflexivity. Qed.

Definition demo_login : Session := match (CreateVaultSession demo_user (Some (demo_lease 7)) (demo_draw 1) 0 map_to_list demo_new).1 with Ok s => s | Err _ => no_session end.
Definition demo_after : manager := reach [demo_create 1 7 0; SRotate (demo_id 1) (demo_draw 2) 20] demo_new.
Definition demo_rotated : Session := default no_session (GetSession (demo_id 2) 100 demo_after).1.
Lemma login_never_outlives_max_age_witness :
  CreatedAt demo_rotated = 0 ∧ ExpiresAt demo_rotated = 0 + MaxAge (config demo_after) ∧ 100 < 0 + MaxAge (config demo_after).
Proof.
  apply (login_never_outlives_max_age demo_config [] demo_user (demo_lease 7) (demo_draw 1) 0 map_to_list demo_login
    [SRotate (demo_id 1) (demo_draw 2) 20] (demo_id 2)); [demo_ok|by_decide|vm_compute; reflexivity..].
Defined.

(** A request reads the session, a concurrent request rotates it, the first one logs
    out; a later login of the same user is not affected. *)
Definition demo_got : Session := default no_session (GetSession (demo_id 1) 10 (reach [demo_create 1 7 0] demo_new)).1.
Definition demo_logout : list session_call := [demo_create 1 7 0; SGet (demo_id 1) 10; SRotate (demo_id 1) (demo_draw 2) 20; SRevoke demo_got; demo_create 3 8 30].
Definition demo_later : Session := default no_session (GetSession (demo_id 3) 40 (reach demo_logout demo_new)).1.
Lemma revoked_login_is_gone_witness : familyID demo_later ≠ familyID demo_got ∧ demo_id 3 ≠ demo_id 1.
Proof.
  apply (revoked_login_is_gone demo_config [demo_create 1 7 0] (demo_id 1) 10 demo_got [SRotate (demo_id 1) (demo_draw 2) 20] [demo_create 3 8 30]
    (demo_id 3) 40 demo_later); [demo_ok|by_decide|vm_compute; reflexivity..].
Defined.

Definition demo_before : manager := reach [demo_create 1 7 0] demo_new.
Lemma RotateAfterReauthentication_correct_witness :
  ∃ s m' r, sessions demo_before !! demo_id 1 = Some r ∧ same_login (session r) s ∧ sessions m' !! ID s = Some (SRecord s (root r)).
Proof.
  destruct (RotateAfterReauthentication (demo_id 1) (demo_draw 2) 20 demo_before) as [[s|e] m'] eqn:E; [|vm_compute in E; discriminate].
  destruct (RotateAfterReauthentication_correct (demo_id 1) (replicate 32 2) (replicate 32 102) 20 demo_before s m')
    as (r & H1 & _ & H2 & _ & _ & _ & _ & H3 & _); [by_decide|vm_compute; reflexivity|exact E|]. exists s, m', r. exact (conj H1 (conj H2 H3)).
Defined.

Lemma SessionConfigFromEnv_bounds_witness :
  let c := Config (24 * Hour) (30 * Minute) DefaultRecentAuthAge DefaultMaxConcurrent in
  minSessionMaxAge <= MaxAge c <= maxSessionMaxAge ∧ minSessionIdleTimeout <= IdleTimeout c <= maxSessionIdleTimeout ∧
  minRecentAuthAge <= RecentAuthAge c <= maxRecentAuthAge ∧ RecentAuthAge c <= IdleTimeout c <= MaxAge c ∧
  1 <= MaxConcurrent c <= maxConcurrentSessionCeiling ∧ config (NewSessionManagerWithConfig c) = c.
Proof.
  apply (SessionConfigFromEnv_bounds (λ n, if bool_decide (n = "SESSION_MAX_AGE_HOURS") then " 24 "
    else if bool_decide (n = "SESSION_IDLE_TIMEOUT_MINUTES") then "+30" else "")). vm_compute. reflexivity.
Defined.
End Session.
