(* ===== verification/ServerAuth.v ===== *)
(** Server accounts ([serverauth/service.go], [serverauth/token.go],
    [serverauth/setup.go], [serverauth/login_throttle.go] and the passkey maintenance of
    [serverauth/passkeys.go]): bootstrap, invitations, login, re-authentication, password
    change and reset, recovery rotation and administration, over the control store, the
    login throttle, key envelopes, sessions and vaults. Random bytes and the clock are
    arguments; [cancelled] says whether the request context has ended when a password
    slot is asked for. *)
From Stdlib Require Import ZArith Lia.
From stdpp Require Import base gmap list strings sorting.
From S2P Require Import Prelude GoText Validation Tags Images Throttle Totp Crypto Control KeyEnvelope Vault Session.
Open Scope Z_scope.

(** * Collaborators *)

(** The session manager and the vault manager, as the service sees them. *)
Inductive dep_err := DVault (e : verror) | DSession (e : Session.serror).
Class AuthDeps := {
  deps : Type;
  opened : Type;
  OpenSession : UserSummary → string → list Z → deps → res dep_err (option opened) * deps;
  EndSessions : string → deps → deps;
  BeginDrain : string → deps → deps
}.

(** What the service relies on: [EndSessions] leaves its user without a session and
    brings none to anybody, and a drain does not touch sessions. *)
Class AuthDepsLaws (D : AuthDeps) := {
  session_of : string → deps → Prop;
  EndSessions_gone u d : ¬ session_of u (EndSessions u d);
  EndSessions_kept u v d : session_of v (EndSessions u d) → session_of v d;
  BeginDrain_sessions u v d : session_of v (BeginDrain u d) ↔ session_of v d
}.

(** [encoding/json] on stored passkey columns. *)
Class PasskeyLib (L : ControlLib) := {
  UnmarshalCredential : string → option Credential;
  UnmarshalKind : string → option string
}.

(** * Errors and state *)
Inductive aerr :=
| AControl (e : cerr) | AThrottle (e : terr) | AKey (e : kerr) | ADeps (e : dep_err)
| ErrInvalidCredentials | ErrInvalidRecovery | ErrInvalidPassword | ErrInvalidAccountData
| ErrAuthenticationBusy | ErrServiceUnavailable | LoginThrottledError (RetryAfter : Z)
| ErrSetupUnauthorized | ErrAlreadySetup | ENoSession | ERawKey | ERandomSource
| EConcurrency | EPrivacyKey | ECustodyKey | ESetupToken | EBearerToken | EPasskeyDecode | ErrPasskeysUnavailable
| ErrPasskeyPRFRequired | ErrPasskeyCeremony | EWebAuthn | ECancelled.

(** Errors of the store are told apart. *)
Ltac case_aerr e := destruct e; try match goal with x : cerr |- _ => destruct x end.

Record auth `{AuthDeps} := Auth {
  store : control;
  throttles : throttle_store;
  dstate : deps;
  (** Keys of [locks] whose gate is taken, and slots taken from [kdfSlots]. *)
  locks : gset string;
  kdf : Z;
  (** Password verifications run so far (not stored by the source). *)
  work : Z
}.
Abbreviation aop := (stm auth aerr).

Definition map_err {E F A} (f : E → F) (r : res E A) : res F A := match r with Ok a => Ok a | Err e => Err (f e) end.

(** * Tokens ([token.go]) *)
Definition bearerTokenBytes : nat := 32.
Definition url_encode (raw : list Z) : string := of_bytes (raw_encode url_char raw).

Definition decodeFixedSecret (encoded : string) (size : nat) : res aerr (list Z) :=
  if bool_decide (encoded = "") then Err EBearerToken
  else match raw_decode_string url_value false (bytes encoded) with
       | None => Err EBearerToken
       | Some raw =>
         if (length raw =? size)%nat && bool_decide (url_encode raw = encoded) then Ok raw else Err EBearerToken
       end.

(** [control.HashBearerToken] *)
Definition HashBearerToken (token : list Z) : res aerr (list Z) :=
  if between 32 4096 (Z.of_nat (length token)) then Ok (Sum256 token) else Err EBearerToken.

Definition random (size : nat) (read : option (list Z)) : res aerr (list Z) :=
  match read with Some l => if (length l =? size)%nat then Ok l else Err ERandomSource | None => Err ERandomSource end.

Definition GenerateBearerToken (read : option (list Z)) : res aerr (string * list Z) :=
  random bearerTokenBytes read ≫= λ raw, HashBearerToken raw ≫= λ digest, Ok (url_encode raw, digest).
Definition HashEncodedBearerToken (encoded : string) : res aerr (list Z) :=
  decodeFixedSecret encoded bearerTokenBytes ≫= HashBearerToken.
Definition ParseRecoverySecret (encoded : string) : res aerr (list Z) := decodeFixedSecret encoded RecoverySecretSize.
(** [control.GenerateID] *)
Definition GenerateID (read : option (list Z)) : res aerr string := random 16 read ≫= λ raw, Ok (url_encode raw).

(** * The setup token ([setup.go]) *)
Definition ends_with (suffix l : list Z) : bool :=
  (length suffix <=? length l)%nat && bool_decide (drop (length l - length suffix) l = suffix).
Definition trimSingleLineEnding (v : list Z) : list Z :=
  if ends_with [13; 10] v then take (length v - 2) v else if ends_with [10] v then take (length v - 1) v else v.
Definition validateSetupToken (token : list Z) : res aerr unit :=
  ensure (between 32 512 (Z.of_nat (length token))) ESetupToken ≫= λ _, ensure (forallb id_rune token) ESetupToken.
(** [LoadSetupAuthorizer] on the content of the file: the digest it keeps. *)
Definition LoadSetupAuthorizer (content : list Z) : res aerr (list Z) :=
  let token := trimSingleLineEnding content in validateSetupToken token ≫= λ _, Ok (Sum256 token).
Definition Authorize (a : option (list Z)) (candidate : list Z) : bool :=
  match a with None => false | Some digest => bool_decide (Sum256 candidate = digest) end.

(** * Service configuration *)
Definition defaultKDFConcurrency : Z := 2.
Definition maximumKDFConcurrency : Z := 16.
Definition invalidPasswordWork : list Z := bytes "omni-money-invalid-password-work-factor".
Definition dummy_context : Context := MkContext "dummy-user-context" "dummy-vault-context".

Record config := Config {
  c_setup : option (list Z); c_dummy : Envelope; c_slots : Z; c_webauthn : bool; c_privacy : list Z; c_custody : list Z
}.
Record Dependencies := Deps {
  d_Setup : option (list Z); d_MaxConcurrentKDF : Z; d_WebAuthn : bool; d_PasskeyPrivacyKey : list Z; d_PasskeyCustodyKey : list Z
}.

Definition unusable_key (k : list Z) : bool := negb (length k =? 32)%nat || bool_decide (k = replicate 32 0).
(** [copy] into a zeroed array of 32 bytes. *)
Definition copy32 (k : list Z) : list Z := take 32 (k ++ replicate 32 0).

Definition newDummyPasswordEnvelope `{KDFLib} (dek : option (list Z)) (r : entropy) : res aerr Envelope :=
  map_err AKey (GenerateDEK dek ≫= λ d, WrapWithPassword d invalidPasswordWork dummy_context r).

Definition NewService `{KDFLib} (d : Dependencies) (dek : option (list Z)) (r : entropy) : res aerr config :=
  let concurrency := if d_MaxConcurrentKDF d =? 0 then defaultKDFConcurrency else d_MaxConcurrentKDF d in
  if (concurrency <? 1) || (concurrency >? maximumKDFConcurrency) then Err EConcurrency
  else if d_WebAuthn d && unusable_key (d_PasskeyPrivacyKey d) then Err EPrivacyKey
  else if d_WebAuthn d && unusable_key (d_PasskeyCustodyKey d) then Err ECustodyKey
  else newDummyPasswordEnvelope dek r ≫= λ dummy,
       Ok (Config (d_Setup d) dummy concurrency (d_WebAuthn d) (copy32 (d_PasskeyPrivacyKey d)) (copy32 (d_PasskeyCustodyKey d))).

(** * Passkey records ([control/passkeys.go]) *)
Section Records.
Context `{L : ControlLib} `{P : !PasskeyLib L}.

Definition zero_envelope : Envelope := MkEnvelope 0 "" "" (Profile 0 0 0) [] [] [] [].

Definition decodePasskeyEnvelope (encoded : string) : res cerr Envelope :=
  if (len encoded <? 2) || (len encoded >? 8192) then Err (EEnvelope "size")
  else match UnmarshalKind encoded with
       | None => Err (EEnvelope "decode")
       | Some kind =>
         if bool_decide (kind = KindPasskey ∨ kind = KindServerPasskey) then decodeKeyEnvelope encoded kind else Err (EEnvelope "kind")
       end.

Definition scanPasskeyCredential (i : list Z) (r : passkeyrow) : res cerr PasskeyCredential :=
  match UnmarshalCredential (pk_json r) with
  | None => Err EPasskeyEncode
  | Some c =>
    ensure (bool_decide (i = Credential_ID c)) EPasskeyID ≫= λ _,
    (if bool_decide (pk_envelope r = legacyUnlockMarker) then Ok (zero_envelope, true)
     else decodePasskeyEnvelope (pk_envelope r) ≫= λ e, Ok (e, false)) ≫= λ '(e, required),
    Ok (PkCredential i (pk_user r) (pk_name r) c (pk_salt r) e required (pk_revision r) (pk_created r * 1000000)
          (pk_updated r * 1000000) ((λ t, t * 1000000) <$> pk_last_used r))
  end.

(** [ORDER BY created_at_ms, credential_id] *)
Definition passkey_le (x y : list Z * passkeyrow) : Prop :=
  pk_created x.2 < pk_created y.2 ∨ (pk_created x.2 = pk_created y.2 ∧ lex_le x.1 y.1 = true).
#[global] Instance passkey_le_dec x y : Decision (passkey_le x y).
Proof. unfold passkey_le. apply _. Defined.

Fixpoint scan_all (rows : list (list Z * passkeyrow)) : res cerr (list PasskeyCredential) :=
  match rows with
  | [] => Ok []
  | (i, r) :: rows' => scanPasskeyCredential i r ≫= λ c, scan_all rows' ≫= λ cs, Ok (c :: cs)
  end.

Definition ListPasskeyCredentials (userID : string) : cop (list PasskeyCredential) :=
  i ← lift (normalizeID userID);
  s ← gets id;
  lift (scan_all (merge_sort passkey_le (map_to_list (filter (λ x, pk_user x.2 = i) (passkeys s))))).

Definition GetPasskeyCredential (userID : string) (i : list Z) : cop PasskeyCredential :=
  user ← lift (normalizeID userID);
  lift (validatePasskeyCredentialID i);;
  s ← gets id;
  match passkeys s !! i with
  | Some r => if bool_decide (pk_user r = user) then lift (scanPasskeyCredential i r) else fail ErrNotFound
  | None => fail ErrNotFound
  end.

Record PasskeySummary := PkSummary {
  ps_ID : string; ps_Name : string; ps_PasswordRequired : bool; ps_CreatedAt : Z; ps_LastUsedAt : option Z
}.
Definition passkey_summary (c : PasskeyCredential) : PasskeySummary :=
  PkSummary (url_encode (pkc_ID c)) (pkc_Name c) (pkc_PasswordRequired c) (pkc_CreatedAt c) (pkc_LastUsedAt c).
End Records.

(** * Inputs *)
Record account_entropy := AccountEntropy {
  ae_user : option (list Z); ae_vault : option (list Z); ae_dek : option (list Z);
  ae_password : entropy; ae_recovery : entropy; ae_recoveryID : string
}.
Record BootstrapInput := BootInput {
  bi_SetupToken : list Z; bi_Email : string; bi_DisplayName : string; bi_Password : list Z; bi_RecoverySecret : list Z
}.
Record AcceptInvitationInput := AcceptInput {
  ai_Token : string; ai_DisplayName : string; ai_Password : list Z; ai_RecoverySecret : list Z
}.
Record ResetInput := MkResetInput {
  rs_Token : string; rs_RecoverySecret : list Z; rs_NewPassword : list Z; rs_NewRecoverySecret : list Z
}.

Definition validateNewPassword (p : list Z) : res aerr unit :=
  match ValidatePassword p with Ok _ => Ok tt | Err _ => Err ErrInvalidPassword end.
Definition validateRecoverySecret (s : list Z) : res aerr unit := ensure (length s =? RecoverySecretSize)%nat ErrInvalidAccountData.

(** [prepareAccount] *)
Definition prepareAccount `{KDFLib} (email displayName : string) (password recoverySecret : list Z) (r : account_entropy)
    : res aerr NewUserInput :=
  GenerateID (ae_user r) ≫= λ userID,
  GenerateID (ae_vault r) ≫= λ vaultID,
  map_err AKey (GenerateDEK (ae_dek r)) ≫= λ dek,
  let binding := MkContext userID vaultID in
  map_err AKey (WrapWithPassword dek password binding (ae_password r)) ≫= λ passwordEnvelope,
  map_err AKey (WrapWithRecovery dek recoverySecret binding (ae_recovery r)) ≫= λ recoveryEnvelope,
  Ok (UserInput userID email displayName vaultID passwordEnvelope (Some (RecoveryInput "" recoveryEnvelope))).

Definition throttle_domain : list Z := bytes "omni-money/login-throttle/v1" ++ [0].
Definition LoginThrottleKey (email : string) : string := Session.EncodeToString (Sum256 (throttle_domain ++ bytes email)).

Definition email_lock (email : string) : string := "email:" +:+ email.
Definition user_lock (userID : string) : string := "user:" +:+ userID.
Definition invitation_lock (i : string) : string := "invitation:" +:+ i.

(** * The service *)
Section Operations.
Context `{L : ControlLib} `{P : !PasskeyLib L} `{K : KDFLib} `{D : AuthDeps} (cfg : config).

Definition set_store (c : control) (s : auth) : auth := Auth _ c (throttles s) (dstate s) (locks s) (kdf s) (work s).
Definition set_throttles (t : throttle_store) (s : auth) : auth := Auth _ (store s) t (dstate s) (locks s) (kdf s) (work s).
Definition set_dstate (d : deps) (s : auth) : auth := Auth _ (store s) (throttles s) d (locks s) (kdf s) (work s).
Definition set_locks (l : gset string) (s : auth) : auth := Auth _ (store s) (throttles s) (dstate s) l (kdf s) (work s).
Definition set_kdf (k : Z) (s : auth) : auth := Auth _ (store s) (throttles s) (dstate s) (locks s) k (work s).
Definition set_work (w : Z) (s : auth) : auth := Auth _ (store s) (throttles s) (dstate s) (locks s) (kdf s) w.

Definition on_store {A} (m : cop A) : aop A := λ s, let '(r, c) := m (store s) in (map_err AControl r, set_store c s).
Definition on_throttle {A} (m : throttle_op A) : aop A :=
  λ s, let '(r, t) := m (throttles s) in (map_err AThrottle r, set_throttles t s).

(** [v, err := m(); ...] and [defer f()]. *)
Definition try {A} (m : aop A) : aop (res aerr A) := λ s, let '(r, s') := m s in (Ok r, s').
Definition deferred {A} (f : auth → auth) (m : aop A) : aop A := λ s, let '(r, s') := m s in (r, f s').

(** ** Locks and slots *)
Definition lockAccount (key : string) : aop unit :=
  s ← gets id;
  require (negb (bool_decide (key ∈ locks s))) ErrAuthenticationBusy;;
  modify (λ s, set_locks ({[key]} ∪ locks s) s).
Definition unlock (key : string) (s : auth) : auth := set_locks (locks s ∖ {[key]}) s.

Definition reserveKDF (cancelled : bool) : aop unit :=
  require (negb cancelled) ErrAuthenticationBusy;;
  s ← gets id;
  require (kdf s <? c_slots cfg) ErrAuthenticationBusy;;
  modify (λ s, set_kdf (kdf s + 1) s).
Definition release_slot (s : auth) : auth := set_kdf (kdf s - 1) s.
Definition releaseKDF : aop unit := modify release_slot.

(** [unlock, err := s.lockAccount(key); if err != nil { return err }; defer unlock()] *)
Definition locked {A} (key : string) (m : aop A) : aop A := lockAccount key;; deferred (unlock key) m.

(** ** Throttle *)
Definition checkThrottle (key : string) (now : Z) : aop Z := on_throttle (checkLoginThrottle key now).
Definition refuse_throttled (key : string) (now : Z) : aop unit :=
  retryAfter ← checkThrottle key now;
  if retryAfter >? 0 then fail (LoginThrottledError retryAfter) else mret tt.
Definition recordLoginFailure (key : string) (now : Z) : aop unit :=
  try (on_throttle (RegisterLoginFailure key now loginThrottlePolicy));; mret tt.
Definition clearLoginFailures (key : string) : aop unit := try (on_throttle (ClearLoginFailures key));; mret tt.

(** ** Password verification *)
Definition argon2_runs (e : Envelope) (p : list Z) (c : Context) : Z :=
  if is_ok (validatePasswordEnvelope e) && is_ok (validatePassword p) && is_ok (validateContext c) then 1 else 0.
Definition unwrap_password (e : Envelope) (p : list Z) (c : Context) : aop (res kerr (list Z)) :=
  modify (λ s, set_work (work s + argon2_runs e p c) s);; mret (UnwrapWithPassword e p c).
Definition verify_password (e : Envelope) (p : list Z) (c : Context) : aop (res kerr bool) :=
  modify (λ s, set_work (work s + argon2_runs e p c) s);; mret (VerifyPassword e p c).

Definition runDummyPasswordWork (password : list Z) : aop unit :=
  let candidate := if is_ok (validateNewPassword password) then password else invalidPasswordWork in
  unwrap_password (c_dummy cfg) candidate dummy_context;; mret tt.
Definition runDummyPassword (cancelled : bool) (password : list Z) : aop unit :=
  reserveKDF cancelled;; deferred release_slot (runDummyPasswordWork password).

(** ** Passkey envelopes *)
Definition upgradePasskeyEnvelopes (userID vaultID : string) (dek : list Z) (now : Z) (r : list Z → entropy) : aop unit :=
  if negb (c_webauthn cfg) then mret tt
  else
    records ← on_store (ListPasskeyCredentials userID);
    for_each (λ record : PasskeyCredential,
      if bool_decide (env_Kind (pkc_VaultEnvelope record) = KindServerPasskey) then mret tt
      else
        envelope ← lift (map_err AKey (WrapWithServerPasskey dek (c_custody cfg) (MkContext userID vaultID) (pkc_ID record) (r (pkc_ID record))));
        on_store (ReplacePasskeyEnvelope record envelope now)) records.

(** ** Account creation *)
Definition Bootstrap (cancelled : bool) (input : BootstrapInput) (now : Z) (r : account_entropy) : aop UserSummary :=
  bootstrapped ← on_store IsBootstrapped;
  if bootstrapped : bool then fail ErrAlreadySetup
  else
    require (Authorize (c_setup cfg) (bi_SetupToken input)) ErrSetupUnauthorized;;
    lift (validateNewPassword (bi_Password input));;
    lift (validateRecoverySecret (bi_RecoverySecret input));;
    reserveKDF cancelled;;
    account ← try (lift (prepareAccount (bi_Email input) (bi_DisplayName input) (bi_Password input) (bi_RecoverySecret input) r));
    releaseKDF;;
    account ← lift account;
    u ← try (on_store (BootstrapFirstAdmin account (ae_recoveryID r) now));
    match u with
    | Err (AControl ErrAlreadyBootstrapped) => fail ErrAlreadySetup
    | u => lift u
    end.

Definition AcceptInvitation (cancelled : bool) (input : AcceptInvitationInput) (now : Z) (r : account_entropy) : aop UserSummary :=
  match HashEncodedBearerToken (ai_Token input) with
  | Err _ => fail (AControl ErrNotFound)
  | Ok hash =>
    '(i, invitation) ← on_store (GetInvitationByTokenHash hash);
    locked (invitation_lock i) (
      lift (validateNewPassword (ai_Password input));;
      lift (validateRecoverySecret (ai_RecoverySecret input));;
      reserveKDF cancelled;;
      account ← try (lift (prepareAccount (iv_email invitation) (ai_DisplayName input) (ai_Password input) (ai_RecoverySecret input) r));
      releaseKDF;;
      account ← lift account;
      on_store (Control.AcceptInvitation hash account (ae_recoveryID r) now))
  end.

(** ** Login *)
Definition normalizeLoginEmail (email : string) : res aerr string :=
  match normalizeEmail email with Ok e => Ok e | Err _ => Err ErrInvalidCredentials end.

Definition open_session (user : UserSummary) (vaultID : string) (key : list Z) : aop opened :=
  s ← gets id;
  let '(r, d) := OpenSession user vaultID key (dstate s) in
  modify (set_dstate d);;
  match r with Err e => fail (ADeps e) | Ok None => fail ENoSession | Ok (Some session) => mret session end.

Definition reject (key : string) (now : Z) {A} : aop A := recordLoginFailure key now;; fail ErrInvalidCredentials.

(** From the account lock on; the caller owns one slot, which every path gives back. *)
Definition login_account (userID : string) (password : list Z) (key : string) (now : Z) (r : list Z → entropy) : aop opened :=
  u ← try (on_store (GetUser userID));
  match u with
  | Err e =>
    runDummyPasswordWork password;; releaseKDF;;
    match e with AControl ErrNotFound => reject key now | _ => fail e end
  | Ok user =>
    if negb (bool_decide (us_State user = UserActive)) then runDummyPasswordWork password;; releaseKDF;; reject key now
    else if negb (is_ok (validateNewPassword password)) then runDummyPasswordWork password;; releaseKDF;; reject key now
    else
      c ← try (on_store (GetPasswordCredential (us_ID user)));
      match c with
      | Err e => releaseKDF;; fail e
      | Ok credential =>
        v ← try (on_store (LookupVaultID (us_ID user)));
        match v with
        | Err e => releaseKDF;; fail e
        | Ok vaultID =>
          unwrapped ← unwrap_password (pc_Envelope credential) password (MkContext (us_ID user) vaultID);
          releaseKDF;;
          match unwrapped with
          | Err ErrAuthentication => reject key now
          | Err e => fail (AKey e)
          | Ok dek =>
            recorded ← try (on_store (RecordSuccessfulLogin (us_ID user) credential now));
            match recorded with
            | Err (AControl ErrCredentialConflict) | Err (AControl ErrForbidden) => fail ErrInvalidCredentials
            | Err e => fail e
            | Ok _ =>
              upgradePasskeyEnvelopes (us_ID user) vaultID dek now r;;
              clearLoginFailures key;;
              require (length dek =? 32)%nat ERawKey;;
              open_session user vaultID dek
            end
          end
        end
      end
  end.

Definition login_email (email : string) (password : list Z) (key : string) (now : Z) (r : list Z → entropy) : aop opened :=
  u ← try (on_store (GetUserByEmail email));
  match u with
  | Err e =>
    runDummyPasswordWork password;; releaseKDF;;
    match e with AControl ErrNotFound => reject key now | _ => fail e end
  | Ok user =>
    l ← try (lockAccount (user_lock (us_ID user)));
    match l with
    | Err e => releaseKDF;; fail e
    | Ok _ => deferred (unlock (user_lock (us_ID user))) (login_account (us_ID user) password key now r)
    end
  end.

Definition Login (cancelled : bool) (rawEmail : string) (password : list Z) (now : Z) (r : list Z → entropy) : aop opened :=
  match normalizeLoginEmail rawEmail with
  | Err _ => runDummyPassword cancelled password;; fail ErrInvalidCredentials
  | Ok email =>
    let key := LoginThrottleKey email in
    refuse_throttled key now;;
    reserveKDF cancelled;;
    l ← try (lockAccount (email_lock email));
    match l with
    | Err e => releaseKDF;; fail e
    | Ok _ => deferred (unlock (email_lock email)) (login_email email password key now r)
    end
  end.

(** ** Re-authentication *)
Definition Reauthenticate (cancelled : bool) (userID : string) (password : list Z) (now : Z) : aop unit :=
  locked (user_lock userID) (
    u ← try (on_store (GetUser userID));
    let key := match u with Ok user => Some (LoginThrottleKey (us_Email user)) | Err _ => None end in
    match key with Some k => refuse_throttled k now | None => mret tt end;;
    let reject_known := match key with Some k => reject k now | None => fail ErrInvalidCredentials end in
    if negb (is_ok (validateNewPassword password)) then runDummyPassword cancelled password;; reject_known
    else match u with
    | Err e =>
      runDummyPassword cancelled password;;
      match e with AControl ErrNotFound => reject_known | _ => fail e end
    | Ok user =>
      if negb (bool_decide (us_State user = UserActive)) then runDummyPassword cancelled password;; reject_known
      else
        credential ← on_store (GetPasswordCredential userID);
        vaultID ← on_store (LookupVaultID userID);
        reserveKDF cancelled;;
        verified ← verify_password (pc_Envelope credential) password (MkContext userID vaultID);
        releaseKDF;;
        match verified with
        | Err e => fail (AKey e)
        | Ok false => reject (LoginThrottleKey (us_Email user)) now
        | Ok true =>
          recorded ← try (on_store (RecordSuccessfulLogin userID credential now));
          match recorded with
          | Err (AControl ErrCredentialConflict) | Err (AControl ErrForbidden) => fail ErrInvalidCredentials
          | Err e => fail e
          | Ok _ => clearLoginFailures (LoginThrottleKey (us_Email user))
          end
        end
    end).

(** ** Invitations and reset tickets *)
Definition CreateInvitation (actorID email role : string) (expiresAt now : Z) (read : option (list Z)) (generated : string)
    : aop (string * string) :=
  '(token, hash) ← lift (GenerateBearerToken read);
  '(i, _) ← on_store (Control.CreateInvitation actorID (InvitationInput "" email role hash expiresAt) generated now);
  mret (i, token).

Definition CreatePasswordReset (actorID targetUserID : string) (expiresAt now : Z) (read : option (list Z)) (generated : string)
    : aop (string * string) :=
  '(token, hash) ← lift (GenerateBearerToken read);
  '(i, _) ← on_store (CreatePasswordResetTicket actorID targetUserID (TicketInput "" hash expiresAt) generated now);
  mret (i, token).

(** [s.sessions.DeleteAllSessionsForUser(u); s.vaults.BeginUserDrain(u)] *)
Definition revoke_access (userID : string) : aop unit :=
  modify (λ s, set_dstate (BeginDrain userID (EndSessions userID (dstate s))) s).

(** ** Password reset with the recovery secret *)
Definition buildResetEnvelopes (cancelled : bool) (input : ResetInput) (expected : RecoveryEnvelope) (binding : Context)
    (rp rr : entropy) : aop (Envelope * Envelope) :=
  match UnwrapWithRecovery (re_Envelope expected) (rs_RecoverySecret input) binding with
  | Err ErrAuthentication => fail ErrInvalidRecovery
  | Err e => fail (AKey e)
  | Ok dek =>
    reserveKDF cancelled;;
    passwordEnvelope ← try (lift (map_err AKey (WrapWithPassword dek (rs_NewPassword input) binding rp)));
    releaseKDF;;
    passwordEnvelope ← lift passwordEnvelope;
    recoveryEnvelope ← lift (map_err AKey (WrapWithRecovery dek (rs_NewRecoverySecret input) binding rr));
    mret (passwordEnvelope, recoveryEnvelope)
  end.

Definition completePasswordResetLocked (cancelled : bool) (input : ResetInput) (hash : list Z) (ticket : ticketrow) (now : Z)
    (rp rr : entropy) (generated : string) : aop (string * ticketrow) :=
  lift (validateNewPassword (rs_NewPassword input));;
  match validateRecoverySecret (rs_RecoverySecret input) with Ok _ => mret tt | Err _ => fail ErrInvalidRecovery end;;
  lift (validateRecoverySecret (rs_NewRecoverySecret input));;
  u ← try (on_store (GetUser (tk_user ticket)));
  match u with
  | Ok user => require (bool_decide (us_State user = UserActive)) ErrInvalidRecovery
  | Err _ => fail ErrInvalidRecovery
  end;;
  vaultID ← on_store (LookupVaultID (tk_user ticket));
  expected ← on_store (GetActiveRecoveryEnvelope (tk_user ticket));
  '(passwordEnvelope, recoveryEnvelope) ← buildResetEnvelopes cancelled input expected (MkContext (tk_user ticket) vaultID) rp rr;
  result ← on_store (Control.CompletePasswordReset (CompleteInput hash expected passwordEnvelope (RecoveryInput "" recoveryEnvelope)) generated now);
  revoke_access (tk_user ticket);;
  mret result.

Definition CompletePasswordReset (cancelled : bool) (input : ResetInput) (now : Z) (rp rr : entropy) (generated : string)
    : aop (string * ticketrow) :=
  match HashEncodedBearerToken (rs_Token input) with
  | Err _ => fail (AControl ErrNotFound)
  | Ok hash =>
    '(_, ticket) ← on_store (GetPasswordResetTicketByTokenHash hash);
    locked (user_lock (tk_user ticket)) (completePasswordResetLocked cancelled input hash ticket now rp rr generated)
  end.

(** ** Password change *)
Definition changePasswordLocked (cancelled : bool) (userID : string) (currentPassword newPassword : list Z) (revokePasskeys : bool)
    (now : Z) (r : entropy) : aop Z :=
  u ← try (on_store (GetUser userID));
  match u with
  | Err _ => runDummyPassword cancelled currentPassword;; fail ErrInvalidCredentials
  | Ok user =>
    if negb (bool_decide (us_State user = UserActive)) then runDummyPassword cancelled currentPassword;; fail ErrInvalidCredentials
    else
      let key := LoginThrottleKey (us_Email user) in
      refuse_throttled key now;;
      credential ← on_store (GetPasswordCredential userID);
      vaultID ← on_store (LookupVaultID userID);
      let binding := MkContext userID vaultID in
      reserveKDF cancelled;;
      unwrapped ← unwrap_password (pc_Envelope credential) currentPassword binding;
      releaseKDF;;
      match unwrapped with
      | Err ErrAuthentication => reject key now
      | Err e => fail (AKey e)
      | Ok dek =>
        reserveKDF cancelled;;
        replacement ← try (lift (map_err AKey (WrapWithPassword dek newPassword binding r)));
        releaseKDF;;
        replacement ← lift replacement;
        revoked ← on_store (ReplacePasswordCredentialWithPasskeyPolicy userID credential replacement revokePasskeys now);
        clearLoginFailures key;;
        revoke_access userID;;
        mret revoked
      end
  end.

Definition ChangePassword (cancelled : bool) (userID : string) (currentPassword newPassword : list Z) (revokePasskeys : bool)
    (now : Z) (r : entropy) : aop Z :=
  lift (validateNewPassword newPassword);;
  require (negb (bool_decide (currentPassword = newPassword))) ErrInvalidPassword;;
  locked (user_lock userID) (changePasswordLocked cancelled userID currentPassword newPassword revokePasskeys now r).

(** ** The vault key behind a password ([passkeys.go]) *)
Definition unwrapVaultWithPassword (cancelled : bool) (userID : string) (password : list Z) (now : Z) : aop (list Z * string) :=
  u ← try (on_store (GetUser userID));
  let key := match u with Ok user => Some (LoginThrottleKey (us_Email user)) | Err _ => None end in
  match key with Some k => refuse_throttled k now | None => mret tt end;;
  let reject_known := match key with Some k => reject k now | None => fail ErrInvalidCredentials end in
  if negb (is_ok (validateNewPassword password)) then runDummyPassword cancelled password;; reject_known
  else match u with
  | Err e =>
    runDummyPassword cancelled password;;
    match e with AControl ErrNotFound => reject_known | _ => fail e end
  | Ok user =>
    if negb (bool_decide (us_State user = UserActive)) then runDummyPassword cancelled password;; reject_known
    else
      credential ← on_store (GetPasswordCredential userID);
      vaultID ← on_store (LookupVaultID userID);
      reserveKDF cancelled;;
      unwrapped ← unwrap_password (pc_Envelope credential) password (MkContext userID vaultID);
      releaseKDF;;
      match unwrapped with
      | Err ErrAuthentication => reject (LoginThrottleKey (us_Email user)) now
      | Err e => fail (AKey e)
      | Ok dek => clearLoginFailures (LoginThrottleKey (us_Email user));; mret (dek, vaultID)
      end
  end.

(** ** Recovery rotation *)
Definition rotateRecoveryLocked (cancelled : bool) (userID : string) (currentPassword newRecoverySecret : list Z) (now : Z)
    (r : entropy) (generated : string) : aop unit :=
  '(dek, vaultID) ← unwrapVaultWithPassword cancelled userID currentPassword now;
  expected ← on_store (GetActiveRecoveryEnvelope userID);
  let binding := MkContext userID vaultID in
  match UnwrapWithRecovery (re_Envelope expected) newRecoverySecret binding with
  | Ok _ => fail ErrInvalidAccountData
  | Err ErrAuthentication =>
    replacement ← lift (map_err AKey (WrapWithRecovery dek newRecoverySecret binding r));
    on_store (RotateRecoveryEnvelope userID expected (RecoveryInput "" replacement) generated now);;
    revoke_access userID
  | Err e => fail (AKey e)
  end.

Definition RotateRecoveryCode (cancelled : bool) (userID : string) (currentPassword newRecoverySecret : list Z) (now : Z)
    (r : entropy) (generated : string) : aop unit :=
  lift (validateRecoverySecret newRecoverySecret);;
  locked (user_lock userID) (rotateRecoveryLocked cancelled userID currentPassword newRecoverySecret now r generated).

(** ** Administration *)
Definition DisableUser (actorID targetUserID : string) (now : Z) : aop unit :=
  locked (user_lock targetUserID) (on_store (Control.DisableUser actorID targetUserID now);; revoke_access targetUserID).
Definition EnableUser (actorID targetUserID : string) (now : Z) : aop unit :=
  locked (user_lock targetUserID) (on_store (Control.EnableUser actorID targetUserID now)).
Definition SetUserRole (actorID targetUserID role : string) (now : Z) : aop unit :=
  locked (user_lock targetUserID) (on_store (Control.SetUserRole actorID targetUserID role now);; revoke_access targetUserID).
Definition RevokeInvitation (actorID i : string) (now : Z) : aop unit := on_store (Control.RevokeInvitation actorID i now).
Definition RevokePasswordReset (actorID i : string) (now : Z) : aop unit := on_store (RevokePasswordResetTicket actorID i now).

(** ** Credentials of a user *)
Record CredentialInventory := Inventory {
  in_PasswordUpdatedAt : Z; in_RecoveryCreatedAt : Z; in_Passkeys : list PasskeySummary
}.
Definition ListCredentials (userID : string) : aop CredentialInventory :=
  u ← try (on_store (GetUser userID));
  match u with
  | Ok user => require (bool_decide (us_State user = UserActive)) (AControl ErrForbidden)
  | Err _ => fail (AControl ErrForbidden)
  end;;
  password ← on_store (GetPasswordCredential userID);
  recovery ← on_store (GetActiveRecoveryEnvelope userID);
  records ← on_store (ListPasskeyCredentials userID);
  mret (Inventory (pc_UpdatedAt password) (re_CreatedAt recovery) (passkey_summary <$> records)).

(** ** Passkeys of a user; [key] is the answer of [sessionVaultKey] *)
Definition passkeys_ready : aop unit := require (c_webauthn cfg) ErrPasskeysUnavailable.
Definition ListPasskeys (userID : string) (key : option (list Z)) (now : Z) (r : list Z → entropy) : aop (list PasskeySummary) :=
  passkeys_ready;;
  locked (user_lock userID) (
    match key with
    | None => fail ErrInvalidCredentials
    | Some dek =>
      vaultID ← on_store (LookupVaultID userID);
      upgradePasskeyEnvelopes userID vaultID dek now r;;
      records ← on_store (ListPasskeyCredentials userID);
      mret (passkey_summary <$> records)
    end).
Definition DeletePasskey (userID : string) (credentialID : list Z) : aop unit :=
  passkeys_ready;;
  locked (user_lock userID) (on_store (DeletePasskeyCredential userID credentialID);; revoke_access userID).
Definition DeleteAllPasskeys (userID : string) : aop Z :=
  passkeys_ready;;
  locked (user_lock userID) (removed ← on_store (DeleteAllPasskeyCredentials userID); revoke_access userID;; mret removed).
End Operations.
