(* ===== verification/ServerAuthInv.v ===== *)
(** What the account service guarantees ([ServerAuth]): no call leaks an account lock
    or a password slot; logins are refused and counted uniformly; and every account keeps
    one vault key, which its password and its recovery secret both open. *)
From Stdlib Require Import ZArith Lia.
From stdpp Require Import base gmap list strings sorting.
From S2P Require Import Prelude GoText Validation Tags Images Throttle Totp Crypto Control ControlInv KeyEnvelope Vault Session ServerAuth.
Open Scope Z_scope.

(** * Every call as data *)
Section Calls.
Context `{L : ControlLib} `{P : !PasskeyLib L} `{K : KDFLib} `{D : AuthDeps} (cfg : config).

Inductive auth_call :=
| KBootstrap (cancelled : bool) (input : BootstrapInput) (now : Z) (r : account_entropy)
| KAccept (cancelled : bool) (input : AcceptInvitationInput) (now : Z) (r : account_entropy)
| KLogin (cancelled : bool) (email : string) (password : list Z) (now : Z) (r : list Z → entropy)
| KReauthenticate (cancelled : bool) (user : string) (password : list Z) (now : Z)
| KInvite (actor email role : string) (expiresAt now : Z) (read : option (list Z)) (generated : string)
| KTicket (actor target : string) (expiresAt now : Z) (read : option (list Z)) (generated : string)
| KReset (cancelled : bool) (input : ResetInput) (now : Z) (rp rr : entropy) (generated : string)
| KChangePassword (cancelled : bool) (user : string) (current new : list Z) (revoke : bool) (now : Z) (r : entropy)
| KRotate (cancelled : bool) (user : string) (current secret : list Z) (now : Z) (r : entropy) (generated : string)
| KDisable (actor target : string) (now : Z)
| KEnable (actor target : string) (now : Z)
| KSetRole (actor target role : string) (now : Z)
| KRevokeInvitation (actor i : string) (now : Z)
| KRevokeReset (actor i : string) (now : Z)
| KListCredentials (user : string)
| KListPasskeys (user : string) (key : option (list Z)) (now : Z) (r : list Z → entropy)
| KDeletePasskey (user : string) (i : list Z)
| KDeleteAllPasskeys (user : string).

Definition ignore {A} (m : aop A) : aop unit := m;; mret tt.
Definition auth_op (c : auth_call) : aop unit :=
  match c with
  | KBootstrap x i t r => ignore (Bootstrap cfg x i t r)
  | KAccept x i t r => ignore (AcceptInvitation cfg x i t r)
  | KLogin x e p t r => ignore (Login cfg x e p t r)
  | KReauthenticate x u p t => Reauthenticate cfg x u p t
  | KInvite a e r x t rd g => ignore (CreateInvitation a e r x t rd g)
  | KTicket a u x t rd g => ignore (CreatePasswordReset a u x t rd g)
  | KReset x i t rp rr g => ignore (CompletePasswordReset cfg x i t rp rr g)
  | KChangePassword x u p q k t r => ignore (ChangePassword cfg x u p q k t r)
  | KRotate x u p q t r g => RotateRecoveryCode cfg x u p q t r g
  | KDisable a u t => DisableUser a u t
  | KEnable a u t => EnableUser a u t
  | KSetRole a u r t => SetUserRole a u r t
  | KRevokeInvitation a i t => RevokeInvitation a i t
  | KRevokeReset a i t => RevokePasswordReset a i t
  | KListCredentials u => ignore (ListCredentials u)
  | KListPasskeys u k t r => ignore (ListPasskeys cfg u k t r)
  | KDeletePasskey u i => DeletePasskey cfg u i
  | KDeleteAllPasskeys u => ignore (DeleteAllPasskeys cfg u)
  end.

(** * Locks and slots are given back *)

(** [drops n m]: whatever [m] answers, it leaves the locks as they were and [n] slots
    fewer in use. *)
Definition drops {A} (n : Z) (m : aop A) : Prop := ∀ s, locks (m s).2 = locks s ∧ kdf (m s).2 = kdf s - n.

Lemma drops_ret {A} (a : A) : drops 0 (mret a). Proof. intros s. split; [done|rewrite Z.sub_0_r; reflexivity]. Qed.
Lemma drops_fail {A} e : drops 0 (fail e : aop A). Proof. intros s. split; [done|rewrite Z.sub_0_r; reflexivity]. Qed.
Lemma drops_lift {A} (r : res aerr A) : drops 0 (lift r). Proof. intros s. split; [done|rewrite Z.sub_0_r; reflexivity]. Qed.
Lemma drops_require b e : drops 0 (require b e). Proof. intros s. split; [done|rewrite Z.sub_0_r; reflexivity]. Qed.
Lemma drops_gets {A} (f : auth → A) : drops 0 (gets f). Proof. intros s. split; [done|rewrite Z.sub_0_r; reflexivity]. Qed.
Lemma drops_on_store {A} (m : cop A) : drops 0 (on_store m).
Proof. intros s. unfold on_store. destruct (m (store s)). split; [done|rewrite Z.sub_0_r; reflexivity]. Qed.
Lemma drops_on_throttle {A} (m : throttle_op A) : drops 0 (on_throttle m).
Proof. intros s. unfold on_throttle. destruct (m (throttles s)). split; [done|rewrite Z.sub_0_r; reflexivity]. Qed.
Lemma drops_try {A} n (m : aop A) : drops n m → drops n (try m).
Proof. intros H s. specialize (H s). unfold try. destruct (m s). done. Qed.
Lemma drops_bind {A B} (m : aop A) (f : A → aop B) : drops 0 m → (∀ a, drops 0 (f a)) → drops 0 (m ≫= f).
Proof.
  intros Hm Hf s. specialize (Hm s). unfold mbind, stm_bind. destruct (m s) as [[a|e] s']; cbn in *; [|done].
  destruct (Hf a s'), Hm. split; [congruence|lia].
Qed.
(** A statement that cannot fail may stand before a release. *)
Definition never_fails {A} (m : aop A) : Prop := ∀ s, is_ok (m s).1 = true.
Lemma drops_bind_total {A B} n (m : aop A) (f : A → aop B) :
  never_fails m → drops 0 m → (∀ a, drops n (f a)) → drops n (m ≫= f).
Proof.
  intros Ht Hm Hf s. specialize (Hm s). specialize (Ht s). unfold mbind, stm_bind. destruct (m s) as [[a|e] s']; cbn in *; [|done].
  destruct (Hf a s'), Hm. split; [congruence|lia].
Qed.
Lemma drops_release {B} n (f : unit → aop B) : drops n (f tt) → drops (n + 1) (releaseKDF ≫= f).
Proof.
  intros H s. change ((releaseKDF ≫= f) s) with (f tt (release_slot s)). destruct (H (release_slot s)) as [E1 E2].
  rewrite E1, E2. split; [done|]. cbn. lia.
Qed.
Lemma drops_reserve {B} cancelled (f : unit → aop B) : drops 1 (f tt) → drops 0 (reserveKDF cfg cancelled ≫= f).
Proof.
  intros H s. unfold reserveKDF, mbind, stm_bind, require, lift, ensure, gets, modify. destruct cancelled; cbn; [split; [done|lia]|].
  unfold id. destruct (kdf s <? c_slots cfg); cbn; [|split; [done|lia]]. destruct (H (set_kdf (kdf s + 1) s)) as [E1 E2]. cbn in *. split; [done|lia].
Qed.
Lemma drops_dummy_slot {A} (m : aop A) : drops 0 m → drops 1 (deferred release_slot m).
Proof. intros H s. specialize (H s). unfold deferred. destruct (m s). cbn in *. destruct H. split; [done|lia]. Qed.

(** Taking a lock, running, and unlocking, with [n] slots to give back on either path. *)
Lemma drops_try_lock {A} n key (m : aop A) (f : aerr → aop A) :
  drops n m → (∀ e, drops n (f e)) →
  drops n (l ← try (lockAccount key); match l with Err e => f e | Ok _ => deferred (unlock key) m end).
Proof.
  intros Hm Hf s. unfold lockAccount, try, mbind, stm_bind, require, lift, ensure, gets, modify. cbn. unfold id.
  case_bool_decide as Hk; cbn; [apply Hf|]. unfold deferred.
  specialize (Hm (set_locks ({[key]} ∪ locks s) s)). destruct (m _) as [x s']. cbn in *. destruct Hm as [E1 E2].
  rewrite E1, E2. split; [|done]. set_solver.
Qed.
Lemma drops_locked {A} key (m : aop A) : drops 0 m → drops 0 (locked key m).
Proof.
  intros Hm s. unfold locked, lockAccount, mbind, stm_bind, require, lift, ensure, gets, modify. cbn. unfold id.
  case_bool_decide as Hk; cbn; [split; [done|lia]|]. unfold deferred.
  specialize (Hm (set_locks ({[key]} ∪ locks s) s)). destruct (m _) as [x s']. cbn in *. destruct Hm as [E1 E2].
  rewrite E1, E2. split; [|done]. set_solver.
Qed.
Lemma drops_for_each {A} (body : A → aop unit) l : (∀ x, drops 0 (body x)) → drops 0 (for_each body l).
Proof. intros H. induction l as [|x l IH]; cbn [for_each]; [apply drops_ret|]. apply drops_bind; [apply H|done]. Qed.
Lemma drops_deferred_unlocked {A} (m : aop A) : drops 0 m → drops 0 (ignore m).
Proof. intros H. apply drops_bind; [done|]. intros _. apply drops_ret. Qed.

Lemma try_total {A} (m : aop A) : never_fails (try m).
Proof. intros s. unfold try. by destruct (m s). Qed.
Lemma bind_total {A B} (m : aop A) (f : A → aop B) : never_fails m → (∀ a, never_fails (f a)) → never_fails (m ≫= f).
Proof. intros Hm Hf s. specialize (Hm s). unfold mbind, stm_bind. destruct (m s) as [[a|] s']; [apply Hf|done]. Qed.
Lemma ret_total {A} (a : A) : never_fails (mret a). Proof. done. Qed.
Lemma modify_total f : never_fails (modify f). Proof. done. Qed.

Lemma unwrap_total e p c : never_fails (unwrap_password e p c). Proof. done. Qed.
Lemma unwrap_drops e p c : drops 0 (unwrap_password e p c). Proof. intros s. split; [done|rewrite Z.sub_0_r; reflexivity]. Qed.
Lemma verify_total e p c : never_fails (verify_password e p c). Proof. done. Qed.
Lemma verify_drops e p c : drops 0 (verify_password e p c). Proof. intros s. split; [done|rewrite Z.sub_0_r; reflexivity]. Qed.
Lemma dummy_total p : never_fails (runDummyPasswordWork cfg p). Proof. done. Qed.
Lemma dummy_drops p : drops 0 (runDummyPasswordWork cfg p). Proof. intros s. split; [done|rewrite Z.sub_0_r; reflexivity]. Qed.
Lemma record_drops k t : drops 0 (recordLoginFailure k t).
Proof. apply drops_bind; [apply drops_try, drops_on_throttle|]. intros _. apply drops_ret. Qed.
Lemma clear_drops k : drops 0 (clearLoginFailures k).
Proof. apply drops_bind; [apply drops_try, drops_on_throttle|]. intros _. apply drops_ret. Qed.
Lemma revoke_access_drops u : drops 0 (revoke_access u). Proof. intros s. split; [done|rewrite Z.sub_0_r; reflexivity]. Qed.
Lemma open_session_drops u v k : drops 0 (open_session u v k).
Proof.
  intros s. unfold open_session, mbind, stm_bind, gets, modify. cbn. unfold id. destruct (OpenSession u v k (dstate s)) as [[[x|]|e] d]; (split; [done|rewrite Z.sub_0_r; reflexivity]).
Qed.
End Calls.

Create HintDb drops.
#[export] Hint Resolve drops_ret drops_fail drops_lift drops_require drops_gets drops_on_store drops_on_throttle drops_try
  unwrap_drops verify_drops dummy_drops record_drops clear_drops revoke_access_drops open_session_drops : drops.
#[export] Hint Resolve try_total ret_total modify_total unwrap_total verify_total dummy_total : drops.

(** One rule per statement of the service. *)
Ltac drops_step :=
  lazymatch goal with
  | |- drops _ (try (lockAccount _) ≫= _) => apply drops_try_lock; [|intros ?]
  | |- drops _ (locked _ _) => apply drops_locked
  | |- drops _ (reserveKDF _ _ ≫= _) => apply drops_reserve
  | |- drops 1 (releaseKDF ≫= _) => apply (drops_release 0)
  | |- drops 1 (deferred release_slot _) => apply drops_dummy_slot
  | |- drops 1 (_ ≫= _) => apply drops_bind_total; [solve [eauto with drops]|solve [eauto with drops]|intros ?]
  | |- drops 0 (_ ≫= _) => apply drops_bind; [|intros ?]
  | |- drops _ (for_each _ _) => apply drops_for_each; intros ?
  | |- drops _ (match ?x with _ => _ end) => destruct x
  | |- _ => solve [eauto with drops]
  end.
Ltac drops_auto := repeat drops_step.

Section NoLeak.
Context `{L : ControlLib} `{P : !PasskeyLib L} `{K : KDFLib} `{D : AuthDeps} (cfg : config).

Lemma refuse_drops k t : drops 0 (refuse_throttled k t).
Proof. unfold refuse_throttled, checkThrottle. drops_auto. Qed.
Lemma reject_drops {A} k t : drops 0 (reject k t : aop A).
Proof. unfold reject. drops_auto. Qed.
Lemma run_dummy_drops x p : drops 0 (runDummyPassword cfg x p).
Proof. unfold runDummyPassword. drops_auto. Qed.
Lemma upgrade_drops u v d t r : drops 0 (upgradePasskeyEnvelopes cfg u v d t r).
Proof. unfold upgradePasskeyEnvelopes. drops_auto. Qed.
#[local] Hint Resolve refuse_drops reject_drops run_dummy_drops upgrade_drops : drops.

Lemma login_account_drops u p k t r : drops 1 (login_account cfg u p k t r).
Proof. unfold login_account. drops_auto. Qed.
Lemma login_email_drops e p k t r : drops 1 (login_email cfg e p k t r).
Proof. unfold login_email. drops_auto. all: apply login_account_drops. Qed.
Lemma Login_drops x e p t r : drops 0 (Login cfg x e p t r).
Proof. unfold Login. drops_auto. all: apply login_email_drops. Qed.
Lemma unwrapVault_drops x u p t : drops 0 (unwrapVaultWithPassword cfg x u p t).
Proof. unfold unwrapVaultWithPassword. drops_auto. Qed.
Lemma reset_envelopes_drops x i e b rp rr : drops 0 (buildResetEnvelopes cfg x i e b rp rr).
Proof. unfold buildResetEnvelopes. drops_auto. Qed.
#[local] Hint Resolve unwrapVault_drops reset_envelopes_drops : drops.
Lemma reset_drops x i h k t rp rr g : drops 0 (completePasswordResetLocked cfg x i h k t rp rr g).
Proof. unfold completePasswordResetLocked. drops_auto. Qed.
Lemma change_drops x u p q k t r : drops 0 (changePasswordLocked cfg x u p q k t r).
Proof. unfold changePasswordLocked. drops_auto. Qed.
Lemma rotate_drops x u p q t r g : drops 0 (rotateRecoveryLocked cfg x u p q t r g).
Proof. unfold rotateRecoveryLocked. drops_auto. Qed.
#[local] Hint Resolve Login_drops reset_drops change_drops rotate_drops : drops.

Lemma auth_op_drops c : drops 0 (auth_op cfg c).
Proof.
  destruct c; cbn [auth_op]; try apply drops_deferred_unlocked;
  unfold Bootstrap, AcceptInvitation, Reauthenticate, CreateInvitation, CreatePasswordReset, CompletePasswordReset, ChangePassword,
    RotateRecoveryCode, DisableUser, EnableUser, SetUserRole, RevokeInvitation, RevokePasswordReset, ListCredentials, ListPasskeys,
    DeletePasskey, DeleteAllPasskeys, passkeys_ready; drops_auto.
Qed.
End NoLeak.

(** * Reads *)
Definition reads {S E A} (m : stm S E A) : Prop := ∀ s, (m s).2 = s.

Lemma reads_ret {S E A} (a : A) : reads (mret a : stm S E A). Proof. done. Qed.
Lemma reads_fail {S E A} e : reads (fail e : stm S E A). Proof. done. Qed.
Lemma reads_lift {S E A} (r : res E A) : reads (lift r : stm S E A). Proof. done. Qed.
Lemma reads_gets {S E A} (f : S → A) : reads (gets f : stm S E A). Proof. done. Qed.
Lemma reads_bind {S E A B} (m : stm S E A) (f : A → stm S E B) : reads m → (∀ a, reads (f a)) → reads (m ≫= f).
Proof. intros Hm Hf s. specialize (Hm s). unfold mbind, stm_bind. destruct (m s) as [[a|] s']; cbn in Hm; subst; [apply Hf|done]. Qed.
Ltac reads_auto :=
  repeat lazymatch goal with
  | |- reads (_ ≫= _) => apply reads_bind; [|intros ?]
  | |- reads (mret _) => apply reads_ret
  | |- reads (fail _) => apply reads_fail
  | |- reads (lift _) => apply reads_lift
  | |- reads (require _ _) => apply reads_lift
  | |- reads (gets _) => apply reads_gets
  | |- reads (match ?x with _ => _ end) => destruct x
  end.

Section Reads.
Context `{L : ControlLib} `{P : !PasskeyLib L} `{K : KDFLib} `{D : AuthDeps} (cfg : config).

Lemma reads_GetUser u : reads (GetUser u). Proof. unfold GetUser, select_user. reads_auto. Qed.
Lemma reads_GetUserByEmail e : reads (GetUserByEmail e). Proof. unfold GetUserByEmail. reads_auto. Qed.
Lemma reads_LookupVaultID u : reads (LookupVaultID u). Proof. unfold LookupVaultID, select_user. reads_auto. Qed.
Lemma reads_GetPasswordCredential u : reads (GetPasswordCredential u). Proof. unfold GetPasswordCredential. reads_auto. Qed.
Lemma reads_GetActiveRecoveryEnvelope u : reads (GetActiveRecoveryEnvelope u). Proof. unfold GetActiveRecoveryEnvelope. reads_auto. Qed.
Lemma reads_ListPasskeyCredentials u : reads (ListPasskeyCredentials u). Proof. unfold ListPasskeyCredentials. reads_auto. Qed.
Lemma reads_GetInvitation h : reads (GetInvitationByTokenHash h). Proof. unfold GetInvitationByTokenHash. reads_auto. Qed.
Lemma reads_GetTicket h : reads (GetPasswordResetTicketByTokenHash h). Proof. unfold GetPasswordResetTicketByTokenHash. reads_auto. Qed.

Lemma set_store_id (s : auth) : set_store (store s) s = s. Proof. by destruct s. Qed.
Lemma set_throttles_id (s : auth) : set_throttles (throttles s) s = s. Proof. by destruct s. Qed.
Lemma on_store_read {A} (m : cop A) s : reads m → on_store m s = (map_err AControl (m (store s)).1, s).
Proof. intros H. specialize (H (store s)). unfold on_store. destruct (m (store s)) as [r c]. cbn in *. subst. by rewrite set_store_id. Qed.
Lemma bind_read {A B} (m : cop A) (f : A → aop B) s : reads m →
  (on_store m ≫= f) s = match (m (store s)).1 with Ok a => f a s | Err e => (Err (AControl e), s) end.
Proof. intros H. unfold mbind, stm_bind. rewrite on_store_read by done. by destruct (m (store s)) as [[] ?]. Qed.
Lemma bind_try_read {A B} (m : cop A) (f : res aerr A → aop B) s : reads m →
  (try (on_store m) ≫= f) s = f (map_err AControl (m (store s)).1) s.
Proof. intros H. unfold mbind, stm_bind, try. by rewrite on_store_read. Qed.

(** The throttle's keys are always well formed. *)
Lemma throttle_key_valid email : validateLoginThrottleKey (LoginThrottleKey email) = Ok tt.
Proof.
  set (l := Sum256 (throttle_domain ++ bytes email)).
  destruct (Session.hex_bytes l (Sum256_range _)) as [H1 H2].
  assert (bytes (LoginThrottleKey email) = concat ((λ b, [Session.hex_digit (b / 16); Session.hex_digit (b mod 16)]) <$> l)) as E.
  { apply bytes_of_bytes. eapply Forall_impl; [exact H1|]. intros b [_ Hb]. unfold is_byte. lia. }
  assert (length l = 32%nat) as Hl by apply Sum256_length. unfold validateLoginThrottleKey, len. rewrite E, H2, Hl.
  replace (Z.of_nat (2 * 32) =? 64) with true by reflexivity. cbn [negb].
  replace (forallb _ _) with true; [done|]. symmetry. apply Is_true_true, forallb_True. eapply Forall_impl; [exact H1|]. intros b [Hb _].
  unfold Session.hex_rune in Hb. by rewrite Hb.
Qed.
End Reads.

(** * Logins *)
#[local] Opaque LoginThrottleKey Sum256 aes_encrypt hmac_sha256.
Section Logins.
Context `{L : ControlLib} `{P : !PasskeyLib L} `{K : KDFLib} `{D : AuthDeps} (cfg : config).
Context (Hdummy : validatePasswordEnvelope (c_dummy cfg) = Ok tt).

(** Only the locks, the slots and the work may differ. *)
Record quiet (s s' : auth) : Prop := {
  q_store : store s' = store s; q_throttles : throttles s' = throttles s; q_dstate : dstate s' = dstate s
}.
(** A refusal: one verification's worth of work, one failure counted, nothing else. *)
Record refused (key : string) (now : Z) (s s' : auth) : Prop := {
  rf_store : store s' = store s; rf_dstate : dstate s' = dstate s; rf_work : work s' = work s + 1;
  rf_throttles : throttles s' = (RegisterLoginFailure key now loginThrottlePolicy (throttles s)).2
}.

Lemma reject_run {A} key now s :
  (reject key now : aop A) s = (Err ErrInvalidCredentials, set_throttles (RegisterLoginFailure key now loginThrottlePolicy (throttles s)).2 s).
Proof.
  unfold reject, recordLoginFailure, try, on_throttle, mbind, stm_bind. by destruct (RegisterLoginFailure key now loginThrottlePolicy (throttles s)).
Qed.

Lemma new_password_ok p : is_ok (validateNewPassword p) = true → validatePassword p = Ok tt.
Proof.
  unfold validateNewPassword, ValidatePassword, validatePassword, MinimumBytes, MaximumBytes. destruct (_ || _) eqn:E; [done|].
  intros _. apply ensure_Ok. rewrite negb_true_iff, orb_false_iff, Nat.eqb_neq. unfold maxPasswordSize.
  rewrite orb_false_iff in E. rewrite Z.gtb_ltb in *. lia.
Qed.

Lemma dummy_run p s : runDummyPasswordWork cfg p s = (Ok tt, set_work (work s + 1) s).
Proof.
  assert (argon2_runs (c_dummy cfg) (if is_ok (validateNewPassword p) then p else invalidPasswordWork) dummy_context = 1) as E.
  { unfold argon2_runs. rewrite Hdummy. destruct (is_ok (validateNewPassword p)) eqn:E; [|by vm_compute]. by rewrite new_password_ok. }
  rewrite <- E. reflexivity.
Qed.
Lemma dummy_release_run {A} p (m : aop A) s : (runDummyPasswordWork cfg p;; releaseKDF;; m) s = m (release_slot (set_work (work s + 1) s)).
Proof. unfold mbind at 1, stm_bind at 1. rewrite dummy_run. done. Qed.

Lemma refused_dummy {A} p key now s s' (r : res aerr A) :
  (runDummyPasswordWork cfg p;; releaseKDF;; reject key now) s = (r, s') → r = Err ErrInvalidCredentials ∧ refused key now s s'.
Proof. rewrite dummy_release_run, reject_run. intros [= <- <-]. split; [done|]. by constructor. Qed.

(** The password opens the stored credential of an active user. *)
Record opens (c : control) (userID : string) (password : list Z) (user : UserSummary) (credential : PasswordCredential)
    (vaultID : string) (dek : list Z) : Prop := {
  op_user : (GetUser userID c).1 = Ok user;
  op_active : us_State user = UserActive;
  op_policy : is_ok (validateNewPassword password) = true;
  op_credential : (GetPasswordCredential (us_ID user) c).1 = Ok credential;
  op_vault : (LookupVaultID (us_ID user) c).1 = Ok vaultID;
  op_unwrap : UnwrapWithPassword (pc_Envelope credential) password (MkContext (us_ID user) vaultID) = Ok dek
}.

(** What remains of a login once the password has opened the vault key. *)
Definition admit_login (user : UserSummary) (credential : PasswordCredential) (vaultID : string) (dek : list Z) (key : string)
    (now : Z) (r : list Z → entropy) : aop opened :=
  recorded ← try (on_store (RecordSuccessfulLogin (us_ID user) credential now));
  match recorded with
  | Err (AControl ErrCredentialConflict) | Err (AControl ErrForbidden) => fail ErrInvalidCredentials
  | Err e => fail e
  | Ok _ =>
    upgradePasskeyEnvelopes cfg (us_ID user) vaultID dek now r;;
    clearLoginFailures key;;
    require (length dek =? 32)%nat ERawKey;;
    open_session user vaultID dek
  end.

Lemma unwrap_run {A} e p c (f : res kerr (list Z) → aop A) s :
  (x ← unwrap_password e p c; releaseKDF;; f x) s = f (UnwrapWithPassword e p c) (release_slot (set_work (work s + argon2_runs e p c) s)).
Proof. done. Qed.

Lemma argon2_runs_1 e p c : (∀ x, UnwrapWithPassword e p c = Err x → x = ErrAuthentication) → validatePassword p = Ok tt → argon2_runs e p c = 1.
Proof.
  unfold argon2_runs, UnwrapWithPassword. intros Hx Hp. rewrite Hp in *. destruct (validatePasswordEnvelope e) as [[]|k] eqn:E1.
  - cbn [mbind res_bind or_else] in Hx. unfold or_else in Hx. cbn [mbind res_bind] in Hx.
    destruct (validateContext c) as [[]|k] eqn:E2; [done|]. specialize (Hx k eq_refl). subst. unfold validateContext, ensure in E2. by case_match.
  - specialize (Hx k eq_refl). subst. exfalso. revert E1. unfold validatePasswordEnvelope, validateCommonEnvelope, ensure. by repeat (case_match; cbn).
Qed.

Lemma login_account_run u p key now r s res s' :
  login_account cfg u p key now r s = (res, s') →
  (res = Err ErrInvalidCredentials ∧ refused key now s s' ∧ (∀ user c v dek, ¬ opens (store s) u p user c v dek)) ∨
  (∃ e, res = Err e ∧ e ≠ ErrInvalidCredentials ∧ quiet s s' ∧ (∀ user c v dek, ¬ opens (store s) u p user c v dek)) ∨
  (∃ user c v dek, opens (store s) u p user c v dek ∧
     admit_login user c v dek key now r (release_slot (set_work (work s + 1) s)) = (res, s')).
Proof.
  unfold login_account. rewrite bind_try_read by apply reads_GetUser. destruct (GetUser u (store s)).1 as [user|e] eqn:Hu; cbn [map_err].
  2: { destruct e; first [(intros [-> ?]%refused_dummy; left; split_and!; [done|done|]; intros ???? []; congruence) |
         (rewrite dummy_release_run; intros [= <- <-]; right; left; eexists; split_and!; [done|done|done|]; intros ???? []; congruence)]. }
  case_bool_decide as Ha; cbn [negb].
  2: { intros [-> ?]%refused_dummy. left. split_and!; [done|done|]. intros ???? []. congruence. }
  destruct (is_ok (validateNewPassword p)) eqn:Hp; cbn [negb].
  2: { intros [-> ?]%refused_dummy. left. split_and!; [done|done|]. intros ???? []. congruence. }
  rewrite bind_try_read by apply reads_GetPasswordCredential.
  destruct (GetPasswordCredential (us_ID user) (store s)).1 as [c|e] eqn:Hc; cbn [map_err].
  2: { intros [= <- <-]. right. left. eexists. split_and!; [done|done|done|]. intros ???? []. congruence. }
  rewrite bind_try_read by apply reads_LookupVaultID.
  destruct (LookupVaultID (us_ID user) (store s)).1 as [v|e] eqn:Hv; cbn [map_err].
  2: { intros [= <- <-]. right. left. eexists. split_and!; [done|done|done|]. intros ???? []. congruence. }
  rewrite unwrap_run. destruct (UnwrapWithPassword (pc_Envelope c) p (MkContext (us_ID user) v)) as [dek|e] eqn:Hd.
  - intros Hrun. right. right. exists user, c, v, dek. split; [by constructor|]. rewrite argon2_runs_1 in Hrun; [done|by rewrite Hd|by apply new_password_ok].
  - assert (∀ user c v dek, ¬ opens (store s) u p user c v dek) as Hno.
    { intros ???? []. congruence. }
    destruct e; try (intros [= <- <-]; right; left; eexists; split_and!; [done|done|done|done]).
    rewrite reject_run. intros [= <- <-]. left. split_and!; [done| |done]. constructor; try done. cbn. f_equal.
    apply argon2_runs_1; [|by apply new_password_ok]. intros x Hx. congruence.
Qed.

Definition account_of (c : control) (email : string) : option string :=
  match (GetUserByEmail email c).1 with Ok u => Some (us_ID u) | Err _ => None end.
(** Some account has this address and this password opens it. *)
Definition right_password (c : control) (email : string) (password : list Z) : Prop :=
  ∃ u user credential vaultID dek, account_of c email = Some u ∧ opens c u password user credential vaultID dek.

Lemma quiet_refl s : quiet s s. Proof. done. Qed.
Lemma locked_case {A} key (m : aop A) (f : aerr → aop A) s :
  (l ← try (lockAccount key); match l with Err e => f e | Ok _ => deferred (unlock key) m end) s = f ErrAuthenticationBusy s ∨
  (l ← try (lockAccount key); match l with Err e => f e | Ok _ => deferred (unlock key) m end) s =
    ((m (set_locks ({[key]} ∪ locks s) s)).1, unlock key (m (set_locks ({[key]} ∪ locks s) s)).2).
Proof.
  unfold lockAccount, try, mbind, stm_bind, require, lift, ensure, gets, modify. cbn. unfold id. case_bool_decide; [by left|right]. cbn.
  unfold deferred. by destruct (m (set_locks ({[key]} ∪ locks s) s)).
Qed.

(** The three ways a login can end, seen from the service's own state. *)
Inductive login_end (email : string) (p : list Z) (now : Z) (r : list Z → entropy) (s : auth) : res aerr opened → auth → Prop :=
| end_refused s' : refused (LoginThrottleKey email) now s s' → ¬ right_password (store s) email p →
    login_end email p now r s (Err ErrInvalidCredentials) s'
| end_error e s' : e ≠ ErrInvalidCredentials → quiet s s' → login_end email p now r s (Err e) s'
| end_admitted u user c v dek s1 res s2 s' : account_of (store s) email = Some u → opens (store s) u p user c v dek →
    quiet s s1 → work s1 = work s + 1 → admit_login user c v dek (LoginThrottleKey email) now r s1 = (res, s2) →
    quiet s2 s' → work s' = work s2 → login_end email p now r s res s'.

Lemma login_email_run email p now r s res s' :
  login_email cfg email p (LoginThrottleKey email) now r s = (res, s') → login_end email p now r s res s'.
Proof.
  unfold login_email. rewrite bind_try_read by apply reads_GetUserByEmail.
  destruct (GetUserByEmail email (store s)).1 as [user|e] eqn:Hu; cbn [map_err].
  - assert (account_of (store s) email = Some (us_ID user)) as Hacc by (unfold account_of; by rewrite Hu).
    intros Hrun. destruct (locked_case (user_lock (us_ID user)) (login_account cfg (us_ID user) p (LoginThrottleKey email) now r) (λ e, releaseKDF;; fail e) s) as [E|E];
      rewrite E in Hrun; clear E.
    { injection Hrun as <- <-. by apply end_error. }
    destruct (login_account _ _ _ _ _ _ _) as [res1 s1] eqn:Hl. cbn [fst snd] in Hrun. injection Hrun as -> <-.
    apply login_account_run in Hl as [(-> & [] & Hno)|[(e & -> & He & [] & Hno)|(us & c & v & dek & Ho & Hadm)]].
    + apply end_refused; [by constructor|]. intros (u & us & c & v & dek & Hacc' & Ho). rewrite Hacc in Hacc'. injection Hacc' as <-. by eapply Hno.
    + apply end_error; [done|]. by constructor.
    + eapply end_admitted; [exact Hacc|exact Ho| | |exact Hadm|done|done]; [done|done].
  - assert (account_of (store s) email = None) as Hacc by (unfold account_of; by rewrite Hu).
    destruct e; first [(intros [-> ?]%refused_dummy; apply end_refused; [done|]; intros (? & ? & ? & ? & ? & ? & _); congruence) |
         (rewrite dummy_release_run; intros [= <- <-]; by apply end_error)].
Qed.

Lemma check_throttle_run key now s :
  (refuse_throttled key now s = (Ok tt, s) ∧ (LoginThrottleLockedUntil key now (throttles s)).1 = Ok None) ∨
  (∃ e, refuse_throttled key now s = (Err e, s) ∧ e ≠ ErrInvalidCredentials ∧ (LoginThrottleLockedUntil key now (throttles s)).1 ≠ Ok None).
Proof.
  unfold refuse_throttled, checkThrottle, on_throttle, checkLoginThrottle, LoginThrottleLockedUntil, mbind, stm_bind, lift, gets.
  destruct (validateLoginThrottleKey key) as [[]|e]; cbn; [|right; eexists; by rewrite set_throttles_id].
  destruct (validateOperationTime now) as [ms|e] eqn:Ht; cbn; [|right; eexists; by rewrite set_throttles_id]. unfold id.
  apply op_time_ok in Ht as [-> _].
  destruct (option_bind _ _ _ _) as [l|] eqn:El; cbn; rewrite set_throttles_id; [|by left]. right.
  destruct (option_bind _ _ tr_locked_until _) as [l'|]; cbn in El; [|done]. destruct (l' >? now / 1000000) eqn:Hg; [|done].
  injection El as ->. destruct (Z.leb_spec (l * 1000000 - now) 0) as [Hle|Hgt].
  - exfalso. rewrite Z.gtb_ltb, Z.ltb_lt in Hg. pose proof (Z.mod_pos_bound now 1000000 ltac:(lia)). pose proof (Z.div_mod now 1000000 ltac:(lia)). nia.
  - destruct (l * 1000000 - now >? 0) eqn:Hz; [|rewrite Z.gtb_ltb, Z.ltb_ge in Hz; lia]. by eexists.
Qed.

Lemma Login_run x raw email p now r s res s' :
  normalizeLoginEmail raw = Ok email → Login cfg x raw p now r s = (res, s') →
  ((LoginThrottleLockedUntil (LoginThrottleKey email) now (throttles s)).1 = Ok None ∧ login_end email p now r s res s') ∨
  (∃ e, res = Err e ∧ e ≠ ErrInvalidCredentials ∧ quiet s s').
Proof.
  unfold Login. intros ->. unfold mbind at 1, stm_bind at 1.
  destruct (check_throttle_run (LoginThrottleKey email) now s) as [[-> Hfree]|(e & -> & He & _)]; [|intros [= <- <-]; right; by exists e].
  unfold mbind at 1, stm_bind at 1. destruct (reserveKDF cfg x s) as [[[]|e] s1] eqn:Hres.
  - assert (quiet s s1 ∧ work s1 = work s) as [Hq Hw].
    { revert Hres. unfold reserveKDF, mbind, stm_bind, require, lift, ensure, gets, modify, id. destruct x; [done|]. cbn.
      destruct (kdf s <? c_slots cfg); [|done]. intros [= <-]. done. }
    intros Hrun. destruct (locked_case (email_lock email) (login_email cfg email p (LoginThrottleKey email) now r) (λ e, releaseKDF;; fail e) s1) as [E|E];
      rewrite E in Hrun; clear E.
    { injection Hrun as <- <-. right. eexists. split_and!; [done|done|]. destruct Hq. by constructor. }
    left. split; [done|]. destruct (login_email _ _ _ _ _ _ _) as [res1 s2] eqn:Hl. cbn [fst snd] in Hrun. injection Hrun as -> <-.
    apply login_email_run in Hl. destruct Hq as [Q1 Q2 Q3].
    inversion Hl as [t [R1 R2 R3 R4] Hno Ee Et|e t He [T1 T2 T3] Ee Et|u user c v dek t1 t2 t3 t Hacc Ho [T1 T2 T3] Hwk Hadm [U1 U2 U3] Hwk2 Ee Et]; subst; cbn in *.
    + apply end_refused; [|by rewrite <- Q1]. constructor; cbn; congruence.
    + apply end_error; [done|]. constructor; cbn; congruence.
    + rewrite Q1 in *. eapply end_admitted; [exact Hacc|exact Ho| |rewrite Hwk, Hw; done|exact Hadm| |]; [constructor; cbn; congruence|constructor; cbn; congruence|done].
  - intros [= <- <-]. right. exists e. revert Hres. unfold reserveKDF, mbind, stm_bind, require, lift, ensure, gets, modify, id.
    destruct x; cbn; [intros [= <- <-]; done|]. destruct (kdf s <? c_slots cfg); [done|]. intros [= <- <-]. done.
Qed.

(** ** The last stretch of an accepted login *)
Definition store_only {A} (m : aop A) : Prop := ∀ s, throttles (m s).2 = throttles s ∧ dstate (m s).2 = dstate s ∧ work (m s).2 = work s.
Lemma store_only_on_store {A} (m : cop A) : store_only (on_store m).
Proof. intros s. unfold on_store. by destruct (m (store s)). Qed.
Lemma store_only_bind {A B} (m : aop A) (f : A → aop B) : store_only m → (∀ a, store_only (f a)) → store_only (m ≫= f).
Proof.
  intros Hm Hf s. specialize (Hm s). unfold mbind, stm_bind. destruct (m s) as [[a|e] s']; cbn in *; [|done].
  destruct (Hf a s') as (?&?&?), Hm as (?&?&?). split_and!; congruence.
Qed.
Lemma store_only_lift {A} (r : res aerr A) : store_only (lift r). Proof. done. Qed.
Lemma store_only_for_each {A} (body : A → aop unit) l : (∀ x, store_only (body x)) → store_only (for_each body l).
Proof. intros H. induction l as [|x l IH]; cbn [for_each]; [done|]. apply store_only_bind; [apply H|done]. Qed.
Lemma upgrade_store_only u v d t r : store_only (upgradePasskeyEnvelopes cfg u v d t r).
Proof.
  unfold upgradePasskeyEnvelopes. destruct (negb (c_webauthn cfg)); [done|]. apply store_only_bind; [apply store_only_on_store|]. intros records.
  apply store_only_for_each. intros x. case_bool_decide; [done|]. apply store_only_bind; [done|]. intros e. apply store_only_on_store.
Qed.

Lemma clear_run key s : validateLoginThrottleKey key = Ok tt →
  clearLoginFailures key s = (Ok tt, set_throttles (ThrottleStore (delete key (throttle (throttles s))) (throttleWrites (throttles s))) s).
Proof.
  intros Hk. unfold clearLoginFailures, try, on_throttle, ClearLoginFailures, mbind, stm_bind, lift, modify. rewrite Hk. done.
Qed.

Lemma admit_Ok user c v dek email now r s session s' :
  admit_login user c v dek (LoginThrottleKey email) now r s = (Ok session, s') →
  length dek = 32%nat ∧ OpenSession user v dek (dstate s) = (Ok (Some session), dstate s') ∧ work s' = work s ∧
  throttles s' = ThrottleStore (delete (LoginThrottleKey email) (throttle (throttles s))) (throttleWrites (throttles s)).
Proof.
  unfold admit_login. intros (rec & s1 & H1 & Hrun)%bind_Ok_inv.
  assert (throttles s1 = throttles s ∧ dstate s1 = dstate s ∧ work s1 = work s) as (T1 & D1 & W1).
  { pose proof (store_only_on_store (RecordSuccessfulLogin (us_ID user) c now) s) as Hs. unfold try in H1.
    destruct (on_store (RecordSuccessfulLogin (us_ID user) c now) s). injection H1 as _ ->. exact Hs. }
  assert (∃ u, rec = Ok u) as [[] ->].
  { destruct rec as [u|e]; [by exists u|]. destruct e as [e| | | | | | | | | | | | | | | | | | | | | | | | | |]; try discriminate Hrun. by destruct e. }
  apply bind_Ok_inv in Hrun as ([] & s2 & H2 & Hrun). pose proof (upgrade_store_only (us_ID user) v dek now r s1) as (T2 & D2 & W2).
  rewrite H2 in T2, D2, W2. cbn [snd] in *.
  apply bind_Ok_inv in Hrun as ([] & s3 & H3 & Hrun). rewrite clear_run in H3 by apply throttle_key_valid. injection H3 as <-.
  apply bind_Ok_inv in Hrun as ([] & s4 & [Hlen ->]%require_Ok & Hrun). apply Nat.eqb_eq in Hlen.
  unfold open_session, mbind, stm_bind, gets, modify, id in Hrun. cbn in Hrun. rewrite D2, D1 in Hrun.
  destruct (OpenSession user v dek (dstate s)) as [[[x|]|e] d] eqn:Ho; cbn in Hrun; try discriminate Hrun. injection Hrun as <- <-.
  cbn. split_and!; [done|done|congruence|congruence].
Qed.
End Logins.

(** A service built by [NewService] has a verifier to spend on unknown accounts. *)
Lemma NewService_dummy `{KDFLib} d dk r cfg : NewService d dk r = Ok cfg → validatePasswordEnvelope (c_dummy cfg) = Ok tt.
Proof.
  unfold NewService. destruct (_ || _); [done|]. destruct (_ && _); [done|]. destruct (_ && _); [done|]. intros (dummy & Hd & [= <-])%res_bind_Ok_inv. cbn [c_dummy].
  unfold newDummyPasswordEnvelope in Hd. destruct (_ ≫= _) as [e|] eqn:E; [|done]. injection Hd as ->.
  apply res_bind_Ok_inv in E as (dek & _ & Hw). apply WrapWithPassword_spec in Hw as (Hu & _).
  unfold UnwrapWithPassword in Hu. by apply res_bind_Ok_inv in Hu as ([] & ? & _).
Qed.

(** ** Rows behind the reads *)
Section Rows.
Context `{L : ControlLib}.
Lemma normalizeID_id u i : normalizeID u = Ok i → i = u.
Proof. unfold normalizeID. destruct (negb _); [done|]. destruct (_ || _); [done|]. destruct (forallb _ _); [|done]. congruence. Qed.
Lemma account_row c email u : account_of c email = Some u → ∃ row, users c !! u = Some row.
Proof.
  unfold account_of, GetUserByEmail, mbind, stm_bind, lift, gets, id. destruct (normalizeEmail email) as [e|]; [|done]. cbn.
  destruct (map_to_list _) as [|[i row] l] eqn:El; [done|]. cbn. intros [= <-]. exists row.
  assert ((i, row) ∈ map_to_list (filter (λ x : string * userrow, nocase (u_email x.2) = nocase e) (users c))) as Hin by (rewrite El; left).
  by apply elem_of_map_to_list, map_lookup_filter_Some in Hin as [? _].
Qed.
Lemma user_row c u row user : users c !! u = Some row → (GetUser u c).1 = Ok user → user = scanUserSummary u row ∧ us_ID (scanUserSummary u row) = u.
Proof.
  intros Hrow. unfold GetUser, select_user, mbind, stm_bind, lift, gets, id. destruct (normalizeID u) as [i|] eqn:E; [|done]. rewrite (normalizeID_id _ _ E). cbn. rewrite Hrow. cbn. by intros [= <-].
Qed.
Lemma credential_row c u cr : (GetPasswordCredential u c).1 = Ok cr →
  ∃ pw, passwords c !! u = Some pw ∧ decodeKeyEnvelope (pw_json pw) KindPassword = Ok (pc_Envelope cr).
Proof.
  unfold GetPasswordCredential, mbind, stm_bind, lift, gets, id. destruct (normalizeID u) as [i|] eqn:E; [|done]. rewrite (normalizeID_id _ _ E). cbn. destruct (passwords c !! u) as [pw|]; [|done]. cbn.
  destruct (decodeKeyEnvelope (pw_json pw) KindPassword) as [e|] eqn:Ed; [|done]. cbn. intros [= <-]. by exists pw.
Qed.
Lemma vault_row c u row v : users c !! u = Some row → (LookupVaultID u c).1 = Ok v → v = u_vault row.
Proof.
  intros Hrow. unfold LookupVaultID, select_user, mbind, stm_bind, lift, gets, id. destruct (normalizeID u) as [i|] eqn:E; [|done]. rewrite (normalizeID_id _ _ E). cbn. rewrite Hrow. cbn. congruence.
Qed.
Lemma unlocked_row key now t : (LoginThrottleLockedUntil key now t).1 = Ok None → locked_at (now / 1000000) (throttle t !! key) = None.
Proof.
  unfold LoginThrottleLockedUntil, mbind, stm_bind, lift, gets, id. destruct (validateLoginThrottleKey key) as [[]|]; [|done]. cbn.
  destruct (validateOperationTime now) as [ms|] eqn:E; [|done]. apply op_time_ok in E as [-> _]. intros [= Hl]. exact Hl.
Qed.
End Rows.

(** ** Refusals *)
Section Refusals.
Context `{L : ControlLib} `{P : !PasskeyLib L} `{K : KDFLib} `{D : AuthDeps} (cfg : config).

(** What a login is refused with before anything is read of the accounts: it depends on
    the throttle, the cancellation, the slots and the lock of the address alone. *)
Definition login_gate (cancelled : bool) (email : string) (now : Z) (t : throttle_store) (slots : Z) (held : gset string) : option aerr :=
  match (checkLoginThrottle (LoginThrottleKey email) now t).1 with
  | Err e => Some (AThrottle e)
  | Ok retryAfter =>
    if retryAfter >? 0 then Some (LoginThrottledError retryAfter)
    else if cancelled || negb (slots <? c_slots cfg) || bool_decide (email_lock email ∈ held) then Some ErrAuthenticationBusy
    else None
  end.

(** The rows of an account that is there can be read. *)
Definition account_readable (c : control) (email : string) : Prop :=
  ∀ u, account_of c email = Some u → normalizeID u = Ok u ∧ ∃ row, users c !! u = Some row ∧
    (u_state row = UserActive → validateContext (MkContext u (u_vault row)) = Ok tt ∧
       ∃ pw e, passwords c !! u = Some pw ∧ decodeKeyEnvelope (pw_json pw) KindPassword = Ok e).

Lemma decoded_password_valid json e : decodeKeyEnvelope json KindPassword = Ok e → validatePasswordEnvelope e = Ok tt.
Proof.
  unfold decodeKeyEnvelope. destruct (_ || _); [done|]. destruct (UnmarshalEnvelope json) as [e'|]; [|done].
  intros ([] & Hv & [= ->])%res_bind_Ok_inv. revert Hv. unfold validateKeyEnvelope.
  intros ([] & H1%ensure_Ok & ([] & H2%ensure_Ok & ([] & H3%ensure_Ok & ([] & H4%ensure_Ok & H5)%res_bind_Ok_inv)%res_bind_Ok_inv)%res_bind_Ok_inv)%res_bind_Ok_inv.
  rewrite bool_decide_eq_true_2 in H5 by done. apply res_bind_Ok_inv in H5 as ([] & H5%ensure_Ok & H6%ensure_Ok).
  rewrite !andb_true_iff, !bool_decide_eq_true in *. rewrite ?Nat.eqb_eq, ?Z.eqb_eq in *.
  apply validatePasswordEnvelope_Ok. destruct H1, H5. split_and!; [constructor|..]; done.
Qed.
Lemma unwrap_error e p c x : validatePasswordEnvelope e = Ok tt → validateContext c = Ok tt → UnwrapWithPassword e p c = Err x → x = ErrAuthentication.
Proof.
  unfold UnwrapWithPassword. intros -> Hc. cbn [mbind res_bind]. unfold or_else at 1. destruct (validatePassword p); cbn [mbind res_bind]; [|congruence].
  rewrite Hc. cbn [mbind res_bind]. repeat case_match; congruence.
Qed.

Context (Hdummy : validatePasswordEnvelope (c_dummy cfg) = Ok tt).
Context (lower_stable : ∀ s, ToLower (TrimSpace (ToLower (TrimSpace s))) = ToLower (TrimSpace s)).

Lemma normalizeEmail_stable raw email : normalizeEmail raw = Ok email → normalizeEmail email = Ok email.
Proof.
  intros H. assert (email = ToLower (TrimSpace raw)) as E.
  { revert H. unfold normalizeEmail. by repeat case_match; intros [= <-]. }
  rewrite <- H. subst email. unfold normalizeEmail. by rewrite lower_stable.
Qed.

Lemma GetUser_ok c u row : normalizeID u = Ok u → users c !! u = Some row → (GetUser u c).1 = Ok (scanUserSummary u row).
Proof. intros Hid Hrow. unfold GetUser, select_user, mbind, stm_bind, lift, gets, id. rewrite Hid. cbn. by rewrite Hrow. Qed.
Lemma LookupVaultID_ok c u row : normalizeID u = Ok u → users c !! u = Some row → (LookupVaultID u c).1 = Ok (u_vault row).
Proof. intros Hid Hrow. unfold LookupVaultID, select_user, mbind, stm_bind, lift, gets, id. rewrite Hid. cbn. by rewrite Hrow. Qed.
Lemma GetPasswordCredential_ok c u pw e : normalizeID u = Ok u → passwords c !! u = Some pw → decodeKeyEnvelope (pw_json pw) KindPassword = Ok e →
  (GetPasswordCredential u c).1 = Ok (PwCredential u e (pw_created pw * 1000000) (pw_updated pw * 1000000)).
Proof. intros Hid Hpw Hdec. unfold GetPasswordCredential, mbind, stm_bind, lift, gets, id. rewrite Hid. cbn. rewrite Hpw. by rewrite Hdec. Qed.

Lemma login_account_refused u p key now r s : normalizeID u = Ok u → (∀ user c v dek, ¬ opens (store s) u p user c v dek) →
  (∃ row, users (store s) !! u = Some row ∧ (u_state row = UserActive → validateContext (MkContext u (u_vault row)) = Ok tt ∧
     ∃ pw e, passwords (store s) !! u = Some pw ∧ decodeKeyEnvelope (pw_json pw) KindPassword = Ok e)) →
  ∃ s', login_account cfg u p key now r s = (Err ErrInvalidCredentials, s') ∧ refused key now s s'.
Proof.
  intros Hid Hno (row & Hrow & Hact). pose proof (GetUser_ok _ _ _ Hid Hrow) as Hu. pose proof (LookupVaultID_ok _ _ _ Hid Hrow) as Hv.
  destruct (login_account cfg u p key now r s) as [res s'] eqn:E. exists s'.
  destruct (login_account_run cfg Hdummy _ _ _ _ _ _ _ _ E) as [(-> & ? & _)|[(e & -> & He & _ & _)|(user & c & v & dek & Ho & _)]];
    [done| |by destruct (Hno user c v dek)].
  exfalso. apply He. revert E. unfold login_account. rewrite bind_try_read by apply reads_GetUser. rewrite Hu.
  cbn [map_err]. case_bool_decide as Ha; cbn [negb]; [|by intros [[= ->] _]%(refused_dummy cfg Hdummy)].
  destruct (is_ok (validateNewPassword p)) eqn:Hp; cbn [negb]; [|by intros [[= ->] _]%(refused_dummy cfg Hdummy)].
  destruct (Hact Ha) as (Hctx & pw & env & Hpw & Hdec). pose proof (GetPasswordCredential_ok _ _ _ _ Hid Hpw Hdec) as Hc.
  rewrite bind_try_read by apply reads_GetPasswordCredential. change (us_ID (scanUserSummary u row)) with u. rewrite Hc.
  cbn [map_err]. rewrite bind_try_read by apply reads_LookupVaultID. rewrite Hv. cbn [map_err]. rewrite unwrap_run. cbn [pc_Envelope].
  destruct (UnwrapWithPassword env p (MkContext u (u_vault row))) as [dek|x] eqn:Hd; [by edestruct Hno|].
  rewrite (unwrap_error _ _ _ _ (decoded_password_valid _ _ Hdec) Hctx Hd), reject_run. by intros [= <- _].
Qed.

Lemma locked_free {A} key (m : aop A) (f : aerr → aop A) s : key ∉ locks s →
  (l ← try (lockAccount key); match l with Err e => f e | Ok _ => deferred (unlock key) m end) s =
    ((m (set_locks ({[key]} ∪ locks s) s)).1, unlock key (m (set_locks ({[key]} ∪ locks s) s)).2).
Proof.
  intros Hk. unfold lockAccount, try, mbind, stm_bind, require, lift, ensure, gets, modify. cbn. unfold id. rewrite bool_decide_eq_false_2 by done.
  cbn. unfold deferred. by destruct (m (set_locks ({[key]} ∪ locks s) s)).
Qed.
Lemma locked_held {A} key (m : aop A) (f : aerr → aop A) s : key ∈ locks s →
  (l ← try (lockAccount key); match l with Err e => f e | Ok _ => deferred (unlock key) m end) s = f ErrAuthenticationBusy s.
Proof.
  intros Hk. unfold lockAccount, try, mbind, stm_bind, require, lift, ensure, gets, modify. cbn. unfold id. by rewrite bool_decide_eq_true_2.
Qed.
Lemma lock_names e u : user_lock u ≠ email_lock e.
Proof. unfold user_lock, email_lock. done. Qed.

Lemma login_email_refused email p now r s :
  normalizeEmail email = Ok email → ¬ right_password (store s) email p → account_readable (store s) email →
  (∀ u, account_of (store s) email = Some u → user_lock u ∉ locks s) →
  ∃ s', login_email cfg email p (LoginThrottleKey email) now r s = (Err ErrInvalidCredentials, s') ∧ refused (LoginThrottleKey email) now s s'.
Proof.
  intros He Hno Hread Hlock. unfold login_email. rewrite bind_try_read by apply reads_GetUserByEmail.
  destruct (GetUserByEmail email (store s)).1 as [user|e] eqn:Hu; cbn [map_err].
  - assert (account_of (store s) email = Some (us_ID user)) as Hacc by (unfold account_of; by rewrite Hu).
    rewrite locked_free by auto. destruct (Hread _ Hacc) as [Hid Hrow].
    destruct (login_account_refused (us_ID user) p (LoginThrottleKey email) now r (set_locks ({[user_lock (us_ID user)]} ∪ locks s) s) Hid) as (s' & E & [R1 R2 R3 R4]).
    { intros us c v dek Ho. apply Hno. by exists (us_ID user), us, c, v, dek. }
    { exact Hrow. }
    rewrite E. eexists. split; [done|]. by constructor.
  - assert (e = Control.ErrNotFound) as ->.
    { revert Hu. unfold GetUserByEmail, mbind, stm_bind, lift, gets, id. rewrite He. cbn. repeat case_match; cbn; congruence. }
    destruct ((runDummyPasswordWork cfg p;; releaseKDF;; reject (LoginThrottleKey email) now) s) as [res s'] eqn:E. exists s'.
    by apply (refused_dummy cfg Hdummy) in E as [-> ?].
Qed.

Lemma refuse_throttled_run key now s :
  refuse_throttled key now s =
    (match (checkLoginThrottle key now (throttles s)).1 with
     | Err e => Err (AThrottle e) | Ok w => if w >? 0 then Err (LoginThrottledError w) else Ok tt end, s).
Proof.
  unfold refuse_throttled, checkThrottle, on_throttle, mbind, stm_bind.
  assert ((checkLoginThrottle key now (throttles s)).2 = throttles s) as H.
  { unfold checkLoginThrottle, LoginThrottleLockedUntil, mbind, stm_bind, lift, gets. destruct (validateLoginThrottleKey key); [|done]. cbn.
    destruct (validateOperationTime now); [|done]. cbn. by case_match. }
  destruct (checkLoginThrottle key now (throttles s)) as [[w|e] t]; cbn in *; subst t; rewrite set_throttles_id; [by destruct (w >? 0)|done].
Qed.
Lemma reserve_run x s :
  reserveKDF cfg x s = if x || negb (kdf s <? c_slots cfg) then (Err ErrAuthenticationBusy, s) else (Ok tt, set_kdf (kdf s + 1) s).
Proof. unfold reserveKDF, mbind, stm_bind, require, lift, ensure, gets, modify, id. destruct x; [done|]. cbn. by destruct (kdf s <? c_slots cfg). Qed.
End Refusals.

Section LoginClaims.
Context `{L : ControlLib} `{P : !PasskeyLib L} `{K : KDFLib} `{D : AuthDeps} (cfg : config).

(** C9. Wrong credentials are all alike. What a login with wrong credentials answers does not
    depend on the accounts: it is the refusal of the gate (the address is throttled, the
    request was cancelled, no slot is free or the address is being logged in already), in
    which case nothing is verified, counted or changed, and otherwise always the same error,
    after exactly one password verification and exactly one failure counted against the
    address, with nothing else changed and no session opened. So an unknown address, a
    disabled account, a malformed and a wrong password cannot be told apart. The rows of an
    account that is there must be readable, and no other call may hold the account. *)
Theorem login_refused_uniformly d dk rd x raw email p now r s :
  (∀ t, ToLower (TrimSpace (ToLower (TrimSpace t))) = ToLower (TrimSpace t)) →
  NewService d dk rd = Ok cfg → normalizeLoginEmail raw = Ok email → ¬ right_password (store s) email p →
  account_readable (store s) email → (∀ u, account_of (store s) email = Some u → user_lock u ∉ locks s) →
  let gate := login_gate cfg x email now (throttles s) (kdf s) (locks s) in
  ∃ s', Login cfg x raw p now r s = (Err (default ErrInvalidCredentials gate), s') ∧
    match gate with
    | Some e => e ≠ ErrInvalidCredentials ∧ quiet s s' ∧ work s' = work s
    | None => refused (LoginThrottleKey email) now s s'
    end.
Proof.
  intros Hlow Hnew%NewService_dummy He Hno Hread Hlock gate. subst gate. unfold Login, login_gate. rewrite He.
  unfold mbind at 1, stm_bind at 1. rewrite refuse_throttled_run. destruct (checkLoginThrottle _ _ _).1 as [w|e]; [|exists s; split; [done|]; split_and!; [done|apply quiet_refl|done]].
  destruct (w >? 0); [by exists s|]. unfold mbind at 1, stm_bind at 1. rewrite reserve_run. destruct (x || _); [by exists s|]. cbn [orb].
  destruct (bool_decide_reflect (email_lock email ∈ locks s)) as [Hh|Hh].
  { rewrite locked_held by done. eexists. split; [reflexivity|]. split_and!; [done| |done]. by constructor. }
  assert (normalizeEmail email = Ok email) as Hn.
  { apply (normalizeEmail_stable Hlow raw). revert He. unfold normalizeLoginEmail. destruct (normalizeEmail raw); [by intros [= ->]|done]. }
  set (s1 := set_locks ({[email_lock email]} ∪ locks s) (set_kdf (kdf s + 1) s)).
  destruct (login_email_refused cfg Hnew email p now r s1 Hn Hno Hread) as (s' & E & [R1 R2 R3 R4]).
  { intros u Hu. cbn. rewrite not_elem_of_union, elem_of_singleton. split; [apply lock_names|by apply Hlock]. }
  rewrite locked_free by done. change (set_locks _ (set_kdf (kdf s + 1) s)) with s1. rewrite E. eexists. split; [reflexivity|]. by constructor.
Qed.

(** C8. A session is opened only with the vault key behind the account's own password. When
    a login succeeds, the address was not locked, its account exists and is active, the
    password opens the stored credential for exactly this user and vault, the session was
    opened with the key found there, one verification was run, and the failures counted
    against the address are forgotten. *)
Theorem login_opens_own_vault d dk rd x raw p now r s session s' :
  NewService d dk rd = Ok cfg → Login cfg x raw p now r s = (Ok session, s') →
  ∃ email i u row e dek,
    normalizeLoginEmail raw = Ok email ∧ locked_at (now / 1000000) (throttle (throttles s) !! LoginThrottleKey email) = None ∧
    account_of (store s) email = Some i ∧ users (store s) !! i = Some u ∧ u_state u = UserActive ∧
    passwords (store s) !! i = Some row ∧ decodeKeyEnvelope (pw_json row) KindPassword = Ok e ∧
    UnwrapWithPassword e p (MkContext i (u_vault u)) = Ok dek ∧
    OpenSession (scanUserSummary i u) (u_vault u) dek (dstate s) = (Ok (Some session), dstate s') ∧
    work s' = work s + 1 ∧ throttle (throttles s') !! LoginThrottleKey email = None.
Proof.
  intros Hnew%NewService_dummy Hrun. destruct (normalizeLoginEmail raw) as [email|] eqn:He.
  2: { unfold Login in Hrun. rewrite He in Hrun. apply bind_Ok_inv in Hrun as (? & ? & _ & Hf). discriminate Hf. }
  destruct (Login_run cfg Hnew x raw email p now r s _ s' He Hrun) as [[Hfree Hend]|(e & ? & _)]; [|done].
  inversion Hend as [| |u user c v dek s1 res s2 t Hacc [Hu Ha Hp Hc Hv Hd] [Q1 Q2 Q3] Hw Hadm [R1 R2 R3] Hw2 Er Et]; subst.
  apply admit_Ok in Hadm as (_ & Hopen & Hwork & Hth).
  destruct (account_row _ _ _ Hacc) as (row & Hrow). destruct (user_row _ _ _ _ Hrow Hu) as [-> Hid]. rewrite Hid in *.
  destruct (credential_row _ _ _ Hc) as (pw & Hpw & Hdec). rewrite (vault_row _ _ _ _ Hrow Hv) in *.
  exists email, u, row, pw, (pc_Envelope c), dek. rewrite <- R3, Q3 in *. split_and!; try done.
  - by apply unlocked_row.
  - congruence.
  - rewrite R2, Hth. cbn. by rewrite lookup_delete_eq.
Qed.

(** ** Guessing *)
Record login_request := LoginRequest {
  lq_cancelled : bool; lq_email : string; lq_password : list Z; lq_now : Z; lq_entropy : list Z → entropy
}.
Definition login_call (q : login_request) : aop opened :=
  Login cfg (lq_cancelled q) (lq_email q) (lq_password q) (lq_now q) (lq_entropy q).
Definition wrong_guess (c : control) (q : login_request) : Prop :=
  ∀ email, normalizeLoginEmail (lq_email q) = Ok email → ¬ right_password c email (lq_password q).

(** The throttle event of a request that was answered with [ErrInvalidCredentials]. *)
Definition guess_event (q : login_request) (r : res aerr opened) : option (string * Z) :=
  match r, normalizeLoginEmail (lq_email q) with
  | Err ErrInvalidCredentials, Ok email => Some (LoginThrottleKey email, lq_now q)
  | _, _ => None
  end.
Fixpoint guess_events (s : auth) (qs : list login_request) : list (string * Z) :=
  match qs with
  | [] => []
  | q :: qs' => let '(r, s') := login_call q s in option_list (guess_event q r) ++ guess_events s' qs'
  end.
(** The times (ms) at which a guess against [email] was verified. *)
Definition verified_guesses (email : string) (s : auth) (qs : list login_request) : list Z :=
  (λ e, e.2 / 1000000) <$> filter (λ e, e.1 = LoginThrottleKey email) (guess_events s qs).

Lemma unparsed_quiet x raw p now r s : is_ok (normalizeLoginEmail raw) = false → quiet s (Login cfg x raw p now r s).2.
Proof.
  unfold Login. destruct (normalizeLoginEmail raw); [done|]. intros _. unfold runDummyPassword, reserveKDF, mbind, stm_bind, require, lift, ensure, gets, modify, id.
  destruct x; cbn; [done|]. destruct (kdf s <? c_slots cfg); cbn; [|done]. done.
Qed.

Lemma guess_step q s r s' : validatePasswordEnvelope (c_dummy cfg) = Ok tt → wrong_guess (store s) q → login_call q s = (r, s') →
  store s' = store s ∧
  match guess_event q r with
  | Some e => attempt loginThrottlePolicy e (throttles s) = (true, throttles s')
  | None => throttles s' = throttles s
  end.
Proof.
  intros Hd Hw Hrun. unfold guess_event. destruct (normalizeLoginEmail (lq_email q)) as [email|] eqn:He.
  2: { pose proof (unparsed_quiet (lq_cancelled q) (lq_email q) (lq_password q) (lq_now q) (lq_entropy q) s) as Hq. rewrite He in Hq.
       unfold login_call in Hrun. rewrite Hrun in Hq. destruct (Hq eq_refl) as [Q1 Q2 _]. split; [done|].
       by destruct r as [|[]]. }
  specialize (Hw email He).
  destruct (Login_run cfg Hd _ _ email _ _ _ s r s' He Hrun) as [[Hfree Hend]|(e & -> & Hne & [Q1 Q2 _])].
  - destruct Hend as [s' [R1 _ _ R2] _|e s' Hne [Q1 Q2 _]|u user c v dek s1 res s2 s' Hacc Ho].
    + split; [done|]. unfold attempt. cbn [fst snd]. rewrite R2.
      destruct (LoginThrottleLockedUntil (LoginThrottleKey email) (lq_now q) (throttles s)) as [a t]. cbn in Hfree. subst a. done.
    + split; [done|]. by destruct e.
    + exfalso. apply Hw. by exists u, user, c, v, dek.
  - split; [done|]. by destruct e.
Qed.

Lemma guess_events_admitted key qs : validatePasswordEnvelope (c_dummy cfg) = Ok tt → ∀ s, Forall (wrong_guess (store s)) qs →
  (λ e, e.2 / 1000000) <$> filter (λ e, e.1 = key) (guess_events s qs) = admitted loginThrottlePolicy key (throttles s) (guess_events s qs).
Proof.
  intros Hd. induction qs as [|q qs IH]; intros s Hw; [done|]. cbn [guess_events]. apply Forall_cons in Hw as [Hq Hw].
  destruct (login_call q s) as [r s'] eqn:Hrun. destruct (guess_step q s r s' Hd Hq Hrun) as [Hs Ht]. rewrite <- Hs in Hw. specialize (IH s' Hw).
  destruct (guess_event q r) as [e|]; cbn [option_list app]; [|by rewrite <- Ht].
  change (option_list (Some e) ++ guess_events s' qs) with (e :: guess_events s' qs). cbn [admitted]. rewrite Ht. cbn [andb]. rewrite filter_cons. case_bool_decide as Hk.
  - rewrite decide_True by done. cbn. by rewrite IH.
  - rewrite decide_False by done. cbn. by rewrite IH.
Qed.

Lemma guess_events_from qs : ∀ s, Forall (λ e, ∃ q, q ∈ qs ∧ e.2 = lq_now q) (guess_events s qs).
Proof.
  induction qs as [|q qs IH]; intros s; [constructor|]. cbn [guess_events]. destruct (login_call q s) as [r s']. apply Forall_app_2.
  - unfold guess_event. destruct r as [|[]]; try constructor. destruct (normalizeLoginEmail (lq_email q)); constructor; [|constructor]. exists q. split; [left|done].
  - eapply Forall_impl; [apply IH|]. intros e (q' & Hin & E). exists q'. split; [by right|done].
Qed.
Lemma guess_events_sorted qs : StronglySorted (λ a b, lq_now a <= lq_now b) qs → ∀ s, StronglySorted (λ a b, a.2 <= b.2) (guess_events s qs).
Proof.
  induction 1 as [|q qs Hs IH Hle]; intros s; [constructor|]. cbn [guess_events]. destruct (login_call q s) as [r s'].
  unfold guess_event. destruct r as [|[]]; try apply IH. destruct (normalizeLoginEmail (lq_email q)); [|apply IH]. constructor; [apply IH|].
  eapply Forall_impl; [apply guess_events_from|]. intros e (q' & Hin & ->). cbn. rewrite Forall_forall in Hle. by apply Hle.
Qed.

(** C10. Online guessing is slow, end to end. In any sequence of logins without a right
    password, at nondecreasing times and against any addresses, between a guess at an
    address that is verified and the fifth one after it at least a quarter of an hour
    passes (up to the stored millisecond). *)
Theorem login_guesses_bounded d dk rd email s qs i a b :
  NewService d dk rd = Ok cfg → table_ok loginThrottlePolicy (throttles s) → StronglySorted (λ a b, lq_now a <= lq_now b) qs →
  Forall (wrong_guess (store s)) qs →
  verified_guesses email s qs !! i = Some a → verified_guesses email s qs !! (i + 5)%nat = Some b →
  15 * Minute - 1000000 < (b - a) * 1000000.
Proof.
  intros Hnew%NewService_dummy Ht Hsort Hw Ha Hb. unfold verified_guesses in *. rewrite (guess_events_admitted _ _ Hnew s Hw) in Ha, Hb.
  exact (guesses_per_lock_core loginThrottlePolicy (LoginThrottleKey email) (throttles s) (guess_events s qs) i a b
    eq_refl eq_refl Ht (guess_events_sorted qs Hsort s) Ha Hb).
Qed.
End LoginClaims.
