(* ===== verification/ServerAuthKeys.v ===== *)
(** The keys behind the accounts of [ServerAuth]: every account has one vault key; its
    current password opens its password envelope, its current recovery secret opens its active
    recovery envelope, and both hold that key, as its passkey envelopes do. No call of the
    account service changes or loses the key, and a call that sets a secret makes the new one
    open it. *)
From Stdlib Require Import ZArith Lia.
From stdpp Require Import base gmap list strings sorting.
From S2P Require Import Prelude GoText Validation Tags Images Throttle Totp Crypto Control ControlInv KeyEnvelope Vault Session ServerAuth ServerAuthInv.
Open Scope Z_scope.
#[local] Opaque LoginThrottleKey Sum256 aes_encrypt hmac_sha256 WrapWithPassword WrapWithRecovery WrapWithServerPasskey UnwrapWithPassword
  UnwrapWithRecovery UnwrapWithPasskey UnwrapWithServerPasskey.

(** What the store relies on of [encoding/json]: a valid envelope reads back. *)
Class EnvelopeJSON (L : ControlLib) (P : PasskeyLib L) : Prop := {
  json_size e : 2 <= len (MarshalEnvelope e);
  json_envelope e kind : envelope_bytes e → validateKeyEnvelope e kind = Ok tt → UnmarshalEnvelope (MarshalEnvelope e) = Some e;
  json_kind e kind : envelope_bytes e → validateKeyEnvelope e kind = Ok tt → UnmarshalKind (MarshalEnvelope e) = Some (env_Kind e)
}.

(** For each user, the vault and its key. *)
Abbreviation keyring := (gmap string (string * list Z)).

Section Keyring.
Context `{L : ControlLib} `{P : !PasskeyLib L} `{K : KDFLib} (custody : list Z).

Definition pw_good (k : keyring) (i : string) (json : string) : Prop :=
  ∃ v d e p, k !! i = Some (v, d) ∧ decodeKeyEnvelope json KindPassword = Ok e ∧ UnwrapWithPassword e p (MkContext i v) = Ok d.
Definition rv_good (k : keyring) (i : string) (json : string) : Prop :=
  ∃ v d e p, k !! i = Some (v, d) ∧ decodeKeyEnvelope json KindRecovery = Ok e ∧ UnwrapWithRecovery e p (MkContext i v) = Ok d.
(** A passkey holds the key under server custody or a PRF output, or it needs the
    password. *)
Definition pk_good (k : keyring) (i : string) (cid : list Z) (json : string) : Prop :=
  ∃ v d, k !! i = Some (v, d) ∧
    (json = legacyUnlockMarker ∨
     ∃ e, decodePasskeyEnvelope json = Ok e ∧
       ((env_Kind e = KindServerPasskey ∧ UnwrapWithServerPasskey e custody (MkContext i v) cid = Ok d) ∨
        (env_Kind e = KindPasskey ∧ ∃ prf, UnwrapWithPasskey e prf (MkContext i v) = Ok d))).

Record keys_inv (k : keyring) (c : control) : Prop := {
  ki_dom : dom k = dom (users c);
  ki_user i u : users c !! i = Some u → ∃ d, k !! i = Some (u_vault u, d);
  ki_pw i r : passwords c !! i = Some r → pw_good k i (pw_json r);
  ki_rv rid r : recoveries c !! rid = Some r → rv_state r = RecoveryEnvelopeActive → rv_good k (rv_user r) (rv_json r);
  ki_pk cid r : passkeys c !! cid = Some r → pk_good k (pk_user r) cid (pk_envelope r)
}.

(** What opens the envelopes of each user: the current password and recovery secret. *)
Record secrets := Secrets { password_of : string → list Z; recovery_of : string → list Z }.
Definition set_password (i : string) (p : list Z) (S : secrets) : secrets :=
  Secrets (λ j, if decide (j = i) then p else password_of S j) (recovery_of S).
Definition set_recovery (i : string) (p : list Z) (S : secrets) : secrets :=
  Secrets (password_of S) (λ j, if decide (j = i) then p else recovery_of S j).

Definition pw_opens (k : keyring) (i json : string) (p : list Z) : Prop :=
  ∃ v d e, k !! i = Some (v, d) ∧ decodeKeyEnvelope json KindPassword = Ok e ∧ UnwrapWithPassword e p (MkContext i v) = Ok d.
Definition rv_opens (k : keyring) (i json : string) (p : list Z) : Prop :=
  ∃ v d e, k !! i = Some (v, d) ∧ decodeKeyEnvelope json KindRecovery = Ok e ∧ UnwrapWithRecovery e p (MkContext i v) = Ok d.

(** As [keys_inv], with the secrets that open the envelopes. *)
Record secured (S : secrets) (k : keyring) (c : control) : Prop := {
  sc_dom : dom k = dom (users c);
  sc_user i u : users c !! i = Some u → ∃ d, k !! i = Some (u_vault u, d);
  sc_pw i r : passwords c !! i = Some r → pw_opens k i (pw_json r) (password_of S i);
  sc_rv rid r : recoveries c !! rid = Some r → rv_state r = RecoveryEnvelopeActive → rv_opens k (rv_user r) (rv_json r) (recovery_of S (rv_user r));
  sc_pk cid r : passkeys c !! cid = Some r → pk_good k (pk_user r) cid (pk_envelope r)
}.
Lemma secured_keys S k c : secured S k c → keys_inv k c.
Proof.
  intros []. constructor; try done.
  - intros i r Hr. destruct (sc_pw0 i r Hr) as (v & d & e & H). by exists v, d, e, (password_of S i).
  - intros rid r Hr Ha. destruct (sc_rv0 rid r Hr Ha) as (v & d & e & H). by exists v, d, e, (recovery_of S (rv_user r)).
Qed.

(** With the invariant of the tables: every user has one password credential and one
    active recovery envelope, which open to the user's key. *)
Definition accounts_ok (S : secrets) (k : keyring) (c : control) : Prop := secured S k c ∧ control_wf c.
Lemma accounts_keys S k c : accounts_ok S k c → keys_inv k c.
Proof. intros [H _]. by eapply secured_keys. Qed.
Lemma accounts_open S k c i u : accounts_ok S k c → users c !! i = Some u →
  ∃ d, k !! i = Some (u_vault u, d) ∧
    (∃ row e, passwords c !! i = Some row ∧ decodeKeyEnvelope (pw_json row) KindPassword = Ok e ∧
       UnwrapWithPassword e (password_of S i) (MkContext i (u_vault u)) = Ok d) ∧
    (∃ rid row e, recoveries c !! rid = Some row ∧ rv_user row = i ∧ rv_state row = RecoveryEnvelopeActive ∧
       decodeKeyEnvelope (rv_json row) KindRecovery = Ok e ∧ UnwrapWithRecovery e (recovery_of S i) (MkContext i (u_vault u)) = Ok d).
Proof.
  intros [[] Hwf] Hu. destruct (sc_user0 i u Hu) as [d Hk]. exists d. split; [done|]. split.
  - destruct (proj1 (wf_pw _ Hwf i) (ex_intro _ u Hu)) as [row Hrow]. destruct (sc_pw0 i row Hrow) as (v & d' & e & Hk' & H). rewrite Hk in Hk'. injection Hk' as <- <-.
    by exists row, e.
  - destruct (rv_has _ _ (wf_rv _ Hwf) i (ex_intro _ u Hu)) as (rid & row & Hrow & Hi & Ha). destruct (sc_rv0 rid row Hrow Ha) as (v & d' & e & Hk' & H).
    rewrite Hi in Hk', H. rewrite Hk in Hk'. injection Hk' as <- <-. exists rid, row, e. by destruct H.
Qed.

(** Keys are 32 bytes. *)
Definition ring_bytes (k : keyring) : Prop := map_Forall (λ _ x, length x.2 = DEKSize ∧ Forall is_byte x.2) k.

(** ** Statements that keep the ring *)
Definition safe {A} (S : secrets) (k : keyring) (m : cop A) : Prop := ∀ c, secured S k c → secured S k (m c).2.

Lemma safe_ret {A} S k (a : A) : safe S k (mret a). Proof. by intros c. Qed.
Lemma safe_fail {A} S k e : safe S k (fail e : cop A). Proof. by intros c. Qed.
Lemma safe_lift {A} S k (r : res cerr A) : safe S k (lift r). Proof. by intros c. Qed.
Lemma safe_require S k b e : safe S k (require b e). Proof. by intros c. Qed.
Lemma safe_gets {A} S k (f : control → A) : safe S k (gets f). Proof. by intros c. Qed.
Lemma safe_bind {A B} S k (m : cop A) (f : A → cop B) : safe S k m → (∀ a, safe S k (f a)) → safe S k (m ≫= f).
Proof. intros Hm Hf c Hc. specialize (Hm c Hc). unfold mbind, stm_bind. destruct (m c) as [[a|e] c']; cbn in *; [by apply Hf|done]. Qed.
Lemma safe_immediate {A} S k (m : cop A) : safe S k m → safe S k (withImmediate m).
Proof. intros Hm c Hc. specialize (Hm c Hc). unfold withImmediate, transactional. by destruct (m c) as [[] ?]. Qed.

Lemma safe_update_user S k i f : (∀ u, u_vault (f u) = u_vault u) → safe S k (update_user i f).
Proof.
  intros Hf. unfold update_user. intros c Hc. unfold mbind, stm_bind, gets, id. destruct (users c !! i) as [u|] eqn:Hu; [|done].
  unfold require, lift, ensure, modify. destruct (user_check (f u)); [|done]. cbn. destruct Hc. constructor; cbn; try done.
  - rewrite sc_dom0, dom_insert_L. apply elem_of_dom_2 in Hu. set_solver.
  - intros j u'. destruct (decide (i = j)) as [<-|]; [rewrite lookup_insert_eq; intros [= <-]; rewrite Hf; by apply sc_user0|].
    rewrite lookup_insert_ne by done. apply sc_user0.
Qed.
Lemma safe_set_invitations S k f : safe S k (modify (λ s, set_invitations (f s) s)).
Proof. intros c []. by constructor. Qed.
Lemma safe_set_tickets S k f : safe S k (modify (λ s, set_tickets (f s) s)).
Proof. intros c []. by constructor. Qed.
Lemma safe_delete_passkeys S k i : safe S k (delete_passkeys i).
Proof.
  intros c []. unfold delete_passkeys, mbind, stm_bind, gets, modify, id. cbn. constructor; cbn; try done.
  intros cid r [Hr _]%map_lookup_filter_Some. by apply sc_pk0.
Qed.
Lemma safe_insert_recovery S k e rid i json now : rv_opens k i json (recovery_of S i) → safe S k (insert_recovery e rid i json now).
Proof.
  intros Hj c Hc. unfold insert_recovery, mbind, stm_bind, gets, id, require, lift, ensure, modify. destruct (recovery_insertable c rid i now); [|done].
  cbn. destruct Hc. constructor; cbn; try done.
  intros j r'. destruct (decide (rid = j)) as [<-|]; [rewrite lookup_insert_eq; by intros [= <-]|]. rewrite lookup_insert_ne by done. apply sc_rv0.
Qed.
Lemma safe_insert_password S k i json now : pw_opens k i json (password_of S i) → safe S k (insert_password i json now).
Proof.
  intros Hj c Hc. unfold insert_password, mbind, stm_bind, gets, id, require, lift, ensure, modify.
  destruct (_ && _); [|done]. cbn. destruct Hc. constructor; cbn; try done.
  intros j r'. destruct (decide (i = j)) as [<-|]; [rewrite lookup_insert_eq; by intros [= <-]|]. rewrite lookup_insert_ne by done. apply sc_pw0.
Qed.
Lemma safe_revoke_recovery S k u rid json created now : safe S k (revokeExpectedRecoveryEnvelope u rid json created now).
Proof.
  intros c Hc. unfold revokeExpectedRecoveryEnvelope, mbind, stm_bind, gets, id. destruct (recoveries c !! rid) as [r|]; [|done].
  case_bool_decide; [|done]. unfold require, lift, ensure, modify. destruct (rv_created r <=? now); [|done]. cbn. destruct Hc. constructor; cbn; try done.
  intros j r'. destruct (decide (rid = j)) as [<-|]; [rewrite lookup_insert_eq; by intros [= <-]|]. rewrite lookup_insert_ne by done. apply sc_rv0.
Qed.
Lemma safe_update_passkey S k pc now f :
  (∀ r, pk_user (f r) = pk_user r) → (∀ r, pk_user r = pkc_UserID pc → pk_good k (pk_user r) (pkc_ID pc) (pk_envelope r) → pk_good k (pk_user r) (pkc_ID pc) (pk_envelope (f r))) →
  safe S k (update_passkey pc now f).
Proof.
  intros Hu Hg c Hc. unfold update_passkey, mbind, stm_bind, gets, id. destruct (passkeys c !! pkc_ID pc) as [r|] eqn:Hr; [|done].
  case_bool_decide as Hd; [|done]. unfold require, lift, ensure, modify. destruct (_ && _); [|done]. cbn. destruct Hc. constructor; cbn; try done.
  intros j r'. destruct (decide (pkc_ID pc = j)) as [<-|]; [|rewrite lookup_insert_ne by done; apply sc_pk0].
  rewrite lookup_insert_eq. intros [= <-]. rewrite Hu. apply Hg; [by destruct Hd|by apply sc_pk0].
Qed.
End Keyring.

Create HintDb safe.
#[export] Hint Resolve safe_ret safe_fail safe_lift safe_require safe_gets safe_set_invitations safe_set_tickets safe_delete_passkeys
  safe_revoke_recovery safe_insert_recovery safe_insert_password : safe.
Ltac safe_step :=
  lazymatch goal with
  | |- safe _ _ _ (_ ≫= _) => apply safe_bind; [|intros ?]
  | |- safe _ _ _ (withImmediate _) => apply safe_immediate
  | |- safe _ _ _ (update_user _ _) => apply safe_update_user; intros ?; reflexivity
  | |- safe _ _ _ (advanceUserUpdatedAt _ _) => apply safe_update_user; intros ?; reflexivity
  | |- safe _ _ _ (insertActiveRecoveryEnvelope _ _ _ _) => apply safe_insert_recovery
  | |- safe _ _ _ (match ?x with _ => _ end) => destruct x
  | |- safe _ _ _ (requireActiveAdmin _) => unfold requireActiveAdmin
  | |- safe _ _ _ (requireActiveUser _) => unfold requireActiveUser
  | |- safe _ _ _ (requireAnotherActiveAdmin _) => unfold requireAnotherActiveAdmin
  | |- safe _ _ _ (loadRoleAndState _) => unfold loadRoleAndState
  | |- safe _ _ _ (select_user _) => unfold select_user
  | |- safe _ _ _ (revokePendingCapabilities _ _) => unfold revokePendingCapabilities
  | |- safe _ _ _ (resolve_invitations _ _ _ _) => unfold resolve_invitations
  | |- safe _ _ _ (resolve_tickets _ _ _) => unfold resolve_tickets
  | |- _ => solve [eauto with safe]
  end.
Ltac safe_auto := repeat safe_step.

Section Store.
Context `{L : ControlLib} `{P : !PasskeyLib L} `{K : KDFLib} (custody : list Z).
Implicit Type k : keyring.

Lemma DisableUser_safe S k a u t : safe custody S k (Control.DisableUser a u t).
Proof. unfold Control.DisableUser. safe_auto. Qed.
Lemma EnableUser_safe S k a u t : safe custody S k (Control.EnableUser a u t).
Proof. unfold Control.EnableUser. safe_auto. Qed.
Lemma SetUserRole_safe S k a u r t : safe custody S k (Control.SetUserRole a u r t).
Proof. unfold Control.SetUserRole. safe_auto. Qed.
Lemma CreateInvitation_safe S k a i g t : safe custody S k (Control.CreateInvitation a i g t).
Proof. unfold Control.CreateInvitation. safe_auto. Qed.
Lemma RevokeInvitation_safe S k a i t : safe custody S k (Control.RevokeInvitation a i t).
Proof. unfold Control.RevokeInvitation. safe_auto. Qed.
Lemma CreateTicket_safe S k a u i g t : safe custody S k (CreatePasswordResetTicket a u i g t).
Proof. unfold CreatePasswordResetTicket. safe_auto. Qed.
Lemma RevokeTicket_safe S k a i t : safe custody S k (RevokePasswordResetTicket a i t).
Proof. unfold RevokePasswordResetTicket. safe_auto. Qed.
Lemma RecordSuccessfulLogin_safe S k u e t : safe custody S k (RecordSuccessfulLogin u e t).
Proof. unfold RecordSuccessfulLogin. safe_auto. Qed.
Lemma DeletePasskey_safe S k u i : safe custody S k (DeletePasskeyCredential u i).
Proof.
  unfold DeletePasskeyCredential. safe_auto. intros c []. constructor; cbn; try done.
  intros cid r [_ Hr]%lookup_delete_Some. by apply sc_pk0.
Qed.
Lemma DeleteAllPasskeys_safe S k u : safe custody S k (DeleteAllPasskeyCredentials u).
Proof. unfold DeleteAllPasskeyCredentials. safe_auto. Qed.

Lemma lift_use {A B} S k (r : res cerr A) (f : A → cop B) : (∀ a, r = Ok a → safe custody S k (f a)) → safe custody S k (lift r ≫= f).
Proof. intros H c Hc. unfold mbind, stm_bind, lift. destruct r; [by apply H|done]. Qed.


(** ** Operations that set a secret *)
Definition moves {A} (S S' : secrets) k (m : cop A) : Prop :=
  ∀ c, secured custody S k c → secured custody (if is_ok (m c).1 then S' else S) k (m c).2.
Lemma moves_lift {A B} S S' k (r : res cerr A) (f : A → cop B) : (∀ a, r = Ok a → moves S S' k (f a)) → moves S S' k (lift r ≫= f).
Proof. intros H c Hc. unfold mbind, stm_bind, lift. destruct r; [by apply H|done]. Qed.
Lemma moves_require {B} S S' k b e (f : unit → cop B) : (b = true → moves S S' k (f tt)) → moves S S' k (require b e ≫= f).
Proof. intros H. apply moves_lift. unfold ensure. destruct b; [intros []; auto|done]. Qed.
Lemma moves_ret {A B} S S' k (a : A) (f : A → cop B) : moves S S' k (f a) → moves S S' k (mret a ≫= f).
Proof. done. Qed.
Lemma moves_fail {A B} S S' k e (f : A → cop B) : moves S S' k (fail e ≫= f).
Proof. by intros c. Qed.
Lemma moves_immediate {A} S S' k (m : cop A) : (∀ c, secured custody S k c → wp m (λ _, secured custody S' k) c) → moves S S' k (withImmediate m).
Proof. intros H c Hc. specialize (H c Hc). unfold wp in H. unfold withImmediate, transactional. by destruct (m c) as [[] ?]. Qed.
Lemma moves_after_commit {A} S S' k (m : cop (A + cerr)) :
  (∀ c, secured custody S k c → wp m (λ r, secured custody (match r with inl _ => S' | inr _ => S end) k) c) → moves S S' k (after_commit m).
Proof.
  intros H c Hc. specialize (H c Hc). unfold wp in H. unfold after_commit, withImmediate, transactional, mbind, stm_bind.
  by destruct (m c) as [[[]|] ?].
Qed.

Lemma safe_wp {A} S k (m : cop A) (Q : A → control → Prop) c :
  safe custody S k m → secured custody S k c → (∀ a c', secured custody S k c' → Q a c') → wp m Q c.
Proof. intros Hm Hc HQ. apply wp_intro. intros a c' E. apply HQ. specialize (Hm c Hc). by rewrite E in Hm. Qed.
Lemma password_wp S k i Q json now p c : pw_opens k i json p → secured custody S k c →
  wp (update_password i Q json now) (λ n c', (n =? 1) = true → secured custody (set_password i p S) k c') c.
Proof.
  intros Hj Hc. apply wp_intro. intros n c'. unfold update_password, mbind, stm_bind, gets, id. destruct (passwords c !! i) as [r|]; [|by intros [= <- <-]].
  destruct (Q r); [|by intros [= <- <-]]. unfold require, lift, ensure, modify. destruct (pw_created r <=? now); [|done]. cbn. intros [= <- <-] _.
  destruct Hc. constructor; cbn; try done. intros j r'. destruct (decide (i = j)) as [<-|Hij].
  - rewrite lookup_insert_eq, decide_True by done. by intros [= <-].
  - rewrite lookup_insert_ne, decide_False by done. apply sc_pw0.
Qed.
Lemma recovery_wp S k e rid i json now p c : rv_opens k i json p → secured custody S k c →
  wp (insert_recovery e rid i json now) (λ _, secured custody (set_recovery i p S) k) c.
Proof.
  intros Hj Hc. apply wp_intro. intros [] c'. unfold insert_recovery, mbind, stm_bind, gets, id, require, lift, ensure, modify.
  destruct (recovery_insertable c rid i now) eqn:Hin; [|done]. cbn. intros [= <-]. unfold recovery_insertable in Hin.
  rewrite !andb_true_iff in Hin. destruct Hin as [_ Hin%bool_decide_eq_true]. destruct Hc. constructor; cbn; try done.
  intros j r'. destruct (decide (rid = j)) as [<-|].
  - rewrite lookup_insert_eq. intros [= <-] _. cbn. by rewrite decide_True.
  - rewrite lookup_insert_ne by done. intros Hr Ha. rewrite decide_False; [by eapply sc_rv0|]. intros Hu. by apply (Hin j r' Hr).
Qed.

Lemma ReplacePassword_moves S k u e r x t p :
  (∀ j, encodeKeyEnvelope r KindPassword = Ok j → pw_opens k u j p) →
  moves S (set_password u p S) k (ReplacePasswordCredentialWithPasskeyPolicy u e r x t).
Proof.
  intros Hj. unfold ReplacePasswordCredentialWithPasskeyPolicy. apply moves_lift. intros i Hi. rewrite (normalizeID_id _ _ Hi).
  apply moves_require. intros _. apply moves_lift. intros ej _. apply moves_lift. intros j Ej. specialize (Hj j Ej).
  apply moves_require. intros _. apply moves_lift. intros eu _. apply moves_lift. intros now _. apply moves_require. intros _.
  apply moves_immediate. intros c Hc. apply wp_bind. eapply safe_wp; [safe_auto|done|]. intros _ c1 Hc1.
  apply wp_bind. eapply wp_mono; [by apply password_wp|]. cbv beta. intros n c2 Hc2. apply wp_bind, wp_require. intros Hn. specialize (Hc2 Hn).
  match goal with |- wp ?m _ _ => apply (safe_wp (set_password u p S) k m); [safe_auto|done|done] end.
Qed.
Lemma RotateRecovery_moves S k u e r g t p :
  (∀ j, encodeKeyEnvelope (ri_Envelope r) KindRecovery = Ok j → rv_opens k u j p) →
  moves S (set_recovery u p S) k (RotateRecoveryEnvelope u e r g t).
Proof.
  intros Hj. unfold RotateRecoveryEnvelope. apply moves_lift. intros i Hi. rewrite (normalizeID_id _ _ Hi). apply moves_require. intros _.
  do 4 (apply moves_lift; intros ? _). apply moves_require. intros _. apply moves_lift. intros j Ej. specialize (Hj j Ej).
  apply moves_require. intros _. apply moves_lift. intros now _. apply moves_require. intros _. apply moves_lift. intros stored _.
  apply moves_immediate. intros c Hc. apply wp_bind. eapply safe_wp; [safe_auto|done|]. intros _ c1 Hc1.
  apply wp_bind. eapply safe_wp; [safe_auto|done|]. intros b c2 Hc2. apply wp_bind, wp_require. intros _.
  apply wp_bind. eapply wp_mono; [by apply recovery_wp|]. cbv beta. intros [] c3 Hc3.
  match goal with |- wp ?m _ _ => apply (safe_wp (set_recovery u p S) k m); [safe_auto|done|done] end.
Qed.

Lemma CompleteReset_moves S k input g t p q :
  (∀ j, encodeKeyEnvelope (cp_Password input) KindPassword = Ok j → pw_opens k (re_UserID (cp_Expected input)) j p) →
  (∀ j, encodeKeyEnvelope (ri_Envelope (cp_Recovery input)) KindRecovery = Ok j → rv_opens k (re_UserID (cp_Expected input)) j q) →
  moves S (set_recovery (re_UserID (cp_Expected input)) q (set_password (re_UserID (cp_Expected input)) p S)) k (Control.CompletePasswordReset input g t).
Proof.
  intros Hp Hr. unfold Control.CompletePasswordReset. apply moves_lift. intros _ _. cbv zeta.
  destruct (normalizeID (re_UserID (cp_Expected input))) as [u|] eqn:Hu; [|apply moves_fail]. apply normalizeID_id in Hu as ->.
  case_bool_decide; [apply moves_ret|apply moves_fail]. set (u := re_UserID (cp_Expected input)) in *.
  do 3 (apply moves_lift; intros ? _). apply moves_lift. intros pj Epj. specialize (Hp pj Epj).
  apply moves_lift. intros newID _. apply moves_require. intros _. apply moves_lift. intros rj Erj. specialize (Hr rj Erj).
  apply moves_require. intros _. apply moves_lift. intros now _. apply moves_require. intros _.
  apply moves_after_commit. intros c Hc. apply wp_bind, wp_gets. unfold id. destruct (ticket_by_hash (cp_TokenHash input) c) as [[i r]|]; [|apply wp_fail].
  apply wp_bind, wp_require. intros _. destruct (negb (tk_expires r >? _)).
  { apply wp_bind. eapply safe_wp; [safe_auto|done|]. intros _ c1 Hc1. by apply wp_ret. }
  apply wp_bind, wp_require. intros Htk. apply bool_decide_eq_true in Htk. rewrite Htk.
  apply wp_bind. eapply safe_wp; [safe_auto|done|]. intros _ c1 Hc1. apply wp_bind. eapply safe_wp; [safe_auto|done|]. intros _ c2 Hc2.
  apply wp_bind. eapply wp_mono; [by apply password_wp|]. cbv beta. intros n c3 Hc3. apply wp_bind, wp_require. intros Hn. specialize (Hc3 Hn).
  apply wp_bind. eapply safe_wp; [safe_auto|done|]. intros b c4 Hc4. apply wp_bind, wp_require. intros _.
  apply wp_bind. eapply wp_mono; [by apply recovery_wp|]. cbv beta. intros [] c5 Hc5.
  apply wp_bind. eapply safe_wp; [safe_auto|done|]. intros m c6 Hc6. apply wp_bind, wp_require. intros _.
  apply wp_bind. eapply safe_wp; [safe_auto|done|]. intros _ c7 Hc7. apply wp_bind. eapply safe_wp; [safe_auto|done|]. intros _ c8 Hc8. by apply wp_ret.
Qed.

Lemma ReplacePasskeyEnvelope_safe S k record e t :
  (∀ j, encodeKeyEnvelope e KindServerPasskey = Ok j → pk_good custody k (pkc_UserID record) (pkc_ID record) j) →
  safe custody S k (ReplacePasskeyEnvelope record e t).
Proof.
  intros Hj. unfold ReplacePasskeyEnvelope. apply safe_bind; [eauto with safe|intros _]. apply lift_use. intros j Ej. specialize (Hj j Ej). cbv zeta.
  do 2 (apply safe_bind; [eauto with safe|intros ?]). apply safe_update_passkey; [done|]. intros r -> _. exact Hj.
Qed.

(** ** New users *)
Lemma pw_opens_mono k k' i j p : k ⊆ k' → pw_opens k i j p → pw_opens k' i j p.
Proof. intros Hs (v & d & e & Hk & H). exists v, d, e. split; [by eapply lookup_weaken|done]. Qed.
Lemma rv_opens_mono k k' i j p : k ⊆ k' → rv_opens k i j p → rv_opens k' i j p.
Proof. intros Hs (v & d & e & Hk & H). exists v, d, e. split; [by eapply lookup_weaken|done]. Qed.
Lemma pk_good_mono k k' i cid j : k ⊆ k' → pk_good custody k i cid j → pk_good custody k' i cid j.
Proof. intros Hs (v & d & Hk & H). exists v, d. split; [by eapply lookup_weaken|done]. Qed.

Definition new_secrets (i : string) (p q : list Z) (S : secrets) : secrets := set_recovery i q (set_password i p S).
Lemma keys_add_user S k c i u d p q : secured custody S k c → users c !! i = None →
  k !! i = None ∧ secured custody (new_secrets i p q S) (<[i := (u_vault u, d)]> k) (set_users (<[i := u]> (users c)) c).
Proof.
  intros [] Hi. assert (k !! i = None) as Hk by (apply (not_elem_of_dom (D := gset string)); rewrite sc_dom0; by apply not_elem_of_dom). split; [done|].
  assert (k ⊆ <[i := (u_vault u, d)]> k) as Hs by by apply insert_subseteq.
  constructor; cbn.
  - by rewrite !dom_insert_L, sc_dom0.
  - intros j u'. destruct (decide (i = j)) as [<-|]; [rewrite !lookup_insert_eq; intros [= <-]; eauto|]. rewrite !lookup_insert_ne by done. apply sc_user0.
  - intros j r Hr. specialize (sc_pw0 j r Hr). rewrite decide_False; [by eapply pw_opens_mono|]. intros ->. destruct sc_pw0 as (? & ? & ? & ? & _). congruence.
  - intros j r Hr Ha. specialize (sc_rv0 j r Hr Ha). rewrite decide_False; [by eapply rv_opens_mono|]. intros Hu. rewrite Hu in *. destruct sc_rv0 as (? & ? & ? & ? & _). congruence.
  - intros j r Hr. eapply pk_good_mono; [done|by apply sc_pk0].
Qed.

Lemma insertPreparedUser_keys S k c p role now d c' pw secret :
  let k' := <[pu_id p := (pu_vault p, d)]> k in
  secured custody S k c → insertPreparedUser p role now c = (Ok tt, c') →
  pw_opens k' (pu_id p) (pu_password p) pw → rv_opens k' (pu_id p) (pu_recovery p) secret →
  k !! pu_id p = None ∧ secured custody (new_secrets (pu_id p) pw secret S) k' c'.
Proof.
  intros k' Hc Hrun Hpw Hrv. unfold insertPreparedUser in Hrun. apply bind_Ok_inv in Hrun as ([] & c1 & H1 & Hrun).
  unfold insert_user in H1. apply bind_Ok_inv in H1 as (? & ? & [= <- <-] & H1). apply bind_Ok_inv in H1 as ([] & ? & [Hreq ->]%require_Ok & [= <-]).
  unfold id in Hreq. apply andb_prop in Hreq as [Hreq _]. apply andb_prop in Hreq as [_ Hnew]. apply bool_decide_eq_true in Hnew.
  destruct (keys_add_user S k c (pu_id p) (UserRow (pu_email p) (pu_display p) role UserActive (pu_vault p) now now None) d pw secret Hc Hnew) as [Hk Hc1].
  split; [done|]. set (S' := new_secrets (pu_id p) pw secret S) in *.
  assert (pw_opens k' (pu_id p) (pu_password p) (password_of S' (pu_id p))) as Hpw' by (cbn; by rewrite decide_True).
  assert (rv_opens k' (pu_id p) (pu_recovery p) (recovery_of S' (pu_id p))) as Hrv' by (cbn; by rewrite decide_True).
  assert (safe custody S' k' (insert_password (pu_id p) (pu_password p) now;; insert_recovery ESQLConstraint (pu_recovery_id p) (pu_id p) (pu_recovery p) now)) as Hsafe by safe_auto.
  specialize (Hsafe _ Hc1). cbn [u_vault] in Hsafe. by rewrite Hrun in Hsafe.
Qed.
End Store.

(** * The service over the store *)
Section Service.
Context `{L : ControlLib} `{P : !PasskeyLib L} `{J : !EnvelopeJSON L P} `{K : KDFLib} `{D : AuthDeps} (cfg : config).
Abbreviation inv := (keys_inv (c_custody cfg)).

Lemma stored e kind j : envelope_bytes e → encodeKeyEnvelope e kind = Ok j → decodeKeyEnvelope j kind = Ok e.
Proof.
  intros Hb He. unfold encodeKeyEnvelope in He. apply res_bind_Ok_inv in He as ([] & Hv & He). unfold decodeKeyEnvelope.
  destruct (len (MarshalEnvelope e) >? 8192) eqn:Hs; [done|]. injection He as <-. pose proof (json_size e) as Hl.
  destruct (Z.ltb_spec (len (MarshalEnvelope e)) 2); [lia|]. rewrite Hs. cbn [orb]. rewrite (json_envelope e kind Hb Hv). by rewrite Hv.
Qed.
Lemma stored_passkey e kind j : envelope_bytes e → env_Kind e = kind → kind = KindPasskey ∨ kind = KindServerPasskey →
  encodeKeyEnvelope e kind = Ok j → decodePasskeyEnvelope j = Ok e.
Proof.
  intros Hb Hk Hkind He. pose proof (stored e kind j Hb He) as Hd. unfold decodePasskeyEnvelope.
  assert (j = MarshalEnvelope e ∧ validateKeyEnvelope e kind = Ok tt ∧ (len j <? 2) || (len j >? 8192) = false) as (Hj & Hv & Hs).
  { unfold encodeKeyEnvelope in He. apply res_bind_Ok_inv in He as ([] & Hv & He). destruct (len (MarshalEnvelope e) >? 8192) eqn:Hs; [done|].
    injection He as <-. split_and!; [done|done|]. rewrite Hs. pose proof (json_size e). destruct (Z.ltb_spec (len (MarshalEnvelope e)) 2); [lia|done]. }
  rewrite Hs, Hj, (json_kind e kind Hb Hv), Hk, bool_decide_eq_true_2 by done. by rewrite <- Hj.
Qed.

(** A fresh wrap of a key of the ring may be stored. *)
Lemma wrapped_password k i v d pw r e j : ring_bytes k → k !! i = Some (v, d) → fresh_bytes r →
  WrapWithPassword d pw (MkContext i v) r = Ok e → encodeKeyEnvelope e KindPassword = Ok j → pw_opens k i j pw.
Proof.
  intros Hk Hi Hr (Hu & _ & Hb)%WrapWithPassword_spec He. specialize (Hb Hr (proj2 (Hk i _ Hi))). exists v, d, e. split_and!; [done| |done]. by apply stored.
Qed.
Lemma wrapped_recovery k i v d secret r e j : ring_bytes k → k !! i = Some (v, d) → fresh_bytes r →
  WrapWithRecovery d secret (MkContext i v) r = Ok e → encodeKeyEnvelope e KindRecovery = Ok j → rv_opens k i j secret.
Proof.
  intros Hk Hi Hr (Hu & _ & Hb)%WrapWithRecovery_spec He. specialize (Hb Hr (proj2 (Hk i _ Hi))). exists v, d, e. split_and!; [done| |done]. by apply stored.
Qed.
Lemma wrapped_custody k i v d cid r e j : ring_bytes k → k !! i = Some (v, d) → fresh_bytes r →
  WrapWithServerPasskey d (c_custody cfg) (MkContext i v) cid r = Ok e → encodeKeyEnvelope e KindServerPasskey = Ok j →
  pk_good (c_custody cfg) k i cid j.
Proof.
  intros Hk Hi Hr (Hu & _ & Hkind & Hb)%WrapWithServerPasskey_spec He. specialize (Hb Hr (proj2 (Hk i _ Hi))). exists v, d. split; [done|]. right.
  exists e. split; [|by left]. eapply stored_passkey; [done|done|by right|done].
Qed.

(** ** Calls that keep the ring *)
Abbreviation held := (accounts_ok (c_custody cfg)).
Definition asafe {A} (S : secrets) (k : keyring) (m : aop A) : Prop := ∀ s, held S k (store s) → held S k (store (m s).2).
(** What a call that starts with a known store leaves of it, by success. *)
Definition ends {A} (Q : bool → control → Prop) (c : control) (m : aop A) : Prop := ∀ s, store s = c → Q (is_ok (m s).1) (store (m s).2).
Abbreviation safe_at S k := (ends (λ _, held S k)).
Definition switched (S S' : secrets) (k : keyring) (b : bool) (c : control) : Prop := held (if b then S' else S) k c.
Definition storeless {A} (m : aop A) : Prop := ∀ s, store (m s).2 = store s.

Lemma storeless_ret {A} (a : A) : storeless (mret a). Proof. done. Qed.
Lemma storeless_fail {A} e : storeless (fail e : aop A). Proof. done. Qed.
Lemma storeless_lift {A} (r : res aerr A) : storeless (lift r). Proof. done. Qed.
Lemma storeless_require b e : storeless (require b e). Proof. done. Qed.
Lemma storeless_bind {A B} (m : aop A) (f : A → aop B) : storeless m → (∀ a, storeless (f a)) → storeless (m ≫= f).
Proof. intros Hm Hf s. specialize (Hm s). unfold mbind, stm_bind. destruct (m s) as [[a|] s']; cbn in *; [by rewrite Hf|done]. Qed.
Lemma storeless_try {A} (m : aop A) : storeless m → storeless (try m).
Proof. intros Hm s. specialize (Hm s). unfold try. by destruct (m s). Qed.
Lemma storeless_on_throttle {A} (m : throttle_op A) : storeless (on_throttle m).
Proof. intros s. unfold on_throttle. by destruct (m (throttles s)). Qed.
Lemma storeless_reserve x : storeless (reserveKDF cfg x).
Proof. intros s. unfold reserveKDF, mbind, stm_bind, require, lift, ensure, gets, modify, id. destruct x; [done|]. cbn. by destruct (kdf s <? c_slots cfg). Qed.
Lemma storeless_release : storeless releaseKDF. Proof. done. Qed.
Lemma storeless_unwrap e p c : storeless (unwrap_password e p c). Proof. done. Qed.
Lemma storeless_verify e p c : storeless (verify_password e p c). Proof. done. Qed.
Lemma storeless_dummy p : storeless (runDummyPasswordWork cfg p). Proof. done. Qed.
Lemma storeless_deferred {A} f (m : aop A) : (∀ s, store (f s) = store s) → storeless m → storeless (deferred f m).
Proof. intros Hf Hm s. specialize (Hm s). unfold deferred. destruct (m s). cbn in *. by rewrite Hf. Qed.
Lemma storeless_run_dummy x p : storeless (runDummyPassword cfg x p).
Proof. apply storeless_bind; [apply storeless_reserve|]. intros _. by apply storeless_deferred. Qed.
Lemma storeless_refuse key now : storeless (refuse_throttled key now).
Proof. apply storeless_bind; [apply storeless_on_throttle|]. intros x. by destruct (x >? 0). Qed.
Lemma storeless_record key now : storeless (recordLoginFailure key now).
Proof. apply storeless_bind; [apply storeless_try, storeless_on_throttle|]. done. Qed.
Lemma storeless_reject {A} key now : storeless (reject key now : aop A).
Proof. apply storeless_bind; [apply storeless_record|]. done. Qed.
Lemma storeless_clear key : storeless (clearLoginFailures key).
Proof. apply storeless_bind; [apply storeless_try, storeless_on_throttle|]. done. Qed.
Lemma storeless_revoke u : storeless (revoke_access u). Proof. done. Qed.
Lemma storeless_open u v d : storeless (open_session u v d).
Proof. intros s. unfold open_session, mbind, stm_bind, gets, modify, id. cbn. by destruct (OpenSession u v d (dstate s)) as [[[]|] ?]. Qed.

Lemma asafe_storeless {A} S k (m : aop A) : storeless m → asafe S k m. Proof. intros H s Hs. by rewrite H. Qed.
Lemma asafe_bind {A B} S k (m : aop A) (f : A → aop B) : asafe S k m → (∀ a, asafe S k (f a)) → asafe S k (m ≫= f).
Proof. intros Hm Hf s Hs. specialize (Hm s Hs). unfold mbind, stm_bind. destruct (m s) as [[a|] s']; cbn in *; [by apply Hf|done]. Qed.
Lemma asafe_on_store {A} S k (m : cop A) : safe (c_custody cfg) S k m → keeps m → asafe S k (on_store m).
Proof. intros Hm Hk s [Hs Hw]. specialize (Hm _ Hs). destruct (Hk _ Hw) as [Hw' _]. unfold on_store. by destruct (m (store s)). Qed.
Lemma asafe_try {A} S k (m : aop A) : asafe S k m → asafe S k (try m).
Proof. intros Hm s Hs. specialize (Hm s Hs). unfold try. by destruct (m s). Qed.
Lemma asafe_for_each {A} S k (body : A → aop unit) l : (∀ x, x ∈ l → asafe S k (body x)) → asafe S k (for_each body l).
Proof.
  induction l as [|x l IH]; intros H; cbn [for_each]; [by apply asafe_storeless|]. apply asafe_bind; [apply H; left|].
  intros _. apply IH. intros y Hy. apply H. by right.
Qed.

Lemma sa_of {A} S k c (m : aop A) : held S k c → asafe S k m → safe_at S k c m. Proof. intros Hc Hm s <-. by apply Hm. Qed.
Lemma sa_storeless {A} (Q : bool → control → Prop) c (m : aop A) : (∀ b, Q b c) → storeless m → ends Q c m.
Proof. intros Hc Hm s <-. by rewrite Hm. Qed.
Lemma sa_fail {A} (Q : bool → control → Prop) c e : Q false c → ends Q c (fail e : aop A). Proof. by intros Hc s <-. Qed.
Lemma sa_reject {A} (Q : bool → control → Prop) c key now : Q false c → ends Q c (reject key now : aop A).
Proof. intros Hc s <-. by rewrite reject_run. Qed.
Lemma sa_bind {A B} (Q : bool → control → Prop) c (m : aop A) (f : A → aop B) : Q false c → storeless m → (∀ a, ends Q c (f a)) → ends Q c (m ≫= f).
Proof.
  intros Hc Hm Hf s Hs. specialize (Hm s). unfold mbind, stm_bind. destruct (m s) as [[a|] s']; cbn in *; [apply Hf; congruence|]. by rewrite Hm, Hs.
Qed.
Lemma sa_unwrap {B} Q c e p cx (f : res kerr (list Z) → aop B) : ends Q c (f (UnwrapWithPassword e p cx)) → ends Q c (unwrap_password e p cx ≫= f).
Proof. intros Hf s Hs. by apply (Hf (set_work (work s + argon2_runs e p cx) s)). Qed.
Lemma sa_lift {A B} (Q : bool → control → Prop) c (r : res aerr A) (f : A → aop B) : Q false c → (∀ a, r = Ok a → ends Q c (f a)) → ends Q c (lift r ≫= f).
Proof. intros Hc Hf s <-. unfold mbind, stm_bind, lift. destruct r; [by apply Hf|done]. Qed.
Lemma sa_try_lift {A B} Q c (r : res aerr A) (f : res aerr A → aop B) : ends Q c (f r) → ends Q c (try (lift r) ≫= f).
Proof. done. Qed.
Lemma sa_read {A B} (Q : bool → control → Prop) c (m : cop A) (f : A → aop B) : Q false c → reads m → (∀ a, (m c).1 = Ok a → ends Q c (f a)) → ends Q c (on_store m ≫= f).
Proof. intros Hc Hm Hf s <-. rewrite bind_read by done. destruct (m (store s)).1 eqn:E; [by apply Hf|done]. Qed.
Lemma sa_try_read {A B} Q c (m : cop A) (f : res aerr A → aop B) : reads m → ends Q c (f (map_err AControl (m c).1)) → ends Q c (try (on_store m) ≫= f).
Proof. intros Hm Hf s <-. rewrite bind_try_read by done. by apply Hf. Qed.
Lemma sa_locked {A} (Q : bool → control → Prop) c key (m : aop A) : Q false c → ends Q c m → ends Q c (locked key m).
Proof.
  intros Hc Hm s Hs. unfold locked, lockAccount, mbind, stm_bind, require, lift, ensure, gets, modify, id. cbn. case_bool_decide; cbn; [by rewrite Hs|].
  unfold deferred. specialize (Hm (set_locks ({[key]} ∪ locks s) s) Hs). by destruct (m _).
Qed.
Lemma sa_try_lock {A} Q c key (m : aop A) (f : aerr → aop A) : ends Q c m → (∀ e, ends Q c (f e)) →
  ends Q c (l ← try (lockAccount key); match l with Err e => f e | Ok _ => deferred (unlock key) m end).
Proof.
  intros Hm Hf s Hs. destruct (locked_case key m f s) as [-> | ->]; [by apply Hf|]. cbn [fst snd]. by apply (Hm (set_locks ({[key]} ∪ locks s) s)).
Qed.
(** A write that sets a secret, and then nothing that can fail or touches the store. *)
Lemma sa_write {A B} S S' k c (m : cop A) (f : A → aop B) : held S k c → moves (c_custody cfg) S S' k m → keeps m →
  (∀ a, storeless (f a)) → (∀ a s, is_ok (f a s).1 = true) → ends (switched S S' k) c (on_store m ≫= f).
Proof.
  intros [Hs Hw] Hm Hk Hst Hok s <-. specialize (Hm _ Hs). destruct (Hk _ Hw) as [Hw' _]. unfold mbind, stm_bind, on_store.
  destruct (m (store s)) as [[a|e] c']; cbn in *; [|done]. by rewrite Hok, Hst.
Qed.

(** ** Genuine secrets

    A secret is genuine if it does not open a stored envelope to another key than the one
    sealed in it: this excludes a collision of the key derivation and the authenticated
    encryption, which the envelope format cannot rule out. *)
Definition genuine_password (k : keyring) (c : control) (p : list Z) : Prop := ∀ i row e v d dek,
  passwords c !! i = Some row → decodeKeyEnvelope (pw_json row) KindPassword = Ok e → k !! i = Some (v, d) →
  UnwrapWithPassword e p (MkContext i v) = Ok dek → dek = d.
Definition genuine_recovery (k : keyring) (c : control) (p : list Z) : Prop := ∀ rid row e v d dek,
  recoveries c !! rid = Some row → rv_state row = RecoveryEnvelopeActive → decodeKeyEnvelope (rv_json row) KindRecovery = Ok e →
  k !! rv_user row = Some (v, d) → UnwrapWithRecovery e p (MkContext (rv_user row) v) = Ok dek → dek = d.

Lemma vault_of k c u v : inv k c → (LookupVaultID u c).1 = Ok v → ∃ d, k !! u = Some (v, d).
Proof.
  intros Hc Hv. assert (∃ row, users c !! u = Some row) as [row Hrow].
  { revert Hv. unfold LookupVaultID, select_user, mbind, stm_bind, lift, gets, id. destruct (normalizeID u) as [i|] eqn:E; [|done].
    rewrite (normalizeID_id _ _ E). cbn. destruct (users c !! u); [eauto|done]. }
  rewrite (vault_row c u row v Hrow Hv). by apply (ki_user _ _ _ Hc).
Qed.
Lemma password_key k c u cr v p dek : inv k c → genuine_password k c p → (GetPasswordCredential u c).1 = Ok cr → (LookupVaultID u c).1 = Ok v →
  UnwrapWithPassword (pc_Envelope cr) p (MkContext u v) = Ok dek → k !! u = Some (v, dek).
Proof.
  intros Hc Hg (row & Hrow & Hd)%credential_row Hv Hu. destruct (vault_of k c u v Hc Hv) as [d Hk].
  rewrite (Hg u row (pc_Envelope cr) v d dek) by done. done.
Qed.
Lemma recovery_row c u e : (GetActiveRecoveryEnvelope u c).1 = Ok e → ∃ rid row, recoveries c !! rid = Some row ∧
  rv_state row = RecoveryEnvelopeActive ∧ rv_user row = u ∧ re_UserID e = u ∧ decodeKeyEnvelope (rv_json row) KindRecovery = Ok (re_Envelope e).
Proof.
  unfold GetActiveRecoveryEnvelope, mbind, stm_bind, lift, gets, id. destruct (normalizeID u) as [i|] eqn:E; [|done]. rewrite (normalizeID_id _ _ E). cbn.
  destruct (map_to_list _) as [|[rid row] l] eqn:El; [done|]. cbn.
  assert ((rid, row) ∈ map_to_list (filter (λ x : string * recoveryrow, rv_user x.2 = u ∧ rv_state x.2 = RecoveryEnvelopeActive) (recoveries c))) as Hin by (rewrite El; left).
  apply elem_of_map_to_list, map_lookup_filter_Some in Hin as [Hrow [Hu Ha]]. cbn in Hu, Ha.
  destruct (decodeKeyEnvelope (rv_json row) KindRecovery) as [env|] eqn:Ed; [|done]. cbn. intros [= <-]. exists rid, row. done.
Qed.
Lemma recovery_key k c u e v p dek : inv k c → genuine_recovery k c p → (GetActiveRecoveryEnvelope u c).1 = Ok e → (LookupVaultID u c).1 = Ok v →
  UnwrapWithRecovery (re_Envelope e) p (MkContext u v) = Ok dek → k !! u = Some (v, dek).
Proof.
  intros Hc Hg (rid & row & Hrow & Ha & <- & _ & Hd)%recovery_row Hv Hu. destruct (vault_of k c (rv_user row) v Hc Hv) as [d Hk].
  rewrite (Hg rid row (re_Envelope e) v d dek) by done. done.
Qed.

Lemma scan_all_users u rows cs : scan_all rows = Ok cs → Forall (λ x, pk_user x.2 = u) rows → Forall (λ c, pkc_UserID c = u) cs.
Proof.
  intros H Hr. revert cs H. induction Hr as [|[i r] rows Hx _ IH]; intros cs; cbn [scan_all]; [intros [= <-]; constructor|].
  intros (c & Hc & (cs' & Hcs & [= <-])%res_bind_Ok_inv)%res_bind_Ok_inv. constructor; [|by apply IH].
  unfold scanPasskeyCredential in Hc. destruct (UnmarshalCredential (pk_json r)); [|done].
  apply res_bind_Ok_inv in Hc as ([] & _ & Hc). apply res_bind_Ok_inv in Hc as ([e b] & _ & [= <-]). exact Hx.
Qed.
Lemma listed_users c u cs : (ListPasskeyCredentials u c).1 = Ok cs → Forall (λ x, pkc_UserID x = u) cs.
Proof.
  unfold ListPasskeyCredentials, mbind, stm_bind, lift, gets, id. destruct (normalizeID u) as [i|] eqn:E; [|done]. rewrite (normalizeID_id _ _ E). cbn.
  intros H. eapply scan_all_users; [exact H|]. rewrite merge_sort_Permutation. apply Forall_forall. intros [cid r] Hin%elem_of_map_to_list.
  by apply map_lookup_filter_Some in Hin as [_ ?].
Qed.

Section Ring.
Context (S : secrets) (k : keyring) (Hring : ring_bytes k).

Lemma upgrade_asafe u v d now r : k !! u = Some (v, d) → (∀ cid, fresh_bytes (r cid)) → asafe S k (upgradePasskeyEnvelopes cfg u v d now r).
Proof.
  intros Hk Hr s Hs. unfold upgradePasskeyEnvelopes. destruct (negb (c_webauthn cfg)); [done|].
  rewrite bind_read by apply reads_ListPasskeyCredentials. destruct (ListPasskeyCredentials u (store s)).1 as [cs|] eqn:El; [|done].
  apply listed_users in El. rewrite Forall_forall in El. revert Hs. apply asafe_for_each. intros x Hx. case_bool_decide; [by apply asafe_storeless|].
  intros s' Hs'. unfold mbind, stm_bind, lift. destruct (WrapWithServerPasskey _ _ _ _ _) as [e|] eqn:Ew; [|done]. cbn [map_err].
  revert Hs'. apply asafe_on_store; [|apply ReplacePasskeyEnvelope_keeps]. apply ReplacePasskeyEnvelope_safe. intros j Hj. rewrite (El x Hx). by eapply wrapped_custody.
Qed.

Ltac storeless_tac :=
  solve [ apply storeless_refuse | apply storeless_reserve | apply storeless_release | apply storeless_run_dummy | apply storeless_dummy
        | apply storeless_record | apply storeless_reject | apply storeless_clear | apply storeless_revoke | apply storeless_open
        | apply storeless_verify | apply storeless_unwrap | done ].
(** Statements that leave the store alone, then a read whose answer is remembered. *)
Ltac sa_step :=
  lazymatch goal with
  | |- ends _ _ (locked _ _) => apply sa_locked; [done|]
  | |- ends _ _ (try (lockAccount _) ≫= _) => apply sa_try_lock; [|intros ?]
  | |- ends _ _ (lift _ ≫= _) => apply sa_lift; [done|intros ? ?]
  | |- ends _ _ (require _ _ ≫= _) => apply sa_lift; [done|intros ? ?]
  | |- ends _ _ (try (lift _) ≫= _) => apply sa_try_lift
  | |- ends _ _ (unwrap_password _ _ _ ≫= _) => apply sa_unwrap
  | |- ends _ _ (try (on_store (GetUser _)) ≫= _) => apply sa_try_read; [apply reads_GetUser|]; destruct (GetUser _ _).1 eqn:?; cbn [map_err]
  | |- ends _ _ (try (on_store (GetUserByEmail _)) ≫= _) => apply sa_try_read; [apply reads_GetUserByEmail|]; destruct (GetUserByEmail _ _).1 eqn:?; cbn [map_err]
  | |- ends _ _ (try (on_store (GetPasswordCredential _)) ≫= _) => apply sa_try_read; [apply reads_GetPasswordCredential|]; destruct (GetPasswordCredential _ _).1 eqn:?; cbn [map_err]
  | |- ends _ _ (try (on_store (LookupVaultID _)) ≫= _) => apply sa_try_read; [apply reads_LookupVaultID|]; destruct (LookupVaultID _ _).1 eqn:?; cbn [map_err]
  | |- ends _ _ (on_store (GetPasswordCredential _) ≫= _) => apply sa_read; [done|apply reads_GetPasswordCredential|intros ? ?]
  | |- ends _ _ (on_store (LookupVaultID _) ≫= _) => apply sa_read; [done|apply reads_LookupVaultID|intros ? ?]
  | |- ends _ _ (on_store (GetActiveRecoveryEnvelope _) ≫= _) => apply sa_read; [done|apply reads_GetActiveRecoveryEnvelope|intros ? ?]
  | |- ends _ _ (on_store (ListPasskeyCredentials _) ≫= _) => apply sa_read; [done|apply reads_ListPasskeyCredentials|intros ? ?]
  | |- ends _ _ (on_store (GetInvitationByTokenHash _) ≫= _) => apply sa_read; [done|apply reads_GetInvitation|intros ? ?]
  | |- ends _ _ (on_store (GetPasswordResetTicketByTokenHash _) ≫= _) => apply sa_read; [done|apply reads_GetTicket|intros ? ?]
  | |- ends _ _ (fail _) => apply sa_fail; done
  | |- ends _ _ (reject _ _) => apply sa_reject; done
  | |- ends _ _ (match ?x with _ => _ end) => destruct x eqn:?
  | |- ends _ _ (match ?x with _ => _ end ≫= _) => destruct x eqn:?
  | |- ends _ _ (_ ≫= _) => apply sa_bind; [done|storeless_tac|intros ?]
  | |- ends _ _ _ => apply sa_storeless; [done|storeless_tac]
  end.
Ltac sa_auto := repeat sa_step.

Context (c : control) (Hc : held S k c).
Let Hkeys : inv k c := accounts_keys _ _ _ _ Hc.


Lemma login_account_safe u p key now r : genuine_password k c p → (∀ cid, fresh_bytes (r cid)) → safe_at S k c (login_account cfg u p key now r).
Proof.
  intros Hg Hr. unfold login_account. sa_auto.
  all: try (apply sa_of; [done|]; apply asafe_bind; [apply asafe_try, asafe_on_store; [apply RecordSuccessfulLogin_safe|apply RecordSuccessfulLogin_keeps]|intros [[]|e]]; [|case_aerr e; by apply asafe_storeless]).
  apply asafe_bind; [eapply upgrade_asafe; [by eapply password_key|done]|intros _].
  apply asafe_bind; [apply asafe_storeless, storeless_clear|intros _]. apply asafe_bind; [by apply asafe_storeless|intros _]. apply asafe_storeless, storeless_open.
Qed.
Lemma Login_safe x raw p now r : genuine_password k c p → (∀ cid, fresh_bytes (r cid)) → safe_at S k c (Login cfg x raw p now r).
Proof.
  intros Hg Hr. unfold Login. sa_auto. unfold login_email. sa_auto. by apply login_account_safe.
Qed.

Lemma Reauthenticate_safe x u p now : safe_at S k c (Reauthenticate cfg x u p now).
Proof.
  unfold Reauthenticate. sa_auto.
  all: apply sa_of; [done|]; apply asafe_bind; [apply asafe_try, asafe_on_store; [apply RecordSuccessfulLogin_safe|apply RecordSuccessfulLogin_keeps]|intros [[]|e]].
  all: try (case_aerr e; by apply asafe_storeless).
  all: apply asafe_storeless, storeless_clear.
Qed.

(** The key found behind a genuine password is the user's. *)
Lemma unwrapVault_storeless x u p now : storeless (unwrapVaultWithPassword cfg x u p now).
Proof.
  assert (∀ A (m : cop A), reads m → storeless (on_store m)) as Hread by (intros A m Hm s; by rewrite on_store_read).
  unfold unwrapVaultWithPassword. apply storeless_bind; [apply storeless_try, Hread, reads_GetUser|intros user].
  apply storeless_bind; [destruct user; [apply storeless_refuse|done]|intros _].
  assert (∀ A key, storeless (match key with Some k => reject k now | None => fail ErrInvalidCredentials end : aop A)) as Hrej by (intros A [key|]; [apply storeless_reject|done]).
  destruct (negb _); [apply storeless_bind; [apply storeless_run_dummy|intros _; apply Hrej]|].
  destruct user as [user|e]; [|apply storeless_bind; [apply storeless_run_dummy|intros _]; case_aerr e; done].
  destruct (negb _); [apply storeless_bind; [apply storeless_run_dummy|intros _; apply storeless_reject]|].
  apply storeless_bind; [apply Hread, reads_GetPasswordCredential|intros cr]. apply storeless_bind; [apply Hread, reads_LookupVaultID|intros v].
  apply storeless_bind; [apply storeless_reserve|intros _]. apply storeless_bind; [done|intros un]. apply storeless_bind; [done|intros _].
  destruct un as [dek|[]]; try done; [|apply storeless_reject]. apply storeless_bind; [apply storeless_clear|done].
Qed.
Lemma unwrapVault_Ok x u p now s dek v s' : unwrapVaultWithPassword cfg x u p now s = (Ok (dek, v), s') →
  ∃ cr, (GetPasswordCredential u (store s)).1 = Ok cr ∧ (LookupVaultID u (store s)).1 = Ok v ∧ UnwrapWithPassword (pc_Envelope cr) p (MkContext u v) = Ok dek.
Proof.
  unfold unwrapVaultWithPassword. rewrite bind_try_read by apply reads_GetUser. intros ([] & s1 & H1 & Hrun)%bind_Ok_inv.
  assert (store s1 = store s) as E1.
  { pose proof (storeless_refuse) as Href. destruct (GetUser u (store s)).1; cbn in H1; [|by injection H1 as <-].
    specialize (Href (LoginThrottleKey (us_Email a)) now s). by rewrite H1 in Href. }
  assert (∀ A (m : aop A) f (z : list Z * string) t t', storeless m → (m ≫= f) t = (Ok z, t') → ∃ a t1, f a t1 = (Ok z, t') ∧ store t1 = store t) as Hstep.
  { intros A m f z t t' Hm (a & t1 & Ha & Hf)%bind_Ok_inv. exists a, t1. split; [done|]. specialize (Hm t). by rewrite Ha in Hm. }
  assert (∀ key t t', ¬ (match key with Some q => reject q now | None => fail ErrInvalidCredentials end : aop (list Z * string)) t = (Ok (dek, v), t')) as Hrej.
  { intros [q|] t t'; [|done]. by rewrite reject_run. }
  destruct (negb _). { apply Hstep in Hrun as (? & ? & Hrun & _); [|apply storeless_run_dummy]. by apply Hrej in Hrun. }
  destruct (GetUser u (store s)).1 as [user|e]; cbn [map_err] in Hrun.
  2: { apply Hstep in Hrun as (? & ? & Hrun & _); [|apply storeless_run_dummy]. by destruct e. }
  destruct (negb _). { apply Hstep in Hrun as (? & ? & Hrun & _); [|apply storeless_run_dummy]. by rewrite reject_run in Hrun. }
  rewrite bind_read in Hrun by apply reads_GetPasswordCredential. rewrite E1 in Hrun. destruct (GetPasswordCredential u (store s)).1 as [cr|]; [|done].
  rewrite bind_read in Hrun by apply reads_LookupVaultID. rewrite E1 in Hrun. destruct (LookupVaultID u (store s)).1 as [v'|]; [|done].
  apply Hstep in Hrun as (? & s2 & Hrun & _); [|apply storeless_reserve]. rewrite unwrap_run in Hrun.
  destruct (UnwrapWithPassword (pc_Envelope cr) p (MkContext u v')) as [d|e] eqn:Hu; [|by destruct e; rewrite ?reject_run in Hrun].
  apply bind_Ok_inv in Hrun as (? & ? & _ & [= <- <- _]). by exists cr.
Qed.
Lemma sa_unwrapVault {B} (Q : bool → control → Prop) x u p now (f : list Z * string → aop B) : genuine_password k c p → Q false c →
  (∀ dek v, k !! u = Some (v, dek) → ends Q c (f (dek, v))) → ends Q c (unwrapVaultWithPassword cfg x u p now ≫= f).
Proof.
  intros Hg HQ Hf s Hs. unfold mbind, stm_bind. pose proof (unwrapVault_storeless x u p now s) as Hst.
  destruct (unwrapVaultWithPassword cfg x u p now s) as [[[dek v]|e] s'] eqn:E; cbn [snd] in *; [|by rewrite Hst, Hs].
  apply unwrapVault_Ok in E as (cr & H1 & H2 & H3). rewrite Hs in H1, H2. apply (Hf dek v); [by eapply password_key|]. congruence.
Qed.

Lemma Rotate_sets x u p q now r g : genuine_password k c p → fresh_bytes r →
  ends (switched S (set_recovery u q S) k) c (RotateRecoveryCode cfg x u p q now r g).
Proof.
  intros Hg Hr. unfold RotateRecoveryCode, rotateRecoveryLocked. do 2 sa_step. apply sa_unwrapVault; [done|done|]. intros dek v Hk. cbv beta iota. sa_auto.
  apply sa_write; [done| |apply RotateRecoveryEnvelope_keeps|intros _; apply storeless_revoke|done].
  apply RotateRecovery_moves. cbn [ri_Envelope]. intros j Hj.
  match goal with E : map_err AKey (WrapWithRecovery _ _ _ _) = Ok _ |- _ => destruct (WrapWithRecovery dek q (MkContext u v) r) eqn:Ew; [injection E as ->|done] end.
  by eapply wrapped_recovery.
Qed.

Lemma clear_revoke_ok {A} key u (a : A) s : is_ok ((clearLoginFailures key;; revoke_access u;; mret a) s).1 = true.
Proof. unfold clearLoginFailures, try, mbind, stm_bind. by destruct (on_throttle _ s). Qed.
Lemma ChangePassword_sets x u p q b now r : genuine_password k c p → fresh_bytes r →
  ends (switched S (set_password u q S) k) c (ChangePassword cfg x u p q b now r).
Proof.
  intros Hg Hr. unfold ChangePassword, changePasswordLocked. sa_auto.
  match goal with E : UnwrapWithPassword _ _ _ = Ok ?d, C : (GetPasswordCredential _ _).1 = _, V : (LookupVaultID _ _).1 = _ |- _ =>
    pose proof (password_key k c _ _ _ _ _ Hkeys Hg C V E) as Hk end.
  apply sa_write; [done| |apply ReplacePassword_keeps|intros n; apply storeless_bind; [apply storeless_clear|done]|intros n s; apply clear_revoke_ok].
  apply ReplacePassword_moves. intros j Hj.
  match goal with E : map_err AKey (WrapWithPassword _ _ _ _) = Ok _ |- _ => destruct (WrapWithPassword _ _ _ _) eqn:Ew; [injection E as ->|done] end.
  by eapply wrapped_password.
Qed.

Lemma sa_buildReset {B} (Q : bool → control → Prop) x input e b rp rr (f : Envelope * Envelope → aop B) : Q false c →
  (∀ dek pe re, UnwrapWithRecovery (re_Envelope e) (rs_RecoverySecret input) b = Ok dek → WrapWithPassword dek (rs_NewPassword input) b rp = Ok pe →
     WrapWithRecovery dek (rs_NewRecoverySecret input) b rr = Ok re → ends Q c (f (pe, re))) →
  ends Q c (buildResetEnvelopes cfg x input e b rp rr ≫= f).
Proof.
  intros HQ Hf s Hs. assert (storeless (buildResetEnvelopes cfg x input e b rp rr)) as Hst.
  { unfold buildResetEnvelopes. destruct (UnwrapWithRecovery _ _ _) as [dek|[]]; try done. apply storeless_bind; [apply storeless_reserve|intros _].
    repeat (apply storeless_bind; [done|intros ?]). done. }
  specialize (Hst s). unfold mbind, stm_bind. destruct (buildResetEnvelopes cfg x input e b rp rr s) as [[[pe re]|er] s1] eqn:E; cbn [fst snd] in *; [|by rewrite Hst, Hs].
  unfold buildResetEnvelopes in E. destruct (UnwrapWithRecovery _ _ _) as [dek|[]] eqn:Hu; try done. apply bind_Ok_inv in E as ([] & s2 & _ & E).
  unfold mbind, stm_bind, try, lift, releaseKDF, modify in E. destruct (WrapWithPassword _ _ _ _) as [pe'|] eqn:Hw; [|done].
  cbn in E. destruct (WrapWithRecovery _ _ _ _) as [re'|] eqn:Hw2; [|done]. cbn in E. injection E as <- <- <-.
  eapply Hf; [done|done|done|]. congruence.
Qed.

(** The user whose password a reset token resets. *)
Definition reset_user (token : string) : option string :=
  match HashEncodedBearerToken token with
  | Ok hash => match (GetPasswordResetTicketByTokenHash hash c).1 with Ok (_, ticket) => Some (tk_user ticket) | Err _ => None end
  | Err _ => None
  end.
Definition reset_secrets (input : ResetInput) : secrets :=
  match reset_user (rs_Token input) with Some u => new_secrets u (rs_NewPassword input) (rs_NewRecoverySecret input) S | None => S end.
Lemma Reset_sets x input now rp rr g : genuine_recovery k c (rs_RecoverySecret input) → fresh_bytes rp → fresh_bytes rr →
  ends (switched S (reset_secrets input) k) c (CompletePasswordReset cfg x input now rp rr g).
Proof.
  intros Hg Hp Hr. unfold CompletePasswordReset, completePasswordResetLocked, reset_secrets, reset_user.
  destruct (HashEncodedBearerToken (rs_Token input)) as [hash|] eqn:Hh; [|by apply sa_fail]. apply sa_read; [done|apply reads_GetTicket|].
  intros [i ticket] Et. rewrite Et. sa_auto.
  all: apply sa_buildReset; [done|]; intros dek pe re Hu Hwp Hwr; cbv beta iota;
    match goal with C : (GetActiveRecoveryEnvelope _ _).1 = Ok ?e, V : (LookupVaultID _ _).1 = _ |- _ =>
      pose proof (recovery_key k c _ _ _ _ _ Hkeys Hg C V Hu) as Hk; apply recovery_row in C as (_ & _ & _ & _ & _ & Hid & _) end.
  all: apply sa_write; [done| |apply CompletePasswordReset_keeps|done|done];
    match goal with |- moves _ _ _ _ (Control.CompletePasswordReset ?inp _ _) =>
      pose proof (CompleteReset_moves (c_custody cfg) S k inp g now (rs_NewPassword input) (rs_NewRecoverySecret input)) as Hmv end;
    cbn [cp_Password cp_Expected cp_Recovery ri_Envelope] in Hmv; rewrite Hid in Hmv; apply Hmv;
    intros j Hj; [exact (wrapped_password k _ _ _ _ _ _ _ Hring Hk Hp Hwp Hj)|exact (wrapped_recovery k _ _ _ _ _ _ _ Hring Hk Hr Hwr Hj)].
Qed.

Lemma ListPasskeys_safe u key now r : (∀ d v d', key = Some d → k !! u = Some (v, d') → d = d') → (∀ cid, fresh_bytes (r cid)) →
  safe_at S k c (ListPasskeys cfg u key now r).
Proof.
  intros Hkey Hr. unfold ListPasskeys, passkeys_ready. sa_auto.
  match goal with V : (LookupVaultID _ _).1 = _ |- _ => destruct (vault_of k c _ _ Hkeys V) as [d Hk] end.
  rewrite (Hkey _ _ _ eq_refl Hk) in *. apply sa_of; [done|]. apply asafe_bind; [by apply upgrade_asafe|intros _].
  intros s Hs. rewrite bind_read by apply reads_ListPasskeyCredentials. by destruct (ListPasskeyCredentials u (store s)).1.
Qed.

(** ** New accounts *)
Definition fresh_account (r : account_entropy) : Prop :=
  (∀ l, ae_dek r = Some l → Forall is_byte l) ∧ fresh_bytes (ae_password r) ∧ fresh_bytes (ae_recovery r).
Definition grown (S' : secrets) (b : bool) (c' : control) : Prop := ∃ k', k ⊆ k' ∧ ring_bytes k' ∧ held (if b then S' else S) k' c'.
(** The secrets once the account with these random bytes exists. *)
Definition account_secrets (r : account_entropy) (p q : list Z) : secrets :=
  match GenerateID (ae_user r) with Ok i => new_secrets i p q S | Err _ => S end.

Lemma insert_grown p role now d c' pw secret rp rr pe re :
  length d = DEKSize → Forall is_byte d → fresh_bytes rp → fresh_bytes rr →
  WrapWithPassword d pw (MkContext (pu_id p) (pu_vault p)) rp = Ok pe → WrapWithRecovery d secret (MkContext (pu_id p) (pu_vault p)) rr = Ok re →
  encodeKeyEnvelope pe KindPassword = Ok (pu_password p) → encodeKeyEnvelope re KindRecovery = Ok (pu_recovery p) →
  insertPreparedUser p role now c = (Ok tt, c') →
  ∃ k', k ⊆ k' ∧ ring_bytes k' ∧ secured (c_custody cfg) (new_secrets (pu_id p) pw secret S) k' c'.
Proof.
  intros Hd Hb Hrp Hrr Hwp Hwr Hep Her Hrun. set (k' := <[pu_id p := (pu_vault p, d)]> k).
  assert (ring_bytes k') as Hk' by (apply map_Forall_insert_2; done).
  assert (k' !! pu_id p = Some (pu_vault p, d)) as Hp by apply lookup_insert_eq.
  destruct (insertPreparedUser_keys (c_custody cfg) S k c p role now d c' pw secret (proj1 Hc) Hrun) as [Hnone Hinv].
  - exact (wrapped_password k' _ _ _ _ _ _ _ Hk' Hp Hrp Hwp Hep).
  - exact (wrapped_recovery k' _ _ _ _ _ _ _ Hk' Hp Hrr Hwr Her).
  - exists k'. split_and!; [by apply insert_subseteq|done|done].
Qed.
Lemma grown_same S' : grown S' false c. Proof. by exists k. Qed.
Lemma on_store_grown {A} S' (m : cop A) : keeps m →
  (∃ k', k ⊆ k' ∧ ring_bytes k' ∧ secured (c_custody cfg) (if is_ok (m c).1 then S' else S) k' (m c).2) → ends (grown S') c (on_store m).
Proof.
  intros Hk (k' & Hsub & Hb & Hs) s <-. destruct (Hk _ (proj2 Hc)) as [Hw _]. unfold on_store.
  destruct (m (store s)) as [[] ?]; by exists k'.
Qed.

Record account_of_key (acc : NewUserInput) (g : string) (p : preparedNewUser) (d pw secret : list Z) (rp rr : entropy) : Prop := {
  ak_prepared : prepareNewUser acc g = Ok p; ak_len : length d = DEKSize; ak_bytes : Forall is_byte d;
  ak_pw : WrapWithPassword d pw (MkContext (pu_id p) (pu_vault p)) rp = Ok (nu_Password acc);
  ak_rv : ∃ re, nu_Recovery acc = Some re ∧ WrapWithRecovery d secret (MkContext (pu_id p) (pu_vault p)) rr = Ok (ri_Envelope re) ∧
    encodeKeyEnvelope (ri_Envelope re) KindRecovery = Ok (pu_recovery p);
  ak_enc : encodeKeyEnvelope (nu_Password acc) KindPassword = Ok (pu_password p)
}.
Lemma map_err_Ok {E F A} (f : E → F) (r : res E A) a : map_err f r = Ok a → r = Ok a.
Proof. destruct r; [by intros [= ->]|done]. Qed.
Lemma prepared_account email name pw secret r acc g p : fresh_account r → prepareAccount email name pw secret r = Ok acc → prepareNewUser acc g = Ok p →
  GenerateID (ae_user r) = Ok (pu_id p) ∧ ∃ d, account_of_key acc g p d pw secret (ae_password r) (ae_recovery r).
Proof.
  intros (Hfd & _ & _) Ha Hp. unfold prepareAccount in Ha. apply res_bind_Ok_inv in Ha as (uid & Huid & (vid & _ & (d & Hd & (pe & Hpe & (re & Hre & [= <-])%res_bind_Ok_inv)%res_bind_Ok_inv)%res_bind_Ok_inv)%res_bind_Ok_inv).
  apply map_err_Ok in Hd, Hpe, Hre. apply randomBytes_Ok in Hd as [Hg Hl].
  pose proof Hp as Hp'. unfold prepareNewUser in Hp. cbn [nu_ID nu_Email nu_DisplayName nu_VaultID nu_Password nu_Recovery] in Hp.
  apply res_bind_Ok_inv in Hp as (i & Hi%normalizeID_id & (em & _ & (dn & _ & (v & Hv%normalizeID_id & ([] & _ & (pj & Hpj & ([] & _ & (rid & _ & (rj & Hrj & [= <-])%res_bind_Ok_inv)%res_bind_Ok_inv)%res_bind_Ok_inv)%res_bind_Ok_inv)%res_bind_Ok_inv)%res_bind_Ok_inv)%res_bind_Ok_inv)%res_bind_Ok_inv).
  subst i v. cbn in Hrj. split; [done|]. exists d. constructor; cbn; try done; [by apply Hfd|]. by exists (RecoveryInput "" re).
Qed.

Lemma Bootstrap_grown x input now r : fresh_account r →
  ends (grown (account_secrets r (bi_Password input) (bi_RecoverySecret input))) c (Bootstrap cfg x input now r).
Proof.
  intros Hr. set (S' := account_secrets r (bi_Password input) (bi_RecoverySecret input)). pose proof (grown_same S') as Hsame.
  assert (∀ acc, prepareAccount (bi_Email input) (bi_DisplayName input) (bi_Password input) (bi_RecoverySecret input) r = Ok acc →
    ends (grown S') c (on_store (BootstrapFirstAdmin acc (ae_recoveryID r) now))) as Hboot.
  { intros acc Hacc. apply on_store_grown; [apply BootstrapFirstAdmin_keeps|]. pose proof (conj Hring (proj1 Hc)) as Hkeep.
    unfold BootstrapFirstAdmin, mbind, stm_bind, lift. destruct (op_time now) as [t|]; [|by exists k].
    destruct (prepareNewUser acc (ae_recoveryID r)) as [p|] eqn:Hp; [|by exists k].
    destruct (prepared_account _ _ _ _ _ _ _ _ Hr Hacc Hp) as (Hid & d & [_ Hl Hb Hw1 (re & _ & Hw2 & He2) He1]).
    unfold withImmediate, transactional, gets, require, lift, ensure, id. case_bool_decide; [|by exists k].
    destruct (insertPreparedUser p RoleAdmin t c) as [[[]|] c'] eqn:Hins; [|by exists k]. cbn. unfold S', account_secrets. rewrite Hid.
    exact (insert_grown p RoleAdmin t d c' _ _ _ _ _ _ Hl Hb (proj1 (proj2 Hr)) (proj2 (proj2 Hr)) Hw1 Hw2 He1 He2 Hins). }
  unfold Bootstrap. apply sa_read; [done|done|]. intros b _. destruct b; [by apply sa_fail|]. sa_auto.
  intros s Hs. pose proof (Hboot _ ltac:(eassumption) s Hs) as Hg. unfold mbind, stm_bind, try. destruct (on_store _ s) as [[u|e] s']; cbn [fst snd is_ok] in *; [done|].
  by case_aerr e.
Qed.

Lemma Accept_grown x input now r : fresh_account r →
  ends (grown (account_secrets r (ai_Password input) (ai_RecoverySecret input))) c (AcceptInvitation cfg x input now r).
Proof.
  intros Hr. set (S' := account_secrets r (ai_Password input) (ai_RecoverySecret input)). pose proof (grown_same S') as Hsame.
  assert (∀ email h acc, prepareAccount email (ai_DisplayName input) (ai_Password input) (ai_RecoverySecret input) r = Ok acc →
    ends (grown S') c (on_store (Control.AcceptInvitation h acc (ae_recoveryID r) now))) as Hacc.
  { intros email h acc Hacc. apply on_store_grown; [apply AcceptInvitation_keeps|]. pose proof (conj Hring (proj1 Hc)) as Hkeep.
    unfold Control.AcceptInvitation, mbind, stm_bind, lift.
    destruct (validateTokenHash h); [|by exists k]. destruct (op_time now) as [t|]; [|by exists k]. destruct (prepareNewUser acc (ae_recoveryID r)) as [p|] eqn:Hp; [|by exists k].
    destruct (prepared_account _ _ _ _ _ _ _ _ Hr Hacc Hp) as (Hid & d & [_ Hl Hb Hw1 (re & _ & Hw2 & He2) He1]).
    assert (∀ P st b' tm T k' c', secured (c_custody cfg) T k' c' → secured (c_custody cfg) T k' (resolve_invitations P st b' tm c').2) as Hres.
    { intros P' st b' tm T k' c'. revert c'. change (safe (c_custody cfg) T k' (resolve_invitations P' st b' tm)). safe_auto. }
    unfold after_commit, withImmediate, transactional, mbind, stm_bind, gets, id. destruct (invitation_by_hash h c) as [[i q]|]; [|by exists k].
    unfold require, lift, ensure. case_bool_decide; [|by exists k]. destruct (negb _).
    - pose proof (Hres (λ j _, bool_decide (j = i)) InvitationExpired None (λ _, t) S k c (proj1 Hc)) as Hg. destruct (resolve_invitations _ _ _ _ c) as [[] ?]; by exists k.
    - case_bool_decide; [|by exists k]. destruct (insertPreparedUser p (iv_role q) t c) as [[[]|] c'] eqn:Hins; [|by exists k]. cbn.
      destruct (insert_grown p (iv_role q) t d c' _ _ _ _ _ _ Hl Hb (proj1 (proj2 Hr)) (proj2 (proj2 Hr)) Hw1 Hw2 He1 He2 Hins) as (k' & Hsub & Hk' & Hc').
      pose proof (Hres (λ j _, bool_decide (j = i)) InvitationAccepted (Some (pu_id p)) (λ _, t) _ k' c' Hc') as Hg.
      destruct (resolve_invitations _ _ _ _ c') as [[] ?]; [|by exists k]. cbn in *. unfold S', account_secrets. rewrite Hid. by exists k'. }
  unfold AcceptInvitation. sa_auto. by eapply Hacc.
Qed.
End Ring.

(** ** Every call *)
Definition fresh_call (a : auth_call) : Prop :=
  match a with
  | KBootstrap _ _ _ r | KAccept _ _ _ r => fresh_account r
  | KLogin _ _ _ _ r | KListPasskeys _ _ _ r => ∀ cid, fresh_bytes (r cid)
  | KReset _ _ _ rp rr _ => fresh_bytes rp ∧ fresh_bytes rr
  | KChangePassword _ _ _ _ _ _ r | KRotate _ _ _ _ _ r _ => fresh_bytes r
  | _ => True
  end.
(** The secrets a call supplies are genuine; the key of the caller's open vault is its
    own ([login_opens_own_vault]). *)
Definition genuine_call (k : keyring) (c : control) (a : auth_call) : Prop :=
  match a with
  | KLogin _ _ p _ _ | KChangePassword _ _ p _ _ _ _ | KRotate _ _ p _ _ _ _ => genuine_password k c p
  | KReset _ input _ _ _ _ => genuine_recovery k c (rs_RecoverySecret input)
  | KListPasskeys u key _ _ => ∀ d v d', key = Some d → k !! u = Some (v, d') → d = d'
  | _ => True
  end.

(** The secrets after a call, if it succeeds. *)
Definition secrets_after (S : secrets) (c : control) (a : auth_call) : secrets :=
  match a with
  | KBootstrap _ input _ r => account_secrets S r (bi_Password input) (bi_RecoverySecret input)
  | KAccept _ input _ r => account_secrets S r (ai_Password input) (ai_RecoverySecret input)
  | KReset _ input _ _ _ _ => reset_secrets S c input
  | KChangePassword _ u _ p _ _ _ => set_password u p S
  | KRotate _ u _ p _ _ _ => set_recovery u p S
  | _ => S
  end.

Lemma ends_ignore {A} Q c (m : aop A) : ends Q c m → ends Q c (ignore m).
Proof. intros Hm s Hs. specialize (Hm s Hs). unfold ignore, mbind, stm_bind. by destruct (m s) as [[] ?]. Qed.
Lemma ends_grown {A} S k c (m : aop A) : ring_bytes k → safe_at S k c m → ends (grown S k S) c m.
Proof. intros Hk Hm s Hs. exists k. split_and!; [done|done|]. specialize (Hm s Hs). by destruct (is_ok _). Qed.
Lemma switched_grown {A} S S' k c (m : aop A) : ring_bytes k → ends (switched S S' k) c m → ends (grown S k S') c m.
Proof. intros Hk Hm s Hs. exists k. split_and!; [done|done|]. exact (Hm s Hs). Qed.

Lemma admin_safe S k c u (m : cop unit) : held S k c → safe (c_custody cfg) S k m → keeps m → safe_at S k c (locked (user_lock u) (on_store m;; revoke_access u)).
Proof. intros Hc Hm Hk. apply sa_locked; [done|]. apply sa_of; [done|]. apply asafe_bind; [by apply asafe_on_store|]. intros _. by apply asafe_storeless. Qed.

Lemma call_grown S k c a : ring_bytes k → held S k c → fresh_call a → genuine_call k c a → ends (grown S k (secrets_after S c a)) c (auth_op cfg a).
Proof.
  intros Hk Hc Hf Hg. destruct a; cbn [auth_op fresh_call genuine_call secrets_after] in *;
    [apply ends_ignore; by apply Bootstrap_grown|apply ends_ignore; by apply Accept_grown|..];
    [| | | |apply ends_ignore, switched_grown; [done|]; destruct Hf; by apply Reset_sets
     |apply ends_ignore, switched_grown; [done|]; by apply ChangePassword_sets|apply switched_grown; [done|]; by apply Rotate_sets|..];
    apply ends_grown; try done; try apply ends_ignore.
  - by apply Login_safe.
  - by apply Reauthenticate_safe.
  - unfold CreateInvitation. apply sa_lift; [done|]. intros [token hash] _. apply sa_of; [done|].
    apply asafe_bind; [apply asafe_on_store; [apply CreateInvitation_safe|apply CreateInvitation_keeps]|]. intros []. by apply asafe_storeless.
  - unfold CreatePasswordReset. apply sa_lift; [done|]. intros [token hash] _. apply sa_of; [done|].
    apply asafe_bind; [apply asafe_on_store; [apply CreateTicket_safe|apply CreatePasswordResetTicket_keeps]|]. intros []. by apply asafe_storeless.
  - apply admin_safe; [done|apply DisableUser_safe|apply DisableUser_keeps].
  - apply sa_locked; [done|]. apply sa_of; [done|]. apply asafe_on_store; [apply EnableUser_safe|apply EnableUser_keeps].
  - apply admin_safe; [done|apply SetUserRole_safe|apply SetUserRole_keeps].
  - apply sa_of; [done|]. apply asafe_on_store; [apply RevokeInvitation_safe|apply RevokeInvitation_keeps].
  - apply sa_of; [done|]. apply asafe_on_store; [apply RevokeTicket_safe|apply RevokePasswordResetTicket_keeps].
  - unfold ListCredentials. apply sa_try_read; [apply reads_GetUser|]. apply sa_bind; [done|by destruct (GetUser user c).1|intros _].
    apply sa_read; [done|apply reads_GetPasswordCredential|intros ? _]. apply sa_read; [done|apply reads_GetActiveRecoveryEnvelope|intros ? _].
    apply sa_read; [done|apply reads_ListPasskeyCredentials|intros ? _]. by apply sa_storeless.
  - by apply ListPasskeys_safe.
  - unfold DeletePasskey, passkeys_ready. apply sa_lift; [done|intros _ _]. apply admin_safe; [done|apply DeletePasskey_safe|apply DeletePasskeyCredential_keeps].
  - unfold DeleteAllPasskeys, passkeys_ready. apply sa_lift; [done|intros _ _]. apply sa_locked; [done|]. apply sa_of; [done|].
    apply asafe_bind; [apply asafe_on_store; [apply DeleteAllPasskeys_safe|apply DeleteAllPasskeyCredentials_keeps]|]. intros n. by apply asafe_storeless.
Qed.

End Service.
