(* ===== verification/AuthSessions.v ===== *)
(** Sessions under the account service: which calls open and which calls end them
    ([ServerAuth] against the interface [AuthDeps]), and the interface implemented by the
    session manager and the vault manager the way [openVaultSession] of [server.go] joins
    them. *)
From Stdlib Require Import ZArith Lia.
From stdpp Require Import base gmap list strings sorting.
From S2P Require Import Prelude GoText Validation Tags Images Throttle Totp Crypto Control ControlInv KeyEnvelope Vault Session ServerAuth ServerAuthInv.
Open Scope Z_scope.

(** * Opening and ending *)
Section Ends.
Context `{L : ControlLib} `{P : !PasskeyLib L} `{K : KDFLib} `{D : AuthDeps} `{W : !AuthDepsLaws D} (cfg : config).

(** No path of [m] brings a session to anybody. *)
Definition opens_none {A} (m : aop A) : Prop := ∀ s v, session_of v (dstate (m s).2) → session_of v (dstate s).
(** When [m] succeeds, [u] has no session. *)
Definition ends {A} (u : string) (m : aop A) : Prop := ∀ s a s', m s = (Ok a, s') → ¬ session_of u (dstate s').

Lemma on_store_none {A} (m : cop A) : opens_none (on_store m).
Proof. intros s v. unfold on_store. by destruct (m (store s)). Qed.
Lemma on_throttle_none {A} (m : throttle_op A) : opens_none (on_throttle m).
Proof. intros s v. unfold on_throttle. by destruct (m (throttles s)). Qed.
Lemma ret_none {A} (a : A) : opens_none (mret a). Proof. by intros s v. Qed.
Lemma fail_none {A} e : opens_none (fail e : aop A). Proof. by intros s v. Qed.
Lemma lift_none {A} (r : res aerr A) : opens_none (lift r). Proof. by intros s v. Qed.
Lemma require_none b e : opens_none (require b e). Proof. by intros s v. Qed.
Lemma gets_none {A} (f : auth → A) : opens_none (gets f). Proof. by intros s v. Qed.
Lemma release_none : opens_none releaseKDF. Proof. by intros s v. Qed.
Lemma unwrap_none e p c : opens_none (unwrap_password e p c). Proof. by intros s v. Qed.
Lemma verify_none e p c : opens_none (verify_password e p c). Proof. by intros s v. Qed.
Lemma dummy_none p : opens_none (runDummyPasswordWork cfg p). Proof. by intros s v. Qed.
Lemma revoke_none u : opens_none (revoke_access u).
Proof. intros s v H. apply BeginDrain_sessions, EndSessions_kept in H. exact H. Qed.
Lemma try_none {A} (m : aop A) : opens_none m → opens_none (try m).
Proof. intros H s v. specialize (H s v). unfold try. by destruct (m s). Qed.
Lemma bind_none {A B} (m : aop A) (f : A → aop B) : opens_none m → (∀ a, opens_none (f a)) → opens_none (m ≫= f).
Proof.
  intros Hm Hf s v. specialize (Hm s v). unfold mbind, stm_bind. destruct (m s) as [[a|e] s']; cbn in *; [|done].
  intros H. by apply Hm, (Hf a s' v).
Qed.
Lemma slot_none {A} (m : aop A) : opens_none m → opens_none (deferred release_slot m).
Proof. intros H s v. specialize (H s v). unfold deferred. by destruct (m s). Qed.
Lemma reserve_none x : opens_none (reserveKDF cfg x).
Proof. unfold reserveKDF. repeat (apply bind_none; [by intros s v|intros ?]). by intros s v. Qed.
Lemma locked_none {A} key (m : aop A) : opens_none m → opens_none (locked key m).
Proof.
  intros H. unfold locked, lockAccount. apply bind_none.
  - repeat (apply bind_none; [by intros s v|intros ?]). by intros s v.
  - intros _ s v. specialize (H s v). unfold deferred. by destruct (m s).
Qed.
Lemma for_each_none {A} (body : A → aop unit) l : (∀ x, opens_none (body x)) → opens_none (for_each body l).
Proof. intros H. induction l as [|x l IH]; cbn [for_each]; [by intros s v|]. by apply bind_none. Qed.

Lemma ends_bind {A B} u (m : aop A) (f : A → aop B) : (∀ a, ends u (f a)) → ends u (m ≫= f).
Proof. intros Hf s b s' (a & s1 & _ & E)%bind_Ok_inv. exact (Hf a s1 b s' E). Qed.
Lemma ends_then {A B} u (m : aop A) (f : A → aop B) : ends u m → (∀ a, opens_none (f a)) → ends u (m ≫= f).
Proof.
  intros Hm Hf s b s' (a & s1 & Hr & E)%bind_Ok_inv Hs. apply (Hm s a s1 Hr). apply (Hf a s1 u). by rewrite E.
Qed.
Lemma ends_revoke u : ends u (revoke_access u).
Proof. intros s a s' E. injection E as _ <-. cbn. rewrite BeginDrain_sessions. apply EndSessions_gone. Qed.
Lemma ends_fail {A} u e : ends u (fail e : aop A). Proof. done. Qed.
Lemma ends_reject {A} u k t : ends u (reject k t : aop A). Proof. unfold reject. apply ends_bind. done. Qed.
Lemma ends_locked {A} u key (m : aop A) : ends u m → ends u (locked key m).
Proof.
  intros H. apply ends_bind. intros _ s a s' E. unfold deferred in E. destruct (m s) as [r s1] eqn:Em. injection E as -> <-.
  exact (H s a s1 Em).
Qed.
End Ends.

Create HintDb sessions.
#[export] Hint Resolve on_store_none on_throttle_none ret_none fail_none lift_none require_none gets_none release_none unwrap_none
  verify_none dummy_none revoke_none try_none reserve_none slot_none ends_revoke ends_fail ends_reject : sessions.

(** One rule per statement. A statement that ends the sessions must be followed by
    statements that open none. *)
Ltac sessions_step :=
  lazymatch goal with
  | |- opens_none (locked _ _) => apply locked_none
  | |- opens_none (for_each _ _) => apply for_each_none; intros ?
  | |- opens_none (_ ≫= _) => apply bind_none; [|intros ?]
  | |- opens_none (match ?x with _ => _ end) => destruct x
  | |- ends _ (locked _ _) => apply ends_locked
  | |- ends _ (revoke_access _ ≫= _) => apply ends_then; [|intros ?]
  | |- ends _ (match ?x with _ => _ end) => destruct x
  | |- ends _ (_ ≫= _) => apply ends_bind; intros ?
  | |- _ => solve [eauto with sessions]
  end.
Ltac sessions_auto := repeat sessions_step.

Section EndClaims.
Context `{L : ControlLib} `{P : !PasskeyLib L} `{K : KDFLib} `{D : AuthDeps} `{W : !AuthDepsLaws D} (cfg : config).

(** Whose credentials or rights a call changes. *)
Definition revokes (a : auth_call) (c : control) : option string :=
  match a with
  | KReset _ input _ _ _ _ =>
    match HashEncodedBearerToken (rs_Token input) with
    | Ok hash => match (GetPasswordResetTicketByTokenHash hash c).1 with Ok x => Some (tk_user x.2) | Err _ => None end
    | Err _ => None
    end
  | KChangePassword _ u _ _ _ _ _ | KRotate _ u _ _ _ _ _ | KDisable _ u _ | KSetRole _ u _ _
  | KDeletePasskey u _ | KDeleteAllPasskeys u => Some u
  | _ => None
  end.
Definition is_login (a : auth_call) : bool := match a with KLogin _ _ _ _ _ => true | _ => false end.

Lemma refuse_none k t : opens_none (refuse_throttled k t). Proof. unfold refuse_throttled, checkThrottle. sessions_auto. Qed.
Lemma record_none k t : opens_none (recordLoginFailure k t). Proof. unfold recordLoginFailure. sessions_auto. Qed.
Lemma clear_none k : opens_none (clearLoginFailures k). Proof. unfold clearLoginFailures. sessions_auto. Qed.
#[local] Hint Resolve refuse_none record_none clear_none : sessions.
Lemma reject_none {A} k t : opens_none (reject k t : aop A). Proof. unfold reject. sessions_auto. Qed.
Lemma run_dummy_none x p : opens_none (runDummyPassword cfg x p). Proof. unfold runDummyPassword. sessions_auto. Qed.
Lemma upgrade_none u v d t r : opens_none (upgradePasskeyEnvelopes cfg u v d t r).
Proof. unfold upgradePasskeyEnvelopes. sessions_auto. Qed.
#[local] Hint Resolve reject_none run_dummy_none upgrade_none : sessions.
Lemma unwrapVault_none x u p t : opens_none (unwrapVaultWithPassword cfg x u p t).
Proof. unfold unwrapVaultWithPassword. sessions_auto. Qed.
Lemma reset_envelopes_none x i e b rp rr : opens_none (buildResetEnvelopes cfg x i e b rp rr).
Proof. unfold buildResetEnvelopes. sessions_auto. Qed.
#[local] Hint Resolve unwrapVault_none reset_envelopes_none : sessions.

Lemma only_login_opens a : is_login a = false → opens_none (auth_op cfg a).
Proof.
  intros Ha. destruct a; try discriminate Ha; cbn [auth_op]; unfold ignore, Bootstrap, AcceptInvitation, Reauthenticate, CreateInvitation, CreatePasswordReset,
    CompletePasswordReset, completePasswordResetLocked, ChangePassword, changePasswordLocked, RotateRecoveryCode, rotateRecoveryLocked,
    DisableUser, EnableUser, SetUserRole, RevokeInvitation, RevokePasswordReset, ListCredentials, ListPasskeys, DeletePasskey,
    DeleteAllPasskeys, passkeys_ready; sessions_auto.
Qed.

Lemma reset_ends x i h k t rp rr g : ends (tk_user k) (completePasswordResetLocked cfg x i h k t rp rr g).
Proof. unfold completePasswordResetLocked. sessions_auto. Qed.
Lemma change_ends x u p q k t r : ends u (changePasswordLocked cfg x u p q k t r).
Proof. unfold changePasswordLocked. sessions_auto. Qed.
Lemma rotate_ends x u p q t r g : ends u (rotateRecoveryLocked cfg x u p q t r g).
Proof. unfold rotateRecoveryLocked. sessions_auto. Qed.

(** C12. A change of credentials or rights takes effect at once. When a password reset, a
    password change, a recovery rotation, a disabling, a change of role or the removal of a
    passkey succeeds, its user has no session left; and no call but a login brings a session
    to anybody, whatever it answers. *)
Theorem security_change_ends_sessions a s r s' :
  is_login a = false → auth_op cfg a s = (r, s') →
  (∀ v, session_of v (dstate s') → session_of v (dstate s)) ∧
  (∀ u, r = Ok tt → revokes a (store s) = Some u → ¬ session_of u (dstate s')).
Proof.
  intros Ha Hrun. split.
  - intros v. pose proof (only_login_opens a Ha s v) as H. by rewrite Hrun in H.
  - intros u -> Hu. revert Hrun. destruct a; try discriminate Hu; cbn [auth_op revokes] in *; unfold ignore.
    1: { intros (x & s1 & Hr & E)%bind_Ok_inv. injection E as <-. unfold CompletePasswordReset in Hr.
         destruct (HashEncodedBearerToken _) as [hash|]; [|done]. rewrite bind_read in Hr by apply reads_GetTicket.
         destruct (GetPasswordResetTicketByTokenHash hash (store s)).1 as [[i ticket]|]; [|done]. injection Hu as <-.
         revert Hr. apply ends_locked, reset_ends. }
    all: injection Hu as <-; unfold ChangePassword, RotateRecoveryCode, DisableUser, SetUserRole, DeletePasskey, DeleteAllPasskeys, passkeys_ready.
    all: match goal with |- ?m ?t = (_, ?t') → ¬ session_of ?u _ => enough (ends u m) as He by exact (He t tt t') end.
    all: try (apply ends_then; [|intros ?; apply ret_none]). all: sessions_auto; first [apply change_ends|apply rotate_ends].
Qed.
End EndClaims.

(** * The managers behind the interface ([server.go]) *)
Module Managers.

(** The two managers, and what the environment supplies to the sessions still to come:
    their secrets and the clock. *)
Record world := World { vaults : vstate; sessions : Session.manager; supply : list (Session.draw * Z) }.

Section Server.
(** [acquire] is what [Acquire] answers under the schedule at hand: [Vault] has its steps,
    which interleave with the opener and the closers. [iter] is the order in which [range]
    visits a map. *)
Context (acquire : string → string → list Z → vstate → res verror nat * vstate) (iter : Session.order).

(** The roots a section of the session manager gave up are released. *)
Definition settle (before after : Session.manager) (v : vstate) : vstate :=
  fold_left (λ v n, Release n v) (drop (length (Session.released before)) (Session.released after)) v.

Definition view_of (n : nat) (v : vstate) : option Session.lease_view :=
  l ← leases v !! n;
  e ← heap v !! l_entry l;
  Some (Session.LeaseView n (e_user e) (l_vault l) (bool_decide (is_Some (instance e))) (ValidateSessionRoot n v)).

Definition openVaultSession (user : UserSummary) (vaultID : string) (key : list Z) (w : world)
    : res dep_err (option Session.Session) * world :=
  match acquire (us_ID user) vaultID key (vaults w) with
  | (Err e, v) => (Err (DVault e), World v (sessions w) (supply w))
  | (Ok root, v) =>
    let '(d, now) := default ((None, None), 0) (head (supply w)) in
    match Session.CreateVaultSession user (view_of root v) d now iter (sessions w) with
    | (Err e, m) => (Err (DSession e), World (Release root v) m (tail (supply w)))
    | (Ok session, m) => (Ok (Some session), World (settle (sessions w) m v) m (tail (supply w)))
    end
  end.

Definition end_sessions (userID : string) (w : world) : world :=
  let m := (Session.DeleteAllSessionsForUser userID (sessions w)).2 in World (settle (sessions w) m (vaults w)) m (supply w).
Definition begin_drain (userID : string) (w : world) : world :=
  World (BeginUserDrain userID (vaults w)).2 (sessions w) (supply w).

#[export] Instance managers : AuthDeps := {|
  deps := world; opened := Session.Session; OpenSession := openVaultSession; EndSessions := end_sessions; BeginDrain := begin_drain
|}.

Definition has_session (u : string) (w : world) : Prop :=
  u ≠ "" ∧ ∃ id r, Session.sessions (sessions w) !! id = Some r ∧ Session.UserID (Session.session r) = u.

Lemma delete_user_lookup u m id r : u ≠ "" →
  Session.sessions (Session.DeleteAllSessionsForUser u m).2 !! id = Some r →
  Session.sessions m !! id = Some r ∧ Session.UserID (Session.session r) ≠ u.
Proof.
  intros Hu. unfold Session.DeleteAllSessionsForUser. rewrite bool_decide_eq_false_2 by done. cbn.
  intros [Hr Hb]%map_lookup_filter_Some. cbn in Hb. split; [done|]. by apply bool_decide_eq_false in Hb.
Qed.
Lemma delete_nobody m : (Session.DeleteAllSessionsForUser "" m).2 = m. Proof. done. Qed.

(** The managers keep what the account service relies on. *)
#[export] Instance managers_laws : AuthDepsLaws managers.
Proof.
  refine {| session_of := has_session : string → @deps managers → Prop |}.
  - intros u w [Hu (id & r & Hr & Eu)]. apply delete_user_lookup in Hr as [_ Hne]; done.
  - intros u v w [Hv (id & r & Hr & Ev)]. split; [done|]. exists id, r. split; [|done].
    destruct (decide (u = "")) as [->|Hu]; [done|]. by apply delete_user_lookup in Hr as [Hr _].
  - done.
Qed.
End Server.

(** [Acquire] when nothing else is under way and the opener succeeds. *)
Definition acquire_alone (u v : string) (k : list Z) (s : vstate) : res verror nat * vstate :=
  match Acquire Sum256 u v k s with
  | (AErr e, s1) => (Err e, s1)
  | (ALease n, s1) => (Ok n, s1)
  | (AOpening p, s1) =>
    match open_returns p s1 ≫= finishOpening p with
    | Some (ALease n, s2) => (Ok n, s2)
    | Some (AErr e, s2) => (Err e, s2)
    | _ => (Err EOpen, s1)
    end
  | (_, s1) => (Err ErrDraining, s1)
  end.
End Managers.
