(* ===== verification/Passkeys.v ===== *)
(** Passkeys of server accounts ([serverauth/passkeys.go], [serverauth/passkey_privacy.go]):
    the ceremonies kept in memory, registration, login with and without an address,
    re-authentication, and the decoys that hide which addresses have an account.

    The WebAuthn library is a parameter. Random bytes, challenges and the clock are
    arguments; [sessionID] and [key] are the session of the request and the key of its open
    vault ([sessionVaultKey]). *)
From Stdlib Require Import ZArith Lia.
From stdpp Require Import base gmap list strings sorting.
From S2P Require Import Prelude GoText Validation Tags Images Throttle Totp Crypto Sha512 Control KeyEnvelope Vault Session ServerAuth.
Open Scope Z_scope.

(** * The WebAuthn library *)
Record webAuthnUser `{ControlLib} := WAUser { wa_user : UserSummary; wa_credentials : list Credential }.
(** The inputs on which an authenticator evaluates its PRF. *)
Inductive prf_inputs := PRFFirst (salt : list Z) | PRFByCredential (salts : gmap string (list Z)).

Class WebAuthn (L : ControlLib) := {
  SessionData : Type;
  Expires : SessionData → Z;
  (** [session.UserID = u; session.AllowedCredentialIDs = ids] *)
  restrict_session : string → list (list Z) → SessionData → SessionData;
  Creation : Type;
  Assertion : Type;
  (** [assertion.Response.AllowedCredentials = ids] *)
  allow_credentials : list (list Z) → Assertion → Assertion;
  ParsedCreation : Type;
  ParsedAssertion : Type;
  Response_UserHandle : ParsedAssertion → list Z;
  RawID : ParsedAssertion → list Z;
  CloneWarning : Credential → bool;
  BeginRegistration : webAuthnUser → list Z → option (Creation * SessionData);
  BeginLogin : webAuthnUser → prf_inputs → list Z → option (Assertion * SessionData);
  BeginDiscoverableLogin : prf_inputs → list Z → option (Assertion * SessionData);
  ParseCredentialCreationResponseBytes : list Z → option ParsedCreation;
  ParseCredentialRequestResponseBytes : list Z → option ParsedAssertion;
  CreateCredential : webAuthnUser → SessionData → ParsedCreation → Z → option Credential;
  ValidateLogin : webAuthnUser → SessionData → ParsedAssertion → Z → option Credential;
  ValidatePasskeyLogin : (list Z → list Z → option webAuthnUser) → SessionData → ParsedAssertion → Z → option Credential
}.

Definition passkeyCeremonyRegistration : string := "registration".
Definition passkeyCeremonyRegistrationAssertion : string := "registration_assertion".
Definition passkeyCeremonyLogin : string := "login".
Definition passkeyCeremonyDiscoverableLogin : string := "discoverable_login".
Definition passkeyCeremonyReauth : string := "reauthentication".
Definition maxPasskeyCeremonies : Z := 4096.
Definition discoverablePRFSalt : list Z := Sum256 (bytes "Omni Money WebAuthn PRF discoverable login v1").

(** * Decoys ([passkey_privacy.go]) *)
Definition passkeyDecoy (privacyKey : list Z) (email purpose : string) (index : Z) : list Z :=
  hmac_sha512 privacyKey (bytes purpose ++ [0] ++ bytes (FormatInt index) ++ [0] ++ bytes email).
Definition commonLengths : list Z := [16; 32; 64; 96; 128; 256].
Definition decoy_length (seed : list Z) : Z :=
  let length := 16 + (nth 0 seed 0 * 256 + nth 1 seed 0) mod 1009 in
  let choice := nth 2 seed 0 mod (Z.of_nat (List.length commonLengths) + 1) in
  if choice <? Z.of_nat (List.length commonLengths) then nth (Z.to_nat choice) commonLengths 0 else length.
Definition passkeyDecoyCredentialID (privacyKey : list Z) (email : string) (index : Z) : list Z :=
  let seed := passkeyDecoy privacyKey email "credential" index in SHAKE256 seed (Z.to_nat (decoy_length seed)).

(** [bytes.Compare(a, b) < 0]; equal identifiers cannot be told apart. *)
Definition id_le (a b : list Z) : Prop := lex_le a b = true.
#[global] Instance id_le_dec a b : Decision (id_le a b). Proof. unfold id_le. apply _. Defined.
Definition sort_ids (ids : list (list Z)) : list (list Z) := merge_sort id_le ids.

(** * State *)
Section State.
Context `{L : ControlLib} `{D : AuthDeps} `{W : !WebAuthn L}.

Record passkeyCeremony := Ceremony {
  cm_Kind : string;
  cm_UserID : string;
  cm_ClientKey : string;
  cm_SessionID : string;
  cm_Session : SessionData;
  cm_PRFSalt : list Z;
  cm_Candidate : option Credential;
  cm_ThrottleKey : string
}.
(** The service with its ceremonies. *)
Record passkey_state := PState { base : auth; ceremonies : gmap string passkeyCeremony }.
End State.
Abbreviation pop := (stm passkey_state aerr).

Section Passkeys.
Context `{L : ControlLib} `{P : !PasskeyLib L} `{K : KDFLib} `{D : AuthDeps} `{W : !WebAuthn L} (cfg : config).

Definition on_auth {A} (m : aop A) : pop A := λ s, let '(r, b) := m (base s) in (r, PState b (ceremonies s)).
Definition set_ceremonies (f : gmap string passkeyCeremony → gmap string passkeyCeremony) (s : passkey_state) : passkey_state :=
  PState (base s) (f (ceremonies s)).

(** What the environment supplies to one call: the clock and two random reads. *)
Record passkey_env := PEnv { pe_clock : Z; pe_id : option (list Z); pe_challenge : list Z }.

(** * Ceremonies *)
Definition live (clock : Z) (c : passkeyCeremony) : bool := negb (Expires (cm_Session c) <? clock).

Definition storePasskeyCeremony (c : passkeyCeremony) (env : passkey_env) : pop string :=
  idBytes ← lift (random 32 (pe_id env));
  let i := url_encode idBytes in
  modify (set_ceremonies (filter (λ x, live (pe_clock env) x.2 = true)));;
  s ← gets id;
  require (Z.of_nat (size (ceremonies s)) <? maxPasskeyCeremonies) ErrAuthenticationBusy;;
  modify (set_ceremonies <[i := c]>);;
  mret i.

Definition takePasskeyCeremony (i kind clientKey : string) (env : passkey_env) : pop passkeyCeremony :=
  if negb (len i =? 43) || bool_decide (TrimSpace clientKey = "") then fail ErrPasskeyCeremony
  else
    s ← gets id;
    modify (set_ceremonies (delete i));;
    match ceremonies s !! i with
    | None => fail ErrPasskeyCeremony
    | Some c =>
      if bool_decide (cm_Kind c = kind) && bool_decide (cm_ClientKey c = clientKey) && live (pe_clock env) c then mret c
      else fail ErrPasskeyCeremony
    end.

Definition loadPasskeyUser (userID : string) : aop (webAuthnUser * list PasskeyCredential) :=
  user ← on_store (GetUser userID);
  records ← on_store (ListPasskeyCredentials userID);
  mret (WAUser _ user (pkc_Credential <$> records), records).

Definition ready : pop unit := require (c_webauthn cfg) ErrPasskeysUnavailable.
Definition from_library {A} (o : option A) (e : aerr) : res aerr A := match o with Some a => Ok a | None => Err e end.
(** Any error of [m] is answered as [e]. *)
Definition otherwise {A} (m : aop A) (e : aerr) : aop A := r ← try m; match r with Ok a => mret a | Err _ => fail e end.
Definition bad_prf (prf : list Z) : bool := negb (bool_decide (prf = [])) && negb (length prf =? PasskeySecretSize)%nat.

(** * Registration *)
Definition BeginPasskeyRegistration (userID clientKey sessionID : string) (env : passkey_env) : pop (string * Creation) :=
  ready;;
  '(user, _) ← on_auth (loadPasskeyUser userID);
  require (bool_decide (us_State (wa_user user) = UserActive)) ErrInvalidCredentials;;
  '(creation, session) ← lift (from_library (BeginRegistration user (pe_challenge env)) EWebAuthn);
  i ← storePasskeyCeremony (Ceremony passkeyCeremonyRegistration userID clientKey sessionID session discoverablePRFSalt None "") env;
  mret (i, creation).

(** The vault key of the session, wrapped for the new credential. *)
Definition persistVerifiedPasskey (userID name : string) (prfResult salt : list Z) (credential : Credential) (key : option (list Z))
    (now : Z) (r : entropy) : aop PasskeySummary :=
  match key with
  | None => fail ErrInvalidCredentials
  | Some dek =>
    vaultID ← on_store (LookupVaultID userID);
    let binding := MkContext userID vaultID in
    envelope ←
      (if negb (bool_decide (prfResult = [])) then
         envelope ← lift (map_err AKey (WrapWithPasskey dek prfResult binding r));
         match UnwrapWithPasskey envelope prfResult binding with
         | Ok verifiedDEK => if bool_decide (verifiedDEK = dek) then mret envelope else fail ErrPasskeyPRFRequired
         | Err _ => fail ErrPasskeyPRFRequired
         end
       else lift (map_err AKey (WrapWithServerPasskey dek (c_custody cfg) binding (Credential_ID credential) r)));
    record ← on_store (CreatePasskeyCredential (PasskeyInput userID name credential salt envelope false) now);
    mret (passkey_summary record)
  end.

Definition active_passkey_user (userID : string) : aop webAuthnUser :=
  u ← otherwise (loadPasskeyUser userID) ErrInvalidCredentials;
  require (bool_decide (us_State (wa_user u.1) = UserActive)) ErrInvalidCredentials;;
  mret u.1.

Record FinishRegistration := FinishReg {
  fr_CeremonyID : string; fr_ClientKey : string; fr_Name : string; fr_CredentialJSON : list Z; fr_PRFResult : list Z
}.

(** The ceremony belongs to this user and this session. *)
Definition take_own (i kind clientKey userID sessionID : string) (env : passkey_env) : pop passkeyCeremony :=
  c ← takePasskeyCeremony i kind clientKey env;
  require (bool_decide (cm_UserID c = userID) && bool_decide (cm_SessionID c = sessionID)) ErrPasskeyCeremony;;
  mret c.

Definition FinishPasskeyRegistration (userID sessionID : string) (key : option (list Z)) (input : FinishRegistration) (now : Z)
    (env : passkey_env) (r : entropy) : pop PasskeySummary :=
  ready;;
  ceremony ← take_own (fr_CeremonyID input) passkeyCeremonyRegistration (fr_ClientKey input) userID sessionID env;
  require (negb (bad_prf (fr_PRFResult input))) ErrPasskeyPRFRequired;;
  parsed ← lift (from_library (ParseCredentialCreationResponseBytes (fr_CredentialJSON input)) ErrPasskeyCeremony);
  on_auth (locked (user_lock userID) (
    user ← active_passkey_user userID;
    credential ← lift (from_library (CreateCredential user (cm_Session ceremony) parsed (pe_clock env)) ErrPasskeyCeremony);
    persistVerifiedPasskey userID (fr_Name input) (fr_PRFResult input) (cm_PRFSalt ceremony) credential key now r)).

Definition BeginPasskeyRegistrationAssertion (userID sessionID i clientKey : string) (credentialJSON : list Z) (env : passkey_env)
    : pop (string * Assertion) :=
  ready;;
  ceremony ← take_own i passkeyCeremonyRegistration clientKey userID sessionID env;
  require (negb (bool_decide (credentialJSON = []))) ErrPasskeyCeremony;;
  parsed ← lift (from_library (ParseCredentialCreationResponseBytes credentialJSON) ErrPasskeyCeremony);
  '(credential, assertion, session) ← on_auth (locked (user_lock userID) (
    user ← active_passkey_user userID;
    credential ← lift (from_library (CreateCredential user (cm_Session ceremony) parsed (pe_clock env)) ErrPasskeyCeremony);
    '(assertion, session) ← lift (from_library (BeginLogin (WAUser _ (wa_user user) [credential]) (PRFFirst (cm_PRFSalt ceremony)) (pe_challenge env)) EWebAuthn);
    mret (credential, assertion, session)));
  i ← storePasskeyCeremony (Ceremony passkeyCeremonyRegistrationAssertion userID clientKey (cm_SessionID ceremony) session (cm_PRFSalt ceremony)
         (Some credential) "") env;
  mret (i, assertion).

Definition FinishPasskeyRegistrationAssertion (userID sessionID : string) (key : option (list Z)) (input : FinishRegistration) (now : Z)
    (env : passkey_env) (r : entropy) : pop PasskeySummary :=
  ready;;
  ceremony ← take_own (fr_CeremonyID input) passkeyCeremonyRegistrationAssertion (fr_ClientKey input) userID sessionID env;
  candidate ← lift (from_library (cm_Candidate ceremony) ErrPasskeyCeremony);
  require (negb (bad_prf (fr_PRFResult input))) ErrPasskeyPRFRequired;;
  parsed ← lift (from_library (ParseCredentialRequestResponseBytes (fr_CredentialJSON input)) ErrPasskeyCeremony);
  on_auth (locked (user_lock userID) (
    user ← active_passkey_user userID;
    updated ← lift (from_library (ValidateLogin (WAUser _ (wa_user user) [candidate]) (cm_Session ceremony) parsed (pe_clock env)) ErrPasskeyCeremony);
    require (negb (CloneWarning updated) && bool_decide (Credential_ID updated = Credential_ID candidate)) ErrPasskeyCeremony;;
    persistVerifiedPasskey userID (fr_Name input) (fr_PRFResult input) (cm_PRFSalt ceremony) updated key now r)).

(** * Assertions *)
Definition prf_of (records : list PasskeyCredential) : gmap string (list Z) :=
  foldl (λ m record, <[url_encode (pkc_ID record) := pkc_PRFSalt record]> m) ∅ records.

Definition beginPasskeyAssertion (userID clientKey kind : string) (env : passkey_env) : pop (string * Assertion) :=
  '(adapter, records) ← on_auth (otherwise (loadPasskeyUser userID) ErrInvalidCredentials);
  require (negb (bool_decide (records = []))) ErrInvalidCredentials;;
  require (bool_decide (us_State (wa_user adapter) = UserActive)) ErrInvalidCredentials;;
  let key := LoginThrottleKey (us_Email (wa_user adapter)) in
  on_auth (refuse_throttled key (pe_clock env));;
  '(assertion, session) ← lift (from_library (BeginLogin adapter (PRFByCredential (prf_of records)) (pe_challenge env)) EWebAuthn);
  i ← storePasskeyCeremony (Ceremony kind userID clientKey "" session [] None key) env;
  mret (i, assertion).

Definition BeginPasskeyReauthentication (userID clientKey : string) (env : passkey_env) : pop (string * Assertion) :=
  ready;; beginPasskeyAssertion userID clientKey passkeyCeremonyReauth env.

Definition BeginDiscoverablePasskeyLogin (clientKey : string) (env : passkey_env) : pop (string * Assertion) :=
  ready;;
  '(assertion, session) ← lift (from_library (BeginDiscoverableLogin (PRFFirst discoverablePRFSalt) (pe_challenge env)) EWebAuthn);
  i ← storePasskeyCeremony (Ceremony passkeyCeremonyDiscoverableLogin "" clientKey "" session [] None "") env;
  mret (i, assertion).

(** ** Login by address; [cancelled] says whether the request ended before the answer. *)
Definition record_usable (r : PasskeyCredential) : bool :=
  negb (bool_decide (pkc_ID r = [])) && bool_decide (pkc_ID r = Credential_ID (pkc_Credential r)) && (length (pkc_PRFSalt r) =? PasskeySecretSize)%nat.
Definition decoy_indices (n : nat) : list Z := seqZ (Z.of_nat n) (MaxPasskeysPerUser - Z.of_nat n).
Definition decoy_ids (email : string) (n : nat) : list (list Z) := passkeyDecoyCredentialID (c_privacy cfg) email <$> decoy_indices n.
Definition padded_prf (email : string) (records : list PasskeyCredential) : gmap string (list Z) :=
  foldl (λ m index, <[url_encode (passkeyDecoyCredentialID (c_privacy cfg) email index) :=
                        take PasskeySecretSize (passkeyDecoy (c_privacy cfg) email "prf" index)]> m)
    (prf_of records) (decoy_indices (length records)).
Definition padded_ids (email : string) (records : list PasskeyCredential) : list (list Z) :=
  sort_ids ((pkc_ID <$> records) ++ decoy_ids email (length records)).
Definition decoy_user (email : string) : string :=
  "decoy_" +:+ url_encode (take 32 (passkeyDecoy (c_privacy cfg) email "user" 0)).

(** The identity behind an address and its credentials; both empty unless the account is
    active and has some. *)
Definition private_identity (email : string) : aop (string * list PasskeyCredential) :=
  u ← try (on_store (GetUserByEmail email));
  found ← match u with
          | Ok user => mret (Some user)
          | Err (AControl ErrNotFound) => mret None
          | Err e => fail e
          end;
  records ← on_store (ListPasskeyCredentials (match found with Some user => us_ID user | None => decoy_user email end));
  mret (match found with
        | Some user => if bool_decide (us_State user = UserActive) && negb (bool_decide (records = [])) then (us_ID user, records) else ("", [])
        | None => ("", [])
        end).

Definition begin_private (email clientKey : string) (env : passkey_env) : pop (string * Assertion) :=
  email ← lift (normalizeLoginEmail email);
  let key := LoginThrottleKey email in
  on_auth (refuse_throttled key (pe_clock env));;
  '(userID, records) ← on_auth (private_identity email);
  require (Z.of_nat (length records) <=? MaxPasskeysPerUser) ErrServiceUnavailable;;
  require (forallb record_usable records) ErrServiceUnavailable;;
  '(assertion, session) ← lift (from_library (BeginDiscoverableLogin (PRFByCredential (padded_prf email records)) (pe_challenge env)) EWebAuthn);
  i ← storePasskeyCeremony (Ceremony passkeyCeremonyLogin userID clientKey "" (restrict_session userID (pkc_ID <$> records) session) [] None key) env;
  mret (i, allow_credentials (padded_ids email records) assertion).

Definition beginPrivatePasskeyLogin (cancelled : bool) (email clientKey : string) (env : passkey_env) : pop (string * Assertion) :=
  λ s, let '(r, s') := begin_private email clientKey env s in (if cancelled then Err ECancelled else r, s').
Definition BeginPasskeyLogin (cancelled : bool) (email clientKey : string) (env : passkey_env) : pop (string * Assertion) :=
  ready;; beginPrivatePasskeyLogin cancelled email clientKey env.

(** ** Finishing *)
Record FinishPasskeyLoginInput := FinishLogin {
  fl_CeremonyID : string; fl_ClientKey : string; fl_CredentialJSON : list Z; fl_PRFResult : list Z; fl_Password : list Z
}.

(** Whether the vault key is asked from the password, which counts its own failures. *)
Definition uses_prf (expected : PasskeyCredential) (input : FinishPasskeyLoginInput) : bool :=
  (length (fl_PRFResult input) =? PasskeySecretSize)%nat && negb (pkc_PasswordRequired expected).
Definition in_custody (expected : PasskeyCredential) : bool := bool_decide (env_Kind (pkc_VaultEnvelope expected) = KindServerPasskey).
Definition passwordChecked (expected : PasskeyCredential) (input : FinishPasskeyLoginInput) : bool :=
  negb (in_custody expected) && negb (uses_prf expected input) && negb (bool_decide (fl_Password input = [])).

Definition passkey_dek (cancelled : bool) (expected : PasskeyCredential) (userID vaultID : string) (input : FinishPasskeyLoginInput) (now : Z)
    : aop (list Z) :=
  if in_custody expected then
    lift (map_err AKey (UnwrapWithServerPasskey (pkc_VaultEnvelope expected) (c_custody cfg) (MkContext (pkc_UserID expected) vaultID) (pkc_ID expected)))
  else if uses_prf expected input then
    lift (map_err AKey (UnwrapWithPasskey (pkc_VaultEnvelope expected) (fl_PRFResult input) (MkContext userID vaultID)))
  else if negb (bool_decide (fl_Password input = [])) then
    x ← unwrapVaultWithPassword cfg cancelled userID (fl_Password input) now; mret x.1
  else fail ErrInvalidCredentials.

Definition record_use (expected : PasskeyCredential) (updated : Credential) (now : Z) (recordLogin : bool) : aop unit :=
  recorded ← try (on_store (RecordSuccessfulPasskeyUse expected updated now recordLogin));
  match recorded with
  | Err (AControl ErrCredentialConflict) | Err (AControl ErrForbidden) => fail ErrInvalidCredentials
  | Err e => fail e
  | Ok _ => mret tt
  end.

(** The deferred accounting of an attempt. *)
Definition conclude {A} (key : string) (now : Z) (password_checked : bool) (r : res aerr A) : aop A :=
  match r with
  | Ok a => clearLoginFailures key;; mret a
  | Err ErrInvalidCredentials => if password_checked then fail ErrInvalidCredentials else reject key now
  | Err e => fail e
  end.
Definition conclude_bound {A} (key : string) (now : Z) (password_checked : bool) (r : res aerr A) : aop A :=
  if bool_decide (key = "") then lift r else conclude key now password_checked r.

(** [unlock] runs when [m] fails; a success keeps the lock for the caller. *)
Definition unlock_on_error {A} (key : string) (m : aop A) : aop A :=
  λ s, match m s with (Ok a, s') => (Ok a, s') | (Err e, s') => (Err e, unlock key s') end.

(** Under the account lock: the credential that signed, as stored. *)
Definition signed_record (ceremony : passkeyCeremony) (parsed : ParsedAssertion) (clock : Z)
    : aop (UserSummary * Credential * PasskeyCredential * string) :=
  '(user, records) ← loadPasskeyUser (cm_UserID ceremony);
  require (bool_decide (us_State (wa_user user) = UserActive)) ErrInvalidCredentials;;
  updated ← lift (from_library (ValidateLogin user (cm_Session ceremony) parsed clock) ErrInvalidCredentials);
  require (negb (CloneWarning updated)) ErrInvalidCredentials;;
  expected ← lift (from_library (snd <$> list_find (λ x, pkc_ID x = Credential_ID updated) records) ErrInvalidCredentials);
  vaultID ← on_store (LookupVaultID (cm_UserID ceremony));
  mret (wa_user user, updated, expected, vaultID).

Definition assertion_checks (expectedUserID : string) (ceremony : passkeyCeremony) (input : FinishPasskeyLoginInput) : aop ParsedAssertion :=
  require (negb (bool_decide (cm_UserID ceremony = "") || bad_prf (fl_PRFResult input))) ErrInvalidCredentials;;
  require (bool_decide (expectedUserID = "") || bool_decide (cm_UserID ceremony = expectedUserID)) ErrInvalidCredentials;;
  lift (from_library (ParseCredentialRequestResponseBytes (fl_CredentialJSON input)) ErrInvalidCredentials).

(** The key of a login; a re-authentication asks for none. *)
Definition assertion_key (cancelled : bool) (kind : string) (expected : PasskeyCredential) (userID vaultID : string)
    (input : FinishPasskeyLoginInput) (now : Z) : aop (list Z) :=
  if bool_decide (kind = passkeyCeremonyReauth) then mret [] else otherwise (passkey_dek cancelled expected userID vaultID input now) ErrInvalidCredentials.
Definition checks_password (kind : string) (expected : PasskeyCredential) (input : FinishPasskeyLoginInput) : bool :=
  negb (bool_decide (kind = passkeyCeremonyReauth)) && passwordChecked expected input.

Definition validate_ceremony (cancelled : bool) (expectedUserID kind : string) (ceremony : passkeyCeremony) (input : FinishPasskeyLoginInput)
    (now clock : Z) (recordLogin : bool) : aop (UserSummary * string * list Z) :=
  (if bool_decide (cm_ThrottleKey ceremony = "") then mret tt else refuse_throttled (cm_ThrottleKey ceremony) now);;
  let lock := user_lock (cm_UserID ceremony) in
  parsed ← try (parsed ← assertion_checks expectedUserID ceremony input; lockAccount lock;; mret parsed);
  match parsed with
  | Err e => conclude_bound (cm_ThrottleKey ceremony) now false (Err e)
  | Ok parsed =>
    signed ← try (unlock_on_error lock (signed_record ceremony parsed clock));
    match signed with
    | Err e => conclude_bound (cm_ThrottleKey ceremony) now false (Err e)
    | Ok (user, updated, expected, vaultID) =>
      r ← try (unlock_on_error lock (
        dek ← assertion_key cancelled kind expected (cm_UserID ceremony) vaultID input now;
        record_use expected updated now recordLogin;;
        mret (user, vaultID, dek)));
      conclude_bound (cm_ThrottleKey ceremony) now (checks_password kind expected input) r
    end
  end.

(** With the ceremony it took; a success leaves the account locked. *)
Definition validatePasskeyAssertion (cancelled : bool) (expectedUserID kind : string) (input : FinishPasskeyLoginInput) (now : Z)
    (recordLogin : bool) (env : passkey_env) : pop (passkeyCeremony * (UserSummary * string * list Z)) :=
  c ← (λ s, match takePasskeyCeremony (fl_CeremonyID input) kind (fl_ClientKey input) env s with
            | (Ok c, s') => (Ok c, s')
            | (Err _, s') => (Err ErrInvalidCredentials, s')
            end);
  x ← on_auth (validate_ceremony cancelled expectedUserID kind c input now (pe_clock env) recordLogin);
  mret (c, x).

Definition FinishPasskeyLogin (cancelled : bool) (input : FinishPasskeyLoginInput) (now : Z) (env : passkey_env) : pop opened :=
  ready;;
  '(c, (user, vaultID, dek)) ← validatePasskeyAssertion cancelled "" passkeyCeremonyLogin input now true env;
  on_auth (deferred (unlock (user_lock (cm_UserID c))) (
    require (length dek =? 32)%nat ERawKey;;
    open_session user vaultID dek)).

Definition FinishPasskeyReauthentication (cancelled : bool) (userID : string) (input : FinishPasskeyLoginInput) (now : Z) (env : passkey_env)
    : pop unit :=
  ready;;
  '(c, _) ← validatePasskeyAssertion cancelled userID passkeyCeremonyReauth input now false env;
  on_auth (deferred (unlock (user_lock (cm_UserID c))) (mret tt)).

(** ** Login without an address *)
Definition discoverable_record (ceremony : passkeyCeremony) (userID : string) (adapter : webAuthnUser) (records : list PasskeyCredential)
    (parsed : ParsedAssertion) (clock : Z) : aop (Credential * PasskeyCredential * string) :=
  expected ← lift (from_library (snd <$> list_find (λ x, pkc_ID x = RawID parsed ∧ pkc_PRFSalt x = discoverablePRFSalt) records) ErrInvalidCredentials);
  let handler := λ rawID userHandle,
    if bool_decide (userHandle = bytes userID) && bool_decide (rawID = pkc_ID expected) then Some adapter else None in
  updated ← lift (from_library (ValidatePasskeyLogin handler (cm_Session ceremony) parsed clock) ErrInvalidCredentials);
  require (negb (CloneWarning updated) && bool_decide (Credential_ID updated = pkc_ID expected)) ErrInvalidCredentials;;
  vaultID ← on_store (LookupVaultID userID);
  mret (updated, expected, vaultID).

Definition discoverable_session (cancelled : bool) (user : UserSummary) (userID : string) (updated : Credential) (expected : PasskeyCredential)
    (vaultID : string) (input : FinishPasskeyLoginInput) (now : Z) : aop opened :=
  dek ← otherwise (passkey_dek cancelled expected userID vaultID input now) ErrInvalidCredentials;
  require (length dek =? 32)%nat ERawKey;;
  record_use expected updated now true;;
  open_session user vaultID dek.

Definition finish_discoverable (cancelled : bool) (ceremony : passkeyCeremony) (userID : string) (parsed : ParsedAssertion)
    (input : FinishPasskeyLoginInput) (now clock : Z) : aop opened :=
  '(adapter, records) ← otherwise (loadPasskeyUser userID) ErrInvalidCredentials;
  require (bool_decide (us_State (wa_user adapter) = UserActive)) ErrInvalidCredentials;;
  let key := LoginThrottleKey (us_Email (wa_user adapter)) in
  refuse_throttled key now;;
  signed ← try (discoverable_record ceremony userID adapter records parsed clock);
  match signed with
  | Err e => conclude key now false (Err e)
  | Ok (updated, expected, vaultID) =>
    r ← try (discoverable_session cancelled (wa_user adapter) userID updated expected vaultID input now);
    conclude key now (passwordChecked expected input) r
  end.

Definition FinishDiscoverablePasskeyLogin (cancelled : bool) (input : FinishPasskeyLoginInput) (now : Z) (env : passkey_env) : pop opened :=
  ready;;
  c ← (λ s, match takePasskeyCeremony (fl_CeremonyID input) passkeyCeremonyDiscoverableLogin (fl_ClientKey input) env s with
            | (Ok c, s') => (Ok c, s')
            | (Err _, s') => (Err ErrInvalidCredentials, s')
            end);
  require (negb (bad_prf (fl_PRFResult input))) ErrInvalidCredentials;;
  parsed ← lift (from_library (ParseCredentialRequestResponseBytes (fl_CredentialJSON input)) ErrInvalidCredentials);
  require (negb (bool_decide (Response_UserHandle parsed = []))) ErrInvalidCredentials;;
  let userID := of_bytes (Response_UserHandle parsed) in
  on_auth (locked (user_lock userID) (finish_discoverable cancelled c userID parsed input now (pe_clock env))).
End Passkeys.
