(* ===== verification/PasskeysInv.v ===== *)
(** What the passkey ceremonies guarantee ([Passkeys]): a ceremony is used at most once, by
    the client and for the purpose it was started for; no call leaks an account lock or a
    password slot; what a login by address reveals; and which key a passkey opens. *)
From Stdlib Require Import ZArith Lia.
From stdpp Require Import base gmap list strings sorting.
From S2P Require Import Prelude GoText Validation Tags Images Throttle Totp Crypto Sha512 Control ControlInv KeyEnvelope Vault Session ServerAuth ServerAuthInv ServerAuthKeys Passkeys.
Open Scope Z_scope.

(** * Every call as data *)
Section Calls.
Context `{L : ControlLib} `{P : !PasskeyLib L} `{K : KDFLib} `{D : AuthDeps} `{W : !WebAuthn L} (cfg : config).

Inductive passkey_call :=
| PAccount (c : auth_call)
| PBeginRegistration (user client session : string) (env : passkey_env)
| PFinishRegistration (user session : string) (key : option (list Z)) (input : FinishRegistration) (now : Z) (env : passkey_env) (r : entropy)
| PBeginRegistrationAssertion (user session i client : string) (json : list Z) (env : passkey_env)
| PFinishRegistrationAssertion (user session : string) (key : option (list Z)) (input : FinishRegistration) (now : Z) (env : passkey_env) (r : entropy)
| PBeginLogin (cancelled : bool) (email client : string) (env : passkey_env)
| PBeginDiscoverable (client : string) (env : passkey_env)
| PBeginReauthentication (user client : string) (env : passkey_env)
| PFinishLogin (cancelled : bool) (input : FinishPasskeyLoginInput) (now : Z) (env : passkey_env)
| PFinishReauthentication (cancelled : bool) (user : string) (input : FinishPasskeyLoginInput) (now : Z) (env : passkey_env)
| PFinishDiscoverable (cancelled : bool) (input : FinishPasskeyLoginInput) (now : Z) (env : passkey_env).

Definition pignore {A} (m : pop A) : pop unit := m;; mret tt.
Definition passkey_op (c : passkey_call) : pop unit :=
  match c with
  | PAccount a => on_auth (auth_op cfg a)
  | PBeginRegistration u ck sid env => pignore (BeginPasskeyRegistration cfg u ck sid env)
  | PFinishRegistration u sid key input now env r => pignore (FinishPasskeyRegistration cfg u sid key input now env r)
  | PBeginRegistrationAssertion u sid i ck json env => pignore (BeginPasskeyRegistrationAssertion cfg u sid i ck json env)
  | PFinishRegistrationAssertion u sid key input now env r => pignore (FinishPasskeyRegistrationAssertion cfg u sid key input now env r)
  | PBeginLogin x email ck env => pignore (BeginPasskeyLogin cfg x email ck env)
  | PBeginDiscoverable ck env => pignore (BeginDiscoverablePasskeyLogin cfg ck env)
  | PBeginReauthentication u ck env => pignore (BeginPasskeyReauthentication cfg u ck env)
  | PFinishLogin x input now env => pignore (FinishPasskeyLogin cfg x input now env)
  | PFinishReauthentication x u input now env => FinishPasskeyReauthentication cfg x u input now env
  | PFinishDiscoverable x input now env => pignore (FinishDiscoverablePasskeyLogin cfg x input now env)
  end.
Definition run_passkeys (cs : list passkey_call) (s : passkey_state) : passkey_state := foldl (λ s c, (passkey_op c s).2) s cs.

(** The ceremony a call presents: its identifier, its kind and the client. *)
Definition presents (c : passkey_call) : option (string * string * string * passkey_env) :=
  match c with
  | PFinishRegistration _ _ _ input _ env _ => Some (fr_CeremonyID input, passkeyCeremonyRegistration, fr_ClientKey input, env)
  | PBeginRegistrationAssertion _ _ i ck _ env => Some (i, passkeyCeremonyRegistration, ck, env)
  | PFinishRegistrationAssertion _ _ _ input _ env _ => Some (fr_CeremonyID input, passkeyCeremonyRegistrationAssertion, fr_ClientKey input, env)
  | PFinishLogin _ input _ env => Some (fl_CeremonyID input, passkeyCeremonyLogin, fl_ClientKey input, env)
  | PFinishReauthentication _ _ input _ env => Some (fl_CeremonyID input, passkeyCeremonyReauth, fl_ClientKey input, env)
  | PFinishDiscoverable _ input _ env => Some (fl_CeremonyID input, passkeyCeremonyDiscoverableLogin, fl_ClientKey input, env)
  | _ => None
  end.
(** The call goes on with the ceremony. *)
Definition accepts (c : passkey_call) (s : passkey_state) (i : string) : Prop :=
  ∃ kind client env, presents c = Some (i, kind, client, env) ∧ c_webauthn cfg = true ∧ is_ok (takePasskeyCeremony i kind client env s).1 = true.

(** The ceremony a call starts: its kind, the client and, where the request is
    authenticated, the user and the session. *)
Definition starts (c : passkey_call) : option (passkey_env * string * string * option (string * string)) :=
  match c with
  | PBeginRegistration u ck sid env => Some (env, passkeyCeremonyRegistration, ck, Some (u, sid))
  | PBeginRegistrationAssertion u sid _ ck _ env => Some (env, passkeyCeremonyRegistrationAssertion, ck, Some (u, sid))
  | PBeginLogin _ _ ck env => Some (env, passkeyCeremonyLogin, ck, None)
  | PBeginDiscoverable ck env => Some (env, passkeyCeremonyDiscoverableLogin, ck, None)
  | PBeginReauthentication u ck env => Some (env, passkeyCeremonyReauth, ck, Some (u, ""))
  | _ => None
  end.
Definition started (c : passkey_call) (i : string) (x : passkeyCeremony) : Prop :=
  ∃ env raw kind client owner, starts c = Some (env, kind, client, owner) ∧ pe_id env = Some raw ∧ i = url_encode raw ∧
    cm_Kind x = kind ∧ cm_ClientKey x = client ∧ (∀ u sid, owner = Some (u, sid) → cm_UserID x = u ∧ cm_SessionID x = sid).
(** [i] is not the identifier the call would draw. *)
Definition avoids (i : string) (c : passkey_call) : Prop :=
  ∀ env kind client owner raw, starts c = Some (env, kind, client, owner) → pe_id env = Some raw → url_encode raw ≠ i.

(** * The table of ceremonies *)
(** What [m] leaves in the table was there or satisfies [Q]. *)
Definition grows {A} (Q : string → passkeyCeremony → Prop) (m : pop A) : Prop :=
  ∀ s i x, ceremonies (m s).2 !! i = Some x → ceremonies s !! i = Some x ∨ Q i x.

Lemma grows_same {A} Q (m : pop A) : (∀ s, ceremonies (m s).2 = ceremonies s) → grows Q m.
Proof. intros H s i x. rewrite H. by left. Qed.
Lemma grows_on_auth {A} Q (m : aop A) : grows Q (on_auth m).
Proof. apply grows_same. intros s. unfold on_auth. by destruct (m (base s)). Qed.
Lemma grows_lift {A} Q (r : res aerr A) : grows Q (lift r). Proof. by apply grows_same. Qed.
Lemma grows_ret {A} Q (a : A) : grows Q (mret a). Proof. by apply grows_same. Qed.
Lemma grows_fail {A} Q e : grows Q (fail e : pop A). Proof. by apply grows_same. Qed.
Lemma grows_require Q b e : grows Q (require b e). Proof. by apply grows_same. Qed.
Lemma grows_bind {A B} Q (m : pop A) (f : A → pop B) : grows Q m → (∀ a, grows Q (f a)) → grows Q (m ≫= f).
Proof.
  intros Hm Hf s i x. specialize (Hm s i x). unfold mbind, stm_bind. destruct (m s) as [[a|e] s']; cbn in *; [|done].
  intros [H|H]%(Hf a s' i x); [by apply Hm|by right].
Qed.
Lemma take_shrinks (Q : string → passkeyCeremony → Prop) i kind client env : grows Q (takePasskeyCeremony i kind client env).
Proof.
  intros s j x. unfold takePasskeyCeremony. destruct (_ || _); [by left|]. unfold mbind, stm_bind, gets, modify, id. cbn.
  destruct (ceremonies s !! i) as [c|]; [destruct (_ && _)|]; cbn; intros [_ H]%lookup_delete_Some; by left.
Qed.
Lemma store_grows (Q : string → passkeyCeremony → Prop) c env :
  (∀ raw, pe_id env = Some raw → Q (url_encode raw) c) → grows Q (storePasskeyCeremony c env).
Proof.
  intros HQ s i x. unfold storePasskeyCeremony, mbind, stm_bind, lift, random. destruct (pe_id env) as [raw|] eqn:Er; [|by left].
  destruct (length raw =? 32)%nat; [|by left]. unfold gets, modify, require, lift, ensure, id. cbn.
  destruct (_ <? maxPasskeyCeremonies); cbn.
  - destruct (decide (url_encode raw = i)) as [<-|]; [rewrite lookup_insert_eq; intros [= <-]; right; by apply HQ|].
    rewrite lookup_insert_ne by done. intros [H _]%map_lookup_filter_Some. by left.
  - intros [H _]%map_lookup_filter_Some. by left.
Qed.

(** A call that takes a ceremony leaves it out of the table. *)
Lemma take_Ok i kind client env s c s' : takePasskeyCeremony i kind client env s = (Ok c, s') →
  ceremonies s !! i = Some c ∧ cm_Kind c = kind ∧ cm_ClientKey c = client ∧ pe_clock env <= Expires (cm_Session c) ∧
  s' = PState (base s) (delete i (ceremonies s)).
Proof.
  unfold takePasskeyCeremony. destruct (_ || _); [done|]. unfold mbind, stm_bind, gets, modify, id. cbn.
  destruct (ceremonies s !! i) as [x|]; [|done]. destruct (_ && _ && _) eqn:E; [|done]. intros [= <- <-].
  apply andb_true_iff in E as [[E1%bool_decide_eq_true E2%bool_decide_eq_true]%andb_true_iff E3]. split_and!; try done.
  unfold live in E3. apply negb_true_iff, Z.ltb_ge in E3. exact E3.
Qed.

(** The rule of a call that starts with taking ceremony [i]. *)
Definition takes {A} (Q : string → passkeyCeremony → Prop) (i kind client : string) (env : passkey_env) (m : pop A) : Prop :=
  ∀ s j x, ceremonies (m s).2 !! j = Some x →
    Q j x ∨ (ceremonies s !! j = Some x ∧ ¬ (j = i ∧ c_webauthn cfg = true ∧ is_ok (takePasskeyCeremony i kind client env s).1 = true)).
Lemma takes_ready {A} Q i kind client env (f : unit → pop A) : takes Q i kind client env (f tt) → takes Q i kind client env (ready cfg ≫= f).
Proof.
  intros H s j x. unfold takes in H. unfold ready, mbind, stm_bind, require, lift, ensure. destruct (c_webauthn cfg) eqn:E; cbn; [apply H|].
  intros Hj. right. split; [done|]. by intros (_ & ? & _).
Qed.
Lemma takes_bind {A B} Q i kind client env (m : pop A) (f : A → pop B) :
  takes Q i kind client env m → (∀ a s s', m s = (Ok a, s') → grows Q (f a)) → takes Q i kind client env (m ≫= f).
Proof.
  intros Hm Hf s j x. specialize (Hm s j x). unfold mbind, stm_bind. destruct (m s) as [[a|e] s'] eqn:E; cbn in *; [|done].
  intros [H|H]%(Hf a s s' E s' j x); [by apply Hm|by left].
Qed.
Lemma takes_take (Q : string → passkeyCeremony → Prop) i kind client env : takes Q i kind client env (takePasskeyCeremony i kind client env).
Proof.
  intros s j x. destruct (takePasskeyCeremony i kind client env s) as [[c|e] s'] eqn:E.
  - apply take_Ok in E as (_ & _ & _ & _ & ->). cbn. intros [Hn H]%lookup_delete_Some. right. split; [done|]. by intros [-> _].
  - pose proof (take_shrinks Q i kind client env s j x) as Hs. rewrite E in Hs. intros H. destruct (Hs H); [right|by left].
    split; [done|]. by intros (_ & _ & ?).
Qed.
Lemma takes_renamed Q i kind client env e : takes Q i kind client env (λ s,
  match takePasskeyCeremony i kind client env s with (Ok c, s') => (Ok c, s') | (Err _, s') => (Err e, s') end).
Proof.
  intros s j x. pose proof (takes_take Q i kind client env s j x) as H. by destruct (takePasskeyCeremony i kind client env s) as [[] ?].
Qed.
End Calls.

Create HintDb ceremonies.
#[export] Hint Resolve grows_on_auth grows_lift grows_ret grows_fail grows_require : ceremonies.
Ltac grows_step :=
  lazymatch goal with
  | |- grows _ (_ ≫= _) => apply grows_bind; [|intros ?]
  | |- grows _ (match ?x with _ => _ end) => destruct x
  | |- _ => solve [eauto with ceremonies]
  end.
Ltac grows_auto := repeat grows_step.

Section Table.
Context `{L : ControlLib} `{P : !PasskeyLib L} `{K : KDFLib} `{D : AuthDeps} `{W : !WebAuthn L} (cfg : config).

Lemma begin_private_grows (Q : string → passkeyCeremony → Prop) x email ck env :
  (∀ raw c, pe_id env = Some raw → cm_Kind c = passkeyCeremonyLogin → cm_ClientKey c = ck → Q (url_encode raw) c) →
  grows Q (beginPrivatePasskeyLogin cfg x email ck env).
Proof.
  intros HQ s i c. assert (grows Q (begin_private cfg email ck env)) as H.
  { unfold begin_private. grows_auto. apply store_grows. intros raw Hr. by apply HQ. }
  specialize (H s i c). unfold beginPrivatePasskeyLogin. by destruct (begin_private cfg email ck env s).
Qed.

Lemma takes_own Q i kind client env u sid : takes cfg Q i kind client env (take_own i kind client u sid env).
Proof. unfold take_own. apply takes_bind; [apply takes_take|intros; grows_auto]. Qed.
Lemma take_own_Ok i kind client u sid env s c s' : take_own i kind client u sid env s = (Ok c, s') → cm_UserID c = u ∧ cm_SessionID c = sid.
Proof.
  unfold take_own. intros (x & s1 & _ & ([] & s2 & [H%andb_true_iff ->]%require_Ok & [= -> _])%bind_Ok_inv)%bind_Ok_inv.
  destruct H as [?%bool_decide_eq_true ?%bool_decide_eq_true]. done.
Qed.
Ltac taken := repeat lazymatch goal with
  | |- takes _ _ _ _ _ _ (pignore _) => unfold pignore
  | |- takes _ _ _ _ _ _ (FinishPasskeyRegistration _ _ _ _ _ _ _ _) => unfold FinishPasskeyRegistration
  | |- takes _ _ _ _ _ _ (FinishPasskeyRegistrationAssertion _ _ _ _ _ _ _ _) => unfold FinishPasskeyRegistrationAssertion
  | |- takes _ _ _ _ _ _ (FinishPasskeyLogin _ _ _ _ _) => unfold FinishPasskeyLogin
  | |- takes _ _ _ _ _ _ (FinishDiscoverablePasskeyLogin _ _ _ _ _) => unfold FinishDiscoverablePasskeyLogin
  | |- takes _ _ _ _ _ _ (validatePasskeyAssertion _ _ _ _ _ _ _ _) => unfold validatePasskeyAssertion
  | |- takes _ _ _ _ _ _ (ready _ ≫= _) => apply takes_ready
  | |- takes _ _ _ _ _ _ (_ ≫= _) => apply takes_bind; [|intros; grows_auto]
  end.

(** What a call leaves in the table it started itself, or it was there and the call did
    not go on with it. *)
Lemma call_table c s i x : ceremonies (passkey_op cfg c s).2 !! i = Some x →
  started c i x ∨ (ceremonies s !! i = Some x ∧ ¬ accepts cfg c s i).
Proof.
  assert (∀ m : pop unit, presents c = None → grows (started c) m → ceremonies (m s).2 !! i = Some x →
    started c i x ∨ (ceremonies s !! i = Some x ∧ ¬ accepts cfg c s i)) as Hno.
  { intros m Hp Hm H. destruct (Hm s i x H); [right|by left]. split; [done|]. intros (? & ? & ? & E & _). by rewrite Hp in E. }
  assert (∀ (m : pop unit) j kind client env, presents c = Some (j, kind, client, env) → takes cfg (started c) j kind client env m →
    ceremonies (m s).2 !! i = Some x → started c i x ∨ (ceremonies s !! i = Some x ∧ ¬ accepts cfg c s i)) as Hyes.
  { intros m j kind client env Hp Hm H. destruct (Hm s i x H) as [?|[H1 H2]]; [by left|right]. split; [done|].
    intros (kind' & client' & env' & E & Hw & Hok). rewrite Hp in E. injection E as -> -> -> ->. by apply H2. }
  destruct c; cbn [passkey_op].
  - apply Hno; [done|]. apply grows_on_auth.
  - apply Hno; [done|]. unfold pignore, BeginPasskeyRegistration, ready. grows_auto. apply store_grows. intros raw Hr.
    eexists _, raw, _, _, _. split_and!; [done|done|done|done|done|]. intros ? ? [= <- <-]. done.
  - eapply Hyes; [done|]. taken. apply takes_own.
  - eapply Hyes; [done|]. apply takes_bind; [|intros; grows_auto]. apply takes_ready, takes_bind; [apply takes_own|].
    intros ceremony t t' (_ & Es)%take_own_Ok. grows_auto. apply store_grows. intros raw Hr. eexists _, raw, _, _, _. split_and!; [done..|].
    intros ? ? [= <- <-]. done.
  - eapply Hyes; [done|]. taken. apply takes_own.
  - apply Hno; [done|]. unfold pignore, BeginPasskeyLogin, ready. grows_auto. apply begin_private_grows. intros raw c Hr E1 E2.
    eexists _, raw, _, _, _. by split_and!.
  - apply Hno; [done|]. unfold pignore, BeginDiscoverablePasskeyLogin, ready. grows_auto. apply store_grows. intros raw Hr.
    eexists _, raw, _, _, _. by split_and!.
  - apply Hno; [done|]. unfold pignore, BeginPasskeyReauthentication, beginPasskeyAssertion, ready. grows_auto. apply store_grows. intros raw Hr.
    eexists _, raw, _, _, _. split_and!; [done..|]. by intros ? ? [= <- <-].
  - eapply Hyes; [done|]. taken. apply takes_renamed.
  - eapply Hyes; [done|]. apply takes_ready, takes_bind; [|intros; grows_auto]. taken. apply takes_renamed.
  - eapply Hyes; [done|]. taken. apply takes_renamed.
Qed.

Lemma accepts_lookup c s i : accepts cfg c s i → is_Some (ceremonies s !! i).
Proof.
  intros (kind & client & env & _ & _ & Hok). destruct (takePasskeyCeremony i kind client env s) as [[x|e] s'] eqn:E; [|done].
  apply take_Ok in E as [E _]. by exists x.
Qed.
Lemma started_avoids c i x : started c i x → ¬ avoids i c.
Proof. intros (env & raw & kind & client & owner & Hs & Hr & Hi & _) Ha. by apply (Ha env kind client owner raw). Qed.
Lemma absent_stays i cs : Forall (avoids i) cs → ∀ s, ceremonies s !! i = None → ceremonies (run_passkeys cfg cs s) !! i = None.
Proof.
  unfold run_passkeys. induction 1 as [|c cs Hc _ IH]; intros s Hs; cbn; [done|]. apply IH.
  apply eq_None_not_Some. intros [x [H|[H _]]%call_table]; [by apply (started_avoids c i x H)|congruence].
Qed.

(** C14. A passkey ceremony is used at most once. Once a call has gone on with a ceremony, no
    later call, whatever it is and whatever ran in between, goes on with the same
    identifier, unless a begin call draws the same 32 random bytes again. *)
Theorem ceremony_single_use s c1 cs c2 i :
  accepts cfg c1 s i → Forall (avoids i) (c1 :: cs) → ¬ accepts cfg c2 (run_passkeys cfg (c1 :: cs) s) i.
Proof.
  intros Hacc [Hc Hcs]%Forall_cons [x Hx]%accepts_lookup. change (run_passkeys cfg (c1 :: cs) s) with (run_passkeys cfg cs (passkey_op cfg c1 s).2) in Hx.
  rewrite absent_stays in Hx; [done|done|]. apply eq_None_not_Some. intros [y [H|[_ H]]%call_table]; [by apply (started_avoids c1 i y H)|by apply H].
Qed.

(** ** Origin and bound *)
Lemma run_origin cs : ∀ s i x, ceremonies (run_passkeys cfg cs s) !! i = Some x → ceremonies s !! i = Some x ∨ (∃ b, b ∈ cs ∧ started b i x).
Proof.
  unfold run_passkeys. induction cs as [|c cs IH]; intros s i x; cbn; [by left|]. intros [H|(b & Hb & Hx)]%IH.
  - apply call_table in H as [H|[H _]]; [right; exists c; split; [left|done]|by left].
  - right. exists b. split; [by right|done].
Qed.

(** [m] keeps the table within its bound. *)
Definition fits (s : passkey_state) : Prop := Z.of_nat (size (ceremonies s)) <= maxPasskeyCeremonies.
Definition bounded {A} (m : pop A) : Prop := ∀ s, fits s → fits (m s).2.
Lemma bounded_same {A} (m : pop A) : (∀ s, ceremonies (m s).2 = ceremonies s) → bounded m.
Proof. intros H s. unfold fits. by rewrite H. Qed.
Lemma bounded_on_auth {A} (m : aop A) : bounded (on_auth m).
Proof. apply bounded_same. intros s. unfold on_auth. by destruct (m (base s)). Qed.
Lemma bounded_lift {A} (r : res aerr A) : bounded (lift r). Proof. by apply bounded_same. Qed.
Lemma bounded_require b e : bounded (require b e). Proof. by apply bounded_same. Qed.
Lemma bounded_ret {A} (a : A) : bounded (mret a). Proof. by apply bounded_same. Qed.
Lemma bounded_bind {A B} (m : pop A) (f : A → pop B) : bounded m → (∀ a, bounded (f a)) → bounded (m ≫= f).
Proof. intros Hm Hf s Hs. specialize (Hm s Hs). unfold mbind, stm_bind. destruct (m s) as [[a|e] s']; cbn in *; [by apply Hf|done]. Qed.
Lemma bounded_take i kind client env : bounded (takePasskeyCeremony i kind client env).
Proof.
  intros s Hs. assert (fits (PState (base s) (delete i (ceremonies s)))) as Hd.
  { unfold fits in *. cbn. rewrite map_size_delete. destruct (ceremonies s !! i); unfold id; lia. }
  unfold takePasskeyCeremony. destruct (_ || _); [done|]. unfold mbind, stm_bind, gets, modify, id. cbn.
  destruct (ceremonies s !! i) as [c|]; [destruct (_ && _)|]; done.
Qed.
Lemma bounded_renamed i kind client env e : bounded (λ s,
  match takePasskeyCeremony i kind client env s with (Ok c, s') => (Ok c, s') | (Err _, s') => (Err e, s') end).
Proof. intros s Hs. pose proof (bounded_take i kind client env s Hs) as H. by destruct (takePasskeyCeremony i kind client env s) as [[] ?]. Qed.
Lemma bounded_store c env : bounded (storePasskeyCeremony c env).
Proof.
  intros s Hs. unfold storePasskeyCeremony, mbind, stm_bind, lift, random. destruct (pe_id env) as [raw|]; [|done].
  destruct (length raw =? 32)%nat; [|done]. unfold gets, modify, require, lift, ensure, id. cbn.
  set (t := filter _ (ceremonies s)). assert (Z.of_nat (size t) <= maxPasskeyCeremonies) as Ht.
  { etrans; [|exact Hs]. apply Nat2Z.inj_le, map_size_filter. }
  destruct (Z.ltb_spec (Z.of_nat (size t)) maxPasskeyCeremonies); cbn; [|done]. unfold fits. cbn [snd ceremonies set_ceremonies].
  change (Z.of_nat (size (<[url_encode raw := c]> t)) <= maxPasskeyCeremonies). rewrite map_size_insert. destruct (t !! url_encode raw); unfold id; lia.
Qed.

Create HintDb bounded.
#[local] Hint Resolve bounded_on_auth bounded_lift bounded_require bounded_ret bounded_take bounded_renamed bounded_store : bounded.
Ltac bounded_auto := repeat lazymatch goal with
  | |- bounded (_ ≫= _) => apply bounded_bind; [|intros ?]
  | |- bounded (match ?x with _ => _ end) => destruct x
  | |- _ => solve [eauto with bounded]
  end.
Lemma call_bounded c : bounded (passkey_op cfg c).
Proof.
  assert (∀ x e ck env, bounded (beginPrivatePasskeyLogin cfg x e ck env)) as Hb.
  { intros x e ck env s Hs. assert (bounded (begin_private cfg e ck env)) as H by (unfold begin_private; bounded_auto). specialize (H s Hs).
    unfold beginPrivatePasskeyLogin. by destruct (begin_private cfg e ck env s). }
  destruct c; cbn [passkey_op]; unfold pignore, BeginPasskeyRegistration, FinishPasskeyRegistration, BeginPasskeyRegistrationAssertion,
    FinishPasskeyRegistrationAssertion, BeginPasskeyLogin, BeginDiscoverablePasskeyLogin, BeginPasskeyReauthentication, beginPasskeyAssertion,
    FinishPasskeyLogin, FinishPasskeyReauthentication, FinishDiscoverablePasskeyLogin, validatePasskeyAssertion, take_own, ready; bounded_auto.
Qed.

(** A ceremony is finished only by the client that started it, for the purpose it was
    started for and before it expires. Whenever a call goes on with an identifier, an
    earlier call drew it and started a ceremony of this kind for this client and, if that
    call was authenticated, for its user and session. At most 4096 ceremonies are kept. *)
Theorem ceremony_origin s0 cs c i :
  ceremonies s0 = ∅ → accepts cfg c (run_passkeys cfg cs s0) i →
  Z.of_nat (size (ceremonies (run_passkeys cfg cs s0))) <= maxPasskeyCeremonies ∧
  ∃ kind client env x b, presents c = Some (i, kind, client, env) ∧ b ∈ cs ∧ started b i x ∧
    cm_Kind x = kind ∧ cm_ClientKey x = client ∧ pe_clock env <= Expires (cm_Session x).
Proof.
  intros H0 (kind & client & env & Hp & _ & Hok). split.
  - assert (fits s0) as Hs by (unfold fits; by rewrite H0, map_size_empty). clear H0 Hok. revert s0 Hs.
    induction cs as [|b cs IH]; intros s Hs; [exact Hs|]. apply IH. by apply call_bounded.
  - destruct (takePasskeyCeremony i kind client env _) as [[x|] s'] eqn:E; [|done]. apply take_Ok in E as (Hx & Hk & Hc & Ht & _).
    apply run_origin in Hx as [Hx|(b & Hb & Hst)]; [by rewrite H0 in Hx|]. by exists kind, client, env, x, b.
Qed.
End Table.

(** * Locks and slots *)
Section Release.
Context `{L : ControlLib} `{P : !PasskeyLib L} `{K : KDFLib} `{D : AuthDeps} `{W : !WebAuthn L} (cfg : config).
#[local] Hint Resolve refuse_drops reject_drops run_dummy_drops upgrade_drops unwrapVault_drops : drops.

Lemma load_drops u : drops 0 (loadPasskeyUser u). Proof. unfold loadPasskeyUser. drops_auto. Qed.
#[local] Hint Resolve load_drops : drops.
Lemma otherwise_drops {A} (m : aop A) e : drops 0 m → drops 0 (otherwise m e).
Proof. intros H. unfold otherwise. drops_auto. Qed.
#[local] Hint Resolve otherwise_drops : drops.
Lemma active_drops u : drops 0 (active_passkey_user u). Proof. unfold active_passkey_user. drops_auto. Qed.
Lemma persist_drops u n prf salt c key now r : drops 0 (persistVerifiedPasskey cfg u n prf salt c key now r).
Proof. unfold persistVerifiedPasskey. drops_auto. Qed.
Lemma dek_drops x e u v i now : drops 0 (passkey_dek cfg x e u v i now). Proof. unfold passkey_dek. drops_auto. Qed.
Lemma use_drops e c now b : drops 0 (record_use e c now b). Proof. unfold record_use. drops_auto. Qed.
Lemma identity_drops email : drops 0 (private_identity cfg email). Proof. unfold private_identity. drops_auto. Qed.
#[local] Hint Resolve active_drops persist_drops dek_drops use_drops identity_drops : drops.
Lemma conclude_drops {A} key now b (r : res aerr A) : drops 0 (conclude key now b r). Proof. unfold conclude. drops_auto. Qed.
#[local] Hint Resolve conclude_drops : drops.
Lemma conclude_bound_drops {A} key now b (r : res aerr A) : drops 0 (conclude_bound key now b r). Proof. unfold conclude_bound. drops_auto. Qed.
Lemma signed_drops c p clock : drops 0 (signed_record c p clock). Proof. unfold signed_record. drops_auto. Qed.
Lemma checks_drops u c i : drops 0 (assertion_checks u c i). Proof. unfold assertion_checks. drops_auto. Qed.
Lemma key_drops x kind e u v i now : drops 0 (assertion_key cfg x kind e u v i now). Proof. unfold assertion_key. drops_auto. Qed.
Lemma found_drops c u a rs p clock : drops 0 (discoverable_record c u a rs p clock). Proof. unfold discoverable_record. drops_auto. Qed.
Lemma session_drops x user u c e v i now : drops 0 (discoverable_session cfg x user u c e v i now). Proof. unfold discoverable_session. drops_auto. Qed.
#[local] Hint Resolve found_drops session_drops : drops.
Lemma discoverable_drops x c u p i now clock : drops 0 (finish_discoverable cfg x c u p i now clock).
Proof. unfold finish_discoverable. drops_auto. Qed.
#[local] Hint Resolve conclude_bound_drops signed_drops checks_drops key_drops discoverable_drops : drops.

Lemma conclude_bound_answer {A} key now b (r : res aerr A) s : is_ok (conclude_bound key now b r s).1 = is_ok r.
Proof.
  unfold conclude_bound. case_bool_decide as Hk; [done|]. unfold conclude. destruct r as [a|e].
  - assert (never_fails (clearLoginFailures key;; mret a : aop A)) as H; [|exact (H s)].
    apply bind_total; [unfold clearLoginFailures; apply bind_total; [apply try_total|by intros ? ?]|by intros ? ?].
  - destruct e; try done. destruct b; [done|]. unfold reject, mbind, stm_bind. destruct (recordLoginFailure key now s) as [[] ?]; done.
Qed.

(** A success keeps one lock for the caller, a failure none. *)
Definition holds {A} (lock : string) (m : aop A) : Prop := ∀ s,
  kdf (m s).2 = kdf s ∧ locks (m s).2 = (if is_ok (m s).1 then {[lock]} ∪ locks s else locks s) ∧ (is_ok (m s).1 = true → lock ∉ locks s).
Lemma holds_after {A B} lock (m : aop A) (f : A → aop B) : drops 0 m → (∀ a, holds lock (f a)) → holds lock (m ≫= f).
Proof.
  intros Hm Hf s. destruct (Hm s) as [E1 E2]. unfold mbind, stm_bind. destruct (m s) as [[a|e] s']; cbn in *; [|split_and!; [lia|done|done]].
  destruct (Hf a s') as (H1 & H2 & H3). rewrite E1 in *. split_and!; [lia|done|done].
Qed.
Lemma holds_release {A} lock (m : aop A) s a s' (B : Type) (n : aop B) : holds lock m → m s = (Ok a, s') → drops 0 n →
  locks (deferred (unlock lock) n s').2 = locks s ∧ kdf (deferred (unlock lock) n s').2 = kdf s.
Proof.
  intros Hm E Hn. destruct (Hm s) as (H1 & H2 & H3). rewrite E in *. cbn in *. destruct (Hn s') as [E1 E2]. unfold deferred. destruct (n s') as [r t]. cbn in *.
  specialize (H3 eq_refl). split; [|lia]. rewrite E1, H2. set_solver.
Qed.
(** A statement under the lock that releases it when it fails. *)
Lemma on_error_locks {A} lock (m : aop A) s t : drops 0 m → locks t = {[lock]} ∪ locks s → lock ∉ locks s →
  kdf (unlock_on_error lock m t).2 = kdf t ∧ locks (unlock_on_error lock m t).2 = (if is_ok (unlock_on_error lock m t).1 then {[lock]} ∪ locks s else locks s).
Proof.
  intros Hm Ht Hn. destruct (Hm t) as [E1 E2]. unfold unlock_on_error. destruct (m t) as [[a|e] t']; cbn in *; (split; [lia|]); [congruence|].
  rewrite E1, Ht. set_solver.
Qed.
Lemma concluded {A} lock key now b (r : res aerr A) s t : kdf t = kdf s → locks t = (if is_ok r then {[lock]} ∪ locks s else locks s) →
  (is_ok r = true → lock ∉ locks s) → let '(x, t') := conclude_bound key now b r t in
  kdf t' = kdf s ∧ locks t' = (if is_ok x then {[lock]} ∪ locks s else locks s) ∧ (is_ok x = true → lock ∉ locks s).
Proof.
  intros Hk Hl Hn. pose proof (conclude_bound_answer key now b r t) as Ha. destruct (conclude_bound_drops key now b r t) as [E1 E2].
  destruct (conclude_bound key now b r t) as [x t']. cbn in *. rewrite Ha. split_and!; [lia|congruence|done].
Qed.

Lemma try_bind_run {A B} (m : aop A) (f : res aerr A → aop B) s : (try m ≫= f) s = let '(r, s') := m s in f r s'.
Proof. unfold try, mbind, stm_bind. by destruct (m s). Qed.
Lemma lock_holds {A} lock (a : A) : holds lock (lockAccount lock;; mret a).
Proof. intros t. unfold lockAccount, mbind, stm_bind, gets, require, lift, ensure, modify, id. cbn. by case_bool_decide. Qed.

Lemma validate_holds x u kind c input now clock b : holds (user_lock (cm_UserID c)) (validate_ceremony cfg x u kind c input now clock b).
Proof.
  unfold validate_ceremony. apply holds_after; [drops_auto|]. intros _. cbv zeta. set (lock := user_lock (cm_UserID c)). intros s.
  rewrite try_bind_run. assert (holds lock (parsed ← assertion_checks u c input; lockAccount lock;; mret parsed)) as H1
    by (apply holds_after; [apply checks_drops|intros p; apply lock_holds]).
  specialize (H1 s). destruct ((parsed ← assertion_checks u c input; lockAccount lock;; mret parsed) s) as [[parsed|e] s1];
    cbn [fst snd is_ok] in H1; destruct H1 as (K1 & L1 & N1); cbv beta iota.
  2: { pose proof (concluded (A := UserSummary * string * list Z) lock (cm_ThrottleKey c) now false (Err e) s s1 K1 L1 N1) as H. by destruct (conclude_bound _ _ _ _ s1). }
  specialize (N1 eq_refl). rewrite try_bind_run. pose proof (on_error_locks lock (signed_record c parsed clock) s s1 (signed_drops _ _ _) L1 N1) as [K2 L2].
  destruct (unlock_on_error lock (signed_record c parsed clock) s1) as [[[[[user updated] expected] vault]|e] s2]; cbn [fst snd is_ok] in K2, L2; cbv beta iota.
  2: { pose proof (concluded (A := UserSummary * string * list Z) lock (cm_ThrottleKey c) now false (Err e) s s2 ltac:(lia) L2 ltac:(done)) as H.
       by destruct (conclude_bound _ _ _ _ s2). }
  rewrite try_bind_run. match goal with |- context [unlock_on_error lock ?m s2] => pose proof (on_error_locks lock m s s2) as Hm; set (body := m) in * end.
  destruct Hm as [K3 L3]; [subst body; drops_auto|done|done|]. destruct (unlock_on_error lock body s2) as [r s3]. cbn [fst snd] in K3, L3. cbv beta iota.
  pose proof (concluded lock (cm_ThrottleKey c) now (checks_password kind expected input) r s s3 ltac:(lia) L3 ltac:(done)) as H.
  by destruct (conclude_bound _ _ _ _ s3).
Qed.

(** At the level of the ceremonies. *)
Definition pdrops {A} (m : pop A) : Prop := ∀ s, locks (base (m s).2) = locks (base s) ∧ kdf (base (m s).2) = kdf (base s).
Lemma pdrops_on_auth {A} (m : aop A) : drops 0 m → pdrops (on_auth m).
Proof. intros H s. destruct (H (base s)) as [E1 E2]. unfold on_auth. destruct (m (base s)). cbn in *. split; [done|lia]. Qed.
Lemma pdrops_same {A} (m : pop A) : (∀ s, base (m s).2 = base s) → pdrops m.
Proof. intros H s. by rewrite H. Qed.
Lemma pdrops_bind {A B} (m : pop A) (f : A → pop B) : pdrops m → (∀ a, pdrops (f a)) → pdrops (m ≫= f).
Proof.
  intros Hm Hf s. specialize (Hm s). unfold mbind, stm_bind. destruct (m s) as [[a|e] s']; cbn in *; [|done]. destruct (Hf a s'), Hm. split; congruence.
Qed.
Lemma pdrops_take i kind client env : pdrops (takePasskeyCeremony i kind client env).
Proof.
  apply pdrops_same. intros s. unfold takePasskeyCeremony. destruct (_ || _); [done|]. unfold mbind, stm_bind, gets, modify, id. cbn.
  destruct (ceremonies s !! i); [by destruct (_ && _)|done].
Qed.
Lemma pdrops_renamed i kind client env e : pdrops (λ s,
  match takePasskeyCeremony i kind client env s with (Ok c, s') => (Ok c, s') | (Err _, s') => (Err e, s') end).
Proof. intros s. pose proof (pdrops_take i kind client env s) as H. by destruct (takePasskeyCeremony i kind client env s) as [[] ?]. Qed.
Lemma pdrops_store c env : pdrops (storePasskeyCeremony c env).
Proof.
  apply pdrops_same. intros s. unfold storePasskeyCeremony, mbind, stm_bind, lift, random. destruct (pe_id env) as [raw|]; [|done].
  destruct (length raw =? 32)%nat; [|done]. unfold gets, modify, require, lift, ensure, id. cbn. by destruct (_ <? _).
Qed.
Lemma pdrops_lift {A} (r : res aerr A) : pdrops (lift r). Proof. by apply pdrops_same. Qed.
Lemma pdrops_require b e : pdrops (require b e). Proof. by apply pdrops_same. Qed.
Lemma pdrops_ret {A} (a : A) : pdrops (mret a). Proof. by apply pdrops_same. Qed.

(** A finish that was handed the lock gives it back. *)
Lemma pdrops_finish {A} x u kind input now b env (n : UserSummary * string * list Z → aop A) : (∀ y, drops 0 (n y)) →
  pdrops ('(c, y) ← validatePasskeyAssertion cfg x u kind input now b env; on_auth (deferred (unlock (user_lock (cm_UserID c))) (n y))).
Proof.
  intros Hn s. unfold validatePasskeyAssertion. rewrite bind_assoc_run. revert s. apply pdrops_bind; [apply pdrops_renamed|]. intros c s.
  pose proof (validate_holds x u kind c input now (pe_clock env) b (base s)) as H. unfold mbind, stm_bind, on_auth.
  destruct (validate_ceremony cfg x u kind c input now (pe_clock env) b (base s)) as [[y|e] t] eqn:E; cbn in *; [|split; apply H].
  pose proof (holds_release _ _ _ _ _ _ (n y) (validate_holds x u kind c input now (pe_clock env) b) E (Hn y)) as Hr.
  by destruct (deferred (unlock (user_lock (cm_UserID c))) (n y) t).
Qed.

Create HintDb pdrops.
#[local] Hint Resolve pdrops_take pdrops_renamed pdrops_store pdrops_lift pdrops_require pdrops_ret : pdrops.
Ltac pdrops_auto := repeat lazymatch goal with
  | |- pdrops (_ ≫= _) => apply pdrops_bind; [|intros ?]
  | |- pdrops (on_auth _) => apply pdrops_on_auth; drops_auto
  | |- pdrops (match ?x with _ => _ end) => destruct x
  | |- _ => solve [eauto with pdrops]
  end.
Lemma private_pdrops x email ck env : pdrops (beginPrivatePasskeyLogin cfg x email ck env).
Proof.
  intros s. assert (pdrops (begin_private cfg email ck env)) as H by (unfold begin_private; pdrops_auto). specialize (H s).
  unfold beginPrivatePasskeyLogin. by destruct (begin_private cfg email ck env s).
Qed.
#[local] Hint Resolve private_pdrops : pdrops.

Lemma login_pdrops x input now env : pdrops (FinishPasskeyLogin cfg x input now env).
Proof.
  unfold FinishPasskeyLogin, ready. apply pdrops_bind; [eauto with pdrops|intros _].
  intros s. pose proof (pdrops_finish x "" passkeyCeremonyLogin input now true env
    (λ '(user, vault, dek), require (length dek =? 32)%nat ERawKey;; open_session user vault dek) ltac:(intros [[]]; drops_auto) s) as H.
  revert H. unfold mbind, stm_bind. by destruct (validatePasskeyAssertion _ _ _ _ _ _ _ _ s) as [[[c [[user vault] dek]]|e] t].
Qed.
Lemma reauthentication_pdrops x u input now env : pdrops (FinishPasskeyReauthentication cfg x u input now env).
Proof.
  unfold FinishPasskeyReauthentication, ready. apply pdrops_bind; [eauto with pdrops|intros _].
  exact (pdrops_finish x u passkeyCeremonyReauth input now false env (λ _, mret tt) ltac:(intros; drops_auto)).
Qed.
#[local] Hint Resolve login_pdrops reauthentication_pdrops : pdrops.

(** C13. No call of the account service leaks an account lock or a password slot. On every
    path of every account call and of every passkey begin and finish, the one that hands the
    lock of a validated assertion to its caller included, the locks held and the slots in
    use afterwards are those before the call, whatever it answers. *)
Theorem auth_calls_release c s :
  locks (base (passkey_op cfg c s).2) = locks (base s) ∧ kdf (base (passkey_op cfg c s).2) = kdf (base s).
Proof.
  revert s. destruct c; cbn [passkey_op]; unfold pignore, BeginPasskeyRegistration, FinishPasskeyRegistration,
    BeginPasskeyRegistrationAssertion, FinishPasskeyRegistrationAssertion, BeginPasskeyLogin, BeginDiscoverablePasskeyLogin,
    BeginPasskeyReauthentication, beginPasskeyAssertion, FinishDiscoverablePasskeyLogin, take_own, ready.
  all: match goal with |- ∀ s, locks (base (?m s).2) = _ ∧ _ => change (pdrops m) end.
  1: apply pdrops_on_auth, auth_op_drops. all: pdrops_auto.
Qed.
End Release.

(** * What a login by address reveals *)
Section Decoys.
Context `{L : ControlLib} `{P : !PasskeyLib L} `{K : KDFLib} `{D : AuthDeps} `{W : !WebAuthn L} (cfg : config).

Lemma decoy_length_range seed : 16 <= decoy_length seed <= 1024.
Proof.
  unfold decoy_length. change (Z.of_nat (length commonLengths)) with 6. pose proof (Z.mod_pos_bound (nth 2 seed 0) 7 ltac:(lia)) as Hm.
  change (6 + 1) with 7. set (choice := nth 2 seed 0 mod 7) in *. destruct (Z.ltb_spec choice 6).
  - assert (Z.to_nat choice < 6)%nat as Hi by lia. destruct (Z.to_nat choice) as [|[|[|[|[|[|]]]]]]; cbn; lia.
  - pose proof (Z.mod_pos_bound (nth 0 seed 0 * 256 + nth 1 seed 0) 1009 ltac:(lia)). lia.
Qed.
Lemma decoy_id_valid key email index : is_ok (validatePasskeyCredentialID (passkeyDecoyCredentialID key email index)) = true.
Proof.
  unfold validatePasskeyCredentialID, passkeyDecoyCredentialID, ensure, between. rewrite SHAKE256_length. pose proof (decoy_length_range (passkeyDecoy key email "credential" index)).
  rewrite Z2Nat.id by lia. destruct (Z.leb_spec 16 (decoy_length (passkeyDecoy key email "credential" index))), (Z.leb_spec (decoy_length (passkeyDecoy key email "credential" index)) 1024); cbn; done || lia.
Qed.
Lemma padded_length email records : (length records <= 10)%nat → length (padded_ids cfg email records) = 10%nat.
Proof.
  intros H. unfold padded_ids, sort_ids. rewrite (Permutation_length (merge_sort_Permutation id_le _)), length_app, length_fmap. unfold decoy_ids, decoy_indices.
  rewrite length_fmap, length_seqZ. change MaxPasskeysPerUser with 10. lia.
Qed.

#[local] Instance id_le_total : Total id_le. Proof. intros a b. apply lex_le_total. Qed.
#[local] Instance id_le_trans : Transitive id_le. Proof. intros a b c. apply lex_le_trans. Qed.

(** No active account with a passkey has this address. *)
Definition hidden (c : control) (email : string) : Prop :=
  ∀ u, (GetUserByEmail email c).1 = Ok u → us_State u ≠ UserActive ∨ (ListPasskeyCredentials (us_ID u) c).1 = Ok [].

Lemma on_auth_Ok {A} (m : aop A) s a s' : on_auth m s = (Ok a, s') → ∃ b, m (base s) = (Ok a, b) ∧ s' = PState b (ceremonies s).
Proof. unfold on_auth. destruct (m (base s)) as [r b]. intros [= -> <-]. eauto. Qed.
(** A ceremony without an identity finishes no login. *)
Lemma decoy_refused y input now env t x : ceremonies t !! fl_CeremonyID input = Some x → cm_UserID x = "" →
  is_ok (FinishPasskeyLogin cfg y input now env t).1 = false.
Proof.
  intros Hx Hu. destruct (FinishPasskeyLogin cfg y input now env t) as [[session|e] t'] eqn:E; [|done]. exfalso. unfold FinishPasskeyLogin in E.
  apply bind_Ok_inv in E as ([] & t1 & [_ ->]%require_Ok & ([c [[user vault] dek]] & t2 & Hv & _)%bind_Ok_inv).
  unfold validatePasskeyAssertion in Hv. apply bind_Ok_inv in Hv as (c' & t3 & Ht & (r & t4 & (b & Hv & _)%on_auth_Ok & [= -> _ _])%bind_Ok_inv).
  assert (c = x) as ->.
  { destruct (takePasskeyCeremony _ _ _ _ t) as [[c1|] t5] eqn:E1; [|done]. injection Ht as -> _. apply take_Ok in E1 as [E1 _]. rewrite Hx in E1. by injection E1. }
  unfold validate_ceremony in Hv. apply bind_Ok_inv in Hv as ([] & t5 & _ & Hv). rewrite try_bind_run in Hv. unfold assertion_checks in Hv. rewrite Hu in Hv.
  rewrite bool_decide_eq_true_2 in Hv by done. cbn [orb negb] in Hv. unfold require at 1, ensure, lift, mbind, stm_bind in Hv. cbn in Hv.
  pose proof (conclude_bound_answer (A := UserSummary * string * list Z) (cm_ThrottleKey x) now false (Err ErrInvalidCredentials) t5) as Ha. by rewrite Hv in Ha.
Qed.

(** *** The identifier looked up for an address nobody has *)
Lemma url_char_id v : 0 <= v < 64 → id_rune (url_char v) = true ∧ 33 <= url_char v < 127.
Proof. intros Hv. unfold url_char, b64_char, id_rune, between. repeat case_match; lia. Qed.
Lemma raw_encode_ids data : Forall is_byte data → Forall (λ c, id_rune c = true ∧ 33 <= c < 127) (raw_encode url_char data).
Proof.
  induction data as [|x|x y|x y z l IH] using list_ind3; intros Hb; [constructor| | |];
    rewrite ?Forall_cons in Hb; unfold is_byte in Hb; cbn [raw_encode]; repeat (constructor; [apply url_char_id; Z.div_mod_to_equations; lia|]); [constructor..|].
  apply IH. tauto.
Qed.
Lemma raw_encode_size (f : Z → Z) data : Z.of_nat (length (raw_encode f data)) = (4 * Z.of_nat (length data) + 2) / 3.
Proof.
  induction data as [|x|x y|x y z l IH] using list_ind3; [done..|]. cbn [raw_encode length] in *. rewrite !Nat2Z.inj_succ, IH. Z.div_mod_to_equations. lia.
Qed.
Lemma decoy_user_normal email : normalizeID (decoy_user cfg email) = Ok (decoy_user cfg email).
Proof.
  set (raw := take 32 (passkeyDecoy (c_privacy cfg) email "user" 0)).
  assert (length raw = 32%nat) as Hl by (unfold raw, passkeyDecoy; rewrite length_take, hmac_sha512_length; lia).
  assert (Forall is_byte raw) as Hb by (apply Forall_take, hmac_sha512_range).
  set (text := bytes "decoy_" ++ raw_encode url_char raw). assert (decoy_user cfg email = of_bytes text) as ->.
  { rewrite <- (of_bytes_bytes (decoy_user cfg email)). f_equal. unfold decoy_user, url_encode. rewrite bytes_app, bytes_of_bytes; [done|].
    eapply Forall_impl; [by apply raw_encode_ids|]. unfold is_byte. cbn. lia. }
  clearbody raw.
  assert (Forall (λ c, id_rune c = true ∧ 33 <= c < 127) text) as Ht.
  { apply Forall_app_2; [|by apply raw_encode_ids]. apply (bool_decide_unpack _). vm_compute. exact I. }
  assert (Z.of_nat (length text) = 49) as Hlen by (unfold text; rewrite length_app, Nat2Z.inj_add, raw_encode_size, Hl; reflexivity).
  assert (bytes (of_bytes text) = text) as Ebt by (apply bytes_of_bytes; eapply Forall_impl; [exact Ht|]; unfold is_byte; cbn; lia).
  unfold normalizeID, TrimSpace, len. rewrite Ebt, Hlen, trim_ascii, bool_decide_eq_true_2 by (done || (intros E; by rewrite E in Hlen) || (eapply Forall_impl; [exact Ht|]; cbn; tauto)).
  cbn [negb orb Z.ltb Z.gtb Z.compare Pos.compare Pos.compare_cont]. rewrite Session.runes_ascii by (eapply Forall_impl; [exact Ht|]; cbn; lia).
  replace (forallb id_rune text) with true; [done|]. symmetry. apply Is_true_true, forallb_True. eapply Forall_impl; [exact Ht|]. cbn. intros c [-> _]. done.
Qed.

(** The credentials an answer may list: those of an active account. *)
Definition shown_records (c : control) (email : string) : list PasskeyCredential :=
  match (GetUserByEmail email c).1 with
  | Ok u => if bool_decide (us_State u = UserActive) then match (ListPasskeyCredentials (us_ID u) c).1 with Ok rs => rs | Err _ => [] end else []
  | Err _ => []
  end.
(** The rows behind the address can be read, and those of an active account are within
    the limits; no credential belongs to the identifier looked up for nobody. *)
Definition passkeys_readable (c : control) (email : string) : Prop :=
  match (GetUserByEmail email c).1 with
  | Ok u => ∃ rs, (ListPasskeyCredentials (us_ID u) c).1 = Ok rs ∧
      (us_State u = UserActive → (length rs <= 10)%nat ∧ forallb record_usable rs = true)
  | Err _ => ∀ cid row, passkeys c !! cid = Some row → pk_user row ≠ decoy_user cfg email
  end.
(** Where the ceremony is kept: a random identifier, while there is room. *)
Definition ceremony_place (env : passkey_env) (cs : gmap string passkeyCeremony) : res aerr string :=
  random 32 (pe_id env) ≫= λ raw,
  if Z.of_nat (size (filter (λ x : string * passkeyCeremony, live (pe_clock env) x.2 = true) cs)) <? maxPasskeyCeremonies
  then Ok (url_encode raw) else Err ErrAuthenticationBusy.
(** The answer to a login by address, from the credentials that are shown. *)
Definition begin_answer (email : string) (records : list PasskeyCredential) (env : passkey_env) (t : throttle_store)
    (cs : gmap string passkeyCeremony) : res aerr (string * Assertion) :=
  match (checkLoginThrottle (LoginThrottleKey email) (pe_clock env) t).1 with
  | Err e => Err (AThrottle e)
  | Ok retryAfter =>
    if retryAfter >? 0 then Err (LoginThrottledError retryAfter)
    else match BeginDiscoverableLogin (PRFByCredential (padded_prf cfg email records)) (pe_challenge env) with
         | None => Err EWebAuthn
         | Some (assertion, _) => ceremony_place env cs ≫= λ i, Ok (i, allow_credentials (padded_ids cfg email records) assertion)
         end
  end.

Lemma hidden_shown c email : hidden c email → shown_records c email = [].
Proof.
  intros Hh. unfold shown_records. destruct (GetUserByEmail email c).1 as [u|] eqn:E; [|done]. case_bool_decide; [|done].
  by destruct (Hh u E) as [?| ->].
Qed.
Lemma shown_ok c email : passkeys_readable c email → (length (shown_records c email) <= 10)%nat ∧ forallb record_usable (shown_records c email) = true.
Proof.
  unfold passkeys_readable, shown_records. destruct (GetUserByEmail email c).1 as [u|]; [|cbn; split; [lia|done]].
  intros (rs & -> & H). case_bool_decide; [auto|cbn; split; [lia|done]].
Qed.

Lemma private_identity_run email b : normalizeEmail email = Ok email → passkeys_readable (store b) email →
  ∃ userID, private_identity cfg email b = (Ok (userID, shown_records (store b) email), b) ∧ (shown_records (store b) email = [] → userID = "").
Proof.
  intros He. unfold passkeys_readable, private_identity, shown_records. rewrite bind_try_read by apply reads_GetUserByEmail.
  destruct (GetUserByEmail email (store b)).1 as [u|e] eqn:Eu; cbn [map_err].
  - intros (rs & Hrs & _). rewrite Hrs. unfold mbind at 1, stm_bind at 1. unfold mret at 1, stm_ret at 1. rewrite bind_read by apply reads_ListPasskeyCredentials.
    rewrite Hrs. case_bool_decide as Ha; cbn [andb]; [|by exists ""]. case_bool_decide as Hr; cbn [negb]; [subst rs; by exists ""|]. by exists (us_ID u).
  - intros Hno. assert (e = Control.ErrNotFound) as ->.
    { revert Eu. unfold GetUserByEmail, mbind, stm_bind, lift, gets, id. rewrite He. cbn. repeat case_match; cbn; congruence. }
    unfold mbind at 1, stm_bind at 1. unfold mret at 1, stm_ret at 1. rewrite bind_read by apply reads_ListPasskeyCredentials.
    assert ((ListPasskeyCredentials (decoy_user cfg email) (store b)).1 = Ok []) as ->; [|by exists ""].
    unfold ListPasskeyCredentials, mbind, stm_bind, lift, gets, id. rewrite decoy_user_normal. cbn [fst].
    assert (filter (λ x : list Z * passkeyrow, pk_user x.2 = decoy_user cfg email) (passkeys (store b)) = ∅) as ->; [|reflexivity].
    apply map_empty. intros cid. apply map_lookup_filter_None. right. intros row Hrow. by apply (Hno cid).
Qed.

Lemma store_run c env s : ∃ s', storePasskeyCeremony c env s = (ceremony_place env (ceremonies s), s') ∧ base s' = base s ∧
  ∀ i, ceremony_place env (ceremonies s) = Ok i → ceremonies s' !! i = Some c.
Proof.
  unfold storePasskeyCeremony, ceremony_place, mbind, stm_bind, lift, gets, modify, require, ensure, id. destruct (random 32 (pe_id env)) as [raw|e]; [|by exists s].
  cbn. destruct (_ <? _); [|eexists; split_and!; [done|done|done]]. eexists. split_and!; [done|done|]. intros i [= <-]. apply lookup_insert_eq.
Qed.

(** C36. A login by address does not tell whether the address has an account. For every address
    the answer, success or error, is that of one function of the address, the privacy key,
    the challenge, the throttle, the room for ceremonies and the credentials that may be
    shown; an unknown address, a disabled account and one without passkeys have none to
    show, so that nothing stored has any influence on their answer. When the address is not
    throttled, the library starts a ceremony and there is room, it is a success that lists
    exactly ten credentials, in order; without an account to show they are decoys with valid
    identifiers, and no finish call accepts the ceremony. The stored rows behind the address
    must be readable. *)
Theorem login_begin_hides_accounts raw email ck env s :
  (∀ t, ToLower (TrimSpace (ToLower (TrimSpace t))) = ToLower (TrimSpace t)) →
  normalizeLoginEmail raw = Ok email → passkeys_readable (store (base s)) email →
  let records := shown_records (store (base s)) email in
  let answer := begin_answer email records env (throttles (base s)) (ceremonies s) in
  ∃ s', begin_private cfg raw ck env s = (answer, s') ∧ base s' = base s ∧
    length (padded_ids cfg email records) = 10%nat ∧ StronglySorted id_le (padded_ids cfg email records) ∧
    (hidden (store (base s)) email → records = [] ∧
      Forall (λ d, is_ok (validatePasskeyCredentialID d) = true) (padded_ids cfg email records) ∧
      ∀ i a, answer = Ok (i, a) → ∃ x, ceremonies s' !! i = Some x ∧
        ∀ y input now env' t, ceremonies t !! fl_CeremonyID input = Some x → is_ok (FinishPasskeyLogin cfg y input now env' t).1 = false).
Proof.
  intros Hlow He Hread records answer. destruct (shown_ok _ _ Hread) as [Hlen Hus]. fold records in Hlen, Hus.
  assert (normalizeEmail email = Ok email) as Hn.
  { apply (normalizeEmail_stable Hlow raw). revert He. unfold normalizeLoginEmail. destruct (normalizeEmail raw); [by intros [= ->]|done]. }
  assert (∃ s', begin_private cfg raw ck env s = (answer, s') ∧ base s' = base s ∧
    (records = [] → ∀ i a, answer = Ok (i, a) → ∃ x, ceremonies s' !! i = Some x ∧ cm_UserID x = "")) as (s' & Hrun & Hb & Hx).
  { subst answer. unfold begin_private, begin_answer. rewrite He. unfold mbind at 1, stm_bind at 1. cbn [lift]. unfold mbind at 1, stm_bind at 1, on_auth at 1.
    rewrite refuse_throttled_run. destruct (checkLoginThrottle _ _ _).1 as [w|e]; [|by exists s; destruct s].
    destruct (w >? 0); [by exists s; destruct s|]. unfold mbind at 1, stm_bind at 1, on_auth at 1. cbn [base ceremonies].
    destruct (private_identity_run email (base s) Hn Hread) as (userID & -> & Hid). fold records in Hid |- *.
    unfold mbind at 1, stm_bind at 1, require at 1, ensure, lift. change MaxPasskeysPerUser with 10. rewrite (proj2 (Z.leb_le _ _)) by lia.
    unfold mbind at 1, stm_bind at 1, require at 1, ensure, lift. rewrite Hus. unfold mbind at 1, stm_bind at 1, from_library, lift.
    destruct (BeginDiscoverableLogin _ _) as [[assertion session]|]; [|by exists s; destruct s].
    match goal with |- context [storePasskeyCeremony ?c env] => destruct (store_run c env (PState (base s) (ceremonies s))) as (s1 & E & Hb & Hc) end.
    unfold mbind at 1, stm_bind at 1. rewrite E. cbn [ceremonies base] in *. destruct (ceremony_place env (ceremonies s)) as [i|e]; cbn [mbind res_bind]; [|by exists s1].
    exists s1. split_and!; [done|done|]. intros Hr i' a' [= <- <-]. eexists. split; [by apply Hc|]. by apply Hid. }
  exists s'. split_and!; [done|done|by apply padded_length|apply StronglySorted_merge_sort; apply _|]. intros Hh. assert (records = []) as Hr by by apply hidden_shown.
  split_and!; [done| |].
  - rewrite Hr. unfold padded_ids, sort_ids. rewrite merge_sort_Permutation. cbn. apply Forall_fmap, Forall_true. intros d. apply decoy_id_valid.
  - intros i a Ha. destruct (Hx Hr i a Ha) as (x & Hx1 & Hx2). exists x. split; [done|]. intros. by eapply decoy_refused.
Qed.
End Decoys.
