(* ===== verification/PasskeysKeys.v ===== *)
(** Passkeys and vault keys: a login with a passkey opens the session with the user's own
    vault key, and no call of the service, passkey calls included, loses a key. *)
From Stdlib Require Import ZArith Lia.
From stdpp Require Import base gmap list strings sorting.
From S2P Require Import Prelude GoText Validation Tags Images Throttle Totp Crypto Sha512 Control ControlInv KeyEnvelope Vault Session ServerAuth ServerAuthInv ServerAuthKeys Passkeys PasskeysInv.
Open Scope Z_scope.

#[local] Opaque LoginThrottleKey Sum256 aes_encrypt hmac_sha256 UnwrapWithPassword UnwrapWithPasskey UnwrapWithServerPasskey WrapWithPasskey WrapWithServerPasskey.

(** * Reading a stored passkey *)
Section Rows.
Context `{L : ControlLib} `{P : !PasskeyLib L}.

(** What a record says of the row it was read from. *)
Record stored_as (c : control) (u : string) (x : PasskeyCredential) (row : passkeyrow) : Prop := {
  sa_row : passkeys c !! pkc_ID x = Some row;
  sa_user : pk_user row = u;
  sa_owner : pkc_UserID x = u;
  sa_salt : pkc_PRFSalt x = pk_salt row;
  sa_envelope : (pk_envelope row = legacyUnlockMarker ∧ pkc_VaultEnvelope x = zero_envelope ∧ pkc_PasswordRequired x = true) ∨
    (pk_envelope row ≠ legacyUnlockMarker ∧ decodePasskeyEnvelope (pk_envelope row) = Ok (pkc_VaultEnvelope x) ∧ pkc_PasswordRequired x = false)
}.

Lemma scan_row c u i r x : passkeys c !! i = Some r → pk_user r = u → scanPasskeyCredential i r = Ok x → stored_as c u x r.
Proof.
  intros Hi Hu Hx. unfold scanPasskeyCredential in Hx. destruct (UnmarshalCredential (pk_json r)); [|done].
  apply res_bind_Ok_inv in Hx as ([] & _ & Hx). apply res_bind_Ok_inv in Hx as ([e b] & He & [= <-]).
  constructor; cbn; try done. case_bool_decide as Hm; [injection He as <- <-; by left|].
  apply res_bind_Ok_inv in He as (e' & He & [= <- <-]). by right.
Qed.
Lemma scan_rows c u rows xs : scan_all rows = Ok xs → Forall (λ y, passkeys c !! y.1 = Some y.2 ∧ pk_user y.2 = u) rows →
  Forall (λ x, ∃ row, stored_as c u x row) xs.
Proof.
  intros H Hr. revert xs H. induction Hr as [|[i r] rows [H1 H2] _ IH]; intros xs; cbn [scan_all]; [intros [= <-]; constructor|].
  intros (x & Hx & (xs' & Hxs & [= <-])%res_bind_Ok_inv)%res_bind_Ok_inv. constructor; [|by apply IH]. exists r. by eapply scan_row.
Qed.
Lemma listed_rows c u xs : (ListPasskeyCredentials u c).1 = Ok xs → Forall (λ x, ∃ row, stored_as c u x row) xs.
Proof.
  unfold ListPasskeyCredentials, mbind, stm_bind, lift, gets, id. destruct (normalizeID u) as [i|] eqn:E; [|done]. rewrite (normalizeID_id _ _ E). cbn.
  intros H. eapply scan_rows; [exact H|]. rewrite merge_sort_Permutation. apply Forall_forall. intros [cid r] Hin%elem_of_map_to_list.
  by apply map_lookup_filter_Some in Hin.
Qed.
End Rows.

(** * The key behind a passkey *)
Section Login.
Context `{L : ControlLib} `{P : !PasskeyLib L} `{K : KDFLib} `{D : AuthDeps} `{W : !WebAuthn L} (cfg : config).
Abbreviation inv := (keys_inv (c_custody cfg)).

(** As for passwords: a PRF output does not open a stored envelope to another key. *)
Definition genuine_prf (k : keyring) (c : control) (prf : list Z) : Prop := ∀ cid row e v d dek,
  passkeys c !! cid = Some row → decodePasskeyEnvelope (pk_envelope row) = Ok e → k !! pk_user row = Some (v, d) →
  UnwrapWithPasskey e prf (MkContext (pk_user row) v) = Ok dek → dek = d.

Lemma dek_storeless x e u v i now : storeless (passkey_dek cfg x e u v i now).
Proof.
  unfold passkey_dek. destruct (in_custody e); [done|]. destruct (uses_prf e i); [done|]. destruct (negb _); [|done].
  apply storeless_bind; [apply unwrapVault_storeless|done].
Qed.
Lemma passkey_dek_key k x e u v i now s dek s' row : inv k (store s) → genuine_prf k (store s) (fl_PRFResult i) →
  genuine_password k (store s) (fl_Password i) → stored_as (store s) u e row → (LookupVaultID u (store s)).1 = Ok v →
  passkey_dek cfg x e u v i now s = (Ok dek, s') → k !! u = Some (v, dek).
Proof.
  intros Hinv Hprf Hpw [Hrow Hu Ho _ He] Hv. destruct (vault_of cfg k (store s) u v Hinv Hv) as [d Hk].
  destruct (ki_pk _ _ _ Hinv _ _ Hrow) as (v' & d' & Hk' & Hg). rewrite Hu, Hk in Hk'. injection Hk' as <- <-.
  unfold passkey_dek. destruct (in_custody e) eqn:Hc.
  - unfold in_custody in Hc. apply bool_decide_eq_true in Hc. destruct He as [(_ & E & _)|(Hm & E & _)]; [by rewrite E in Hc|].
    destruct Hg as [?|(e' & E' & Hg)]; [done|]. rewrite E in E'. injection E' as <-. rewrite Ho.
    destruct Hg as [[_ Hg]|[Hkind _]]; [|by rewrite Hc in Hkind]. rewrite Hu in Hg. rewrite Hg. by intros [= <- _].
  - destruct (uses_prf e i) eqn:Hp.
    + unfold uses_prf in Hp. apply andb_true_iff in Hp as [_ Hp%negb_true_iff]. destruct He as [(_ & _ & E)|(_ & E & _)]; [congruence|].
      intros Hd. unfold lift in Hd. destruct (UnwrapWithPasskey _ _ _) as [dek'|] eqn:Eu; [|done]. injection Hd as -> _.
      assert (dek = d) as ->; [|done]. apply (Hprf (pkc_ID e) row (pkc_VaultEnvelope e) v d dek); rewrite ?Hu; done.
    + destruct (negb _); [|done]. intros ([dek' v'] & s1 & (cr & H1 & H2 & H3)%unwrapVault_Ok & [= <- _])%bind_Ok_inv. cbn.
      rewrite Hv in H2. injection H2 as <-. by eapply password_key.
Qed.

(** ** Statements before the session is opened *)
Definition calm {A} (m : aop A) : Prop := ∀ s, dstate (m s).2 = dstate s.
Lemma calm_on_store {A} (m : cop A) : calm (on_store m). Proof. intros s. unfold on_store. by destruct (m (store s)). Qed.
Lemma calm_on_throttle {A} (m : throttle_op A) : calm (on_throttle m). Proof. intros s. unfold on_throttle. by destruct (m (throttles s)). Qed.
Lemma calm_ret {A} (a : A) : calm (mret a). Proof. done. Qed.
Lemma calm_fail {A} e : calm (fail e : aop A). Proof. done. Qed.
Lemma calm_lift {A} (r : res aerr A) : calm (lift r). Proof. done. Qed.
Lemma calm_require b e : calm (require b e). Proof. done. Qed.
Lemma calm_unwrap e p c : calm (unwrap_password e p c). Proof. done. Qed.
Lemma calm_dummy p : calm (runDummyPasswordWork cfg p). Proof. done. Qed.
Lemma calm_release : calm releaseKDF. Proof. done. Qed.
Lemma calm_try {A} (m : aop A) : calm m → calm (try m). Proof. intros H s. specialize (H s). unfold try. by destruct (m s). Qed.
Lemma calm_bind {A B} (m : aop A) (f : A → aop B) : calm m → (∀ a, calm (f a)) → calm (m ≫= f).
Proof. intros Hm Hf s. specialize (Hm s). unfold mbind, stm_bind. destruct (m s) as [[a|e] s']; cbn in *; [by rewrite Hf|done]. Qed.
Lemma calm_slot {A} (m : aop A) : calm m → calm (deferred release_slot m). Proof. intros H s. specialize (H s). unfold deferred. by destruct (m s). Qed.
Lemma calm_reserve x : calm (reserveKDF cfg x).
Proof. intros s. unfold reserveKDF, mbind, stm_bind, require, lift, ensure, gets, modify, id. destruct x; [done|]. cbn. by destruct (kdf s <? c_slots cfg). Qed.
Create HintDb calm.
#[local] Hint Resolve calm_on_store calm_on_throttle calm_ret calm_fail calm_lift calm_require calm_unwrap calm_dummy calm_release calm_try calm_slot calm_reserve : calm.
Ltac calm_auto := repeat lazymatch goal with
  | |- calm (_ ≫= _) => apply calm_bind; [|intros ?]
  | |- calm (match ?x with _ => _ end) => destruct x
  | |- _ => solve [eauto with calm]
  end.
Lemma calm_refuse k t : calm (refuse_throttled k t). Proof. unfold refuse_throttled, checkThrottle. calm_auto. Qed.
Lemma calm_record k t : calm (recordLoginFailure k t). Proof. unfold recordLoginFailure. calm_auto. Qed.
Lemma calm_clear k : calm (clearLoginFailures k). Proof. unfold clearLoginFailures. calm_auto. Qed.
#[local] Hint Resolve calm_refuse calm_record calm_clear : calm.
Lemma calm_reject {A} k t : calm (reject k t : aop A). Proof. unfold reject. calm_auto. Qed.
Lemma calm_run_dummy x p : calm (runDummyPassword cfg x p). Proof. unfold runDummyPassword. calm_auto. Qed.
#[local] Hint Resolve calm_reject calm_run_dummy : calm.
Lemma calm_unwrapVault x u p t : calm (unwrapVaultWithPassword cfg x u p t). Proof. unfold unwrapVaultWithPassword. calm_auto. Qed.
#[local] Hint Resolve calm_unwrapVault : calm.
Lemma calm_dek x e u v i now : calm (passkey_dek cfg x e u v i now). Proof. unfold passkey_dek. calm_auto. Qed.
Lemma calm_use e c now b : calm (record_use e c now b). Proof. unfold record_use. calm_auto. Qed.
Lemma calm_load u : calm (loadPasskeyUser u). Proof. unfold loadPasskeyUser. calm_auto. Qed.
#[local] Hint Resolve calm_dek calm_use calm_load : calm.
Lemma calm_otherwise {A} (m : aop A) e : calm m → calm (otherwise m e). Proof. intros H. unfold otherwise. calm_auto. Qed.
#[local] Hint Resolve calm_otherwise : calm.
Lemma calm_conclude {A} key now b (r : res aerr A) : calm (conclude key now b r). Proof. unfold conclude. calm_auto. Qed.
#[local] Hint Resolve calm_conclude : calm.
Lemma calm_conclude_bound {A} key now b (r : res aerr A) : calm (conclude_bound key now b r). Proof. unfold conclude_bound. calm_auto. Qed.
Lemma calm_key x kind e u v i now : calm (assertion_key cfg x kind e u v i now). Proof. unfold assertion_key. calm_auto. Qed.
#[local] Hint Resolve calm_key : calm.

Lemma otherwise_Ok {A} (m : aop A) e s a s' : otherwise m e s = (Ok a, s') → m s = (Ok a, s').
Proof. unfold otherwise. rewrite try_bind_run. destruct (m s) as [[] ?]; [by intros [= <- <-]|done]. Qed.
Lemma load_Ok u s w xs s' : loadPasskeyUser u s = (Ok (w, xs), s') → s' = s ∧ (GetUser u (store s)).1 = Ok (wa_user w) ∧
  (ListPasskeyCredentials u (store s)).1 = Ok xs ∧ wa_credentials w = pkc_Credential <$> xs.
Proof.
  unfold loadPasskeyUser. rewrite bind_read by apply reads_GetUser. destruct (GetUser u (store s)).1 as [user|]; [|done].
  rewrite bind_read by apply reads_ListPasskeyCredentials. destruct (ListPasskeyCredentials u (store s)).1 as [l|]; [|done]. by intros [= <- <- <-].
Qed.
Lemma lift_library_Ok {A} (o : option A) e (s : auth) a s' : lift (from_library o e) s = (Ok a, s') → o = Some a ∧ s' = s.
Proof. unfold lift. destruct o; by intros [= -> <-]. Qed.
Lemma concluded_Ok {A} key now b (r : res aerr A) s a s' : conclude_bound key now b r s = (Ok a, s') → r = Ok a.
Proof.
  intros H. pose proof (conclude_bound_answer key now b r s) as Ha. rewrite H in Ha. destruct r as [a'|]; [|done].
  unfold conclude_bound in H. case_bool_decide; [unfold lift in H; congruence|]. unfold conclude in H. apply bind_Ok_inv in H as ([] & ? & _ & [= <- _]). done.
Qed.

(** The credential that signed, as the store had it. *)
Record signer (c : control) (u : string) (user : UserSummary) (creds : list Credential) (updated : Credential) (expected : PasskeyCredential)
    (v : string) : Prop := {
  sg_user : (GetUser u c).1 = Ok user;
  sg_active : us_State user = UserActive;
  sg_row : ∃ row, stored_as c u expected row;
  sg_creds : creds = pkc_Credential <$> (match (ListPasskeyCredentials u c).1 with Ok xs => xs | Err _ => [] end);
  sg_id : pkc_ID expected = Credential_ID updated;
  sg_clone : CloneWarning updated = false;
  sg_vault : (LookupVaultID u c).1 = Ok v
}.
Lemma signed_Ok c parsed clock s user updated expected v s' :
  signed_record c parsed clock s = (Ok (user, updated, expected, v), s') →
  s' = s ∧ ∃ creds, signer (store s) (cm_UserID c) user creds updated expected v ∧ ValidateLogin (WAUser _ user creds) (cm_Session c) parsed clock = Some updated.
Proof.
  unfold signed_record. intros ([w xs] & s1 & (-> & Hu & Hl & Hc)%load_Ok & Hrun)%bind_Ok_inv.
  apply bind_Ok_inv in Hrun as ([] & s2 & [Ha%bool_decide_eq_true ->]%require_Ok & Hrun).
  apply bind_Ok_inv in Hrun as (up & s3 & [Hv ->]%lift_library_Ok & Hrun). apply bind_Ok_inv in Hrun as ([] & s4 & [Hcl%negb_true_iff ->]%require_Ok & Hrun).
  apply bind_Ok_inv in Hrun as (ex & s5 & [He ->]%lift_library_Ok & Hrun). rewrite bind_read in Hrun by apply reads_LookupVaultID.
  destruct (LookupVaultID (cm_UserID c) (store s)).1 as [vid|] eqn:Ev; [|done]. injection Hrun as <- <- <- <- <-. split; [done|]. exists (wa_credentials w).
  destruct (list_find _ xs) as [[j y]|] eqn:Ef; [|done]. injection He as ->. apply list_find_Some in Ef as (Hj & Hid & _).
  split; [|by destruct w]. pose proof (listed_rows _ _ _ Hl) as Hrows. rewrite Forall_forall in Hrows.
  constructor; try done; [apply Hrows; by eapply list_elem_of_lookup_2|by rewrite Hl].
Qed.

Lemma bind_storeless {A B} (m : aop A) (f : A → aop B) s b s' : storeless m → (m ≫= f) s = (Ok b, s') → ∃ a t, f a t = (Ok b, s') ∧ store t = store s.
Proof. intros Hm (a & t & Ha & Hf)%bind_Ok_inv. exists a, t. split; [done|]. specialize (Hm s). by rewrite Ha in Hm. Qed.
Lemma on_error_Ok {A} lock (m : aop A) s a s' : unlock_on_error lock m s = (Ok a, s') → m s = (Ok a, s').
Proof. unfold unlock_on_error. destruct (m s) as [[] ?]; [done|done]. Qed.
Lemma calm_Ok {A} (m : aop A) s a s' : calm m → m s = (Ok a, s') → dstate s' = dstate s.
Proof. intros H E. specialize (H s). by rewrite E in H. Qed.

Lemma lock_Ok lock s s' : lockAccount lock s = (Ok tt, s') → s' = set_locks ({[lock]} ∪ locks s) s.
Proof.
  unfold lockAccount. intros (t & s1 & [= <- <-] & ([] & s2 & [_ ->]%require_Ok & [= <-])%bind_Ok_inv)%bind_Ok_inv. done.
Qed.
Lemma checks_Ok u c input lock s parsed s' : (parsed ← assertion_checks u c input; lockAccount lock;; mret parsed) s = (Ok parsed, s') →
  cm_UserID c ≠ "" ∧ (u ≠ "" → cm_UserID c = u) ∧ ParseCredentialRequestResponseBytes (fl_CredentialJSON input) = Some parsed ∧
  store s' = store s ∧ dstate s' = dstate s.
Proof.
  intros (p & s1 & Hc & Hl)%bind_Ok_inv. apply bind_Ok_inv in Hl as ([] & s2 & Hl & [= -> <-]). unfold assertion_checks in Hc.
  apply bind_Ok_inv in Hc as ([] & s3 & [H1%negb_true_iff ->]%require_Ok & Hc). apply bind_Ok_inv in Hc as ([] & s4 & [H2 ->]%require_Ok & [Hp ->]%lift_library_Ok).
  apply orb_false_iff in H1 as [H1%bool_decide_eq_false _]. split_and!; [done| |done|..].
  - intros Hu. apply orb_true_iff in H2 as [?%bool_decide_eq_true|?%bool_decide_eq_true]; [congruence|done].
  - by apply lock_Ok in Hl as ->.
  - by apply lock_Ok in Hl as ->.
Qed.

Lemma validate_Ok x u kind c input now clock b s user v dek s' : validate_ceremony cfg x u kind c input now clock b s = (Ok (user, v, dek), s') →
  dstate s' = dstate s ∧ cm_UserID c ≠ "" ∧ (u ≠ "" → cm_UserID c = u) ∧
  ∃ parsed creds updated expected t t', ParseCredentialRequestResponseBytes (fl_CredentialJSON input) = Some parsed ∧
    signer (store s) (cm_UserID c) user creds updated expected v ∧ ValidateLogin (WAUser _ user creds) (cm_Session c) parsed clock = Some updated ∧
    store t = store s ∧ assertion_key cfg x kind expected (cm_UserID c) v input now t = (Ok dek, t').
Proof.
  unfold validate_ceremony. set (throttle := if bool_decide _ then _ else _).
  assert (storeless throttle ∧ calm throttle) as [Hst Hca] by (unfold throttle; case_bool_decide; [done|split; [apply storeless_refuse|apply calm_refuse]]).
  intros ([] & s1 & H1 & Hrun)%bind_Ok_inv. pose proof (Hst s) as E1. rewrite H1 in E1. cbn [snd] in E1. pose proof (calm_Ok _ _ _ _ Hca H1) as D1.
  cbv zeta in Hrun. rewrite try_bind_run in Hrun. destruct ((parsed ← assertion_checks u c input; lockAccount (user_lock (cm_UserID c));; mret parsed) s1) as [[parsed|e] s2] eqn:H2;
    [|by apply concluded_Ok in Hrun].
  apply checks_Ok in H2 as (Hne & Hu & Hp & E2 & D2). rewrite try_bind_run in Hrun.
  destruct (unlock_on_error _ (signed_record c parsed clock) s2) as [[[[[user' updated] expected] v']|e] s3] eqn:H3; [|by apply concluded_Ok in Hrun].
  apply on_error_Ok, signed_Ok in H3 as (-> & creds & Hs & Hval). rewrite try_bind_run in Hrun. 
  match type of Hrun with context [unlock_on_error ?l ?m s2] => destruct (unlock_on_error l m s2) as [r s4] eqn:H4 end.
  pose proof (calm_Ok _ _ _ _ (calm_conclude_bound _ _ _ _) Hrun) as D4. apply concluded_Ok in Hrun as ->. apply on_error_Ok in H4.
  apply bind_Ok_inv in H4 as (dek' & s5 & H5 & H6). apply bind_Ok_inv in H6 as ([] & s6 & H6 & [= -> -> -> ->]).
  pose proof (calm_Ok _ _ _ _ (calm_key _ _ _ _ _ _ _) H5) as D5. pose proof (calm_Ok _ _ _ _ (calm_use _ _ _ _) H6) as D6.
  split_and!; [congruence|done|done|]. exists parsed, creds, updated, expected, s2, s5. rewrite <-E1, <-E2. by split_and!.
Qed.

(** The library accepted the assertion for this ceremony. *)
Definition accepted_assertion (discoverable : bool) (c : passkeyCeremony) (input : FinishPasskeyLoginInput) (clock : Z) (i : string) (updated : Credential) : Prop :=
  ∃ parsed, ParseCredentialRequestResponseBytes (fl_CredentialJSON input) = Some parsed ∧ CloneWarning updated = false ∧
    if discoverable then of_bytes (Response_UserHandle parsed) = i ∧ ∃ handler, ValidatePasskeyLogin handler (cm_Session c) parsed clock = Some updated
    else cm_UserID c = i ∧ ∃ user, us_ID (wa_user user) = i ∧ ValidateLogin user (cm_Session c) parsed clock = Some updated.
Definition finish_login (discoverable : bool) := if discoverable then FinishDiscoverablePasskeyLogin cfg else FinishPasskeyLogin cfg.
Definition login_kind (discoverable : bool) : string := if discoverable then passkeyCeremonyDiscoverableLogin else passkeyCeremonyLogin.

(** What the two ways to finish have in common: the signer's key opens the session. *)
Definition opened_with (discoverable : bool) (c : passkeyCeremony) (x : bool) (input : FinishPasskeyLoginInput) (now clock : Z) (b : auth)
    (session : opened) (b' : auth) : Prop :=
  ∃ i user updated expected v dek row t t', accepted_assertion discoverable c input clock i updated ∧ (GetUser i (store b)).1 = Ok user ∧
    us_State user = UserActive ∧ stored_as (store b) i expected row ∧ pkc_ID expected = Credential_ID updated ∧ (LookupVaultID i (store b)).1 = Ok v ∧
    store t = store b ∧ passkey_dek cfg x expected i v input now t = (Ok dek, t') ∧
    OpenSession user v dek (dstate b) = (Ok (Some session), dstate b').

Lemma open_session_Ok user v dek s session s' : open_session user v dek s = (Ok session, s') → OpenSession user v dek (dstate s) = (Ok (Some session), dstate s').
Proof.
  unfold open_session, mbind, stm_bind, gets, modify, id. cbn. destruct (OpenSession user v dek (dstate s)) as [[[y|]|e] d]; cbn; try done. by intros [= <- <-].
Qed.

Lemma by_address_Ok x input now env s session s' : FinishPasskeyLogin cfg x input now env s = (Ok session, s') →
  ∃ c, ceremonies s !! fl_CeremonyID input = Some c ∧ cm_Kind c = passkeyCeremonyLogin ∧ cm_ClientKey c = fl_ClientKey input ∧ pe_clock env <= Expires (cm_Session c) ∧
    ceremonies s' = delete (fl_CeremonyID input) (ceremonies s) ∧ opened_with false c x input now (pe_clock env) (base s) session (base s').
Proof.
  unfold FinishPasskeyLogin. intros ([] & s1 & [_ ->]%require_Ok & ([c' [[user v] dek]] & s2 & Hv & (b' & Ho & ->)%on_auth_Ok)%bind_Ok_inv)%bind_Ok_inv.
  unfold validatePasskeyAssertion in Hv. apply bind_Ok_inv in Hv as (c & s3 & Ht & (y & s4 & (b1 & Hv & ->)%on_auth_Ok & [= <- -> <-])%bind_Ok_inv).
  destruct (takePasskeyCeremony _ _ _ _ s) as [[c1|] t1] eqn:Et; [|done]. injection Ht as -> ->. apply take_Ok in Et as (Hc & Hk & Hck & Hexp & ->).
  exists c. split_and!; try done. cbn [base] in *. apply validate_Ok in Hv as (Hd & Hne & _ & parsed & creds & updated & expected & t & t' & Hp & Hs & Hval & Hst & Hkey).
  destruct Hs as [Su Sa [row Sr] Sc Si Scl Sv]. unfold assertion_key in Hkey. cbn in Hkey. apply otherwise_Ok in Hkey.
  exists (cm_UserID c), user, updated, expected, v, dek, row, t, t'. split_and!; try done.
  - exists parsed. split_and!; try done. exists (WAUser _ user creds). split; [|done]. cbn. pose proof Su as Su'. revert Su'. unfold GetUser, select_user, mbind, stm_bind, lift, gets, id.
    destruct (normalizeID (cm_UserID c)) as [i|] eqn:En; [|done]. rewrite (normalizeID_id _ _ En). cbn. destruct (users (store (base s)) !! cm_UserID c); [|done]. by intros [= <-].
  - rewrite <-Hd. unfold deferred in Ho. destruct ((require (length dek =? 32)%nat ERawKey;; open_session user v dek) b1) as [r b2] eqn:E2. injection Ho as -> <-.
    apply bind_Ok_inv in E2 as ([] & b3 & [_ ->]%require_Ok & Hopen). exact (open_session_Ok _ _ _ _ _ _ Hopen).
Qed.

Lemma discoverable_signer c u w xs parsed clock s updated expected v s' :
  discoverable_record c u w xs parsed clock s = (Ok (updated, expected, v), s') → (ListPasskeyCredentials u (store s)).1 = Ok xs →
  s' = s ∧ (∃ row, stored_as (store s) u expected row) ∧ pkc_ID expected = Credential_ID updated ∧ CloneWarning updated = false ∧
  (LookupVaultID u (store s)).1 = Ok v ∧ ∃ handler, ValidatePasskeyLogin handler (cm_Session c) parsed clock = Some updated.
Proof.
  unfold discoverable_record. intros (ex & s1 & [He ->]%lift_library_Ok & Hrun)%bind_Ok_inv Hl.
  apply bind_Ok_inv in Hrun as (up & s2 & [Hv ->]%lift_library_Ok & Hrun). apply bind_Ok_inv in Hrun as ([] & s3 & [H ->]%require_Ok & Hrun).
  apply andb_true_iff in H as [Hc%negb_true_iff Hid%bool_decide_eq_true]. rewrite bind_read in Hrun by apply reads_LookupVaultID.
  destruct (LookupVaultID u (store s)).1 as [vid|] eqn:Ev; [|done]. injection Hrun as <- <- <- <-.
  destruct (list_find _ xs) as [[j y]|] eqn:Ef; [|done]. injection He as ->. apply list_find_Some in Ef as (Hj & _ & _).
  pose proof (listed_rows _ _ _ Hl) as Hrows. rewrite Forall_forall in Hrows. split_and!; try done; [apply Hrows; by eapply list_elem_of_lookup_2|by eexists].
Qed.

Lemma discoverable_Ok x input now env s session s' : FinishDiscoverablePasskeyLogin cfg x input now env s = (Ok session, s') →
  ∃ c, ceremonies s !! fl_CeremonyID input = Some c ∧ cm_Kind c = passkeyCeremonyDiscoverableLogin ∧ cm_ClientKey c = fl_ClientKey input ∧
    pe_clock env <= Expires (cm_Session c) ∧
    ceremonies s' = delete (fl_CeremonyID input) (ceremonies s) ∧ opened_with true c x input now (pe_clock env) (base s) session (base s').
Proof.
  unfold FinishDiscoverablePasskeyLogin. intros ([] & s1 & [_ ->]%require_Ok & (c & s2 & Ht & Hrun)%bind_Ok_inv)%bind_Ok_inv.
  destruct (takePasskeyCeremony _ _ _ _ s) as [[c1|] t1] eqn:Et; [|done]. injection Ht as -> ->. apply take_Ok in Et as (Hc & Hk & Hck & Hexp & ->).
  apply bind_Ok_inv in Hrun as ([] & s3 & [_ ->]%require_Ok & Hrun). apply bind_Ok_inv in Hrun as (parsed & s4 & Hp & Hrun).
  unfold lift in Hp. destruct (ParseCredentialRequestResponseBytes _) as [p|] eqn:Ep; [|done]. injection Hp as -> <-.
  apply bind_Ok_inv in Hrun as ([] & s5 & [_ ->]%require_Ok & (b' & Hrun & ->)%on_auth_Ok). exists c. split_and!; try done. cbn [base] in *.
  unfold locked in Hrun. apply bind_Ok_inv in Hrun as ([] & b1 & ->%lock_Ok & Hrun). unfold deferred in Hrun.
  destruct (finish_discoverable _ _ _ _ _ _ _ _ _) as [r b2] eqn:E. injection Hrun as -> <-. set (i := of_bytes (Response_UserHandle parsed)) in *.
  unfold finish_discoverable in E. apply bind_Ok_inv in E as ([w xs] & b3 & (-> & Hu & Hl & _)%otherwise_Ok%load_Ok & E).
  apply bind_Ok_inv in E as ([] & b4 & [Ha%bool_decide_eq_true ->]%require_Ok & E). cbv zeta in E. apply bind_Ok_inv in E as ([] & b5 & Hth & E).
  pose proof (storeless_refuse (LoginThrottleKey (us_Email (wa_user w))) now (set_locks ({[user_lock i]} ∪ locks (base s)) (base s))) as E5. rewrite Hth in E5. cbn in E5, Hu, Hl.
  pose proof (calm_Ok _ _ _ _ (calm_refuse _ _) Hth) as D5. cbn in D5. rewrite try_bind_run in E.
  destruct (discoverable_record c i w xs parsed (pe_clock env) b5) as [[[[updated expected] v]|e] b6] eqn:Hr.
  2: { unfold conclude in E. destruct e; try done. by rewrite reject_run in E. }
  apply discoverable_signer in Hr as (-> & (row & Srow) & Sid & Scl & Sv & Sh); [|by rewrite E5]. rewrite E5 in Srow, Sv. rewrite try_bind_run in E.
  destruct (discoverable_session cfg x (wa_user w) i updated expected v input now b5) as [r b7] eqn:Hses.
  pose proof (calm_Ok _ _ _ _ (calm_conclude _ _ _ _) E) as D7. assert (r = Ok session) as ->.
  { unfold conclude in E. destruct r as [y|e]; [apply bind_Ok_inv in E as (? & ? & _ & [= -> _]); done|]. destruct e; try done. destruct (passwordChecked expected input); [done|].
    by rewrite reject_run in E. }
  unfold discoverable_session in Hses. apply bind_Ok_inv in Hses as (dek & b8 & Hdek%otherwise_Ok & Hses). apply bind_Ok_inv in Hses as ([] & b9 & [_ ->]%require_Ok & Hses).
  apply bind_Ok_inv in Hses as ([] & b10 & Huse & Hopen%open_session_Ok).
  pose proof (calm_Ok _ _ _ _ (calm_dek _ _ _ _ _ _) Hdek) as D8. pose proof (calm_Ok _ _ _ _ (calm_use _ _ _ _) Huse) as D10.
  exists i, (wa_user w), updated, expected, v, dek, row, b5, b8. split_and!; try done.
  - exists parsed. done.
  - change (dstate (unlock (user_lock i) b2)) with (dstate b2). rewrite D7, <-D5, <-D8, <-D10. exact Hopen.
Qed.

(** C11. A login with a passkey opens the session with the user's own vault key. When a
    login by address or without one succeeds, its ceremony was of that kind, of this client
    and not expired, and is gone; the library accepted the assertion for it; the credential
    that signed is stored for the user, whose account is active; and the session is opened
    with the key this user's vault has. *)
Theorem passkey_login_opens_own_vault k discoverable x input now env s session s' :
  inv k (store (base s)) → genuine_prf k (store (base s)) (fl_PRFResult input) → genuine_password k (store (base s)) (fl_Password input) →
  finish_login discoverable x input now env s = (Ok session, s') →
  ∃ c i u row updated dek,
    ceremonies s !! fl_CeremonyID input = Some c ∧ cm_Kind c = login_kind discoverable ∧ cm_ClientKey c = fl_ClientKey input ∧
    pe_clock env <= Expires (cm_Session c) ∧ ceremonies s' = delete (fl_CeremonyID input) (ceremonies s) ∧
    accepted_assertion discoverable c input (pe_clock env) i updated ∧
    users (store (base s)) !! i = Some u ∧ u_state u = UserActive ∧
    passkeys (store (base s)) !! Credential_ID updated = Some row ∧ pk_user row = i ∧
    k !! i = Some (u_vault u, dek) ∧
    OpenSession (scanUserSummary i u) (u_vault u) dek (dstate (base s)) = (Ok (Some session), dstate (base s')).
Proof.
  intros Hinv Hprf Hpw Hrun.
  assert (∃ c, ceremonies s !! fl_CeremonyID input = Some c ∧ cm_Kind c = login_kind discoverable ∧ cm_ClientKey c = fl_ClientKey input ∧
    pe_clock env <= Expires (cm_Session c) ∧
    ceremonies s' = delete (fl_CeremonyID input) (ceremonies s) ∧ opened_with discoverable c x input now (pe_clock env) (base s) session (base s')) as (c & Hc & Hk & Hck & Hexp & Hdel & Ho).
  { destruct discoverable; [by apply discoverable_Ok|by apply by_address_Ok]. }
  destruct Ho as (i & user & updated & expected & v & dek & row & t & t' & Hacc & Hu & Ha & Hst & Hid & Hv & Et & Hdek & Hopen).
  assert (k !! i = Some (v, dek)) as Hkey by (eapply (passkey_dek_key k x expected i v input now t); rewrite ?Et; done).
  assert (∃ u, users (store (base s)) !! i = Some u) as [u Hrow].
  { revert Hu. unfold GetUser, select_user, mbind, stm_bind, lift, gets, id. destruct (normalizeID i) as [i'|] eqn:En; [|done]. rewrite (normalizeID_id _ _ En). cbn.
    destruct (users (store (base s)) !! i); [eauto|done]. }
  destruct (user_row _ _ _ _ Hrow Hu) as [-> _]. rewrite (vault_row _ _ _ _ Hrow Hv) in *.
  exists c, i, u, row, updated, dek. destruct Hst as [Srow Suser _ _ _]. rewrite Hid in Srow. by split_and!.
Qed.
End Login.

(** * No passkey call loses a key *)
Section Keep.
Context `{L : ControlLib} `{P : !PasskeyLib L} `{J : !EnvelopeJSON L P} `{K : KDFLib} `{D : AuthDeps} `{W : !WebAuthn L} (cfg : config).
Abbreviation held := (accounts_ok (c_custody cfg)).
Section Ring.
Context (S : secrets) (k : keyring) (Hring : ring_bytes k).

Lemma CreatePasskey_safe input t :
  pi_PasswordRequired input = false →
  (∀ j, encodePasskeyEnvelope (pi_VaultEnvelope input) = Ok j → pk_good (c_custody cfg) k (pi_UserID input) (Credential_ID (pi_Credential input)) j) →
  safe (c_custody cfg) S k (CreatePasskeyCredential input t).
Proof.
  intros Hreq Hj. unfold CreatePasskeyCredential. apply lift_use. intros [[c json] envelope] Hp.
  assert (pkc_UserID c = pi_UserID input ∧ pkc_ID c = Credential_ID (pi_Credential input) ∧ encodePasskeyEnvelope (pi_VaultEnvelope input) = Ok envelope) as (Eu & Ei & Ee).
  { unfold preparePasskeyCredential in Hp. rewrite Hreq in Hp. apply res_bind_Ok_inv in Hp as (u & Hu%normalizeID_id & Hp). subst u.
    do 5 (apply res_bind_Ok_inv in Hp as (? & _ & Hp)). apply res_bind_Ok_inv in Hp as (e & He & [= <- _ <-]). done. }
  specialize (Hj _ Ee). cbv zeta. apply safe_bind; [|intros _; eauto with safe]. apply safe_immediate. do 3 (apply safe_bind; [eauto with safe|intros ?]).
  intros s []. constructor; cbn; try done. intros cid r. destruct (decide (pkc_ID c = cid)) as [<-|]; [|rewrite lookup_insert_ne by done; apply sc_pk].
  rewrite lookup_insert_eq. intros [= <-]. cbn. by rewrite Eu, Ei.
Qed.
Lemma RecordUse_safe e c t b : safe (c_custody cfg) S k (RecordSuccessfulPasskeyUse e c t b).
Proof.
  unfold RecordSuccessfulPasskeyUse. apply safe_bind; [eauto with safe|intros _]. apply safe_bind; [eauto with safe|intros json]. cbv zeta.
  apply safe_immediate. apply safe_bind; [by apply safe_update_passkey|intros _]. apply safe_bind; [eauto with safe|intros ?].
  apply safe_bind; [eauto with safe|intros _]. safe_auto.
Qed.

Lemma wrapped_prf i v d prf cid r e j : k !! i = Some (v, d) → fresh_bytes r → WrapWithPasskey d prf (MkContext i v) r = Ok e →
  encodePasskeyEnvelope e = Ok j → pk_good (c_custody cfg) k i cid j.
Proof.
  intros Hi Hr (Hu & _ & Hkind & Hb)%WrapWithPasskey_spec He. specialize (Hb Hr (proj2 (Hring i _ Hi))). unfold encodePasskeyEnvelope in He. rewrite Hkind in He.
  case_bool_decide; [|done]. exists v, d. split; [done|]. right. exists e. split; [|right; by eauto]. eapply stored_passkey; [done|done|by left|done].
Qed.
Lemma wrapped_server i v d cid r e j : k !! i = Some (v, d) → fresh_bytes r → WrapWithServerPasskey d (c_custody cfg) (MkContext i v) cid r = Ok e →
  encodePasskeyEnvelope e = Ok j → pk_good (c_custody cfg) k i cid j.
Proof.
  intros Hi Hr He Hj. pose proof He as (_ & _ & Hkind & _)%WrapWithServerPasskey_spec. unfold encodePasskeyEnvelope in Hj. rewrite Hkind in Hj.
  case_bool_decide; [|done]. by eapply wrapped_custody.
Qed.

Lemma storeless_read {A} (m : cop A) : reads m → storeless (on_store m).
Proof. intros H s. by rewrite on_store_read. Qed.
Lemma storeless_load u : storeless (loadPasskeyUser u).
Proof.
  unfold loadPasskeyUser. apply storeless_bind; [apply storeless_read, reads_GetUser|intros ?].
  apply storeless_bind; [apply storeless_read, reads_ListPasskeyCredentials|done].
Qed.
Lemma storeless_otherwise {A} (m : aop A) e : storeless m → storeless (otherwise m e).
Proof. intros H. unfold otherwise. apply storeless_bind; [by apply storeless_try|]. by intros []. Qed.
Lemma storeless_active u : storeless (active_passkey_user u).
Proof. unfold active_passkey_user. apply storeless_bind; [apply storeless_otherwise, storeless_load|intros ?]. by apply storeless_bind. Qed.

Lemma persist_safe u name prf salt c key now r : (∀ d v d', key = Some d → k !! u = Some (v, d') → d = d') → fresh_bytes r →
  asafe cfg S k (persistVerifiedPasskey cfg u name prf salt c key now r).
Proof.
  intros Hkey Hr s Hs. unfold persistVerifiedPasskey. destruct key as [dek|]; [|done]. rewrite bind_read by apply reads_LookupVaultID.
  destruct (LookupVaultID u (store s)).1 as [v|] eqn:Ev; [|done]. destruct (vault_of cfg k (store s) u v (accounts_keys _ _ _ _ Hs) Ev) as [d Hk]. assert (dek = d) as -> by by eapply Hkey.
  revert s Hs Ev. enough (∀ e, (∀ j, encodePasskeyEnvelope e = Ok j → pk_good (c_custody cfg) k u (Credential_ID c) j) →
    asafe cfg S k (record ← on_store (CreatePasskeyCredential (PasskeyInput u name c salt e false) now); mret (passkey_summary record))) as Hcreate.
  { intros s Hs _. cbv zeta. destruct (negb _).
    - unfold mbind, stm_bind, lift. destruct (WrapWithPasskey d prf (MkContext u v) r) as [e|] eqn:Ew; [|done]. cbn [map_err].
      destruct (UnwrapWithPasskey e prf (MkContext u v)); [|done]. case_bool_decide; [|done]. apply Hcreate; [|done]. intros j. by eapply wrapped_prf.
    - unfold mbind, stm_bind, lift. destruct (WrapWithServerPasskey d (c_custody cfg) (MkContext u v) (Credential_ID c) r) as [e|] eqn:Ew; [|done]. cbn [map_err].
      apply Hcreate; [|done]. intros j. by eapply wrapped_server. }
  intros e He. apply asafe_bind; [apply asafe_on_store; [by apply CreatePasskey_safe|apply CreatePasskeyCredential_keeps]|]. intros x. by apply asafe_storeless.
Qed.

Lemma asafe_locked {A} key (m : aop A) : asafe cfg S k m → asafe cfg S k (locked key m).
Proof. intros Hm s Hs. apply (sa_locked (λ _, held S k) (store s) key m Hs); [|done]. by apply sa_of. Qed.
Lemma asafe_deferred {A} key (m : aop A) : asafe cfg S k m → asafe cfg S k (deferred (unlock key) m).
Proof. intros Hm s Hs. specialize (Hm s Hs). unfold deferred. by destruct (m s). Qed.
Lemma asafe_on_error {A} key (m : aop A) : asafe cfg S k m → asafe cfg S k (unlock_on_error key m).
Proof. intros Hm s Hs. specialize (Hm s Hs). unfold unlock_on_error. by destruct (m s) as [[] ?]. Qed.
Lemma use_safe e c now b : asafe cfg S k (record_use e c now b).
Proof.
  unfold record_use. apply asafe_bind; [apply asafe_try, asafe_on_store; [apply RecordUse_safe|apply RecordSuccessfulPasskeyUse_keeps]|]. intros [[]|e']; [by apply asafe_storeless|]. case_aerr e'; by apply asafe_storeless.
Qed.
Lemma storeless_conclude {A} key now b (r : res aerr A) : storeless (conclude key now b r).
Proof. unfold conclude. destruct r as [a|e]; [by apply storeless_bind; [apply storeless_clear|]|]. destruct e; try done. destruct b; [done|apply storeless_reject]. Qed.
Lemma storeless_conclude_bound {A} key now b (r : res aerr A) : storeless (conclude_bound key now b r).
Proof. unfold conclude_bound. case_bool_decide; [done|apply storeless_conclude]. Qed.

Lemma validate_safe x u kind c input now clock b : asafe cfg S k (validate_ceremony cfg x u kind c input now clock b).
Proof.
  unfold validate_ceremony. apply asafe_bind; [case_bool_decide; apply asafe_storeless; [done|apply storeless_refuse]|intros _]. cbv zeta.
  apply asafe_bind.
  { apply asafe_try, asafe_storeless. apply storeless_bind; [by unfold assertion_checks; repeat (apply storeless_bind; [done|intros ?])|intros p].
    apply storeless_bind; [|done]. intros s. unfold lockAccount, mbind, stm_bind, gets, require, lift, ensure, modify, id. cbn. by case_bool_decide. }
  intros [parsed|e]; [|apply asafe_storeless, storeless_conclude_bound]. apply asafe_bind.
  { apply asafe_try, asafe_on_error, asafe_storeless. unfold signed_record. apply storeless_bind; [apply storeless_load|intros [w xs]].
    repeat (apply storeless_bind; [done|intros ?]). apply storeless_bind; [apply storeless_read, reads_LookupVaultID|done]. }
  intros [[[[user updated] expected] v]|e]; [|apply asafe_storeless, storeless_conclude_bound]. apply asafe_bind; [|intros r; apply asafe_storeless, storeless_conclude_bound].
  apply asafe_try, asafe_on_error. apply asafe_bind; [|intros dek; apply asafe_bind; [apply use_safe|intros _; by apply asafe_storeless]].
  apply asafe_storeless. unfold assertion_key. case_bool_decide; [done|]. apply storeless_otherwise, dek_storeless.
Qed.
Lemma discoverable_safe x c u p input now clock : asafe cfg S k (finish_discoverable cfg x c u p input now clock).
Proof.
  unfold finish_discoverable. apply asafe_bind; [apply asafe_storeless, storeless_otherwise, storeless_load|intros [w xs]].
  apply asafe_bind; [by apply asafe_storeless|intros _]. cbv zeta. apply asafe_bind; [apply asafe_storeless, storeless_refuse|intros _].
  apply asafe_bind.
  { apply asafe_try, asafe_storeless. unfold discoverable_record. repeat (apply storeless_bind; [done|intros ?]). apply storeless_bind; [apply storeless_read, reads_LookupVaultID|done]. }
  intros [[[updated expected] v]|e]; [|apply asafe_storeless, storeless_conclude]. apply asafe_bind; [|intros r; apply asafe_storeless, storeless_conclude].
  apply asafe_try. unfold discoverable_session. apply asafe_bind; [apply asafe_storeless, storeless_otherwise, dek_storeless|intros dek].
  apply asafe_bind; [by apply asafe_storeless|intros _]. apply asafe_bind; [apply use_safe|intros _]. apply asafe_storeless, storeless_open.
Qed.
Lemma storeless_identity email : storeless (private_identity cfg email).
Proof.
  unfold private_identity. apply storeless_bind; [apply storeless_try, storeless_read, reads_GetUserByEmail|intros u]. apply storeless_bind.
  - destruct u as [|e]; [done|]. by case_aerr e.
  - intros found. apply storeless_bind; [apply storeless_read, reads_ListPasskeyCredentials|done].
Qed.

(** At the level of the ceremonies. *)
Definition psafe {A} (m : pop A) : Prop := ∀ s, held S k (store (base s)) → held S k (store (base (m s).2)).
Lemma psafe_on_auth {A} (m : aop A) : asafe cfg S k m → psafe (on_auth m).
Proof. intros H s Hs. specialize (H (base s) Hs). unfold on_auth. by destruct (m (base s)). Qed.
Lemma psafe_same {A} (m : pop A) : (∀ s, base (m s).2 = base s) → psafe m. Proof. intros H s. by rewrite H. Qed.
Lemma psafe_bind {A B} (m : pop A) (f : A → pop B) : psafe m → (∀ a, psafe (f a)) → psafe (m ≫= f).
Proof. intros Hm Hf s Hs. specialize (Hm s Hs). unfold mbind, stm_bind. destruct (m s) as [[a|e] s']; cbn in *; [by apply Hf|done]. Qed.
Lemma psafe_take i kind client env : psafe (takePasskeyCeremony i kind client env).
Proof.
  apply psafe_same. intros s. unfold takePasskeyCeremony. destruct (_ || _); [done|]. unfold mbind, stm_bind, gets, modify, id. cbn.
  destruct (ceremonies s !! i); [by destruct (_ && _)|done].
Qed.
Lemma psafe_renamed i kind client env e : psafe (λ s,
  match takePasskeyCeremony i kind client env s with (Ok c, s') => (Ok c, s') | (Err _, s') => (Err e, s') end).
Proof. intros s. pose proof (psafe_take i kind client env s) as H. by destruct (takePasskeyCeremony i kind client env s) as [[] ?]. Qed.
Lemma psafe_store c env : psafe (storePasskeyCeremony c env).
Proof.
  apply psafe_same. intros s. unfold storePasskeyCeremony, mbind, stm_bind, lift, random. destruct (pe_id env) as [raw|]; [|done].
  destruct (length raw =? 32)%nat; [|done]. unfold gets, modify, require, lift, ensure, id. cbn. by destruct (_ <? _).
Qed.
Lemma psafe_lift {A} (r : res aerr A) : psafe (lift r). Proof. by apply psafe_same. Qed.
Lemma psafe_require b e : psafe (require b e). Proof. by apply psafe_same. Qed.
Lemma psafe_ret {A} (a : A) : psafe (mret a). Proof. by apply psafe_same. Qed.
Lemma psafe_storeless {A} (m : aop A) : storeless m → psafe (on_auth m). Proof. intros. by apply psafe_on_auth, asafe_storeless. Qed.
Lemma psafe_private x email ck env : psafe (beginPrivatePasskeyLogin cfg x email ck env).
Proof.
  intros s Hs. assert (psafe (begin_private cfg email ck env)) as H.
  { unfold begin_private. apply psafe_bind; [apply psafe_lift|intros ?]. cbv zeta. apply psafe_bind; [apply psafe_storeless, storeless_refuse|intros _].
    apply psafe_bind; [apply psafe_storeless, storeless_identity|intros [u rs]]. do 2 (apply psafe_bind; [apply psafe_require|intros _]).
    apply psafe_bind; [apply psafe_lift|intros [asr ses]]. apply psafe_bind; [apply psafe_store|intros ?; apply psafe_ret]. }
  specialize (H s Hs). unfold beginPrivatePasskeyLogin. by destruct (begin_private cfg email ck env s).
Qed.
Create HintDb psafe.
#[local] Hint Resolve psafe_take psafe_renamed psafe_store psafe_lift psafe_require psafe_ret psafe_private : psafe.
#[local] Hint Resolve asafe_locked asafe_deferred validate_safe discoverable_safe : psafe.
#[local] Hint Resolve storeless_load storeless_otherwise storeless_refuse storeless_active storeless_open : psafe.
Ltac psafe_auto := repeat lazymatch goal with
  | |- psafe (_ ≫= _) => apply psafe_bind; [|intros ?]
  | |- psafe (match ?x with _ => _ end) => destruct x
  | |- psafe (on_auth (locked _ _)) => apply psafe_on_auth, asafe_locked
  | |- psafe (on_auth (deferred _ _)) => apply psafe_on_auth, asafe_deferred
  | |- psafe (on_auth (validate_ceremony _ _ _ _ _ _ _ _ _)) => apply psafe_on_auth, validate_safe
  | |- psafe (on_auth _) => apply psafe_storeless
  | |- _ => solve [eauto with psafe]
  end.

(** New random bytes, and the key of the session's own vault. *)
Definition fresh_passkey (c : passkey_call) : Prop :=
  match c with PFinishRegistration _ _ _ _ _ _ r | PFinishRegistrationAssertion _ _ _ _ _ _ r => fresh_bytes r | PAccount a => fresh_call a | _ => True end.
Definition genuine_passkey (c : control) (p : passkey_call) : Prop :=
  match p with
  | PFinishRegistration u _ key _ _ _ _ | PFinishRegistrationAssertion u _ key _ _ _ _ => ∀ d v d', key = Some d → k !! u = Some (v, d') → d = d'
  | PAccount a => genuine_call k c a
  | _ => True
  end.
Lemma passkey_safe c s : (∀ a, c ≠ PAccount a) → fresh_passkey c → genuine_passkey (store (base s)) c → psafe (passkey_op cfg c).
Proof.
  intros Hc Hf Hg. destruct c; [by destruct (Hc c)|..]; cbn [passkey_op fresh_passkey genuine_passkey] in *; unfold pignore, BeginPasskeyRegistration,
    FinishPasskeyRegistration, BeginPasskeyRegistrationAssertion, FinishPasskeyRegistrationAssertion, BeginPasskeyLogin, BeginDiscoverablePasskeyLogin,
    BeginPasskeyReauthentication, beginPasskeyAssertion, FinishPasskeyLogin, FinishPasskeyReauthentication, FinishDiscoverablePasskeyLogin,
    validatePasskeyAssertion, take_own, ready; psafe_auto.
  - apply asafe_bind; [apply asafe_storeless, storeless_active|intros w]. apply asafe_bind; [by apply asafe_storeless|intros cr]. by apply persist_safe.
  - apply asafe_storeless. apply storeless_bind; [apply storeless_active|intros w]. apply storeless_bind; [done|intros cr]. apply storeless_bind; [done|by intros []].
  - apply asafe_bind; [apply asafe_storeless, storeless_active|intros w]. apply asafe_bind; [by apply asafe_storeless|intros cr].
    apply asafe_bind; [by apply asafe_storeless|intros _]. by apply persist_safe.
  - apply asafe_storeless. apply storeless_bind; [done|intros _; apply storeless_open].
  - by apply asafe_storeless.
Qed.
End Ring.

(** The secrets after a call, by its answer. *)
Definition secrets_then (S : secrets) (c : control) (p : passkey_call) (r : res aerr unit) : secrets :=
  match p, r with PAccount a, Ok _ => secrets_after S c a | _, _ => S end.

(** C5. No call of the service loses a vault key, and secrets open exactly as they are set.
    Suppose each account's current password opens its password credential, its current
    recovery secret opens its active recovery envelope, and both give the one key of its
    vault, as its passkeys do unless they still need the password. Then this is so after any
    account or passkey call, whatever it answers: every account keeps its vault and its key
    and a new account has got one; the current secrets are those from before, except that a
    successful change of password makes the new password current, a successful rotation the
    new recovery secret, a completed reset both for the user of the ticket, and a new
    account starts with the secrets it was given. *)
Theorem vault_keys_survive S k c s r s' :
  ring_bytes k → held S k (store (base s)) → fresh_passkey c → genuine_passkey k (store (base s)) c →
  passkey_op cfg c s = (r, s') →
  let S' := secrets_then S (store (base s)) c r in
  ∃ k', k ⊆ k' ∧ ring_bytes k' ∧ held S' k' (store (base s')) ∧
    ∀ i u, users (store (base s')) !! i = Some u → ∃ d, k' !! i = Some (u_vault u, d) ∧
      (∃ row e, passwords (store (base s')) !! i = Some row ∧ decodeKeyEnvelope (pw_json row) KindPassword = Ok e ∧
         UnwrapWithPassword e (password_of S' i) (MkContext i (u_vault u)) = Ok d) ∧
      (∃ rid row e, recoveries (store (base s')) !! rid = Some row ∧ rv_user row = i ∧ rv_state row = RecoveryEnvelopeActive ∧
         decodeKeyEnvelope (rv_json row) KindRecovery = Ok e ∧ UnwrapWithRecovery e (recovery_of S' i) (MkContext i (u_vault u)) = Ok d).
Proof.
  intros Hk Hs Hf Hg Hrun S'. assert (∃ k', k ⊆ k' ∧ ring_bytes k' ∧ held S' k' (store (base s'))) as (k' & H1 & H2 & H3).
  2: { exists k'. split_and!; try done. intros i u. by apply (accounts_open (c_custody cfg)). }
  assert ((∃ a, c = PAccount a) ∨ (∀ a, c ≠ PAccount a)) as [[a ->]|Hc] by (destruct c; [left; by eexists|right; done..]).
  - destruct (call_grown cfg S k (store (base s)) a Hk Hs Hf Hg (base s) eq_refl) as (k' & H). exists k'. cbn [passkey_op] in Hrun. unfold on_auth in Hrun.
    destruct (auth_op cfg a (base s)) as [r' b']. injection Hrun as <- <-. by destruct r'.
  - exists k. split_and!; [done|done|]. assert (S' = S) as -> by (unfold S'; destruct c; [by destruct (Hc c)|done..]).
    pose proof (passkey_safe S k Hk c s Hc Hf Hg s Hs) as H. by rewrite Hrun in H.
Qed.
End Keep.
