(* ===== verification/AuthRuns.v ===== *)
(** A concrete account service: a codec for stored envelopes, stand-ins for the key
    derivations, the session and vault managers behind the service, and a run of it from
    the first administrator to a changed password. *)
From Stdlib Require Import ZArith Lia.
From stdpp Require Import base gmap list strings sorting.
From S2P Require Import Prelude GoText Validation Tags Images Throttle Totp Crypto Control ControlInv KeyEnvelope Vault Session ServerAuth ServerAuthInv ServerAuthKeys AuthSessions.
Open Scope Z_scope.

Module AuthRuns.

(** * A codec of envelopes *)
Definition kind_code (kind : string) : Z :=
  if bool_decide (kind = KindPassword) then 112 else if bool_decide (kind = KindRecovery) then 114
  else if bool_decide (kind = KindPasskey) then 107 else if bool_decide (kind = KindServerPasskey) then 115 else 63.
Definition code_kind (c : Z) : option string :=
  if c =? 112 then Some KindPassword else if c =? 114 then Some KindRecovery
  else if c =? 107 then Some KindPasskey else if c =? 115 then Some KindServerPasskey else None.
Definition fields (e : Envelope) : list Z := env_Salt e ++ env_Nonce e ++ env_Ciphertext e ++ env_Verifier e.
Definition marshal (e : Envelope) : string := of_bytes ([123; kind_code (env_Kind e)] ++ fields e).
Definition unmarshal_kind (s : string) : option string := match bytes s with _ :: c :: _ => code_kind c | _ => None end.
Definition unmarshal (s : string) : option Envelope :=
  match bytes s with
  | _ :: c :: l =>
    kind ← code_kind c;
    let pw := bool_decide (kind = KindPassword) in
    Some (MkEnvelope 1 kind (if pw then "argon2id-hkdf-sha256" else "hkdf-sha256") (if pw then DefaultProfile else Profile 0 0 0)
      (take 32 l) (take 12 (drop 32 l)) (take 48 (drop 44 l)) (drop 92 l))
  | _ => None
  end.

#[export] Instance run_lib : ControlLib := {|
  ToLower := λ s, s; ParseAddress := Some; MarshalEnvelope := marshal; UnmarshalEnvelope := unmarshal;
  Credential := list Z; Credential_ID := λ c, c; Credential_PublicKey := λ c, c; MarshalCredential := λ c, Some (of_bytes ([123; 125] ++ c))
|}.
#[export] Instance run_credentials : PasskeyLib run_lib := {| UnmarshalCredential := λ s, Some (drop 2 (bytes s)); UnmarshalKind := unmarshal_kind |}.

Lemma marshal_bytes e : envelope_bytes e → bytes (marshal e) = 123 :: kind_code (env_Kind e) :: fields e.
Proof.
  intros [H1 H2 H3 H4]. apply bytes_of_bytes. constructor; [by unfold is_byte|]. constructor.
  - unfold kind_code, is_byte. repeat case_bool_decide; lia.
  - repeat (apply Forall_app_2; [done|]). done.
Qed.
Lemma validated_kind e kind : validateKeyEnvelope e kind = Ok tt → env_Kind e = kind ∧ code_kind (kind_code kind) = Some kind.
Proof.
  unfold validateKeyEnvelope, ensure. intros H. destruct ((env_Version e =? 1) && bool_decide (env_Kind e = kind)) eqn:Hk; [|done].
  apply andb_true_iff in Hk as [_ Hk%bool_decide_eq_true]. split; [done|].
  destruct (length (env_Salt e) =? 32)%nat; [|done]. destruct (length (env_Nonce e) =? 12)%nat; [|done].
  destruct (length (env_Ciphertext e) =? 48)%nat; [|done]. cbn [mbind res_bind] in H.
  destruct (decide (kind = KindPassword)) as [->|N1]; [done|]. destruct (decide (kind = KindRecovery)) as [->|N2]; [done|].
  destruct (decide (kind = KindPasskey)) as [->|N3]; [done|]. destruct (decide (kind = KindServerPasskey)) as [->|N4]; [done|].
  by rewrite !bool_decide_eq_false_2 in H by naive_solver.
Qed.
Lemma unmarshal_marshal e kind : envelope_bytes e → validateKeyEnvelope e kind = Ok tt → unmarshal (marshal e) = Some e.
Proof.
  intros Hb Hv. unfold unmarshal. rewrite marshal_bytes by done. destruct (validated_kind e kind Hv) as [-> ->]. cbn [mbind option_bind].
  unfold validateKeyEnvelope, ensure in Hv. destruct e as [v k kdf pr sa no ct ve]. unfold fields. cbn [env_Version env_Kind env_KDF env_Profile env_Salt env_Nonce env_Ciphertext env_Verifier] in *.
  destruct ((v =? 1) && bool_decide (k = kind)) eqn:E1; [|done]. destruct (length sa =? 32)%nat eqn:E2; [|done].
  destruct (length no =? 12)%nat eqn:E3; [|done]. destruct (length ct =? 48)%nat eqn:E4; [|done].
  apply andb_true_iff in E1 as [->%Z.eqb_eq ->%bool_decide_eq_true]. apply Nat.eqb_eq in E2, E3, E4.
  rewrite (take_app_length' sa) by done. rewrite (drop_app_length' sa) by done. rewrite (take_app_length' no) by done.
  assert (drop 44 (sa ++ no ++ ct ++ ve) = ct ++ ve) as ->.
  { rewrite app_assoc. apply drop_app_length'. rewrite length_app. lia. }
  assert (drop 92 (sa ++ no ++ ct ++ ve) = ve) as ->.
  { rewrite !app_assoc. apply drop_app_length'. rewrite !length_app. lia. }
  rewrite (take_app_length' ct) by done. cbn [mbind res_bind] in Hv. do 2 f_equal.
  - destruct (bool_decide (kind = KindPassword)); repeat case_bool_decide; naive_solver.
  - destruct (bool_decide (kind = KindPassword)); repeat case_bool_decide; naive_solver.
Qed.

#[export] Instance run_json : EnvelopeJSON run_lib run_credentials.
Proof.
  split.
  - intros e. cbn [MarshalEnvelope run_lib]. unfold marshal, len. cbn. lia.
  - apply unmarshal_marshal.
  - intros e kind Hb Hv. change (unmarshal_kind (marshal e) = Some (env_Kind e)). unfold unmarshal_kind. rewrite marshal_bytes by done. by destruct (validated_kind e kind Hv) as [-> ->].
Qed.

(** * The service *)
#[export] Instance run_kdf : KDFLib := {|
  IDKey password salt iterations memory parallelism := hmac_sha256 password (salt ++ [iterations; memory; parallelism]);
  HKDF secret salt info := hmac_sha256 secret (salt ++ info);
  HKDF_length secret salt info := hmac_sha256_length secret (salt ++ info);
  HKDF_bytes secret salt info := hmac_sha256_range secret (salt ++ info)
|}.
#[export] Instance run_deps : AuthDeps := Managers.managers Managers.acquire_alone map_to_list.
#[export] Instance run_laws : AuthDepsLaws run_deps := Managers.managers_laws Managers.acquire_alone map_to_list.

Definition run_time (k : Z) : Z := (1700000000000 + k) * 1000000.
Definition run_entropy (b : Z) : entropy := (Some (replicate 32 b), Some (replicate 12 b)).
Definition setup_token : list Z := bytes "setup-token-0123456789-0123456789-01".
Definition run_dependencies : Dependencies := Deps (Some (Sum256 setup_token)) 0 true (replicate 32 21) (replicate 32 22).
Definition no_config : config := Config None zero_envelope 0 false [] [].
Definition run_service : res aerr config := NewService run_dependencies (Some (seqZ 1 32)) (run_entropy 9).
Definition run_config : config := match run_service with Ok c => c | Err _ => no_config end.

Definition run_world : Managers.world :=
  Managers.World NewManager (Session.NewSessionManagerWithConfig Session.DefaultSessionConfig)
    [((Some (replicate 32 1), Some (replicate 32 2)), run_time 10); ((Some (replicate 32 3), Some (replicate 32 4)), run_time 30)].
Definition run_start : auth := Auth run_deps empty_control empty_throttle run_world ∅ 0 0.

Definition password1 : list Z := bytes "correct horse battery".
Definition password2 : list Z := bytes "another long password".
Definition run_account : account_entropy :=
  AccountEntropy (Some (replicate 16 5)) (Some (replicate 16 6)) (Some (seqZ 11 32)) (run_entropy 7) (run_entropy 8) "recov-0000000001".
Definition run_bootstrap : auth_call :=
  KBootstrap false (BootInput setup_token "admin@example.org" "Admin" password1 (replicate 32 77)) (run_time 0) run_account.
Definition admin_id : string := url_encode (replicate 16 5).
Definition vault_id : string := url_encode (replicate 16 6).
Definition run_login (p : list Z) (k : Z) : auth_call := KLogin false "admin@example.org" p (run_time k) (λ _, run_entropy 10).
Definition run_change : auth_call := KChangePassword false admin_id password1 password2 true (run_time 20) (run_entropy 12).

(** The answers of a sequence of calls, and the state they lead to. *)
Fixpoint run_calls (cs : list auth_call) (s : auth) : list (res aerr unit) * auth :=
  match cs with
  | [] => ([], s)
  | c :: cs' => let '(r, s1) := auth_op run_config c s in let '(rs, s2) := run_calls cs' s1 in (r :: rs, s2)
  end.
Definition run_admin : auth := (run_calls [run_bootstrap] run_start).2.

(** The administrator is created once, a wrong password is refused, the right one opens a
    session, and the change of password ends it and replaces the old password: the new one
    is accepted and only finds the vault still draining. *)
Example account_run :
  (run_calls [run_bootstrap; run_bootstrap; run_login password2 5; run_login password1 10; run_change; run_login password1 25;
     run_login password2 30] run_start).1 =
  [Ok tt; Err ErrAlreadySetup; Err ErrInvalidCredentials; Ok tt; Ok tt; Err ErrInvalidCredentials; Err (ADeps (DVault ErrDraining))].
Proof. vm_compute. reflexivity. Qed.

(** * The theorems on this run *)
Ltac evaluate := match goal with |- ?P => apply (bool_decide_unpack P); vm_compute; exact I end.
Ltac byte_list := vm_compute; repeat (constructor; [split; [discriminate|reflexivity]|]); constructor.

Lemma run_service_ok : run_service = Ok run_config.
Proof. unfold run_config. destruct run_service as [c|e] eqn:E; [reflexivity|]. exfalso. assert (is_ok run_service = true) as H by (vm_compute; reflexivity). by rewrite E in H. Qed.

(** A wrong password, by evaluation. *)
Definition opens_vault (c : control) (email : string) (p : list Z) : bool :=
  match account_of c email with
  | None => false
  | Some u =>
    match (GetUser u c).1 with
    | Err _ => false
    | Ok user =>
      match (GetPasswordCredential (us_ID user) c).1, (LookupVaultID (us_ID user) c).1 with
      | Ok cr, Ok v => is_ok (UnwrapWithPassword (pc_Envelope cr) p (MkContext (us_ID user) v))
      | _, _ => false
      end
    end
  end.
Lemma opens_vault_spec c email p : opens_vault c email p = false → ¬ right_password c email p.
Proof.
  unfold opens_vault. intros H (u & user & cr & v & dek & Ha & [Hu _ _ Hc Hv Hd]). by rewrite Ha, Hu, Hc, Hv, Hd in H.
Qed.

Lemma run_lower_stable (t : string) : ToLower (TrimSpace (ToLower (TrimSpace t))) = ToLower (TrimSpace t).
Proof. cbn. apply TrimSpace_idemp. Qed.
Lemma run_admin_readable : account_readable (store run_admin) "admin@example.org".
Proof.
  intros u Hu. assert (account_of (store run_admin) "admin@example.org" = Some admin_id) as E by (vm_compute; reflexivity).
  rewrite E in Hu. injection Hu as <-. split; [vm_compute; reflexivity|].
  destruct (users (store run_admin) !! admin_id) as [row|] eqn:Hrow; [|vm_compute in Hrow; discriminate Hrow]. exists row. split; [reflexivity|]. intros _.
  assert (u_vault row = vault_id) as ->.
  { assert (u_vault <$> users (store run_admin) !! admin_id = Some vault_id) as H by (vm_compute; reflexivity). rewrite Hrow in H. by injection H. }
  split; [vm_compute; reflexivity|].
  destruct (passwords (store run_admin) !! admin_id) as [pw|] eqn:Hpw; [|vm_compute in Hpw; discriminate Hpw].
  destruct (decodeKeyEnvelope (pw_json pw) KindPassword) as [e|] eqn:He; [exists pw, e; split; [reflexivity|exact He]|]. exfalso.
  assert ((λ pw, is_ok (decodeKeyEnvelope (pw_json pw) KindPassword)) <$> passwords (store run_admin) !! admin_id = Some true) as H by (vm_compute; reflexivity).
  rewrite Hpw in H. cbn [fmap option_fmap option_map] in H. rewrite He in H. discriminate H.
Qed.

(** A wrong password for the administrator is refused like an address nobody has. *)
Lemma login_refused_uniformly_witness :
  (∃ s', Login run_config false "admin@example.org" password2 (run_time 5) (λ _, run_entropy 10) run_admin = (Err ErrInvalidCredentials, s') ∧
     refused (LoginThrottleKey "admin@example.org") (run_time 5) run_admin s') ∧
  (∃ s', Login run_config false "nobody@example.org" password2 (run_time 5) (λ _, run_entropy 10) run_admin = (Err ErrInvalidCredentials, s') ∧
     refused (LoginThrottleKey "nobody@example.org") (run_time 5) run_admin s').
Proof.
  split.
  - pose proof (login_refused_uniformly run_config run_dependencies (Some (seqZ 1 32)) (run_entropy 9) false "admin@example.org" "admin@example.org"
      password2 (run_time 5) (λ _, run_entropy 10) run_admin run_lower_stable run_service_ok) as H. cbv zeta in H.
    assert (login_gate run_config false "admin@example.org" (run_time 5) (throttles run_admin) (kdf run_admin) (locks run_admin) = None) as G by (vm_compute; reflexivity).
    rewrite G in H. apply H.
    + vm_compute. reflexivity.
    + apply opens_vault_spec. vm_compute. reflexivity.
    + apply run_admin_readable.
    + intros u _. assert (locks run_admin = ∅) as -> by (vm_compute; reflexivity). apply not_elem_of_empty.
  - pose proof (login_refused_uniformly run_config run_dependencies (Some (seqZ 1 32)) (run_entropy 9) false "nobody@example.org" "nobody@example.org"
      password2 (run_time 5) (λ _, run_entropy 10) run_admin run_lower_stable run_service_ok) as H. cbv zeta in H.
    assert (login_gate run_config false "nobody@example.org" (run_time 5) (throttles run_admin) (kdf run_admin) (locks run_admin) = None) as G by (vm_compute; reflexivity).
    assert (account_of (store run_admin) "nobody@example.org" = None) as N by (vm_compute; reflexivity).
    rewrite G in H. apply H.
    + vm_compute. reflexivity.
    + apply opens_vault_spec. vm_compute. reflexivity.
    + intros u Hu. rewrite N in Hu. discriminate Hu.
    + intros u Hu. rewrite N in Hu. discriminate Hu.
Defined.

Lemma login_opens_own_vault_witness :
  ∃ session s' dek, Login run_config false "admin@example.org" password1 (run_time 10) (λ _, run_entropy 10) run_admin = (Ok session, s') ∧
    (∃ u, OpenSession (scanUserSummary admin_id u) (u_vault u) dek (dstate run_admin) = (Ok (Some session), dstate s')).
Proof.
  destruct (Login run_config false "admin@example.org" password1 (run_time 10) (λ _, run_entropy 10) run_admin) as [[session|e] s'] eqn:E.
  - destruct (login_opens_own_vault run_config run_dependencies (Some (seqZ 1 32)) (run_entropy 9) false "admin@example.org" password1 (run_time 10)
      (λ _, run_entropy 10) run_admin session s' run_service_ok E) as (email & i & u & row & env & dek & He & _ & Hi & _ & _ & _ & _ & _ & Ho & _).
    exists session, s', dek. split; [reflexivity|]. exists u. injection He as <-. assert (i = admin_id) as ->; [|exact Ho].
    assert (account_of (store run_admin) (TrimSpace "admin@example.org") = Some admin_id) as H by (vm_compute; reflexivity).
    rewrite H in Hi. injection Hi as <-. reflexivity.
  - exfalso. assert (is_ok (Login run_config false "admin@example.org" password1 (run_time 10) (λ _, run_entropy 10) run_admin).1 = true) as H
      by (vm_compute; reflexivity).
    rewrite E in H. discriminate H.
Defined.

(** Five guesses lock the address; the sixth is verified after the lock. *)
Definition run_guess (k : Z) : login_request := LoginRequest false "admin@example.org" password2 (run_time k) (λ _, run_entropy 10).
Definition run_guesses : list login_request := run_guess <$> [0; 1; 2; 3; 4; 5; 900004].

Lemma login_guesses_bounded_witness :
  ∃ a b, verified_guesses run_config "admin@example.org" run_admin run_guesses !! 0%nat = Some a ∧
    verified_guesses run_config "admin@example.org" run_admin run_guesses !! 5%nat = Some b ∧ 15 * Minute - 1000000 < (b - a) * 1000000.
Proof.
  assert (verified_guesses run_config "admin@example.org" run_admin run_guesses !! 0%nat = Some 1700000000000) as Ha by (vm_compute; reflexivity).
  assert (verified_guesses run_config "admin@example.org" run_admin run_guesses !! 5%nat = Some 1700000900004) as Hb by (vm_compute; reflexivity).
  exists 1700000000000, 1700000900004. split; [exact Ha|]. split; [exact Hb|].
  refine (login_guesses_bounded run_config run_dependencies (Some (seqZ 1 32)) (run_entropy 9) "admin@example.org" run_admin run_guesses 0 _ _
    run_service_ok _ _ _ Ha Hb).
  - assert (throttle (throttles run_admin) = ∅) as H by (vm_compute; reflexivity). unfold table_ok. rewrite H. apply map_Forall_empty.
  - repeat (constructor; [|repeat (constructor; [vm_compute; discriminate|]); constructor]). constructor.
  - apply Forall_fmap, Forall_true. intros k email He. injection He as <-. apply opens_vault_spec. vm_compute. reflexivity.
Defined.

(** ** The vault key of the administrator *)
Definition run_ring : keyring := {[admin_id := (vault_id, seqZ 11 32)]}.
Definition only {K A} `{EqDecision K} (k : K) (l : list (K * A)) : bool := match l with [(k', _)] => bool_decide (k = k') | _ => false end.
Lemma only_lookup {A} (k i : string) (m : gmap string A) x : only k (map_to_list m) = true → m !! i = Some x → i = k.
Proof.
  intros H Hi%elem_of_map_to_list. unfold only in H. destruct (map_to_list m) as [|[k' y] [|]]; try discriminate H.
  apply bool_decide_eq_true in H as ->. apply list_elem_of_singleton in Hi. by injection Hi as -> _.
Qed.
Definition decoded (json kind : string) : Envelope := match decodeKeyEnvelope json kind with Ok e => e | Err _ => no_envelope end.

(** The administrator's password and recovery secret. *)
Definition run_secrets : secrets := Secrets (λ _, password1) (λ _, replicate 32 77).
Lemma fresh_run b : is_byte b → fresh_bytes (run_entropy b).
Proof. intros Hb. split; intros l E; injection E as <-; repeat constructor; apply Hb. Qed.
Lemma run_start_ok : accounts_ok (c_custody run_config) run_secrets ∅ (store run_start).
Proof. split; [|apply control_wf_empty]. split; cbn; [by rewrite !dom_empty_L|intros *; rewrite lookup_empty; discriminate..]. Qed.
Lemma run_admin_wf : control_wf (store run_admin).
Proof.
  destruct (call_grown run_config run_secrets ∅ (store run_start) run_bootstrap (map_Forall_empty _) run_start_ok) with (s := run_start) as (k' & _ & _ & _ & Hwf); [|exact I|reflexivity|].
  - split; [intros l E; injection E as <-; byte_list|]. split; apply fresh_run; done.
  - unfold run_admin. cbn [run_calls]. destruct (auth_op run_config run_bootstrap run_start) as [r s1]. exact Hwf.
Qed.

Lemma run_ring_ok : accounts_ok (c_custody run_config) run_secrets run_ring (store run_admin).
Proof.
  split; [|exact run_admin_wf]. split.
  - evaluate.
  - intros i u Hu. assert (i = admin_id) as -> by (eapply only_lookup; [|exact Hu]; vm_compute; reflexivity). exists (seqZ 11 32).
    assert (u_vault u = vault_id) as ->; [|vm_compute; reflexivity].
    assert (u_vault <$> users (store run_admin) !! admin_id = Some vault_id) as H by (vm_compute; reflexivity). rewrite Hu in H. by injection H.
  - intros i r Hr. assert (i = admin_id) as -> by (eapply only_lookup; [|exact Hr]; vm_compute; reflexivity).
    assert (pw_json r = from_option pw_json "" (passwords (store run_admin) !! admin_id)) as -> by (by rewrite Hr).
    exists vault_id, (seqZ 11 32), (decoded (from_option pw_json "" (passwords (store run_admin) !! admin_id)) KindPassword).
    split_and!; vm_compute; reflexivity.
  - intros i r Hr _. assert (i = "recov-0000000001"%string) as -> by (eapply only_lookup; [|exact Hr]; vm_compute; reflexivity).
    assert (rv_json r = from_option rv_json "" (recoveries (store run_admin) !! "recov-0000000001"%string)) as -> by (by rewrite Hr).
    assert (rv_user r = from_option rv_user "" (recoveries (store run_admin) !! "recov-0000000001"%string)) as -> by (by rewrite Hr).
    exists vault_id, (seqZ 11 32), (decoded (from_option rv_json "" (recoveries (store run_admin) !! "recov-0000000001"%string)) KindRecovery).
    split_and!; vm_compute; reflexivity.
  - intros i r Hr. assert (passkeys (store run_admin) = ∅) as H by (vm_compute; reflexivity). rewrite H, lookup_empty in Hr. discriminate Hr.
Qed.
(** The administrator's password opens nothing but the key. *)
Lemma run_genuine : genuine_password run_ring (store run_admin) password1.
Proof.
  intros i row e v d dek Hrow He Hk Hu. assert (i = admin_id) as -> by (eapply only_lookup; [|exact Hrow]; vm_compute; reflexivity).
  destruct (sc_pw _ _ _ _ (proj1 run_ring_ok) _ _ Hrow) as (v' & d' & e' & Hk' & He' & Hu'). cbn [password_of run_secrets] in Hu'.
  rewrite Hk in Hk'. injection Hk' as <- <-. rewrite He in He'. injection He' as <-. rewrite Hu in Hu'. injection Hu' as ->. reflexivity.
Qed.

Lemma security_change_ends_sessions_witness :
  Managers.has_session admin_id (dstate (run_calls [run_login password1 10] run_admin).2) ∧
  ¬ session_of admin_id (dstate (run_calls [run_login password1 10; run_change] run_admin).2).
Proof.
  split.
  - split; [vm_compute; discriminate|]. exists (Session.EncodeToString (replicate 32 1)). eexists. split; [vm_compute; reflexivity|]. vm_compute. reflexivity.
  - destruct (auth_op run_config run_change (run_calls [run_login password1 10] run_admin).2) as [r s'] eqn:E.
    destruct (security_change_ends_sessions run_config run_change _ r s' eq_refl E) as [_ H].
    assert (r = Ok tt) as ->.
    { assert ((auth_op run_config run_change (run_calls [run_login password1 10] run_admin).2).1 = Ok tt) as H1 by (vm_compute; reflexivity).
      by rewrite E in H1. }
    specialize (H admin_id eq_refl eq_refl).
    assert (∀ c1 c2, (run_calls [c1; c2] run_admin).2 = (auth_op run_config c2 (run_calls [c1] run_admin).2).2) as Hc.
    { intros c1 c2. cbn [run_calls]. destruct (auth_op run_config c1 run_admin) as [r1 s1]. cbn [snd]. by destruct (auth_op run_config c2 s1). }
    rewrite Hc, E. exact H.
Defined.
End AuthRuns.
