(* ===== verification/PasskeyRuns.v ===== *)
(** A concrete WebAuthn library, and a run in which the administrator of [AuthRuns]
    registers a passkey and logs in with it. *)
From Stdlib Require Import ZArith Lia.
From stdpp Require Import base gmap list strings sorting.
From S2P Require Import Prelude GoText Validation Tags Images Throttle Totp Crypto Sha512 Control ControlInv KeyEnvelope Vault Session ServerAuth ServerAuthInv ServerAuthKeys AuthSessions Passkeys PasskeysInv PasskeysKeys AuthRuns.
Import AuthRuns.
Open Scope Z_scope.

Module PasskeyRuns.

(** A session lasts for a minute; a response is the credential's identifier. *)
#[export] Instance run_webauthn : WebAuthn run_lib := {|
  SessionData := list Z * Z;
  Expires := snd;
  restrict_session := λ _ _ s, s;
  Creation := list Z;
  Assertion := list Z * prf_inputs * list (list Z);
  allow_credentials := λ ids a, (a.1, ids);
  ParsedCreation := list Z;
  ParsedAssertion := list Z;
  Response_UserHandle := λ _, bytes admin_id;
  RawID := λ p, p;
  CloneWarning := λ _, false;
  BeginRegistration := λ _ challenge, Some (challenge, (challenge, run_time 60000));
  BeginLogin := λ _ prf challenge, Some ((challenge, prf, []), (challenge, run_time 60000));
  BeginDiscoverableLogin := λ prf challenge, Some ((challenge, prf, []), (challenge, run_time 60000));
  ParseCredentialCreationResponseBytes := Some;
  ParseCredentialRequestResponseBytes := Some;
  CreateCredential := λ _ _ p _, Some p;
  ValidateLogin := λ user _ p _, snd <$> list_find (λ c : list Z, c = p) (wa_credentials user);
  ValidatePasskeyLogin := λ handler _ p _, user ← handler p (bytes admin_id); snd <$> list_find (λ c : list Z, c = p) (wa_credentials user)
|}.

Definition run_env (k b : Z) : passkey_env := PEnv (run_time k) (Some (replicate 32 b)) (replicate 32 (b + 1)).
Definition ceremony_id (b : Z) : string := url_encode (replicate 32 b).
Definition passkey_id : list Z := replicate 16 9.
Definition vault_key : list Z := seqZ 11 32.

Definition begin_registration : passkey_call := PBeginRegistration admin_id "client" "session" (run_env 40 101).
Definition finish_registration : passkey_call :=
  PFinishRegistration admin_id "session" (Some vault_key) (FinishReg (ceremony_id 101) "client" "Key" passkey_id []) (run_time 50) (run_env 50 102) (run_entropy 13).
Definition begin_login : passkey_call := PBeginLogin false "admin@example.org" "client" (run_env 60 103).
Definition login_input (b : Z) : FinishPasskeyLoginInput := FinishLogin (ceremony_id b) "client" passkey_id [] [].
Definition finish_passkey_login : passkey_call := PFinishLogin false (login_input 103) (run_time 70) (run_env 70 104).

Definition start : passkey_state := PState run_admin ∅.
Definition registering : passkey_state := run_passkeys run_config [begin_registration] start.
Definition registered : passkey_state := run_passkeys run_config [begin_registration; finish_registration] start.
Definition logging_in : passkey_state := run_passkeys run_config [begin_login] registered.

(** The registration works once, and the passkey opens the vault. *)
Example passkey_run :
  (passkey_op run_config finish_registration registering).1 = Ok tt ∧
  (passkey_op run_config finish_registration registered).1 = Err ErrPasskeyCeremony ∧
  (passkey_op run_config finish_passkey_login logging_in).1 = Ok tt.
Proof. split_and!; vm_compute; reflexivity. Qed.

Lemma ceremony_single_use_witness :
  accepts run_config finish_registration registering (ceremony_id 101) ∧
  ¬ accepts run_config finish_registration (run_passkeys run_config [finish_registration; begin_login] registering) (ceremony_id 101).
Proof.
  assert (accepts run_config finish_registration registering (ceremony_id 101)) as Ha.
  { eexists _, _, _. split; [reflexivity|]. split; vm_compute; reflexivity. }
  split; [exact Ha|]. apply (ceremony_single_use run_config registering finish_registration [begin_login] finish_registration (ceremony_id 101) Ha).
  constructor; [intros ? ? ? ? ? E; discriminate E|]. constructor; [|constructor].
  intros env kind client owner raw E Er. injection E as <- _ _ _. injection Er as <-. vm_compute. discriminate.
Defined.

Lemma ceremony_origin_witness :
  Z.of_nat (size (ceremonies registering)) <= maxPasskeyCeremonies ∧ ∃ x, started begin_registration (ceremony_id 101) x.
Proof.
  destruct (ceremony_origin run_config start [begin_registration] finish_registration (ceremony_id 101)) as [Hn (_ & _ & _ & x & b & _ & Hb & Hst & _)].
  - reflexivity.
  - eexists _, _, _. split; [reflexivity|]. split; vm_compute; reflexivity.
  - split; [exact Hn|]. exists x. apply list_elem_of_singleton in Hb as ->. exact Hst.
Defined.

Lemma login_begin_hides_accounts_witness :
  ∃ i a s', begin_private run_config "nobody@example.org" "client" (run_env 60 103) registered = (Ok (i, a), s') ∧
  ∃ x, ceremonies s' !! i = Some x ∧
    ∀ y input now env t, ceremonies t !! fl_CeremonyID input = Some x → is_ok (FinishPasskeyLogin run_config y input now env t).1 = false.
Proof.
  assert (is_ok (GetUserByEmail "nobody@example.org" (store (base registered))).1 = false) as Hno by (vm_compute; reflexivity).
  destruct (login_begin_hides_accounts run_config "nobody@example.org" "nobody@example.org" "client" (run_env 60 103) registered) as (s' & Hrun & _ & _ & _ & Hh).
  - apply run_lower_stable.
  - vm_compute. reflexivity.
  - unfold passkeys_readable. destruct (GetUserByEmail "nobody@example.org" (store (base registered))).1; [discriminate Hno|].
    match goal with |- ∀ cid row, ?m !! cid = Some row → pk_user row ≠ ?d => change (map_Forall (λ _ row, pk_user row ≠ d) m) end. evaluate.
  - destruct Hh as (_ & _ & Hx); [intros u Hu; rewrite Hu in Hno; discriminate Hno|].
    set (answer := begin_answer _ _ _ _ _ _) in *.
    assert (is_ok answer = true) as Hok by (vm_compute; reflexivity). destruct answer as [[i a]|e]; [|discriminate Hok].
    exists i, a, s'. split; [exact Hrun|]. exact (Hx i a eq_refl).
Defined.

(** ** The ring through the run *)
Lemma run_ring_bytes : ring_bytes run_ring.
Proof. apply map_Forall_singleton. split; [reflexivity|byte_list]. Qed.
Lemma own_key : ∀ d v d', Some vault_key = Some d → run_ring !! admin_id = Some (v, d') → d = d'.
Proof.
  intros d v d' E H. injection E as <-. assert (run_ring !! admin_id = Some (vault_id, vault_key)) as Hr by (vm_compute; reflexivity).
  rewrite Hr in H. injection H as _ <-. reflexivity.
Qed.
(** A change of password: afterwards the new one opens the administrator's key. *)
Lemma vault_keys_survive_witness :
  ∃ s' k', passkey_op run_config (PAccount run_change) start = (Ok tt, s') ∧ run_ring ⊆ k' ∧
    ∃ u d row e, k' !! admin_id = Some (u_vault u, d) ∧ passwords (store (base s')) !! admin_id = Some row ∧
      decodeKeyEnvelope (pw_json row) KindPassword = Ok e ∧ UnwrapWithPassword e password2 (MkContext admin_id (u_vault u)) = Ok d.
Proof.
  destruct (passkey_op run_config (PAccount run_change) start) as [r s'] eqn:E.
  assert (r = Ok tt) as ->.
  { assert ((passkey_op run_config (PAccount run_change) start).1 = Ok tt) as H by (vm_compute; reflexivity). rewrite E in H. exact H. }
  destruct (vault_keys_survive run_config run_secrets run_ring (PAccount run_change) start (Ok tt) s' run_ring_bytes run_ring_ok) as (k' & Hsub & _ & _ & Hopen).
  - apply fresh_run. split; [discriminate|reflexivity].
  - exact run_genuine.
  - exact E.
  - exists s', k'. split; [reflexivity|]. split; [exact Hsub|].
    assert (is_Some (users (store (base s')) !! admin_id)) as [u Hu].
    { assert (bool_decide (is_Some (users (store (base (passkey_op run_config (PAccount run_change) start).2)) !! admin_id)) = true) as H by (vm_compute; reflexivity).
      apply bool_decide_eq_true in H. rewrite E in H. exact H. }
    destruct (Hopen admin_id u Hu) as (d & Hk & (row & e & Hrow & He & Hun) & _). exists u, d, row, e.
    split; [exact Hk|]. split; [exact Hrow|]. split; [exact He|].
    assert (password_of (secrets_then run_secrets (store (base start)) (PAccount run_change) (Ok tt)) admin_id = password2) as Ep by (vm_compute; reflexivity).
    rewrite Ep in Hun. exact Hun.
Defined.

Lemma logging_in_ring : keys_inv (c_custody run_config) run_ring (store (base logging_in)).
Proof.
  apply (accounts_keys _ run_secrets).
  change (accounts_ok (c_custody run_config) run_secrets run_ring (store (base (passkey_op run_config begin_login (passkey_op run_config finish_registration (passkey_op run_config begin_registration start).2).2).2))).
  apply (passkey_safe run_config run_secrets run_ring run_ring_bytes begin_login start); [done|done|done|].
  apply (passkey_safe run_config run_secrets run_ring run_ring_bytes finish_registration start); [done|apply fresh_run; done|exact own_key|].
  apply (passkey_safe run_config run_secrets run_ring run_ring_bytes begin_registration start); [done|done|done|]. exact run_ring_ok.
Qed.
Lemma no_prf c : genuine_prf run_ring c [].
Proof. intros cid row e v d dek _ _ _ H. exfalso. revert H. unfold UnwrapWithPasskey. destruct (validatePasskeyEnvelope e); done. Qed.
Lemma no_password c : genuine_password run_ring c [].
Proof. intros cid row e v d dek _ _ _ H. exfalso. revert H. unfold UnwrapWithPassword. destruct (validatePasswordEnvelope e); done. Qed.

Lemma passkey_login_opens_own_vault_witness :
  ∃ session s' u, FinishPasskeyLogin run_config false (login_input 103) (run_time 70) (run_env 70 104) logging_in = (Ok session, s') ∧
    run_ring !! admin_id = Some (vault_id, vault_key) ∧
    OpenSession (scanUserSummary admin_id u) (u_vault u) vault_key (dstate (base logging_in)) = (Ok (Some session), dstate (base s')).
Proof.
  destruct (FinishPasskeyLogin run_config false (login_input 103) (run_time 70) (run_env 70 104) logging_in) as [[session|e] s'] eqn:E.
  - destruct (passkey_login_opens_own_vault run_config run_ring false false (login_input 103) (run_time 70) (run_env 70 104) logging_in session s'
      logging_in_ring (no_prf _) (no_password _) E) as (c & i & u & row & updated & dek & _ & _ & _ & _ & _ & _ & Hu & _ & _ & _ & Hk & Ho).
    assert (i = admin_id) as -> by (eapply only_lookup; [|exact Hu]; vm_compute; reflexivity).
    assert (run_ring !! admin_id = Some (vault_id, vault_key)) as Hr by (vm_compute; reflexivity). pose proof Hk as Hk'. rewrite Hr in Hk'. injection Hk' as _ <-.
    exists session, s', u. split; [reflexivity|]. split; [exact Hr|exact Ho].
  - exfalso. assert (is_ok (FinishPasskeyLogin run_config false (login_input 103) (run_time 70) (run_env 70 104) logging_in).1 = true) as H by (vm_compute; reflexivity).
    rewrite E in H. discriminate H.
Defined.
End PasskeyRuns.
