(* ===== verification/Gate.v ===== *)
(** The gate of the multi-user server: cookies, session authentication, CSRF and
    recent-authentication checks ([middleware/session.go], [middleware/csrf.go]) in the
    order of [api/server_router.go].

    A request passes three critical sections of the session manager, one per layer; the
    calls of other requests run between them ([between1], [between2]). A handler is
    reached with the context the layers installed. *)
From Stdlib Require Import ZArith Lia.
From stdpp Require Import base gmap list strings sorting.
From S2P Require Import Prelude GoText Control Vault RateLimit Session.
Import Session.
Open Scope Z_scope.

(** [url.Parse], the Unicode case of [strings.ToLower] and [strings.EqualFold] of the
    standard library; nothing is assumed of them. *)
Record url := Url {
  u_Scheme : string; u_Host : string; u_User : bool; u_Opaque : string; u_Path : string;
  u_RawQuery : string; u_ForceQuery : bool; u_Fragment : string
}.
Class HttpText := {
  url_Parse : string → option url;
  unicode_ToLower : string → string;
  EqualFold : string → string → bool
}.
(** [strings.ToLower]: text of ASCII bytes takes the byte-wise path. *)
Definition lower_byte (b : Z) : Z := if between 65 90 b then b + 32 else b.
Definition ToLower `{!HttpText} (s : string) : string :=
  if forallb (λ b, b <? 128) (bytes s) then of_bytes (lower_byte <$> bytes s) else unicode_ToLower s.

(** * Requests *)
Record cookie := Cookie { c_Name : string; c_Value : string }.
Record http_request := Request {
  r_Method : string;
  r_Path : string;
  r_Host : string;
  r_TLS : bool;
  r_proto : option string;       (** the value [ProxyMiddleware] put into the context *)
  r_Cookies : list cookie;
  r_FetchSite : list string;     (** header values of [Sec-Fetch-Site] *)
  r_Origin : list string;        (** header values of [Origin] *)
  r_CSRF : list string           (** header values of [X-CSRF-Token] *)
}.
Definition line (r : http_request) : request := Req (r_Method r) (r_Path r).

Definition RequestProto (r : http_request) : string :=
  match r_proto r with
  | Some p => if bool_decide (p = "http") || bool_decide (p = "https") then p else if r_TLS r then "https" else "http"
  | None => if r_TLS r then "https" else "http"
  end.

(** * Cookies *)
Definition SessionCookieName : string := "omni_money_session".
Definition SecureSessionCookieName : string := "__Host-omni_money_session".

Definition sessionIDFromRequest (r : http_request) : option string :=
  let expected := if bool_decide (RequestProto r = "https") then SecureSessionCookieName else SessionCookieName in
  match filter (λ c, c_Name c = expected) (r_Cookies r) with
  | [c] => if bool_decide (c_Value c = "") then None else Some (c_Value c)
  | _ => None
  end.

Record set_cookie := SetCookie {
  sc_Name : string; sc_Value : string; sc_Path : string; sc_Expires : option Z; sc_MaxAge : Z;
  sc_HttpOnly : bool; sc_SameSiteStrict : bool; sc_Secure : bool
}.

Definition discardUnexpectedSessionCookie (r : http_request) : list set_cookie :=
  let secure := bool_decide (RequestProto r = "https") in
  let unexpected := if secure then SessionCookieName else SecureSessionCookieName in
  if existsb (λ c, bool_decide (c_Name c = unexpected) && negb (bool_decide (c_Value c = ""))) (r_Cookies r)
  then [SetCookie unexpected "" "/" None (-1) true true secure] else [].

Definition SetSessionCookie (r : http_request) (s : Session.Session) (now : Z) : list set_cookie :=
  if negb (isCanonicalSessionSecret (ID s)) then []
  else
    let secure := bool_decide (RequestProto r = "https") in
    let name := if secure then SecureSessionCookieName else SessionCookieName in
    let maxAge := Z.quot (Sub (ExpiresAt s) now) Second in
    [SetCookie name (ID s) "/" (Some (ExpiresAt s)) (if maxAge <? 1 then 1 else maxAge) true true secure].

Definition ClearSessionCookie (r : http_request) : list set_cookie :=
  [SetCookie SessionCookieName "" "/" (Some 0) (-1) true true (bool_decide (RequestProto r = "https"));
   SetCookie SecureSessionCookieName "" "/" (Some 0) (-1) true true true].

(** * Routes *)
Definition requiresSessionAuth (r : http_request) : bool :=
  if negb (String.prefix "/api/" (r_Path r)) then false
  else if isPublicServerAuthRequest (line r) then false else true.

Definition isSnapshotRestoreRequest (r : http_request) : bool :=
  bool_decide (r_Path r = "/api/snapshots/restore") && bool_decide (r_Method r = "POST").

Definition isLogoutRequest (r : http_request) : bool :=
  bool_decide (r_Path r = "/api/auth/logout") && bool_decide (r_Method r = "POST").

Definition isUnsafeMethod (method : string) : bool :=
  negb (bool_decide (method = "GET") || bool_decide (method = "HEAD") || bool_decide (method = "OPTIONS")).

Definition requiresRecentAuthentication (r : http_request) : bool :=
  let path p := bool_decide (r_Path r = p) in
  let meth m := bool_decide (r_Method r = m) in
  (path "/api/backup_csv" && meth "GET")
  || (path "/api/import_csv" && meth "POST")
  || (path "/api/snapshots/restore" && meth "POST")
  || (path "/api/snapshots" && meth "POST")
  || (path "/api/auth/logout-all" && meth "POST")
  || ((path "/api/auth/password" || path "/api/auth/recovery-code") && meth "POST")
  || (String.prefix "/api/auth/passkeys/" (r_Path r) && meth "DELETE")
  || (String.prefix "/api/admin/" (r_Path r) && isUnsafeMethod (r_Method r))
  || ((path "/api/ai-console/transactions" || path "/api/ai-console/analysis") && meth "POST").

Definition contains (b : Z) (s : string) : bool := existsb (Z.eqb b) (bytes s).

Section Gate.
Context `{!HttpText}.

(** The browser boundary: Fetch Metadata and the Origin header. *)
Definition validBrowserRequestBoundary (r : http_request) : bool :=
  match r_FetchSite r with
  | _ :: _ :: _ => false
  | fs =>
    if match fs with
       | v :: _ => negb (bool_decide (ToLower (TrimSpace v) = "same-origin") || bool_decide (ToLower (TrimSpace v) = "none"))
       | [] => false
       end
    then false
    else
      match r_Origin r with
      | [] => true
      | [o] =>
        if contains 44 o then false
        else match url_Parse (TrimSpace o) with
             | Some u =>
               if bool_decide (u_Scheme u = "") || bool_decide (u_Host u = "") || u_User u || negb (bool_decide (u_Opaque u = ""))
                  || negb (bool_decide (u_Path u = "")) || negb (bool_decide (u_RawQuery u = "")) || u_ForceQuery u
                  || negb (bool_decide (u_Fragment u = ""))
               then false
               else EqualFold (u_Scheme u) (RequestProto r) && EqualFold (u_Host u) (r_Host r)
             | None => false
             end
      | _ => false
      end
  end.

(** * Layers *)
(** What the layers installed in the request context. *)
Record context := Context { x_session : option Session.Session; x_user : option UserSummary; x_lease : option nat }.
Inductive outcome := Reached (x : context) | AuthRequired | RoutingUnavailable | CSRFRejected | RecentAuthRequired.

(** The answer of the control store to [GetUser]. *)
Inductive user_lookup := UFound (u : UserSummary) | UNotFound | UFailed.

Definition currentVaultUser (users : string → user_lookup) (userID : string) (m : manager) : (outcome + UserSummary) * manager :=
  match users userID with
  | UNotFound => (inl AuthRequired, (DeleteAllSessionsForUser userID m).2)
  | UFailed => (inl RoutingUnavailable, m)
  | UFound u =>
    if negb (bool_decide (us_ID u = userID)) || negb (bool_decide (us_State u = UserActive))
    then (inl AuthRequired, (DeleteAllSessionsForUser userID m).2)
    else (inr u, m)
  end.

(** [sessionForVaultRequest] *)
Definition sessionForVaultRequest (r : http_request) (now : Z) (m : manager) : option Session.Session * manager :=
  match sessionIDFromRequest r with
  | None => (None, m)
  | Some id =>
    match GetSession id now m with
    | (Some s, m') => (if bool_decide (UserID s = "") then None else Some s, m')
    | (None, m') => (None, m')
    end
  end.

Definition refresh (u : UserSummary) (s : Session.Session) : Session.Session :=
  MkSession (familyID s) (ID s) (us_Email u) (UserID s) (us_Email u) (us_DisplayName u) (Some (us_Role u)) (CreatedAt s) (LastSeenAt s)
    (ExpiresAt s) (ReauthenticatedAt s) (CSRFToken s).

(** What happens around one request: the time of each section, the answers of the vault
    lease and of the control store, and the calls of other requests between them. *)
Record surroundings := Around {
  now1 : Z; now2 : Z; now3 : Z;
  borrowed : res verror nat;
  service : bool;
  users : string → user_lookup;
  between1 : list session_call;
  between2 : list session_call
}.

Definition handler : Type := context → manager → outcome * manager.

Definition VaultSessionAuthMiddleware (a : surroundings) (r : http_request) (next : handler) (m : manager) : outcome * manager :=
  if negb (requiresSessionAuth r) then next (Context None None None) m
  else if isLogoutRequest r then
    match sessionForVaultRequest r (now1 a) m with
    | (None, m') => (AuthRequired, m')
    | (Some s, m') => next (Context (Some s) None None) m'
    end
  else if isSnapshotRestoreRequest r then
    match sessionForVaultRequest r (now1 a) m with
    | (None, m') => (AuthRequired, m')
    | (Some s, m') =>
      match currentVaultUser (users a) (UserID s) m' with
      | (inl o, m2) => (o, m2)
      | (inr u, m2) => next (Context (Some s) (Some u) None) m2
      end
    end
  else
    match sessionIDFromRequest r with
    | None => (AuthRequired, m)
    | Some id =>
      match borrowVaultSession id (now1 a) (borrowed a) m with
      | (None, m') => (AuthRequired, m')
      | (Some (s, child), m') =>
        match currentVaultUser (users a) (UserID s) m' with
        | (inl o, m2) => (o, m2)
        | (inr u, m2) =>
          if service a then next (Context (Some (refresh u s)) (Some u) (Some child)) m2
          else (RoutingUnavailable, (DeleteAllSessionsForUser (UserID s) m2).2)
        end
      end
    end.

Definition CSRFMiddleware (a : surroundings) (r : http_request) (next : handler) : handler := λ x m,
  if negb (isUnsafeMethod (r_Method r)) || negb (String.prefix "/api/" (r_Path r)) then next x m
  else if negb (validBrowserRequestBoundary r) then (CSRFRejected, m)
  else if isPublicServerAuthRequest (line r) then next x m
  else match x_session x with
       | None => (CSRFRejected, m)
       | Some s =>
         match r_CSRF r with
         | [token] =>
           if contains 44 token then (CSRFRejected, m)
           else match ValidateCSRF (ID s) token (now2 a) m with
                | (true, m') => next x m'
                | (false, m') => (CSRFRejected, m')
                end
         | _ => (CSRFRejected, m)
         end
       end.

Definition RecentAuthMiddleware (a : surroundings) (r : http_request) (next : handler) : handler := λ x m,
  if negb (requiresRecentAuthentication r) then next x m
  else match x_session x with
       | None => (RecentAuthRequired, m)
       | Some s => match IsRecent (ID s) (now3 a) m with
                   | (true, m') => next x m'
                   | (false, m') => (RecentAuthRequired, m')
                   end
       end.

(** Other requests run between two layers. *)
Definition interleave (cs : list session_call) (next : handler) : handler := λ x m, next x (reach cs m).

(** The chain of [NewServerRouter] around the mux. *)
Definition serve (a : surroundings) (r : http_request) (m : manager) : outcome * manager :=
  VaultSessionAuthMiddleware a r
    (interleave (between1 a) (CSRFMiddleware a r (interleave (between2 a) (RecentAuthMiddleware a r (λ x m, (Reached x, m)))))) m.

(** [SessionAuthMiddleware] of the single-user server. *)
Definition SessionAuthMiddleware (r : http_request) (now : Z) (next : handler) (m : manager) : outcome * manager :=
  if negb (requiresSessionAuth r) then next (Context None None None) m
  else match sessionIDFromRequest r with
       | None => (AuthRequired, m)
       | Some id => match GetSession id now m with
                    | (Some s, m') => next (Context (Some s) None None) m'
                    | (None, m') => (AuthRequired, m')
                    end
       end.

(** * What a reached handler may rely on *)
(** The session [s] of the context passed the recent-authentication check in [m]. *)
Definition recent_at (now : Z) (s : Session.Session) (m : manager) : Prop :=
  ∃ rec, sessions m !! ID s = Some rec ∧ expiredLocked m rec now = false ∧
    Sub now (ReauthenticatedAt (session rec)) <= RecentAuthAge (config m).
(** The single header value is the token of the session in [m]. *)
Definition token_at (now : Z) (r : http_request) (s : Session.Session) (m : manager) : Prop :=
  ∃ token rec, r_CSRF r = [token] ∧ sessions m !! ID s = Some rec ∧ expiredLocked m rec now = false ∧ CSRFToken (session rec) = token.

Lemma IsRecent_true id now m m' : IsRecent id now m = (true, m') →
  m' = m ∧ ∃ rec, sessions m !! id = Some rec ∧ expiredLocked m rec now = false ∧ Sub now (ReauthenticatedAt (session rec)) <= RecentAuthAge (config m).
Proof.
  unfold IsRecent. destruct (_ || _); [done|]. destruct (find_live id now m) as [[rec|] m1] eqn:Hf; [|done].
  apply find_live_Some in Hf as (-> & Hid & He). intros [= Hx <-]. split; [done|]. exists rec. split_and!; try done. lia.
Qed.
Lemma ValidateCSRF_true id tok now m m' : ValidateCSRF id tok now m = (true, m') →
  m' = m ∧ ∃ rec, sessions m !! id = Some rec ∧ expiredLocked m rec now = false ∧ CSRFToken (session rec) = tok.
Proof.
  unfold ValidateCSRF. destruct (_ || _); [done|]. destruct (find_live id now m) as [[rec|] m1] eqn:Hf; [|done].
  apply find_live_Some in Hf as (-> & Hid & He). intros [= Hx <-]. split; [done|]. exists rec. split_and!; try done. by apply bool_decide_eq_true in Hx.
Qed.

Lemma recent_reached a r x m x' m' :
  RecentAuthMiddleware a r (λ x m, (Reached x, m)) x m = (Reached x', m') →
  x' = x ∧ m' = m ∧ (requiresRecentAuthentication r = true → ∃ s, x_session x = Some s ∧ recent_at (now3 a) s m).
Proof.
  unfold RecentAuthMiddleware. destruct (requiresRecentAuthentication r); cbn [negb]; [|by intros [= <- <-]].
  destruct (x_session x) as [s|]; [|done]. destruct (IsRecent (ID s) (now3 a) m) as [[] m1] eqn:E; [|done]. intros [= <- <-].
  apply IsRecent_true in E as (-> & rec & ? & ? & ?). split_and!; try done. intros _. exists s. split; [done|]. by exists rec.
Qed.

Lemma csrf_reached a r next x m x' m' :
  CSRFMiddleware a r next x m = (Reached x', m') →
  next x m = (Reached x', m') ∧
  (isUnsafeMethod (r_Method r) = true → String.prefix "/api/" (r_Path r) = true →
     validBrowserRequestBoundary r = true ∧
     (isPublicServerAuthRequest (line r) = false → ∃ s, x_session x = Some s ∧ token_at (now2 a) r s m)).
Proof.
  unfold CSRFMiddleware. destruct (isUnsafeMethod (r_Method r)); cbn [negb orb]; [|done].
  destruct (String.prefix "/api/" (r_Path r)); cbn [negb]; [|done]. destruct (validBrowserRequestBoundary r); cbn [negb]; [|done].
  destruct (isPublicServerAuthRequest (line r)); [done|]. destruct (x_session x) as [s|]; [|done].
  destruct (r_CSRF r) as [|tok [|? ?]] eqn:Et; try done. destruct (contains 44 tok); [done|].
  destruct (ValidateCSRF (ID s) tok (now2 a) m) as [[] m1] eqn:E; [|done].
  apply ValidateCSRF_true in E as (-> & rec & ? & ? & ?). intros Hn. split; [done|]. intros _ _. split; [done|]. intros _.
  exists s. split; [done|]. by exists tok, rec.
Qed.

(** The state after a session was found for a request. *)
Definition touched (id : string) (now : Z) (rec : sessionRecord) (m : manager) : manager :=
  set_sessions (<[id := SRecord (touch now (session rec)) (root rec)]> (sessions m)) m.

Lemma sessionForVaultRequest_Some r now m s m' : sessionForVaultRequest r now m = (Some s, m') →
  ∃ id rec, sessionIDFromRequest r = Some id ∧ isCanonicalSessionSecret id = true ∧ closed m = false ∧ sessions m !! id = Some rec ∧
    expiredLocked m rec now = false ∧ UserID (session rec) ≠ "" ∧ s = touch now (session rec) ∧ m' = touched id now rec m.
Proof.
  unfold sessionForVaultRequest. destruct (sessionIDFromRequest r) as [id|] eqn:Hid; [|done].
  destruct (GetSession id now m) as [[s0|] m0] eqn:Hg; [|done]. case_bool_decide as Hu; [done|]. intros [= <- <-].
  pose proof (GetSession_Some id now m s0) as Hs. rewrite Hg in Hs. destruct (Hs eq_refl) as (Hcan & Hcl & rec & Hr & He & Es & Em). cbn [snd] in Em. subst s0 m0.
  exists id, rec. by split_and!.
Qed.

Lemma borrowVaultSession_Some id now b m s child m' : borrowVaultSession id now b m = (Some (s, child), m') →
  isCanonicalSessionSecret id = true ∧ closed m = false ∧ b = Ok child ∧ ∃ rec, sessions m !! id = Some rec ∧
    expiredLocked m rec now = false ∧ UserID (session rec) ≠ "" ∧ root rec ≠ None ∧ s = touch now (session rec) ∧ m' = touched id now rec m.
Proof.
  unfold borrowVaultSession. destruct (isCanonicalSessionSecret id); [|done]. destruct (closed m); [done|]. cbn [negb orb].
  destruct (find_live id now m) as [[rec|] m1] eqn:Hf; [|done]. apply find_live_Some in Hf as (-> & Hid & He).
  destruct (bool_decide_reflect (root rec = None)); [done|]. destruct (bool_decide_reflect (UserID (session rec) = "")); [done|]. cbn [orb].
  destruct b as [c|e]; [|done]. intros [= <- <- <-]. split_and!; try done. by exists rec.
Qed.

Lemma currentVaultUser_inr us uid m u m' : currentVaultUser us uid m = (inr u, m') →
  m' = m ∧ us uid = UFound u ∧ us_ID u = uid ∧ us_State u = UserActive.
Proof.
  unfold currentVaultUser. destruct (us uid) as [u0| |]; try done.
  destruct (bool_decide_reflect (us_ID u0 = uid)); [|done]. destruct (bool_decide_reflect (us_State u0 = UserActive)); [|done].
  cbn [negb orb]. by intros [= <- <-].
Qed.

Lemma currentVaultUser_inl us uid m o m' x : currentVaultUser us uid m = (inl o, m') → o ≠ Reached x.
Proof. unfold currentVaultUser. destruct (us uid) as [u0| |]; [destruct (_ || _)| |]; by intros [= <- _]. Qed.

(** The authentication layer alone: it installs the identity of a live session. *)
Lemma auth_reached a r next m x m' :
  requiresSessionAuth r = true → VaultSessionAuthMiddleware a r next m = (Reached x, m') →
  (∀ x1 m1 o m2, next x1 m1 = (o, m2) → o = Reached x → x1 = x) →
  ∃ id rec s, sessionIDFromRequest r = Some id ∧ isCanonicalSessionSecret id = true ∧ closed m = false ∧ sessions m !! id = Some rec ∧
    expiredLocked m rec (now1 a) = false ∧ x_session x = Some s ∧ ID s = ID (session rec) ∧ UserID s = UserID (session rec) ∧ UserID s ≠ "" ∧
    (isLogoutRequest r = false → ∃ u, x_user x = Some u ∧ users a (UserID s) = UFound u ∧ us_ID u = UserID s ∧ us_State u = UserActive) ∧
    (isLogoutRequest r = false → isSnapshotRestoreRequest r = false → ∃ child, x_lease x = Some child ∧ borrowed a = Ok child) ∧
    next x (touched id (now1 a) rec m) = (Reached x, m').
Proof.
  intros Hreq. unfold VaultSessionAuthMiddleware. rewrite Hreq. cbn [negb]. intros Hn Hx.
  destruct (isLogoutRequest r); [|destruct (isSnapshotRestoreRequest r)].
  - destruct (sessionForVaultRequest r (now1 a) m) as [[s|] m1] eqn:Hs; [|done].
    apply sessionForVaultRequest_Some in Hs as (id & rec & ? & ? & ? & ? & ? & ? & -> & ->).
    pose proof (Hx _ _ _ _ Hn eq_refl) as <-. exists id, rec, (touch (now1 a) (session rec)). by split_and!.
  - destruct (sessionForVaultRequest r (now1 a) m) as [[s|] m1] eqn:Hs; [|done].
    apply sessionForVaultRequest_Some in Hs as (id & rec & ? & ? & ? & ? & ? & ? & -> & ->).
    destruct (currentVaultUser _ _ _) as [[o|u] m2] eqn:Hu; [by injection Hn as ->; eapply currentVaultUser_inl in Hu|].
    apply currentVaultUser_inr in Hu as (-> & ? & ? & ?).
    pose proof (Hx _ _ _ _ Hn eq_refl) as <-. exists id, rec, (touch (now1 a) (session rec)). split_and!; try done. by eauto.
  - destruct (sessionIDFromRequest r) as [id|]; [|done].
    destruct (borrowVaultSession id (now1 a) (borrowed a) m) as [[[s child]|] m1] eqn:Hs; [|done].
    apply borrowVaultSession_Some in Hs as (? & ? & ? & rec & ? & ? & ? & ? & -> & ->).
    destruct (currentVaultUser _ _ _) as [[o|u] m2] eqn:Hu; [by injection Hn as ->; eapply currentVaultUser_inl in Hu|].
    apply currentVaultUser_inr in Hu as (-> & ? & ? & ?). destruct (service a); [|done].
    pose proof (Hx _ _ _ _ Hn eq_refl) as <-. exists id, rec, (refresh u (touch (now1 a) (session rec))). split_and!; try done; by eauto.
Qed.

(** What the browser's headers must say: at most one Fetch Metadata value, which is
    same-origin or none, and at most one origin, a bare one with the scheme and host of the
    request. *)
Definition bare_origin (u : url) : Prop :=
  u_Scheme u ≠ "" ∧ u_Host u ≠ "" ∧ u_User u = false ∧ u_Opaque u = "" ∧ u_Path u = "" ∧ u_RawQuery u = "" ∧ u_ForceQuery u = false ∧ u_Fragment u = "".
Definition same_origin (r : http_request) : Prop :=
  (r_FetchSite r = [] ∨ ∃ v, r_FetchSite r = [v] ∧ (ToLower (TrimSpace v) = "same-origin" ∨ ToLower (TrimSpace v) = "none")) ∧
  (r_Origin r = [] ∨ ∃ o u, r_Origin r = [o] ∧ contains 44 o = false ∧ url_Parse (TrimSpace o) = Some u ∧ bare_origin u ∧
     EqualFold (u_Scheme u) (RequestProto r) = true ∧ EqualFold (u_Host u) (r_Host r) = true).
Lemma boundary_same_origin r : validBrowserRequestBoundary r = true → same_origin r.
Proof.
  unfold validBrowserRequestBoundary, same_origin. intros Hb. split.
  - destruct (r_FetchSite r) as [|v [|]]; [by left| |done]. right. exists v. split; [done|].
    destruct (bool_decide_reflect (ToLower (TrimSpace v) = "same-origin")); [by left|].
    destruct (bool_decide_reflect (ToLower (TrimSpace v) = "none")); [by right|done].
  - assert (match r_Origin r with
            | [] => true
            | [o] => if contains 44 o then false
                     else match url_Parse (TrimSpace o) with
                          | Some u => if bool_decide (u_Scheme u = "") || bool_decide (u_Host u = "") || u_User u || negb (bool_decide (u_Opaque u = ""))
                                         || negb (bool_decide (u_Path u = "")) || negb (bool_decide (u_RawQuery u = "")) || u_ForceQuery u
                                         || negb (bool_decide (u_Fragment u = ""))
                                      then false else EqualFold (u_Scheme u) (RequestProto r) && EqualFold (u_Host u) (r_Host r)
                          | None => false end
            | _ => false end = true) as Ho.
    { destruct (r_FetchSite r) as [|v [|]]; [exact Hb| |done]. revert Hb. destruct (negb (_ || _)); [done|]. exact id. }
    clear Hb. destruct (r_Origin r) as [|o [|]]; [by left| |done]. right. destruct (contains 44 o) eqn:Hc; [done|].
    destruct (url_Parse (TrimSpace o)) as [u|] eqn:Hu; [|done]. exists o, u. destruct (_ || _) eqn:Hbad; [done|]. apply andb_true_iff in Ho as [H1 H2].
    split_and!; try done; rewrite !orb_false_iff, !negb_false_iff, !bool_decide_eq_true, !bool_decide_eq_false in Hbad; unfold bare_origin; tauto.
Qed.

(** C31. The gate of the server is sound. When a request reaches its handler, either its
    route needs no session, or the request carried one canonical session cookie of a
    session that was live, whose user the control store reported active at that moment,
    and the handler runs as that user on a lease borrowed from that session's root.
    An unsafe request to the API came from the same origin as far as its headers tell: its
    Fetch Metadata say so, and its origin, if it names one, has the scheme and the host of
    the request; and unless it is a public account call it carried, as its only token, the token the
    session has in the state at the time of the check; a high-impact request was
    preceded by an authentication no older than the configured age. All of this
    whatever calls of other requests run between the checks. *)
Theorem gate_sound c cs a r x m' :
  let m := reach cs (NewSessionManagerWithConfig c) in
  Forall call_ok cs → NoDup (draws cs) →
  serve a r m = (Reached x, m') →
  (isUnsafeMethod (r_Method r) = true → String.prefix "/api/" (r_Path r) = true → validBrowserRequestBoundary r = true ∧ same_origin r) ∧
  (requiresSessionAuth r = false ∧ x = Context None None None ∧ requiresRecentAuthentication r = false ∨
   ∃ id rec s, sessionIDFromRequest r = Some id ∧ sessions m !! id = Some rec ∧ expiredLocked m rec (now1 a) = false ∧
     x_session x = Some s ∧ ID s = id ∧ UserID s = UserID (session rec) ∧ UserID s ≠ "" ∧
     (isLogoutRequest r = false → ∃ u, x_user x = Some u ∧ users a (UserID s) = UFound u ∧ us_ID u = UserID s ∧ us_State u = UserActive) ∧
     (isLogoutRequest r = false → isSnapshotRestoreRequest r = false → ∃ child, x_lease x = Some child ∧ borrowed a = Ok child) ∧
     let m1 := reach (between1 a) (touched id (now1 a) rec m) in
     (isUnsafeMethod (r_Method r) = true → token_at (now2 a) r s m1) ∧
     (requiresRecentAuthentication r = true → recent_at (now3 a) s (reach (between2 a) m1))).
Proof.
  intros m Hok Hnd Hs. destruct (reach_inv c cs Hok Hnd) as (acc & _ & Hi). fold m in Hi.
  assert (∀ x0 m0 o m1, interleave (between1 a) (CSRFMiddleware a r (interleave (between2 a)
            (RecentAuthMiddleware a r (λ x m, (Reached x, m))))) x0 m0 = (o, m1) → o = Reached x → x0 = x) as Hsame.
  { intros x0 m0 o m1 E ->. apply csrf_reached in E as (E & _). by apply recent_reached in E as (-> & _). }
  unfold serve in Hs. destruct (requiresSessionAuth r) eqn:Hreq.
  - pose proof Hreq as Hpub. unfold requiresSessionAuth in Hpub.
    destruct (String.prefix "/api/" (r_Path r)) eqn:Hapi; [|done]. cbn [negb] in Hpub.
    destruct (isPublicServerAuthRequest (line r)) eqn:Hp; [done|].
    destruct (auth_reached _ _ _ _ _ _ Hreq Hs Hsame) as (id & rec & s & Hid & _ & _ & Hr & He & Hx & Eid & Eu & Hu & Hus & Hl & Hn).
    apply csrf_reached in Hn as (Hn & Hcsrf). apply recent_reached in Hn as (_ & _ & Hrec). rewrite Hp, Hapi in Hcsrf.
    destruct (si_record _ _ _ Hi id rec Hr) as (Erid & _). split.
    + intros Hm _. destruct (Hcsrf Hm eq_refl) as [Hv _]. split; [done|by apply boundary_same_origin].
    + right. exists id, rec, s. assert (ID s = id) by congruence. split_and!; try done. intros m1. split.
      * intros Hm. destruct (Hcsrf Hm eq_refl) as (_ & Ht). destruct (Ht eq_refl) as (s' & Es & Ht'). rewrite Hx in Es. by injection Es as <-.
      * intros Hm. destruct (Hrec Hm) as (s' & Es & Ht'). rewrite Hx in Es. by injection Es as <-.
  - unfold VaultSessionAuthMiddleware in Hs. rewrite Hreq in Hs. cbn [negb] in Hs.
    pose proof (Hsame _ _ _ _ Hs eq_refl) as <-. apply csrf_reached in Hs as (Hs & Hcsrf). apply recent_reached in Hs as (_ & _ & Hrec). split.
    + intros Hm Ha. destruct (Hcsrf Hm Ha) as [Hv _]. split; [done|by apply boundary_same_origin].
    + left. split_and!; try done. destruct (requiresRecentAuthentication r); [|done]. by destruct (Hrec eq_refl) as (s & ? & _).
Qed.
End Gate.

(** * A concrete request *)
#[local] Instance demo_text : HttpText := {|
  url_Parse s := if bool_decide (s = "https://money.example") then Some (Url "https" "money.example" false "" "" "" false "") else None;
  unicode_ToLower s := s;
  EqualFold s1 s2 := bool_decide (s1 = s2) |}.
Definition demo_request : http_request :=
  Request "POST" "/api/import_csv" "money.example" true (Some "https") [Cookie SecureSessionCookieName (demo_id 1)] ["same-origin"]
    ["https://money.example"] [EncodeToString (replicate 32 101)].
Definition demo_around : surroundings :=
  Around 10 20 30 (Ok 5%nat) true (λ _, UFound demo_user) [SGet (demo_id 1) 15] [SCleanup 25].
Definition demo_reached : context :=
  match (serve demo_around demo_request (reach [demo_create 1 7 0] demo_new)).1 with Reached x => x | _ => Context None None None end.

Lemma gate_sound_witness :
  let m := reach [demo_create 1 7 0] demo_new in
  (serve demo_around demo_request m).1 = Reached demo_reached ∧ x_lease demo_reached = Some 5%nat ∧ validBrowserRequestBoundary demo_request = true.
Proof.
  intros m. destruct (serve demo_around demo_request m) as [o m'] eqn:E.
  assert (o = Reached demo_reached) as -> by (change o with (o, m').1; rewrite <- E; vm_compute; reflexivity).
  split; [reflexivity|]. split; [vm_compute; reflexivity|].
  apply (gate_sound demo_config [demo_create 1 7 0] demo_around demo_request demo_reached m'); [demo_ok|by_decide|exact E|vm_compute; reflexivity..].
Defined.
