(* ===== verification/Proxy.v ===== *)
(** Reverse proxies ([middleware/proxy.go]): which peer a request comes from, over which
    protocol, and for which host.

    The configuration is read from the environment ([env]); an error in it is kept and
    makes the middleware refuse every request. A request is the one of the session gate
    with its peer address, its headers under their canonical names and the values the
    middleware puts into the context. *)
From Stdlib Require Import ZArith Lia.
From stdpp Require Import base gmap list strings.
From S2P Require Import Prelude GoText NetAddr Gate.
Open Scope Z_scope.

(** * Headers of [net/http] *)
(** [CanonicalHeaderKey]: a capital at the start and behind each hyphen, small letters
    elsewhere; a name with a byte outside of tokens stays as it is. *)
Definition token_byte (b : Z) : bool :=
  between 48 57 b || between 65 90 b || between 97 122 b || existsb (Z.eqb b) [33; 35; 36; 37; 38; 39; 42; 43; 45; 46; 94; 95; 96; 124; 126].
Fixpoint canonical_bytes (upper : bool) (l : list Z) : list Z :=
  match l with
  | [] => []
  | b :: l' =>
    let b' := if upper && between 97 122 b then b - 32 else if negb upper && between 65 90 b then b + 32 else b in
    b' :: canonical_bytes (b =? 45) l'
  end.
Definition CanonicalHeaderKey (name : string) : string :=
  if forallb token_byte (bytes name) then of_bytes (canonical_bytes true (bytes name)) else name.

Notation header := (gmap string (list string)) (only parsing).
Definition Values (h : header) (name : string) : list string := default [] (h !! CanonicalHeaderKey name).
Definition Del (name : string) (h : header) : header := delete (CanonicalHeaderKey name) h.

(** [strings.Trim] with a cut set, [strings.Contains] and [strings.ContainsAny]. *)
Fixpoint trim_start (cutset : list Z) (l : list Z) : list Z :=
  match l with b :: l' => if has b cutset then trim_start cutset l' else l | [] => [] end.
Definition Trim (s : string) (cutset : list Z) : string :=
  of_bytes (rev (trim_start cutset (rev (trim_start cutset (bytes s))))).
Definition brackets : list Z := [91; 93].

(** * Configuration *)
Definition minTrustedIPv4Prefix : Z := 24.
Definition minTrustedIPv6Prefix : Z := 120.
Definition forwardingHeaders : list string :=
  ["Forwarded"; "X-Forwarded-For"; "X-Forwarded-Host"; "X-Forwarded-Port"; "X-Forwarded-Proto"; "X-Forwarded-Server";
   "X-Original-Host"; "X-Original-URL"; "X-Real-IP"; "X-Rewrite-URL"].

Inductive perr :=
| InvalidProxyEntry (token : string) | ProxyEntryTooBroad (token : string) | InvalidHostEntry (token : string)
| MustBeBool (name : string) | AllowedHostsRequired | InvalidRedirectHost | RedirectHostNotAllowed | InsecureListener
| MultipleValues | EmptyHop | InvalidHop | InvalidIP | InvalidProtocol.
#[global] Instance perr_eq_dec : EqDecision perr.
Proof. solve_decision. Defined.

Record ProxyConfig := MkProxyConfig {
  trustedCIDRs : list IPNet; forceHTTPS : bool; allowedHosts : gset string; redirectHost : string; configErr : option perr
}.

Definition environment : Type := string → string.

Definition parseStrictBoolEnv (env : environment) (name : string) : res perr bool :=
  let raw := TrimSpace (env name) in
  if bool_decide (raw = "") then Ok false
  else if bool_decide (raw = "true") then Ok true
  else if bool_decide (raw = "false") then Ok false
  else Err (MustBeBool name).

(** One entry of [TRUSTED_PROXIES] that is not blank. *)
Definition parseTrustedProxy (token : string) : res perr IPNet :=
  if contains 47 token then
    match ParseCIDR token with
    | None => Err (InvalidProxyEntry token)
    | Some (_, ipNet) =>
      let '(ones, bits) := Size (n_Mask ipNet) in
      let minimumPrefix := if bits =? 32 then minTrustedIPv4Prefix else minTrustedIPv6Prefix in
      if negb (bits =? 32) && negb (bits =? 128) || (ones <? minimumPrefix) then Err (ProxyEntryTooBroad token)
      else Ok ipNet
    end
  else
    match ParseIP token with
    | None => Err (InvalidProxyEntry token)
    | Some ip =>
      let maskBits := if bool_decide (To4 ip = None) then 128 else 32 in
      Ok (Net ip (CIDRMask maskBits maskBits))
    end.
Fixpoint parse_proxies (tokens : list string) : res perr (list IPNet) :=
  match tokens with
  | [] => Ok []
  | t :: tokens' =>
    let token := TrimSpace t in
    if bool_decide (token = "") then parse_proxies tokens'
    else n ← parseTrustedProxy token; ns ← parse_proxies tokens'; Ok (n :: ns)
  end.
Definition parseTrustedProxiesStrict (raw : string) : res perr (list IPNet) := parse_proxies (Split raw 44).

Definition isTrustedProxy (c : ProxyConfig) (ip : option (list Z)) : bool :=
  match ip with
  | None => false
  | Some ip => existsb (λ n, Contains n ip) (trustedCIDRs c)
  end.

Definition hostInSet (host : string) (hosts : gset string) : bool := bool_decide (host ∈ hosts).

Definition parseRemoteIP (remoteAddr : string) : option (list Z) :=
  let host := match SplitHostPort remoteAddr with Some (h, _) => h | None => remoteAddr end in
  ParseIP (TrimSpace host).

Section Proxy.
Context {text_lib : HttpText}.

Definition normalizeHost (raw : string) : string :=
  let raw := TrimSpace (ToLower raw) in
  if bool_decide (raw = "") || contains 47 raw || contains 64 raw then ""
  else
    let check (host : string) :=
      if existsb (λ b, contains b raw) [32; 9; 13; 10] then ""
      else if bool_decide (Trim host brackets = "") then "" else raw in
    match SplitHostPort raw with
    | Some (h, p) => if bool_decide (h = "") || bool_decide (p = "") then "" else check h
    | None =>
      if contains 58 raw && bool_decide (ParseIP (Trim raw brackets) = None) then "" else check raw
    end.

Fixpoint parse_hosts (tokens : list string) (hosts : gset string) : res perr (gset string) :=
  match tokens with
  | [] => Ok hosts
  | t :: tokens' =>
    if bool_decide (TrimSpace t = "") then parse_hosts tokens' hosts
    else let host := normalizeHost t in
         if bool_decide (host = "") then Err (InvalidHostEntry (TrimSpace t))
         else parse_hosts tokens' ({[host]} ∪ hosts)
  end.
Definition parseAllowedHostsStrict (raw : string) : res perr (gset string) := parse_hosts (Split raw 44) ∅.

Definition or_zero {E A} (z : A) (r : res E A) : A := match r with Ok a => a | Err _ => z end.
Definition NewProxyConfigFromEnv (env : environment) : ProxyConfig :=
  let trusted := parseTrustedProxiesStrict (env "TRUSTED_PROXIES") in
  let allowed := parseAllowedHostsStrict (env "ALLOWED_HOSTS") in
  let redirect := normalizeHost (env "HTTPS_REDIRECT_HOST") in
  let force := parseStrictBoolEnv env "FORCE_HTTPS" in
  let err :=
    match trusted, allowed, force with
    | Err e, _, _ => Some e
    | _, Err e, _ => Some e
    | _, _, Err e => Some e
    | Ok _, Ok hosts, Ok _ =>
      if bool_decide (hosts = ∅) then Some AllowedHostsRequired
      else if negb (bool_decide (TrimSpace (env "HTTPS_REDIRECT_HOST") = "")) && bool_decide (redirect = "") then Some InvalidRedirectHost
      else if negb (bool_decide (redirect = "")) && negb (hostInSet redirect hosts) then Some RedirectHostNotAllowed
      else None
    end in
  MkProxyConfig (or_zero [] trusted) (or_zero false force) (or_zero ∅ allowed) redirect err.

(** [Validate] of a missing configuration fails; every other answers the kept error. *)
Definition Validate (c : ProxyConfig) : option perr := configErr c.

Definition isLoopbackBindHost (host : string) : bool :=
  let host := Trim (TrimSpace host) brackets in
  if EqualFold host "localhost" then true
  else match ParseIP host with Some ip => IsLoopback ip | None => false end.

Definition ValidatePublicListenerSecurity (env : environment) (host : string) (tlsConfigured : bool) : res perr unit :=
  allowInsecure ← parseStrictBoolEnv env "ALLOW_INSECURE_HTTP";
  if tlsConfigured || isLoopbackBindHost host then Ok tt
  else
    let config := NewProxyConfigFromEnv env in
    match Validate config with
    | Some e => Err e
    | None =>
      if forceHTTPS config && negb (bool_decide (trustedCIDRs config = [])) then Ok tt
      else if (allowInsecure : bool) then Ok tt
      else Err InsecureListener
    end.

Definition isAllowedHost (c : ProxyConfig) (host : string) : bool :=
  let host := normalizeHost host in
  if bool_decide (host = "") then false else hostInSet host (allowedHosts c).

Definition redirectTargetHost (c : ProxyConfig) (requestHost : string) : string :=
  if negb (bool_decide (redirectHost c = "")) then redirectHost c
  else let host := normalizeHost requestHost in
       if negb (isAllowedHost c host) then "" else host.

(** * Forwarding headers *)
Fixpoint parse_hops (parts : list string) : res perr (list (list Z)) :=
  match parts with
  | [] => Ok []
  | p :: parts' =>
    let part := TrimSpace p in
    if bool_decide (part = "") then Err EmptyHop
    else match ParseIP part with
         | None => Err InvalidHop
         | Some ip => ips ← parse_hops parts'; Ok (ip :: ips)
         end
  end.
(** The loop from the last hop to the first. *)
Fixpoint rightmost (c : ProxyConfig) (n : nat) (hops : list (list Z)) : option (list Z) :=
  match n with
  | O => head hops
  | S i => match hops !! i with
           | Some h => if isTrustedProxy c (Some h) then rightmost c i hops else Some h
           | None => None
           end
  end.
Definition resolveForwardedForStrict (c : ProxyConfig) (headers : list string) (remoteIP : option (list Z)) : res perr (option (list Z)) :=
  match headers with
  | [] => Ok None
  | [h] =>
    hops ← parse_hops (Split h 44);
    let hops := hops ++ match remoteIP with Some ip => [ip] | None => [] end in
    Ok (rightmost c (length hops) hops)
  | _ => Err MultipleValues
  end.

Definition parseSingleIPHeader (values : list string) : res perr (option (list Z)) :=
  match values with
  | [] => Ok None
  | [v] => match ParseIP (TrimSpace v) with None => Err InvalidIP | Some ip => Ok (Some ip) end
  | _ => Err MultipleValues
  end.

Definition parseForwardedProto (values : list string) : res perr string :=
  match values with
  | [] => Ok ""
  | [v] =>
    let p := ToLower (TrimSpace v) in
    if contains 44 p || negb (bool_decide (p = "http") || bool_decide (p = "https")) then Err InvalidProtocol else Ok p
  | _ => Err MultipleValues
  end.

(** * The middleware *)
Record request := ProxyRequest {
  q_http : http_request;
  q_RemoteAddr : string;
  q_Header : header;
  q_RequestURI : string;
  q_clientIP : option string       (** the context value under [clientIPKey] *)
}.
Definition set_proto (p : string) (r : http_request) : http_request :=
  Request (r_Method r) (r_Path r) (r_Host r) (r_TLS r) (Some p) (r_Cookies r) (r_FetchSite r) (r_Origin r) (r_CSRF r).

Inductive proxied :=
| Refused (message : string) (status : Z)
| Redirected (targetURL : string)
| Passed (r : request).

(** The peer address and the protocol after the forwarding headers of a trusted proxy. *)
Definition forwarded (c : ProxyConfig) (r : request) : string + (string * string) :=
  let remoteIP := parseRemoteIP (q_RemoteAddr r) in
  let clientIP := match remoteIP with Some ip => IPString ip | None => "" end in
  let proto := if r_TLS (q_http r) then "https" else "http" in
  if isTrustedProxy c remoteIP then
    match resolveForwardedForStrict c (Values (q_Header r) "X-Forwarded-For") remoteIP with
    | Err _ => inl "Invalid X-Forwarded-For header"
    | Ok resolved =>
      match
        match resolved with
        | Some ip => Ok (IPString ip)
        | None =>
          match parseSingleIPHeader (Values (q_Header r) "X-Real-IP") with
          | Err e => Err e
          | Ok (Some ip) => Ok (IPString ip)
          | Ok None => Ok clientIP
          end
        end
      with
      | Err _ => inl "Invalid X-Real-IP header"
      | Ok clientIP =>
        match parseForwardedProto (Values (q_Header r) "X-Forwarded-Proto") with
        | Err _ => inl "Invalid X-Forwarded-Proto header"
        | Ok forwardedProto => inr (clientIP, if bool_decide (forwardedProto = "") then proto else forwardedProto)
        end
      end
    end
  else inr (clientIP, proto).

Definition ProxyMiddleware (config : ProxyConfig) (r : request) : proxied :=
  let path := r_Path (q_http r) in
  if negb (bool_decide (configErr config = None)) then Refused "Proxy configuration is invalid" 503
  else if negb (bool_decide (path = "/healthz")) && negb (bool_decide (allowedHosts config = ∅)) && negb (isAllowedHost config (r_Host (q_http r)))
  then Refused "Invalid Host header" 400
  else
    match forwarded config r with
    | inl message => Refused message 400
    | inr (clientIP, proto) =>
      let h := foldl (λ h name, Del name h) (q_Header r) forwardingHeaders in
      if forceHTTPS config && bool_decide (proto = "http") && negb (bool_decide (path = "/healthz")) then
        let redirectHost := redirectTargetHost config (r_Host (q_http r)) in
        if bool_decide (redirectHost = "") then Refused "Bad Request" 400
        else Redirected ("https://" +:+ redirectHost +:+ q_RequestURI r)
      else Passed (ProxyRequest (set_proto proto (q_http r)) (q_RemoteAddr r) h (q_RequestURI r) (Some clientIP))
    end.

Definition ClientIPFromRequest (r : request) : string :=
  let fallback := match parseRemoteIP (q_RemoteAddr r) with Some ip => IPString ip | None => "" end in
  let fallback := if bool_decide (fallback = "") then "unknown" else fallback in
  match q_clientIP r with
  | Some ip => if bool_decide (TrimSpace ip = "") then fallback else ip
  | None => fallback
  end.

(** * Trusted networks *)
Lemma parseTrustedProxy_wf token n : parseTrustedProxy token = Ok n → net_wf n.
Proof.
  unfold parseTrustedProxy. destruct (contains 47 token).
  - destruct (ParseCIDR token) as [[a n0]|] eqn:E; [|done]. destruct (Size (n_Mask n0)) as [ones bits] eqn:Es.
    destruct (_ || _) eqn:Hg; [done|]. intros [= <-]. apply orb_false_elim in Hg as [_ Hg]. apply Z.ltb_ge in Hg.
    by apply (ParseCIDR_wf _ _ _ _ _ E Es).
  - destruct (ParseIP token) as [ip|] eqn:E; [|done]. intros [= <-]. apply single_wf. by eapply ParseIP_wf.
Qed.
Lemma parse_proxies_wf tokens ns : parse_proxies tokens = Ok ns → Forall net_wf ns ∧ (length ns <= length tokens)%nat.
Proof.
  revert ns. induction tokens as [|t tokens IH]; intros ns; cbn [parse_proxies]; [intros [= <-]; by split|].
  case_bool_decide; [intros [? ?]%IH; split; [done|cbn; lia]|].
  intros (n & Hn & Hr)%res_bind_Ok_inv. apply res_bind_Ok_inv in Hr as (ns' & Hns & [= <-]). destruct (IH _ Hns) as [? ?].
  split; [constructor; [by eapply parseTrustedProxy_wf|done]|cbn; lia].
Qed.
Lemma config_trusted env : Forall net_wf (trustedCIDRs (NewProxyConfigFromEnv env)) ∧
  (length (trustedCIDRs (NewProxyConfigFromEnv env)) <= length (Split (env "TRUSTED_PROXIES") 44))%nat.
Proof.
  cbn [NewProxyConfigFromEnv trustedCIDRs]. unfold parseTrustedProxiesStrict.
  destruct (parse_proxies _) as [ns|e] eqn:E; cbn [or_zero]; [by apply parse_proxies_wf|split; [constructor|cbn; lia]].
Qed.

(** Trust stays narrow: whatever [TRUSTED_PROXIES] says, each of its entries makes at
    most 256 addresses trusted, in either family and in either notation of an embedded
    IPv4 address; a broader network is an error that stops the server. *)
Theorem trusted_proxies_narrow env :
  ∃ l : list (list Z), (length l <= 256 * length (Split (env "TRUSTED_PROXIES") 44))%nat ∧
    ∀ ip, ip_wf ip → isTrustedProxy (NewProxyConfigFromEnv env) (Some ip) = true → canon ip ∈ l.
Proof.
  destruct (config_trusted env) as [Hwf Hl]. exists (trustedCIDRs (NewProxyConfigFromEnv env) ≫= λ n, neighbours (canon (n_IP n))). split.
  - etrans; [|apply Nat.mul_le_mono_l, Hl]. clear. induction (trustedCIDRs _) as [|n ns IH]; [done|]. cbn [mbind list_bind].
    rewrite length_app, neighbours_length. cbn [length]. lia.
  - intros ip Hip (n & Hn & Hc)%existsb_exists. apply list_elem_of_bind. exists n. apply list_elem_of_In in Hn.
    split; [|done]. rewrite Forall_forall in Hwf. by apply Contains_neighbours; [apply Hwf| |].
Qed.

(** * Hosts *)
Lemma parse_hosts_in tokens : ∀ hosts out h, parse_hosts tokens hosts = Ok out → h ∈ out → h ∈ hosts ∨ ∃ t, t ∈ tokens ∧ normalizeHost t = h ∧ h ≠ "".
Proof.
  induction tokens as [|t tokens IH]; intros hosts out h; cbn [parse_hosts]; [intros [= <-]; by left|].
  case_bool_decide; [intros H1 H2; destruct (IH _ _ _ H1 H2) as [?|(t' & ? & ?)]; [by left|right; exists t'; split; [by right|done]]|].
  case_bool_decide as Hne; [done|]. intros H1 H2. destruct (IH _ _ _ H1 H2) as [Hin|(t' & ? & ?)].
  - apply elem_of_union in Hin as [->%elem_of_singleton|Hin]; [|by left]. right. exists t. split_and!; [by left|done|done].
  - right. exists t'. split; [by right|done].
Qed.
(** The host is the normal form of an entry of [ALLOWED_HOSTS]. *)
Definition allowed_by (env : environment) (h : string) : Prop := h ≠ "" ∧ ∃ t, t ∈ Split (env "ALLOWED_HOSTS") 44 ∧ normalizeHost t = h.
Lemma config_hosts env h : h ∈ allowedHosts (NewProxyConfigFromEnv env) → allowed_by env h.
Proof.
  cbn [NewProxyConfigFromEnv allowedHosts]. unfold parseAllowedHostsStrict. destruct (parse_hosts _ _) as [hs|e] eqn:E; cbn [or_zero]; [|set_solver].
  intros H. destruct (parse_hosts_in _ _ _ _ E H) as [?|(t & ? & ? & ?)]; [set_solver|]. split; [done|by exists t].
Qed.
(** A configuration without an error allows some host, and redirects only to allowed ones. *)
Lemma config_valid env : let c := NewProxyConfigFromEnv env in configErr c = None →
  allowedHosts c ≠ ∅ ∧ (redirectHost c = "" ∨ redirectHost c ∈ allowedHosts c).
Proof.
  cbn [NewProxyConfigFromEnv configErr allowedHosts redirectHost]. destruct (parseTrustedProxiesStrict (env "TRUSTED_PROXIES")), (parseAllowedHostsStrict (env "ALLOWED_HOSTS")) as [hosts|], (parseStrictBoolEnv env "FORCE_HTTPS"); try done.
  cbn [or_zero]. case_bool_decide as He; [done|]. destruct (_ && _); [done|]. intros Hr. split; [done|].
  destruct (bool_decide_reflect (normalizeHost (env "HTTPS_REDIRECT_HOST") = "")) as [|]; [by left|]. right.
  unfold hostInSet in Hr. case_bool_decide; done.
Qed.
Lemma isAllowedHost_in c h : isAllowedHost c h = true → normalizeHost h ∈ allowedHosts c.
Proof. unfold isAllowedHost, hostInSet. case_bool_decide; [done|]. by case_bool_decide. Qed.

(** * Headers *)
Lemma deleted_values h names name : name ∈ names → Values (foldl (λ h name, Del name h) h names) name = [].
Proof.
  assert (∀ ns h, Values h name = [] → Values (foldl (λ h name, Del name h) h ns) name = []) as Hk.
  { induction ns as [|n ns IH]; intros h0 H0; [done|]. cbn [foldl]. apply IH. unfold Values, Del in *.
    destruct (decide (CanonicalHeaderKey n = CanonicalHeaderKey name)) as [->|]; [by rewrite lookup_delete_eq|by rewrite lookup_delete_ne]. }
  revert h. induction names as [|n names IH]; intros h; [by intros ?%elem_of_nil|]. intros [->|H]%elem_of_cons; cbn [foldl]; [|by apply IH].
  apply Hk. unfold Values, Del. by rewrite lookup_delete_eq.
Qed.
Lemma deleted_other h names k : (∀ n, n ∈ names → CanonicalHeaderKey n ≠ k) → foldl (λ h name, Del name h) h names !! k = h !! k.
Proof.
  revert h. induction names as [|n names IH]; intros h H; [done|]. cbn [foldl]. rewrite IH by (intros m Hm; apply H; by right).
  unfold Del. apply lookup_delete_ne, H. by left.
Qed.

(** * The hop that is charged *)
Lemma rightmost_skip c pre h suf : ∀ n, n = length (pre ++ h :: suf) → isTrustedProxy c (Some h) = false →
  Forall (λ x, isTrustedProxy c (Some x) = true) suf → rightmost c n (pre ++ h :: suf) = Some h.
Proof.
  intros n -> Hh Hs. assert (∀ k, (k <= length suf)%nat → rightmost c (length pre + 1 + k) (pre ++ h :: suf) = Some h) as H.
  { induction k as [|k IH]; intros Hk.
    - rewrite Nat.add_0_r, Nat.add_1_r. cbn [rightmost]. rewrite list_lookup_middle by done. by rewrite Hh.
    - rewrite Nat.add_succ_r. cbn [rightmost]. rewrite lookup_app_r by lia. replace (length pre + 1 + k - length pre)%nat with (S k) by lia.
      destruct (lookup_lt_is_Some_2 suf k) as [x Hx]; [lia|]. change ((h :: suf) !! S k) with (suf !! k). rewrite Hx. rewrite (Forall_lookup_1 _ _ _ _ Hs Hx). apply IH. lia. }
  rewrite length_app. cbn [length]. replace (length pre + S (length suf))%nat with (length pre + 1 + length suf)%nat by lia. by apply H.
Qed.
Lemma rightmost_all c hops : ∀ n, (n <= length hops)%nat → Forall (λ x, isTrustedProxy c (Some x) = true) (take n hops) → rightmost c n hops = head hops.
Proof.
  induction n as [|n IH]; intros Hn H; [done|]. cbn [rightmost]. destruct (lookup_lt_is_Some_2 hops n) as [x Hx]; [lia|]. rewrite Hx.
  rewrite (take_S_r _ _ _ Hx) in H. apply Forall_app in H as [H1 H2]. apply Forall_cons_1 in H2 as [-> _]. apply IH; [lia|done].
Qed.

(** The address that is charged for a request, by reference to the whole chain of hops:
    the last untrusted one, and the first of all when every hop is trusted. *)
Definition untrusted (c : ProxyConfig) (ip : list Z) : Prop := isTrustedProxy c (Some ip) = false.
Definition charged (c : ProxyConfig) (hops : list (list Z)) (ip : list Z) : Prop :=
  (∃ pre suf, hops = pre ++ ip :: suf ∧ untrusted c ip ∧ Forall (λ x, isTrustedProxy c (Some x) = true) suf) ∨
  (Forall (λ x, isTrustedProxy c (Some x) = true) hops ∧ head hops = Some ip).

Lemma split_trusted c hops : Forall (λ x, isTrustedProxy c (Some x) = true) hops ∨
  ∃ pre h suf, hops = pre ++ h :: suf ∧ untrusted c h ∧ Forall (λ x, isTrustedProxy c (Some x) = true) suf.
Proof.
  induction hops as [|x hops IH] using rev_ind; [by left|]. destruct (isTrustedProxy c (Some x)) eqn:E.
  - destruct IH as [IH|(pre & h & suf & -> & Hh & Hs)]; [left; apply Forall_app_2; [done|by constructor]|].
    right. exists pre, h, (suf ++ [x]). rewrite <-app_assoc. split_and!; [done|done|]. apply Forall_app_2; [done|by constructor].
  - right. by exists hops, x, [].
Qed.
Lemma rightmost_charged c hops ip : rightmost c (length hops) hops = Some ip ↔ charged c hops ip.
Proof.
  split.
  - intros Hr. destruct (split_trusted c hops) as [Ht|(pre & h & suf & -> & Hh & Hs)].
    + right. split; [done|]. rewrite rightmost_all in Hr; [done|done|]. by rewrite firstn_all.
    + rewrite rightmost_skip in Hr by done. injection Hr as <-. left. by exists pre, suf.
  - intros [(pre & suf & -> & Hh & Hs)|[Ht Hh]]; [by apply rightmost_skip|].
    rewrite rightmost_all; [done|done|]. by rewrite firstn_all.
Qed.

Lemma parse_hops_wf parts hops : parse_hops parts = Ok hops → Forall ip_wf hops ∧ Forall2 (λ p h, ParseIP (TrimSpace p) = Some h) parts hops.
Proof.
  revert hops. induction parts as [|p parts IH]; intros hops; cbn [parse_hops]; [by intros [= <-]|].
  case_bool_decide; [done|]. destruct (ParseIP (TrimSpace p)) as [ip|] eqn:E; [|done].
  intros (ips & Hi & [= <-])%res_bind_Ok_inv. destruct (IH _ Hi). split; constructor; try done. by eapply ParseIP_wf.
Qed.
Lemma parseRemoteIP_wf a ip : parseRemoteIP a = Some ip → ip_wf ip.
Proof. apply ParseIP_wf. Qed.
(** The text of an address is never blank, so [ClientIPFromRequest] keeps it. *)
Lemma IPString_chars ip : ip_wf ip → Forall addr_char (bytes (IPString ip)).
Proof.
  intros [Hl Hb]. assert (∀ l, Forall addr_char l → Forall addr_char (bytes (of_bytes l))) as Hby.
  { intros l H. rewrite bytes_of_bytes; [done|]. eapply Forall_impl; [exact H|]. unfold addr_char, is_byte. cbn. lia. }
  unfold IPString. destruct (To4 ip) as [q|] eqn:E; apply Hby; [|by apply string6_chars].
  apply string4_chars. unfold To4 in E. rewrite Hl in E. cbn -[v4InV6Prefix] in E. case_bool_decide; [|done]. injection E as <-. by apply Forall_drop.
Qed.
Lemma IPString_kept ip : ip_wf ip → TrimSpace (IPString ip) ≠ "".
Proof.
  intros Hw E. pose proof (ParseIP_String ip Hw) as Hp. pose proof (IPString_chars ip Hw) as Hc.
  assert (bytes (IPString ip) ≠ []) as Hne by (intros Hn; unfold ParseIP in Hp; by rewrite Hn in Hp).
  apply (f_equal bytes) in E. rewrite bytes_TrimSpace, trim_ascii in E; [by rewrite E in Hne|done|].
  eapply Forall_impl; [exact Hc|]. unfold addr_char. cbn. lia.
Qed.

(** * What passes *)
(** The parts of a passed request. *)
Lemma ProxyMiddleware_Passed c r r' : ProxyMiddleware c r = Passed r' →
  configErr c = None ∧
  (r_Path (q_http r) = "/healthz" ∨ allowedHosts c = ∅ ∨ isAllowedHost c (r_Host (q_http r)) = true) ∧
  ∃ ip proto, forwarded c r = inr (ip, proto) ∧
    (forceHTTPS c = true → r_Path (q_http r) ≠ "/healthz" → proto ≠ "http") ∧
    r' = ProxyRequest (set_proto proto (q_http r)) (q_RemoteAddr r) (foldl (λ h name, Del name h) (q_Header r) forwardingHeaders) (q_RequestURI r) (Some ip).
Proof.
  unfold ProxyMiddleware. destruct (bool_decide_reflect (configErr c = None)) as [He|]; [|done]. cbn [negb].
  destruct (bool_decide_reflect (r_Path (q_http r) = "/healthz")) as [Hp|Hp]; cbn [negb andb].
  - destruct (forwarded c r) as [m|[ip proto]]; [done|]. rewrite andb_false_r. intros [= <-]. split_and!; [done|by left|]. by exists ip, proto.
  - destruct (bool_decide_reflect (allowedHosts c = ∅)) as [Hh|Hh]; cbn [negb andb];
      [|destruct (isAllowedHost c (r_Host (q_http r))) eqn:Ha; cbn [negb]; [|done]];
      (destruct (forwarded c r) as [m|[ip proto]]; [done|]; rewrite andb_true_r;
       destruct (forceHTTPS c && bool_decide (proto = "http")) eqn:Hf; [repeat case_match; done|]; intros [= <-];
       split_and!; [done|auto|]; exists ip, proto; split_and!; [done| |done]; intros Hforce _ Hproto; rewrite Hforce in Hf; cbn [andb] in Hf;
       by apply bool_decide_eq_false in Hf).
Qed.
Lemma parseForwardedProto_Ok vs p : parseForwardedProto vs = Ok p → p = "" ∨ p = "http" ∨ p = "https".
Proof.
  destruct vs as [|v [|]]; cbn [parseForwardedProto]; [intros [= <-]; by left| |done].
  destruct (contains 44 (ToLower (TrimSpace v))); cbn [orb]; [done|].
  destruct (bool_decide_reflect (ToLower (TrimSpace v) = "http")) as [->|]; [intros [= <-]; auto|].
  destruct (bool_decide_reflect (ToLower (TrimSpace v) = "https")) as [->|]; [intros [= <-]; auto|done].
Qed.
Lemma forwarded_proto c r ip proto : forwarded c r = inr (ip, proto) → proto = "http" ∨ proto = "https".
Proof.
  unfold forwarded. destruct (isTrustedProxy _ _); [|intros [= _ <-]; destruct (r_TLS _); auto].
  destruct (resolveForwardedForStrict _ _ _) as [rs|]; [|done]. destruct (match rs with Some _ => _ | None => _ end) as [cl|]; [|done].
  destruct (parseForwardedProto _) as [p|] eqn:E; [|done]. intros [= _ <-].
  destruct (parseForwardedProto_Ok _ _ E) as [->|[->| ->]]; cbn; [destruct (r_TLS _)|..]; auto.
Qed.
Lemma RequestProto_set p r : p = "http" ∨ p = "https" → RequestProto (set_proto p r) = p.
Proof. by intros [->| ->]. Qed.

(** A request that passes the proxy layer of a server configured from its environment
    was made for a host written in [ALLOWED_HOSTS] (the health check apart); it carries none
    of the forwarding headers any more and is otherwise unchanged; and with [FORCE_HTTPS]
    the gate behind the layer sees it as an HTTPS request, the health check apart. A
    redirect goes to an allowed host. *)
Theorem proxy_admits env r :
  let c := NewProxyConfigFromEnv env in
  match ProxyMiddleware c r with
  | Refused _ status => status = 400 ∨ status = 503 ∧ configErr c ≠ None
  | Redirected url => ∃ h, url = "https://" +:+ h +:+ q_RequestURI r ∧ (allowed_by env h ∨ allowed_by env (normalizeHost h))
  | Passed r' =>
    (r_Path (q_http r) = "/healthz" ∨ allowed_by env (normalizeHost (r_Host (q_http r)))) ∧
    (∀ name, name ∈ forwardingHeaders → Values (q_Header r') name = []) ∧
    (∀ k, k ∉ CanonicalHeaderKey <$> forwardingHeaders → q_Header r' !! k = q_Header r !! k) ∧
    q_http r' = set_proto (RequestProto (q_http r')) (q_http r) ∧ q_RemoteAddr r' = q_RemoteAddr r ∧
    (forceHTTPS c = true → r_Path (q_http r) ≠ "/healthz" → RequestProto (q_http r') = "https")
  end.
Proof.
  intros c. destruct (ProxyMiddleware c r) as [m s|url|r'] eqn:E.
  - revert E. unfold ProxyMiddleware. destruct (bool_decide_reflect (configErr c = None)); cbn [negb]; [|intros [= _ <-]; by right].
    destruct (_ && _); [intros [= _ <-]; by left|]. destruct (forwarded c r) as [|[? ?]]; [intros [= _ <-]; by left|].
    destruct (_ && _); [|done]. case_bool_decide; [intros [= _ <-]; by left|done].
  - revert E. unfold ProxyMiddleware. destruct (bool_decide_reflect (configErr c = None)) as [He|]; cbn [negb]; [|done].
    destruct (config_valid env He) as [Hh Hr]. fold c in Hh, Hr.
    destruct (_ && _); [done|]. destruct (forwarded c r) as [|[? ?]]; [done|]. destruct (_ && _); [|done].
    case_bool_decide as Hne; [done|]. intros [= <-]. exists (redirectTargetHost c (r_Host (q_http r))).
    split; [done|]. revert Hne. unfold redirectTargetHost. case_bool_decide as H1; cbn [negb].
    + destruct (isAllowedHost c (normalizeHost _)) eqn:Ha; cbn [negb]; [|done]. intros _. right. by apply config_hosts, isAllowedHost_in.
    + left. apply config_hosts. by destruct Hr.
  - apply ProxyMiddleware_Passed in E as (He & Hh & ip & proto & Hf & Hforce & ->). cbn [q_http q_Header q_RemoteAddr].
    destruct (config_valid env He) as [Hne _]. fold c in Hne. pose proof (forwarded_proto _ _ _ _ Hf) as Hp. rewrite RequestProto_set by done. split_and!; try done.
    + destruct Hh as [?|[?|Ha]]; [by left|done|]. right. by apply config_hosts, isAllowedHost_in.
    + intros name Hn. by apply deleted_values.
    + intros k Hk. apply deleted_other. intros n Hn <-. apply Hk. by apply list_elem_of_fmap_2.
    + intros H1 H2. destruct Hp as [->|]; [by destruct (Hforce H1 H2)|done].
Qed.

Lemma ClientIPFromRequest_kept r ip : ip_wf ip → q_clientIP r = Some (IPString ip) → ClientIPFromRequest r = IPString ip.
Proof. intros Hw E. unfold ClientIPFromRequest. rewrite E. rewrite bool_decide_eq_false_2; [done|]. by apply IPString_kept. Qed.

(** The address of a trusted peer's request. *)
Definition forwarded_client (c : ProxyConfig) (r : request) (peer ip : list Z) : Prop :=
  match Values (q_Header r) "X-Forwarded-For" with
  | [h] => ∃ hops, Forall2 (λ p x, ParseIP (TrimSpace p) = Some x) (Split h 44) hops ∧ charged c (hops ++ [peer]) ip
  | [] => match Values (q_Header r) "X-Real-IP" with
          | [] => ip = peer
          | [v] => ParseIP (TrimSpace v) = Some ip
          | _ => False
          end
  | _ => False
  end.
Lemma charged_wf c hops ip : Forall ip_wf hops → charged c hops ip → ip_wf ip.
Proof.
  rewrite Forall_forall. intros Hw [(pre & suf & -> & _)|[_ H]]; apply Hw; [set_solver|]. destruct hops as [|x l]; [done|]. injection H as ->. by left.
Qed.
Lemma charged_exists c hops : hops ≠ [] → ∃ ip, charged c hops ip.
Proof.
  intros Hne. destruct (split_trusted c hops) as [Ht|(pre & h & suf & -> & Hh & Hs)]; [|exists h; left; by exists pre, suf].
  destruct hops as [|x l]; [done|]. exists x. by right.
Qed.

Lemma forwarded_trusted c r peer s p : parseRemoteIP (q_RemoteAddr r) = Some peer → isTrustedProxy c (Some peer) = true → forwarded c r = inr (s, p) →
  ∃ ip, ip_wf ip ∧ s = IPString ip ∧ forwarded_client c r peer ip.
Proof.
  intros Hr Ht. unfold forwarded, forwarded_client. rewrite Hr, Ht. pose proof (parseRemoteIP_wf _ _ Hr) as Hw.
  destruct (Values (q_Header r) "X-Forwarded-For") as [|h [|]]; cbn [resolveForwardedForStrict]; [| |done].
  - destruct (Values (q_Header r) "X-Real-IP") as [|v [|]]; cbn [parseSingleIPHeader]; [| |done].
    + destruct (parseForwardedProto _); [|done]. intros [= <- _]. by exists peer.
    + destruct (ParseIP (TrimSpace v)) as [ip|] eqn:E; [|done]. destruct (parseForwardedProto _); [|done]. intros [= <- _]. exists ip. split_and!; [by eapply ParseIP_wf|done|done].
  - destruct (parse_hops (Split h 44)) as [hops|e] eqn:Eh; cbn [mbind res_bind]; [|done]. apply parse_hops_wf in Eh as [Hws Hf2].
    destruct (charged_exists c (hops ++ [peer])) as [ip Hip]; [by destruct hops|]. rewrite (proj2 (rightmost_charged c (hops ++ [peer]) ip) Hip).
    destruct (parseForwardedProto _); [|done]. intros [= <- _]. exists ip. split_and!; [|done|by exists hops].
    eapply charged_wf; [|exact Hip]. apply Forall_app_2; [done|by constructor].
Qed.
Lemma forwarded_untrusted c r : isTrustedProxy c (parseRemoteIP (q_RemoteAddr r)) = false →
  forwarded c r = inr (match parseRemoteIP (q_RemoteAddr r) with Some ip => IPString ip | None => "" end, if r_TLS (q_http r) then "https" else "http").
Proof. intros H. unfold forwarded. by rewrite H. Qed.

(** C22. The client address behind the proxy layer cannot be forged. For a peer that is not
    a trusted proxy it is the address of the connection and the protocol is that of the
    connection, whatever headers the request has. For a trusted peer it is the last hop of
    the chain of [X-Forwarded-For] and the peer that is not itself trusted, so that a
    client cannot change it by what it writes in front of its own hop; without that
    header, the address in [X-Real-IP] or the peer. The text that limiters and audits use as a
    key reads back as exactly this address. The request that is passed on has none of the
    forwarding headers left, and its other headers are unchanged. *)
Theorem client_address_unforgeable c r r' : ProxyMiddleware c r = Passed r' →
  (∀ name, name ∈ forwardingHeaders → Values (q_Header r') name = []) ∧
  (∀ k, k ∉ CanonicalHeaderKey <$> forwardingHeaders → q_Header r' !! k = q_Header r !! k) ∧
  match parseRemoteIP (q_RemoteAddr r) with
  | None => ClientIPFromRequest r' = "unknown" ∧ RequestProto (q_http r') = (if r_TLS (q_http r) then "https" else "http")
  | Some peer => ∃ ip, ClientIPFromRequest r' = IPString ip ∧ ParseIP (IPString ip) = Some ip ∧
      if isTrustedProxy c (Some peer) then forwarded_client c r peer ip
      else ip = peer ∧ RequestProto (q_http r') = (if r_TLS (q_http r) then "https" else "http")
  end.
Proof.
  intros (_ & _ & s & p & Hf & _ & ->)%ProxyMiddleware_Passed. cbn [q_http q_Header]. rewrite RequestProto_set by (by eapply forwarded_proto).
  split; [intros name Hn; by apply deleted_values|].
  split; [intros k Hk; apply deleted_other; intros n Hn <-; apply Hk; by apply list_elem_of_fmap_2|].
  destruct (parseRemoteIP (q_RemoteAddr r)) as [peer|] eqn:Hr; [destruct (isTrustedProxy c (Some peer)) eqn:Ht|].
  - destruct (forwarded_trusted _ _ _ _ _ Hr Ht Hf) as (ip & Hw & -> & Hc). exists ip. split_and!; [by apply ClientIPFromRequest_kept|by apply ParseIP_String|done].
  - rewrite forwarded_untrusted, Hr in Hf by (by rewrite Hr). injection Hf as <- <-. pose proof (parseRemoteIP_wf _ _ Hr) as Hw.
    exists peer. split_and!; [by apply ClientIPFromRequest_kept|by apply ParseIP_String|done|done].
  - rewrite forwarded_untrusted, Hr in Hf by (by rewrite Hr). injection Hf as <- <-. split; [|done].
    unfold ClientIPFromRequest. cbn [q_RemoteAddr q_clientIP]. by rewrite Hr.
Qed.

Lemma parseStrictBoolEnv_true env name : parseStrictBoolEnv env name = Ok true → TrimSpace (env name) = "true".
Proof. unfold parseStrictBoolEnv. repeat case_bool_decide; done. Qed.

(** A public listener never serves plain HTTP by accident. When the server accepts its
    listener, it terminates TLS itself, listens on a loopback address, was told to accept
    plain HTTP, or else passes on no request (the health check apart) but HTTPS ones: made
    over TLS, or relayed by a trusted proxy. *)
Theorem public_listener_encrypted env host tls :
  ValidatePublicListenerSecurity env host tls = Ok tt →
  tls = true ∨ isLoopbackBindHost host = true ∨ TrimSpace (env "ALLOW_INSECURE_HTTP") = "true" ∨
  ∀ r r', ProxyMiddleware (NewProxyConfigFromEnv env) r = Passed r' → r_Path (q_http r) ≠ "/healthz" →
    RequestProto (q_http r') = "https" ∧
    (r_TLS (q_http r) = true ∨ isTrustedProxy (NewProxyConfigFromEnv env) (parseRemoteIP (q_RemoteAddr r)) = true).
Proof.
  unfold ValidatePublicListenerSecurity. intros (allow & Ha & H)%res_bind_Ok_inv. destruct tls; [by left|]. cbn [orb] in H.
  destruct (isLoopbackBindHost host); [by auto|]. do 2 right. destruct (Validate _) as [e|]; [done|].
  destruct (forceHTTPS (NewProxyConfigFromEnv env)) eqn:Hf; [destruct (bool_decide _); cbn [negb andb] in H|cbn [andb] in H];
    try (left; destruct allow; [by apply parseStrictBoolEnv_true|done]).
  right. intros r r' (_ & _ & s & p & Hw & Hforce & ->)%ProxyMiddleware_Passed Hp. cbn [q_http].
  pose proof (forwarded_proto _ _ _ _ Hw) as Hpr. rewrite RequestProto_set by done. destruct Hpr as [->| ->]; [by destruct (Hforce Hf Hp)|]. split; [done|].
  destruct (isTrustedProxy _ _) eqn:Ht; [by right|left]. rewrite forwarded_untrusted in Hw by done. by destruct (r_TLS (q_http r)).
Qed.
End Proxy.

(** * A server behind one proxy *)
#[local] Instance demo_http : HttpText := {|
  url_Parse := λ _, None;
  unicode_ToLower := λ s, s;
  EqualFold := λ a b, bool_decide (of_bytes (lower_byte <$> bytes a) = of_bytes (lower_byte <$> bytes b))
|}.
Definition demo_env : environment := λ name,
  if bool_decide (name = "TRUSTED_PROXIES") then "10.0.0.0/24, ::1"
  else if bool_decide (name = "ALLOWED_HOSTS") then "money.example, money.example:8443"
  else if bool_decide (name = "FORCE_HTTPS") then "true" else "".
Definition demo_request (addr xff : string) : request :=
  ProxyRequest (Request "GET" "/api/me" "Money.Example" false None [] [] [] []) addr
    (<["X-Forwarded-For" := [xff]]> {["X-Forwarded-Proto" := ["https"]; "Accept" := ["*/*"]]}) "/api/me" None.

Example proxy_demo :
  configErr (NewProxyConfigFromEnv demo_env) = None ∧
  (match ProxyMiddleware (NewProxyConfigFromEnv demo_env) (demo_request "10.0.0.9:4711" "6.6.6.6, 203.0.113.5, 10.0.0.3") with
   | Passed r => ClientIPFromRequest r | _ => "" end) = "203.0.113.5" ∧
  ProxyMiddleware (NewProxyConfigFromEnv demo_env) (demo_request "198.51.100.7:99" "1.1.1.1") = Redirected "https://money.example/api/me".
Proof. by vm_compute. Qed.

Definition demo_config : ProxyConfig := NewProxyConfigFromEnv demo_env.
Definition demo_passed : request :=
  let r := demo_request "10.0.0.9:4711" "6.6.6.6, 203.0.113.5, 10.0.0.3" in match ProxyMiddleware demo_config r with Passed r' => r' | _ => r end.
Lemma client_address_unforgeable_witness :
  ProxyMiddleware demo_config (demo_request "10.0.0.9:4711" "6.6.6.6, 203.0.113.5, 10.0.0.3") = Passed demo_passed ∧
  Values (q_Header demo_passed) "X-Forwarded-For" = [] ∧ q_Header demo_passed !! "Accept" = Some ["*/*"] ∧
  ∃ ip, ClientIPFromRequest demo_passed = IPString ip ∧ ParseIP (IPString ip) = Some ip.
Proof.
  assert (ProxyMiddleware demo_config (demo_request "10.0.0.9:4711" "6.6.6.6, 203.0.113.5, 10.0.0.3") = Passed demo_passed) as E by (vm_compute; reflexivity).
  split; [exact E|]. destruct (client_address_unforgeable _ _ _ E) as (Hd & Ho & Hc).
  split; [apply Hd; match goal with |- ?P => apply (bool_decide_unpack P) end; vm_compute; exact I|].
  split; [rewrite Ho; [vm_compute; reflexivity|match goal with |- ?P => apply (bool_decide_unpack P) end; vm_compute; exact I]|].
  destruct (parseRemoteIP (q_RemoteAddr (demo_request "10.0.0.9:4711" "6.6.6.6, 203.0.113.5, 10.0.0.3"))) as [peer|] eqn:Hp;
    [|vm_compute in Hp; discriminate Hp].
  destruct Hc as (ip & H1 & H2 & _). exists ip. split; [exact H1|exact H2].
Defined.

Lemma public_listener_encrypted_witness :
  ValidatePublicListenerSecurity demo_env "0.0.0.0" false = Ok tt ∧
  ∀ r r', ProxyMiddleware (NewProxyConfigFromEnv demo_env) r = Passed r' → r_Path (q_http r) ≠ "/healthz" → RequestProto (q_http r') = "https".
Proof.
  assert (ValidatePublicListenerSecurity demo_env "0.0.0.0" false = Ok tt) as H by (vm_compute; reflexivity). split; [exact H|].
  destruct (public_listener_encrypted demo_env "0.0.0.0" false H) as [H1|[H1|[H1|H1]]]; [discriminate H1|vm_compute in H1; discriminate H1..|].
  intros r r' Hr Hp. exact (proj1 (H1 r r' Hr Hp)).
Defined.
