(* ===== verification/StrictJson.v ===== *)
(** Duplicate fields in JSON documents: [scanJSONValue] of [aicredentials/file.go] and
    [audithmac/keyring.go].

    The token stream of [encoding/json]'s decoder is the input: [None] in it is a place
    where [Token] reports malformed text, its end is the end of the text. *)
From Stdlib Require Import ZArith Lia.
From stdpp Require Import base gmap list strings.
From S2P Require Import Prelude GoText.
Open Scope Z_scope.

Inductive token := Delim (c : Z) | Str (s : string) | Scalar.
#[global] Instance token_eq_dec : EqDecision token.
Proof. solve_decision. Defined.
Definition stream : Type := list (option token).

Inductive jerr := JSyntax | JKeyNotString | JDuplicate (key : string) | JObject_open | JArray_open | JDelimiter (c : Z) | JFuel.
#[global] Instance jerr_eq_dec : EqDecision jerr.
Proof. solve_decision. Defined.

Definition Token (s : stream) : res jerr (token * stream) :=
  match s with Some t :: s' => Ok (t, s') | _ => Err JSyntax end.
(** [More]: another element before the closing bracket. *)
Definition More (s : stream) : bool :=
  match s with
  | [] => false
  | Some (Delim c) :: _ => negb (bool_decide (c = 125)) && negb (bool_decide (c = 93))
  | _ => true
  end.

(** The three loops share one fuel, which bounds the tokens still to read. *)
Inductive scanning := SValue | SFields (seen : gset string) | SItems.
Fixpoint scan (fuel : nat) (w : scanning) (s : stream) : res jerr stream :=
  match fuel with
  | O => Err JFuel
  | S fuel =>
    match w with
    | SValue =>
      '(t, s) ← Token s;
      match t with
      | Delim c =>
        if bool_decide (c = 123) then
          s ← scan fuel (SFields ∅) s;
          '(closing, s) ← Token s;
          if bool_decide (closing = Delim 125) then Ok s else Err JObject_open
        else if bool_decide (c = 91) then
          s ← scan fuel SItems s;
          '(closing, s) ← Token s;
          if bool_decide (closing = Delim 93) then Ok s else Err JArray_open
        else Err (JDelimiter c)
      | _ => Ok s
      end
    | SFields seen =>
      if More s then
        '(t, s) ← Token s;
        match t with
        | Str key =>
          if bool_decide (key ∈ seen) then Err (JDuplicate key)
          else s ← scan fuel SValue s; scan fuel (SFields ({[key]} ∪ seen)) s
        | _ => Err JKeyNotString
        end
      else Ok s
    | SItems => if More s then s ← scan fuel SValue s; scan fuel SItems s else Ok s
    end
  end.
Definition scanJSONValue (s : stream) : res jerr stream := scan (2 * length s + 2) SValue s.
(** [requireJSONEOF]: nothing follows the value. *)
Definition rejectDuplicateJSONFields (s : stream) : res jerr unit :=
  s ← scanJSONValue s; if bool_decide (s = []) then Ok tt else Err JSyntax.

(** * The values behind a stream *)
Inductive json := JScalar | JString (s : string) | JArray (l : list json) | JObject (l : list (string * json)).

Section json_ind.
Context (P : json → Prop) (HS : P JScalar) (Hs : ∀ s, P (JString s)).
Context (HA : ∀ l, Forall P l → P (JArray l)) (HO : ∀ l, Forall (λ kv, P kv.2) l → P (JObject l)).
Fixpoint json_all (v : json) : P v :=
  match v with
  | JScalar => HS
  | JString s => Hs s
  | JArray l => HA l ((fix go l : Forall P l := match l with [] => Forall_nil_2 P | x :: l' => Forall_cons_2 P x l' (json_all x) (go l') end) l)
  | JObject l => HO l ((fix go l : Forall (λ kv, P kv.2) l := match l with [] => Forall_nil_2 _ | x :: l' => Forall_cons_2 _ x l' (json_all x.2) (go l') end) l)
  end.
End json_ind.

Fixpoint tokens (v : json) : list token :=
  match v with
  | JScalar => [Scalar]
  | JString s => [Str s]
  | JArray l => Delim 91 :: concat (tokens <$> l) ++ [Delim 93]
  | JObject l => Delim 123 :: concat ((λ kv, Str kv.1 :: tokens kv.2) <$> l) ++ [Delim 125]
  end.
(** No object of the value names a field twice. *)
Fixpoint unambiguous (v : json) : bool :=
  match v with
  | JScalar | JString _ => true
  | JArray l => forallb unambiguous l
  | JObject l => bool_decide (NoDup l.*1) && forallb (λ kv, unambiguous kv.2) l
  end.

Definition str (v : json) : stream := Some <$> tokens v.
Lemma tokens_ne v : tokens v ≠ [].
Proof. by destruct v. Qed.
Lemma More_value v rest : More (str v ++ rest) = true.
Proof. by destruct v. Qed.

(** What the scan of a value answers in front of [rest]. *)
Definition answers (ok : bool) (rest : stream) (r : res jerr stream) : Prop :=
  if ok then r = Ok rest else ∃ key, r = Err (JDuplicate key).
Definition scanned (v : json) : Prop :=
  ∀ fuel rest, (length (tokens v) <= fuel)%nat → answers (unambiguous v) rest (scan fuel SValue (str v ++ rest)).

Lemma scan_items l : Forall scanned l → ∀ fuel rest, (length (concat (tokens <$> l)) < fuel)%nat →
  answers (forallb unambiguous l) (Some (Delim 93) :: rest) (scan fuel SItems ((Some <$> concat (tokens <$> l)) ++ Some (Delim 93) :: rest)).
Proof.
  induction 1 as [|v l Hv Hl IH]; intros [|fuel] rest Hf; cbn in Hf; try lia; [done|].
  cbn [fmap list_fmap concat]. rewrite fmap_app, <-app_assoc. fold (str v). cbn [scan]. rewrite More_value.
  rewrite length_app in Hf. specialize (Hv fuel ((Some <$> concat (tokens <$> l)) ++ Some (Delim 93) :: rest) ltac:(lia)).
  pose proof (tokens_ne v). destruct (tokens v) eqn:Et; [done|]. cbn [length] in Hf.
  cbn [forallb]. destruct (unambiguous v); cbn [answers andb] in *.
  - rewrite Hv. cbn [mbind res_bind]. apply IH. lia.
  - destruct Hv as [key ->]. by exists key.
Qed.
Lemma scan_object_fields l : Forall (λ kv, scanned kv.2) l → ∀ fuel seen rest, (length (concat ((λ kv, Str kv.1 :: tokens kv.2) <$> l)) < fuel)%nat →
  answers (bool_decide (NoDup l.*1 ∧ Forall (λ k, k ∉ seen) l.*1) && forallb (λ kv, unambiguous kv.2) l) (Some (Delim 125) :: rest)
    (scan fuel (SFields seen) ((Some <$> concat ((λ kv, Str kv.1 :: tokens kv.2) <$> l)) ++ Some (Delim 125) :: rest)).
Proof.
  induction 1 as [|[k v] l Hv Hl IH]; intros [|fuel] seen rest Hf; cbn in Hf; try lia.
  - done.
  - cbn [fmap list_fmap concat fst snd app]. rewrite fmap_app, <-app_assoc. fold (str v). cbn [scan More Token mbind res_bind].
    rewrite length_app in Hf. cbn [snd] in Hv. specialize (Hv fuel ((Some <$> concat ((λ kv, Str kv.1 :: tokens kv.2) <$> l)) ++ Some (Delim 125) :: rest) ltac:(lia)).
    destruct (bool_decide_reflect (k ∈ seen)) as [Hk|Hk].
    + rewrite bool_decide_eq_false_2; [by exists k|]. intros [_ H]. apply Forall_cons_1 in H as [H _]. done.
    + cbn [forallb snd]. destruct (unambiguous v); cbn [answers andb] in Hv.
      * rewrite Hv. cbn [mbind res_bind andb]. specialize (IH fuel ({[k]} ∪ seen) rest ltac:(lia)).
        rewrite (bool_decide_ext _ (NoDup l.*1 ∧ Forall (λ k0, k0 ∉ {[k]} ∪ seen) l.*1)); [done|].
        rewrite NoDup_cons, Forall_cons, !Forall_forall. set_solver.
      * destruct Hv as [key Hv]. rewrite Hv. cbn [mbind res_bind]. rewrite andb_false_r. by exists key.
Qed.
Lemma scan_value v : scanned v.
Proof.
  induction v as [|s|l IH|l IH] using json_all; intros [|fuel] rest Hf; cbn in Hf; try lia; try done.
  - unfold str. cbn [tokens fmap list_fmap app scan Token mbind res_bind]. rewrite bool_decide_eq_false_2, bool_decide_eq_true_2 by done.
    rewrite fmap_app, <-app_assoc. cbn [fmap list_fmap app]. rewrite length_app in Hf. cbn in Hf.
    pose proof (scan_items l IH fuel rest ltac:(lia)) as H. cbn [unambiguous]. destruct (forallb unambiguous l); cbn [answers] in *.
    + by rewrite H.
    + destruct H as [key ->]. by exists key.
  - unfold str. cbn [tokens fmap list_fmap app scan Token mbind res_bind]. rewrite bool_decide_eq_true_2 by done.
    rewrite fmap_app, <-app_assoc. cbn [fmap list_fmap app]. rewrite length_app in Hf. cbn in Hf.
    pose proof (scan_object_fields l IH fuel ∅ rest ltac:(lia)) as H. cbn [unambiguous].
    rewrite (bool_decide_ext _ (NoDup l.*1)) in H by (rewrite Forall_forall; set_solver).
    destruct (bool_decide (NoDup l.*1) && _); cbn [answers] in *.
    + by rewrite H.
    + destruct H as [key ->]. by exists key.
Qed.

(** The duplicate check of credential and keyring files decides exactly what it is for:
    the text of one JSON value passes when no object in it, at any depth, names a field
    twice, and is refused for a repeated name otherwise; two values are refused. *)
Theorem duplicate_fields_rejected v :
  (unambiguous v = true → rejectDuplicateJSONFields (str v) = Ok tt) ∧
  (unambiguous v = false → ∃ key, rejectDuplicateJSONFields (str v) = Err (JDuplicate key)) ∧
  ∀ w, rejectDuplicateJSONFields (str v ++ str w) ≠ Ok tt.
Proof.
  assert (∀ rest, answers (unambiguous v) rest (scanJSONValue (str v ++ rest))) as H.
  { intros rest. apply scan_value. unfold str. rewrite length_app, length_fmap. lia. }
  unfold rejectDuplicateJSONFields. split_and!.
  - intros E. specialize (H []). rewrite app_nil_r, E in H. cbn [answers] in H. by rewrite H.
  - intros E. specialize (H []). rewrite app_nil_r, E in H. destruct H as [key ->]. by exists key.
  - intros w. specialize (H (str w)). destruct (unambiguous v); cbn [answers] in H; [rewrite H|by destruct H as [key ->]]. cbn [mbind res_bind].
    rewrite bool_decide_eq_false_2; [done|]. unfold str. by destruct w.
Qed.
Lemma duplicate_fields_rejected_witness :
  rejectDuplicateJSONFields (str (JObject [("a", JArray [JObject [("b", JScalar); ("c", JScalar)]]); ("b", JString "x")])) = Ok tt ∧
  ∃ key, rejectDuplicateJSONFields (str (JArray [JObject [("b", JScalar); ("b", JScalar)]])) = Err (JDuplicate key).
Proof.
  split; [by apply (duplicate_fields_rejected (JObject _))|].
  by apply (proj1 (proj2 (duplicate_fields_rejected (JArray [JObject [("b", JScalar); ("b", JScalar)]])))).
Defined.
