(* ===== verification/CivilDate.v ===== *)
(** Dates and instants as Go's [time] package writes and reads them: [Format] and [Parse]
    of the layouts [2006-01-02] and RFC 3339, with their round trips.

    A day is its number since the epoch, an instant its nanoseconds since the epoch. *)
From Stdlib Require Import ZArith Lia.
From stdpp Require Import base list strings.
From S2P Require Import Prelude GoText NetAddr GoTime.
Open Scope Z_scope.

(** * Days *)
Definition parse_day (s : string) : option Z := '(y, m, d, l) ← get_ymd (bytes s); _ ← finish y m d 0 0 0 0 l; Some (unix_days y m d).

(** The civil date of a day number, in the proleptic Gregorian calendar: years of 365 or 366
    days in eras of 400 years, counted from the first of March. *)
Definition civil_of_era (doe : Z) : Z * Z * Z :=
  let yoe := (doe - doe / 1460 + doe / 36524 - doe / 146096) / 365 in
  let doy := doe - (365 * yoe + yoe / 4 - yoe / 100) in
  let mp := (5 * doy + 2) / 153 in
  let d := doy - (153 * mp + 2) / 5 + 1 in
  let m := if mp <? 10 then mp + 3 else mp - 9 in
  (yoe + (if m <=? 2 then 1 else 0), m, d).
Definition civil (z : Z) : Z * Z * Z :=
  let z := z + 719468 in
  let '(y, m, d) := civil_of_era (z mod 146097) in (y + z / 146097 * 400, m, d).

Definition pad (n : nat) (v : Z) : list Z := let d := dec v in replicate (n - length d) 48 ++ d.
(** Years have at least four digits, negative ones stand behind a sign. *)
Definition format_day (z : Z) : string :=
  let '(y, m, d) := civil z in
  of_bytes ((if y <? 0 then 45 :: pad 4 (- y) else pad 4 y) ++ 45 :: pad 2 m ++ 45 :: pad 2 d).

(** * Instants in RFC 3339 *)
(** [t.UTC().Format(time.RFC3339)] *)
Definition FormatRFC3339 (t : Z) : string :=
  let s := t / second in
  let r := s mod 86400 in
  of_bytes (bytes (format_day (s / 86400)) ++ 84 :: pad 2 (r / 3600) ++ 58 :: pad 2 (r / 60 mod 60) ++ 58 :: pad 2 (r mod 60) ++ [90]).
(** [time.Parse(time.RFC3339, s)]: a fraction of the second and an offset are read too. *)
Definition get_offset (l : list Z) : option (Z * list Z) :=
  match l with
  | [] => None
  | sign :: l' =>
    if sign =? 90 then Some (0, l')
    else if (sign =? 43) || (sign =? 45) then
      '(h, l') ← getnum l' true;
      l' ← literal 58 l';
      '(m, l') ← getnum l' true;
      _ ← in_range ((h <=? 24) && (m <=? 60));
      Some ((if sign =? 45 then -1 else 1) * (h * 60 + m) * 60, l')
    else None
  end.
Definition ParseRFC3339 (s : string) : option Z :=
  '(y, m, d, l) ← get_ymd (bytes s);
  l ← literal 84 l;
  '(h, mi, l) ← get_hm l;
  '(sec, ns, l) ← get_seconds l;
  '(off, l) ← get_offset l;
  t ← finish y m d h mi sec ns l;
  Some (t - off * second).

(** * The calendar *)
(** The year of an era and the day in it, from the first of March. *)
Definition year_of_era (doe : Z) : Z := (doe - doe / 1460 + doe / 36524 - doe / 146096) / 365.
Definition day_of_year (doe : Z) : Z := let yoe := year_of_era doe in doe - (365 * yoe + yoe / 4 - yoe / 100).
Lemma year_of_era_spec doe : 0 <= doe < 146097 → let yoe := year_of_era doe in
  0 <= yoe <= 399 ∧ 0 <= day_of_year doe <= 365 ∧ (day_of_year doe = 365 → is_leap (yoe + 1) = true).
Proof.
  intros Hd yoe. unfold day_of_year. fold yoe.
  assert ((yoe + 1) mod 4 = 0 ∧ ((yoe + 1) mod 100 ≠ 0 ∨ (yoe + 1) mod 400 = 0) → is_leap (yoe + 1) = true) as Hl.
  { unfold is_leap. intros [-> H]. cbn. destruct (Z.eqb_spec ((yoe + 1) mod 100) 0) as [E|]; [|done]. destruct H as [|H]; [done|]. by rewrite H. }
  cut (0 <= yoe <= 399 ∧ 0 <= doe - (365 * yoe + yoe / 4 - yoe / 100) <= 365 ∧
       (doe - (365 * yoe + yoe / 4 - yoe / 100) = 365 → (yoe + 1) mod 4 = 0 ∧ ((yoe + 1) mod 100 ≠ 0 ∨ (yoe + 1) mod 400 = 0))); [naive_solver|]. clear Hl.
  assert (doe = 146096 ∨ doe / 146096 = 0 ∧ (doe / 36524 = 0 ∨ doe / 36524 = 1 ∨ doe / 36524 = 2 ∨ doe / 36524 = 3)) as [->|[E Hc]] by (Z.div_mod_to_equations; lia);
    [subst yoe; vm_compute; intuition congruence|].
  assert (36524 * (doe / 36524) <= doe < 36524 * (doe / 36524) + 36524) as Hr by (Z.div_mod_to_equations; lia).
  subst yoe. unfold year_of_era. rewrite E. clear E.
  destruct Hc as [E|[E|[E|E]]]; rewrite E in *; clear E;
    (assert (1460 * (doe / 1460) <= doe < 1460 * (doe / 1460) + 1460) as Ha by (Z.div_mod_to_equations; lia); revert Ha;
     generalize (doe / 1460); intros a Ha;
     match goal with |- context [(doe - a + ?c - 0) / 365] =>
       assert (365 * ((doe - a + c - 0) / 365) <= doe - a + c < 365 * ((doe - a + c - 0) / 365) + 365) as Hy by (Z.div_mod_to_equations; lia); revert Hy;
       generalize ((doe - a + c - 0) / 365); intros y Hy end;
     Z.div_mod_to_equations; lia).
Qed.

(** The month behind a day of a year that starts in March; January and February belong to
    the next calendar year. Only the leap day depends on the year. *)
Definition month_day (doy : Z) : Z * Z :=
  let mp := (5 * doy + 2) / 153 in (if mp <? 10 then mp + 3 else mp - 9, doy - (153 * mp + 2) / 5 + 1).
Definition month_ok (y doy : Z) : bool :=
  let '(m, d) := month_day doy in
  if m <=? 2 then (days_before_month (Z.to_nat (m - 1)) y + (d - 1) =? doy - 306) && between 1 12 m && between 1 (if m =? 2 then 29 else 31) d && (306 <=? doy)
                  && (negb ((m =? 2) && (d =? 29)) || (doy =? 365))
  else (days_before_month (Z.to_nat (m - 1)) y + (d - 1) =? 59 + (if is_leap y then 1 else 0) + doy) && between 1 12 m && between 1 (daysIn m y) d && (doy <? 306).
Lemma months_checked : forallb (λ doy, month_ok 2000 doy && month_ok 2001 doy) (seqZ 0 366) = true.
Proof. vm_compute. reflexivity. Qed.
Definition sample (y : Z) : Z := if is_leap y then 2000 else 2001.
Lemma sample_daysIn m y : daysIn m (sample y) = daysIn m y.
Proof. unfold daysIn, sample. by destruct (is_leap y). Qed.
Lemma sample_months n y : days_before_month n (sample y) = days_before_month n y.
Proof. induction n as [|n IH]; [done|]. cbn [days_before_month]. by rewrite IH, sample_daysIn. Qed.
Lemma month_ok_all y doy : 0 <= doy <= 365 → month_ok y doy = true.
Proof.
  intros Hd. pose proof (checked_at _ 366 doy months_checked ltac:(lia)) as [H1 H2]%andb_prop.
  assert (month_ok (sample y) doy = true) as H by (unfold sample; by destruct (is_leap y)).
  unfold month_ok in *. destruct (month_day doy) as [m d]. rewrite sample_months, sample_daysIn in H.
  assert (is_leap (sample y) = is_leap y) as E by (unfold sample; by destruct (is_leap y)). by rewrite E in H.
Qed.

Lemma civil_of_era_spec doe : 0 <= doe < 146097 →
  let '(y, m, d) := civil_of_era doe in unix_days y m d = doe - 719468 ∧ 1 <= m <= 12 ∧ 1 <= d <= daysIn m y.
Proof.
  intros Hd. destruct (year_of_era_spec doe Hd) as (Hy & Hdy & Hl). unfold civil_of_era. fold (year_of_era doe). cbv zeta. fold (day_of_year doe).
  assert (doe = 365 * year_of_era doe + year_of_era doe / 4 - year_of_era doe / 100 + day_of_year doe) as Ed by (unfold day_of_year; lia).
  revert Hy Hdy Hl Ed. generalize (year_of_era doe) (day_of_year doe). intros y doy Hy Hdy Hl Ed.
  set (m := if (5 * doy + 2) / 153 <? 10 then (5 * doy + 2) / 153 + 3 else (5 * doy + 2) / 153 - 9). set (d := doy - (153 * ((5 * doy + 2) / 153) + 2) / 5 + 1).
  pose proof (month_ok_all (y + (if m <=? 2 then 1 else 0)) doy Hdy) as Hm. unfold month_ok, month_day in Hm. cbv zeta in Hm. fold m d in Hm.
  unfold between in Hm. unfold unix_days, days_before_year. destruct (Z.leb_spec m 2) as [Hm2|Hm2].
  - assert (is_leap (y + 1) = false → m = 2 → d ≠ 29) as Hleap.
    { intros Hf -> ->. destruct (Z.eqb_spec doy 365) as [E|]; [by rewrite (Hl E) in Hf|]. cbn in Hm. lia. }
    split; [Z.div_mod_to_equations; lia|]. split; [lia|]. unfold daysIn. destruct (Z.eqb_spec m 2); [destruct (is_leap (y + 1)); [lia|]; specialize (Hleap eq_refl); lia|].
    assert (m = 1) as -> by lia. cbn. lia.
  - rewrite Z.add_0_r in *. assert (is_leap y = true ↔ y mod 4 = 0 ∧ (y mod 100 ≠ 0 ∨ y mod 400 = 0)) as Hleap.
    { unfold is_leap. destruct (Z.eqb_spec (y mod 4) 0), (Z.eqb_spec (y mod 100) 0), (Z.eqb_spec (y mod 400) 0); cbn; split; try done; lia. }
    split; [|lia]. destruct (is_leap y).
    + pose proof (proj1 Hleap eq_refl). Z.div_mod_to_equations; lia.
    + assert (¬ (y mod 4 = 0 ∧ (y mod 100 ≠ 0 ∨ y mod 400 = 0))) by (intros ?; by apply Hleap in H). Z.div_mod_to_equations; lia.
Qed.

Lemma is_leap_era y k : is_leap (y + k * 400) = is_leap y.
Proof.
  unfold is_leap. replace ((y + k * 400) mod 4) with (y mod 4) by (Z.div_mod_to_equations; lia).
  replace ((y + k * 400) mod 100) with (y mod 100) by (Z.div_mod_to_equations; lia). by rewrite Z.mod_add.
Qed.
Lemma daysIn_era m y k : daysIn m (y + k * 400) = daysIn m y.
Proof. unfold daysIn. by rewrite is_leap_era. Qed.
Lemma days_before_month_era n y k : days_before_month n (y + k * 400) = days_before_month n y.
Proof. induction n as [|n IH]; [done|]. cbn [days_before_month]. by rewrite IH, daysIn_era. Qed.
Lemma unix_days_era y m d k : unix_days (y + k * 400) m d = unix_days y m d + k * 146097.
Proof.
  unfold unix_days, days_before_year. rewrite days_before_month_era.
  replace ((y + k * 400 - 1) / 4) with ((y - 1) / 4 + k * 100) by (Z.div_mod_to_equations; lia).
  replace ((y + k * 400 - 1) / 100) with ((y - 1) / 100 + k * 4) by (Z.div_mod_to_equations; lia).
  replace ((y + k * 400 - 1) / 400) with ((y - 1) / 400 + k) by (Z.div_mod_to_equations; lia). lia.
Qed.
Lemma civil_spec z y m d : civil z = (y, m, d) → unix_days y m d = z ∧ 1 <= m <= 12 ∧ 1 <= d <= daysIn m y.
Proof.
  unfold civil. pose proof (Z.mod_pos_bound (z + 719468) 146097 ltac:(lia)) as Hb.
  pose proof (civil_of_era_spec _ Hb) as Hc. destruct (civil_of_era _) as [[y0 m0] d0].
  intros [= <- <- <-]. destruct Hc as (Hu & Hm & Hd). rewrite unix_days_era, daysIn_era, Hu.
  split; [pose proof (Z.div_mod (z + 719468) 146097 ltac:(lia)); lia|done].
Qed.

(** * Digits *)
Lemma pad2_checked : forallb (λ v, bool_decide (pad 2 v = [48 + v / 10; 48 + v mod 10])) (seqZ 0 100) = true.
Proof. vm_compute. reflexivity. Qed.
Lemma pad4_checked : forallb (λ v, bool_decide (pad 4 v = [48 + v / 1000; 48 + v / 100 mod 10; 48 + v / 10 mod 10; 48 + v mod 10])) (seqZ 0 10000) = true.
Proof. vm_compute. reflexivity. Qed.
Lemma pad2 v : 0 <= v < 100 → pad 2 v = [48 + v / 10; 48 + v mod 10].
Proof. intros Hv. exact (bool_decide_eq_true_1 _ (checked_at _ _ v pad2_checked Hv)). Qed.
Lemma pad4 v : 0 <= v < 10000 → pad 4 v = [48 + v / 1000; 48 + v / 100 mod 10; 48 + v / 10 mod 10; 48 + v mod 10].
Proof. intros Hv. exact (bool_decide_eq_true_1 _ (checked_at _ _ v pad4_checked Hv)). Qed.
Lemma is_digit_of d : 0 <= d < 10 → is_digit (48 + d) = true.
Proof. intros Hd. unfold is_digit, between. lia. Qed.
Lemma getnum_pad v l fixed : 0 <= v < 100 → getnum (pad 2 v ++ l) fixed = Some (v, l).
Proof.
  intros Hv. rewrite pad2 by done. cbn [app getnum]. rewrite !is_digit_of by (Z.div_mod_to_equations; lia). cbn [negb]. do 2 f_equal. Z.div_mod_to_equations; lia.
Qed.
Lemma get_year_pad v l : 0 <= v < 10000 → get_year (pad 4 v ++ l) = Some (v, l).
Proof.
  intros Hv. rewrite pad4 by done. cbn [app get_year]. rewrite !is_digit_of by (Z.div_mod_to_equations; lia). cbn [andb]. do 2 f_equal. Z.div_mod_to_equations; lia.
Qed.
Lemma pad_bytes n v : 0 <= v → Forall is_byte (pad n v).
Proof.
  intros Hv. unfold pad. apply Forall_app_2; [apply Forall_replicate; unfold is_byte; lia|].
  destruct (dec_bytes v Hv) as (_ & Hd & _). eapply Forall_impl; [exact Hd|]. unfold is_byte. cbn. lia.
Qed.

(** The years with four digits. *)
Definition printable_day (z : Z) : Prop := unix_days 0 1 1 <= z < unix_days 10000 1 1.

Lemma days_of_year y : days_before_year (y + 1) = days_before_year y + 365 + (if is_leap y then 1 else 0).
Proof.
  unfold days_before_year, is_leap. destruct (Z.eqb_spec (y mod 4) 0), (Z.eqb_spec (y mod 100) 0), (Z.eqb_spec (y mod 400) 0); cbn;
    Z.div_mod_to_equations; lia.
Qed.
Lemma months_within m y : 1 <= m <= 12 → 0 <= days_before_month (Z.to_nat (m - 1)) y ∧ days_before_month (Z.to_nat (m - 1)) y + daysIn m y <= 365 + (if is_leap y then 1 else 0).
Proof.
  intros Hm. assert (m = 1 ∨ m = 2 ∨ m = 3 ∨ m = 4 ∨ m = 5 ∨ m = 6 ∨ m = 7 ∨ m = 8 ∨ m = 9 ∨ m = 10 ∨ m = 11 ∨ m = 12) as Hc by lia.
  rewrite <-sample_months, <-sample_daysIn. unfold sample. repeat destruct Hc as [->|Hc]; try subst m; destruct (is_leap y); vm_compute; intuition congruence.
Qed.
Lemma days_before_year_mono a b : a <= b → days_before_year a <= days_before_year b.
Proof. intros H. unfold days_before_year. Z.div_mod_to_equations; lia. Qed.
Lemma civil_year z y m d : printable_day z → civil z = (y, m, d) → 0 <= y <= 9999.
Proof.
  intros [H1 H2] (E & Hm & Hd)%civil_spec. destruct (months_within m y Hm) as [Hw1 Hw2]. pose proof (days_of_year y) as Hy.
  unfold unix_days in E. change (unix_days 0 1 1) with (days_before_year 0 - 719162) in H1. change (unix_days 10000 1 1) with (days_before_year 10000 - 719162) in H2.
  assert (¬ y + 1 <= 0) by (intros ?%days_before_year_mono; lia). assert (¬ 10000 <= y) by (intros ?%days_before_year_mono; lia). lia.
Qed.

(** The fields of a date, read back from its text. *)
Lemma get_ymd_format z l : printable_day z → ∃ y m d, civil z = (y, m, d) ∧ get_ymd (bytes (format_day z) ++ l) = Some (y, m, d, l) ∧
  unix_days y m d = z ∧ 1 <= m <= 12 ∧ 1 <= d <= daysIn m y.
Proof.
  intros Hp. unfold format_day. destruct (civil z) as [[y m] d] eqn:E. pose proof (civil_year _ _ _ _ Hp E) as Hy. apply civil_spec in E as (E & Hm & Hd).
  assert (daysIn m y <= 31) as H31 by (unfold daysIn; repeat case_match; lia).
  exists y, m, d. split; [done|]. split; [|done]. destruct (Z.ltb_spec y 0); [lia|].
  rewrite bytes_of_bytes.
  - rewrite <-app_assoc. cbn [app]. rewrite <-app_assoc. cbn [app]. unfold get_ymd. rewrite get_year_pad by lia. cbn [mbind option_bind literal].
    change (45 =? 45) with true. change (45 =? 32) with false. cbv iota. cbn [mbind option_bind]. rewrite getnum_pad by lia. cbn [mbind option_bind].
    unfold in_range. destruct (Z.leb_spec 1 m), (Z.leb_spec m 12); try lia. cbn [andb mbind option_bind literal].
    change (45 =? 45) with true. change (45 =? 32) with false. cbv iota. cbn [mbind option_bind]. rewrite getnum_pad by lia. done.
  - apply Forall_app_2; [apply pad_bytes; lia|]. constructor; [unfold is_byte; lia|]. apply Forall_app_2; [apply pad_bytes; lia|].
    constructor; [unfold is_byte; lia|apply pad_bytes; lia].
Qed.
Lemma finish_ok y m d h mi s ns : 1 <= d <= daysIn m y → finish y m d h mi s ns [] = Some (go_date y m d h mi s ns).
Proof. intros Hd. unfold finish, in_range. rewrite bool_decide_eq_true_2 by done. cbn. destruct (Z.leb_spec 1 d), (Z.leb_spec d (daysIn m y)); try lia. done. Qed.

Lemma parse_format_day z : printable_day z → parse_day (format_day z) = Some z.
Proof.
  intros Hp. destruct (get_ymd_format z [] Hp) as (y & m & d & _ & Hg & E & _ & Hd). rewrite app_nil_r in Hg.
  unfold parse_day. rewrite Hg. cbn [mbind option_bind]. rewrite finish_ok by done. cbn. by rewrite E.
Qed.
Lemma literal_here b l : b ≠ 32 → literal b (b :: l) = Some l.
Proof. intros Hb. unfold literal. by rewrite Z.eqb_refl, (proj2 (Z.eqb_neq b 32)). Qed.

Lemma parse_format_rfc3339 t : printable_day (t / second / 86400) → ParseRFC3339 (FormatRFC3339 t) = Some (t / second * second).
Proof.
  intros Hp. unfold FormatRFC3339, ParseRFC3339. set (s := t / second) in *. pose proof (Z.mod_pos_bound s 86400 ltac:(lia)) as Hr. set (r := s mod 86400) in *.
  assert (0 <= r / 3600 < 24 ∧ 0 <= r / 60 mod 60 < 60 ∧ 0 <= r mod 60 < 60) as (Hh & Hm & Hs) by (Z.div_mod_to_equations; lia).
  assert (∀ v, 0 <= v → Forall is_byte (pad 2 v)) as Hpad by (intros; by apply pad_bytes).
  rewrite bytes_of_bytes.
  2: { repeat first [apply Hpad; lia|apply bytes_range|apply Forall_app_2|apply Forall_cons_2|apply Forall_nil_2|unfold is_byte; lia]. }
  destruct (get_ymd_format (s / 86400) (84 :: pad 2 (r / 3600) ++ 58 :: pad 2 (r / 60 mod 60) ++ 58 :: pad 2 (r mod 60) ++ [90]) Hp) as (y & m & d & _ & -> & E & _ & Hd).
  cbn [mbind option_bind]. rewrite literal_here by done. cbn [mbind option_bind]. unfold get_hm. rewrite getnum_pad by lia. cbn [mbind option_bind].
  unfold in_range at 1. destruct (Z.ltb_spec (r / 3600) 24); [|lia]. cbn [mbind option_bind]. rewrite literal_here by done. cbn [mbind option_bind].
  rewrite getnum_pad by lia. cbn [mbind option_bind]. unfold in_range at 1. destruct (Z.ltb_spec (r / 60 mod 60) 60); [|lia]. cbn [mbind option_bind].
  unfold get_seconds. rewrite literal_here by done. cbn [mbind option_bind]. rewrite getnum_pad by lia. cbn [mbind option_bind]. unfold in_range at 1.
  destruct (Z.ltb_spec (r mod 60) 60); [|lia]. cbn [mbind option_bind get_fraction get_offset]. change (90 =? 90) with true. cbv iota. cbn [mbind option_bind].
  rewrite finish_ok by done. cbn [mbind option_bind]. f_equal. unfold go_date. rewrite E. unfold day, hour, minute, second. subst r.
  pose proof (Z.div_mod s 86400 ltac:(lia)). pose proof (Z.div_mod (s mod 86400) 60 ltac:(lia)). Z.div_mod_to_equations; lia.
Qed.
