(* ===== verification/AiCredentials.v ===== *)
(** Credentials of the AI API ([aicredentials/credentials.go], [store.go] and the validation
    behind [file.go]): scoped, expiring bearer tokens, of which only hashes are kept.

    A store publishes complete, validated documents; the file and its JSON are read outside
    of the model ([read], [decode]). Instants are nanoseconds, days count from the epoch. *)
From Stdlib Require Import ZArith Lia.
From stdpp Require Import base gmap list strings.
From S2P Require Import Prelude GoText NetAddr GoTime CivilDate Crypto Session Gate StrictJson.
Open Scope Z_scope.

(** [hex.DecodeString] *)
Fixpoint hex_decode (l : list Z) : option (list Z) :=
  match l with
  | [] => Some []
  | [_] => None
  | a :: b :: l' => x ← hex_value a; y ← hex_value b; rest ← hex_decode l'; Some (16 * x + y :: rest)
  end.

(** * Constants *)
Definition CurrentVersion : Z := 1.
Definition MaxCredentialLifetime : Z := 90 * 24 * Session.Hour.
Definition MinAnalysisDays : Z := 1.
Definition MaxAnalysisDays : Z := 366.
Definition MinResults : Z := 1.
Definition MaxResults : Z := 500.
Definition MaxAllowedTagIDs : Z := 100.
Definition DefaultMaxTransactionsPerDay : Z := 100.
Definition MinTransactionsPerDay : Z := 1.
Definition MaxTransactionsPerDay : Z := 1000.
Definition ScopeTransactionsCreate : string := "transactions:create".
Definition ScopeAnalysisSummary : string := "analysis:summary".
Definition ScopeAnalysisTransactions : string := "analysis:transactions".
Definition ScopeAnalysisMemo : string := "analysis:memo".
Definition ScopeConsoleRelay : string := "console:relay".
Definition allowedScopes : gset string :=
  {[ScopeTransactionsCreate; ScopeAnalysisSummary; ScopeAnalysisTransactions; ScopeAnalysisMemo; ScopeConsoleRelay]}.
Definition maxCredentialIDLength : Z := 64.
Definition maxAccountLength : Z := 256.

Inductive crederr :=
| CPath | CRead | CStructure (e : jerr) | CDecode | CVersion (v : Z) | CMissing
| CId | CTokenHash | CNotBefore | CExpires | COrder | CLifetime
| CNoScope | CScope (s : string) | CScopeDuplicate (s : string) | CScopeRequires (s : string)
| CNoAccount | CAccount (s : string) | CAccountDuplicate (s : string)
| CTagCount | CTag | CTagDuplicate (t : Z) | CDays | CResults | CQuota
| CPeriodPair | CPeriodMissing | CPeriodStart | CPeriodEnd | CPeriodOrder
| CDuplicateId (s : string) | CDuplicateHash (s : string).

(** * Credentials *)
(** [tokenHash] and the three sets are what [validate] prepares; the sets are [None] before. *)
Record Credential := MkCredential {
  ID : string; TokenSHA256 : string; NotBefore : Z; ExpiresAt : Z; Scopes : list string; Accounts : list string;
  AllowedTagIDs : list Z; c_MaxAnalysisDays : Z; c_MaxResults : Z; c_MaxTransactionsPerDay : Z;
  AnalysisStartDate : string; AnalysisEndDate : string; AllowConsoleRelay : bool;
  tokenHash : list Z; scopeSet : option (gset string); accountSet : option (gset string); tagSet : option (gset Z);
  maxTransactionsPerDayPresent : bool
}.
Record File := MkFile { Version : Z; Credentials : option (list Credential) }.

(** [UnmarshalJSON]: the decoded object, where the quota may be absent. *)
Record credentialWire := Wire {
  w_ID : string; w_TokenSHA256 : string; w_NotBefore : Z; w_ExpiresAt : Z; w_Scopes : list string; w_Accounts : list string;
  w_AllowedTagIDs : list Z; w_MaxAnalysisDays : Z; w_MaxResults : Z; w_MaxTransactionsPerDay : option Z;
  w_AnalysisStartDate : string; w_AnalysisEndDate : string
}.
Definition UnmarshalJSON (w : credentialWire) : Credential :=
  MkCredential (w_ID w) (w_TokenSHA256 w) (w_NotBefore w) (w_ExpiresAt w) (w_Scopes w) (w_Accounts w) (w_AllowedTagIDs w)
    (w_MaxAnalysisDays w) (w_MaxResults w) (default 0 (w_MaxTransactionsPerDay w)) (w_AnalysisStartDate w) (w_AnalysisEndDate w)
    false (replicate 32 0) None None None (bool_decide (is_Some (w_MaxTransactionsPerDay w))).

Definition HashToken (rawToken : string) : string := Session.EncodeToString (Sum256 (bytes rawToken)).

Definition member {A} `{Countable A} (s : option (gset A)) (l : list A) (x : A) : bool :=
  match s with Some s => bool_decide (x ∈ s) | None => bool_decide (x ∈ l) end.
Definition HasScope (c : Credential) (scope : string) : bool := member (scopeSet c) (Scopes c) scope.
Definition AllowsAccount (c : Credential) (account : string) : bool :=
  if bool_decide (account = "") then false else member (accountSet c) (Accounts c) account.
Definition AllowsTag (c : Credential) (tagID : Z) : bool :=
  if tagID <=? 0 then false else member (tagSet c) (AllowedTagIDs c) tagID.

Definition id_rune (r : Z) : bool := between 97 122 r || between 65 90 r || between 48 57 r.
Definition validCredentialID (id : string) : bool :=
  negb (bool_decide (len id = 0) || (maxCredentialIDLength <? len id)) &&
  match runes id with
  | [] => true
  | r :: rs => id_rune r && forallb (λ r, id_rune r || (r =? 46) || (r =? 95) || (r =? 45)) rs
  end.

Definition validAccount (account : string) : bool :=
  negb (bool_decide (account = "") || bool_decide (account = "*") || (maxAccountLength <? len account) || negb (bool_decide (TrimSpace account = account))) &&
  forallb (λ r, negb (IsControl r || Cf r)) (runes account).

(** A loop that rejects what [bad] names and what was seen before. *)
Fixpoint distinct {A} `{Countable A} (bad : A → option crederr) (dup : A → crederr) (l : list A) (seen : gset A) : res crederr (gset A) :=
  match l with
  | [] => Ok seen
  | x :: l' =>
    match bad x with
    | Some e => Err e
    | None => if bool_decide (x ∈ seen) then Err (dup x) else distinct bad dup l' ({[x]} ∪ seen)
    end
  end.

Definition zero_instant : Z := -62135596800 * second.

Section Credentials.
Context {text_lib : HttpText}.

(** The checks of [validate] in order; the result carries what it prepared. *)
Definition checkIdentity (c : Credential) : res crederr (list Z) :=
  _ ← ensure (validCredentialID (ID c)) CId;
  _ ← ensure (bool_decide (len (TokenSHA256 c) = 64) && bool_decide (ToLower (TokenSHA256 c) = TokenSHA256 c)) CTokenHash;
  match hex_decode (bytes (TokenSHA256 c)) with
  | Some h => if (Z.of_nat (length h) =? 32) then Ok h else Err CTokenHash
  | None => Err CTokenHash
  end.
Definition checkLifetime (c : Credential) : res crederr unit :=
  _ ← ensure (negb (NotBefore c =? zero_instant)) CNotBefore;
  _ ← ensure (negb (ExpiresAt c =? zero_instant)) CExpires;
  _ ← ensure (NotBefore c <? ExpiresAt c) COrder;
  ensure (Session.Sub (ExpiresAt c) (NotBefore c) <=? MaxCredentialLifetime) CLifetime.
Definition checkScopes (c : Credential) : res crederr (gset string) :=
  _ ← ensure (negb (bool_decide (Scopes c = []))) CNoScope;
  scopes ← distinct (λ s, if bool_decide (s ∈ allowedScopes) then None else Some (CScope s)) CScopeDuplicate (Scopes c) ∅;
  let has s := bool_decide (s ∈ scopes) in
  _ ← ensure (negb (has ScopeAnalysisTransactions && negb (has ScopeAnalysisSummary))) (CScopeRequires ScopeAnalysisSummary);
  _ ← ensure (negb (has ScopeAnalysisMemo && negb (has ScopeAnalysisTransactions))) (CScopeRequires ScopeAnalysisTransactions);
  Ok scopes.
Definition checkAccounts (c : Credential) : res crederr (gset string) :=
  _ ← ensure (negb (bool_decide (Accounts c = []))) CNoAccount;
  distinct (λ a, if validAccount a then None else Some (CAccount a)) CAccountDuplicate (Accounts c) ∅.
Definition checkTags (c : Credential) : res crederr (gset Z) :=
  _ ← ensure (Z.of_nat (length (AllowedTagIDs c)) <=? MaxAllowedTagIDs) CTagCount;
  distinct (λ t, if t <=? 0 then Some CTag else None) CTagDuplicate (AllowedTagIDs c) ∅.
Definition checkLimits (c : Credential) : res crederr Z :=
  _ ← ensure (between MinAnalysisDays MaxAnalysisDays (c_MaxAnalysisDays c)) CDays;
  _ ← ensure (between MinResults MaxResults (c_MaxResults c)) CResults;
  let quota := if (c_MaxTransactionsPerDay c =? 0) && negb (maxTransactionsPerDayPresent c) then DefaultMaxTransactionsPerDay else c_MaxTransactionsPerDay c in
  _ ← ensure (between MinTransactionsPerDay MaxTransactionsPerDay quota) CQuota;
  Ok quota.
Definition checkPeriod (c : Credential) (scopes : gset string) : res crederr unit :=
  let has s := bool_decide (s ∈ scopes) in
  let hasAnalysisScope := has ScopeAnalysisSummary || has ScopeAnalysisTransactions || has ScopeAnalysisMemo in
  let no s := bool_decide (s = "") in
  _ ← ensure (Bool.eqb (no (AnalysisStartDate c)) (no (AnalysisEndDate c))) CPeriodPair;
  _ ← ensure (negb (hasAnalysisScope && no (AnalysisStartDate c))) CPeriodMissing;
  if no (AnalysisStartDate c) then Ok tt
  else
    match parse_day (AnalysisStartDate c) with
    | None => Err CPeriodStart
    | Some start =>
      _ ← ensure (bool_decide (format_day start = AnalysisStartDate c)) CPeriodStart;
      match parse_day (AnalysisEndDate c) with
      | None => Err CPeriodEnd
      | Some stop =>
        _ ← ensure (bool_decide (format_day stop = AnalysisEndDate c)) CPeriodEnd;
        ensure (negb (stop <? start)) CPeriodOrder
      end
    end.

Definition validate (c : Credential) : res crederr Credential :=
  h ← checkIdentity c;
  _ ← checkLifetime c;
  scopes ← checkScopes c;
  accounts ← checkAccounts c;
  tags ← checkTags c;
  quota ← checkLimits c;
  _ ← checkPeriod c scopes;
  Ok (MkCredential (ID c) (TokenSHA256 c) (NotBefore c) (ExpiresAt c) (Scopes c) (Accounts c) (AllowedTagIDs c)
        (c_MaxAnalysisDays c) (c_MaxResults c) quota (AnalysisStartDate c) (AnalysisEndDate c)
        (bool_decide (ScopeConsoleRelay ∈ scopes)) h (Some scopes) (Some accounts) (Some tags) (maxTransactionsPerDayPresent c)).

Fixpoint validate_all (cs : list Credential) (seenIDs seenHashes : gset string) : res crederr (list Credential) :=
  match cs with
  | [] => Ok []
  | c :: cs' =>
    v ← validate c;
    if bool_decide (ID v ∈ seenIDs) then Err (CDuplicateId (ID v))
    else if bool_decide (TokenSHA256 v ∈ seenHashes) then Err (CDuplicateHash (TokenSHA256 v))
    else vs ← validate_all cs' ({[ID v]} ∪ seenIDs) ({[TokenSHA256 v]} ∪ seenHashes); Ok (v :: vs)
  end.
Definition ValidateFile (f : File) : res crederr (list Credential) :=
  if negb (Version f =? CurrentVersion) then Err (CVersion (Version f))
  else match Credentials f with
       | None => Err CMissing
       | Some cs => validate_all cs ∅ ∅
       end.

(** [LoadFile]: the content and its token stream, then the decoded document. *)
Definition LoadFile (path : string) (read : option (list Z)) (lex : list Z → stream) (decode : list Z → option File) : res crederr (list Credential) :=
  if bool_decide (path = "") then Err CPath
  else match read with
       | None => Err CRead
       | Some content =>
         match rejectDuplicateJSONFields (lex content) with
         | Err e => Err (CStructure e)
         | Ok _ => match decode content with None => Err CDecode | Some f => ValidateFile f end
         end
       end.

(** * The store *)
Record Store := MkStore { s_path : string; current : option (list Credential) }.
Definition Reload (read : option (list Z)) (lex : list Z → stream) (decode : list Z → option File) (s : Store) : res crederr unit * Store :=
  match LoadFile (s_path s) read lex decode with
  | Err e => (Err e, s)
  | Ok cs => (Ok tt, MkStore (s_path s) (Some cs))
  end.
Definition NewStore (path : string) (read : option (list Z)) (lex : list Z → stream) (decode : list Z → option File) : res crederr Store :=
  let '(r, s) := Reload read lex decode (MkStore path None) in match r with Ok _ => Ok s | Err e => Err e end.

(** The loop keeps the last match. *)
Definition matched_credential (h : list Z) (cs : list Credential) : option Credential :=
  foldl (λ m c, if bool_decide (h = tokenHash c) then Some c else m) None cs.
Definition Authenticate (s : Store) (rawToken : string) (now : Z) : option Credential :=
  if bool_decide (rawToken = "") then None
  else
    cs ← current s;
    c ← matched_credential (Sum256 (bytes rawToken)) cs;
    if (now <? NotBefore c) || negb (now <? ExpiresAt c) then None else Some c.
Definition List (s : Store) : list Credential := default [] (current s).

(** * What a validated credential is *)
(** The prepared sets are those of the lists, so that either branch of the lookups answers
    membership in the list. *)
Record credential_ok (c : Credential) : Prop := {
  co_id : validCredentialID (ID c) = true;
  co_hash : length (tokenHash c) = 32%nat ∧ Session.EncodeToString (tokenHash c) = TokenSHA256 c;
  co_lifetime : NotBefore c < ExpiresAt c <= NotBefore c + MaxCredentialLifetime;
  co_scopes : scopeSet c = Some (list_to_set (Scopes c)) ∧ NoDup (Scopes c) ∧ list_to_set (Scopes c) ⊆ allowedScopes ∧ Scopes c ≠ [];
  co_scope_needs : (HasScope c ScopeAnalysisTransactions = true → HasScope c ScopeAnalysisSummary = true) ∧
                   (HasScope c ScopeAnalysisMemo = true → HasScope c ScopeAnalysisTransactions = true);
  co_relay : AllowConsoleRelay c = HasScope c ScopeConsoleRelay;
  co_accounts : accountSet c = Some (list_to_set (Accounts c)) ∧ NoDup (Accounts c) ∧ Accounts c ≠ [] ∧ Forall (λ a, validAccount a = true) (Accounts c);
  co_tags : tagSet c = Some (list_to_set (AllowedTagIDs c)) ∧ NoDup (AllowedTagIDs c) ∧ (length (AllowedTagIDs c) <= 100)%nat ∧ Forall (λ t, 0 < t) (AllowedTagIDs c);
  co_days : 1 <= c_MaxAnalysisDays c <= 366;
  co_results : 1 <= c_MaxResults c <= 500;
  co_quota : 1 <= c_MaxTransactionsPerDay c <= 1000;
  co_period : HasScope c ScopeAnalysisSummary = true →
    ∃ start stop, parse_day (AnalysisStartDate c) = Some start ∧ parse_day (AnalysisEndDate c) = Some stop ∧ start <= stop
}.
Definition document_ok (cs : list Credential) : Prop := Forall credential_ok cs ∧ NoDup (ID <$> cs) ∧ NoDup (tokenHash <$> cs).

Lemma distinct_Ok {A} `{Countable A} (bad : A → option crederr) dup l : ∀ seen out, distinct bad dup l seen = Ok out →
  out = list_to_set l ∪ seen ∧ NoDup l ∧ Forall (λ x, bad x = None ∧ x ∉ seen) l.
Proof.
  induction l as [|x l IH]; intros seen out; cbn [distinct]; [intros [= <-]; split_and!; [set_solver|constructor|constructor]|].
  destruct (bad x) eqn:Hb; [done|]. case_bool_decide as Hx; [done|]. intros (-> & Hn & Hf)%IH. rewrite Forall_forall in Hf. split_and!.
  - set_solver.
  - constructor; [|done]. intros Hin. destruct (Hf x Hin). set_solver.
  - constructor; [done|]. rewrite Forall_forall. intros y Hy. destruct (Hf y Hy). set_solver.
Qed.

Lemma pairs_ind {A} (P : list A → Prop) : P [] → (∀ a, P [a]) → (∀ a b l, P l → P (a :: b :: l)) → ∀ l, P l.
Proof. intros H0 H1 H2. fix IH 1. intros [|a [|b l]]; [done|apply H1|apply H2, IH]. Qed.
(** Canonical hexadecimal text is the encoding of what it decodes to. *)
Lemma hex_value_lower b d : hex_value b = Some d → lower_byte b = b → Session.hex_digit d = b ∧ 0 <= d < 16.
Proof.
  intros Hv Hl. pose proof (hex_value_range _ _ Hv) as Hr. split; [|done]. revert Hv Hl. unfold hex_value, digit, lower_byte, between, Session.hex_digit.
  destruct (_ && _) eqn:E1; [intros [= <-] _; destruct (Z.ltb_spec (b - 48) 10); lia|].
  destruct ((97 <=? b) && (b <=? 102)) eqn:E2; [intros [= <-] _; destruct (Z.ltb_spec (b - 87) 10); lia|].
  destruct ((65 <=? b) && (b <=? 70)) eqn:E3; [|done]. intros [= <-]. destruct ((65 <=? b) && (b <=? 90)) eqn:E4; lia.
Qed.
Lemma hex_decode_encode l : ∀ h, hex_decode l = Some h → Forall (λ b, lower_byte b = b) l →
  concat ((λ b, [Session.hex_digit (b / 16); Session.hex_digit (b mod 16)]) <$> h) = l.
Proof.
  induction l as [| |a b l IH] using pairs_ind; intros h Hd Hl; cbn [hex_decode] in Hd; [by injection Hd as <-|done|].
  destruct (hex_value a) as [x|] eqn:Ha; [cbn in Hd|done]. destruct (hex_value b) as [y|] eqn:Hb; [cbn in Hd|done].
  destruct (hex_decode l) as [r|]; [cbn in Hd|done]. injection Hd as <-. apply Forall_cons_1 in Hl as [La Hl]. apply Forall_cons_1 in Hl as [Lb Hl].
  destruct (hex_value_lower a x Ha La) as [Ea Hx], (hex_value_lower b y Hb Lb) as [Eb Hy].
  cbn [fmap list_fmap concat app]. rewrite (IH r eq_refl Hl).
  replace ((16 * x + y) / 16) with x by (Z.div_mod_to_equations; lia). replace ((16 * x + y) mod 16) with y by (Z.div_mod_to_equations; lia).
  by rewrite Ea, Eb.
Qed.
Lemma hex_decode_ascii l h : hex_decode l = Some h → Forall (λ b, 0 <= b < 128) l.
Proof.
  revert h. induction l as [| |a b l IH] using pairs_ind; intros h Hd; cbn [hex_decode] in Hd; [constructor|done|].
  destruct (hex_value a) as [x|] eqn:Ha; [cbn in Hd|done]. destruct (hex_value b) as [y|] eqn:Hb; [cbn in Hd|done].
  destruct (hex_decode l) as [r|]; [cbn in Hd|done].
  assert (∀ c d, hex_value c = Some d → 0 <= c < 128) as Hc.
  { intros c d. unfold hex_value, digit. destruct ((48 <=? c) && (c <=? 57)) eqn:E1; [lia|].
    destruct ((97 <=? c) && (c <=? 102)) eqn:E2; [lia|]. destruct ((65 <=? c) && (c <=? 70)) eqn:E3; [lia|done]. }
  constructor; [by eapply Hc|]. constructor; [by eapply Hc|]. by eapply IH.
Qed.
Lemma ToLower_ascii s : Forall (λ b, 0 <= b < 128) (bytes s) → ToLower s = of_bytes (lower_byte <$> bytes s).
Proof.
  intros Ha. unfold ToLower. assert (forallb (λ b, b <? 128) (bytes s) = true) as ->; [|done].
  apply forallb_forall. intros b Hb. rewrite Forall_forall in Ha. apply list_elem_of_In in Hb. specialize (Ha b Hb). lia.
Qed.
Lemma checkIdentity_Ok c h : checkIdentity c = Ok h → validCredentialID (ID c) = true ∧ length h = 32%nat ∧ Session.EncodeToString h = TokenSHA256 c.
Proof.
  unfold checkIdentity. intros ([] & Hi & Hr)%res_bind_Ok_inv. apply ensure_Ok in Hi.
  apply res_bind_Ok_inv in Hr as ([] & Hl & Hr). apply ensure_Ok in Hl. apply andb_prop in Hl as [_ Hl]. apply bool_decide_eq_true in Hl.
  destruct (hex_decode (bytes (TokenSHA256 c))) as [h0|] eqn:Hd; [|done]. destruct (Z.eqb_spec (Z.of_nat (length h0)) 32); [|done]. injection Hr as <-.
  split_and!; [done|lia|]. pose proof (hex_decode_ascii _ _ Hd) as Ha. rewrite ToLower_ascii in Hl by done. apply (f_equal bytes) in Hl.
  rewrite bytes_of_bytes in Hl.
  - unfold Session.EncodeToString. rewrite (hex_decode_encode _ _ Hd); [apply of_bytes_bytes|].
    clear -Hl. induction (bytes (TokenSHA256 c)) as [|b l IH]; [constructor|]. cbn in Hl. injection Hl as H1 H2. constructor; [done|by apply IH].
  - apply Forall_fmap. eapply Forall_impl; [exact Ha|]. cbn. intros b Hb. unfold lower_byte, between, is_byte. case_match; lia.
Qed.
Lemma checkScopes_Ok c s : checkScopes c = Ok s →
  s = list_to_set (Scopes c) ∧ NoDup (Scopes c) ∧ s ⊆ allowedScopes ∧ Scopes c ≠ [] ∧
  (ScopeAnalysisTransactions ∈ s → ScopeAnalysisSummary ∈ s) ∧ (ScopeAnalysisMemo ∈ s → ScopeAnalysisTransactions ∈ s).
Proof.
  unfold checkScopes. intros ([] & Hn & Hr)%res_bind_Ok_inv. apply ensure_Ok, negb_true_iff, bool_decide_eq_false in Hn.
  apply res_bind_Ok_inv in Hr as (scopes & Hd & Hr). apply distinct_Ok in Hd as (-> & Hnd & Hf). rewrite union_empty_r_L in Hr.
  apply res_bind_Ok_inv in Hr as ([] & H1 & Hr). apply ensure_Ok in H1. apply res_bind_Ok_inv in Hr as ([] & H2 & Hr). apply ensure_Ok in H2. injection Hr as <-.
  split_and!; [done|done| |done| |].
  - intros x Hx. apply elem_of_list_to_set in Hx. rewrite Forall_forall in Hf. destruct (Hf x Hx) as [Hb _]. case_bool_decide; done.
  - intros Hs. destruct (bool_decide_reflect (ScopeAnalysisSummary ∈ (list_to_set (Scopes c) : gset string))); [done|].
    rewrite bool_decide_eq_true_2 in H1 by done. done.
  - intros Hs. destruct (bool_decide_reflect (ScopeAnalysisTransactions ∈ (list_to_set (Scopes c) : gset string))); [done|].
    rewrite bool_decide_eq_true_2 in H2 by done. done.
Qed.

Lemma checkLifetime_Ok c u : checkLifetime c = Ok u → NotBefore c < ExpiresAt c <= NotBefore c + MaxCredentialLifetime.
Proof.
  unfold checkLifetime. intros (? & _ & Hr)%res_bind_Ok_inv. apply res_bind_Ok_inv in Hr as (? & _ & Hr).
  apply res_bind_Ok_inv in Hr as (? & Ho & Hr). apply ensure_Ok in Ho, Hr. apply Z.ltb_lt in Ho. apply Z.leb_le in Hr.
  unfold Session.Sub in Hr. change MaxCredentialLifetime with 7776000000000000 in *. lia.
Qed.
Lemma checkAccounts_Ok c s : checkAccounts c = Ok s →
  s = list_to_set (Accounts c) ∧ NoDup (Accounts c) ∧ Accounts c ≠ [] ∧ Forall (λ a, validAccount a = true) (Accounts c).
Proof.
  unfold checkAccounts. intros ([] & Hn & Hr)%res_bind_Ok_inv. apply ensure_Ok, negb_true_iff, bool_decide_eq_false in Hn.
  apply distinct_Ok in Hr as (-> & Hnd & Hf). rewrite union_empty_r_L. split_and!; try done.
  eapply Forall_impl; [exact Hf|]. cbn. intros a [Ha _]. by destruct (validAccount a).
Qed.
Lemma checkTags_Ok c s : checkTags c = Ok s →
  s = list_to_set (AllowedTagIDs c) ∧ NoDup (AllowedTagIDs c) ∧ (length (AllowedTagIDs c) <= 100)%nat ∧ Forall (λ t, 0 < t) (AllowedTagIDs c).
Proof.
  unfold checkTags. intros ([] & Hn & Hr)%res_bind_Ok_inv. apply ensure_Ok, Z.leb_le in Hn. unfold MaxAllowedTagIDs in Hn.
  apply distinct_Ok in Hr as (-> & Hnd & Hf). rewrite union_empty_r_L. split_and!; [done|done|lia|].
  eapply Forall_impl; [exact Hf|]. cbn. intros a [Ha _]. destruct (Z.leb_spec a 0); [done|lia].
Qed.
Lemma checkLimits_Ok c q : checkLimits c = Ok q → 1 <= c_MaxAnalysisDays c <= 366 ∧ 1 <= c_MaxResults c <= 500 ∧ 1 <= q <= 1000.
Proof.
  unfold checkLimits, between. intros (? & H1 & Hr)%res_bind_Ok_inv. apply res_bind_Ok_inv in Hr as (? & H2 & Hr). apply res_bind_Ok_inv in Hr as (? & H3 & Hr).
  apply ensure_Ok in H1, H2, H3. injection Hr as <-.
  unfold MinAnalysisDays, MaxAnalysisDays, MinResults, MaxResults, MinTransactionsPerDay, MaxTransactionsPerDay in *. lia.
Qed.
Lemma checkPeriod_Ok c s u : checkPeriod c s = Ok u → ScopeAnalysisSummary ∈ s →
  ∃ start stop, parse_day (AnalysisStartDate c) = Some start ∧ parse_day (AnalysisEndDate c) = Some stop ∧ start <= stop.
Proof.
  unfold checkPeriod. intros (? & _ & Hr)%res_bind_Ok_inv Hs. apply res_bind_Ok_inv in Hr as (? & Hm & Hr). apply ensure_Ok in Hm.
  rewrite bool_decide_eq_true_2 in Hm by done. cbn [orb andb] in Hm. apply negb_true_iff in Hm. rewrite Hm in Hr.
  destruct (parse_day (AnalysisStartDate c)) as [start|]; [|done]. apply res_bind_Ok_inv in Hr as (? & _ & Hr).
  destruct (parse_day (AnalysisEndDate c)) as [stop|]; [|done]. apply res_bind_Ok_inv in Hr as (? & _ & Hr). apply ensure_Ok, negb_true_iff, Z.ltb_ge in Hr.
  by exists start, stop.
Qed.

Lemma credential_validate_Ok c v : validate c = Ok v → credential_ok v ∧ ID v = ID c ∧ TokenSHA256 v = TokenSHA256 c.
Proof.
  unfold validate. intros (h & Hi & Hr)%res_bind_Ok_inv. apply checkIdentity_Ok in Hi as (Hid & Hh & He).
  apply res_bind_Ok_inv in Hr as (? & Hl%checkLifetime_Ok & Hr). apply res_bind_Ok_inv in Hr as (scopes & Hs & Hr). apply checkScopes_Ok in Hs as (Es & ? & ? & ? & Hs1 & Hs2).
  apply res_bind_Ok_inv in Hr as (accounts & Ha%checkAccounts_Ok & Hr). destruct Ha as (-> & Ha).
  apply res_bind_Ok_inv in Hr as (tags & Ht%checkTags_Ok & Hr). destruct Ht as (-> & Ht).
  apply res_bind_Ok_inv in Hr as (quota & Hq%checkLimits_Ok & Hr). apply res_bind_Ok_inv in Hr as (? & Hp & Hr). injection Hr as <-.
  assert (∀ s, bool_decide (s ∈ scopes) = true ↔ s ∈ scopes) as Hbd by (intros s; apply bool_decide_eq_true).
  split_and!; [|done|done]. split; cbn; try done; try tauto.
  - by rewrite <-Es.
  - unfold HasScope, member. cbn. by rewrite !Hbd.
  - unfold HasScope, member. cbn. rewrite Hbd. intros Hsum. by eapply checkPeriod_Ok.
Qed.

Lemma validate_all_Ok cs : ∀ ids hashes vs, validate_all cs ids hashes = Ok vs →
  Forall credential_ok vs ∧ NoDup (ID <$> vs) ∧ NoDup (TokenSHA256 <$> vs) ∧ Forall (λ v, ID v ∉ ids ∧ TokenSHA256 v ∉ hashes) vs.
Proof.
  induction cs as [|c cs IH]; intros ids hashes vs; cbn [validate_all]; [intros [= <-]; split_and!; constructor|].
  intros (v & Hv & Hr)%res_bind_Ok_inv. apply credential_validate_Ok in Hv as (Hok & _). case_bool_decide as H1; [done|]. case_bool_decide as H2; [done|].
  apply res_bind_Ok_inv in Hr as (vs' & Hvs & [= <-]). apply IH in Hvs as (Hf & Hn1 & Hn2 & Hs). rewrite Forall_forall in Hs. split_and!.
  - by constructor.
  - cbn. constructor; [|done]. intros (w & Ew & Hw)%list_elem_of_fmap. destruct (Hs w Hw). set_solver.
  - cbn. constructor; [|done]. intros (w & Ew & Hw)%list_elem_of_fmap. destruct (Hs w Hw). set_solver.
  - constructor; [done|]. rewrite Forall_forall. intros w Hw. destruct (Hs w Hw). set_solver.
Qed.
Lemma ValidateFile_Ok f vs : ValidateFile f = Ok vs → document_ok vs.
Proof.
  unfold ValidateFile. destruct (Version f =? CurrentVersion); cbn [negb]; [|done]. destruct (Credentials f) as [cs|]; [|done].
  intros (Hf & Hn & Hh & _)%validate_all_Ok. split_and!; [done|done|].
  rewrite Forall_forall in Hf. revert Hf Hh. clear. induction vs as [|v vs IH]; intros Hf Hh; [constructor|]. cbn in Hh |- *. apply NoDup_cons in Hh as [Hx Hh].
  constructor; [|apply IH; [intros w Hw; apply Hf; by right|done]]. intros (w & Ew & Hw)%list_elem_of_fmap. apply Hx, list_elem_of_fmap. exists w. split; [|done].
  rewrite <-(proj2 (co_hash _ (Hf v ltac:(by left)))), <-(proj2 (co_hash _ (Hf w ltac:(by right)))). by f_equal.
Qed.

(** * The store *)
Record reload := MkReload { rl_read : option (list Z); rl_lex : list Z → stream; rl_decode : list Z → option File }.
Definition reload_step (s : Store) (r : reload) : Store := (Reload (rl_read r) (rl_lex r) (rl_decode r) s).2.
Definition reloads (rs : list reload) (s : Store) : Store := foldl reload_step s rs.
(** The document of the last reload that succeeded. *)
Definition last_loaded (path : string) (rs : list reload) : option (list Credential) :=
  foldl (λ m r, match LoadFile path (rl_read r) (rl_lex r) (rl_decode r) with Ok cs => Some cs | Err _ => m end) None rs.

Lemma LoadFile_Ok path read lex decode vs : LoadFile path read lex decode = Ok vs → document_ok vs.
Proof.
  unfold LoadFile. case_bool_decide; [done|]. destruct read as [content|]; [|done]. destruct (rejectDuplicateJSONFields _); [|done].
  destruct (decode content); [|done]. apply ValidateFile_Ok.
Qed.
Lemma reloads_current path rs s : s_path s = path → s_path (reloads rs s) = path ∧
  current (reloads rs s) = foldl (λ m r, match LoadFile path (rl_read r) (rl_lex r) (rl_decode r) with Ok cs => Some cs | Err _ => m end) (current s) rs.
Proof.
  revert s. induction rs as [|r rs IH]; intros s Hp; [done|]. cbn [reloads foldl]. fold (reloads rs (reload_step s r)).
  assert (s_path (reload_step s r) = path) as Hp' by (unfold reload_step, Reload; destruct (LoadFile _ _ _ _); done).
  destruct (IH _ Hp') as [H1 H2]. split; [done|]. rewrite H2. f_equal. unfold reload_step, Reload. rewrite Hp. by destruct (LoadFile _ _ _ _).
Qed.
Lemma last_loaded_ok path rs vs : last_loaded path rs = Some vs → document_ok vs.
Proof.
  unfold last_loaded. induction rs as [|r rs IH] using rev_ind; [done|]. rewrite foldl_app. cbn [foldl].
  destruct (LoadFile _ _ _ _) as [cs|] eqn:E; [intros [= <-]; by eapply LoadFile_Ok|done].
Qed.

Lemma matched_credential_spec h cs c : NoDup (tokenHash <$> cs) → matched_credential h cs = Some c ↔ c ∈ cs ∧ tokenHash c = h.
Proof.
  unfold matched_credential. intros Hn. induction cs as [|d cs IH] using rev_ind; [cbn; set_solver|].
  rewrite foldl_app. cbn [foldl]. rewrite fmap_app in Hn. cbn in Hn. apply NoDup_app in Hn as (Hn & Hd & _). case_bool_decide as Hh.
  - split; [intros [= <-]; split; [set_solver|done]|]. intros [Hin Hc]. apply elem_of_app in Hin as [Hin|Hin%list_elem_of_singleton]; [|by subst].
    exfalso. apply (Hd (tokenHash c)); [by apply list_elem_of_fmap_2|]. rewrite Hc, Hh. set_solver.
  - rewrite IH by done. split; [intros [? ?]; split; [set_solver|done]|]. intros [Hin Hc]. split; [|done]. apply elem_of_app in Hin as [?|Hin%list_elem_of_singleton]; [done|]. subst. done.
Qed.

Lemma reloads_document path rs cs : current (reloads rs (MkStore path None)) = Some cs → document_ok cs.
Proof. rewrite (proj2 (reloads_current path rs (MkStore path None) eq_refl)). apply last_loaded_ok. Qed.
Lemma Authenticate_spec s rawToken now c : (∀ cs, current s = Some cs → document_ok cs) →
  Authenticate s rawToken now = Some c ↔ rawToken ≠ "" ∧ c ∈ List s ∧ tokenHash c = Sum256 (bytes rawToken) ∧ NotBefore c <= now < ExpiresAt c.
Proof.
  intros Hok. unfold Authenticate, List. case_bool_decide as Ht; [naive_solver|]. destruct (current s) as [cs|]; cbn [mbind option_bind default]; [|set_solver].
  destruct (Hok cs eq_refl) as (_ & _ & Hn). pose proof (matched_credential_spec (Sum256 (bytes rawToken)) cs) as Hm.
  destruct (matched_credential (Sum256 (bytes rawToken)) cs) as [d|]; cbn [mbind option_bind].
  - destruct (proj1 (Hm d Hn) eq_refl) as [Hd1 Hd2]. destruct ((now <? NotBefore d) || negb (now <? ExpiresAt d)) eqn:El.
    + split; [done|]. intros (_ & Hin & Hh & Hl). pose proof (proj2 (Hm c Hn) (conj Hin Hh)) as [= ->]. lia.
    + split; [intros [= <-]; split_and!; try done; lia|]. intros (_ & Hin & Hh & Hl). exact (proj2 (Hm c Hn) (conj Hin Hh)).
  - split; [done|]. intros (_ & Hin & Hh & _). discriminate (proj2 (Hm c Hn) (conj Hin Hh)).
Qed.
Lemma List_ok s c : (∀ cs, current s = Some cs → document_ok cs) → c ∈ List s → credential_ok c.
Proof.
  unfold List. intros Hok. destruct (current s) as [cs|]; cbn; [|set_solver]. destruct (Hok cs eq_refl) as (Hf & _). rewrite Forall_forall in Hf. apply Hf.
Qed.

(** C37. The credential store. Whatever files it was asked to load, and however many of them
    it refused, it serves exactly the last document that passed every check, whole: each
    credential in it is well formed, lives at most 90 days and stands for one token. A
    token authenticates exactly the credential with the hash of that token, while its
    lifetime lasts, and nothing else. *)
Theorem credential_store_sound path rs rawToken now c :
  let s := reloads rs (MkStore path None) in
  current s = last_loaded path rs ∧
  (∀ cs, current s = Some cs → document_ok cs) ∧
  (Authenticate s rawToken now = Some c ↔
     rawToken ≠ "" ∧ c ∈ List s ∧ tokenHash c = Sum256 (bytes rawToken) ∧ NotBefore c <= now < ExpiresAt c).
Proof.
  intros s. split; [exact (proj2 (reloads_current path rs (MkStore path None) eq_refl))|]. split; [exact (reloads_document path rs)|].
  exact (Authenticate_spec s rawToken now c (reloads_document path rs)).
Qed.
End Credentials.

(** * A concrete document *)
#[local] Instance demo_http : HttpText := {| url_Parse := λ _, None; unicode_ToLower := λ s, s; EqualFold := λ a b, bool_decide (a = b) |}.
Definition demo_token : string := "0123456789abcdefghijklmnopqrstuvwxyzABCDEFGHIJ".
Definition demo_credential : Credential :=
  UnmarshalJSON (Wire "agent-1" (HashToken demo_token) 0 (30 * 24 * Session.Hour) [ScopeAnalysisSummary; ScopeTransactionsCreate] ["bank"] [3]
    31 50 None "2024-01-01" "2024-12-31").
Definition demo_reload (cs : list Credential) : reload :=
  MkReload (Some []) (λ _, [Some Scalar]) (λ _, Some (MkFile 1 (Some cs))).
(** The second reload names the credential twice and is refused. *)
Definition demo_reloads : list reload := [demo_reload [demo_credential]; demo_reload [demo_credential; demo_credential]].
Definition demo_store : Store := reloads demo_reloads (MkStore "credentials.json" None).
Definition demo_found : Credential := default demo_credential (Authenticate demo_store demo_token 7).

Lemma credential_store_sound_witness :
  Authenticate demo_store demo_token 7 = Some demo_found ∧ tokenHash demo_found = Sum256 (bytes demo_token) ∧ c_MaxTransactionsPerDay demo_found = 100 ∧
  Authenticate demo_store demo_token (30 * 24 * Session.Hour) = None.
Proof.
  assert (Authenticate demo_store demo_token 7 = Some demo_found) as E by (vm_compute; reflexivity). split; [exact E|].
  destruct (credential_store_sound "credentials.json" demo_reloads demo_token 7 demo_found) as (_ & _ & Ha).
  destruct (proj1 Ha E) as (_ & _ & Hh & _). split; [exact Hh|]. split; vm_compute; reflexivity.
Defined.
