(* ===== verification/AuditKeys.v ===== *)
(** The keyring of the AI audit log ([audithmac/keyring.go]): pseudonymous account
    references under a key that is rotated with an overlap.

    The keyring file is the state of the file operations: [None] when it does not exist.
    Its JSON text is written and read by a parameter ([KeyringJson]); what the operating
    system does with a read or a write is an argument. Instants are nanoseconds. *)
From Stdlib Require Import ZArith Lia.
From stdpp Require Import base gmap list strings sorting.
From S2P Require Import Prelude GoText NetAddr GoTime CivilDate Images Crypto Session Gate StrictJson AiCredentials.
Open Scope Z_scope.

Definition MaxFileSize : Z := 4096.
Definition MinKeyBytes : Z := 32.
Definition MaxKeyBytes : Z := 64.
Definition MinOverlap : Z := second.
Definition MaxOverlap : Z := 30 * 24 * Session.Hour.
Definition accountKeyDomain : string := "omni-money/audit/account-key/v1".
Definition keyIDDomain : string := "omni-money/audit/key-id/v1".

Record previousDocument := Previous { pd_Key : string; pd_EmitUntil : string }.
Record keyringDocument := Keyring { kd_Version : Z; CurrentKey : string; kd_Previous : option previousDocument }.
#[global] Instance previousDocument_eq_dec : EqDecision previousDocument.
Proof. solve_decision. Defined.
#[global] Instance keyringDocument_eq_dec : EqDecision keyringDocument.
Proof. solve_decision. Defined.

Record keyMaterial := Material { accountKey : list Z; keyID : string; emitUntil : Z }.
Record snapshotData := Snap { sn_current : keyMaterial; sn_previous : option keyMaterial }.
Record Reference := Ref { KeyID : string; HMACSHA256 : string }.
Record ReferenceSet := Refs { Current : Reference; PreviousRef : option Reference }.

Inductive kerr :=
| KPath | KRead | KStructure (e : jerr) | KDecode | KVersion (v : Z) | KCurrentKey | KPreviousKey | KSameKey | KEmitUntil | KOverlapExceeds
| KTime | KOverlapRange | KOverlapActive | KRandom | KSize | KExists | KWrite.
#[global] Instance kerr_eq_dec : EqDecision kerr.
Proof. solve_decision. Defined.

(** * References *)
Definition referenceFor (key : keyMaterial) (account : string) : Reference :=
  Ref (keyID key) (Session.EncodeToString (hmac_sha256 (accountKey key) (bytes account))).
Definition AccountReferences (s : option snapshotData) (account : string) (at_ : Z) : ReferenceSet :=
  match s with
  | None => Refs (Ref "" "") None
  | Some d =>
    if bool_decide (account = "") then Refs (Ref "" "") None
    else Refs (referenceFor (sn_current d) account)
           (match sn_previous d with
            | Some p => if at_ <? emitUntil p then Some (referenceFor p account) else None
            | None => None
            end)
  end.

(** * Keys *)
Definition decodeKey (encoded : string) : option (list Z) :=
  if bool_decide (encoded = "") || negb (bool_decide (TrimSpace encoded = encoded)) || contains 61 encoded then None
  else
    decoded ← raw_decode_string url_value false (bytes encoded);
    if (Z.of_nat (length decoded) <? MinKeyBytes) || (MaxKeyBytes <? Z.of_nat (length decoded)) then None
    else if negb (bool_decide (of_bytes (raw_encode url_char decoded) = encoded)) then None
    else Some decoded.

Definition deriveKeyMaterial (master : list Z) : keyMaterial :=
  Material (hmac_sha256 master (bytes accountKeyDomain))
    ("ak1-" +:+ Session.EncodeToString (take 16 (hmac_sha256 master (bytes keyIDDomain)))) zero_instant.

Definition buildSnapshot (document : keyringDocument) (now : Z) : res kerr snapshotData :=
  if negb (kd_Version document =? CurrentVersion) then Err (KVersion (kd_Version document))
  else
    match decodeKey (CurrentKey document) with
    | None => Err KCurrentKey
    | Some currentRaw =>
      match kd_Previous document with
      | None => Ok (Snap (deriveKeyMaterial currentRaw) None)
      | Some p =>
        match decodeKey (pd_Key p) with
        | None => Err KPreviousKey
        | Some previousRaw =>
          if bool_decide (currentRaw = previousRaw) then Err KSameKey
          else match ParseRFC3339 (pd_EmitUntil p) with
               | None => Err KEmitUntil
               | Some until =>
                 if negb (bool_decide (FormatRFC3339 until = pd_EmitUntil p)) then Err KEmitUntil
                 else if now + MaxOverlap <? until then Err KOverlapExceeds
                 else let m := deriveKeyMaterial previousRaw in
                      Ok (Snap (deriveKeyMaterial currentRaw) (Some (Material (accountKey m) (keyID m) until)))
               end
        end
      end
    end.

(** [generateKey] from a read of the random source. *)
Definition generateKey (random : option (list Z)) : option string :=
  key ← random; if bool_decide (length key = 32%nat) then Some (of_bytes (raw_encode url_char key)) else None.

Record FileStatus := Status { CurrentKeyID : string; PreviousKeyID : string; PreviousExpires : Z }.
Definition statusFor (document : keyringDocument) (now : Z) : res kerr FileStatus :=
  s ← buildSnapshot document now;
  Ok (match sn_previous s with
      | Some p => Status (keyID (sn_current s)) (keyID p) (emitUntil p)
      | None => Status (keyID (sn_current s)) "" zero_instant
      end).

(** * The file *)
Inductive writing := Written | Unsynced | Unwritten.
(** [json.MarshalIndent] and the strict decoder on keyring documents, with the lexer of the
    duplicate check. *)
Class KeyringJson := {
  MarshalKeyring : keyringDocument → list Z;
  DecodeKeyring : list Z → option keyringDocument;
  lexKeyring : list Z → stream
}.
(** A written document is read back. Only documents of valid keys are written, so their texts
    are plain ASCII, which JSON keeps as it is. *)
Class KeyringJsonLaws `{!KeyringJson} : Prop := {
  keyring_unambiguous d : rejectDuplicateJSONFields (lexKeyring (MarshalKeyring d ++ [10])) = Ok tt;
  keyring_decode d now s : buildSnapshot d now = Ok s → DecodeKeyring (MarshalKeyring d ++ [10]) = Some d
}.

Section Keyring.
Context {J : KeyringJson}.
Notation file := (option (list Z)) (only parsing).

Definition decodeDocument (content : list Z) : res kerr keyringDocument :=
  match rejectDuplicateJSONFields (lexKeyring content) with
  | Err e => Err (KStructure e)
  | Ok _ => match DecodeKeyring content with None => Err KDecode | Some d => Ok d end
  end.
Definition loadDocument (readable : bool) (f : file) : res kerr keyringDocument :=
  match f with
  | Some content => if readable && (Z.of_nat (length content) <=? MaxFileSize) then decodeDocument content else Err KRead
  | None => Err KRead
  end.
Definition encodeDocument (document : keyringDocument) (validationTime : Z) : res kerr (list Z) :=
  _ ← buildSnapshot document validationTime;
  let content := MarshalKeyring document ++ [10] in
  if MaxFileSize <? Z.of_nat (length content) then Err KSize else Ok content.

(** A write replaces the file whole or leaves it as it was; when only the directory could not
    be synchronised afterwards, the file is replaced and the call fails all the same. An
    existing file that cannot be read is one of the ways not to write. *)
Definition writeDocumentAtomic (w : writing) (document : keyringDocument) (t : Z) (f : file) : res kerr unit * file :=
  match encodeDocument document t with
  | Err e => (Err e, f)
  | Ok content => match w with Written => (Ok tt, Some content) | Unsynced => (Err KWrite, Some content) | Unwritten => (Err KWrite, f) end
  end.
Definition writeDocumentExclusive (w : writing) (document : keyringDocument) (t : Z) (f : file) : res kerr unit * file :=
  match encodeDocument document t with
  | Err e => (Err e, f)
  | Ok content =>
    match f with
    | Some _ => (Err KExists, f)
    | None => match w with Written => (Ok tt, Some content) | Unsynced => (Err KWrite, Some content) | Unwritten => (Err KWrite, None) end
    end
  end.

Definition InitializeFile (path : string) (random : option (list Z)) (now : Z) (w : writing) (f : file) : res kerr FileStatus * file :=
  if bool_decide (TrimSpace path = "") then (Err KPath, f)
  else match generateKey random with
       | None => (Err KRandom, f)
       | Some key =>
         let document := Keyring CurrentVersion key None in
         match writeDocumentExclusive w document now f with
         | (Err e, f) => (Err e, f)
         | (Ok _, f) => (statusFor document now, f)
         end
       end.

Definition RotateFile (path : string) (random : option (list Z)) (now overlap : Z) (readable : bool) (w : writing) (f : file) : res kerr FileStatus * file :=
  if bool_decide (TrimSpace path = "") then (Err KPath, f)
  else if now =? zero_instant then (Err KTime, f)
  else if negb (between MinOverlap MaxOverlap overlap) then (Err KOverlapRange, f)
  else match loadDocument readable f with
       | Err e => (Err e, f)
       | Ok document =>
         match buildSnapshot document now with
         | Err e => (Err e, f)
         | Ok _ =>
           if match kd_Previous document with
              | Some p => match ParseRFC3339 (pd_EmitUntil p) with Some expires => now <? expires | None => false end
              | None => false
              end
           then (Err KOverlapActive, f)
           else match generateKey random with
                | None => (Err KRandom, f)
                | Some newKey =>
                  let previous := Previous (CurrentKey document) (FormatRFC3339 ((now + overlap) / second * second)) in
                  let document' := Keyring (kd_Version document) newKey (Some previous) in
                  match writeDocumentAtomic w document' now f with
                  | (Err e, f) => (Err e, f)
                  | (Ok _, f) => (statusFor document' now, f)
                  end
                end
         end
       end.

Definition RetirePreviousFile (path : string) (now : Z) (readable : bool) (w : writing) (f : file) : res kerr FileStatus * file :=
  if bool_decide (TrimSpace path = "") then (Err KPath, f)
  else if now =? zero_instant then (Err KTime, f)
  else match loadDocument readable f with
       | Err e => (Err e, f)
       | Ok document =>
         match buildSnapshot document now with
         | Err e => (Err e, f)
         | Ok _ =>
           let document' := Keyring (kd_Version document) (CurrentKey document) None in
           match writeDocumentAtomic w document' now f with
           | (Err e, f) => (Err e, f)
           | (Ok _, f) => (statusFor document' now, f)
           end
         end
       end.

(** * The store *)
Definition ReloadKeys (readable : bool) (f : file) (now : Z) (current : option snapshotData) : res kerr unit * option snapshotData :=
  match loadDocument readable f with
  | Err e => (Err e, current)
  | Ok document => match buildSnapshot document now with Err e => (Err e, current) | Ok s => (Ok tt, Some s) end
  end.
Definition StoreKeyID (current : option snapshotData) : string := match current with Some s => keyID (sn_current s) | None => "" end.

(** * What a document says *)
Lemma buildSnapshot_Ok d now s : buildSnapshot d now = Ok s →
  ∃ raw, decodeKey (CurrentKey d) = Some raw ∧ sn_current s = deriveKeyMaterial raw ∧
    match kd_Previous d with
    | None => sn_previous s = None
    | Some p => ∃ praw until, decodeKey (pd_Key p) = Some praw ∧ raw ≠ praw ∧ ParseRFC3339 (pd_EmitUntil p) = Some until ∧ until <= now + MaxOverlap ∧
        sn_previous s = Some (Material (accountKey (deriveKeyMaterial praw)) (keyID (deriveKeyMaterial praw)) until)
    end.
Proof.
  unfold buildSnapshot. destruct (kd_Version d =? CurrentVersion); cbn [negb]; [|done]. destruct (decodeKey (CurrentKey d)) as [raw|]; [|done].
  destruct (kd_Previous d) as [p|]; [|intros [= <-]; by exists raw]. destruct (decodeKey (pd_Key p)) as [praw|]; [|done].
  case_bool_decide as Hne; [done|]. destruct (ParseRFC3339 (pd_EmitUntil p)) as [until|]; [|done]. case_bool_decide; cbn [negb]; [|done].
  destruct (Z.ltb_spec (now + MaxOverlap) until); [done|]. intros [= <-]. exists raw. split_and!; [done|done|]. by exists praw, until.
Qed.
(** A document stays valid. *)
Lemma buildSnapshot_later d now now' s : now <= now' → buildSnapshot d now = Ok s → buildSnapshot d now' = Ok s.
Proof.
  intros Hle. unfold buildSnapshot. destruct (negb _); [done|]. destruct (decodeKey (CurrentKey d)) as [raw|]; [|done].
  destruct (kd_Previous d) as [p|]; [|done]. destruct (decodeKey (pd_Key p)) as [praw|]; [|done]. case_bool_decide; [done|].
  destruct (ParseRFC3339 (pd_EmitUntil p)) as [until|]; [|done]. case_bool_decide; cbn [negb]; [|done].
  destruct (Z.ltb_spec (now + MaxOverlap) until); [done|]. destruct (Z.ltb_spec (now' + MaxOverlap) until); [lia|done].
Qed.

Context {L : KeyringJsonLaws}.
Lemma encodeDocument_Ok d t content : encodeDocument d t = Ok content →
  ∃ s, buildSnapshot d t = Ok s ∧ loadDocument true (Some content) = Ok d.
Proof.
  unfold encodeDocument. intros (s & Hs & Hr)%res_bind_Ok_inv. destruct (Z.ltb_spec MaxFileSize (Z.of_nat (length (MarshalKeyring d ++ [10])))); [done|].
  injection Hr as <-. exists s. split; [done|]. unfold loadDocument. destruct (Z.leb_spec (Z.of_nat (length (MarshalKeyring d ++ [10]))) MaxFileSize); [|lia].
  cbn [andb]. unfold decodeDocument. by rewrite keyring_unambiguous, (keyring_decode _ _ _ Hs).
Qed.
Lemma writeDocumentAtomic_cases w d t f r f' : writeDocumentAtomic w d t f = (r, f') →
  f' = f ∧ r ≠ Ok tt ∨ ∃ s, buildSnapshot d t = Ok s ∧ loadDocument true f' = Ok d.
Proof.
  unfold writeDocumentAtomic. destruct (encodeDocument d t) as [content|e] eqn:E; [|intros [= <- <-]; by left].
  destruct (encodeDocument_Ok _ _ _ E) as (s & Hs & Hl). destruct w; intros [= <- <-]; [right; by exists s..|by left].
Qed.
Lemma loadDocument_readable r f d : loadDocument r f = Ok d → loadDocument true f = Ok d.
Proof. destruct r; [done|]. by destruct f. Qed.

(** C38. A rotation bridges the audit log. After it, and whenever the store is loaded again,
    every event until the end of the overlap carries two references to its account: one
    under the new key, and as the previous one exactly the reference the log used before
    the rotation. The overlap ends within the second that was asked for, and a rotation
    succeeds only when no earlier overlap is cut short. *)
Theorem rotation_bridges path random now overlap readable w f st f' :
  RotateFile path random now overlap readable w f = (Ok st, f') →
  printable_day ((now + overlap) / second / 86400) →
  ∃ old s until, loadDocument true f = Ok old ∧ buildSnapshot old now = Ok s ∧
    now + overlap - second < until <= now + overlap ∧
    (∀ p e, kd_Previous old = Some p → ParseRFC3339 (pd_EmitUntil p) = Some e → e <= now) ∧
    ∀ now' current, now <= now' → ∃ s', ReloadKeys true f' now' current = (Ok tt, Some s') ∧ StoreKeyID (Some s') = CurrentKeyID st ∧
      ∀ account at_, account ≠ "" →
        Current (AccountReferences (Some s') account at_) = referenceFor (sn_current s') account ∧
        PreviousRef (AccountReferences (Some s') account at_) =
          (if at_ <? until then Some (Current (AccountReferences (Some s) account now)) else None).
Proof.
  unfold RotateFile. case_bool_decide; [done|]. destruct (now =? zero_instant); [done|]. destruct (between MinOverlap MaxOverlap overlap); cbn [negb]; [|done].
  destruct (loadDocument readable f) as [old|] eqn:Hl; [|done]. destruct (buildSnapshot old now) as [s|] eqn:Hs; [|done].
  destruct (match kd_Previous old with Some _ => _ | None => _ end) eqn:Ho; [done|]. destruct (generateKey random) as [newKey|]; [|done].
  set (d := Keyring (kd_Version old) newKey (Some (Previous (CurrentKey old) (FormatRFC3339 ((now + overlap) / second * second))))).
  destruct (writeDocumentAtomic w d now f) as [[[]|e] f0] eqn:Ew; [|done]. intros [= Hst <-] Hp.
  apply writeDocumentAtomic_cases in Ew as [[_ []]|(s1 & Hs1 & Hl1)]; [done|].
  exists old, s, ((now + overlap) / second * second). split; [by eapply loadDocument_readable|]. split; [done|].
  split; [unfold second; Z.div_mod_to_equations; lia|]. split.
  { intros p e Hpv He. rewrite Hpv, He in Ho. apply Z.ltb_ge in Ho. done. }
  unfold statusFor in Hst. rewrite Hs1 in Hst. cbn [mbind res_bind] in Hst.
  intros now' current Hnow. exists s1. unfold ReloadKeys. rewrite Hl1, (buildSnapshot_later _ _ _ _ Hnow Hs1). split; [done|].
  destruct (buildSnapshot_Ok _ _ _ Hs) as (raw & Hraw & Ec & _). destruct (buildSnapshot_Ok _ _ _ Hs1) as (raw1 & Hraw1 & Ec1 & Hprev). cbn [kd_Previous d] in Hprev.
  destruct Hprev as (praw & until & Hpraw & _ & Hun & _ & Ep). cbn [pd_Key pd_EmitUntil] in Hpraw, Hun. rewrite Hraw in Hpraw. injection Hpraw as <-.
  rewrite parse_format_rfc3339 in Hun by (by rewrite Z.div_mul). injection Hun as <-.
  split; [rewrite Ep in Hst; injection Hst as <-; done|]. intros account at_ Hacc. unfold AccountReferences. rewrite !bool_decide_eq_false_2 by done. cbn [Current PreviousRef].
  split; [done|]. rewrite Ep. cbn [emitUntil]. rewrite Z.div_mul by done. rewrite Ec. by destruct (at_ <? _).
Qed.

(** * Runs of the keyring commands *)
Inductive key_call :=
| KInit (path : string) (random : option (list Z)) (w : writing)
| KRotate (path : string) (random : option (list Z)) (overlap : Z) (readable : bool) (w : writing)
| KRetire (path : string) (readable : bool) (w : writing).
Definition run_key (f : file) (c : Z * key_call) : file :=
  match c.2 with
  | KInit path random w => (InitializeFile path random c.1 w f).2
  | KRotate path random overlap readable w => (RotateFile path random c.1 overlap readable w f).2
  | KRetire path readable w => (RetirePreviousFile path c.1 readable w f).2
  end.
Definition loadable (now : Z) (f : file) : Prop := ∃ d s, loadDocument true f = Ok d ∧ buildSnapshot d now = Ok s.
Lemma loadable_later now now' f : now <= now' → loadable now f → loadable now' f.
Proof. intros Hle (d & s & Hl & Hs). exists d, s. split; [done|by eapply buildSnapshot_later]. Qed.
Lemma write_keeps w d t f r f' : writeDocumentAtomic w d t f = (r, f') → f' = f ∨ loadable t f'.
Proof. intros [[-> _]|(s & Hs & Hl)]%writeDocumentAtomic_cases; [by left|right; by exists d, s]. Qed.
Lemma run_key_keeps f c : run_key f c = f ∨ loadable c.1 (run_key f c).
Proof.
  destruct c as [t [path random w|path random overlap readable w|path readable w]]; unfold run_key; cbn [fst snd].
  - unfold InitializeFile. case_bool_decide; [by left|]. destruct (generateKey random) as [key|]; [|by left].
    unfold writeDocumentExclusive. destruct (encodeDocument _ t) as [content|] eqn:E; [|by left]. destruct f as [c|]; [by left|].
    destruct (encodeDocument_Ok _ _ _ E) as (s & Hs & Hl). destruct w; [right; by exists (Keyring CurrentVersion key None), s..|by left].
  - unfold RotateFile. case_bool_decide; [by left|]. destruct (t =? zero_instant); [by left|]. destruct (negb _); [by left|].
    destruct (loadDocument readable f) as [old|]; [|by left]. destruct (buildSnapshot old t); [|by left].
    destruct (match kd_Previous old with Some _ => _ | None => _ end); [by left|]. destruct (generateKey random) as [key|]; [|by left].
    destruct (writeDocumentAtomic w _ t f) as [[[]|] f'] eqn:E; exact (write_keeps _ _ _ _ _ _ E).
  - unfold RetirePreviousFile. case_bool_decide; [by left|]. destruct (t =? zero_instant); [by left|].
    destruct (loadDocument readable f) as [old|]; [|by left]. destruct (buildSnapshot old t); [|by left].
    destruct (writeDocumentAtomic w _ t f) as [[[]|] f'] eqn:E; exact (write_keeps _ _ _ _ _ _ E).
Qed.

(** The keyring is never lost: after any sequence of keyring commands at advancing times,
    each of them possibly interrupted by a failing read, write or synchronisation, a
    keyring that could be loaded before can be loaded again. *)
Theorem keyring_stays_loadable f t0 cs :
  loadable t0 f → Sorted Z.le (t0 :: cs.*1) → loadable (default t0 (last cs.*1)) (foldl run_key f cs).
Proof.
  revert f t0. induction cs as [|c cs IH]; intros f t0 Hl Hs; [done|]. cbn [fmap list_fmap foldl] in *. inversion_clear Hs as [|? ? Hs' Hh].
  inversion_clear Hh as [|? ? Hle].
  assert (loadable c.1 (run_key f c)) as Hl' by (destruct (run_key_keeps f c) as [->|?]; [by eapply loadable_later|done]).
  specialize (IH _ _ Hl' Hs'). rewrite last_cons. by destruct (last cs.*1).
Qed.
End Keyring.

(** * A concrete keyring *)
Definition keyring_fields (d : keyringDocument) : Z * string * option (string * string) :=
  (kd_Version d, CurrentKey d, (λ p, (pd_Key p, pd_EmitUntil p)) <$> kd_Previous d).
Definition fields_keyring (x : Z * string * option (string * string)) : keyringDocument :=
  Keyring x.1.1 x.1.2 ((λ p, Previous p.1 p.2) <$> x.2).
#[local] Instance demo_json : KeyringJson := {|
  MarshalKeyring d := [Z.pos (encode (keyring_fields d))];
  DecodeKeyring l := match l with [Z.pos p; 10] => fields_keyring <$> decode p | _ => None end;
  lexKeyring _ := [Some Scalar]
|}.
#[local] Instance demo_json_laws : KeyringJsonLaws.
Proof.
  split; [done|]. intros [v k p] now s _. cbn [MarshalKeyring DecodeKeyring demo_json app]. rewrite decode_encode. by destruct p as [[? ?]|].
Qed.
Definition demo_keyring : option (list Z) := (InitializeFile "keys.json" (Some (replicate 32 7)) 1000 Written None).2.
Definition demo_rotated : res kerr FileStatus * option (list Z) :=
  RotateFile "keys.json" (Some (replicate 32 8)) (1714000000 * second) (7 * 24 * Session.Hour) true Written demo_keyring.

Lemma rotation_bridges_witness :
  ∃ st, demo_rotated = (Ok st, demo_rotated.2) ∧
    ∃ s', ReloadKeys true demo_rotated.2 (1714000001 * second) None = (Ok tt, Some s') ∧ StoreKeyID (Some s') = CurrentKeyID st.
Proof.
  destruct demo_rotated as [[st|e] f'] eqn:E; [|vm_compute in E; discriminate E]. exists st. split; [reflexivity|].
  destruct (rotation_bridges _ _ _ _ _ _ _ _ _ E) as (old & s & until & _ & _ & _ & _ & H); [vm_compute; split; [discriminate|reflexivity]|].
  destruct (H (1714000001 * second) None) as (s' & H1 & H2 & _); [vm_compute; discriminate|]. exists s'. split; [exact H1|exact H2].
Defined.

Lemma keyring_stays_loadable_witness :
  loadable (1714000002 * second) (foldl run_key demo_keyring
    [(1714000000 * second, KRotate "keys.json" (Some (replicate 32 8)) (7 * 24 * Session.Hour) true Unsynced);
     (1714000001 * second, KRotate "keys.json" (Some (replicate 32 9)) (7 * 24 * Session.Hour) true Written);
     (1714000002 * second, KRetire "keys.json" true Unwritten)]).
Proof.
  refine (keyring_stays_loadable demo_keyring 2000 [(_, KRotate _ _ _ _ _); (_, KRotate _ _ _ _ _); (_, KRetire _ _ _)] _ _).
  - eexists _, _. split; [vm_compute; reflexivity|vm_compute; reflexivity].
  - cbn. repeat constructor; vm_compute; discriminate.
Defined.
