(* ===== verification/AiAudit.v ===== *)
(** The audit log of the AI API ([middleware/ai_failed_auth_audit.go] and the record types of
    [middleware/auth.go]): repeated refusals are counted in one-minute windows instead of
    being written out one by one.

    Instants stay numbers; their text is a rendering. The windows of a sweep are visited in
    the order of the map's list, where Go's order is unspecified. *)
From Stdlib Require Import ZArith Lia.
From stdpp Require Import base gmap list strings.
From S2P Require Import Prelude GoText Session AuditKeys.
Open Scope Z_scope.

Record aiAuditRecord := Audit {
  Timestamp : Z; CredentialID : string; Operation : string; RemoteIP : string; Allowed : bool; Status : Z; DurationMS : Z; Reason : string;
  MTLSClientSHA256 : string; AccountReference : string; AccountReferenceKeyID : string; PreviousAccountReference : string;
  PreviousAccountReferenceKeyID : string; StartDate : string; EndDate : string; IncludeDetails : bool; IncludeMemo : bool;
  MatchedCount : option Z; ReturnedCount : option Z; IdempotencyReplayed : bool; Occurrences : Z; FirstSeen : option Z; LastSeen : option Z
}.
(** The changes the aggregator makes to a record. *)
Definition with_operation (op : string) (r : aiAuditRecord) : aiAuditRecord :=
  Audit (Timestamp r) (CredentialID r) op (RemoteIP r) (Allowed r) (Status r) (DurationMS r) (Reason r) (MTLSClientSHA256 r) (AccountReference r)
    (AccountReferenceKeyID r) (PreviousAccountReference r) (PreviousAccountReferenceKeyID r) (StartDate r) (EndDate r) (IncludeDetails r) (IncludeMemo r)
    (MatchedCount r) (ReturnedCount r) (IdempotencyReplayed r) (Occurrences r) (FirstSeen r) (LastSeen r).
Definition anonymous (r : aiAuditRecord) : aiAuditRecord :=
  Audit (Timestamp r) "" (Operation r) "" (Allowed r) (Status r) (DurationMS r) (Reason r) "" (AccountReference r)
    (AccountReferenceKeyID r) (PreviousAccountReference r) (PreviousAccountReferenceKeyID r) (StartDate r) (EndDate r) (IncludeDetails r) (IncludeMemo r)
    (MatchedCount r) (ReturnedCount r) (IdempotencyReplayed r) (Occurrences r) (FirstSeen r) (LastSeen r).
Definition summary_of (r : aiAuditRecord) (t n first last : Z) : aiAuditRecord :=
  Audit t (CredentialID r) (Operation r) (RemoteIP r) (Allowed r) (Status r) (DurationMS r) (Reason r) (MTLSClientSHA256 r) (AccountReference r)
    (AccountReferenceKeyID r) (PreviousAccountReference r) (PreviousAccountReferenceKeyID r) (StartDate r) (EndDate r) (IncludeDetails r) (IncludeMemo r)
    (MatchedCount r) (ReturnedCount r) (IdempotencyReplayed r) n (Some first) (Some last).

Definition zero_instant : Z := AiCredentials.zero_instant.
Definition MaxUint64 : Z := 2 ^ 64 - 1.
Definition aiFailedAuthAuditWindowDuration : Z := Session.Minute.
Definition aiFailedAuthAuditMaxDetailedWindow : nat := 4096.
Definition aiFailedAuthAuditOperationCount : nat := 3.
Definition aiFailedAuthAuditReasonCount : nat := 6.

Record aiFailedAuthAuditKey := AuditKey {
  k_credentialID : string; k_remoteIP : string; k_mtlsFingerprint : string; k_operation : string; k_reason : string; k_status : Z
}.
#[global] Instance aiFailedAuthAuditKey_eq_dec : EqDecision aiFailedAuthAuditKey.
Proof. solve_decision. Defined.
#[global] Instance aiFailedAuthAuditKey_countable : Countable aiFailedAuthAuditKey.
Proof.
  refine (inj_countable' (λ k, (k_credentialID k, k_remoteIP k, k_mtlsFingerprint k, k_operation k, k_reason k, k_status k))
    (λ '(a, b, c, d, e, f), AuditKey a b c d e f) _). by intros [].
Defined.

Record window := Window { started : Z; suppressedFirst : Z; lastSeen : Z; suppressed : Z; last_record : option aiAuditRecord }.
(** The zero value of an overflow slot. *)
Definition no_window : window := Window zero_instant zero_instant zero_instant 0 None.
Record aggregator := Aggregator { windows : gmap aiFailedAuthAuditKey window; overflow : list window; lastSweep : Z }.
Definition newAIFailedAuthAuditAggregator : aggregator :=
  Aggregator ∅ (replicate (aiFailedAuthAuditOperationCount * aiFailedAuthAuditReasonCount) no_window) zero_instant.

Definition isAggregatedFailedAuthReason (reason : string) : bool :=
  bool_decide (reason ∈ ["authentication_failed"; "authentication_rate_limited"; "method_forbidden"; "path_not_allowed"; "scope_forbidden"; "console_relay_forbidden"]).
Definition normalizeAIAuditOperation (operation : string) : string :=
  if bool_decide (operation = "transactions.create") || bool_decide (operation = "analysis") then operation else "unknown".
Definition aiFailedAuthAuditOverflowIndex (operation reason : string) : nat :=
  let operation := normalizeAIAuditOperation operation in
  let operationIndex := if bool_decide (operation = "transactions.create") then 0%nat else if bool_decide (operation = "analysis") then 1%nat else 2%nat in
  let reasonIndex :=
    if bool_decide (reason = "authentication_rate_limited") then 1%nat
    else if bool_decide (reason = "method_forbidden") then 2%nat
    else if bool_decide (reason = "path_not_allowed") then 3%nat
    else if bool_decide (reason = "scope_forbidden") then 4%nat
    else if bool_decide (reason = "console_relay_forbidden") then 5%nat else 0%nat in
  (reasonIndex * aiFailedAuthAuditOperationCount + operationIndex)%nat.

Definition is_zero (t : Z) : bool := t =? zero_instant.
Definition aiFailedAuthAuditWindowExpired (w : window) (now : Z) : bool :=
  negb (is_zero (started w)) && (aiFailedAuthAuditWindowDuration <=? Session.Sub now (started w)).
Definition suppressAIFailedAuthAudit (w : window) (r : aiAuditRecord) (now : Z) : window :=
  Window (started w) (if suppressed w =? 0 then now else suppressedFirst w) now
    (if suppressed w <? MaxUint64 then suppressed w + 1 else suppressed w) (Some r).
Definition summarizeAIFailedAuthAudit (w : window) (emittedAt : Z) : list aiAuditRecord :=
  if suppressed w =? 0 then []
  else match last_record w with
       | Some r => [summary_of r emittedAt (suppressed w) (suppressedFirst w) (lastSeen w)]
       | None => []
       end.

(** * Sweeps *)
(** One slot of the overflow table: its summary and what stays. *)
Definition sweep_slot (now : Z) (w : window) : list aiAuditRecord * window :=
  if is_zero (started w) || negb (aiFailedAuthAuditWindowExpired w now) then ([], w) else (summarizeAIFailedAuthAudit w now, no_window).
Definition sweepAllExpiredLocked (now : Z) (a : aggregator) : list aiAuditRecord * aggregator :=
  let gone := filter (λ kw : aiFailedAuthAuditKey * window, aiFailedAuthAuditWindowExpired kw.2 now = true) (map_to_list (windows a)) in
  (concat ((λ kw, summarizeAIFailedAuthAudit kw.2 now) <$> gone) ++ concat (fst ∘ sweep_slot now <$> overflow a),
   Aggregator (filter (λ kw, aiFailedAuthAuditWindowExpired kw.2 now = false) (windows a)) (snd ∘ sweep_slot now <$> overflow a) (lastSweep a)).
Definition sweepExpiredLocked (now : Z) (a : aggregator) : list aiAuditRecord * aggregator :=
  if negb (is_zero (lastSweep a)) && (Session.Sub now (lastSweep a) <? aiFailedAuthAuditWindowDuration) then ([], a)
  else sweepAllExpiredLocked now (Aggregator (windows a) (overflow a) now).

Definition set_windows (ws : gmap aiFailedAuthAuditKey window) (a : aggregator) : aggregator := Aggregator ws (overflow a) (lastSweep a).
Definition recordOverflowLocked (r : aiAuditRecord) (now : Z) (a : aggregator) : list aiAuditRecord * aggregator :=
  let r := with_operation (normalizeAIAuditOperation (Operation r)) (anonymous r) in
  let index := aiFailedAuthAuditOverflowIndex (Operation r) (Reason r) in
  let w := default no_window (overflow a !! index) in
  let set w := Aggregator (windows a) (<[index := w]> (overflow a)) (lastSweep a) in
  if negb (is_zero (started w)) && negb (aiFailedAuthAuditWindowExpired w now) then ([], set (suppressAIFailedAuthAudit w r now))
  else ((if is_zero (started w) then [] else summarizeAIFailedAuthAudit w now) ++ [r], set (Window now zero_instant now 0 (Some r))).

Definition record (r : aiAuditRecord) (now : Z) (a : aggregator) : list aiAuditRecord * aggregator :=
  if negb (isAggregatedFailedAuthReason (Reason r)) then ([r], a)
  else
    let '(emissions, a) := sweepExpiredLocked now a in
    let key := AuditKey (CredentialID r) (RemoteIP r) (MTLSClientSHA256 r) (normalizeAIAuditOperation (Operation r)) (Reason r) (Status r) in
    let r := with_operation (k_operation key) r in
    let fresh emissions a :=
      if (aiFailedAuthAuditMaxDetailedWindow <=? size (windows a))%nat
      then let '(e, a) := recordOverflowLocked r now a in (emissions ++ e, a)
      else (emissions ++ [r], set_windows (<[key := Window now zero_instant now 0 (Some r)]> (windows a)) a) in
    match windows a !! key with
    | Some w =>
      if negb (aiFailedAuthAuditWindowExpired w now)
      then (emissions, set_windows (<[key := suppressAIFailedAuthAudit w r now]> (windows a)) a)
      else fresh (emissions ++ summarizeAIFailedAuthAudit w now) (set_windows (delete key (windows a)) a)
    | None => fresh emissions a
    end.

(** * Every event is accounted for *)
(** What an emitted record stands for: itself, or the refusals it counts. *)
Definition weight (r : aiAuditRecord) : Z := if Occurrences r =? 0 then 1 else Occurrences r.
Definition weights (l : list aiAuditRecord) : Z := lsum (weight <$> l).
Definition wsum (l : list window) : Z := lsum (suppressed <$> l).
Definition pending (a : aggregator) : Z := wsum ((map_to_list (windows a)).*2) + wsum (overflow a).

Definition window_ok (w : window) : Prop := 0 <= suppressed w ∧ (0 < suppressed w → is_Some (last_record w)).
(** A slot that was never started counts nothing. *)
Definition slot_ok (w : window) : Prop := window_ok w ∧ (is_zero (started w) = true → suppressed w = 0).
Record agg_ok (a : aggregator) : Prop := {
  ag_windows : map_Forall (λ _ w, window_ok w) (windows a);
  ag_overflow : Forall slot_ok (overflow a);
  ag_slots : length (overflow a) = 18%nat;
  ag_size : (size (windows a) <= aiFailedAuthAuditMaxDetailedWindow)%nat
}.

Lemma weights_app l1 l2 : weights (l1 ++ l2) = weights l1 + weights l2.
Proof. unfold weights. by rewrite fmap_app, lsum_app. Qed.
Lemma weights_summary w t : window_ok w → weights (summarizeAIFailedAuthAudit w t) = suppressed w.
Proof.
  intros [H1 H2]. unfold summarizeAIFailedAuthAudit. destruct (Z.eqb_spec (suppressed w) 0) as [->|Hn]; [done|].
  destruct H2 as [r ->]; [lia|]. unfold weights, weight. cbn. destruct (Z.eqb_spec (suppressed w) 0); [done|lia].
Qed.
Lemma wsum_app l1 l2 : wsum (l1 ++ l2) = wsum l1 + wsum l2.
Proof. unfold wsum. by rewrite fmap_app, lsum_app. Qed.
#[global] Instance wsum_perm : Proper ((≡ₚ) ==> eq) wsum.
Proof. intros l1 l2 H. unfold wsum. by rewrite H. Qed.
Lemma wsum_nonneg l : Forall window_ok l → 0 <= wsum l.
Proof. unfold wsum. induction 1 as [|w l [Hw _] _ IH]; cbn in *; [done|]. unfold lsum in *. lia. Qed.
Lemma wsum_le w l : Forall window_ok l → w ∈ l → suppressed w <= wsum l.
Proof.
  intros Hl (l1 & l2 & ->)%list_elem_of_split. apply Forall_app in Hl as [H1 H2]. apply Forall_cons_1 in H2 as [Hw H2].
  rewrite wsum_app. pose proof (wsum_nonneg _ H1). pose proof (wsum_nonneg _ H2). change (wsum (w :: l2)) with (suppressed w + wsum l2). lia.
Qed.
Lemma wsum_insert (m : gmap aiFailedAuthAuditKey window) k w : m !! k = None → wsum ((map_to_list (<[k := w]> m)).*2) = suppressed w + wsum ((map_to_list m).*2).
Proof. intros Hk. by rewrite map_to_list_insert. Qed.
Lemma wsum_delete (m : gmap aiFailedAuthAuditKey window) k w : m !! k = Some w → wsum ((map_to_list m).*2) = suppressed w + wsum ((map_to_list (delete k m)).*2).
Proof. intros Hk. rewrite <-(insert_delete_id m k w Hk) at 1. apply wsum_insert, lookup_delete_eq. Qed.
Lemma wsum_replace (m : gmap aiFailedAuthAuditKey window) k w w' : m !! k = Some w →
  wsum ((map_to_list (<[k := w']> m)).*2) = wsum ((map_to_list m).*2) - suppressed w + suppressed w'.
Proof.
  intros Hk. rewrite (wsum_delete m k w Hk). rewrite <-insert_delete_eq. rewrite wsum_insert by apply lookup_delete_eq. lia.
Qed.
Lemma wsum_slot (l : list window) i w w' : l !! i = Some w → wsum (<[i := w']> l) = wsum l - suppressed w + suppressed w'.
Proof.
  intros Hi. rewrite insert_take_drop by (by eapply lookup_lt_Some). rewrite <-(take_drop_middle l i w Hi) at 3. rewrite !wsum_app.
  change (wsum (w' :: drop (S i) l)) with (suppressed w' + wsum (drop (S i) l)). change (wsum (w :: drop (S i) l)) with (suppressed w + wsum (drop (S i) l)). lia.
Qed.

Lemma map_to_list_filtered (P : aiFailedAuthAuditKey * window → Prop) `{!∀ x, Decision (P x)} (m : gmap aiFailedAuthAuditKey window) :
  map_to_list (filter P m) ≡ₚ filter P (map_to_list m).
Proof.
  rewrite map_filter_alt. apply map_to_list_to_map. pose proof (NoDup_fst_map_to_list m) as Hn. induction (map_to_list m) as [|x l IH]; [constructor|].
  apply NoDup_cons in Hn as [Hx Hn]. rewrite filter_cons. case_decide; [|by apply IH]. cbn. constructor; [|by apply IH].
  intros (y & E & [_ Hy]%list_elem_of_filter)%list_elem_of_fmap. apply Hx. rewrite E. by apply list_elem_of_fmap_2.
Qed.
Lemma sweep_expired now a e a' : agg_ok a → sweepAllExpiredLocked now a = (e, a') → agg_ok a' ∧ weights e + pending a' = pending a ∧ 0 <= weights e.
Proof.
  intros [Hw Ho Hl Hs]. unfold sweepAllExpiredLocked. intros [= <- <-].
  assert (size (filter (λ kw : aiFailedAuthAuditKey * window, aiFailedAuthAuditWindowExpired kw.2 now = false) (windows a)) <= size (windows a))%nat as Hsz.
  { apply map_subseteq_size, map_filter_subseteq. }
  assert (∀ l : list (aiFailedAuthAuditKey * window), Forall (λ kw, window_ok kw.2) l →
    weights (concat ((λ kw, summarizeAIFailedAuthAudit kw.2 now) <$> l)) = wsum l.*2) as Hg.
  { induction 1 as [|kw l Hk _ IH]; [done|]. cbn [fmap list_fmap concat]. rewrite weights_app, IH, weights_summary by done. done. }
  assert (∀ w, slot_ok w → slot_ok (sweep_slot now w).2 ∧ weights (sweep_slot now w).1 + suppressed (sweep_slot now w).2 = suppressed w ∧
    0 <= weights (sweep_slot now w).1) as Hsw.
  { intros w Hok. unfold sweep_slot. destruct (_ || _); cbn [fst snd]; [split_and!; [done|cbn; lia|cbn; lia]|]. rewrite weights_summary by apply Hok.
    split_and!; [split; [split; cbn; [done|lia]|done]|cbn; lia|apply Hok]. }
  assert (∀ l, Forall slot_ok l → Forall slot_ok (snd ∘ sweep_slot now <$> l) ∧
    weights (concat (fst ∘ sweep_slot now <$> l)) + wsum (snd ∘ sweep_slot now <$> l) = wsum l ∧ 0 <= weights (concat (fst ∘ sweep_slot now <$> l))) as Hov.
  { induction 1 as [|w l Hk _ (IH1 & IH2 & IH3)]; [done|]. destruct (Hsw w Hk) as (H1 & H2 & H3). cbn [fmap list_fmap concat]. split; [by constructor|].
    rewrite weights_app. cbn [compose]. change (wsum ((sweep_slot now w).2 :: (snd ∘ sweep_slot now <$> l))) with (suppressed (sweep_slot now w).2 + wsum (snd ∘ sweep_slot now <$> l)).
    change (wsum (w :: l)) with (suppressed w + wsum l). lia. }
  destruct (Hov _ Ho) as (Ho1 & Ho2 & Ho3).
  assert (Forall (λ kw : aiFailedAuthAuditKey * window, window_ok kw.2) (filter (λ kw, aiFailedAuthAuditWindowExpired kw.2 now = true) (map_to_list (windows a)))) as Hf.
  { apply Forall_forall. intros [k w] [_ Hin]%list_elem_of_filter. apply elem_of_map_to_list in Hin. by eapply Hw. }
  split_and!; cbn [windows overflow lastSweep].
  - split; cbn [windows overflow]; [|done|by rewrite length_fmap|lia]. intros k w [Hk _]%map_lookup_filter_Some. by eapply Hw.
  - unfold pending. cbn [windows overflow]. rewrite weights_app, map_to_list_filtered, Hg by done.
    rewrite <-Ho2. assert (wsum (map_to_list (windows a)).*2 = wsum (filter (λ kw, aiFailedAuthAuditWindowExpired kw.2 now = true) (map_to_list (windows a))).*2 + wsum (filter (λ kw, aiFailedAuthAuditWindowExpired kw.2 now = false) (map_to_list (windows a))).*2) as ->; [|lia].
      rewrite <-wsum_app, <-fmap_app. apply wsum_perm, fmap_Permutation.
      etrans; [symmetry; apply (filter_app_complement (λ kw : aiFailedAuthAuditKey * window, aiFailedAuthAuditWindowExpired kw.2 now = true))|].
      apply reflexive_eq. f_equal. apply list_filter_iff. intros kw. destruct (aiFailedAuthAuditWindowExpired kw.2 now); naive_solver.
  - rewrite weights_app, Hg by done. pose proof (wsum_nonneg _ (proj2 (Forall_fmap _ _ _) Hf)). lia.
Qed.

Lemma sweep_step now a e a' : agg_ok a → sweepExpiredLocked now a = (e, a') → agg_ok a' ∧ weights e + pending a' = pending a ∧ 0 <= weights e.
Proof.
  intros Ha. unfold sweepExpiredLocked. destruct (_ && _); [intros [= <- <-]; by split_and!|].
  intros Hs. apply sweep_expired in Hs; [done|]. by destruct Ha.
Qed.

Lemma suppress_ok w r now : window_ok w → window_ok (suppressAIFailedAuthAudit w r now).
Proof. intros [H1 _]. unfold suppressAIFailedAuthAudit. split; cbn; [case_match; lia|by eexists]. Qed.
Lemma suppress_count w r now : suppressed w < MaxUint64 → suppressed (suppressAIFailedAuthAudit w r now) = suppressed w + 1.
Proof. intros H. cbn. by destruct (Z.ltb_spec (suppressed w) MaxUint64); [|lia]. Qed.
Lemma fresh_ok t r : window_ok (Window t zero_instant t 0 (Some r)).
Proof. split; cbn; [done|lia]. Qed.
Lemma weights_one r : Occurrences r = 0 → weights [r] = 1.
Proof. intros H. unfold weights, weight. cbn. by rewrite H. Qed.
Lemma overflow_index op reason : (aiFailedAuthAuditOverflowIndex op reason < 18)%nat.
Proof. unfold aiFailedAuthAuditOverflowIndex, aiFailedAuthAuditOperationCount. repeat case_bool_decide; lia. Qed.

Lemma pending_nonneg a : agg_ok a → 0 <= wsum ((map_to_list (windows a)).*2) ∧ 0 <= wsum (overflow a).
Proof.
  intros [Hw Ho _ _]. split; apply wsum_nonneg; [|by eapply Forall_impl; [exact Ho|intros ? []]]. apply Forall_forall. intros w ([k w'] & -> & Hin)%list_elem_of_fmap. apply elem_of_map_to_list in Hin. by eapply Hw.
Qed.
Lemma overflow_step r now a e a' : agg_ok a → Occurrences r = 0 → pending a < MaxUint64 → recordOverflowLocked r now a = (e, a') →
  agg_ok a' ∧ weights e + pending a' = pending a + 1 ∧ 0 <= weights e.
Proof.
  intros Ha Hr Hp. unfold recordOverflowLocked. set (r' := with_operation _ (anonymous r)). assert (Occurrences r' = 0) as Hr' by done.
  set (i := aiFailedAuthAuditOverflowIndex (Operation r') (Reason r')). pose proof Ha as [Hw Ho Hl Hs].
  destruct (lookup_lt_is_Some_2 (overflow a) i) as [w Hi]; [rewrite Hl; apply overflow_index|]. rewrite Hi. cbn [default].
  pose proof (Forall_lookup_1 _ _ _ _ Ho Hi) as [Hok Hzero].
  assert (Forall window_ok (overflow a)) as Ho' by (eapply Forall_impl; [exact Ho|intros ? []; done]).
  pose proof (wsum_le w (overflow a) Ho' (list_elem_of_lookup_2 _ _ _ Hi)) as Hle. destruct (pending_nonneg a Ha) as [Hn _].
  unfold pending in Hp. unfold id. destruct (_ && _) eqn:Hlive; intros [= <- <-].
  - split; [split; cbn; [done| |by rewrite length_insert|done]|].
    { apply Forall_insert; [done|]. split; [by apply suppress_ok|]. cbn [started suppressAIFailedAuthAudit]. intros Hz. by rewrite Hz in Hlive. }
    unfold pending. cbn [windows overflow]. rewrite (wsum_slot _ _ _ _ Hi), suppress_count by lia. change (weights []) with 0. split; lia.
  - split; [split; cbn; [done| |by rewrite length_insert|done]|].
    { apply Forall_insert; [done|]. split; [apply fresh_ok|done]. }
    unfold pending. cbn [windows overflow]. rewrite (wsum_slot _ _ _ _ Hi), weights_app, weights_one by done. cbn [suppressed].
    destruct (is_zero (started w)) eqn:Hz.
    + rewrite Hzero by done. change (weights []) with 0. lia.
    + rewrite weights_summary by done. destruct Hok. lia.
Qed.

(** The end of [record]: a window of its own, or the overflow table. *)
Lemma fresh_step r now a key e a' : agg_ok a → Occurrences r = 0 → pending a < MaxUint64 → windows a !! key = None →
  (if (aiFailedAuthAuditMaxDetailedWindow <=? size (windows a))%nat then recordOverflowLocked r now a
   else ([r], set_windows (<[key := Window now zero_instant now 0 (Some r)]> (windows a)) a)) = (e, a') →
  agg_ok a' ∧ weights e + pending a' = pending a + 1 ∧ 0 <= weights e.
Proof.
  intros Ha Hr Hp Hk. destruct (Nat.leb_spec aiFailedAuthAuditMaxDetailedWindow (size (windows a))) as [|Hsz]; [by apply overflow_step|].
  intros [= <- <-]. pose proof Ha as [Hw Ho Hl Hs]. split.
  - split; cbn [set_windows windows overflow]; [|done|done|by rewrite map_size_insert_None].
    apply map_Forall_insert_2; [apply fresh_ok|done].
  - unfold pending. cbn [set_windows windows overflow]. rewrite wsum_insert by done. rewrite weights_one by done. cbn [suppressed]. lia.
Qed.

Lemma record_step r now a e a' : agg_ok a → Occurrences r = 0 → pending a < MaxUint64 → record r now a = (e, a') →
  agg_ok a' ∧ weights e + pending a' = pending a + 1 ∧ 0 <= weights e.
Proof.
  intros Ha Hr Hp. unfold record. destruct (isAggregatedFailedAuthReason (Reason r)); cbn [negb]; [|intros [= <- <-]; rewrite weights_one by done; split_and!; [done|lia|lia]].
  destruct (sweepExpiredLocked now a) as [e0 a0] eqn:Hsw. destruct (sweep_step _ _ _ _ Ha Hsw) as (Ha0 & Hp0 & He0). cbn [k_operation].
  set (key := AuditKey _ _ _ _ _ _). set (r' := with_operation _ r). assert (Occurrences r' = 0) as Hr' by done.
  assert (∀ e1 a1 e a', agg_ok a1 → pending a1 < MaxUint64 → windows a1 !! key = None →
    (if (aiFailedAuthAuditMaxDetailedWindow <=? size (windows a1))%nat then let '(e, a) := recordOverflowLocked r' now a1 in (e1 ++ e, a)
     else (e1 ++ [r'], set_windows (<[key := Window now zero_instant now 0 (Some r')]> (windows a1)) a1)) = (e, a') →
    agg_ok a' ∧ weights e + pending a' = weights e1 + pending a1 + 1 ∧ weights e1 <= weights e) as Hfresh.
  { intros e1 a1 e2 a2 Ha1 Hp1 Hk E. pose proof (fresh_step r' now a1 key) as Hf.
    destruct (Nat.leb_spec aiFailedAuthAuditMaxDetailedWindow (size (windows a1))).
    - destruct (recordOverflowLocked r' now a1) as [e3 a3]. injection E as <- <-. destruct (Hf _ _ Ha1 Hr' Hp1 Hk eq_refl) as (? & Hc & ?). rewrite weights_app. split_and!; [done|lia|lia].
    - injection E as <- <-. destruct (Hf _ _ Ha1 Hr' Hp1 Hk eq_refl) as (? & Hc & ?). rewrite weights_app. split_and!; [done|lia|lia]. }
  destruct (windows a0 !! key) as [w|] eqn:Hk; [|intros E; destruct (Hfresh _ _ _ _ Ha0 ltac:(lia) Hk E) as (? & ? & ?); split_and!; [done|lia|lia]].
  pose proof Ha0 as [Hw Ho Hl Hs]. pose proof (Hw _ _ Hk) as Hok. pose proof (wsum_delete _ _ _ Hk) as Hd. destruct (pending_nonneg a0 Ha0) as [Hn1 Hn2].
  assert (agg_ok (set_windows (delete key (windows a0)) a0)) as Hdel.
  { split; cbn [set_windows windows overflow]; [by apply map_Forall_delete|done|done|].
    etrans; [apply map_subseteq_size, delete_subseteq|done]. }
  destruct (pending_nonneg _ Hdel) as [Hn3 _]. cbn [set_windows windows] in Hn3.
  destruct (aiFailedAuthAuditWindowExpired w now); cbn [negb].
  - assert (pending (set_windows (delete key (windows a0)) a0) < MaxUint64) as Hpd by (unfold pending in *; cbn [set_windows windows overflow]; destruct Hok; lia).
    intros E. destruct (Hfresh _ _ _ _ Hdel Hpd (lookup_delete_eq _ _) E) as (H1 & H2 & H3).
    split; [done|]. rewrite weights_app, weights_summary in H2, H3 by done. unfold pending in *. destruct Hok. cbn [set_windows windows overflow] in *. lia.
  - intros [= <- <-]. split_and!; [| |done].
    + split; cbn [set_windows windows overflow]; [|done|done|].
      * apply map_Forall_insert_2; [by apply suppress_ok|done].
      * rewrite map_size_insert_Some by (by eexists). done.
    + unfold pending in *. cbn [set_windows windows overflow]. rewrite (wsum_replace _ _ _ _ Hk), suppress_count by (destruct Hok; lia). lia.
Qed.

(** * Runs *)
Definition record_all (es : list (aiAuditRecord * Z)) : list aiAuditRecord * aggregator :=
  foldl (λ s x, let '(e, a) := record x.1 x.2 s.2 in (s.1 ++ e, a)) ([], newAIFailedAuthAuditAggregator) es.
Lemma new_ok : agg_ok newAIFailedAuthAuditAggregator.
Proof.
  split; cbn [newAIFailedAuthAuditAggregator windows overflow]; [apply map_Forall_empty| |done|rewrite map_size_empty; unfold aiFailedAuthAuditMaxDetailedWindow; lia].
  apply Forall_replicate. split; [split; cbn; [done|lia]|done].
Qed.

(** The audit log of the AI API loses no event. However requests are refused and accepted,
    at whatever times, the records written to the log stand for exactly the events that
    happened, apart from those still being counted in a window: a written record for one
    event, a summary for as many as it says. The counting keeps at most 4096 windows and
    the 18 overflow slots. *)
Theorem audit_events_conserved es :
  Forall (λ x, Occurrences x.1 = 0) es → Z.of_nat (length es) <= MaxUint64 →
  let '(emitted, a) := record_all es in
  weights emitted + pending a = Z.of_nat (length es) ∧ (size (windows a) <= 4096)%nat ∧ length (overflow a) = 18%nat.
Proof.
  intros Hes Hn. assert (agg_ok (record_all es).2 ∧ weights (record_all es).1 + pending (record_all es).2 = Z.of_nat (length es) ∧ 0 <= weights (record_all es).1) as H.
  { induction es as [|x es IH] using rev_ind; [split_and!; [apply new_ok|done|done]|].
    apply Forall_app in Hes as [Hes Hx]. apply Forall_cons_1 in Hx as [Hx _]. rewrite length_app in Hn |- *. cbn [length] in *.
    destruct IH as (Ha & Hc & H0); [done|lia|]. unfold record_all in *. rewrite foldl_app. cbn [foldl].
    set (s := foldl _ _ es) in *. destruct (record x.1 x.2 s.2) as [e a] eqn:E. cbn [fst snd].
    destruct (record_step _ _ _ _ _ Ha Hx ltac:(lia) E) as (Ha' & Hc' & H0'). rewrite weights_app. split_and!; [done|lia|lia]. }
  destruct (record_all es) as [emitted a]. destruct H as ([_ _ Hl Hs] & Hc & _). done.
Qed.

(** Three refusals of one address within a minute and an accepted request; the first two later
    ones stay counted. *)
Definition demo_audit (t : Z) (reason : string) (status : Z) : aiAuditRecord :=
  Audit t "" "analysis" "192.0.2.1" (bool_decide (reason = "")) status 1 reason "" "" "" "" "" "" "" false false None None false 0 None None.
Definition demo_events : list (aiAuditRecord * Z) :=
  (λ x, (demo_audit x.1.1 x.1.2 x.2, x.1.1)) <$>
    [(1, "authentication_failed", 401); (2, "authentication_failed", 401); (3, "", 200); (4, "authentication_failed", 401);
     (61 * Session.Second, "authentication_failed", 401)].
Lemma audit_events_conserved_witness :
  let '(emitted, a) := record_all demo_events in
  (Occurrences <$> emitted) = [0; 0; 2; 0] ∧ pending a = 0 ∧ weights emitted + pending a = 5.
Proof.
  pose proof (audit_events_conserved demo_events) as H. destruct (record_all demo_events) as [emitted a] eqn:E.
  destruct H as (Hc & _); [repeat constructor|vm_compute; discriminate|].
  assert (emitted = (record_all demo_events).1 ∧ a = (record_all demo_events).2) as [-> ->] by (rewrite E; split; reflexivity).
  split; [vm_compute; reflexivity|]. split; [vm_compute; reflexivity|exact Hc].
Defined.
