(* ===== verification/AiGate.v ===== *)
(** The gate of the AI listener ([AIAPIMiddleware] of [middleware/auth.go]): bearer tokens,
    scopes, per-minute limits and one audit event for every request.

    A request passes critical sections of the limiter; the calls of other requests run
    between them. The handler behind the gate sees the credential and the audit scope. *)
From Stdlib Require Import ZArith Lia.
From stdpp Require Import base gmap list strings sorting.
From S2P Require Import Prelude GoText NetAddr Crypto Session Gate StrictJson AiCredentials AuditKeys AiAudit.
Open Scope Z_scope.

Definition maxAuthorizationHeaderBytes : Z := 1024.
Definition minAITokenBytes : Z := 43.
Definition maxAITokenBytes : Z := 512.
Definition aiAnalysisRequestsPerMinute : Z := 120.
Definition aiTransactionRequestsPerMinute : Z := 30.
Definition aiFailedAuthRequestsPerMinute : Z := 30.
Definition maxAIWindows : nat := 4096.

(** * The limiter *)
Record aiRateWindow := RateWindow { rw_started : Z; rw_count : Z }.
Notation limiter := (gmap string aiRateWindow) (only parsing).

Definition expired (now : Z) (w : aiRateWindow) : bool := Session.Minute <=? Session.Sub now (rw_started w).
(** [for candidate := range windows { if expired { delete } }] *)
Definition prune (now : Z) (l : limiter) : limiter := filter (λ kw, expired now kw.2 = false) l.
Definition allow (key : string) (limit now : Z) (l : limiter) : bool * limiter :=
  let crowded := bool_decide (l !! key = None) && (maxAIWindows <=? size l)%nat in
  let l := if crowded then prune now l else l in
  if crowded && (maxAIWindows <=? size l)%nat then (false, l)
  else
    let start := (true, <[key := RateWindow now 1]> l) in
    match l !! key with
    | None => start
    | Some w =>
      if (rw_started w =? AiCredentials.zero_instant) || expired now w then start
      else if limit <=? rw_count w then (false, l)
      else (true, <[key := RateWindow (rw_started w) (rw_count w + 1)]> l)
    end.
Definition blocked (key : string) (limit now : Z) (l : limiter) : bool * limiter :=
  match l !! key with
  | None => (false, l)
  | Some w => if expired now w then (false, delete key l) else (limit <=? rw_count w, l)
  end.

(** * Requests *)
Record ai_request := AIRequest {
  g_Method : string; g_Path : string; g_RemoteAddr : string;
  g_Authorization : string;        (** [Header.Get], empty when absent *)
  g_Relay : string;                (** [X-Omni-AI-Console-Relay] *)
  g_PeerCertificate : option (list Z)
}.

Definition bearer_prefix : string := "Bearer ".
Definition bearerToken (header : string) : option string :=
  if (maxAuthorizationHeaderBytes <? len header) || negb (String.prefix bearer_prefix header) then None
  else
    let token := of_bytes (drop 7 (bytes header)) in
    if (len token <? minAITokenBytes) || (maxAITokenBytes <? len token) || negb (bool_decide (TrimSpace token = token)) then None
    else if existsb (λ r, IsSpace r || IsControl r) (runes token) then None
    else Some token.

Definition aiRequiredScope (path : string) : string :=
  if bool_decide (path = "/api/v1/ai/transactions") then ScopeTransactionsCreate
  else if bool_decide (path = "/api/v1/ai/analysis") then ScopeAnalysisSummary else "".
Definition aiOperation (path : string) : string :=
  if bool_decide (path = "/api/v1/ai/transactions") then "transactions.create"
  else if bool_decide (path = "/api/v1/ai/analysis") then "analysis" else "unknown".
Definition aiRequestLimit (path : string) : Z :=
  if bool_decide (path = "/api/v1/ai/transactions") then aiTransactionRequestsPerMinute else aiAnalysisRequestsPerMinute.
Definition remoteHost (remoteAddr : string) : string :=
  match SplitHostPort remoteAddr with Some (host, _) => host | None => TrimSpace remoteAddr end.
Definition peerCertificateFingerprint (r : ai_request) : string :=
  match g_PeerCertificate r with None => "" | Some raw => Session.EncodeToString (Sum256 raw) end.

(** [auditResponseWriter]: the first status counts, a body without one means 200. *)
Inductive response_op := WriteHeader (status : Z) | WriteBody.
Definition recorded (ops : list response_op) : Z :=
  match head ops with Some (WriteHeader s) => s | _ => 200 end.

(** * The audit scope of a request *)
Record aiRequestAuditScope := Scope {
  sc_auditKeys : option snapshotData; sc_accountReference : string; sc_accountReferenceKeyID : string; sc_previousAccountReference : string;
  sc_previousAccountKeyID : string; sc_startDate : string; sc_endDate : string; sc_includeDetails : bool; sc_includeMemo : bool;
  sc_matchedCount : option Z; sc_returnedCount : option Z; sc_idempotencyReplayed : bool
}.
Definition new_scope (keys : option snapshotData) : aiRequestAuditScope := Scope keys "" "" "" "" "" "" false false None None false.
Definition RecordAIIdempotencyReplay (s : aiRequestAuditScope) : aiRequestAuditScope :=
  Scope (sc_auditKeys s) (sc_accountReference s) (sc_accountReferenceKeyID s) (sc_previousAccountReference s) (sc_previousAccountKeyID s)
    (sc_startDate s) (sc_endDate s) (sc_includeDetails s) (sc_includeMemo s) (sc_matchedCount s) (sc_returnedCount s) true.
Definition RecordAIRequestAudit (account startDate endDate : string) (includeDetails includeMemo : bool) (matchedCount returnedCount : option Z)
    (now : Z) (s : aiRequestAuditScope) : aiRequestAuditScope :=
  let references := AccountReferences (sc_auditKeys s) account now in
  Scope (sc_auditKeys s) (HMACSHA256 (Current references)) (KeyID (Current references))
    (match PreviousRef references with Some p => HMACSHA256 p | None => "" end) (match PreviousRef references with Some p => KeyID p | None => "" end)
    startDate endDate includeDetails includeMemo
    (match matchedCount with Some _ => matchedCount | None => sc_matchedCount s end)
    (match returnedCount with Some _ => returnedCount | None => sc_returnedCount s end) (sc_idempotencyReplayed s).

(** * The middleware *)
Record shared := Shared { sh_limiter : gmap string aiRateWindow; sh_audits : aggregator; sh_log : list aiAuditRecord }.
Inductive limiter_call := LAllow (key : string) (limit now : Z) | LBlocked (key : string) (limit now : Z).
Definition run_limiter (l : limiter) (c : limiter_call) : limiter :=
  match c with LAllow k n t => (allow k n t l).2 | LBlocked k n t => (blocked k n t l).2 end.
(** What surrounds a request: the readings of the clock and the limiter calls of others. *)
Record ai_around := AIAround { at_start : Z; at_blocked : Z; at_auth : Z; at_allow : Z; at_end : Z; others : list limiter_call }.

(** [audit]: the record goes through the aggregator, which decides what is written. *)
Definition audit (x : ai_around) (r : ai_request) (credentialID : string) (scope : option aiRequestAuditScope) (allowed : bool) (status : Z) (reason : string)
    (s : shared) : shared :=
  let duration := Z.max 0 (Z.quot (Session.Sub (at_end x) (at_start x)) 1000000) in
  let base := Audit (at_end x) credentialID (aiOperation (g_Path r)) (remoteHost (g_RemoteAddr r)) allowed status duration reason (peerCertificateFingerprint r) in
  let record0 :=
    match scope with
    | None => base "" "" "" "" "" "" false false None None false 0 None None
    | Some c => base (sc_accountReference c) (sc_accountReferenceKeyID c) (sc_previousAccountReference c) (sc_previousAccountKeyID c) (sc_startDate c)
                  (sc_endDate c) (sc_includeDetails c) (sc_includeMemo c) (sc_matchedCount c) (sc_returnedCount c) (sc_idempotencyReplayed c) 0 None None
    end in
  let '(emitted, a) := record record0 (at_end x) (sh_audits s) in
  Shared (sh_limiter s) a (sh_log s ++ emitted).

(** What is served: the handler behind the gate on a path of its own, an answer of the gate, or
    the handler with a credential. *)
Inductive ai_outcome := Unguarded | Answered (status : Z) (reason : string) | Reached (c : Credential) (status : Z).

Section Middleware.
Context {App : Type} (handler : Credential → aiRequestAuditScope → App → (list response_op * aiRequestAuditScope) * App).
Context (unguarded : App → App).

Definition set_limiter (l : limiter) (s : shared) : shared := Shared l (sh_audits s) (sh_log s).
Definition failedAuthenticationKey (r : ai_request) : string := "authentication-failed" +:+ of_bytes [0] +:+ remoteHost (g_RemoteAddr r).
Definition credentialKey (r : ai_request) (c : Credential) : string :=
  AiCredentials.ID c +:+ of_bytes [0] +:+ remoteHost (g_RemoteAddr r) +:+ of_bytes [0] +:+ aiOperation (g_Path r).

(** A failed authentication is counted against the address. *)
Definition refuse_authentication (x : ai_around) (r : ai_request) (s : shared) : ai_outcome * shared :=
  let '(ok, l) := allow (failedAuthenticationKey r) aiFailedAuthRequestsPerMinute (at_allow x) (sh_limiter s) in
  let s := set_limiter l s in
  if ok then (Answered 401 "authentication_failed", audit x r "" None false 401 "authentication_failed" s)
  else (Answered 429 "authentication_rate_limited", audit x r "" None false 429 "authentication_rate_limited" s).

Definition AIAPIMiddleware (store : option Store) (auditStore : option (option snapshotData)) (x : ai_around) (r : ai_request) (s : shared) (app : App)
    : ai_outcome * shared * App :=
  if negb (String.prefix "/api/v1/ai/" (g_Path r)) then (Unguarded, s, unguarded app)
  else
    let answer (id : string) (scope : option aiRequestAuditScope) (status : Z) (reason : string) (s : shared) :=
      (Answered status reason, audit x r id scope false status reason s, app) in
    if match auditStore with None => true | Some k => bool_decide (StoreKeyID k = "") end
    then answer "" None 503 "audit_key_unavailable" s
    else
      let '(stop, l) := blocked (failedAuthenticationKey r) aiFailedAuthRequestsPerMinute (at_blocked x) (sh_limiter s) in
      let s := set_limiter l s in
      if stop then answer "" None 429 "authentication_rate_limited" s
      else
        let s := set_limiter (foldl run_limiter (sh_limiter s) (others x)) s in
        match bearerToken (g_Authorization r), store with
        | Some token, Some store =>
          match Authenticate store token (at_auth x) with
          | None => let '(o, s) := refuse_authentication x r s in (o, s, app)
          | Some c =>
            let scope := new_scope (match auditStore with Some k => k | None => None end) in
            let answer := answer (AiCredentials.ID c) (Some scope) in
            if negb (bool_decide (g_Method r = "POST")) then answer 403 "method_forbidden" s
            else if bool_decide (aiRequiredScope (g_Path r) = "") then answer 404 "path_not_allowed" s
            else if negb (HasScope c (aiRequiredScope (g_Path r))) then answer 403 "scope_forbidden" s
            else if bool_decide (g_Relay r = "1") && negb (AllowConsoleRelay c) then answer 403 "console_relay_forbidden" s
            else
              let '(ok, l) := allow (credentialKey r c) (aiRequestLimit (g_Path r)) (at_allow x) (sh_limiter s) in
              let s := set_limiter l s in
              if negb ok then answer 429 "rate_limited" s
              else
                let '(ops, scope, app) := handler c scope app in
                let status := recorded ops in
                (Reached c status, audit x r (AiCredentials.ID c) (Some scope) (status <? 400) status "" s, app)
          end
        | _, _ => let '(o, s) := refuse_authentication x r s in (o, s, app)
        end.

(** * One audit event for each request *)
Lemma audit_event x r id scope ok status reason s : agg_ok (sh_audits s) → pending (sh_audits s) < MaxUint64 →
  let s' := audit x r id scope ok status reason s in
  agg_ok (sh_audits s') ∧ weights (sh_log s') + pending (sh_audits s') = weights (sh_log s) + pending (sh_audits s) + 1 ∧
  pending (sh_audits s') <= pending (sh_audits s) + 1 ∧ sh_limiter s' = sh_limiter s.
Proof.
  intros Ha Hp. cbv zeta. unfold audit. set (rec := match scope with None => _ | Some _ => _ end). destruct (record rec (at_end x) (sh_audits s)) as [e a] eqn:E.
  assert (Occurrences rec = 0) as Hr by (subst rec; by destruct scope). destruct (record_step _ _ _ _ _ Ha Hr Hp E) as (H1 & H2 & H3).
  cbn [sh_audits sh_log sh_limiter]. rewrite weights_app. split_and!; [done|lia|lia|done].
Qed.
Lemma refuse_event x r s : agg_ok (sh_audits s) → pending (sh_audits s) < MaxUint64 →
  let '(o, s') := refuse_authentication x r s in (∀ c n, o ≠ Reached c n) ∧
  agg_ok (sh_audits s') ∧ weights (sh_log s') + pending (sh_audits s') = weights (sh_log s) + pending (sh_audits s) + 1 ∧
  pending (sh_audits s') <= pending (sh_audits s) + 1.
Proof.
  intros Ha Hp. unfold refuse_authentication. destruct (allow _ _ _ _) as [[] l].
  - split; [done|]. edestruct audit_event as (? & ? & ? & ?); cycle -1; [split_and!; eassumption|done..].
  - split; [done|]. edestruct audit_event as (? & ? & ? & ?); cycle -1; [split_and!; eassumption|done..].
Qed.

Lemma middleware_event store aks x r s app : String.prefix "/api/v1/ai/" (g_Path r) = true → agg_ok (sh_audits s) → pending (sh_audits s) < MaxUint64 →
  let s' := (AIAPIMiddleware store aks x r s app).1.2 in
  agg_ok (sh_audits s') ∧ weights (sh_log s') + pending (sh_audits s') = weights (sh_log s) + pending (sh_audits s) + 1 ∧
  pending (sh_audits s') <= pending (sh_audits s) + 1.
Proof.
  intros Hpath Ha Hp. cbv zeta. unfold AIAPIMiddleware. rewrite Hpath. cbn [negb].
  assert (∀ id scope ok status reason l, let s' := audit x r id scope ok status reason (set_limiter l s) in
    agg_ok (sh_audits s') ∧ weights (sh_log s') + pending (sh_audits s') = weights (sh_log s) + pending (sh_audits s) + 1 ∧
    pending (sh_audits s') <= pending (sh_audits s) + 1) as Haud.
  { intros id scope ok status reason l. by destruct (audit_event x r id scope ok status reason (set_limiter l s)) as (? & ? & ? & _). }
  assert (∀ l o s', refuse_authentication x r (set_limiter l s) = (o, s') → agg_ok (sh_audits s') ∧
    weights (sh_log s') + pending (sh_audits s') = weights (sh_log s) + pending (sh_audits s) + 1 ∧ pending (sh_audits s') <= pending (sh_audits s) + 1) as Href.
  { intros l o s' E. pose proof (refuse_event x r (set_limiter l s) Ha Hp) as H. rewrite E in H. tauto. }
  destruct (match aks with None => _ | Some _ => _ end).
  { cbn [fst snd]. destruct s as [l a g]. exact (Haud "" None false 503 "audit_key_unavailable" l). }
  destruct (blocked _ _ _ _) as [[] l0]; [apply Haud|].
  change (set_limiter (foldl run_limiter (sh_limiter (set_limiter l0 s)) (others x)) (set_limiter l0 s)) with (set_limiter (foldl run_limiter l0 (others x)) s).
  generalize (foldl run_limiter l0 (others x)). intros l1.
  destruct (bearerToken _) as [token|], store as [st|];
    try (destruct (refuse_authentication x r (set_limiter l1 s)) as [o s'] eqn:E; exact (Href _ _ _ E)).
  destruct (Authenticate st token (at_auth x)) as [c|]; [|destruct (refuse_authentication x r (set_limiter l1 s)) as [o s'] eqn:E; exact (Href _ _ _ E)].
  repeat (match goal with |- context [if ?b then (Answered _ _, _, _) else _] => destruct b; [apply Haud|] end).
  destruct (allow _ _ _ _) as [[] l2]; cbn [negb]; [|apply Haud]. destruct (handler _ _ _) as [[ops sc] app']. apply Haud.
Qed.

(** * What is behind the gate *)
Lemma middleware_reached store aks x r s app c n s' app' : AIAPIMiddleware store aks x r s app = (Reached c n, s', app') →
  ∃ st token k, store = Some st ∧ aks = Some k ∧ StoreKeyID k ≠ "" ∧ String.prefix "/api/v1/ai/" (g_Path r) = true ∧
    bearerToken (g_Authorization r) = Some token ∧ Authenticate st token (at_auth x) = Some c ∧ g_Method r = "POST" ∧
    aiRequiredScope (g_Path r) ≠ "" ∧ HasScope c (aiRequiredScope (g_Path r)) = true ∧ (g_Relay r = "1" → AllowConsoleRelay c = true) ∧
    ∃ ops sc l, handler c (new_scope k) app = ((ops, sc), app') ∧ n = recorded ops ∧ (allow (credentialKey r c) (aiRequestLimit (g_Path r)) (at_allow x) l).1 = true.
Proof.
  unfold AIAPIMiddleware. destruct (String.prefix "/api/v1/ai/" (g_Path r)); cbn [negb]; [|done].
  destruct aks as [k|]; [|done]. case_bool_decide as Hk; [done|]. destruct (blocked _ _ _ _) as [[] l0]; [done|].
  set (s1 := set_limiter (foldl _ _ _) _). clearbody s1.
  assert (∀ o s2, refuse_authentication x r s1 = (o, s2) → o ≠ Reached c n) as Href.
  { intros o s2. unfold refuse_authentication. destruct (allow _ _ _ _) as [[] l]; by intros [= <- _]. }
  destruct (bearerToken _) as [token|] eqn:Hb, store as [st|];
    try (destruct (refuse_authentication x r s1) as [o s2] eqn:E; intros [= ? _ _]; by destruct (Href _ _ eq_refl)).
  destruct (Authenticate st token (at_auth x)) as [c0|] eqn:Hau; [|destruct (refuse_authentication x r s1) as [o s2] eqn:E; intros [= ? _ _]; by destruct (Href _ _ eq_refl)].
  destruct (bool_decide_reflect (g_Method r = "POST")) as [Hm|]; cbn [negb]; [|done].
  case_bool_decide as Hsc; [done|]. destruct (HasScope c0 _) eqn:Hhs; cbn [negb]; [|done].
  destruct (bool_decide (g_Relay r = "1") && negb (AllowConsoleRelay c0)) eqn:Hrel; [done|].
  destruct (allow _ _ _ _) as [[] l2] eqn:Hal; cbn [negb]; [|done]. destruct (handler c0 _ _) as [[ops sc] app1] eqn:Hh. intros [= <- <- _ <-].
  exists st, token, k. split_and!; try done.
  - intros Hr. rewrite Hr in Hrel. cbn in Hrel. by destruct (AllowConsoleRelay c0).
  - exists ops, sc, (sh_limiter s1). split_and!; [done|done|by rewrite Hal].
Qed.
Lemma middleware_answered store aks x r s app n reason s' app' : AIAPIMiddleware store aks x r s app = (Answered n reason, s', app') → app' = app.
Proof.
  unfold AIAPIMiddleware. destruct (negb _); [done|]. destruct (match aks with None => _ | Some _ => _ end); [by intros [= _ _ _ <-]|].
  destruct (blocked _ _ _ _) as [[] l0]; [by intros [= _ _ _ <-]|]. set (s1 := set_limiter (foldl _ _ _) _). clearbody s1.
  destruct (bearerToken _) as [token|], store as [st|]; try (destruct (refuse_authentication x r s1) as [o s2]; by intros [= _ _ <-]).
  destruct (Authenticate st token (at_auth x)) as [c|]; [|destruct (refuse_authentication x r s1) as [o s2]; by intros [= _ _ <-]].
  repeat (match goal with |- context [if ?b then (Answered _ _, _, _) else _] => destruct b; [by intros [= _ _ _ <-]|] end).
  destruct (allow _ _ _ _) as [[] l2]; cbn [negb]; [|by intros [= _ _ _ <-]]. by destruct (handler _ _ _) as [[ops sc] app1].
Qed.
Lemma middleware_unguarded store aks x r s app s' app' : AIAPIMiddleware store aks x r s app = (Unguarded, s', app') →
  String.prefix "/api/v1/ai/" (g_Path r) = false ∧ s' = s ∧ app' = unguarded app.
Proof.
  unfold AIAPIMiddleware. destruct (String.prefix "/api/v1/ai/" (g_Path r)); cbn [negb]; [|by intros [= <- <-]].
  destruct (match aks with None => _ | Some _ => _ end); [done|]. destruct (blocked _ _ _ _) as [[] l0]; [done|].
  set (s1 := set_limiter (foldl _ _ _) _). clearbody s1.
  assert (∀ o s2, refuse_authentication x r s1 = (o, s2) → o ≠ Unguarded) as Href.
  { intros o s2. unfold refuse_authentication. destruct (allow _ _ _ _) as [[] l]; by intros [= <- _]. }
  destruct (bearerToken _) as [token|], store as [st|];
    try (destruct (refuse_authentication x r s1) as [o s2] eqn:E; intros [= ? _ _]; by destruct (Href _ _ eq_refl)).
  destruct (Authenticate st token (at_auth x)) as [c|]; [|destruct (refuse_authentication x r s1) as [o s2] eqn:E; intros [= ? _ _]; by destruct (Href _ _ eq_refl)].
  repeat (match goal with |- context [if ?b then (Answered _ _, _, _) else _] => destruct b; [done|] end).
  destruct (allow _ _ _ _) as [[] l2]; cbn [negb]; [|done]. by destruct (handler _ _ _) as [[ops sc] app1].
Qed.

(** The gate of the AI listener is sound. A handler behind it runs only for a POST to one of
    the two AI routes that carried the token of a credential of the document loaded last,
    well formed and within its lifetime at the time of the check, with the scope the route
    needs (and the relay scope for a request relayed by the console), while an audit key is
    loaded. A request the gate answers itself has no effect behind it. *)
Theorem ai_gate_sound {text_lib : HttpText} path rs aks x r s app :
  let st := reloads rs (MkStore path None) in
  match AIAPIMiddleware (Some st) aks x r s app with
  | (Reached c n, _, app') =>
    g_Method r = "POST" ∧ (g_Path r = "/api/v1/ai/transactions" ∨ g_Path r = "/api/v1/ai/analysis") ∧
    c ∈ List st ∧ credential_ok c ∧ NotBefore c <= at_auth x < ExpiresAt c ∧
    (∃ token, bearerToken (g_Authorization r) = Some token ∧ tokenHash c = Sum256 (bytes token)) ∧
    HasScope c (aiRequiredScope (g_Path r)) = true ∧ (g_Relay r = "1" → HasScope c ScopeConsoleRelay = true) ∧
    ∃ k ops sc, aks = Some k ∧ StoreKeyID k ≠ "" ∧ handler c (new_scope k) app = ((ops, sc), app') ∧ n = recorded ops
  | (Answered _ _, _, app') => app' = app
  | (Unguarded, s', app') => String.prefix "/api/v1/ai/" (g_Path r) = false ∧ s' = s ∧ app' = unguarded app
  end.
Proof.
  intros st. destruct (AIAPIMiddleware (Some st) aks x r s app) as [[o s'] app'] eqn:E. destruct o as [|n reason|c n].
  - by eapply middleware_unguarded.
  - by eapply middleware_answered.
  - apply middleware_reached in E as (st0 & token & k & [= <-] & Hk & Hkid & _ & Hb & Ha & Hm & Hs & Hhs & Hr & ops & sc & l & Hh & Hn & _).
    pose proof (reloads_document path rs) as Hdoc. destruct (proj1 (Authenticate_spec _ _ _ _ Hdoc) Ha) as (_ & Hin & Hth & Hlife).
    pose proof (List_ok _ _ Hdoc Hin) as Hok. split_and!; try done; try apply Hlife.
    + unfold aiRequiredScope in Hs. repeat case_bool_decide; auto; done.
    + by exists token.
    + intros Hrel. rewrite <-(co_relay _ Hok). by apply Hr.
    + by exists k, ops, sc.
Qed.

(** * Runs *)
Definition serve_ai (store : option Store) (aks : option (option snapshotData)) (st : shared * App) (q : ai_around * ai_request) : shared * App :=
  let '(_, s, app) := AIAPIMiddleware store aks q.1 q.2 st.1 st.2 in (s, app).
Definition new_shared : shared := Shared ∅ newAIFailedAuthAuditAggregator [].

Definition guarded_path (q : ai_around * ai_request) : bool := String.prefix "/api/v1/ai/" (g_Path q.2).
Definition guarded (qs : list (ai_around * ai_request)) : Z := Z.of_nat (length (filter guarded_path qs)).

Lemma serve_unguarded store aks st q : guarded_path q = false → serve_ai store aks st q = (st.1, unguarded st.2).
Proof. intros H. unfold serve_ai, AIAPIMiddleware. unfold guarded_path in H. by rewrite H. Qed.
Lemma guarded_snoc qs q : guarded (qs ++ [q]) = guarded qs + (if guarded_path q then 1 else 0).
Proof.
  unfold guarded. rewrite filter_app, length_app. destruct (guarded_path q) eqn:E.
  - rewrite filter_cons_True by (rewrite E; exact I). rewrite filter_nil. cbn [length]. lia.
  - rewrite filter_cons_False by (rewrite E; intros []). rewrite filter_nil. cbn [length]. lia.
Qed.

(** C39. Every request to a path under [/api/v1/ai/] leaves exactly one audit event, accepted or
    refused and whatever its handler does: after any sequence of requests, the records
    written to the log and the refusals still being counted stand for as many events as
    there were requests to such paths, while the counting keeps at most 4096 windows and 18
    overflow slots. A request to any other path that reaches the listener is passed on
    as it is: it is not audited, and neither the limiter nor the audit state changes. *)
Theorem ai_requests_audited store aks app qs :
  guarded qs <= MaxUint64 →
  let st := foldl (serve_ai store aks) (new_shared, app) qs in
  weights (sh_log st.1) + pending (sh_audits st.1) = guarded qs ∧
  (size (windows (sh_audits st.1)) <= 4096)%nat ∧ length (overflow (sh_audits st.1)) = 18%nat ∧
  ∀ q, guarded_path q = false → serve_ai store aks st q = (st.1, unguarded st.2).
Proof.
  intros Hn st. assert (agg_ok (sh_audits st.1) ∧ weights (sh_log st.1) + pending (sh_audits st.1) = guarded qs ∧ pending (sh_audits st.1) <= guarded qs) as H;
    [|destruct H as ([_ _ Hl Hs] & Hc & _); split_and!; try done; intros q; apply serve_unguarded].
  subst st. induction qs as [|q qs IH] using rev_ind; [split_and!; [apply new_ok|done|done]|].
  rewrite guarded_snoc in *. rewrite foldl_app. cbn [foldl]. set (p := foldl _ _ qs) in *.
  destruct (guarded_path q) eqn:Hq; [|rewrite serve_unguarded by done; cbn [fst]; rewrite Z.add_0_r in *; by apply IH].
  destruct IH as (Ha & Hc & Hp); [lia|]. unfold serve_ai.
  pose proof (middleware_event store aks q.1 q.2 p.1 p.2 Hq Ha ltac:(lia)) as H. cbv zeta in H.
  destruct (AIAPIMiddleware store aks q.1 q.2 p.1 p.2) as [[o s'] app']. cbn [fst snd] in *. destruct H as (H1 & H2 & H3). split_and!; [done|lia|lia].
Qed.
End Middleware.

(** * How much the limiter lets through *)
Definition call_time (c : limiter_call) : Z := match c with LAllow _ _ t | LBlocked _ _ t => t end.
(** The times at which calls for [k] were let through. *)
Definition accepted_now (k : string) (l : limiter) (c : limiter_call) : list Z :=
  match c with LAllow k' n t => if bool_decide (k' = k) && (allow k' n t l).1 then [t] else [] | LBlocked _ _ _ => [] end.
Fixpoint accepted (k : string) (l : limiter) (cs : list limiter_call) : list Z :=
  match cs with [] => [] | c :: cs' => accepted_now k l c ++ accepted k (run_limiter l c) cs' end.

Section Rate.
Context (k : string) (L : nat) (HL : (1 <= L)%nat).
Notation Minute := Session.Minute.

Definition spread (hist : list Z) : Prop := ∀ i x y, hist !! i = Some x → hist !! (i + 2 * L)%nat = Some y → x + Minute <= y.
(** Everything but the last [L] acceptances lies a minute back at [T]. *)
Definition settled (hist : list Z) (T : Z) : Prop := ∀ i x, hist !! i = Some x → (i + L < length hist)%nat → x + Minute <= T.
Definition in_window (w : aiRateWindow) (hist : list Z) (T : Z) : Prop :=
  ∃ old cur, hist = old ++ cur ∧ Z.of_nat (length cur) = rw_count w ∧ (length cur <= L)%nat ∧ AiCredentials.zero_instant < rw_started w <= T ∧
    Forall (λ x, x <= rw_started w) old ∧ settled old (rw_started w).
Definition rate_inv (l : limiter) (hist : list Z) (T : Z) : Prop :=
  spread hist ∧ Forall (λ x, x <= T) hist ∧ match l !! k with None => settled hist T | Some w => in_window w hist T end.

Lemma expired_spec now w : expired now w = true ↔ rw_started w + Minute <= now.
Proof. unfold expired, Session.Sub. change Session.Minute with 60000000000. rewrite Z.leb_le. lia. Qed.
Lemma settled_later hist T T' : T <= T' → settled hist T → settled hist T'.
Proof. intros H Hs i x Hi Hl. specialize (Hs i x Hi Hl). lia. Qed.
(** A window that is over leaves its acceptances behind. *)
Lemma window_over w hist T now : in_window w hist T → rw_started w + Minute <= now → settled hist now.
Proof.
  intros (old & cur & -> & Hc & Hl & _ & Ho & _) Hw i x Hi Hlen. rewrite length_app in Hlen. rewrite lookup_app_l in Hi by lia.
  pose proof (Forall_lookup_1 _ _ _ _ Ho Hi). cbn in *. lia.
Qed.
Lemma rate_inv_later l hist T T' : T <= T' → rate_inv l hist T → rate_inv l hist T'.
Proof.
  intros H (Hs & Hf & Hm). split_and!; [done|eapply Forall_impl; [exact Hf|cbn; lia]|]. destruct (l !! k) as [w|]; [|by eapply settled_later].
  destruct Hm as (old & cur & ? & ? & ? & ? & ? & ?). exists old, cur. split_and!; try done; lia.
Qed.

Lemma spread_snoc hist now : spread hist → (∀ x, hist !! (length hist - 2 * L)%nat = Some x → (2 * L <= length hist)%nat → x + Minute <= now) → spread (hist ++ [now]).
Proof.
  intros Hs Hn i x y Hx Hy. destruct (decide (i + 2 * L < length hist)%nat) as [Hlt|Hge].
  - rewrite lookup_app_l in Hx by lia. rewrite lookup_app_l in Hy by lia. by eapply Hs.
  - assert (i + 2 * L = length hist)%nat as Ei.
    { apply lookup_lt_Some in Hy. rewrite length_app in Hy. cbn in Hy. lia. }
    rewrite Ei, list_lookup_middle in Hy by done. injection Hy as <-. rewrite lookup_app_l in Hx by lia.
    apply Hn; [|lia]. by replace (length hist - 2 * L)%nat with i by lia.
Qed.
(** A new window begins. *)
Lemma window_starts l hist T now : spread hist → Forall (λ x, x <= T) hist → T <= now → AiCredentials.zero_instant < now → settled hist now →
  rate_inv (<[k := RateWindow now 1]> l) (hist ++ [now]) now.
Proof.
  intros Hs Hf HT Hz Hset. split_and!.
  - apply spread_snoc; [done|]. intros x Hx Hl. apply (Hset _ _ Hx). lia.
  - apply Forall_app_2; [eapply Forall_impl; [exact Hf|cbn; lia]|by constructor].
  - rewrite lookup_insert_eq. exists hist, [now]. cbn [rw_count rw_started length]. split_and!; try done; try lia.
    eapply Forall_impl; [exact Hf|cbn; lia].
Qed.

(** Windows that are not touched are kept or dropped when they are over. *)
Lemma rate_inv_prune l hist T : rate_inv l hist T → rate_inv (prune T l) hist T.
Proof.
  intros (Hs & Hf & Hm). split_and!; [done|done|]. unfold prune. destruct (l !! k) as [w|] eqn:E.
  - destruct (expired T w) eqn:Ex.
    + rewrite (proj2 (map_lookup_filter_None _ _ _)); [by eapply window_over; [|apply expired_spec]|].
      right. intros w' Hw' Hne. rewrite E in Hw'. injection Hw' as <-. cbn in Hne. congruence.
    + rewrite (proj2 (map_lookup_filter_Some _ _ _ w)); [done|]. split; [done|done].
  - rewrite (proj2 (map_lookup_filter_None _ _ _)); [done|]. by left.
Qed.

Lemma allow_step k' n t l hist T : rate_inv l hist T → T <= t → AiCredentials.zero_instant < t → (k' = k → n = Z.of_nat L) →
  rate_inv (allow k' n t l).2 (hist ++ accepted_now k l (LAllow k' n t)) t.
Proof.
  intros Hi HT Hz Hn. apply (rate_inv_later _ _ _ t HT) in Hi. unfold accepted_now, allow.
  set (crowded := bool_decide (l !! k' = None) && _). set (l1 := if crowded then prune t l else l).
  assert (rate_inv l1 hist t) as Hi1 by (subst l1; destruct crowded; [by apply rate_inv_prune|done]). clearbody crowded l1. clear Hi.
  destruct (crowded && _); [by rewrite andb_false_r, app_nil_r|].
  destruct (decide (k' = k)) as [->|Hne].
  - rewrite (bool_decide_eq_true_2 (k = k)) by done. cbn [andb]. destruct Hi1 as (Hs & Hf & Hm). destruct (l1 !! k) as [w|] eqn:Ek.
    + destruct (Z.eqb_spec (rw_started w) AiCredentials.zero_instant) as [E0|_]; [destruct Hm as (? & ? & _ & _ & _ & ? & _); lia|]. cbn [orb].
      destruct (expired t w) eqn:Ex; cbn [fst snd].
      * apply window_starts with t; [done|done|lia|done|]. by eapply window_over; [|apply expired_spec].
      * rewrite Hn by done. destruct (Z.leb_spec (Z.of_nat L) (rw_count w)) as [|Hc]; cbn [fst snd]; [rewrite app_nil_r; split_and!; [done|done|by rewrite Ek]|].
        destruct Hm as (old & cur & -> & Hcur & Hl & Hst & Ho & Hset). split_and!.
        -- apply spread_snoc; [done|]. intros x Hx Hl2. rewrite length_app in Hx, Hl2. rewrite lookup_app_l in Hx by lia.
           pose proof (Hset _ _ Hx ltac:(lia)). lia.
        -- apply Forall_app_2; [done|by constructor].
        -- rewrite lookup_insert_eq. exists old, (cur ++ [t]). cbn [rw_count rw_started]. rewrite length_app. cbn [length].
           split_and!; try done; try lia. by rewrite app_assoc.
    + apply window_starts with t; [done|done|lia|done|done].
  - rewrite (bool_decide_eq_false_2 (k' = k)) by done. cbn [andb]. rewrite app_nil_r. destruct Hi1 as (Hs & Hf & Hm).
    assert (∀ w, rate_inv (<[k' := w]> l1) hist t) as Hins by (intros w; split_and!; [done|done|by rewrite lookup_insert_ne]).
    destruct (l1 !! k') as [w|]; [|apply Hins]. destruct (_ || _); [apply Hins|]. destruct (n <=? rw_count w); [by split_and!|apply Hins].
Qed.
Lemma blocked_step k' n t l hist T : rate_inv l hist T → T <= t → rate_inv (blocked k' n t l).2 hist t.
Proof.
  intros Hi HT. apply (rate_inv_later _ _ _ t HT) in Hi. unfold blocked. destruct (l !! k') as [w|] eqn:Ek; [|done]. destruct (expired t w) eqn:Ex; [|done]. cbn [snd].
  destruct Hi as (Hs & Hf & Hm). split_and!; [done|done|]. destruct (decide (k' = k)) as [->|Hne]; [|by rewrite lookup_delete_ne].
  rewrite lookup_delete_eq. rewrite Ek in Hm. by eapply window_over; [|apply expired_spec].
Qed.

(** The limiter of the AI listener. Whatever calls are made for whatever keys, in the order
    of their times, no more than twice the limit of a key is let through within any minute:
    of the acceptances of one key, each and the one [2 * L] after it are at least a minute
    apart, for the limit [L] of that key. *)
Theorem ai_rate_bounded cs T i x y :
  Sorted Z.le (T :: (call_time <$> cs)) → AiCredentials.zero_instant < T → (∀ n t, LAllow k n t ∈ cs → n = Z.of_nat L) →
  accepted k ∅ cs !! i = Some x → accepted k ∅ cs !! (i + 2 * L)%nat = Some y → x + Minute <= y.
Proof.
  intros Hs HT Hn. cut (∀ l hist T, rate_inv l hist T → Sorted Z.le (T :: (call_time <$> cs)) → AiCredentials.zero_instant < T → spread (hist ++ accepted k l cs)).
  { intros H. eapply (H ∅ [] T); [|done|done]. split_and!; [done|constructor|]. rewrite lookup_empty. done. }
  clear Hs HT. induction cs as [|c cs IH]; intros l hist T' Hi Hs HT; cbn [accepted]; [rewrite app_nil_r; apply Hi|].
  cbn [fmap list_fmap] in Hs. inversion_clear Hs as [|? ? Hs' Hh]. inversion_clear Hh as [|? ? Hle]. rewrite app_assoc.
  eapply (IH ltac:(intros n t Hin; apply (Hn n t); by right) _ _ (call_time c)); [|done|lia].
  destruct c as [k' n t|k' n t]; cbn [run_limiter call_time accepted_now] in *.
  - eapply allow_step; [done|done|lia|]. intros ->. apply (Hn n t). by left.
  - rewrite app_nil_r. by eapply blocked_step.
Qed.
End Rate.

(** * A concrete listener *)
#[local] Existing Instance AiCredentials.demo_http.
Definition demo_keys : option snapshotData :=
  match buildSnapshot (Keyring CurrentVersion (of_bytes (Images.raw_encode Images.url_char (replicate 32 7))) None) 0 with Ok s => Some s | Err _ => None end.
Definition demo_ai_request (token : string) : ai_request :=
  AIRequest "POST" "/api/v1/ai/analysis" "192.0.2.7:5000" ("Bearer " +:+ token) "" None.
Definition demo_ai_around (t : Z) : ai_around := AIAround t t t t (t + 5000000) [].
(** A handler that counts its calls. *)
Definition demo_handler (c : Credential) (s : aiRequestAuditScope) (n : nat) : (list response_op * aiRequestAuditScope) * nat :=
  (([WriteHeader 200; WriteBody], RecordAIRequestAudit "bank" "2024-05-01" "2024-05-31" false false None (Some 3) 8 s), S n).
Definition demo_requests : list (ai_around * ai_request) :=
  [(demo_ai_around 7, demo_ai_request demo_token); (demo_ai_around 8, demo_ai_request "wrong"); (demo_ai_around 9, demo_ai_request "wrong");
   (demo_ai_around 9, AIRequest "GET" "/healthz" "192.0.2.7:5000" "" "" None)].

Lemma ai_gate_sound_witness :
  let out := AIAPIMiddleware demo_handler id (Some demo_store) (Some demo_keys) (demo_ai_around 7) (demo_ai_request demo_token) new_shared 0%nat in
  (∃ c, out.1.1 = Reached c 200 ∧ HasScope c ScopeAnalysisSummary = true) ∧ out.2 = 1%nat ∧
  (Allowed <$> sh_log out.1.2) = [true].
Proof.
  intros out. pose proof (ai_gate_sound demo_handler id "credentials.json" demo_reloads (Some demo_keys) (demo_ai_around 7) (demo_ai_request demo_token) new_shared 0%nat) as H.
  cbv zeta in H. fold demo_store in H. fold out in H.
  assert (match out.1.1 with Reached _ n => n =? 200 | _ => false end = true) as Ho by (vm_compute; reflexivity).
  split; [|split; vm_compute; reflexivity]. destruct out as [[o s'] app']. cbn [fst snd] in *. destruct o as [|n reason|c n]; try discriminate Ho.
  apply Z.eqb_eq in Ho. subst n. exists c. split; [reflexivity|]. destruct H as (_ & _ & _ & _ & _ & _ & Hs & _). exact Hs.
Defined.

Lemma ai_requests_audited_witness :
  let s := (foldl (serve_ai demo_handler id (Some demo_store) (Some demo_keys)) (new_shared, 0%nat) demo_requests).1 in
  length (sh_log s) = 2%nat ∧ pending (sh_audits s) = 1 ∧ weights (sh_log s) + pending (sh_audits s) = 3.
Proof.
  intros s. split; [vm_compute; reflexivity|]. split; [vm_compute; reflexivity|].
  transitivity (guarded demo_requests); [|vm_compute; reflexivity].
  refine (proj1 (ai_requests_audited demo_handler id (Some demo_store) (Some demo_keys) 0%nat demo_requests _)).
  vm_compute. discriminate.
Defined.

Definition demo_calls : list limiter_call :=
  [LAllow "k" 1 10; LAllow "k" 1 20; LAllow "k" 1 (10 + Session.Minute); LBlocked "k" 1 (11 + Session.Minute); LAllow "k" 1 (10 + 2 * Session.Minute)].
Lemma ai_rate_bounded_witness :
  accepted "k" ∅ demo_calls = [10; 10 + Session.Minute; 10 + 2 * Session.Minute] ∧ 10 + Session.Minute <= 10 + 2 * Session.Minute.
Proof.
  split; [vm_compute; reflexivity|].
  refine (ai_rate_bounded "k" 1 _ demo_calls 0 0 10 (10 + 2 * Session.Minute) _ _ _ _ _).
  - lia.
  - cbn. repeat constructor; vm_compute; discriminate.
  - vm_compute. reflexivity.
  - intros n t Hin. unfold demo_calls in Hin. rewrite !elem_of_cons, elem_of_nil in Hin. naive_solver.
  - vm_compute. reflexivity.
  - vm_compute. reflexivity.
Defined.
