(* ===== verification/Reports.v ===== *)
(** The reads of the core service ([core/service.go]): accounts, items, transaction
    lists with their tags, and balance histories, with what they mean on a
    well-formed ledger.

    Text columns are compared bytewise (SQLite's BINARY collation). A date read back
    from the database is the date that was stored. *)
From Stdlib Require Import ZArith Lia.
From stdpp Require Import base gmap list strings sorting.
From S2P Require Import Prelude GoText Validation Settings GoTime ImageContainers Schema Balance Tags Links Images LedgerOps Service.
Open Scope Z_scope.

(** * Ordered lists of names *)
Definition name_le (a b : string) : Prop := lex_le (bytes a) (bytes b) = true.
#[global] Instance name_le_dec : RelDecision name_le.
Proof. intros a b. unfold name_le. apply _. Defined.

(** [SELECT DISTINCT account FROM transactions ORDER BY account] *)
Definition GetAccounts (db : ledger) : list string :=
  merge_sort name_le (elements (list_to_set (tx_account ∘ snd <$> map_to_list (transactions db)) : gset string)).

(** [GROUP BY item ORDER BY COUNT DESC, item ASC] *)
Definition item_count (db : ledger) (account item : string) : Z :=
  Z.of_nat (size (filter (λ x, (account = "" ∨ tx_account x.2 = account) ∧ tx_item x.2 = item) (transactions db))).
Definition item_le (db : ledger) (account : string) (a b : string) : Prop :=
  item_count db account b < item_count db account a ∨ (item_count db account a = item_count db account b ∧ name_le a b).
#[global] Instance item_le_dec db account : RelDecision (item_le db account).
Proof. intros a b. unfold item_le. apply _. Defined.
Definition GetItems (account : string) (db : ledger) : list string :=
  merge_sort (item_le db account)
    (elements (list_to_set (tx_item ∘ snd <$> filter (λ x, account = "" ∨ tx_account x.2 = account) (map_to_list (transactions db))) : gset string)).

(** * Transaction lists *)
(** SQLite's [LIKE]: [%] and [_] are wildcards, ASCII letters match in either case. *)
Definition ascii_fold (c : Z) : Z := if between 65 90 c then c + 32 else c.
Fixpoint like (pattern : list Z) : list Z → bool :=
  match pattern with
  | [] => λ text, bool_decide (text = [])
  | c :: pattern' =>
    if c =? 37 then
      fix any text := like pattern' text || match text with [] => false | _ :: text' => any text' end
    else λ text,
      match text with
      | [] => false
      | x :: text' => ((c =? 95) || (ascii_fold c =? ascii_fold x)) && like pattern' text'
      end
  end.
Definition matches_search (search text : string) : bool := like (37 :: runes search ++ [37]) (runes text).

(** The [WHERE] clause that both queries of [GetTransactions] share. *)
Definition listed (account search : string) (x : Z * txrow) : Prop :=
  (account = "" ∨ tx_account x.2 = account) ∧
  (search = "" ∨ matches_search search (tx_item x.2) = true ∨ matches_search search (tx_memo x.2) = true).
#[global] Instance listed_dec account search x : Decision (listed account search x).
Proof. unfold listed. apply _. Defined.

Definition listed_rows (account search : string) (db : ledger) : list (Z * txrow) :=
  merge_sort row_le (filter (listed account search) (map_to_list (transactions db))).

(** The join of [getTransactionTagsForFilteredTransactions], in its order; rows that
    tie stay in id order. *)
Definition join_le (x y : Z * (Z * tagrow)) : Prop := x.1 < y.1 ∨ (x.1 = y.1 ∧ tag_le x.2 y.2).
#[global] Instance join_le_dec : RelDecision join_le.
Proof. intros x y. unfold join_le. apply _. Defined.
Definition joined_tags (account search : string) (db : ledger) : list (Z * (Z * tagrow)) :=
  merge_sort join_le
    (x ← filter (listed account search) (map_to_list (transactions db));
     (λ t, (x.1, t)) <$> map_to_list (filter (λ '(g, _), (x.1, g) ∈ transaction_tags db) (tags db))).

(** [tagsByTransaction]: appended in the order of the rows. *)
Definition getTransactionTagsForFilteredTransactions (account search : string) (db : ledger) : gmap Z (list Tag) :=
  foldl (λ m x, <[x.1 := default [] (m !! x.1) ++ [as_tag x.2]]> m) ∅ (joined_tags account search db).

Definition GetTransactions (account search : string) (db : ledger) : list TransactionResponse :=
  let tags := getTransactionTagsForFilteredTransactions account search db in
  (λ x, with_tags (default [] (tags !! x.1)) (response_of db x.1 x.2)) <$> listed_rows account search db.

(** * Balance histories *)
Record BalanceHistoryResponse := History { h_accounts : list string; h_dates : list Z; h_balances : gmap string (list Z); h_exact : gmap string (list string) }.

(** The lossless decimal companion of a balance. *)
Definition ExactInt64 (value : Z) : string := FormatInt value.

(** A day, the text [2006-01-02] of a date. *)
Definition day_of (date : Z) : Z := date / day.

Definition history_row : Type := string * Z * Z.
Definition account_balances (rows : list history_row) : gmap string (gmap Z Z) :=
  foldl (λ m '(acc, d, b), <[acc := <[d := b]> (default ∅ (m !! acc))]> m) ∅ rows.
Definition fill (table : gmap Z Z) (dates : list Z) : list Z :=
  (foldl (λ '(out, last) d, let last' := default last (table !! d) in (out ++ [last'], last')) ([], 0) dates).1.

Definition buildBalanceHistory (rows : list history_row) : BalanceHistoryResponse :=
  let table := account_balances rows in
  let dates := merge_sort Z.le (elements (list_to_set ((λ x : history_row, x.1.2) <$> rows) : gset Z)) in
  let accounts := merge_sort name_le (elements (dom table)) in
  History accounts dates ((λ t, fill t dates) <$> table) ((λ t, ExactInt64 <$> fill t dates) <$> table).

Definition history_rows (P : string → bool) (db : ledger) : list history_row :=
  (λ x, (tx_account x.2, day_of (tx_date x.2), tx_balance x.2)) <$>
    merge_sort row_le (filter (λ x, P (tx_account x.2) = true) (map_to_list (transactions db))).

Definition GetBalanceHistory (db : ledger) : BalanceHistoryResponse := buildBalanceHistory (history_rows (λ _, true) db).

(** [GetBalanceHistoryFiltered]: credit-card accounts are left out unless only they
    are asked for. *)
Definition history_items (cards fundItems : list string) : list string :=
  if forallb (λ i, bool_decide (i ∈ cards)) fundItems then fundItems
  else filter (λ i, i ∉ cards) fundItems.
Definition GetBalanceHistoryFiltered (fundItems : list string) (db : ledger) : BalanceHistoryResponse :=
  if bool_decide (fundItems = []) then History [] [] ∅ ∅
  else
    let cards := match fst (GetCreditCardSettings db) with Ok items => items | Err _ => [] end in
    let items := history_items cards fundItems in
    buildBalanceHistory (history_rows (λ a, bool_decide (a ∈ items)) db).

(** * The orders *)
Lemma name_antisym a b : lex_le (bytes a) (bytes b) = true → lex_le (bytes b) (bytes a) = true → a = b.
Proof. intros H1 H2. apply bytes_inj. by apply lex_le_antisym. Qed.
#[global] Instance name_le_total : Total name_le.
Proof. intros a b. apply lex_le_total. Qed.
#[global] Instance name_le_trans : Transitive name_le.
Proof. intros a b c. apply lex_le_trans. Qed.

(** The order of tags as three keys. *)
Lemma tag_le_spec x y : tag_le x y ↔
  tag_level x.2 < tag_level y.2 ∨
  tag_level x.2 = tag_level y.2 ∧ name_le (tag_name x.2) (tag_name y.2) ∧ (name_le (tag_name y.2) (tag_name x.2) → x.1 <= y.1).
Proof.
  unfold tag_le, name_le. destruct (Z.eqb_spec (tag_level x.2) (tag_level y.2)) as [E|E]; [|naive_solver lia].
  destruct (decide (tag_name x.2 = tag_name y.2)) as [->|Hn].
  - pose proof (lex_le_refl (bytes (tag_name y.2))). naive_solver lia.
  - split; [|naive_solver lia]. intros H. right. split; [done|]. split; [done|]. intros H'. by destruct Hn; apply name_antisym.
Qed.
#[global] Instance tag_le_total : Total tag_le.
Proof.
  intros x y. rewrite !tag_le_spec.
  destruct (Ztrichotomy (tag_level x.2) (tag_level y.2)) as [|[E|?]]; [by left; left| |right; left; lia].
  destruct (decide (name_le (tag_name x.2) (tag_name y.2))) as [H1|H1], (decide (name_le (tag_name y.2) (tag_name x.2))) as [H2|H2].
  - destruct (Z.le_ge_cases x.1 y.1); [left|right]; right; auto.
  - left. right. naive_solver.
  - right. right. naive_solver.
  - by destruct (name_le_total (tag_name x.2) (tag_name y.2)).
Qed.
#[global] Instance tag_le_trans : Transitive tag_le.
Proof.
  intros x y z. rewrite !tag_le_spec. intros [?|(E1 & H1 & H1')] [?|(E2 & H2 & H2')]; [left; lia|left; lia|left; lia|].
  right. split; [lia|]. split; [by etrans|]. intros H3. etrans; [apply H1'; by etrans|apply H2'; by etrans].
Qed.
Lemma tag_le_antisym x y : tag_le x y → tag_le y x → x.1 = y.1.
Proof. rewrite !tag_le_spec. intros [?|(? & ? & ?)] [?|(? & ? & ?)]; [lia..|]. apply Z.le_antisymm; auto. Qed.
#[global] Instance join_le_total : Total join_le.
Proof.
  intros x y. unfold join_le. destruct (Ztrichotomy x.1 y.1) as [|[E|?]]; [by auto| |right; left; lia].
  destruct (tag_le_total x.2 y.2); [left|right]; right; auto.
Qed.
#[global] Instance join_le_trans : Transitive join_le.
Proof. intros x y z. unfold join_le. intros [?|[? ?]] [?|[? ?]]; [left; lia..|right]. split; [lia|by etrans]. Qed.

(** * The bulk query of the tags agrees with one query per transaction *)
Lemma grouped_lookup (l : list (Z * (Z * tagrow))) n : ∀ m : gmap Z (list Tag),
  default [] (foldl (λ m x, <[x.1 := default [] (m !! x.1) ++ [as_tag x.2]]> m) m l !! n) =
  default [] (m !! n) ++ (as_tag ∘ snd <$> filter (λ x, x.1 = n) l).
Proof.
  induction l as [|x l IH]; intros m; cbn [foldl]; [by rewrite app_nil_r|]. rewrite IH, filter_cons.
  destruct (decide (x.1 = n)) as [<-|Hn].
  - rewrite lookup_insert_eq. cbn. by rewrite <- app_assoc.
  - by rewrite lookup_insert_ne.
Qed.

Lemma filter_sorted {A} (R : relation A) (P : A → Prop) `{!∀ x, Decision (P x)} (l : list A) :
  StronglySorted R l → StronglySorted R (filter P l).
Proof.
  induction 1 as [|x l Hl IH Hx]; [by constructor|]. rewrite filter_cons. case_decide; [|done]. constructor; [done|].
  apply Forall_forall. rewrite Forall_forall in Hx. intros y [_ Hy]%list_elem_of_filter. auto.
Qed.
Lemma fmap_sorted {A B} (R : relation A) (S : relation B) (f : A → B) l :
  StronglySorted R l → (∀ x y, x ∈ l → y ∈ l → R x y → S (f x) (f y)) → StronglySorted S (f <$> l).
Proof.
  induction 1 as [|x l Hl IH Hx]; intros Hf; cbn; [by constructor|]. constructor.
  - apply IH. intros y z Hy Hz. apply Hf; by right.
  - apply Forall_forall. intros z (y & -> & Hy)%list_elem_of_fmap. rewrite Forall_forall in Hx. apply Hf; [by left|by right|auto].
Qed.

Lemma joined_of account search db n r :
  transactions db !! n = Some r → listed account search (n, r) →
  snd <$> filter (λ x, x.1 = n) (joined_tags account search db) =
  merge_sort tag_le (map_to_list (filter (λ '(g, _), (n, g) ∈ transaction_tags db) (tags db))).
Proof.
  intros Hn Hl. set (T := map_to_list (filter (λ '(g, _), (n, g) ∈ transaction_tags db) (tags db))).
  assert (snd <$> filter (λ x, x.1 = n) (joined_tags account search db) ≡ₚ T) as Hp.
  { unfold joined_tags. rewrite merge_sort_Permutation.
    assert (∀ l : list (Z * txrow), NoDup l.*1 → (n, r) ∈ l →
      snd <$> filter (λ x, x.1 = n) (x ← l; (λ t, (x.1, t)) <$> map_to_list (filter (λ '(g, _), (x.1, g) ∈ transaction_tags db) (tags db))) = T) as HL.
    { assert (∀ m (ts : list (Z * tagrow)), m ≠ n → filter (λ x, x.1 = n) ((λ t, (m, t)) <$> ts) = []) as Hno.
      { intros m ts Hm. induction ts as [|t ts IH]; [done|]. by rewrite fmap_cons, filter_cons_False. }
      assert (∀ ts : list (Z * tagrow), snd <$> filter (λ x, x.1 = n) ((λ t, (n, t)) <$> ts) = ts) as Hyes.
      { intros ts. induction ts as [|t ts IH]; [done|]. rewrite fmap_cons, filter_cons_True, fmap_cons, IH by done. done. }
      assert (∀ l : list (Z * txrow), n ∉ l.*1 → filter (λ x, x.1 = n)
        (x ← l; (λ t, (x.1, t)) <$> map_to_list (filter (λ '(g, _), (x.1, g) ∈ transaction_tags db) (tags db))) = []) as Hnil.
      { intros l. induction l as [|x l IH]; cbn; [done|]. rewrite not_elem_of_cons. intros [H1 H2]. rewrite filter_app, Hno by congruence. by apply IH. }
      intros l. induction l as [|x l IH]; cbn; [by intros _ H%elem_of_nil|]. rewrite NoDup_cons, elem_of_cons. intros [Hx Hnd] [<-|Hin].
      - cbn [fst]. rewrite filter_app, fmap_app, Hyes, Hnil by done. by rewrite app_nil_r.
      - rewrite filter_app, fmap_app, Hno; [by apply IH|]. intros E. apply Hx. rewrite E. by apply (list_elem_of_fmap_2 fst) in Hin. }
    rewrite HL; [done|apply NoDup_fst_filter, NoDup_fst_map_to_list|]. apply list_elem_of_filter. by rewrite elem_of_map_to_list. }
  apply (StronglySorted_unique_strong tag_le).
  - intros x y Hx Hy H1 H2. rewrite Hp in Hx. rewrite merge_sort_Permutation in Hy. unfold T in *. destruct x as [g1 t1], y as [g2 t2].
    apply tag_le_antisym in H1; [|done]. cbn in H1. subst g2. apply elem_of_map_to_list in Hx, Hy. congruence.
  - apply (fmap_sorted join_le).
    + apply filter_sorted, StronglySorted_merge_sort; apply _.
    + intros x y [Ex _]%list_elem_of_filter [Ey _]%list_elem_of_filter [?|[_ ?]]; [lia|done].
  - apply StronglySorted_merge_sort; apply _.
  - by rewrite Hp, merge_sort_Permutation.
Qed.

(** The transaction list, which reads the tags of all listed rows with one join,
    is the list of the matching rows in date order, each with exactly the tags that a
    query for that transaction alone returns, in the same order. *)
Theorem GetTransactions_bulk_tags account search db :
  GetTransactions account search db =
  (λ x, with_tags (transaction_tags_of db x.1) (response_of db x.1 x.2)) <$> listed_rows account search db.
Proof.
  unfold GetTransactions. apply list_fmap_ext. intros i [n r] Hi. f_equal. cbn [fst snd].
  assert ((n, r) ∈ listed_rows account search db) as Hin by (by eapply list_elem_of_lookup_2).
  unfold listed_rows in Hin. rewrite merge_sort_Permutation in Hin. apply list_elem_of_filter in Hin as [Hl Hn%elem_of_map_to_list].
  unfold getTransactionTagsForFilteredTransactions. rewrite grouped_lookup, lookup_empty. cbn [default app from_option id].
  rewrite list_fmap_compose, (joined_of account search db n r) by done. done.
Qed.

(** * What a balance history shows *)
(** The sum of the account's rows up to the end of a day. *)
Definition closing_balance (db : ledger) (acc : string) (d : Z) : Z :=
  msum (λ n r, if decide (tx_account r = acc ∧ day_of (tx_date r) <= d) then signed (tx_type r) (effective_amount db n r) else 0)
    (transactions db).

Record shows_closing (P : string → bool) (db : ledger) (h : BalanceHistoryResponse) : Prop := {
  sc_accounts : ∀ acc, acc ∈ h_accounts h ↔ P acc = true ∧ ∃ n r, transactions db !! n = Some r ∧ tx_account r = acc;
  sc_dates : StronglySorted Z.lt (h_dates h) ∧
    ∀ d, d ∈ h_dates h ↔ ∃ n r, transactions db !! n = Some r ∧ P (tx_account r) = true ∧ day_of (tx_date r) = d;
  sc_balances : ∀ acc, acc ∈ h_accounts h → h_balances h !! acc = Some (closing_balance db acc <$> h_dates h);
  sc_exact : h_exact h = (λ l : list Z, ExactInt64 <$> l) <$> h_balances h
}.

Definition of_day (acc : string) (Q : Z → Prop) (x : history_row) : Prop := x.1.1 = acc ∧ Q x.1.2.
#[local] Instance of_day_dec acc Q `{!∀ d, Decision (Q d)} x : Decision (of_day acc Q x).
Proof. unfold of_day. apply _. Defined.

Lemma account_balances_lookup rows acc d :
  account_balances rows !! acc ≫= (λ t, t !! d) = last (snd <$> filter (of_day acc (λ e, e = d)) rows).
Proof.
  unfold account_balances. induction rows as [|[[a e] b] rows IH] using rev_ind; [done|].
  rewrite foldl_app, filter_app, fmap_app. cbn [foldl]. rewrite filter_cons, filter_nil.
  destruct (decide (a = acc)) as [->|Ha].
  - rewrite lookup_insert_eq. cbn [mbind option_bind]. destruct (decide (e = d)) as [->|He].
    + rewrite lookup_insert_eq, decide_True by done. cbn. by rewrite last_snoc.
    + rewrite lookup_insert_ne, decide_False by (unfold of_day; naive_solver). cbn. rewrite app_nil_r, <- IH.
      by destruct (_ !! acc).
  - rewrite lookup_insert_ne, decide_False by (unfold of_day; naive_solver). cbn. by rewrite app_nil_r.
Qed.
Lemma account_balances_dom rows acc : is_Some (account_balances rows !! acc) ↔ acc ∈ (λ x : history_row, x.1.1) <$> rows.
Proof.
  unfold account_balances. induction rows as [|[[a e] b] rows IH] using rev_ind.
  { cbn. rewrite lookup_empty, elem_of_nil. split; [intros [? ?]; done|done]. }
  rewrite foldl_app, fmap_app, elem_of_app. cbn [foldl]. rewrite <- IH. destruct (decide (a = acc)) as [->|Ha].
  - rewrite lookup_insert_eq. split; [intros _; right; by left|eauto].
  - rewrite lookup_insert_ne by done. cbn. rewrite list_elem_of_singleton. naive_solver.
Qed.

Definition closing (acc : string) (d : Z) (rows : list history_row) : Z :=
  default 0 (last (snd <$> filter (of_day acc (λ e, e <= d)) rows)).
Definition by_day (x y : history_row) : Prop := x.1.2 <= y.1.2.

Lemma filter_none {A} (P : A → Prop) `{!∀ x, Decision (P x)} l : (∀ x, x ∈ l → ¬ P x) → filter P l = [].
Proof.
  induction l as [|x l IH]; intros Hno; [done|]. rewrite filter_cons, decide_False by (apply Hno; by left). apply IH. intros y Hy. apply Hno. by right.
Qed.
Lemma filter_split acc prev d rows :
  StronglySorted by_day rows → prev < d → (∀ x, x ∈ rows → x.1.2 <= prev ∨ d <= x.1.2) →
  filter (of_day acc (λ e, e <= d)) rows = filter (of_day acc (λ e, e <= prev)) rows ++ filter (of_day acc (λ e, e = d)) rows.
Proof.
  intros Hs Hpd. induction Hs as [|x rows Hs IH Hx]; intros Hgap; [done|]. rewrite Forall_forall in Hx. unfold by_day in Hx.
  specialize (IH (λ y Hy, Hgap y (list_elem_of_further _ _ _ Hy))). rewrite !filter_cons.
  destruct (Hgap x (list_elem_of_here _ _)) as [H1|H1].
  - rewrite (decide_False (P := of_day acc (λ e, e = d) x)) by (unfold of_day; lia).
    destruct (decide (x.1.1 = acc)).
    + rewrite !decide_True by (unfold of_day; split; [done|lia]). cbn. by rewrite IH.
    + by rewrite !decide_False by (unfold of_day; tauto).
  - rewrite (decide_False (P := of_day acc (λ e, e <= prev) x)) by (unfold of_day; lia).
    rewrite (filter_none (of_day acc (λ e, e <= prev)) rows) in * by (intros y Hy [_ ?]; specialize (Hx y Hy); lia).
    cbn [app] in *. destruct (decide (x.1.1 = acc ∧ x.1.2 = d)) as [[? ?]|Hn].
    + rewrite !decide_True by (unfold of_day; split; [done|lia]). by rewrite IH.
    + rewrite (decide_False (P := of_day acc (λ e, e = d) x)) by done. case_decide as Hd; [|done]. destruct Hd as [? ?]. destruct Hn. split; [done|lia].
Qed.

Fixpoint fill_from (table : gmap Z Z) (last : Z) (dates : list Z) : list Z :=
  match dates with [] => [] | d :: ds => let b := default last (table !! d) in b :: fill_from table b ds end.
Lemma fill_unfold table dates : fill table dates = fill_from table 0 dates.
Proof.
  unfold fill. assert (∀ out last, (foldl (λ '(out, last) d, let last' := default last (table !! d) in (out ++ [last'], last'))
    (out, last) dates).1 = out ++ fill_from table last dates) as H; [|apply (H [] 0)].
  induction dates as [|d ds IH]; intros out last; cbn; [by rewrite app_nil_r|]. rewrite IH. by rewrite <- app_assoc.
Qed.

Lemma fill_closing rows acc table : StronglySorted by_day rows → account_balances rows !! acc = Some table →
  ∀ dates prev, StronglySorted Z.lt dates → Forall (λ d, prev < d) dates → (∀ x, x ∈ rows → x.1.2 <= prev ∨ x.1.2 ∈ dates) →
  fill_from table (closing acc prev rows) dates = (λ d, closing acc d rows) <$> dates.
Proof.
  intros Hs Ht dates. induction dates as [|d ds IH]; intros prev Hd Hp Hx; [done|]. cbn [fill_from].
  apply StronglySorted_inv in Hd as [Hd Hlt]. apply Forall_cons in Hp as [Hpd _]. rewrite Forall_forall in Hlt.
  assert (default (closing acc prev rows) (table !! d) = closing acc d rows) as E.
  { pose proof (account_balances_lookup rows acc d) as Hl. rewrite Ht in Hl. cbn in Hl. rewrite Hl. unfold closing.
    assert (∀ x, x ∈ rows → x.1.2 <= prev ∨ d <= x.1.2) as Hgap.
    { intros x Hin. destruct (Hx x Hin) as [?|[E|Hi]%elem_of_cons]; [by left|right; lia|right]. specialize (Hlt _ Hi). lia. }
    rewrite (filter_split acc prev d rows), fmap_app by done.
    rewrite last_app. by destruct (last (snd <$> filter (of_day acc (λ e, e = d)) rows)). }
  rewrite E, fmap_cons. f_equal. apply IH; [done|by apply Forall_forall|].
  intros x Hin. destruct (Hx x Hin) as [?|[Ed|Hi]%elem_of_cons]; [left; lia|left; lia|by right].
Qed.

Lemma last_greatest {A} (R : relation A) `{!Reflexive R} l x : StronglySorted R l → last l = Some x → ∀ y, y ∈ l → R y x.
Proof.
  intros Hs Hl y Hy. apply last_Some in Hl as [l' ->]. apply elem_of_app in Hy as [Hy|Hy%list_elem_of_singleton]; [|by subst].
  apply StronglySorted_app in Hs as (Hs & _ & _). apply Hs; [done|by left].
Qed.
#[local] Instance row_le_reflexive : Reflexive row_le.
Proof. intros x. apply row_le_refl. Qed.

Definition history_source (P : string → bool) (db : ledger) : list (Z * txrow) :=
  merge_sort row_le (filter (λ x, P (tx_account x.2) = true) (map_to_list (transactions db))).
Lemma elem_of_source P db n r : (n, r) ∈ history_source P db ↔ transactions db !! n = Some r ∧ P (tx_account r) = true.
Proof. unfold history_source. rewrite merge_sort_Permutation, list_elem_of_filter, elem_of_map_to_list. cbn. tauto. Qed.
Lemma source_sorted P db : StronglySorted row_le (history_source P db).
Proof. apply StronglySorted_merge_sort; apply _. Qed.

Definition history_of_row (x : Z * txrow) : history_row := (tx_account x.2, day_of (tx_date x.2), tx_balance x.2).
Lemma history_rows_sorted P db : StronglySorted by_day (history_rows P db).
Proof.
  apply (fmap_sorted row_le _ history_of_row); [apply source_sorted|]. intros x y _ _ Hxy. unfold by_day, day_of. cbn.
  apply Z.div_le_mono; [by vm_compute|]. unfold row_le in Hxy. lia.
Qed.

Lemma filter_fmap_rows (Q : history_row → Prop) `{!∀ x, Decision (Q x)} (l : list (Z * txrow)) :
  filter Q (history_of_row <$> l) = history_of_row <$> filter (λ x, Q (history_of_row x)) l.
Proof. induction l as [|x l IH]; [done|]. rewrite fmap_cons, !filter_cons. case_decide; [by rewrite fmap_cons, IH|done]. Qed.

Lemma closing_is_balance P db acc d :
  balanced db acc → P acc = true → closing acc d (history_rows P db) = closing_balance db acc d.
Proof.
  intros Hb HP. unfold closing. change (history_rows P db) with (history_of_row <$> history_source P db).
  rewrite filter_fmap_rows. set (F := filter _ (history_source P db)).
  assert (StronglySorted row_le F) as HF by apply filter_sorted, source_sorted.
  assert (∀ n r, transactions db !! n = Some r → tx_account r = acc → day_of (tx_date r) <= d → (n, r) ∈ F) as Hin.
  { intros n r Hn Ha Hd. apply list_elem_of_filter. split; [by split|]. apply elem_of_source. by rewrite Ha. }
  rewrite fmap_last, fmap_last. destruct (last F) as [[n r]|] eqn:Hl.
  - assert ((n, r) ∈ F) as Hnr by (apply last_Some in Hl as [l' ->]; apply elem_of_app; right; by left).
    apply list_elem_of_filter in Hnr as [[Ha Hd] [Hn _]%elem_of_source]. cbn in Ha, Hd |- *. rewrite (Hb n r Hn Ha).
    unfold balance_at, closing_balance. apply msum_ext. intros k q Hk.
    destruct (decide (tx_account q = acc ∧ day_of (tx_date q) <= d)) as [[Hq1 Hq2]|Hq].
    + rewrite decide_True; [done|]. split; [done|]. apply (last_greatest row_le F); [done..|]. by apply Hin.
    + rewrite decide_False; [done|]. intros [Hq1 Hq2]. destruct Hq. split; [done|]. etrans; [|exact Hd].
      apply Z.div_le_mono; [by vm_compute|]. unfold row_le in Hq2. cbn in Hq2. lia.
  - apply last_None in Hl. cbn. symmetry. unfold closing_balance, msum. apply lsum_zero, Forall_forall. intros [k q] Hk%elem_of_map_to_list.
    cbn. rewrite decide_False; [done|]. intros [Hq1 Hq2]. pose proof (Hin k q Hk Hq1 Hq2) as Hx. rewrite Hl in Hx. by apply elem_of_nil in Hx.
Qed.

Lemma sorted_days (s : gset Z) : StronglySorted Z.lt (merge_sort Z.le (elements s)).
Proof.
  assert (StronglySorted Z.le (merge_sort Z.le (elements s))) as H by (apply StronglySorted_merge_sort; apply _).
  assert (NoDup (merge_sort Z.le (elements s))) as Hn by (rewrite merge_sort_Permutation; apply NoDup_elements).
  induction H as [|x l Hl IH Hx]; [by constructor|]. apply NoDup_cons in Hn as [Hx' Hn]. constructor; [by apply IH|].
  rewrite Forall_forall in *. intros y Hy. specialize (Hx y Hy). assert (x ≠ y) by congruence. lia.
Qed.

Lemma history_shows P db : (∀ acc, balanced db acc) → shows_closing P db (buildBalanceHistory (history_rows P db)).
Proof.
  intros Hb. set (rows := history_rows P db). assert (rows = history_of_row <$> history_source P db) as Hrows by done.
  assert (∀ acc, acc ∈ h_accounts (buildBalanceHistory rows) ↔ acc ∈ (λ x : history_row, x.1.1) <$> rows) as Hacc.
  { intros acc. cbn. by rewrite merge_sort_Permutation, elem_of_elements, elem_of_dom, account_balances_dom. }
  assert (∀ d, d ∈ h_dates (buildBalanceHistory rows) ↔ d ∈ (λ x : history_row, x.1.2) <$> rows) as Hdates.
  { intros d. cbn. by rewrite merge_sort_Permutation, elem_of_elements, elem_of_list_to_set. }
  assert (∀ acc, acc ∈ (λ x : history_row, x.1.1) <$> rows ↔ P acc = true ∧ ∃ n r, transactions db !! n = Some r ∧ tx_account r = acc) as Hin.
  { intros acc. rewrite Hrows, <- list_fmap_compose, list_elem_of_fmap. split.
    - intros ([n r] & -> & [Hn HP]%elem_of_source). cbn. split; [done|]. by exists n, r.
    - intros (HP & n & r & Hn & <-). exists (n, r). split; [done|]. by apply elem_of_source. }
  split.
  - intros acc. by rewrite Hacc.
  - split; [apply sorted_days|]. intros d. rewrite Hdates, Hrows, <- list_fmap_compose, list_elem_of_fmap. split.
    + intros ([n r] & -> & [Hn HP]%elem_of_source). by exists n, r.
    + intros (n & r & Hn & HP & <-). exists (n, r). split; [done|]. by apply elem_of_source.
  - intros acc Ha. assert (P acc = true) as HP by (by apply Hin, Hacc). apply Hacc, account_balances_dom in Ha as [table Ht].
    cbn [h_balances buildBalanceHistory]. rewrite lookup_fmap, Ht. cbn. f_equal. rewrite fill_unfold.
    set (dates := merge_sort Z.le _).
    set (prev := match dates with d :: _ => d - 1 | [] => 0 end).
    assert (StronglySorted Z.lt dates) as Hs by apply sorted_days.
    assert (Forall (λ d, prev < d) dates) as Hp.
    { unfold prev. destruct dates as [|d ds]; [done|]. apply StronglySorted_inv in Hs as [_ Hs]. constructor; [lia|].
      eapply Forall_impl; [done|]. cbn. lia. }
    assert (∀ x, x ∈ rows → x.1.2 ∈ dates) as Hall by (intros x Hx; apply Hdates, list_elem_of_fmap; eauto).
    assert (closing acc prev rows = 0) as E.
    { unfold closing. rewrite filter_none; [done|]. intros x Hx [_ Hle]. rewrite Forall_forall in Hp. specialize (Hp _ (Hall x Hx)). lia. }
    rewrite <- E, (fill_closing rows acc table); [|apply history_rows_sorted|done..|by auto].
    apply list_fmap_ext. intros i d _. by apply closing_is_balance.
  - cbn. by rewrite <- map_fmap_compose.
Qed.

(** The balance history of a well-formed ledger lists exactly the days with a
    booking in increasing order and exactly the accounts asked for that have one, and
    gives for each account and day the sum of all its bookings up to the end of that
    day, as a number and as its exact decimal text; the filtered history does so for the accounts that are not credit cards, or
    for all of them when only credit cards are asked for. *)
Theorem balance_history_correct items db :
  ledger_wf db →
  shows_closing (λ _, true) db (GetBalanceHistory db) ∧
  (items ≠ [] → ∃ cards, (cards = [] ∨ fst (GetCreditCardSettings db) = Ok cards) ∧
     shows_closing (λ a, bool_decide (a ∈ history_items cards items)) db (GetBalanceHistoryFiltered items db)).
Proof.
  intros (_ & Hb & _). split; [by apply history_shows|]. intros Hne. unfold GetBalanceHistoryFiltered. rewrite bool_decide_eq_false_2 by done.
  destruct (fst (GetCreditCardSettings db)) as [cards|e]; [exists cards|exists []]; (split; [by auto|by apply history_shows]).
Qed.

Lemma balance_history_correct_witness :
  shows_closing (λ _, true) demo_final (GetBalanceHistory demo_final) ∧
  (["bank"] ≠ [] → ∃ cards, (cards = [] ∨ fst (GetCreditCardSettings demo_final) = Ok cards) ∧
     shows_closing (λ a, bool_decide (a ∈ history_items cards ["bank"])) demo_final (GetBalanceHistoryFiltered ["bank"] demo_final)).
Proof. apply (balance_history_correct ["bank"] demo_final). exact demo_final_wf. Defined.

(** * Images of a transaction, page by page *)
Inductive pageerr := EPageTransaction | EPageLimit | EPageCursor | EPageTooMany | EPageFuel.
Definition defaultTransactionImagePageSize : Z := 2.
Definition maxTransactionImagePageSize : Z := 2.
Definition maxTransactionImageCursor : Z := MaxArchivedImagesDatabase + MaxImagesPerTransaction.

(** The union of the current and the archived images of a transaction, ordered by
    [created_at, source, sort_id]; an archived image answers under its negated id. *)
Definition source_row : Type := bool * (Z * imgrow).
Definition source_le (x y : source_row) : Prop :=
  img_created x.2.2 < img_created y.2.2 ∨
  (img_created x.2.2 = img_created y.2.2 ∧ (x.1 = false ∧ y.1 = true ∨ (x.1 = y.1 ∧ x.2.1 <= y.2.1))).
#[global] Instance source_le_dec : RelDecision source_le.
Proof. intros x y. unfold source_le. apply _. Defined.
Definition image_rows (t : Z) (db : ledger) : list source_row :=
  merge_sort source_le
    (((λ x : Z * imgrow, (false, x)) <$> filter (λ x : Z * imgrow, img_tx x.2 = t) (map_to_list (images db))) ++
     ((λ x : Z * imgrow, (true, x)) <$> filter (λ x : Z * imgrow, img_tx x.2 = t) (map_to_list (image_archive db)))).

Record TransactionImageResponse := ImageResponse {
  ir_ID : Z; ir_Filename : string; ir_MimeType : string; ir_CreatedAt : Z; ir_Invalid : bool; ir_DataURL : option (string * list Z)
}.
Record TransactionImagePage := ImagePage { ip_Images : list TransactionImageResponse; ip_NextCursor : string }.

Section Pages.
Context (DecodeConfig Decode : list Z → option (Z * Z * string)).

(** The data URL is given by its type and the Base64 text of the data. A stored image
    that no longer passes validation is reported without its data. *)
Definition image_response (x : source_row) : TransactionImageResponse :=
  let '(archived, (n, r)) := x in
  let n' := if archived then - n else n in
  match prepareDecodedTransactionImage DecodeConfig Decode (img_filename r) (img_mime r) (img_data r) with
  | Err _ => ImageResponse n' (img_filename r) (img_mime r) (img_created r) true None
  | Ok p => ImageResponse n' (img_filename r) (pi_mime p) (img_created r) false (Some (pi_mime p, b64_encode (pi_data p)))
  end.

Definition GetTransactionImagesPage (t : Z) (cursor : string) (limit : Z) (db : ledger) : res pageerr TransactionImagePage :=
  if t <=? 0 then Err EPageTransaction
  else
    let limit := if limit =? 0 then defaultTransactionImagePageSize else limit in
    if (limit <? 1) || (limit >? maxTransactionImagePageSize) then Err EPageLimit
    else
      match (if bool_decide (cursor = "") then Some 0
             else parsed ← ParseInt cursor 64; if (parsed <? 0) || (parsed >? maxTransactionImageCursor) then None else Some parsed) with
      | None => Err EPageCursor
      | Some offset =>
        let images := image_response <$> take (Z.to_nat (limit + 1)) (drop (Z.to_nat offset) (image_rows t db)) in
        if Z.of_nat (length images) >? limit
        then Ok (ImagePage (take (Z.to_nat limit) images) (FormatInt (offset + limit)))
        else Ok (ImagePage images "")
      end.

(** [GetTransactionImages] follows the cursors. *)
Fixpoint images_loop (fuel : nat) (t : Z) (cursor : string) (collected : list TransactionImageResponse) (db : ledger)
    : res pageerr (list TransactionImageResponse) :=
  match fuel with
  | O => Err EPageFuel
  | S k =>
    match GetTransactionImagesPage t cursor maxTransactionImagePageSize db with
    | Err e => Err e
    | Ok page =>
      let images := collected ++ ip_Images page in
      if bool_decide (ip_NextCursor page = "") then Ok images
      else if Z.of_nat (length images) >=? MaxImagesPerTransaction then Err EPageTooMany
      else images_loop k t (ip_NextCursor page) images db
    end
  end.
Definition GetTransactionImages (t : Z) (db : ledger) : res pageerr (list TransactionImageResponse) :=
  images_loop (Z.to_nat MaxImagesPerTransaction) t "" [] db.

Lemma FormatInt_nonempty n : 0 <= n → FormatInt n ≠ "".
Proof.
  intros Hn E. pose proof (ParseInt_FormatInt n (Z.log2 n + 3)) as H. rewrite E in H.
  assert (n < 2 ^ (Z.log2 n + 3 - 1)).
  { destruct (decide (n = 0)) as [->|]; [done|]. pose proof (Z.log2_spec n ltac:(lia)) as [_ Hl].
    eapply Z.lt_le_trans; [exact Hl|]. apply Z.pow_le_mono_r; lia. }
  pose proof (Z.log2_nonneg n). specialize (H ltac:(lia) ltac:(lia)). discriminate H.
Qed.

(** One page at an offset the loop reaches. *)
Lemma page_at t k db : 0 < t → (k <= 9)%nat →
  GetTransactionImagesPage t (if decide (k = 0)%nat then "" else FormatInt (Z.of_nat k)) 2 db =
  let rest := drop k (image_response <$> image_rows t db) in
  Ok (if decide (length rest <= 2)%nat then ImagePage rest "" else ImagePage (take 2 rest) (FormatInt (Z.of_nat k + 2))).
Proof.
  intros Ht Hk. unfold GetTransactionImagesPage. destruct (Z.leb_spec t 0); [lia|]. cbn -[FormatInt ParseInt take drop].
  assert ((if bool_decide ((if decide (k = 0)%nat then "" else FormatInt (Z.of_nat k)) = "") then Some 0
     else parsed ← ParseInt (if decide (k = 0)%nat then "" else FormatInt (Z.of_nat k)) 64;
          if (parsed <? 0) || (parsed >? maxTransactionImageCursor) then None else Some parsed) = Some (Z.of_nat k)) as ->.
  { destruct (decide (k = 0)%nat) as [->|Hne]; [done|]. rewrite bool_decide_eq_false_2 by (apply FormatInt_nonempty; lia).
    rewrite ParseInt_FormatInt by lia. cbn [mbind option_bind]. destruct (Z.ltb_spec (Z.of_nat k) 0); [lia|].
    assert ((Z.of_nat k >? maxTransactionImageCursor) = false) as -> by (unfold maxTransactionImageCursor, MaxArchivedImagesDatabase, MaxImagesPerTransaction; lia). done. }
  rewrite Nat2Z.id. change (Z.to_nat (2 + 1)) with 3%nat. change (Z.to_nat 2) with 2%nat. rewrite <- fmap_drop, fmap_take.
  set (rest := drop k (image_rows t db)). rewrite length_take, length_fmap.
  destruct (decide (length rest <= 2)%nat) as [Hl|Hl].
  - rewrite Z.gtb_ltb. destruct (Z.ltb_spec 2 (Z.of_nat (3 `min` length rest))); [lia|]. rewrite <- fmap_take, take_ge by lia. done.
  - rewrite Z.gtb_ltb. destruct (Z.ltb_spec 2 (Z.of_nat (3 `min` length rest))); [|lia]. by rewrite take_take.
Qed.

Lemma images_loop_spec fuel t db : 0 < t → ∀ k j, (k = 2 * j)%nat → (j <= 4)%nat → (5 <= fuel + j)%nat → (k <= length (image_rows t db))%nat →
  (k = 0 ∨ k < length (image_rows t db))%nat →
  images_loop fuel t (if decide (k = 0)%nat then "" else FormatInt (Z.of_nat k)) (take k (image_response <$> image_rows t db)) db =
  if decide (length (image_rows t db) <= 10)%nat then Ok (image_response <$> image_rows t db) else Err EPageTooMany.
Proof.
  intros Ht. set (all := image_response <$> image_rows t db). assert (length all = length (image_rows t db)) as Hlen by apply length_fmap.
  rewrite <- Hlen. induction fuel as [|fuel IH]; intros k j Hj Hk Hf Hle Hlt; [lia|]. cbn [images_loop].
  change maxTransactionImagePageSize with 2. rewrite page_at by lia. fold all. cbn zeta.
  rewrite length_drop. destruct (decide (length all - k <= 2)%nat) as [Hl|Hl]; cbn [ip_Images ip_NextCursor].
  - rewrite bool_decide_eq_true_2 by done. rewrite take_drop. rewrite decide_True by lia. done.
  - rewrite bool_decide_eq_false_2 by (apply FormatInt_nonempty; lia). rewrite length_app, !length_take, length_drop.
    assert (take k all ++ take 2 (drop k all) = take (k + 2) all) as E.
    { rewrite <- (take_drop k all) at 3. rewrite take_app_add' by (rewrite length_take; lia). done. }
    rewrite E, Z.geb_leb. unfold MaxImagesPerTransaction.
    destruct (Z.leb_spec 10 (Z.of_nat (k `min` length all + 2 `min` (length all - k)))) as [Hg|Hg].
    + rewrite decide_False by lia. done.
    + replace (FormatInt (Z.of_nat k + 2)) with (if decide (k + 2 = 0)%nat then "" else FormatInt (Z.of_nat (k + 2))).
      * apply (IH _ (S j)); lia.
      * rewrite decide_False by lia. f_equal. lia.
Qed.

(** Following the page cursors from the start answers every current and archived
    image of the transaction, in order and each once, exactly when there are at most
    ten of them, and reports that there are too many otherwise; it always ends. *)
Theorem GetTransactionImages_correct t db :
  0 < t →
  GetTransactionImages t db =
  if decide (length (image_rows t db) <= 10)%nat then Ok (image_response <$> image_rows t db) else Err EPageTooMany.
Proof.
  intros Ht. unfold GetTransactionImages. change (Z.to_nat MaxImagesPerTransaction) with 10%nat.
  change (images_loop 10 t "" [] db) with
    (images_loop 10 t (if decide (0 = 0)%nat then "" else FormatInt (Z.of_nat 0)) (take 0 (image_response <$> image_rows t db)) db).
  apply (images_loop_spec _ _ _ Ht _ 0%nat); lia.
Qed.
End Pages.

Definition demo_images : ledger :=
  let png := ImgRow 1 "a.png" demo_png "image/png" in
  set_images {[1 := png 7; 2 := png 5; 3 := ImgRow 2 "b.png" demo_png "image/png" 1]} 3
    (set_image_archive {[4 := png 7; 5 := ImgRow 1 "bad" [] "" 9]} empty_ledger).

Lemma GetTransactionImages_correct_witness :
  let decoder := λ _ : list Z, Some (2, 3, "png") in
  0 < 1 ∧ GetTransactionImages decoder decoder 1 demo_images = Ok (image_response decoder decoder <$> image_rows 1 demo_images) ∧
  match GetTransactionImages decoder decoder 1 demo_images with
  | Ok l => (λ r, (ir_ID r, ir_Invalid r)) <$> l = [(2, false); (1, false); (-4, false); (-5, true)]
  | Err _ => False
  end.
Proof.
  intros decoder. split; [lia|].
  assert (0 < 1) as Hp by lia. pose proof (GetTransactionImages_correct decoder decoder 1 demo_images Hp) as E.
  rewrite decide_True in E by (vm_compute; lia). split; [exact E|]. vm_compute. reflexivity.
Defined.

(** * Image storage usage *)
Record AccountImageStorageUsage := AccountUsage { au_Account : string; au_ImageCount : Z; au_Bytes : Z }.
Record ImageStorageUsage := Usage {
  us_ImageCount : Z; us_Bytes : Z; us_MaxImageBytes : Z; us_MaxImagePixels : Z; us_MaxImagesPerTransaction : Z;
  us_MaxBytesPerTransaction : Z; us_MaxBytesPerAccount : Z; us_MaxBytesDatabase : Z; us_Accounts : list AccountImageStorageUsage
}.

(** [GROUP BY account ORDER BY account] over the images joined with their transactions. *)
Definition image_accounts (db : ledger) : list string :=
  merge_sort name_le (elements (list_to_set (omap (λ x : Z * imgrow, account_of db (img_tx x.2))
    (map_to_list (images db) ++ map_to_list (image_archive db))) : gset string)).
Definition GetImageStorageUsage (db : ledger) : ImageStorageUsage :=
  Usage (img_sum (λ _, True) (λ _, 1) db) (database_image_bytes db) MaxImageBytes MaxImagePixels MaxImagesPerTransaction
    MaxImageBytesPerTransaction MaxImageBytesPerAccount MaxImageBytesDatabase
    ((λ acc, AccountUsage acc (img_sum (λ r, account_of db (img_tx r) = Some acc) (λ _, 1) db) (account_image_bytes db acc))
       <$> image_accounts db).

Lemma img_sum_split (f : imgrow → Z) accs db : images_wf db → NoDup accs →
  (∀ n r acc, images db !! n = Some r ∨ image_archive db !! n = Some r → account_of db (img_tx r) = Some acc → acc ∈ accs) →
  lsum ((λ acc, img_sum (λ r, account_of db (img_tx r) = Some acc) f db) <$> accs) = img_sum (λ _, True) f db.
Proof.
  intros (_ & Hi & Ha) Hnd Hall. unfold img_sum. rewrite lsum_add.
  assert (∀ m : gmap Z imgrow, (∀ n r, m !! n = Some r → is_Some (transactions db !! img_tx r) ∧
      (∀ acc, account_of db (img_tx r) = Some acc → acc ∈ accs)) →
    lsum ((λ acc, msum (λ _ r, if decide (account_of db (img_tx r) = Some acc) then f r else 0) m) <$> accs) =
    msum (λ _ r, if decide True then f r else 0) m) as E.
  { intros m Hm. unfold msum.
    rewrite (lsum_swap (λ acc (x : Z * imgrow), uncurry (λ _ r, if decide (account_of db (img_tx r) = Some acc) then f r else 0) x)).
    apply lsum_ext, Forall_forall. intros [n r] [[tr Ht] Hacc]%elem_of_map_to_list%Hm. cbn. unfold account_of in *. rewrite Ht in *. cbn in *.
    etrans; [|apply (lsum_pick (tx_account tr) (f r) accs Hnd); by apply Hacc].
    apply lsum_ext, Forall_true. intros acc. cbn. repeat case_decide; simplify_eq; done. }
  rewrite !E; [done| |]; intros n r Hn; split; eauto; naive_solver.
Qed.

(** The usage of the accounts adds up to the usage of the database. *)
Lemma usage_accounts_add_up db : images_wf db →
  lsum (au_ImageCount <$> us_Accounts (GetImageStorageUsage db)) = us_ImageCount (GetImageStorageUsage db) ∧
  lsum (au_Bytes <$> us_Accounts (GetImageStorageUsage db)) = us_Bytes (GetImageStorageUsage db).
Proof.
  intros Hw. assert (NoDup (image_accounts db)) as Hnd by (unfold image_accounts; rewrite merge_sort_Permutation; apply NoDup_elements).
  cbn [us_Accounts us_ImageCount us_Bytes GetImageStorageUsage].
  split; rewrite <- list_fmap_compose; (apply img_sum_split; [done..|]); intros n r acc Hn Hacc; unfold image_accounts;
    rewrite merge_sort_Permutation, elem_of_elements, elem_of_list_to_set, list_elem_of_omap; exists (n, r);
    (split; [|done]); rewrite elem_of_app, !elem_of_map_to_list; done.
Qed.
