(* ===== verification/TagSummary.v ===== *)
(** Tag totals ([core/service.go]: [getTagSummaryFilteredContext] and the forest it
    builds): the direct amounts of every tag, the checked forest, the roll-up of the
    children into their parents and the answer, cut to a node budget.

    [sort.Slice] leaves the order of equal elements open, so it is an argument: any
    function that permutes its input into the required order. The text the driver
    stores for a date is an argument too; the filters compare it with the request's
    text, bytewise. *)
From Stdlib Require Import ZArith Lia.
From stdpp Require Import base gmap list strings sorting.
From S2P Require Import Prelude GoText Validation Settings GoTime ImageContainers Schema Balance Tags Links Images LedgerOps Service Reports.
Open Scope Z_scope.

Inductive sumerr :=
| ESumScanned | ESumDirect (tag : Z) | ESumRollup (tag : Z) | ESumTotal
| EDuplicateTag (tag : Z) | EOrphanTag (tag parent : Z) | ELevelRange (tag level : Z) | ERootLevel (tag level : Z)
| EDuplicatePath (tag : Z) | ECycle (tag : Z) | EUnreachable | EChildLevel (tag level : Z)
| EIndex                      (** an index outside the node slice, a panic in the source *)
| ESumFuel.

(** * The rows of the query *)
(** The condition of the second join. *)
Record tag_filter := Filter {
  f_type : string; f_start : string; f_end : string; f_account : string; f_tags : list Z
}.

Section Query.
Context (date_text : Z → string).

Definition matched (f : tag_filter) (db : ledger) (n : Z) (r : txrow) : bool :=
  (bool_decide (f_type f = "") || bool_decide (tx_type r = f_type f))
  && (bool_decide (f_start f = "") || lex_le (bytes (f_start f)) (bytes (date_text (tx_date r))))
  && (bool_decide (f_end f = "") || lex_le (bytes (date_text (tx_date r))) (bytes (f_end f) ++ bytes " 23:59:59"))
  && (bool_decide (f_account f = "") || bool_decide (tx_account r = f_account f))
  && (bool_decide (f_tags f = []) || existsb (λ g, bool_decide ((n, g) ∈ transaction_tags db)) (f_tags f)).

(** The transaction a label is joined with, and its effective amount. *)
Definition joined (f : tag_filter) (db : ledger) (n : Z) : option (Z * Z) :=
  r ← transactions db !! n; if matched f db n r then Some (n, effective_amount db n r) else None.

Definition labels_of (db : ledger) (g : Z) : list Z :=
  fst <$> filter (λ p : Z * Z, p.2 = g) (elements (transaction_tags db)).

(** [NULL] sorts first. *)
Definition join_order (x y : option (Z * Z)) : Prop :=
  match x, y with None, _ => True | Some _, None => False | Some a, Some b => a.1 <= b.1 end.
#[global] Instance join_order_dec : RelDecision join_order.
Proof. intros [[]|] [[]|]; cbn; apply _. Defined.

Definition sumrow : Type := (Z * tagrow) * option (Z * Z).
Definition joined_rows (f : tag_filter) (db : ledger) (g : Z) : list (option (Z * Z)) :=
  match labels_of db g with [] => [None] | ls => merge_sort join_order (joined f db <$> ls) end.
Definition tag_rows (f : tag_filter) (db : ledger) (x : Z * tagrow) : list sumrow := pair x <$> joined_rows f db x.1.
Definition summary_rows (f : tag_filter) (db : ledger) : list sumrow :=
  merge_sort id_le (map_to_list (tags db)) ≫= tag_rows f db.
End Query.

(** * Scanning *)
Record tagSummaryData := SumData {
  sd_id : Z; sd_name : string; sd_level : Z; sd_parent : option Z; sd_amount : Z; sd_count : Z
}.
Record tagSummaryOptions := SumOptions { maxScannedNodes : Z; maxMaterializedNodes : Z }.

Definition new_data (x : Z * tagrow) : tagSummaryData := SumData x.1 (tag_name x.2) (tag_level x.2) (tag_parent x.2) 0 0.
Definition add_amount (amount : Z) (d : tagSummaryData) : res sumerr tagSummaryData :=
  match CheckedAddInt64 (sd_amount d) amount with
  | Err _ => Err (ESumDirect (sd_id d))
  | Ok a => Ok (SumData (sd_id d) (sd_name d) (sd_level d) (sd_parent d) a (sd_count d + 1))
  end.

Fixpoint scan (limit : Z) (rows : list sumrow) (allData : list tagSummaryData) (indexes : gmap Z nat)
    : res sumerr (list tagSummaryData) :=
  match rows with
  | [] => Ok allData
  | (x, t) :: rows' =>
    known ← match indexes !! x.1 with
            | Some i => Ok (allData, indexes, i)
            | None =>
              if (limit >? 0) && (Z.of_nat (length allData) >=? limit) then Err ESumScanned
              else Ok (allData ++ [new_data x], <[x.1 := length allData]> indexes, length allData)
            end;
    let '(allData, indexes, i) := known in
    match t with
    | None => scan limit rows' allData indexes
    | Some (_, amount) =>
      match allData !! i with
      | None => Err EIndex
      | Some d => d' ← add_amount amount d; scan limit rows' (<[i := d']> allData) indexes
      end
    end
  end.

Definition amount_desc (x y : tagSummaryData) : Prop := sd_amount y <= sd_amount x.
#[global] Instance amount_desc_dec : RelDecision amount_desc.
Proof. intros x y. unfold amount_desc. apply _. Defined.

(** * The forest *)
Record tagSummaryNode := SumNode { sn_data : tagSummaryData; sn_amount : Z; sn_count : Z; sn_children : list nat }.
Record tagSummaryForest := SumForest { sf_nodes : list tagSummaryNode; sf_roots : list nat }.

Fixpoint index_ids (i : nat) (data : list tagSummaryData) (ids : gmap Z nat) : res sumerr (gmap Z nat) :=
  match data with
  | [] => Ok ids
  | d :: data' =>
    match ids !! sd_id d with
    | Some _ => Err (EDuplicateTag (sd_id d))
    | None => index_ids (S i) data' (<[sd_id d := i]> ids)
    end
  end.

Definition add_child (i : nat) (x : tagSummaryNode) : tagSummaryNode :=
  SumNode (sn_data x) (sn_amount x) (sn_count x) (sn_children x ++ [i]).

(** One turn of the loop that links node [i] to its parent. *)
Definition link_node (ids : gmap Z nat) (i : nat) (f : tagSummaryForest) : res sumerr tagSummaryForest :=
  match sf_nodes f !! i with
  | None => Err EIndex
  | Some x =>
    match sd_parent (sn_data x) with
    | None => Ok (SumForest (sf_nodes f) (sf_roots f ++ [i]))
    | Some p =>
      match ids !! p with
      | None => Err (EOrphanTag (sd_id (sn_data x)) p)
      | Some j => Ok (SumForest (alter (add_child i) j (sf_nodes f)) (sf_roots f))
      end
    end
  end.
Fixpoint link_nodes (ids : gmap Z nat) (idxs : list nat) (f : tagSummaryForest) : res sumerr tagSummaryForest :=
  match idxs with
  | [] => Ok f
  | i :: idxs' => f' ← link_node ids i f; link_nodes ids idxs' f'
  end.

Definition check_level (d : tagSummaryData) : res sumerr unit :=
  if (sd_level d <? 1) || (sd_level d >? 3) then Err (ELevelRange (sd_id d) (sd_level d))
  else match sd_parent d with
       | None => ensure (sd_level d =? 1) (ERootLevel (sd_id d) (sd_level d))
       | Some _ => Ok tt
       end.

(** The queue from [cursor] on, and the indexes marked reachable. *)
Fixpoint walk_forest (fuel : nat) (nodes : list tagSummaryNode) (queue : list nat) (reachable : gset nat)
    : res sumerr (gset nat) :=
  match queue with
  | [] => Ok reachable
  | i :: queue' =>
    match fuel with
    | O => Err ESumFuel
    | S fuel' =>
      match nodes !! i with
      | None => Err EIndex
      | Some x =>
        if bool_decide (i ∈ reachable) then Err (EDuplicatePath (sd_id (sn_data x)))
        else walk_forest fuel' nodes (queue' ++ sn_children x) ({[i]} ∪ reachable)
      end
    end
  end.

Definition check_reachable (nodes : list tagSummaryNode) (reachable : gset nat) : res sumerr unit :=
  if bool_decide (size reachable = length nodes) then Ok tt
  else match list_find (λ i, i ∉ reachable) (seq 0 (length nodes)) with
       | Some (i, _) => Err (ECycle (default 0 (sd_id ∘ sn_data <$> nodes !! i)))
       | None => Err EUnreachable
       end.

Definition check_child_level (ids : gmap Z nat) (nodes : list tagSummaryNode) (d : tagSummaryData) : res sumerr unit :=
  match sd_parent d with
  | None => Ok tt
  | Some p =>
    match ids !! p ≫= (nodes !!.) with
    | None => Err EIndex
    | Some q => ensure (sd_level d =? sd_level (sn_data q) + 1) (EChildLevel (sd_id d) (sd_level d))
    end
  end.

Fixpoint check_all {A} (check : A → res sumerr unit) (l : list A) : res sumerr unit :=
  match l with [] => Ok tt | x :: l' => _ ← check x; check_all check l' end.

Definition buildTagSummaryForest (data : list tagSummaryData) : res sumerr tagSummaryForest :=
  ids ← index_ids 0 data ∅;
  f ← link_nodes ids (seq 0 (length data)) (SumForest ((λ d, SumNode d 0 0 []) <$> data) []);
  _ ← check_all check_level (sn_data <$> sf_nodes f);
  reachable ← walk_forest (S (length (sf_nodes f))) (sf_nodes f) (sf_roots f) ∅;
  _ ← check_reachable (sf_nodes f) reachable;
  _ ← check_all (check_child_level ids (sf_nodes f)) (sn_data <$> sf_nodes f);
  Ok f.

(** * Roll-up *)
Definition amount_at (nodes : list tagSummaryNode) (i : nat) : Z := default 0 (sn_amount <$> nodes !! i).

(** The children in turn, keeping those with a positive amount. *)
Fixpoint roll_children (rec : nat → stm (list tagSummaryNode) sumerr unit) (children positive : list nat)
    : stm (list tagSummaryNode) sumerr (list nat) :=
  match children with
  | [] => mret positive
  | c :: cs =>
    rec c;;
    nodes ← gets id;
    roll_children rec cs (if amount_at nodes c >? 0 then positive ++ [c] else positive)
  end.

Fixpoint add_children (nodes : list tagSummaryNode) (e : sumerr) (idxs : list nat) (amount count : Z) : res sumerr (Z * Z) :=
  match idxs with
  | [] => Ok (amount, count)
  | i :: idxs' =>
    match CheckedAddInt64 amount (amount_at nodes i) with
    | Err _ => Err e
    | Ok a => add_children nodes e idxs' a (count + default 0 (sn_count <$> nodes !! i))
    end
  end.

Section Rollup.
Context (sort_Slice : (nat → Z) → list nat → list nat).

Fixpoint rollupNode (fuel : nat) (index : nat) : stm (list tagSummaryNode) sumerr unit :=
  match fuel with
  | O => fail ESumFuel
  | S fuel' =>
    found ← gets (.!! index);
    match found with
    | None => fail EIndex
    | Some node =>
      let d := sn_data node in
      positive ← roll_children (rollupNode fuel') (sn_children node) [];
      nodes ← gets id;
      let positiveChildren := sort_Slice (amount_at nodes) positive in
      sum ← lift (add_children nodes (ESumRollup (sd_id d)) positiveChildren (sd_amount d) (sd_count d));
      modify (<[index := SumNode d sum.1 sum.2 positiveChildren]>)
    end
  end.

(** Three levels are enough after [buildTagSummaryForest]. *)
Definition maxTagDepth : nat := 3.
Definition rollup (f : tagSummaryForest) : res sumerr (tagSummaryForest * Z) :=
  match roll_children (rollupNode maxTagDepth) (sf_roots f) [] (sf_nodes f) with
  | (Err e, _) => Err e
  | (Ok positive, nodes) =>
    let positiveRoots := sort_Slice (amount_at nodes) positive in
    total ← add_children nodes ESumTotal positiveRoots 0 0;
    Ok (SumForest nodes positiveRoots, total.1)
  end.
End Rollup.

(** * The answer *)
(** [Ratio] is the quotient of the pair, [0.0] when there is no total. *)
#[warnings="-register-all"]
Inductive TagSummary := Summary
  (TagID : Z) (TagName : string) (Amount : Z) (AmountExact : string) (Count : Z) (Ratio : option (Z * Z)) (Children : list TagSummary).
Definition ts_id (s : TagSummary) : Z := let 'Summary i _ _ _ _ _ _ := s in i.
Definition ts_name (s : TagSummary) : string := let 'Summary _ n _ _ _ _ _ := s in n.
Definition ts_amount (s : TagSummary) : Z := let 'Summary _ _ a _ _ _ _ := s in a.
Definition ts_exact (s : TagSummary) : string := let 'Summary _ _ _ e _ _ _ := s in e.
Definition ts_count (s : TagSummary) : Z := let 'Summary _ _ _ _ c _ _ := s in c.
Definition ts_ratio (s : TagSummary) : option (Z * Z) := let 'Summary _ _ _ _ _ r _ := s in r.
Definition ts_children (s : TagSummary) : list TagSummary := let 'Summary _ _ _ _ _ _ l := s in l.

Fixpoint visible_loop (rec : list nat → res sumerr Z) (nodes : list tagSummaryNode) (idxs : list nat) (count : Z) : res sumerr Z :=
  match idxs with
  | [] => Ok count
  | i :: idxs' =>
    match nodes !! i with
    | None => Err EIndex
    | Some x => childCount ← rec (sn_children x); visible_loop rec nodes idxs' (count + (1 + childCount))
    end
  end.
Fixpoint countVisible (fuel : nat) (nodes : list tagSummaryNode) (idxs : list nat) : res sumerr Z :=
  match fuel with
  | O => match idxs with [] => Ok 0 | _ => Err ESumFuel end
  | S fuel' => visible_loop (countVisible fuel' nodes) nodes idxs 0
  end.

Definition summary_of_node (totalAmount : Z) (x : tagSummaryNode) (children : list TagSummary) : TagSummary :=
  Summary (sd_id (sn_data x)) (sd_name (sn_data x)) (sn_amount x) (ExactInt64 (sn_amount x)) (sn_count x)
    (if totalAmount >? 0 then Some (sn_amount x, totalAmount) else None) children.

(** The state is [remaining]. *)
Fixpoint materialize_loop (rec : list nat → stm Z sumerr (list TagSummary)) (nodes : list tagSummaryNode)
    (totalAmount maxNodes : Z) (idxs : list nat) (summaries : list TagSummary) : stm Z sumerr (list TagSummary) :=
  match idxs with
  | [] => mret summaries
  | i :: idxs' =>
    remaining ← gets id;
    if (maxNodes >? 0) && (remaining <=? 0) then mret summaries
    else
      (if maxNodes >? 0 then modify (λ r, r - 1) else mret tt);;
      match nodes !! i with
      | None => fail EIndex
      | Some x =>
        children ← rec (sn_children x);
        materialize_loop rec nodes totalAmount maxNodes idxs' (summaries ++ [summary_of_node totalAmount x children])
      end
  end.
Fixpoint materializeIndexes (fuel : nat) (nodes : list tagSummaryNode) (totalAmount maxNodes : Z) (idxs : list nat)
    : stm Z sumerr (list TagSummary) :=
  match fuel with
  | O => match idxs with [] => mret [] | _ => fail ESumFuel end
  | S fuel' => materialize_loop (materializeIndexes fuel' nodes totalAmount maxNodes) nodes totalAmount maxNodes idxs []
  end.

Definition materialize (f : tagSummaryForest) (totalAmount maxNodes : Z) : res sumerr (list TagSummary * bool) :=
  truncated ← (if maxNodes >? 0 then
                 visibleCount ← countVisible maxTagDepth (sf_nodes f) (sf_roots f); Ok (visibleCount >? maxNodes)
               else Ok false);
  match fst (materializeIndexes maxTagDepth (sf_nodes f) totalAmount maxNodes (sf_roots f) maxNodes) with
  | Err e => Err e
  | Ok summaries => Ok (summaries, truncated)
  end.

Section Summary.
Context (date_text : Z → string) (sort_Slice : (nat → Z) → list nat → list nat).

Definition getTagSummaryFilteredContext (f : tag_filter) (options : tagSummaryOptions) (db : ledger)
    : res sumerr (list TagSummary * bool) :=
  allData ← scan (maxScannedNodes options) (summary_rows date_text f db) [] ∅;
  forest ← buildTagSummaryForest (merge_sort amount_desc allData);
  rolled ← rollup sort_Slice forest;
  materialize rolled.1 rolled.2 (maxMaterializedNodes options).

Definition getTagSummaryFiltered (f : tag_filter) (db : ledger) : res sumerr (list TagSummary) :=
  answer ← getTagSummaryFilteredContext f (SumOptions 0 0) db; Ok answer.1.
Definition GetTagSummary (txType startDate endDate : string) (db : ledger) : res sumerr (list TagSummary) :=
  getTagSummaryFiltered (Filter txType startDate endDate "" []) db.
End Summary.

(** The reference for the node budget: cutting a complete answer. *)
Fixpoint count_summary (s : TagSummary) (total : Z) : Z :=
  let 'Summary _ _ _ _ _ _ children := s in foldl (λ t c, count_summary c t) (total + 1) children.
Definition countTagSummaries (summaries : list TagSummary) (total : Z) : Z := foldl (λ t s, count_summary s t) total summaries.

Definition truncate_loop (one : TagSummary → Z → TagSummary * Z) : list TagSummary → list TagSummary → Z → list TagSummary * Z :=
  fix loop l result remaining :=
    match l with
    | [] => (result, remaining)
    | s :: l' =>
      if remaining <=? 0 then (result, remaining)
      else let '(s', r) := one s (remaining - 1) in loop l' (result ++ [s']) r
    end.
Fixpoint truncate_summary (s : TagSummary) (remaining : Z) : TagSummary * Z :=
  let 'Summary i n a e c r children := s in
  let '(children', remaining') :=
    if remaining <=? 0 then ([], remaining) else truncate_loop truncate_summary children [] remaining in
  (Summary i n a e c r children', remaining').
Definition truncateTagSummaries (summaries : list TagSummary) (remaining : Z) : list TagSummary * Z :=
  if remaining <=? 0 then ([], remaining) else truncate_loop truncate_summary summaries [] remaining.

(** * The budget *)
Section TagSummaryInd.
Context (P : TagSummary → Prop) (Hstep : ∀ i n a e c r children, Forall P children → P (Summary i n a e c r children)).
Fixpoint TagSummary_ind' (s : TagSummary) : P s :=
  let 'Summary i n a e c r children := s in
  Hstep i n a e c r children
    ((fix go l : Forall P l := match l with [] => Forall_nil_2 _ | x :: l' => Forall_cons_2 _ _ _ (TagSummary_ind' x) (go l') end) children).
End TagSummaryInd.

Lemma count_loop_shift (l : list TagSummary) : Forall (λ s, ∀ t, count_summary s t = t + count_summary s 0) l →
  ∀ t, foldl (λ t c, count_summary c t) t l = t + foldl (λ t c, count_summary c t) 0 l.
Proof.
  induction 1 as [|s l Hs _ IH]; intros t; cbn; [lia|]. rewrite IH, (IH (count_summary s 0)), Hs. lia.
Qed.
Lemma count_summary_shift s : ∀ t, count_summary s t = t + count_summary s 0.
Proof.
  induction s as [i n a e c r children IH] using TagSummary_ind'. intros t. cbn [count_summary].
  rewrite (count_loop_shift _ IH (t + 1)), (count_loop_shift _ IH (0 + 1)). lia.
Qed.
Lemma countTagSummaries_cons s l t : countTagSummaries (s :: l) t = t + count_summary s 0 + countTagSummaries l 0.
Proof.
  unfold countTagSummaries. cbn. rewrite count_loop_shift, count_summary_shift; [done|].
  apply Forall_true. intros ?. apply count_summary_shift.
Qed.

Lemma truncate_stop one l acc r : r <= 0 → truncate_loop one l acc r = (acc, r).
Proof. destruct l; [done|]. cbn. intros. by destruct (Z.leb_spec r 0); [|lia]. Qed.
Lemma truncateTagSummaries_loop l r : truncateTagSummaries l r = truncate_loop truncate_summary l [] r.
Proof. unfold truncateTagSummaries. destruct (Z.leb_spec r 0); [|done]. by rewrite truncate_stop. Qed.
Lemma truncate_summary_node T x children r :
  truncate_summary (summary_of_node T x children) r =
  let '(children', r') := truncateTagSummaries children r in (summary_of_node T x children', r').
Proof. reflexivity. Qed.

Section Budget.
Context (nodes : list tagSummaryNode) (T m : Z) (Hm : 0 < m).

(** What cutting [full] means for a call with a budget. *)
Definition cut_of (limited : stm Z sumerr (list TagSummary)) (full : list TagSummary) : Prop :=
  ∀ r, limited r = let '(l, r') := truncateTagSummaries full r in (Ok l, r').

Lemma materialize_loop_cut rec0 recm :
  (∀ ch r0 full r1, rec0 ch r0 = (Ok full, r1) → cut_of (recm ch) full) →
  ∀ idxs acc0 r0 out r1, materialize_loop rec0 nodes T 0 idxs acc0 r0 = (Ok out, r1) →
  ∃ full, out = acc0 ++ full ∧ ∀ acc r, materialize_loop recm nodes T m idxs acc r =
    let '(l, r') := truncate_loop truncate_summary full acc r in (Ok l, r').
Proof.
  intros Hrec. induction idxs as [|i idxs IH]; intros acc0 r0 out r1; cbn [materialize_loop].
  - intros [= <- _]. exists []. by rewrite app_nil_r.
  - unfold mbind, stm_bind, gets, mret, stm_ret, fail. cbn. destruct (nodes !! i) as [x|] eqn:Ex; [|done].
    destruct (rec0 (sn_children x) r0) as [[children|e] r2] eqn:Ech; [|done]. intros (full & -> & Hfull)%IH.
    exists (summary_of_node T x children :: full). split; [by rewrite <- app_assoc|]. intros acc r.
    rewrite (proj2 (Z.gtb_lt m 0) Hm). cbn [andb truncate_loop]. fold (truncate_loop truncate_summary).
    destruct (Z.leb_spec r 0); [done|]. cbn [modify]. rewrite (Hrec _ _ _ _ Ech), truncate_summary_node.
    destruct (truncateTagSummaries children (r - 1)) as [children' r']. apply Hfull.
Qed.

Lemma materializeIndexes_cut fuel : ∀ idxs r0 full r1, materializeIndexes fuel nodes T 0 idxs r0 = (Ok full, r1) →
  cut_of (materializeIndexes fuel nodes T m idxs) full.
Proof.
  induction fuel as [|fuel IH]; intros idxs r0 full r1; cbn [materializeIndexes].
  - destruct idxs; [|done]. intros [= <- _] r. by rewrite truncateTagSummaries_loop.
  - intros (full' & -> & Hfull)%(materialize_loop_cut _ _ IH) r. by rewrite Hfull, truncateTagSummaries_loop.
Qed.

Lemma visible_loop_count rec0 recv :
  (∀ ch r0 full r1, rec0 ch r0 = (Ok full, r1) → recv ch = Ok (countTagSummaries full 0)) →
  ∀ idxs acc0 r0 out r1, materialize_loop rec0 nodes T 0 idxs acc0 r0 = (Ok out, r1) →
  ∃ full, out = acc0 ++ full ∧ ∀ n, visible_loop recv nodes idxs n = Ok (n + countTagSummaries full 0).
Proof.
  intros Hrec. induction idxs as [|i idxs IH]; intros acc0 r0 out r1; cbn [materialize_loop].
  - intros [= <- _]. exists []. rewrite app_nil_r. split; [done|]. intros n. cbn. f_equal. lia.
  - unfold mbind, stm_bind, gets, mret, stm_ret, fail. cbn. destruct (nodes !! i) as [x|] eqn:Ex; [|done].
    destruct (rec0 (sn_children x) r0) as [[children|e] r2] eqn:Ech; [|done]. intros (full & -> & Hfull)%IH.
    exists (summary_of_node T x children :: full). split; [by rewrite <- app_assoc|]. intros n.
    rewrite (Hrec _ _ _ _ Ech). cbn [mbind res_bind]. rewrite Hfull, countTagSummaries_cons. cbn [count_summary summary_of_node].
    fold (countTagSummaries children (0 + 1)). f_equal.
    assert (countTagSummaries children (0 + 1) = 1 + countTagSummaries children 0) as ->; [|lia].
    apply count_loop_shift, Forall_true. intros ?. apply count_summary_shift.
Qed.

Lemma countVisible_count fuel : ∀ idxs r0 full r1, materializeIndexes fuel nodes T 0 idxs r0 = (Ok full, r1) →
  countVisible fuel nodes idxs = Ok (countTagSummaries full 0).
Proof.
  induction fuel as [|fuel IH]; intros idxs r0 full r1; cbn [materializeIndexes countVisible].
  - destruct idxs; [|done]. by intros [= <- _].
  - intros (full' & -> & Hfull)%(visible_loop_count _ _ IH). by rewrite Hfull.
Qed.

Lemma materialize_budget roots full truncated :
  materialize (SumForest nodes roots) T 0 = Ok (full, truncated) →
  materialize (SumForest nodes roots) T m = Ok ((truncateTagSummaries full m).1, countTagSummaries full 0 >? m).
Proof.
  unfold materialize. cbn [sf_nodes sf_roots]. change (0 >? 0) with false. cbn [mbind res_bind].
  destruct (materializeIndexes maxTagDepth nodes T 0 roots 0) as [[l|e] r] eqn:E; cbn [fst]; [|done]. intros [= -> _].
  rewrite (proj2 (Z.gtb_lt m 0) Hm), (countVisible_count _ _ _ _ _ E). cbn [mbind res_bind].
  rewrite (materializeIndexes_cut _ _ _ _ _ E). by destruct (truncateTagSummaries full m).
Qed.
End Budget.

(** * Totals over a forest of tags *)
(** The [j]-th ancestor. *)
Definition ancestor (m : gmap Z tagrow) (j : nat) (h : Z) : option Z :=
  Nat.iter j (λ o, g ← o; r ← m !! g; tag_parent r) (Some h).

(** [h] is the tag [g] or lies below it. *)
Definition at_or_below (m : gmap Z tagrow) (g h : Z) : Prop := Some g ∈ (λ j, ancestor m j h) <$> seq 0 3.
#[global] Instance at_or_below_dec m g h : Decision (at_or_below m g h).
Proof. unfold at_or_below. apply _. Defined.

(** The sum of [f] over a tag and everything below it. *)
Definition subtotal (m : gmap Z tagrow) (f : Z → Z) (g : Z) : Z :=
  msum (λ h _, if decide (at_or_below m g h) then f h else 0) m.

Lemma msum_one {A} (m : gmap Z A) (f : Z → A → Z) k x :
  m !! k = Some x → (∀ k' x', m !! k' = Some x' → k' ≠ k → f k' x' = 0) → msum f m = f k x.
Proof.
  intros Hk Hu. rewrite (msum_delete _ _ _ _ Hk), (msum_ext _ (λ _ _, 0)).
  - unfold msum. rewrite lsum_zero; [lia|]. apply Forall_true. by intros [].
  - intros k' x' [Hne Hk']%lookup_delete_Some. by apply Hu.
Qed.
Lemma msum_plus {A} (f g : Z → A → Z) (m : gmap Z A) : msum (λ k x, f k x + g k x) m = msum f m + msum g m.
Proof. unfold msum. rewrite <- lsum_add. apply lsum_ext, Forall_true. by intros []. Qed.
Lemma msum_none {A} (m : gmap Z A) (f : Z → A → Z) : (∀ k x, m !! k = Some x → f k x = 0) → msum f m = 0.
Proof.
  intros H. rewrite (msum_ext _ (λ _ _, 0)) by done. unfold msum. apply lsum_zero, Forall_true. by intros [].
Qed.
Lemma msum_swap {A B} (f : Z → A → Z → B → Z) (m : gmap Z A) (m' : gmap Z B) :
  msum (λ k x, msum (f k x) m') m = msum (λ l y, msum (λ k x, f k x l y) m) m'.
Proof.
  unfold msum. etrans; [|etrans; [apply (lsum_swap (λ p q, uncurry (uncurry f p) q) (map_to_list m) (map_to_list m'))|]];
    apply lsum_ext, Forall_true; intros []; apply lsum_ext, Forall_true; by intros [].
Qed.

Section Totals.
Context (m : gmap Z tagrow).
Context (Hlevel : ∀ n r, m !! n = Some r →
  match tag_parent r with None => tag_level r = 1 | Some p => ∃ q, m !! p = Some q ∧ tag_level r = tag_level q + 1 end).
Context (Hrange : ∀ n r, m !! n = Some r → 1 <= tag_level r <= 3).

Lemma ancestor_S j h : ancestor m (S j) h = (g ← ancestor m j h; r ← m !! g; tag_parent r).
Proof. reflexivity. Qed.

Lemma ancestor_level j h r g : m !! h = Some r → ancestor m j h = Some g →
  ∃ t, m !! g = Some t ∧ tag_level t = tag_level r - Z.of_nat j.
Proof.
  intros Hh. revert g. induction j as [|j IH]; intros g.
  - intros [= <-]. exists r. split; [done|lia].
  - rewrite ancestor_S. destruct (ancestor m j h) as [c|]; [|done]. destruct (IH _ eq_refl) as (t & Ht & Hl). cbn. rewrite Ht. cbn.
    intros Hp. pose proof (Hlevel _ _ Ht) as H. rewrite Hp in H. destruct H as (q & Hq & E). exists q. split; [done|lia].
Qed.

Lemma below_spec g h r : m !! h = Some r → at_or_below m g h ↔ ∃ j, ancestor m j h = Some g.
Proof.
  intros Hh. unfold at_or_below. rewrite list_elem_of_fmap. split.
  - intros (j & Hj & _). by exists j.
  - intros (j & Hj). exists j. split; [done|]. destruct (ancestor_level _ _ _ _ Hh Hj) as (t & Ht & Hl).
    apply Hrange in Hh, Ht. apply elem_of_seq. lia.
Qed.

(** Tags of one level that are ancestors of the same tag are equal. *)
Lemma below_unique g g' h r t t' : m !! h = Some r → m !! g = Some t → m !! g' = Some t' → tag_level t = tag_level t' →
  at_or_below m g h → at_or_below m g' h → g' = g.
Proof.
  intros Hh Hg Hg' Hl (j & Hj)%(below_spec _ _ _ Hh) (j' & Hj')%(below_spec _ _ _ Hh).
  destruct (ancestor_level _ _ _ _ Hh Hj) as (u & Hu & El), (ancestor_level _ _ _ _ Hh Hj') as (u' & Hu' & El').
  simplify_eq. assert (j = j') as -> by lia. congruence.
Qed.

Lemma below_child g c h r t : m !! h = Some r → m !! c = Some t → tag_parent t = Some g → at_or_below m c h →
  at_or_below m g h ∧ h ≠ g.
Proof.
  intros Hh Hc Hp (j & Hj)%(below_spec _ _ _ Hh).
  assert (ancestor m (S j) h = Some g) as HS by (rewrite ancestor_S, Hj; cbn; by rewrite Hc).
  split; [by apply (below_spec _ _ _ Hh); exists (S j)|]. intros ->.
  destruct (ancestor_level _ _ _ _ Hh HS) as (u & Hu & El). simplify_eq. lia.
Qed.

Lemma below_via g h r : m !! h = Some r → at_or_below m g h → h ≠ g →
  ∃ c t, m !! c = Some t ∧ tag_parent t = Some g ∧ at_or_below m c h.
Proof.
  intros Hh ([|j] & Hj)%(below_spec _ _ _ Hh) Hne; [by injection Hj|]. rewrite ancestor_S in Hj.
  destruct (ancestor m j h) as [c|] eqn:Ec; [|done]. destruct (ancestor_level _ _ _ _ Hh Ec) as (t & Ht & _).
  exists c, t. cbn in Hj. rewrite Ht in Hj. repeat split; [done..|]. apply (below_spec _ _ _ Hh). by exists j.
Qed.

Lemma below_root h r : m !! h = Some r → ∃ c t, m !! c = Some t ∧ tag_parent t = None ∧ at_or_below m c h.
Proof.
  intros Hh. assert (∀ k j c t, ancestor m j h = Some c → m !! c = Some t → (Z.to_nat (tag_level t) <= k)%nat →
    ∃ c' t', m !! c' = Some t' ∧ tag_parent t' = None ∧ at_or_below m c' h) as H.
  { induction k as [|k IH]; intros j c t Hj Ht Hk; [apply Hrange in Ht; lia|].
    destruct (tag_parent t) as [p|] eqn:Ep.
    - pose proof (Hlevel _ _ Ht) as Hl. rewrite Ep in Hl. destruct Hl as (q & Hq & El). apply (IH (S j) p q); [|done|].
      + rewrite ancestor_S, Hj. cbn. by rewrite Ht.
      + apply Hrange in Hq. lia.
    - exists c, t. repeat split; [done..|]. apply (below_spec _ _ _ Hh). by exists j. }
  apply (H (Z.to_nat (tag_level r)) 0%nat h r); done.
Qed.

(** The subtotal of a tag is its own value and the subtotals of its children. *)
Lemma subtotal_children f g t : m !! g = Some t →
  subtotal m f g = f g + msum (λ c u, if decide (tag_parent u = Some g) then subtotal m f c else 0) m.
Proof.
  intros Hg. unfold subtotal at 2.
  rewrite (msum_ext _ (λ c u, msum (λ h _, if decide (tag_parent u = Some g ∧ at_or_below m c h) then f h else 0) m)).
  2:{ intros c u _. case_decide as Hp; [apply msum_ext|symmetry; apply msum_none]; intros h v _; repeat case_decide; tauto. }
  rewrite msum_swap. assert (msum (λ h _, if decide (h = g) then f g else 0) m = f g) as <-.
  { rewrite (msum_one _ _ g t Hg); [by rewrite decide_True|]. intros. by rewrite decide_False. }
  unfold subtotal. rewrite <- msum_plus. apply msum_ext. intros h r Hh. destruct (decide (h = g)) as [->|Hne].
  - rewrite decide_True by (apply (below_spec _ _ _ Hh); by exists 0%nat). rewrite msum_none; [lia|].
    intros c u Hc. rewrite decide_False; [done|]. intros [Hp Hb]. by destruct (below_child _ _ _ _ _ Hh Hc Hp Hb).
  - case_decide as Hb.
    + destruct (below_via _ _ _ Hh Hb Hne) as (c & u & Hc & Hp & Hb').
      rewrite (msum_one m _ c u Hc); [rewrite decide_True by done; lia|].
      intros c' u' Hc' Hcc. rewrite decide_False; [done|]. intros [Hp' Hb'']. apply Hcc. eapply below_unique; [exact Hh|exact Hc|exact Hc'| |done..].
      pose proof (Hlevel _ _ Hc) as H1. pose proof (Hlevel _ _ Hc') as H2. rewrite Hp in H1. rewrite Hp' in H2.
      destruct H1 as (q & Hq & ->), H2 as (q' & Hq' & ->). congruence.
    + rewrite msum_none; [lia|]. intros c u Hc. rewrite decide_False; [done|]. intros [Hp Hb'].
      by destruct (below_child _ _ _ _ _ Hh Hc Hp Hb').
Qed.

(** The subtotals of the roots add up to the sum over all tags. *)
Lemma subtotal_roots f :
  msum (λ c u, if decide (tag_parent u = None) then subtotal m f c else 0) m = msum (λ h _, f h) m.
Proof.
  rewrite (msum_ext _ (λ c u, msum (λ h _, if decide (tag_parent u = None ∧ at_or_below m c h) then f h else 0) m)).
  2:{ intros c u _. case_decide as Hp; [apply msum_ext|symmetry; apply msum_none]; intros h v _; repeat case_decide; tauto. }
  rewrite msum_swap. apply msum_ext. intros h r Hh. destruct (below_root _ _ Hh) as (c & u & Hc & Hp & Hb).
  rewrite (msum_one m _ c u Hc); [by rewrite decide_True|].
  intros c' u' Hc' Hcc. rewrite decide_False; [done|]. intros [Hp' Hb']. apply Hcc. eapply below_unique; [exact Hh|exact Hc|exact Hc'| |done..].
  pose proof (Hlevel _ _ Hc) as H1. pose proof (Hlevel _ _ Hc') as H2. rewrite Hp in H1. rewrite Hp' in H2. congruence.
Qed.
End Totals.

(** * What the forest check accepts *)
Record forest_data (data : list tagSummaryData) : Prop := {
  fd_ids : NoDup (sd_id <$> data);
  fd_range : ∀ d, d ∈ data → 1 <= sd_level d <= 3;
  fd_level : ∀ d, d ∈ data →
    match sd_parent d with None => sd_level d = 1 | Some p => ∃ q, q ∈ data ∧ sd_id q = p ∧ sd_level d = sd_level q + 1 end
}.

(** The indexes below [k] of the data with parent [p], and the forest linked so far. *)
Definition child_idx (data : list tagSummaryData) (p : option Z) (k : nat) : list nat :=
  filter (λ j, sd_parent <$> data !! j = Some p) (seq 0 k).
#[local] Arguments child_idx : simpl never.
Definition linked (data : list tagSummaryData) (k : nat) : tagSummaryForest :=
  SumForest ((λ d, SumNode d 0 0 (child_idx data (Some (sd_id d)) k)) <$> data) (child_idx data None k).
Definition ids_of (data : list tagSummaryData) (ids : gmap Z nat) : Prop :=
  ∀ p j, ids !! p = Some j ↔ ∃ d, data !! j = Some d ∧ sd_id d = p.

Lemma child_idx_S data p k : child_idx data p (S k) =
  child_idx data p k ++ (if decide (sd_parent <$> data !! k = Some p) then [k] else []).
Proof.
  unfold child_idx. by rewrite seq_S, filter_app.
Qed.
Lemma elem_of_child_idx data p k j :
  j ∈ child_idx data p k ↔ (j < k)%nat ∧ ∃ d, data !! j = Some d ∧ sd_parent d = p.
Proof.
  unfold child_idx. rewrite list_elem_of_filter, elem_of_seq, fmap_Some. naive_solver lia.
Qed.
Lemma NoDup_child_idx data p k : NoDup (child_idx data p k).
Proof. apply NoDup_filter, NoDup_seq. Qed.

Lemma index_ids_spec data : ∀ pre ids, ids_of pre ids → NoDup (sd_id <$> pre) →
  match index_ids (length pre) data ids with
  | Ok ids' => ids_of (pre ++ data) ids' ∧ NoDup (sd_id <$> pre ++ data)
  | Err e => ¬ NoDup (sd_id <$> pre ++ data) ∧ ∃ g, e = EDuplicateTag g
  end.
Proof.
  induction data as [|d data IH]; intros pre ids Hids Hnd; cbn [index_ids]; [by rewrite app_nil_r|].
  destruct (ids !! sd_id d) as [j|] eqn:Ej.
  - split; [|by eauto]. apply Hids in Ej as (d' & Hd' & E). rewrite fmap_app, fmap_cons. intros H%NoDup_app.
    destruct H as (_ & H & _). apply (H (sd_id d)); [|left]. rewrite <- E. apply list_elem_of_fmap_2. by eapply list_elem_of_lookup_2.
  - rewrite (cons_middle d pre data), (app_assoc pre [d] data).
    replace (S (length pre)) with (length (pre ++ [d])) by (rewrite length_app; cbn; lia).
    apply IH.
    + intros p j. rewrite lookup_insert_Some. split.
      * intros [[<- <-]|[Hne (d' & Hd' & <-)%Hids]].
        -- exists d. split; [|done]. by rewrite lookup_app_r, Nat.sub_diag by lia.
        -- exists d'. split; [|done]. by apply lookup_app_l_Some.
      * intros (d' & [Hd'|[Hle Hd']]%lookup_app_Some & <-).
        -- right. split; [|apply Hids; by eauto]. intros E. assert (ids !! sd_id d' = Some j) as E' by (apply Hids; eauto). congruence.
        -- apply list_lookup_singleton_Some in Hd' as [Hj <-]. left. split; [done|lia].
    + rewrite fmap_app. apply NoDup_app. split; [done|]. split; [|apply NoDup_singleton].
      intros x Hx ->%list_elem_of_singleton. apply list_elem_of_fmap in Hx as (d' & E & [j Hj]%list_elem_of_lookup_1).
      assert (ids !! sd_id d = Some j) as E' by (apply Hids; eauto). congruence.
Qed.

Section Build.
Context (data : list tagSummaryData) (ids : gmap Z nat) (Hids : ids_of data ids) (Hnd : NoDup (sd_id <$> data)).

Lemma same_id i j d d' : data !! i = Some d → data !! j = Some d' → sd_id d = sd_id d' → i = j.
Proof. intros Hi Hj E. assert (ids !! sd_id d = Some i) as H1 by (apply Hids; eauto). assert (ids !! sd_id d = Some j) as H2 by (apply Hids; eauto). congruence. Qed.

Lemma link_node_spec k d : data !! k = Some d →
  match link_node ids k (linked data k) with
  | Ok f => f = linked data (S k) ∧ (∀ p, sd_parent d = Some p → ∃ q, q ∈ data ∧ sd_id q = p)
  | Err e => (∃ p, e = EOrphanTag (sd_id d) p ∧ sd_parent d = Some p ∧ ∀ q, q ∈ data → sd_id q ≠ p)
  end.
Proof.
  intros Hk. unfold link_node. cbn [sf_nodes sf_roots linked]. rewrite list_lookup_fmap, Hk. cbn [fmap option_fmap option_map sn_data].
  destruct (sd_parent d) as [p|] eqn:Ep.
  - destruct (ids !! p) as [j|] eqn:Ej.
    + apply Hids in Ej as (q & Hq & <-). split; [|intros p [= <-]; exists q; split; [by eapply list_elem_of_lookup_2|done]].
      unfold linked. rewrite child_idx_S, Hk. cbn [fmap option_fmap option_map]. rewrite Ep, decide_False, app_nil_r by done. f_equal.
      apply list_eq. intros i.
      destruct (decide (i = j)) as [->|Hij].
      * rewrite list_lookup_alter_eq, !list_lookup_fmap, Hq. cbn. unfold add_child. cbn.
        rewrite child_idx_S, Hk. cbn. by rewrite Ep, decide_True.
      * rewrite list_lookup_alter_ne, !list_lookup_fmap by done. destruct (data !! i) as [d'|] eqn:Ei; [|done]. cbn.
        rewrite child_idx_S, Hk. cbn. rewrite Ep, decide_False, app_nil_r; [done|]. intros [= E]. apply Hij. symmetry. by eapply same_id.
    + exists p. split_and!; [done..|]. intros q [j Hj]%list_elem_of_lookup_1 E.
      assert (ids !! p = Some j) by (apply Hids; eauto). congruence.
  - split; [|done]. unfold linked. f_equal.
    + apply list_fmap_ext. intros i d' Hd'. f_equal. rewrite child_idx_S, Hk. cbn. by rewrite Ep, decide_False, app_nil_r.
    + rewrite child_idx_S, Hk. cbn. by rewrite Ep, decide_True.
Qed.

Lemma link_nodes_spec r : ∀ k, (k + r = length data)%nat →
  match link_nodes ids (seq k r) (linked data k) with
  | Ok f => f = linked data (length data) ∧
    ∀ j d p, (k <= j)%nat → data !! j = Some d → sd_parent d = Some p → ∃ q, q ∈ data ∧ sd_id q = p
  | Err e => ∃ d p, d ∈ data ∧ e = EOrphanTag (sd_id d) p ∧ sd_parent d = Some p ∧ ∀ q, q ∈ data → sd_id q ≠ p
  end.
Proof.
  induction r as [|r IH]; intros k Hk; cbn [seq link_nodes].
  - replace (length data) with k by lia. split; [done|]. intros j d p Hj Hd%lookup_lt_Some. lia.
  - destruct (lookup_lt_is_Some_2 data k) as [d Hd]; [lia|]. pose proof (link_node_spec k d Hd) as H.
    destruct (link_node ids k (linked data k)) as [f|e]; cbn [mbind res_bind].
    + destruct H as [-> Hp]. specialize (IH (S k) ltac:(lia)). destruct (link_nodes _ _ _) as [f|e]; [|done].
      destruct IH as [-> IH]. split; [done|]. intros j d' p Hj Hd' Hp'. destruct (decide (j = k)) as [->|]; [simplify_eq; by apply Hp|].
      apply (IH j d'); [lia|done..].
    + destruct H as (p & -> & Hp & Hq). exists d, p. split_and!; [by eapply list_elem_of_lookup_2|done..].
Qed.

(** The walk visits every node whose parent it visited, once. *)
Context (Hpar : ∀ d p, d ∈ data → sd_parent d = Some p → ∃ q, q ∈ data ∧ sd_id q = p).
Let n := length data.
Let nodes := sf_nodes (linked data n).

Definition reached (queue : list nat) (R : gset nat) : Prop :=
  ∀ j, j ∈ R ∨ j ∈ queue ↔ (j < n)%nat ∧ ∃ d, data !! j = Some d ∧
    match sd_parent d with None => True | Some p => ∃ i q, i ∈ R ∧ data !! i = Some q ∧ sd_id q = p end.

Lemma walk_forest_spec fuel : ∀ queue R, reached queue R → NoDup queue → (∀ j, j ∈ queue → j ∉ R) → (n < fuel + size R)%nat →
  ∃ R', walk_forest fuel nodes queue R = Ok R' ∧ reached [] R'.
Proof.
  induction fuel as [|fuel IH]; intros queue R Hr Hq Hd Hf.
  - assert (size R <= n)%nat; [|lia]. rewrite <- (length_seq n 0), <- (size_list_to_set (C := gset nat)) by apply NoDup_seq.
    apply subseteq_size. intros j Hj. apply elem_of_list_to_set, elem_of_seq. destruct (proj1 (Hr j) (or_introl Hj)). lia.
  - destruct queue as [|i queue]; cbn [walk_forest]; [by exists R|].
    destruct (proj1 (Hr i) (or_intror (list_elem_of_here _ _))) as [Hi (d & Hdi & Hp)].
    assert (nodes !! i = Some (SumNode d 0 0 (child_idx data (Some (sd_id d)) n))) as -> by (unfold nodes; cbn; by rewrite list_lookup_fmap, Hdi).
    rewrite bool_decide_eq_false_2 by (apply Hd; left). cbn [sn_children]. apply NoDup_cons in Hq as [Hiq Hq].
    assert (i ∉ R) as HiR by (apply Hd; left).
    assert (∀ j, j ∈ child_idx data (Some (sd_id d)) n → ¬ (j ∈ R) ∧ ¬ (j ∈ i :: queue)) as Hnew.
    { intros j (Hj & dj & Hdj & Ej)%elem_of_child_idx. cut (¬ (j ∈ R ∨ j ∈ i :: queue)); [tauto|]. intros H. apply Hr in H as (_ & dj' & Hdj' & H).
      simplify_eq. rewrite Ej in H. destruct H as (i' & q & Hi' & Hq' & E). assert (i' = i) as -> by (by eapply same_id). done. }
    apply IH.
    + intros j. rewrite elem_of_union, elem_of_singleton, elem_of_app. split.
      * intros [[->|Hj]|[Hj|Hj]].
        -- split; [done|]. exists d. split; [done|]. destruct (sd_parent d); [|done]. destruct Hp as (i' & q & ? & ? & ?). exists i', q. set_solver.
        -- destruct (proj1 (Hr j) (or_introl Hj)) as (? & dj & ? & H). split; [done|]. exists dj. split; [done|].
           destruct (sd_parent dj); [|done]. destruct H as (i' & q & ? & ? & ?). exists i', q. set_solver.
        -- destruct (proj1 (Hr j) ltac:(right; by right)) as (? & dj & ? & H). split; [done|]. exists dj. split; [done|].
           destruct (sd_parent dj); [|done]. destruct H as (i' & q & ? & ? & ?). exists i', q. set_solver.
        -- apply elem_of_child_idx in Hj as (Hj & dj & Hdj & Ej). split; [done|]. exists dj. split; [done|]. rewrite Ej. exists i, d. set_solver.
      * intros (Hj & dj & Hdj & H). destruct (sd_parent dj) as [p|] eqn:Ep.
        -- destruct H as (i' & q & [->%elem_of_singleton|Hi']%elem_of_union & Hq' & <-).
           ++ right. right. apply elem_of_child_idx. simplify_eq. eauto.
           ++ assert (j ∈ R ∨ j ∈ i :: queue) as [|[->|]%elem_of_cons]; [|by auto..].
              apply Hr. split; [done|]. exists dj. rewrite Ep. split; [done|]. by exists i', q.
        -- assert (j ∈ R ∨ j ∈ i :: queue) as [|[->|]%elem_of_cons]; [|by auto..].
           apply Hr. split; [done|]. exists dj. by rewrite Ep.
    + apply NoDup_app. split; [done|]. split; [|apply NoDup_child_idx]. intros j Hj Hc. destruct (Hnew _ Hc) as [_ H]. apply H. by right.
    + intros j [Hj|Hj]%elem_of_app; apply not_elem_of_union; rewrite not_elem_of_singleton.
      * split; [by intros ->|]. apply Hd. by right.
      * destruct (Hnew _ Hj) as [H1 H2]. split; [|done]. intros ->. apply H2. left.
    + rewrite size_union, size_singleton by set_solver. lia.
Qed.
End Build.

Lemma check_all_Ok {A} (check : A → res sumerr unit) l : check_all check l = Ok tt ↔ ∀ x, x ∈ l → check x = Ok tt.
Proof.
  induction l as [|x l IH]; cbn [check_all]; [split; [by intros _ x ?%not_elem_of_nil|done]|].
  destruct (check x) as [[]|e] eqn:E; cbn [mbind res_bind].
  - rewrite IH. split; intros H y; [intros [->|Hy]%elem_of_cons; auto|]. intros Hy. apply H. by right.
  - split; [done|]. intros H. rewrite <- E. apply H. left.
Qed.
Lemma check_all_Err {A} (check : A → res sumerr unit) l e : check_all check l = Err e → ∃ x, x ∈ l ∧ check x = Err e.
Proof.
  induction l as [|x l IH]; cbn [check_all]; [done|]. destruct (check x) as [[]|e'] eqn:E; cbn [mbind res_bind].
  - intros (y & Hy & Ey)%IH. exists y. split; [by right|done].
  - intros [= <-]. exists x. split; [left|done].
Qed.

Lemma check_level_Ok d : check_level d = Ok tt ↔ 1 <= sd_level d <= 3 ∧ (sd_parent d = None → sd_level d = 1).
Proof.
  unfold check_level. destruct (Z.ltb_spec (sd_level d) 1); cbn [orb]; [split; [done|lia]|].
  rewrite Z.gtb_ltb. destruct (Z.ltb_spec 3 (sd_level d)); [split; [done|lia]|].
  destruct (sd_parent d); [split; [done|done]|]. rewrite ensure_Ok, Z.eqb_eq. split; [split; [lia|done]|]. intros [_ H1]. by apply H1.
Qed.

Lemma check_child_level_Ok data ids d : ids_of data ids → NoDup (sd_id <$> data) → (∀ p, sd_parent d = Some p → ∃ q, q ∈ data ∧ sd_id q = p) →
  check_child_level ids (sf_nodes (linked data (length data))) d = Ok tt ↔
  ∀ q, q ∈ data → sd_parent d = Some (sd_id q) → sd_level d = sd_level q + 1.
Proof.
  intros Hids Hnd Hp. unfold check_child_level. destruct (sd_parent d) as [p|]; [|split; [done|done]].
  destruct (Hp p eq_refl) as (q & [j Hj]%list_elem_of_lookup_1 & <-). assert (ids !! sd_id q = Some j) as -> by (apply Hids; eauto).
  cbn [mbind option_bind sf_nodes linked]. rewrite list_lookup_fmap, Hj. cbn [fmap option_fmap option_map sn_data]. rewrite ensure_Ok, Z.eqb_eq. split.
  - intros H q' [j' Hj']%list_elem_of_lookup_1 [= E]. assert (j = j') as -> by (by eapply (same_id data ids)). by simplify_eq.
  - intros H. apply H; [by eapply list_elem_of_lookup_2|done].
Qed.

(** Every node of a forest is reached. *)
Lemma reached_all data R : forest_data data → reached data [] R → ∀ j, (j < length data)%nat → j ∈ R.
Proof.
  intros [_ Hrange Hlev] Hr. assert (∀ k j d, data !! j = Some d → (Z.to_nat (sd_level d) <= k)%nat → j ∈ R) as H.
  { induction k as [|k IH]; intros j d Hj Hk; pose proof (Hrange d ltac:(by eapply list_elem_of_lookup_2)); [lia|].
    pose proof (Hlev d ltac:(by eapply list_elem_of_lookup_2)) as Hl.
    assert (j ∈ R ∨ j ∈ []) as [|?%not_elem_of_nil]; [|done..]. apply Hr. split; [by eapply lookup_lt_Some|]. exists d. split; [done|].
    destruct (sd_parent d) as [p|]; [|done]. destruct Hl as (q & [i Hi]%list_elem_of_lookup_1 & <- & El). exists i, q. split; [|done].
    apply (IH i q Hi). pose proof (Hrange q ltac:(by eapply list_elem_of_lookup_2)). lia. }
  intros j [d Hd]%lookup_lt_is_Some_2. by eapply H.
Qed.

Definition internal_error (e : sumerr) : Prop :=
  match e with EIndex | ESumFuel | EUnreachable | EDuplicatePath _ => True | _ => False end.

Lemma reached_full data R : reached data [] R → size R = length data ↔ ∀ j, (j < length data)%nat → j ∈ R.
Proof.
  intros Hr. assert (R ⊆ list_to_set (seq 0 (length data))) as Hsub.
  { intros j Hj. apply elem_of_list_to_set, elem_of_seq. destruct (proj1 (Hr j) (or_introl Hj)). lia. }
  assert (size (list_to_set (seq 0 (length data)) : gset nat) = length data) as Hs
    by (rewrite size_list_to_set by apply NoDup_seq; apply length_seq).
  split.
  - intros E j Hj. destruct (decide (j ∈ R)) as [|Hn]; [done|]. exfalso.
    assert (R ⊂ list_to_set (seq 0 (length data))) as H%subset_size; [|lia]. split; [done|]. intros H. apply Hn, H, elem_of_list_to_set, elem_of_seq. lia.
  - intros Hall. rewrite <- Hs. f_equal. apply (anti_symm (⊆)); [done|]. intros j [_ Hj]%elem_of_list_to_set%elem_of_seq. apply Hall. lia.
Qed.

Lemma check_reachable_spec data nodes R : reached data [] R → length nodes = length data →
  match check_reachable nodes R with Ok _ => True | Err e => ¬ forest_data data ∧ ¬ internal_error e end.
Proof.
  intros Hr Hlen. unfold check_reachable. rewrite Hlen. case_bool_decide as Hs; [done|].
  assert (¬ ∀ j, (j < length data)%nat → j ∈ R) as Hn by (by rewrite <- reached_full).
  destruct (list_find _ _) as [[i j]|] eqn:Ef.
  - split; [|by intros []]. intros Hf. by apply Hn, reached_all.
  - exfalso. apply Hn. intros j Hj. rewrite list_find_None, Forall_forall in Ef.
    destruct (decide (j ∈ R)) as [|HjR]; [done|]. exfalso. apply (Ef j); [apply elem_of_seq; lia|done].
Qed.


(** The checks of the forest accept exactly the data in which every identifier
    occurs once, levels are between one and three, a root has level one and every
    other tag a parent one level above it, and then link every node to its children
    in the order of the data. Otherwise the answer is one of the documented structure
    errors; the walk always ends, also on cyclic data. *)
Lemma buildTagSummaryForest_exact data :
  match buildTagSummaryForest data with
  | Ok f => forest_data data ∧ f = linked data (length data)
  | Err e => ¬ forest_data data ∧ ¬ internal_error e
  end.
Proof.
  unfold buildTagSummaryForest. pose proof (index_ids_spec data [] ∅) as Hi. cbn [app length] in Hi.
  destruct (index_ids 0 data ∅) as [ids|e]; cbn [mbind res_bind]; (destruct Hi as [Hids Hnd]; [intros p j; rewrite lookup_empty; naive_solver|constructor|]).
  2:{ destruct Hnd as [g ->]. split; [|by intros []]. by intros []. }
  pose proof (link_nodes_spec data ids Hids (length data) 0 eq_refl) as Hl.
  assert (linked data 0 = SumForest ((λ d, SumNode d 0 0 []) <$> data) []) as E0 by done. rewrite E0 in Hl.
  destruct (link_nodes _ _ _) as [f|e]; cbn [mbind res_bind].
  2:{ destruct Hl as (d & p & Hd & -> & Hp & Hq). split; [|by intros []]. intros [_ _ H]. specialize (H d Hd). rewrite Hp in H.
      destruct H as (q & Hq' & E & _). by apply (Hq q). }
  destruct Hl as [-> Hpar']. set (nodes := sf_nodes (linked data (length data))).
  assert (∀ d p, d ∈ data → sd_parent d = Some p → ∃ q, q ∈ data ∧ sd_id q = p) as Hpar.
  { intros d p [j Hj]%list_elem_of_lookup_1 Hp. apply (Hpar' j d p); [lia|done..]. }
  assert (sn_data <$> nodes = data) as Ed by (unfold nodes; cbn; rewrite <- list_fmap_compose; apply list_fmap_id). rewrite Ed.
  assert (length nodes = length data) as Hlen by (unfold nodes; cbn; apply length_fmap). rewrite Hlen.
  destruct (check_all check_level data) as [[]|e] eqn:E1; cbn [mbind res_bind].
  2:{ apply check_all_Err in E1 as (d & Hd & E1). split.
      - intros [_ Hr H]. specialize (H d Hd). assert (check_level d = Ok tt) as E; [|congruence]. apply check_level_Ok. split; [by apply Hr|]. by intros Hn; rewrite Hn in H.
      - unfold check_level, ensure in E1. repeat case_match; simplify_eq; by intros []. }
  destruct (walk_forest_spec data ids Hids Hnd Hpar (S (length data)) (sf_roots (linked data (length data))) ∅) as (R & HR & Hall).
  { intros j. cbn [sf_roots linked]. rewrite elem_of_child_idx. split.
    - intros [[]%not_elem_of_empty|(Hj & d & Hd & E)]. split; [done|]. exists d. split; [done|]. by rewrite E.
    - intros (Hj & d & Hd & H). right. split; [done|]. exists d. split; [done|]. destruct (sd_parent d); [|done]. destruct H as (i & q & []%not_elem_of_empty & _). }
  { apply NoDup_child_idx. }
  { intros j _. apply not_elem_of_empty. }
  { rewrite size_empty. lia. }
  fold nodes in HR. rewrite HR. cbn [mbind res_bind].
  pose proof (check_reachable_spec data nodes R Hall Hlen) as Hc. destruct (check_reachable nodes R) as [[]|e]; cbn [mbind res_bind]; [clear Hc|done].
  destruct (check_all (check_child_level ids nodes) data) as [[]|e] eqn:E2; cbn [mbind res_bind].
  - rewrite check_all_Ok in E1, E2. split; [|done]. constructor; [done| |].
    + intros d Hd. by apply check_level_Ok, E1.
    + intros d Hd. specialize (E1 d Hd). specialize (E2 d Hd). apply check_level_Ok in E1 as [_ E1].
      pose proof (proj1 (check_child_level_Ok data ids d Hids Hnd (λ p, Hpar d p Hd)) E2) as E3. destruct (sd_parent d) as [p|] eqn:Ep; [|by apply E1].
      destruct (Hpar d p Hd Ep) as (q & Hq & <-). exists q. by auto.
  - apply check_all_Err in E2 as (d & Hd & E2). split.
    + intros [_ _ H]. specialize (H d Hd). assert (check_child_level ids nodes d = Ok tt) as E; [|congruence].
      apply check_child_level_Ok; [done|done|by eauto|]. intros q Hq Hp. rewrite Hp in H. destruct H as (q' & Hq' & E & Hl).
      destruct (list_elem_of_lookup_1 _ _ Hq) as [i Hi]. destruct (list_elem_of_lookup_1 _ _ Hq') as [i' Hi'].
      assert (i = i') as -> by (by eapply (same_id data ids)). by simplify_eq.
    + unfold check_child_level in E2. destruct (sd_parent d) as [p|] eqn:Ep; [|done]. destruct (Hpar d p Hd Ep) as (q & [j Hj]%list_elem_of_lookup_1 & <-).
      assert (ids !! sd_id q = Some j) as Ej by (apply Hids; eauto). rewrite Ej in E2. cbn in E2. unfold nodes in E2. cbn in E2. rewrite list_lookup_fmap, Hj in E2. cbn in E2.
      unfold ensure in E2. case_match; simplify_eq. by intros [].
Qed.

(** * Sums over the data *)
Lemma lsum_positive {A} (F G : A → Z) l : (∀ x, x ∈ l → 0 <= F x) → (∀ x, x ∈ l → F x = 0 → G x = 0) →
  lsum (G <$> filter (λ x, 0 < F x) l) = lsum (G <$> l).
Proof.
  intros H0 HG. rewrite lsum_filter. apply lsum_ext, Forall_forall. intros x Hx. case_decide as Hc; [done|]. symmetry. apply HG; [done|].
  specialize (H0 x Hx). lia.
Qed.

Lemma fmap_indexes {A B} (F : A → B) (b : B) (l : list A) : F <$> l = (λ j, from_option F b (l !! j)) <$> seq 0 (length l).
Proof.
  apply list_eq. intros j. rewrite !list_lookup_fmap. destruct (decide (j < length l)%nat).
  - rewrite lookup_seq_lt by done. cbn. by destruct (lookup_lt_is_Some_2 l j) as [x ->].
  - by rewrite (lookup_ge_None_2 l), (lookup_ge_None_2 (seq _ _)) by (rewrite ?length_seq; lia).
Qed.

Lemma sorted_agree {A} (key key' : A → Z) l : (∀ x, x ∈ l → key x = key' x) →
  StronglySorted (λ x y, key y <= key x) l → StronglySorted (λ x y, key' y <= key' x) l.
Proof.
  induction 2 as [|x l Hs IH Hx]; constructor.
  - apply IH. intros y Hy. apply H. by right.
  - rewrite Forall_forall in Hx |- *. intros y Hy. rewrite <- !H; [by apply Hx|by left|by right].
Qed.

(** The data of the tags of a ledger, with the direct amount and count of each. *)
Record data_of (m : gmap Z tagrow) (amount count : Z → Z) (data : list tagSummaryData) : Prop := {
  do_ids : sd_id <$> data ≡ₚ (map_to_list m).*1;
  do_row : ∀ d, d ∈ data → ∃ t, m !! sd_id d = Some t ∧ sd_name d = tag_name t ∧ sd_level d = tag_level t ∧
    sd_parent d = tag_parent t ∧ sd_amount d = amount (sd_id d) ∧ sd_count d = count (sd_id d)
}.

(** What an answer says about the tags under [p]: exactly those with a positive
    subtotal, largest first, each with its subtotals and its share of the total. *)
Record node_shows (m : gmap Z tagrow) (amount count : Z → Z) (total : Z) (s : TagSummary) (t : tagrow) : Prop := {
  ns_tag : m !! ts_id s = Some t;
  ns_name : ts_name s = tag_name t;
  ns_amount : ts_amount s = subtotal m amount (ts_id s);
  ns_exact : ts_exact s = ExactInt64 (ts_amount s);
  ns_count : ts_count s = subtotal m count (ts_id s);
  ns_ratio : ts_ratio s = Some (ts_amount s, total)
}.
Inductive shows (m : gmap Z tagrow) (amount count : Z → Z) (total : Z) (p : option Z) (l : list TagSummary) : Prop :=
| shows_intro :
    StronglySorted (λ a b, ts_amount b <= ts_amount a) l →
    NoDup (ts_id <$> l) →
    (∀ g, g ∈ ts_id <$> l ↔ ∃ t, m !! g = Some t ∧ tag_parent t = p ∧ 0 < subtotal m amount g) →
    (∀ s, s ∈ l → ∃ t, node_shows m amount count total s t) →
    (∀ s, s ∈ l → shows m amount count total (Some (ts_id s)) (ts_children s)) →
    shows m amount count total p l.

Section RollupProof.
Context (m : gmap Z tagrow) (amount count : Z → Z) (data : list tagSummaryData).
Context (Hlevel : ∀ n r, m !! n = Some r →
  match tag_parent r with None => tag_level r = 1 | Some p => ∃ q, m !! p = Some q ∧ tag_level r = tag_level q + 1 end).
Context (Hrange : ∀ n r, m !! n = Some r → 1 <= tag_level r <= 3).
Context (Hdata : data_of m amount count data).
Context (Hamount : ∀ g, 0 <= amount g) (Hcount : ∀ g, amount g = 0 → count g = 0).
Context (sort_Slice : (nat → Z) → list nat → list nat).
Context (Hperm : ∀ key l, sort_Slice key l ≡ₚ l).
Context (Hsort : ∀ key l, StronglySorted (λ i j, key j <= key i) (sort_Slice key l)).
Let n := length data.

(** The subtotal of the tag at an index. *)
Definition tot (f : Z → Z) (j : nat) : Z := from_option (λ d, subtotal m f (sd_id d)) 0 (data !! j).

Lemma data_forest : forest_data data.
Proof.
  destruct Hdata as [Hids Hrow]. constructor.
  - rewrite Hids. apply NoDup_fst_map_to_list.
  - intros d (t & Ht & _ & -> & _)%Hrow. by eapply Hrange.
  - intros d (t & Ht & _ & -> & -> & _)%Hrow. pose proof (Hlevel _ _ Ht) as H. destruct (tag_parent t) as [p|]; [|done].
    destruct H as (q & Hq & El). assert (p ∈ sd_id <$> data) as (d' & -> & Hd')%list_elem_of_fmap.
    { rewrite Hids. apply list_elem_of_fmap. exists (p, q). split; [done|]. by apply elem_of_map_to_list. }
    exists d'. split_and!; [done..|]. destruct (Hrow _ Hd') as (t' & Ht' & _ & -> & _). by simplify_eq.
Qed.

Lemma sum_data (F : Z → option Z → Z) : msum (λ c u, F c (tag_parent u)) m = lsum ((λ d, F (sd_id d) (sd_parent d)) <$> data).
Proof.
  destruct Hdata as [Hids Hrow]. unfold msum.
  assert (lsum ((λ g, from_option (λ u, F g (tag_parent u)) 0 (m !! g)) <$> (sd_id <$> data)) =
          lsum ((λ g, from_option (λ u, F g (tag_parent u)) 0 (m !! g)) <$> (map_to_list m).*1)) as E by (by rewrite Hids).
  rewrite <- !list_fmap_compose in E. etrans; [|etrans; [symmetry; exact E|]].
  - apply lsum_ext, Forall_forall. intros [g u] Hg%elem_of_map_to_list. cbn. by rewrite Hg.
  - apply lsum_ext, Forall_forall. intros d (t & Ht & _ & _ & -> & _)%Hrow. cbn. by rewrite Ht.
Qed.

Lemma sum_child_idx f p : msum (λ c u, if decide (tag_parent u = p) then subtotal m f c else 0) m = lsum (tot f <$> child_idx data p n).
Proof.
  etrans; [exact (sum_data (λ c q, if decide (q = p) then subtotal m f c else 0))|]. rewrite (fmap_indexes _ 0). unfold child_idx. rewrite lsum_filter.
  apply lsum_ext, Forall_forall. intros j _. unfold tot. destruct (data !! j) as [d|]; cbn.
  - repeat case_decide; congruence.
  - by case_decide.
Qed.

Lemma tot_children f j d : data !! j = Some d → tot f j = f (sd_id d) + lsum (tot f <$> child_idx data (Some (sd_id d)) n).
Proof.
  intros Hj. destruct (do_row _ _ _ _ Hdata d ltac:(by eapply list_elem_of_lookup_2)) as (t & Ht & _).
  rewrite <- sum_child_idx. unfold tot. rewrite Hj. cbn. by eapply subtotal_children.
Qed.

Lemma tot_roots f : lsum (tot f <$> child_idx data None n) = msum (λ h _, f h) m.
Proof.
  rewrite <- sum_child_idx, <- (subtotal_roots m Hlevel Hrange f). apply msum_ext. intros. by repeat case_decide.
Qed.

Lemma tot_nonneg j : 0 <= tot amount j.
Proof.
  unfold tot. destruct (data !! j) as [d|]; cbn; [|lia]. apply msum_nonneg. intros h _ _. case_decide; [done|lia].
Qed.

Lemma tot_zero j : tot amount j = 0 → tot count j = 0.
Proof.
  unfold tot. destruct (data !! j) as [d|]; cbn; [|done]. unfold subtotal. intros E. apply msum_none. intros h u Hh. case_decide as Hb; [|done].
  apply Hcount. rewrite (msum_delete _ _ _ _ Hh) in E. rewrite decide_True in E by done.
  assert (0 <= msum (λ h _, if decide (at_or_below m (sd_id d) h) then amount h else 0) (delete h m)).
  { apply msum_nonneg. intros. case_decide; [done|lia]. }
  specialize (Hamount h). lia.
Qed.

Lemma tot_child_le j d k : data !! j = Some d → k ∈ child_idx data (Some (sd_id d)) n → tot amount k <= tot amount j.
Proof.
  intros Hj Hk. rewrite (tot_children _ _ _ Hj). pose proof (Hamount (sd_id d)).
  assert (tot amount k <= lsum (tot amount <$> child_idx data (Some (sd_id d)) n)); [|lia].
  apply elem_of_Permutation in Hk as [l ->]. rewrite fmap_cons, lsum_cons.
  assert (0 <= lsum (tot amount <$> l)); [|lia]. rewrite <- (lsum_zero (λ _ : nat, 0) l) at 1 by by apply Forall_true.
  apply lsum_le, Forall_true. intros. apply tot_nonneg.
Qed.

(** A node that is rolled up, and the nodes during the roll-up: rolling up a node
    again changes nothing. *)
Definition positive_children (d : tagSummaryData) : list nat := filter (λ k, 0 < tot amount k) (child_idx data (Some (sd_id d)) n).
Record done_node (j : nat) (x : tagSummaryNode) : Prop := {
  dn_data : data !! j = Some (sn_data x);
  dn_amount : sn_amount x = tot amount j;
  dn_count : sn_count x = tot count j;
  dn_children : sn_children x ≡ₚ positive_children (sn_data x);
  dn_sorted : StronglySorted (λ a b, tot amount b <= tot amount a) (sn_children x)
}.
Definition ok_node (j : nat) (x : tagSummaryNode) : Prop :=
  data !! j = Some (sn_data x) ∧ (sn_children x = child_idx data (Some (sd_id (sn_data x))) n ∨ done_node j x).
Definition done_at (nodes : list tagSummaryNode) (j : nat) : Prop := ∃ x, nodes !! j = Some x ∧ done_node j x.
Definition ok_nodes (nodes : list tagSummaryNode) : Prop :=
  length nodes = n ∧ (∀ j x, nodes !! j = Some x → ok_node j x) ∧
  (∀ j x k, nodes !! j = Some x → done_node j x → k ∈ sn_children x → done_at nodes k).
Definition grows (nodes nodes' : list tagSummaryNode) : Prop := ∀ j, done_at nodes j → done_at nodes' j.

(** What a roll-up of index [i] leaves. *)
Definition rolled (i : nat) (run : res sumerr unit * list tagSummaryNode) (nodes : list tagSummaryNode) : Prop :=
  match run with
  | (Ok _, nodes') => ok_nodes nodes' ∧ grows nodes nodes' ∧ done_at nodes' i ∧ tot amount i <= MaxInt64
  | (Err e, _) => (∃ g, e = ESumRollup g) ∧ MaxInt64 < tot amount i
  end.

Lemma done_amount nodes k : done_at nodes k → amount_at nodes k = tot amount k.
Proof. intros (x & Hx & Hd). unfold amount_at. rewrite Hx. apply Hd. Qed.

Lemma roll_children_spec rec L : (∀ k nodes, k ∈ L → ok_nodes nodes → rolled k (rec k nodes) nodes) →
  ∀ acc nodes, ok_nodes nodes →
  match roll_children rec L acc nodes with
  | (Ok pos, nodes') => ok_nodes nodes' ∧ grows nodes nodes' ∧ (∀ k, k ∈ L → done_at nodes' k ∧ tot amount k <= MaxInt64) ∧
      pos = acc ++ filter (λ k, 0 < tot amount k) L
  | (Err e, _) => (∃ g, e = ESumRollup g) ∧ ∃ k, k ∈ L ∧ MaxInt64 < tot amount k
  end.
Proof.
  induction L as [|c L IH]; intros Hrec acc nodes Hok; cbn [roll_children].
  - split; [done|]. split; [by intros j|]. split; [by intros k ?%not_elem_of_nil|]. by rewrite app_nil_r.
  - unfold mbind, stm_bind, gets. pose proof (Hrec c nodes (list_elem_of_here _ _) Hok) as Hc.
    destruct (rec c nodes) as [[[]|e] nodes1]; cbn [rolled] in Hc.
    2:{ destruct Hc as [He Hc]. split; [done|]. exists c. split; [left|done]. }
    destruct Hc as (Hok1 & Hg1 & Hd1 & Hm1). cbn beta iota delta [id].
    assert (amount_at nodes1 c = tot amount c) as -> by (by apply done_amount).
    specialize (IH (λ k nodes Hk, Hrec k nodes (list_elem_of_further _ _ _ Hk)) (if tot amount c >? 0 then acc ++ [c] else acc) nodes1 Hok1).
    destruct (roll_children _ _ _ _) as [[pos|e] nodes2].
    + destruct IH as (Hok2 & Hg2 & Hd2 & ->). split; [done|]. split; [by intros j Hj; apply Hg2, Hg1|]. split.
      * intros k [->|Hk]%elem_of_cons; [|by apply Hd2]. split; [by apply Hg2|done].
      * rewrite filter_cons, Z.gtb_ltb. destruct (Z.ltb_spec 0 (tot amount c)).
        -- rewrite decide_True by done. by rewrite <- app_assoc.
        -- by rewrite decide_False by lia.
    + destruct IH as [He (k & Hk & Hm)]. split; [done|]. exists k. split; [by right|done].
Qed.

Lemma add_children_spec nodes e L : (∀ k, k ∈ L → done_at nodes k ∧ tot amount k <= MaxInt64) → ∀ a c, 0 <= a <= MaxInt64 →
  add_children nodes e L a c =
  if decide (a + lsum (tot amount <$> L) <= MaxInt64) then Ok (a + lsum (tot amount <$> L), c + lsum (tot count <$> L)) else Err e.
Proof.
  induction L as [|k L IH]; intros Hd a c Ha; cbn [add_children].
  - rewrite decide_True by (cbn; lia). cbn. do 2 f_equal; lia.
  - destruct (Hd k (list_elem_of_here _ _)) as [Hk Hm]. rewrite (done_amount _ _ Hk), !fmap_cons, !lsum_cons.
    pose proof (tot_nonneg k) as H0.
    assert (0 <= lsum (tot amount <$> L)) as HL.
    { rewrite <- (lsum_zero (λ _ : nat, 0) L) at 1 by by apply Forall_true. apply lsum_le, Forall_true. intros. apply tot_nonneg. }
    rewrite CheckedAddInt64_cases by (unfold int64, MinInt64, MaxInt64 in *; lia). case_decide as Hi.
    + assert (default 0 (sn_count <$> nodes !! k) = tot count k) as -> by (destruct Hk as (x & -> & Hx); apply Hx).
      rewrite IH; [|by intros j Hj; apply Hd; right|unfold int64, MinInt64 in Hi; lia]. rewrite <- !Z.add_assoc. done.
    + rewrite decide_False; [done|]. unfold int64, MinInt64, MaxInt64 in *. lia.
Qed.

Lemma child_level d k : d ∈ data → k ∈ child_idx data (Some (sd_id d)) n →
  ∃ dk, data !! k = Some dk ∧ sd_level dk = sd_level d + 1.
Proof.
  intros Hd (_ & dk & Hdk & Ep)%elem_of_child_idx. exists dk. split; [done|].
  destruct (do_row _ _ _ _ Hdata dk) as (t & Ht & _ & -> & E & _); [by eapply list_elem_of_lookup_2|].
  destruct (do_row _ _ _ _ Hdata d Hd) as (u & Hu & _ & -> & _). pose proof (Hlevel _ _ Ht) as H. rewrite <- E, Ep in H.
  destruct H as (q & Hq & ->). by simplify_eq.
Qed.

Lemma tot_positive f d : (∀ k, tot amount k = 0 → tot f k = 0) →
  lsum (tot f <$> positive_children d) = lsum (tot f <$> child_idx data (Some (sd_id d)) n).
Proof. intros Hf. apply lsum_positive; [intros; apply tot_nonneg|by auto]. Qed.

(** The node that is written. *)
Lemma rolled_node i d P nodes : data !! i = Some d → P ≡ₚ positive_children d → (∀ k, k ∈ P → done_at nodes k) →
  StronglySorted (λ a b, tot amount b <= tot amount a) P → ok_nodes nodes →
  let nodes' := <[i := SumNode d (sd_amount d + lsum (tot amount <$> P)) (sd_count d + lsum (tot count <$> P)) P]> nodes in
  ok_nodes nodes' ∧ grows nodes nodes' ∧ done_at nodes' i.
Proof.
  intros Hi HP HPd Hs (Hlen & Hok & Hcl). assert (i < length nodes)%nat as Hlt by (rewrite Hlen; by eapply lookup_lt_Some).
  destruct (do_row _ _ _ _ Hdata d ltac:(by eapply list_elem_of_lookup_2)) as (t & _ & _ & _ & _ & Ha & Hc).
  assert (done_node i (SumNode d (sd_amount d + lsum (tot amount <$> P)) (sd_count d + lsum (tot count <$> P)) P)) as Hd.
  { constructor; cbn; [done| | |done|done].
    - rewrite (tot_children _ _ _ Hi), HP, tot_positive, Ha by done. done.
    - rewrite (tot_children _ _ _ Hi), HP, tot_positive, Hc by apply tot_zero. done. }
  set (nodes' := <[i := _]> nodes).
  assert (grows nodes nodes') as Hg.
  { intros j (x & Hx & Hdx). destruct (decide (i = j)) as [<-|Hne].
    - eexists. split; [by apply list_lookup_insert_eq|done].
    - exists x. split; [|done]. unfold nodes'. by rewrite list_lookup_insert_ne. }
  cbn zeta. split; [|split; [done|]].
  - split; [unfold nodes'; by rewrite length_insert|]. split.
    + intros j x [(<- & <- & _)|[Hne Hj]]%list_lookup_insert_Some; [|by apply Hok]. split; [done|by right].
    + intros j x k [(<- & <- & _)|[Hne Hj]]%list_lookup_insert_Some Hdx Hk; [by apply Hg, HPd|]. apply Hg. by eapply Hcl.
  - eexists. split; [by apply list_lookup_insert_eq|done].
Qed.

Context (Hdirect : ∀ d, d ∈ data → sd_amount d <= MaxInt64).

Lemma rollupNode_spec fuel : ∀ i d nodes, data !! i = Some d → 4 <= sd_level d + Z.of_nat fuel → ok_nodes nodes →
  rolled i (rollupNode sort_Slice fuel i nodes) nodes.
Proof.
  induction fuel as [|fuel IH]; intros i d nodes Hi Hf Hok; assert (d ∈ data) as Hd by (by eapply list_elem_of_lookup_2).
  { pose proof (fd_range _ data_forest d Hd). lia. }
  cbn [rollupNode]. unfold mbind at 1, stm_bind at 1, gets at 1.
  destruct (lookup_lt_is_Some_2 nodes i) as [x Hx]; [destruct Hok as [-> _]; by eapply lookup_lt_Some|]. rewrite Hx.
  destruct (proj1 (proj2 Hok) _ _ Hx) as [Hdx Hch]. rewrite Hi in Hdx. injection Hdx as Hdx. rewrite <- Hdx in *.
  set (L := sn_children x).
  assert (filter (λ k, 0 < tot amount k) L ≡ₚ positive_children d) as HL.
  { unfold L. destruct Hch as [-> |Hdone]; [done|]. pose proof (dn_children _ _ Hdone) as Hc. rewrite <- Hdx in Hc. rewrite Hc. unfold positive_children.
    rewrite list_filter_filter_l; [done|tauto]. }
  assert (∀ k, k ∈ L → k ∈ child_idx data (Some (sd_id d)) n) as Hsub.
  { intros k. unfold L. destruct Hch as [-> |Hdone]; [done|]. rewrite (dn_children _ _ Hdone), <- Hdx. intros Hk. by apply list_elem_of_filter in Hk as [_ ?]. }
  pose proof (roll_children_spec (rollupNode sort_Slice fuel) L) as HR.
  specialize (HR ltac:(intros k nodes' Hk Hok'; destruct (child_level d k Hd (Hsub k Hk)) as (dk & Hdk & El); apply (IH k dk); [done|lia|done]) [] nodes Hok).
  unfold mbind at 1, stm_bind at 1. destruct (roll_children _ L [] nodes) as [[pos|e] nodes1].
  2:{ destruct HR as [He (k & Hk & Hm)]. split; [done|]. pose proof (tot_child_le i d k Hi (Hsub k Hk)). lia. }
  destruct HR as (Hok1 & Hg & Hdone & ->). cbn [app]. unfold mbind at 1, stm_bind at 1, gets at 1. cbn beta iota zeta delta [id].
  set (P := sort_Slice (amount_at nodes1) (filter (λ k, 0 < tot amount k) L)).
  assert (P ≡ₚ positive_children d) as HP by (unfold P; by rewrite Hperm).
  assert (∀ k, k ∈ P → done_at nodes1 k ∧ tot amount k <= MaxInt64) as HPd.
  { intros k. unfold P. rewrite Hperm, list_elem_of_filter. intros [_ Hk]. by apply Hdone. }
  destruct (do_row _ _ _ _ Hdata d Hd) as (t & _ & _ & _ & _ & Ha & _).
  assert (sd_amount d + lsum (tot amount <$> P) = tot amount i) as Et by (rewrite (tot_children _ _ _ Hi), HP, tot_positive, Ha; done).
  unfold mbind at 1, stm_bind at 1, lift. rewrite (add_children_spec _ _ _ HPd) by (pose proof (Hdirect d Hd); rewrite Ha; specialize (Hamount (sd_id d)); lia).
  case_decide as Hm; cbn [rolled modify].
  - destruct (rolled_node i d P nodes1 Hi HP) as (H1 & H2 & H3); [by intros k Hk; apply HPd| |done|].
    + apply (sorted_agree (amount_at nodes1)); [|apply Hsort]. intros k Hk. by apply done_amount, HPd.
    + split; [done|]. split; [by intros j Hj; apply H2, Hg|]. split; [done|lia].
  - split; [by eauto|lia].
Qed.

Lemma linked_ok : ok_nodes (sf_nodes (linked data n)).
Proof.
  cbn. split; [by rewrite length_fmap|]. split.
  - intros j x. rewrite list_lookup_fmap. destruct (data !! j) as [d|] eqn:Ed; cbn; intros [= <-]. split; [done|by left].
  - intros j x k. rewrite list_lookup_fmap. destruct (data !! j) as [d|] eqn:Ed; cbn; intros [= <-]. intros [_ Ha _ Hc _] Hk.
    rewrite Hc in Hk. unfold positive_children in Hk. apply list_elem_of_filter in Hk as [Hk1 Hk2]. cbn in *.
    pose proof (tot_child_le j d k Ed Hk2). lia.
Qed.

Definition grand : Z := msum (λ h _, amount h) m.

Lemma root_level k : k ∈ child_idx data None n → ∃ d, data !! k = Some d ∧ sd_level d = 1.
Proof.
  intros (_ & d & Hd & Ep)%elem_of_child_idx. exists d. split; [done|].
  pose proof (fd_level _ data_forest d ltac:(by eapply list_elem_of_lookup_2)) as H. by rewrite Ep in H.
Qed.

Lemma root_le k : k ∈ child_idx data None n → tot amount k <= grand.
Proof.
  intros Hk. unfold grand. rewrite <- tot_roots. apply elem_of_Permutation in Hk as [l ->]. rewrite fmap_cons, lsum_cons.
  assert (0 <= lsum (tot amount <$> l)); [|lia]. rewrite <- (lsum_zero (λ _ : nat, 0) l) at 1 by by apply Forall_true.
  apply lsum_le, Forall_true. intros. apply tot_nonneg.
Qed.

Lemma rollup_spec :
  match rollup sort_Slice (linked data n) with
  | Ok (f, total) => total = grand ∧ grand <= MaxInt64 ∧ ok_nodes (sf_nodes f) ∧ (∀ k, k ∈ sf_roots f → done_at (sf_nodes f) k) ∧
      sf_roots f ≡ₚ filter (λ k, 0 < tot amount k) (child_idx data None n) ∧
      StronglySorted (λ a b, tot amount b <= tot amount a) (sf_roots f)
  | Err e => (e = ESumTotal ∨ ∃ g, e = ESumRollup g) ∧ MaxInt64 < grand
  end.
Proof.
  unfold rollup. set (R := sf_roots (linked data n)). assert (R = child_idx data None n) as HR by done.
  pose proof (roll_children_spec (rollupNode sort_Slice maxTagDepth) R) as H.
  specialize (H ltac:(intros k nodes' Hk Hok'; rewrite HR in Hk; destruct (root_level k Hk) as (d & Hd & El);
    apply (rollupNode_spec maxTagDepth k d); [done|rewrite El; unfold maxTagDepth; lia|done]) [] _ linked_ok).
  destruct (roll_children _ R [] _) as [[pos|e] nodes].
  2:{ destruct H as [He (k & Hk & Hm)]. split; [by right|]. rewrite HR in Hk. pose proof (root_le k Hk). lia. }
  destruct H as (Hok & _ & Hdone & ->). cbn [app]. set (P := sort_Slice (amount_at nodes) (filter (λ k, 0 < tot amount k) R)).
  assert (∀ k, k ∈ P → done_at nodes k ∧ tot amount k <= MaxInt64) as HPd.
  { intros k. unfold P. rewrite Hperm, list_elem_of_filter. intros [_ Hk]. by apply Hdone. }
  assert (P ≡ₚ filter (λ k, 0 < tot amount k) R) as HP by (unfold P; by rewrite Hperm).
  assert (lsum (tot amount <$> P) = grand) as Eg.
  { unfold grand. rewrite <- tot_roots, HP, HR. apply lsum_positive; [intros; apply tot_nonneg|done]. }
  rewrite (add_children_spec _ _ _ HPd) by (unfold MaxInt64; lia). rewrite Eg. case_decide as Hm; cbn [mbind res_bind].
  - split; [cbn; lia|]. split; [lia|]. split; [done|]. split; [by intros k Hk; apply HPd|]. split; [done|].
    apply (sorted_agree (amount_at nodes)); [|apply Hsort]. intros k Hk. by apply done_amount, HPd.
  - split; [by left|lia].
Qed.

(** ** The answer *)
Definition id_at (k : nat) : Z := from_option sd_id 0 (data !! k).

(** An answer node by node. *)
Definition answers (total : Z) (nodes : list tagSummaryNode) (k : nat) (s : TagSummary) : Prop :=
  ∃ x children, nodes !! k = Some x ∧ done_node k x ∧ s = summary_of_node total x children ∧
    shows m amount count total (Some (sd_id (sn_data x))) children.

Lemma materialize_loop_spec rec total nodes idxs :
  (∀ k x r, k ∈ idxs → nodes !! k = Some x → done_node k x → ∃ l, rec (sn_children x) r = (Ok l, r) ∧ shows m amount count total (Some (sd_id (sn_data x))) l) →
  (∀ k, k ∈ idxs → done_at nodes k) →
  ∀ acc r, ∃ l, materialize_loop rec nodes total 0 idxs acc r = (Ok (acc ++ l), r) ∧ Forall2 (answers total nodes) idxs l.
Proof.
  induction idxs as [|k idxs IH]; intros Hrec Hd acc r; cbn [materialize_loop].
  - exists []. rewrite app_nil_r. split; [done|constructor].
  - unfold mbind, stm_bind, gets, mret, stm_ret. cbn beta iota zeta delta [Z.gtb Z.compare andb].
    destruct (Hd k (list_elem_of_here _ _)) as (x & Hx & Hdx). rewrite Hx.
    destruct (Hrec k x r (list_elem_of_here _ _) Hx Hdx) as (children & -> & Hs).
    destruct (IH (λ j y r' Hj, Hrec j y r' (list_elem_of_further _ _ _ Hj)) (λ j Hj, Hd j (list_elem_of_further _ _ _ Hj))
      (acc ++ [summary_of_node total x children]) r) as (l & -> & Hl).
    exists (summary_of_node total x children :: l). rewrite <- app_assoc. split; [done|]. constructor; [|done]. by exists x, children.
Qed.

Lemma sorted_of_fmap {A B} (F : A → B) (R : relation B) l : StronglySorted R (F <$> l) → StronglySorted (λ a b, R (F a) (F b)) l.
Proof.
  induction l as [|a l IH]; intros Hs; [constructor|]. apply StronglySorted_inv in Hs as [Hs Ha]. constructor; [by apply IH|].
  exact (proj1 (Forall_fmap _ _ _) Ha).
Qed.

Lemma answers_fmap {A} total nodes (F : TagSummary → A) (G : nat → A) idxs l : Forall2 (answers total nodes) idxs l →
  (∀ k s, answers total nodes k s → F s = G k) → F <$> l = G <$> idxs.
Proof. intros H HF. induction H as [|k s idxs l Hk _ IH]; [done|]. rewrite !fmap_cons, IH. f_equal. by apply HF. Qed.

Lemma answers_shows total nodes p idxs l : 0 < total →
  idxs ≡ₚ filter (λ k, 0 < tot amount k) (child_idx data p n) → StronglySorted (λ a b, tot amount b <= tot amount a) idxs →
  Forall2 (answers total nodes) idxs l → shows m amount count total p l.
Proof.
  intros Ht Hp Hs Hl.
  assert (ts_id <$> l = id_at <$> idxs) as Eid.
  { apply (answers_fmap total nodes); [done|]. intros k s (x & ch & _ & Hd & -> & _). cbn. unfold id_at. by rewrite (dn_data _ _ Hd). }
  assert (∀ s, s ∈ l → ∃ k, k ∈ idxs ∧ answers total nodes k s) as Hin.
  { intros s Hin%list_elem_of_lookup_1. destruct Hin as [i Hi]. destruct (Forall2_lookup_r _ _ _ _ _ Hl Hi) as (k & Hk & Ha).
    exists k. split; [by eapply list_elem_of_lookup_2|done]. }
  assert (∀ k, k ∈ idxs → ∃ d, data !! k = Some d ∧ sd_parent d = p ∧ 0 < tot amount k) as Hk.
  { intros k. rewrite Hp, list_elem_of_filter, elem_of_child_idx. naive_solver. }
  constructor.
  - assert (ts_amount <$> l = tot amount <$> idxs) as Ea.
    { apply (answers_fmap total nodes); [done|]. intros k s (x & ch & _ & Hd & -> & _). apply Hd. }
    apply (sorted_of_fmap ts_amount (λ a b : Z, b <= a)). rewrite Ea. by eapply fmap_sorted; [exact Hs|].
  - rewrite Eid. apply NoDup_fmap_2_strong; [|rewrite Hp; apply NoDup_filter, NoDup_child_idx].
    intros k1 k2 (d1 & H1 & _)%Hk (d2 & H2 & _)%Hk. unfold id_at. rewrite H1, H2. cbn. intros E.
    apply (NoDup_lookup _ k1 k2 (sd_id d1) (fd_ids _ data_forest)); rewrite list_lookup_fmap; [by rewrite H1|by rewrite H2, E].
  - intros g. rewrite Eid, list_elem_of_fmap. split.
    + intros (k & -> & (d & Hd & Ep & Hpos)%Hk). unfold id_at. rewrite Hd. cbn.
      destruct (do_row _ _ _ _ Hdata d) as (t & Htag & _ & _ & E & _); [by eapply list_elem_of_lookup_2|]. exists t. split_and!; [done|congruence|].
      unfold tot in Hpos. by rewrite Hd in Hpos.
    + intros (t & Htag & Ep & Hpos). assert (g ∈ sd_id <$> data) as (d & -> & [k Hd]%list_elem_of_lookup_1)%list_elem_of_fmap.
      { rewrite (do_ids _ _ _ _ Hdata). apply list_elem_of_fmap. exists (g, t). split; [done|]. by apply elem_of_map_to_list. }
      exists k. unfold id_at. rewrite Hd. split; [done|]. rewrite Hp. apply list_elem_of_filter. unfold tot. rewrite Hd. split; [done|].
      apply elem_of_child_idx. split; [by eapply lookup_lt_Some|]. exists d. split; [done|].
      destruct (do_row _ _ _ _ Hdata d) as (t' & Htag' & _ & _ & E & _); [by eapply list_elem_of_lookup_2|]. by simplify_eq.
  - intros s (k & _ & x & ch & Hx & Hd & -> & Hch)%Hin.
    destruct (do_row _ _ _ _ Hdata (sn_data x)) as (t & Htag & Hnm & _); [eapply list_elem_of_lookup_2, Hd|].
    assert (∀ f, tot f k = subtotal m f (sd_id (sn_data x))) as Et by (intros f; unfold tot; by rewrite (dn_data _ _ Hd)).
    exists t. constructor; cbn; [done|done| |done| |].
    + by rewrite (dn_amount _ _ Hd).
    + by rewrite (dn_count _ _ Hd).
    + by rewrite (proj2 (Z.gtb_lt total 0) Ht).
  - by intros s (k & _ & x & ch & Hx & Hd & -> & Hch)%Hin.
Qed.

Lemma materializeIndexes_spec total nodes : 0 < total → ok_nodes nodes → ∀ fuel k x r,
  nodes !! k = Some x → done_node k x → 3 <= sd_level (sn_data x) + Z.of_nat fuel →
  ∃ l, materializeIndexes fuel nodes total 0 (sn_children x) r = (Ok l, r) ∧ shows m amount count total (Some (sd_id (sn_data x))) l.
Proof.
  intros Ht (Hlen & Hok & Hcl). induction fuel as [|fuel IH]; intros k x r Hx Hd Hf; cbn [materializeIndexes].
  - assert (sn_children x = []) as Ec.
    { apply elem_of_nil_inv. intros j Hj. rewrite (dn_children _ _ Hd) in Hj. apply list_elem_of_filter in Hj as [_ Hj].
      destruct (child_level (sn_data x) j) as (dj & Hdj & El); [eapply list_elem_of_lookup_2, Hd|done|].
      pose proof (fd_range _ data_forest dj ltac:(by eapply list_elem_of_lookup_2)). lia. }
    rewrite Ec. exists []. split; [done|].
    apply (answers_shows total nodes _ (sn_children x)); [done|apply Hd|apply Hd|]. rewrite Ec. constructor.
  - destruct (materialize_loop_spec (materializeIndexes fuel nodes total 0) total nodes (sn_children x)) with (acc := @nil TagSummary) (r := r) as (l & E & Hl).
    + intros j y r' Hj Hy Hdy. apply (IH j); [done..|]. rewrite (dn_children _ _ Hd) in Hj. apply list_elem_of_filter in Hj as [_ Hj].
      destruct (child_level (sn_data x) j) as (dj & Hdj & El); [eapply list_elem_of_lookup_2, Hd|done|].
      rewrite (dn_data _ _ Hdy) in Hdj. injection Hdj as ->. lia.
    + intros j Hj. by eapply Hcl.
    + exists l. split; [done|]. by apply (answers_shows total nodes _ (sn_children x)); [|apply Hd|apply Hd|].
Qed.

(** Roll-up and answer of a linked forest. *)
Lemma summary_spec :
  match f ← rollup sort_Slice (linked data n); materialize f.1 f.2 0 with
  | Ok (l, truncated) => shows m amount count grand None l ∧ truncated = false ∧ grand <= MaxInt64
  | Err e => (e = ESumTotal ∨ ∃ g, e = ESumRollup g) ∧ MaxInt64 < grand
  end.
Proof.
  pose proof rollup_spec as H. destruct (rollup sort_Slice (linked data n)) as [[[nodes roots] total]|e]; cbn [mbind res_bind]; [|done].
  cbn [sf_nodes sf_roots] in H. destruct H as (-> & Hm & Hok & Hd & Hp & Hs). unfold materialize. cbn [sf_nodes sf_roots fst snd].
  change (0 >? 0) with false. cbn [mbind res_bind].
  assert (∃ l, materializeIndexes maxTagDepth nodes grand 0 roots 0 = (Ok l, 0) ∧ shows m amount count grand None l) as (l & -> & Hl); [|done].
  destruct (decide (0 < grand)) as [Hg|Hg].
  - destruct (materialize_loop_spec (materializeIndexes 2 nodes grand 0) grand nodes roots) with (acc := @nil TagSummary) (r := 0) as (l & E & Hl).
    + intros k x r Hk Hx Hdx. apply (materializeIndexes_spec grand nodes Hg Hok 2 k); [done..|].
      pose proof (fd_range _ data_forest (sn_data x) ltac:(eapply list_elem_of_lookup_2, Hdx)). lia.
    + done.
    + exists l. split; [done|]. by apply (answers_shows grand nodes _ roots).
  - assert (roots = []) as ->.
    { apply elem_of_nil_inv. intros k. rewrite Hp, list_elem_of_filter. intros [H0 Hk]. pose proof (root_le k Hk). lia. }
    exists []. split; [done|]. constructor; [constructor|constructor| |by intros s ?%not_elem_of_nil..].
    intros g. split; [by intros ?%not_elem_of_nil|]. intros (t & Htag & Ep & Hpos). exfalso. apply Hg.
    unfold grand. rewrite <- (subtotal_roots m Hlevel Hrange amount).
    rewrite (msum_delete _ _ _ _ Htag), decide_True by done.
    assert (0 <= msum (λ c u, if decide (tag_parent u = None) then subtotal m amount c else 0) (delete g m)); [|lia].
    apply msum_nonneg. intros c u _. case_decide; [|lia]. apply msum_nonneg. intros h _ _. case_decide; [done|lia].
Qed.
End RollupProof.

(** * The scan *)
(** The direct amount and count of a tag: the labelled transactions that match. *)
Definition tag_amount (date_text : Z → string) (f : tag_filter) (db : ledger) (g : Z) : Z :=
  msum (λ n r, if decide ((n, g) ∈ transaction_tags db ∧ matched date_text f db n r = true) then effective_amount db n r else 0) (transactions db).
Definition tag_count (date_text : Z → string) (f : tag_filter) (db : ledger) (g : Z) : Z :=
  msum (λ n r, if decide ((n, g) ∈ transaction_tags db ∧ matched date_text f db n r = true) then 1 else 0) (transactions db).

Lemma lsum_dom {A} (m : gmap Z A) (F : Z → Z) l : NoDup l → (∀ x, x ∈ l → m !! x = None → F x = 0) →
  lsum (F <$> l) = msum (λ n _, if decide (n ∈ l) then F n else 0) m.
Proof.
  intros Hnd H0. unfold msum.
  rewrite (lsum_ext _ (λ p : Z * A, lsum ((λ x, if decide (p.1 = x) then F p.1 else 0) <$> l))).
  2:{ apply Forall_true. intros [n x]. cbn. case_decide as Hn; [by rewrite lsum_pick|]. symmetry. apply lsum_zero, Forall_forall.
      intros y Hy. rewrite decide_False; [done|]. by intros ->. }
  rewrite (lsum_swap (λ (p : Z * A) x, if decide (p.1 = x) then F p.1 else 0)). apply lsum_ext, Forall_forall. intros x Hx. symmetry.
  transitivity (msum (λ n _, if decide (n = x) then F n else 0) m); [apply lsum_ext, Forall_true; by intros []|]. destruct (m !! x) as [y|] eqn:Ex.
  - rewrite (msum_one _ _ x y Ex); [by rewrite decide_True|]. intros. by rewrite decide_False.
  - rewrite (H0 x Hx Ex). apply msum_none. intros n z Hn. rewrite decide_False; [done|]. by intros ->; congruence.
Qed.

Section Scan.
Context (date_text : Z → string) (f : tag_filter) (db : ledger) (limit : Z).
Context (Hpos : amounts_int64 db).

Definition row_amount (o : option (Z * Z)) : Z := from_option snd 0 o.
Definition row_count (o : option (Z * Z)) : Z := match o with Some _ => 1 | None => 0 end.

Lemma elem_of_labels g x : x ∈ labels_of db g ↔ (x, g) ∈ transaction_tags db.
Proof.
  unfold labels_of. rewrite list_elem_of_fmap. split.
  - intros ([n g'] & -> & [Hg Hin%elem_of_elements]%list_elem_of_filter). cbn in *. by subst.
  - intros Hin. exists (x, g). split; [done|]. apply list_elem_of_filter. split; [done|]. by apply elem_of_elements.
Qed.
Lemma NoDup_labels g : NoDup (labels_of db g).
Proof.
  unfold labels_of. apply NoDup_fmap_2_strong; [|apply NoDup_filter, NoDup_elements].
  intros [] [] [E1 _]%list_elem_of_filter [E2 _]%list_elem_of_filter E. cbn in *. by subst.
Qed.

Lemma labels_amount g : lsum ((λ n, row_amount (joined date_text f db n)) <$> labels_of db g) = tag_amount date_text f db g.
Proof.
  rewrite (lsum_dom (transactions db)); [|apply NoDup_labels|by intros x _ Hx; unfold joined; rewrite Hx].
  apply msum_ext. intros n r Hn. unfold joined. rewrite Hn. cbn.
  destruct (matched date_text f db n r); repeat case_decide; rewrite ?elem_of_labels in *; naive_solver.
Qed.
Lemma labels_count g : lsum ((λ n, row_count (joined date_text f db n)) <$> labels_of db g) = tag_count date_text f db g.
Proof.
  rewrite (lsum_dom (transactions db)); [|apply NoDup_labels|by intros x _ Hx; unfold joined; rewrite Hx].
  apply msum_ext. intros n r Hn. unfold joined. rewrite Hn. cbn.
  destruct (matched date_text f db n r); repeat case_decide; rewrite ?elem_of_labels in *; naive_solver.
Qed.

(** The rows of one tag and what the scan makes of them. *)
Definition rows_amount (L : list (option (Z * Z))) : Z := lsum (row_amount <$> L).
Definition data_with (x : Z * tagrow) (a c : Z) : tagSummaryData := SumData x.1 (tag_name x.2) (tag_level x.2) (tag_parent x.2) a c.

Lemma joined_range n : 0 <= row_amount (joined date_text f db n) <= MaxInt64.
Proof.
  unfold joined. destruct (transactions db !! n) as [r|] eqn:E; cbn; [|unfold MaxInt64; lia].
  destruct (matched _ _ _ _ _); cbn; [|unfold MaxInt64; lia]. specialize (Hpos _ _ E). lia.
Qed.

Lemma scan_known x idx pre rest L : idx !! x.1 = Some (length pre) → Forall (λ o, 0 <= row_amount o <= MaxInt64) L →
  ∀ a c, 0 <= a <= MaxInt64 →
  scan limit ((pair x <$> L) ++ rest) (pre ++ [data_with x a c]) idx =
  if decide (a + rows_amount L <= MaxInt64) then scan limit rest (pre ++ [data_with x (a + rows_amount L) (c + lsum (row_count <$> L))]) idx
  else Err (ESumDirect x.1).
Proof.
  intros Hx. unfold rows_amount. induction 1 as [|o L Ho HL IH]; intros a c Ha.
  - rewrite decide_True by (cbn; lia). cbn. by rewrite !Z.add_0_r.
  - rewrite !fmap_cons, !lsum_cons, <- app_comm_cons. cbn [scan]. rewrite Hx. cbn [mbind res_bind].
    destruct o as [[t v]|]; cbn [row_amount row_count from_option snd] in *.
    2:{ rewrite IH by done. by rewrite !Z.add_0_l. }
    rewrite lookup_app_r, Nat.sub_diag by lia. cbn [lookup list_lookup]. unfold add_amount. cbn [sd_amount data_with sd_id sd_name sd_level sd_parent sd_count].
    assert (0 <= lsum (row_amount <$> L)) as HL0.
    { rewrite <- (lsum_zero (λ _ : option (Z * Z), 0) L) at 1 by by apply Forall_true. apply lsum_le. eapply Forall_impl; [exact HL|]. cbn. lia. }
    rewrite CheckedAddInt64_cases by (unfold int64, MinInt64, MaxInt64 in *; lia). case_decide as Hi; cbn [mbind res_bind].
    + rewrite insert_app_r_alt, Nat.sub_diag by lia. cbn [insert list_insert].
      change (SumData x.1 (tag_name x.2) (tag_level x.2) (tag_parent x.2) (a + v) (c + 1)) with (data_with x (a + v) (c + 1)).
      rewrite IH by (unfold int64, MinInt64 in Hi; lia). by rewrite !Z.add_assoc.
    + rewrite decide_False; [done|]. unfold int64, MinInt64, MaxInt64 in *. lia.
Qed.

Lemma scan_new x idx pre t rest : idx !! x.1 = None → (limit <= 0 ∨ Z.of_nat (length pre) < limit) →
  scan limit ((x, t) :: rest) pre idx = scan limit ((x, t) :: rest) (pre ++ [data_with x 0 0]) (<[x.1 := length pre]> idx).
Proof.
  intros Hx Hl. cbn [scan]. rewrite Hx, lookup_insert_eq. cbn [mbind res_bind].
  assert ((limit >? 0) && (Z.of_nat (length pre) >=? limit) = false) as ->.
  { rewrite Z.gtb_ltb, Z.geb_leb. destruct (Z.ltb_spec 0 limit), (Z.leb_spec limit (Z.of_nat (length pre))); cbn; try done. lia. }
  done.
Qed.

Lemma scan_tag x idx pre rest : idx !! x.1 = None → (limit <= 0 ∨ Z.of_nat (length pre) < limit) →
  scan limit (tag_rows date_text f db x ++ rest) pre idx =
  if decide (tag_amount date_text f db x.1 <= MaxInt64)
  then scan limit rest (pre ++ [data_with x (tag_amount date_text f db x.1) (tag_count date_text f db x.1)]) (<[x.1 := length pre]> idx)
  else Err (ESumDirect x.1).
Proof.
  intros Hx Hl. unfold tag_rows. rewrite <- labels_amount, <- labels_count.
  set (L := joined_rows date_text f db x.1).
  assert (rows_amount L = lsum ((λ n, row_amount (joined date_text f db n)) <$> labels_of db x.1) ∧
    lsum (row_count <$> L) = lsum ((λ n, row_count (joined date_text f db n)) <$> labels_of db x.1) ∧
    Forall (λ o, 0 <= row_amount o <= MaxInt64) L ∧ L ≠ [])
    as (<- & <- & HF & HL).
  { unfold L, rows_amount, joined_rows. destruct (labels_of db x.1) as [|l ls].
    - split_and!; [done..| |done]. constructor; [cbn; unfold MaxInt64; lia|constructor].
    - split_and!; [rewrite merge_sort_Permutation, <- list_fmap_compose; done..| |].
      + rewrite merge_sort_Permutation. apply Forall_fmap, Forall_true. intros. apply joined_range.
      + intros E. apply (f_equal length) in E. rewrite merge_sort_Permutation in E. done. }
  destruct L as [|o L]; [done|]. rewrite fmap_cons, <- app_comm_cons, scan_new by done.
  rewrite app_comm_cons, <- fmap_cons, scan_known; [|by rewrite lookup_insert_eq|done|unfold MaxInt64; lia]. by rewrite !Z.add_0_l.
Qed.

Lemma scan_tags xs : NoDup xs.*1 → ∀ idx pre, (∀ x, x ∈ xs → idx !! x.1 = None) →
  (limit <= 0 ∨ Z.of_nat (length pre + length xs) <= limit) →
  match scan limit (xs ≫= tag_rows date_text f db) pre idx with
  | Ok data => data = pre ++ ((λ x, data_with x (tag_amount date_text f db x.1) (tag_count date_text f db x.1)) <$> xs) ∧
      ∀ x, x ∈ xs → tag_amount date_text f db x.1 <= MaxInt64
  | Err e => ∃ x, x ∈ xs ∧ e = ESumDirect x.1 ∧ MaxInt64 < tag_amount date_text f db x.1
  end.
Proof.
  induction xs as [|x xs IH]; intros Hnd idx pre Hidx Hl; cbn [mbind list_bind].
  - cbn. rewrite app_nil_r. split; [done|]. by intros x ?%not_elem_of_nil.
  - rewrite fmap_cons in Hnd. apply NoDup_cons in Hnd as [Hx Hnd]. cbn [length] in Hl. rewrite scan_tag; [|apply Hidx; left|lia].
    case_decide as Hm.
    2:{ exists x. split_and!; [left|done|lia]. }
    specialize (IH Hnd (<[x.1 := length pre]> idx) (pre ++ [data_with x (tag_amount date_text f db x.1) (tag_count date_text f db x.1)])).
    change (mbind (tag_rows date_text f db) xs) with (xs ≫= tag_rows date_text f db) in *.
    destruct (scan limit (xs ≫= tag_rows date_text f db) _ _) as [data|e].
    + destruct IH as [-> IH]; [|rewrite length_app; cbn; lia|].
      * intros y Hy. rewrite lookup_insert_ne; [apply Hidx; by right|]. intros E. apply Hx. rewrite E. by apply list_elem_of_fmap_2.
      * rewrite <- app_assoc. split; [done|]. intros y [->|Hy]%elem_of_cons; auto.
    + destruct IH as (y & Hy & H); [|rewrite length_app; cbn; lia|].
      * intros y Hy. rewrite lookup_insert_ne; [apply Hidx; by right|]. intros E. apply Hx. rewrite E. by apply list_elem_of_fmap_2.
      * exists y. split; [by right|done].
Qed.
End Scan.

(** * The summary *)
Definition sum_overflow (e : sumerr) : Prop :=
  match e with ESumDirect _ | ESumRollup _ | ESumTotal => True | _ => False end.

Section Correct.
Context (date_text : Z → string) (f : tag_filter) (db : ledger) (scanned : Z).
Context (Hpos : amounts_int64 db) (Hscan : scanned <= 0 ∨ Z.of_nat (size (tags db)) <= scanned).

Lemma tag_amount_nonneg g : 0 <= tag_amount date_text f db g.
Proof. apply msum_nonneg. intros n r Hn. case_decide; [|lia]. specialize (Hpos _ _ Hn). lia. Qed.
Lemma tag_count_zero g : tag_amount date_text f db g = 0 → tag_count date_text f db g = 0.
Proof.
  intros E. apply msum_none. intros n r Hn. case_decide as Hc; [|done]. exfalso. unfold tag_amount in E.
  rewrite (msum_delete _ _ _ _ Hn), decide_True in E by done. pose proof (Hpos _ _ Hn).
  assert (0 <= msum (λ n r, if decide ((n, g) ∈ transaction_tags db ∧ matched date_text f db n r = true) then effective_amount db n r else 0)
    (delete n (transactions db))); [|lia].
  apply msum_nonneg. intros n' r' [_ Hn']%lookup_delete_Some. case_decide; [|lia]. specialize (Hpos _ _ Hn'). lia.
Qed.

Definition all_amounts : Z := msum (λ g _, tag_amount date_text f db g) (tags db).

Lemma amount_le_all g t : tags db !! g = Some t → tag_amount date_text f db g <= all_amounts.
Proof.
  intros Hg. unfold all_amounts. rewrite (msum_delete _ _ _ _ Hg).
  assert (0 <= msum (λ g _, tag_amount date_text f db g) (delete g (tags db))); [|lia]. apply msum_nonneg. intros. apply tag_amount_nonneg.
Qed.

(** The scan delivers the data of the tags, or stops at an overflowing one. *)
Lemma scan_delivers :
  match scan scanned (summary_rows date_text f db) [] ∅ with
  | Ok allData => data_of (tags db) (tag_amount date_text f db) (tag_count date_text f db) (merge_sort amount_desc allData) ∧
      ∀ d, d ∈ merge_sort amount_desc allData → sd_amount d <= MaxInt64
  | Err e => sum_overflow e ∧ MaxInt64 < all_amounts
  end.
Proof.
  unfold summary_rows. set (xs := merge_sort id_le (map_to_list (tags db))).
  assert (xs ≡ₚ map_to_list (tags db)) as Hxs by apply merge_sort_Permutation.
  pose proof (scan_tags date_text f db scanned Hpos xs) as H.
  specialize (H ltac:(rewrite Hxs; apply NoDup_fst_map_to_list) ∅ [] ltac:(intros; apply lookup_empty)
    ltac:(destruct Hscan as [|Hs]; [by left|right; cbn [length Nat.add]; rewrite Hxs, length_map_to_list; done])).
  destruct (scan _ _ _ _) as [allData|e].
  - destruct H as [-> Hm]. rewrite app_nil_l. split.
    + constructor.
      * rewrite merge_sort_Permutation, <- list_fmap_compose. by rewrite <- Hxs.
      * intros d. rewrite merge_sort_Permutation. intros ([g t] & -> & Hg)%list_elem_of_fmap. rewrite Hxs in Hg. apply elem_of_map_to_list in Hg. by exists t.
    + intros d. rewrite merge_sort_Permutation. intros (x & -> & Hx)%list_elem_of_fmap. by apply Hm.
  - destruct H as ([g t] & Hg & -> & Hm). split; [done|]. rewrite Hxs in Hg. apply elem_of_map_to_list in Hg.
    pose proof (amount_le_all _ _ Hg). cbn in *. lia.
Qed.
End Correct.

(** C32. The tag summary of a well-formed ledger, with no node budget and however equal
    amounts are ordered: when the amounts of all labels together fit in an int64 it
    answers exactly the tags with a positive total, as a forest in decreasing order of
    their totals, and every total, count and ratio of a tag is that of the matching
    transactions labelled with it or with a tag below it; otherwise it reports an
    overflow. *)
Theorem tag_summary_correct date_text sort_Slice f scanned db :
  (∀ key l, sort_Slice key l ≡ₚ l) → (∀ key l, StronglySorted (λ i j, key j <= key i) (sort_Slice key l)) →
  ledger_wf db → scanned <= 0 ∨ Z.of_nat (size (tags db)) <= scanned →
  let amount := tag_amount date_text f db in
  let total := all_amounts date_text f db in
  let answer := getTagSummaryFilteredContext date_text sort_Slice f (SumOptions scanned 0) db in
  if decide (total <= MaxInt64)
  then ∃ l, answer = Ok (l, false) ∧ shows (tags db) amount (tag_count date_text f db) total None l
  else ∃ e, answer = Err e ∧ sum_overflow e.
Proof.
  intros Hperm Hsort (Htx%tx_wf_amounts & _ & (_ & Hf & _) & _) Hscan. cbn zeta. unfold getTagSummaryFilteredContext.
  cbn [maxScannedNodes maxMaterializedNodes]. pose proof (scan_delivers date_text f db scanned Htx Hscan) as Hs.
  destruct (scan _ _ _ _) as [allData|e]; cbn [mbind res_bind].
  2:{ destruct Hs as [He Hm]. rewrite decide_False by lia. by exists e. }
  destruct Hs as [Hdata Hdir]. set (data := merge_sort amount_desc allData) in *.
  pose proof (data_forest _ _ _ _ (fo_level _ _ _ Hf) (fo_range _ _ _ Hf) Hdata) as Hfd.
  pose proof (buildTagSummaryForest_exact data) as Hb. destruct (buildTagSummaryForest data) as [forest|e]; [|by destruct Hb as [[] _]].
  destruct Hb as [_ ->]. cbn [mbind res_bind].
  pose proof (summary_spec _ _ _ _ (fo_level _ _ _ Hf) (fo_range _ _ _ Hf) Hdata (tag_amount_nonneg date_text f db Htx)
    (tag_count_zero date_text f db Htx) sort_Slice Hperm Hsort Hdir) as H.
  change (grand (tags db) (tag_amount date_text f db)) with (all_amounts date_text f db) in H.
  destruct (rollup sort_Slice (linked data (length data))) as [[forest total]|e]; cbn [mbind res_bind] in *.
  - cbn [fst snd] in *. destruct (materialize forest total 0) as [[l tr]|e].
    + destruct H as (Hl & -> & Hm). rewrite decide_True by done. by exists l.
    + destruct H as [He Hm]. rewrite decide_False by lia. exists e. split; [done|]. by destruct He as [-> |[g ->]].
  - destruct H as [He Hm]. rewrite decide_False by lia. exists e. split; [done|]. by destruct He as [-> |[g ->]].
Qed.

(** A concrete [sort.Slice]. *)
Definition key_desc (key : nat → Z) (i j : nat) : Prop := key j <= key i.
#[global] Instance key_desc_dec key : RelDecision (key_desc key).
Proof. intros i j. unfold key_desc. apply _. Defined.
#[global] Instance key_desc_trans key : Transitive (key_desc key).
Proof. intros i j k. unfold key_desc. lia. Qed.
#[global] Instance key_desc_total key : Total (key_desc key).
Proof. intros i j. unfold key_desc. lia. Qed.
Definition stable_slice (key : nat → Z) (l : list nat) : list nat := merge_sort (key_desc key) l.

Lemma tag_summary_correct_witness :
  let date_text := λ _ : Z, "2026-01-02 00:00:00+00:00" in
  let f := Filter "expense" "2026-01-01" "2026-12-31" "" [] in
  let answer := getTagSummaryFilteredContext date_text stable_slice f (SumOptions 10 0) demo_final in
  (∃ l, answer = Ok (l, false) ∧ shows (tags demo_final) (tag_amount date_text f demo_final) (tag_count date_text f demo_final) (all_amounts date_text f demo_final) None l) ∧
  match answer with Ok (l, _) => (λ s, (ts_id s, ts_amount s, ts_count s)) <$> l = [(1, 450, 2)] | Err _ => False end.
Proof.
  intros date_text f answer. split; [|vm_compute; reflexivity].
  pose proof (tag_summary_correct date_text stable_slice f 10 demo_final) as H. cbn zeta in H. rewrite decide_True in H.
  - apply H; [intros; apply merge_sort_Permutation|intros; apply (StronglySorted_merge_sort (key_desc key)); apply _|exact demo_final_wf|right; vm_compute; discriminate].
  - vm_compute. discriminate.
Defined.

(** With a node budget, materializing the rolled-up forest gives what
    [truncateTagSummaries] leaves of the complete answer, in the same order and with
    unchanged totals, and the truncation flag is set exactly when the complete answer
    has more nodes than the budget. *)
Theorem tag_summary_budget date_text sort_Slice f scanned db budget full truncated :
  0 < budget →
  getTagSummaryFilteredContext date_text sort_Slice f (SumOptions scanned 0) db = Ok (full, truncated) →
  getTagSummaryFilteredContext date_text sort_Slice f (SumOptions scanned budget) db =
  Ok ((truncateTagSummaries full budget).1, countTagSummaries full 0 >? budget).
Proof.
  intros Hb. unfold getTagSummaryFilteredContext. cbn [maxScannedNodes maxMaterializedNodes].
  intros (allData & -> & (forest & E & ([[nodes roots] total] & Er & Hm)%res_bind_Ok_inv)%res_bind_Ok_inv)%res_bind_Ok_inv.
  cbn [mbind res_bind]. rewrite E. cbn [mbind res_bind]. rewrite Er. cbn [mbind res_bind fst snd] in *. by eapply materialize_budget.
Qed.

Lemma tag_summary_budget_witness :
  let date_text := λ _ : Z, "2026-01-02 00:00:00+00:00" in
  let f := Filter "expense" "" "" "" [] in
  match getTagSummaryFilteredContext date_text stable_slice f (SumOptions 0 0) demo_final with
  | Ok (full, _) => getTagSummaryFilteredContext date_text stable_slice f (SumOptions 0 1) demo_final =
      Ok ((truncateTagSummaries full 1).1, true)
  | Err _ => False
  end.
Proof.
  intros date_text f.
  assert (∃ full, getTagSummaryFilteredContext date_text stable_slice f (SumOptions 0 0) demo_final = Ok (full, false) ∧ countTagSummaries full 0 = 2)
    as (full & E & Hc) by (eexists; split; vm_compute; reflexivity).
  rewrite E, (tag_summary_budget date_text stable_slice f 0 demo_final 1 full false), Hc; [reflexivity|lia|exact E].
Defined.
