(* ===== verification/Analysis.v ===== *)
(** The AI analysis of [core/service.go]: filters, exact totals, tag summaries and the
    details page by page under an opaque cursor.

    [datetime] is SQLite's function of that name on a stored date and [date_text] the text
    the driver stores; [Unmarshal] is the strict JSON decoding of a cursor. *)
From Stdlib Require Import ZArith Lia.
From stdpp Require Import base gmap list strings sorting.
From S2P Require Import Prelude GoText Validation Settings GoTime ImageContainers Schema Balance Tags Links Images LedgerOps Service Reports TagSummary.
Open Scope Z_scope.

Definition defaultAIAnalysisLimit : Z := 100.
Definition maxAIAnalysisLimit : Z := 500.
Definition maxAIAnalysisTagIDs : Z := 20.
Definition maxAITagSummaryScanNodes : Z := 10000.
Definition maxAITagSummaryOutputNodes : Z := 500.

Inductive anerr :=
| EAnalysisTagCount | EAnalysisTagID | EAnalysisType | EAnalysisOverflow | EAnalysisNet
| EAnalysisSummary (e : sumerr) | EAnalysisLimit | EAnalysisCursor | EAnalysisFuel.

Record AnalysisRequest := Analysis {
  an_StartDate : string; an_EndDate : string; an_Account : string; an_TagIDs : list Z; an_Type : string;
  an_IncludeTransactions : bool; an_IncludeMemo : bool; an_Limit : Z; an_Cursor : string; an_MaxTagSummaries : Z
}.
Record AITransactionDetail := Detail {
  de_ID : Z; de_Account : string; de_Date : string; de_Item : string; de_Type : string;
  de_Amount : Z; de_AmountExact : string; de_Memo : string
}.
Record AnalysisResponse := AnalysisResp {
  ar_TotalIncome : Z; ar_TotalIncomeExact : string; ar_TotalExpense : Z; ar_TotalExpenseExact : string;
  ar_NetAmount : Z; ar_NetAmountExact : string; ar_Count : Z;
  ar_TagSummaries : list TagSummary; ar_TagSummariesTruncated : bool;
  ar_Transactions : list AITransactionDetail; ar_ReturnedCount : Z; ar_NextCursor : string
}.

(** * Cursors *)
(** The JSON object with the members [date] and [id]. *)
Definition marshal_cursor (date : string) (n : Z) : list Z :=
  [123; 34; 100; 97; 116; 101; 34; 58] ++ json_string (bytes date) ++ [44; 34; 105; 100; 34; 58] ++ bytes (FormatInt n) ++ [125].
Definition encodeAIAnalysisCursor (date : string) (n : Z) : string := of_bytes (raw_encode url_char (marshal_cursor date n)).

Section Analysis.
Context (date_text datetime : Z → string) (sort_Slice : (nat → Z) → list nat → list nat).
Context (Unmarshal : list Z → option (string * Z)).

Definition decodeAIAnalysisCursor (raw : string) : res anerr (string * Z) :=
  if len raw >? 512 then Err EAnalysisCursor
  else match raw_decode_string url_value false (bytes raw) ≫= Unmarshal with
       | None => Err EAnalysisCursor
       | Some (date, n) =>
         if n <=? 0 then Err EAnalysisCursor
         else match parse_date_hms 32 [] (bytes date) with None => Err EAnalysisCursor | Some _ => Ok (date, n) end
       end.

(** * Filter and totals *)
Definition buildAIAnalysisFilter (req : AnalysisRequest) : res anerr tag_filter :=
  if Z.of_nat (length (an_TagIDs req)) >? maxAIAnalysisTagIDs then Err EAnalysisTagCount
  else if existsb (λ g, g <=? 0) (an_TagIDs req) then Err EAnalysisTagID
  else Ok (Filter (an_Type req) (an_StartDate req) (an_EndDate req) (an_Account req) (an_TagIDs req)).

Definition matching (f : tag_filter) (db : ledger) : list (Z * txrow) :=
  filter (λ x, matched date_text f db x.1 x.2 = true) (map_to_list (transactions db)).

Fixpoint aggregate (db : ledger) (rows : list (Z * txrow)) (count income expense : Z) : res anerr (Z * Z * Z) :=
  match rows with
  | [] => Ok (count, income, expense)
  | (n, r) :: rows' =>
    let amount := effective_amount db n r in
    if bool_decide (tx_type r = "income") then
      match CheckedAddInt64 income amount with Err _ => Err EAnalysisOverflow | Ok i => aggregate db rows' (count + 1) i expense end
    else if bool_decide (tx_type r = "expense") then
      match CheckedAddInt64 expense amount with Err _ => Err EAnalysisOverflow | Ok e => aggregate db rows' (count + 1) income e end
    else Err EAnalysisType
  end.

(** * Details *)
(** [ORDER BY datetime(date) DESC, id DESC] *)
Definition detail_le (x y : Z * txrow) : Prop :=
  lex_le (bytes (datetime (tx_date y.2))) (bytes (datetime (tx_date x.2))) = true ∧
  (datetime (tx_date x.2) = datetime (tx_date y.2) → y.1 <= x.1).
#[global] Instance detail_le_dec : RelDecision detail_le.
Proof. intros x y. unfold detail_le. apply _. Defined.

(** [datetime(date) < ? OR (datetime(date) = ? AND id < ?)] *)
Definition after_cursor (c : string * Z) (x : Z * txrow) : Prop :=
  (lex_le (bytes (datetime (tx_date x.2))) (bytes c.1) = true ∧ datetime (tx_date x.2) ≠ c.1) ∨
  (datetime (tx_date x.2) = c.1 ∧ x.1 < c.2).
#[global] Instance after_cursor_dec c x : Decision (after_cursor c x).
Proof. unfold after_cursor. apply _. Defined.

Definition detail_of (db : ledger) (memo : bool) (x : Z * txrow) : AITransactionDetail :=
  Detail x.1 (tx_account x.2) (datetime (tx_date x.2)) (tx_item x.2) (tx_type x.2) (effective_amount db x.1 x.2)
    (ExactInt64 (effective_amount db x.1 x.2)) (if memo then tx_memo x.2 else "").

Definition details_page (req : AnalysisRequest) (f : tag_filter) (db : ledger) : res anerr (list AITransactionDetail * string) :=
  let limit := if an_Limit req =? 0 then defaultAIAnalysisLimit else an_Limit req in
  if (limit <? 1) || (limit >? maxAIAnalysisLimit) then Err EAnalysisLimit
  else
    rest ← (if bool_decide (an_Cursor req = "") then Ok (matching f db)
            else c ← decodeAIAnalysisCursor (an_Cursor req); Ok (filter (after_cursor c) (matching f db)));
    let transactions := detail_of db (an_IncludeMemo req) <$> take (Z.to_nat (limit + 1)) (merge_sort detail_le rest) in
    if Z.of_nat (length transactions) >? limit then
      match transactions !! Z.to_nat (limit - 1) with
      | None => Err EAnalysisFuel
      | Some lastReturned => Ok (take (Z.to_nat limit) transactions, encodeAIAnalysisCursor (de_Date lastReturned) (de_ID lastReturned))
      end
    else Ok (transactions, "").

Definition AnalyzeTransactions (req : AnalysisRequest) (db : ledger) : res anerr AnalysisResponse :=
  f ← buildAIAnalysisFilter req;
  totals ← aggregate db (merge_sort id_le (matching f db)) 0 0 0;
  let '(count, income, expense) := totals in
  match CheckedSubInt64 income expense with
  | Err _ => Err EAnalysisNet
  | Ok net =>
    let maxMaterializedNodes := Z.min (an_MaxTagSummaries req) maxAITagSummaryOutputNodes in
    match getTagSummaryFilteredContext date_text sort_Slice f (SumOptions maxAITagSummaryScanNodes maxMaterializedNodes) db with
    | Err e => Err (EAnalysisSummary e)
    | Ok (summaries, truncated) =>
      let resp := AnalysisResp income (ExactInt64 income) expense (ExactInt64 expense) net (ExactInt64 net) count summaries truncated in
      if negb (an_IncludeTransactions req) then Ok (resp [] 0 "")
      else page ← details_page req f db; Ok (resp page.1 (Z.of_nat (length page.1)) page.2)
    end
  end.
End Analysis.

(** * Cursors read back *)
(** The texts SQLite's [datetime] returns. *)
Definition sqlite_datetime (s : string) : Prop :=
  length (bytes s) = 19%nat ∧ Forall (λ c, 48 <= c <= 58 ∨ c = 45 ∨ c = 32) (bytes s) ∧ is_Some (parse_date_hms 32 [] (bytes s)).

Lemma DecodeRune_ascii b l : 0 <= b < 128 → DecodeRune (b :: l) = (b, 1%nat).
Proof. intros Hb. unfold DecodeRune. by destruct (Z.ltb_spec b 128); [|lia]. Qed.

Lemma encode_datetime l : Forall (λ c, 48 <= c <= 58 ∨ c = 45 ∨ c = 32) l → encode_fuel (length l) l = l.
Proof.
  induction 1 as [|c l Hc _ IH]; [done|]. cbn [length encode_fuel]. rewrite DecodeRune_ascii by lia. cbn [snd drop take].
  change (drop 0 l) with l. rewrite IH. unfold encode_step. cbn [fst]. destruct (Z.ltb_spec c 128); [|lia]. unfold escape_ascii.
  assert (html_safe c = true) as ->; [|done]. unfold html_safe. lia.
Qed.

Lemma dec_length n : 0 <= n <= MaxInt64 → (length (dec n) <= 63)%nat.
Proof.
  intros Hn. assert (∀ k n, (length (dec_digits k n) <= k)%nat) as H.
  { induction k as [|k IH]; intros i; cbn [dec_digits]; [done|]. destruct (i <? 10); cbn; [lia|]. rewrite length_app. cbn. specialize (IH (i / 10)). lia. }
  unfold dec. specialize (H (S (Z.to_nat (Z.log2 n))) n).
  assert (Z.log2 n <= 62); [|lia]. change 62 with (Z.log2 MaxInt64). apply Z.log2_le_mono. lia.
Qed.

Lemma cursor_reads_back Unmarshal date n :
  sqlite_datetime date → 0 < n <= MaxInt64 → Unmarshal (marshal_cursor date n) = Some (date, n) →
  decodeAIAnalysisCursor Unmarshal (encodeAIAnalysisCursor date n) = Ok (date, n).
Proof.
  intros (Hl & Hc & [t Ht]) Hn Hu. set (data := marshal_cursor date n) in *.
  assert (data = [123; 34; 100; 97; 116; 101; 34; 58] ++ (34 :: bytes date ++ [34]) ++ [44; 34; 105; 100; 34; 58] ++ bytes (FormatInt n) ++ [125]) as Ed.
  { unfold data, marshal_cursor, json_string. by rewrite encode_datetime. }
  assert (Forall is_byte (dec n)) as Hd.
  { destruct (dec_spec n ltac:(lia)) as (_ & H & _). apply Forall_forall. intros x Hx. apply Is_true_true in H.
    rewrite forallb_True, Forall_forall in H. specialize (H x Hx). apply Is_true_true in H. unfold is_byte, between in *. lia. }
  assert (bytes (FormatInt n) = dec n) as Ef.
  { unfold FormatInt. destruct (Z.ltb_spec n 0); [lia|]. by apply bytes_of_bytes. }
  assert (Forall is_byte data) as Hb.
  { assert (Forall is_byte (bytes date)) by apply bytes_range. rewrite Ed, Ef. repeat apply Forall_app_2; repeat constructor; unfold is_byte; try lia; [|done].
    apply Forall_app_2; [done|repeat constructor; unfold is_byte; lia]. }
  assert (length data <= 100)%nat as Hlen.
  { rewrite Ed, Ef. pose proof (dec_length n ltac:(lia)). cbn [app length]. repeat (rewrite ?length_app; cbn [length]). lia. }
  pose proof (raw_encode_range url_char url_char_range data Hb) as Hr. pose proof (raw_encode_length url_char data).
  assert (bytes (of_bytes (raw_encode url_char data)) = raw_encode url_char data) as Eb.
  { apply bytes_of_bytes. eapply Forall_impl; [exact Hr|]. unfold is_byte. cbn. lia. }
  unfold decodeAIAnalysisCursor, encodeAIAnalysisCursor. fold data. unfold len. rewrite Eb.
  rewrite Z.gtb_ltb. destruct (Z.ltb_spec 512 (Z.of_nat (length (raw_encode url_char data)))) as [Hz|_]; [lia|].
  rewrite (raw_string_roundtrip url_char url_value url_value_char url_char_range) by done. cbn [mbind option_bind]. rewrite Hu. destruct (Z.leb_spec n 0); [lia|]. by rewrite Ht.
Qed.

(** * Pages *)
Section Pages.
Context (date_text datetime : Z → string) (sort_Slice : (nat → Z) → list nat → list nat) (Unmarshal : list Z → option (string * Z)).
Abbreviation dt x := (datetime (tx_date x.2)) (only parsing).

#[local] Instance detail_le_trans : Transitive (detail_le datetime).
Proof.
  intros x y z [H1 E1] [H2 E2]. split; [by eapply lex_le_trans|]. intros E.
  assert (dt x = dt y) as Exy by (apply name_antisym; [by rewrite E|done]). specialize (E1 Exy). rewrite Exy in E. specialize (E2 E). lia.
Qed.
#[local] Instance detail_le_total : Total (detail_le datetime).
Proof.
  intros x y. unfold detail_le. destruct (decide (dt x = dt y)) as [E|E].
  - rewrite E. destruct (Z.le_ge_cases y.1 x.1); [left|right]; (split; [apply lex_le_refl|done]).
  - destruct (lex_le_total (bytes (dt x)) (bytes (dt y))); [right|left]; (split; [done|congruence]).
Qed.
Lemma detail_le_antisym x y : detail_le datetime x y → detail_le datetime y x → x.1 = y.1.
Proof.
  intros [H1 E1] [H2 E2]. assert (dt x = dt y) as E by (by apply name_antisym). specialize (E1 E). specialize (E2 (eq_sym E)). lia.
Qed.
Lemma after_cursor_spec x y : after_cursor datetime (dt x, x.1) y ↔ detail_le datetime x y ∧ (dt x = dt y → x.1 ≠ y.1).
Proof.
  unfold after_cursor, detail_le. cbn. split.
  - intros [[H1 H2]|[H1 H2]]; [split; [split; [done|]|]; congruence|]. rewrite H1. split; [split; [apply lex_le_refl|]|]; lia.
  - intros [[H1 H2] H3]. destruct (decide (dt x = dt y)) as [E|E]; [right|left; by split]. split; [done|]. specialize (H2 E). specialize (H3 E). lia.
Qed.

(** The rows after the one a cursor names. *)
Lemma filter_after (A B : list (Z * txrow)) x : StronglySorted (detail_le datetime) (A ++ x :: B) → NoDup (A ++ x :: B).*1 →
  filter (after_cursor datetime (dt x, x.1)) (A ++ x :: B) = B.
Proof.
  intros Hs Hnd. rewrite filter_app, filter_none; cbn [app].
  - rewrite filter_cons_False by (rewrite after_cursor_spec; intros [_ H]; by apply H).
    rewrite fmap_app, fmap_cons in Hnd. apply NoDup_app in Hnd as (_ & _ & [Hx _]%NoDup_cons).
    apply StronglySorted_app_1_r, StronglySorted_inv in Hs as [_ Hf]. clear -Hf Hx.
    induction Hf as [|b B Hb Hf IH]; [done|]. cbn in Hx. apply not_elem_of_cons in Hx as [Hxb Hx].
    rewrite filter_cons_True by (apply after_cursor_spec; by split). f_equal. by apply IH.
  - intros a Ha [Hxa Hne]%after_cursor_spec.
    assert (detail_le datetime a x) as Hax.
    { apply list_elem_of_split in Ha as (A1 & A2 & ->). rewrite <- app_assoc in Hs. apply StronglySorted_app_1_r in Hs.
      cbn in Hs. apply StronglySorted_inv in Hs as [_ Hf]. rewrite Forall_forall in Hf. apply Hf. apply elem_of_app. right. left. }
    apply Hne; [|by apply detail_le_antisym]. destruct Hxa as [H1 _], Hax as [H2 _]. by apply name_antisym.
Qed.

(** All details, and the cursor after the first [k] of them. *)
Definition detail_rows (f : tag_filter) (db : ledger) : list (Z * txrow) := merge_sort (detail_le datetime) (matching date_text f db).
Definition cursor_at (f : tag_filter) (db : ledger) (k : nat) : string :=
  match k with
  | O => ""
  | S j => from_option (λ x, encodeAIAnalysisCursor (dt x) x.1) "" (detail_rows f db !! j)
  end.
Definition with_cursor (req : AnalysisRequest) (c : string) : AnalysisRequest :=
  Analysis (an_StartDate req) (an_EndDate req) (an_Account req) (an_TagIDs req) (an_Type req)
    (an_IncludeTransactions req) (an_IncludeMemo req) (an_Limit req) c (an_MaxTagSummaries req).
Definition page_limit (req : AnalysisRequest) : Z := if an_Limit req =? 0 then defaultAIAnalysisLimit else an_Limit req.

(** A client that follows the cursors. *)
Fixpoint follow (fuel : nat) (req : AnalysisRequest) (db : ledger) : res anerr (list AITransactionDetail) :=
  match fuel with
  | O => Err EAnalysisFuel
  | S fuel' =>
    resp ← AnalyzeTransactions date_text datetime sort_Slice Unmarshal req db;
    if bool_decide (ar_NextCursor resp = "") then Ok (ar_Transactions resp)
    else rest ← follow fuel' (with_cursor req (ar_NextCursor resp)) db; Ok (ar_Transactions resp ++ rest)
  end.

Context (db : ledger) (f : tag_filter) (Htx : tx_wf db) (Hseq : tx_seq db <= MaxInt64).
Context (Hdt : ∀ t, sqlite_datetime (datetime t)).
Context (Hun : ∀ t n, 0 < n <= MaxInt64 → Unmarshal (marshal_cursor (datetime t) n) = Some (datetime t, n)).

Lemma detail_rows_ids : NoDup (detail_rows f db).*1.
Proof. unfold detail_rows. rewrite merge_sort_Permutation. apply NoDup_fst_filter, NoDup_fst_map_to_list. Qed.
Lemma detail_rows_sorted : StronglySorted (detail_le datetime) (detail_rows f db).
Proof. apply StronglySorted_merge_sort; apply _. Qed.
Lemma detail_row_id x : x ∈ detail_rows f db → 0 < x.1 <= MaxInt64.
Proof.
  unfold detail_rows. rewrite merge_sort_Permutation. destruct x as [n r]. intros [_ Hn%elem_of_map_to_list]%list_elem_of_filter. cbn.
  destruct Htx as (_ & Hr & _). apply Hr in Hn as [Hn _]. lia.
Qed.

Lemma cursor_nonempty date n : encodeAIAnalysisCursor date n ≠ "".
Proof. unfold encodeAIAnalysisCursor, marshal_cursor. cbn [app raw_encode]. done. Qed.

Lemma rows_from k req : (0 < k <= length (detail_rows f db))%nat →
  ∃ c, decodeAIAnalysisCursor Unmarshal (cursor_at f db k) = Ok c ∧ an_Cursor (with_cursor req (cursor_at f db k)) ≠ "" ∧
    merge_sort (detail_le datetime) (filter (after_cursor datetime c) (matching date_text f db)) = drop k (detail_rows f db).
Proof.
  destruct k as [|j]; [lia|]. intros Hk. destruct (lookup_lt_is_Some_2 (detail_rows f db) j) as [x Hx]; [lia|].
  unfold cursor_at. rewrite Hx. cbn [from_option an_Cursor with_cursor]. exists (dt x, x.1).
  pose proof (detail_row_id x ltac:(by eapply list_elem_of_lookup_2)) as Hid.
  split; [by apply cursor_reads_back; [apply Hdt|done|apply Hun]|]. split; [apply cursor_nonempty|].
  pose proof detail_rows_sorted as Hs. pose proof detail_rows_ids as Hnd.
  assert (detail_rows f db = take j (detail_rows f db) ++ x :: drop (S j) (detail_rows f db)) as E by (symmetry; by apply take_drop_middle).
  assert (filter (after_cursor datetime (dt x, x.1)) (detail_rows f db) = drop (S j) (detail_rows f db)) as <-.
  { rewrite E at 1. apply filter_after; by rewrite <- E. }
  apply (StronglySorted_unique_strong (detail_le datetime)).
  - intros y z Hy Hz H1 H2. rewrite merge_sort_Permutation in Hy. apply list_elem_of_filter in Hy as [_ Hy], Hz as [_ Hz].
    unfold detail_rows in Hz. rewrite merge_sort_Permutation in Hz. unfold matching in Hy, Hz. apply list_elem_of_filter in Hy as [_ Hy], Hz as [_ Hz].
    pose proof (detail_le_antisym _ _ H1 H2) as Ei. destruct y as [i y], z as [i' z]. cbn in Ei. subst i'.
    apply elem_of_map_to_list in Hy, Hz. congruence.
  - apply StronglySorted_merge_sort; apply _.
  - by apply filter_sorted.
  - rewrite merge_sort_Permutation. unfold detail_rows. by rewrite merge_sort_Permutation.
Qed.

Lemma details_page_spec req k : 1 <= page_limit req <= maxAIAnalysisLimit → (k <= length (detail_rows f db))%nat →
  let D := detail_of datetime db (an_IncludeMemo req) <$> detail_rows f db in
  let L := Z.to_nat (page_limit req) in
  details_page date_text datetime Unmarshal (with_cursor req (cursor_at f db k)) f db =
  Ok (if decide (length D - k <= L)%nat then (drop k D, "") else (take L (drop k D), cursor_at f db (k + L))).
Proof.
  intros Hl Hk. cbn zeta. set (rows := detail_rows f db) in *. set (L := Z.to_nat (page_limit req)).
  unfold details_page. cbn [an_Limit an_IncludeMemo with_cursor]. fold (page_limit req).
  destruct (Z.ltb_spec (page_limit req) 1); [lia|]. rewrite Z.gtb_ltb. destruct (Z.ltb_spec maxAIAnalysisLimit (page_limit req)); [lia|]. cbn [orb].
  assert (∃ l, (if bool_decide (an_Cursor (with_cursor req (cursor_at f db k)) = "") then Ok (matching date_text f db)
     else c ← decodeAIAnalysisCursor Unmarshal (an_Cursor (with_cursor req (cursor_at f db k)));
          Ok (filter (after_cursor datetime c) (matching date_text f db))) = Ok l ∧ merge_sort (detail_le datetime) l = drop k rows) as (l & El & Em).
  { destruct (decide (k = 0)%nat) as [->|Hne].
    - exists (matching date_text f db). cbn. by rewrite drop_0.
    - destruct (rows_from k req) as (c & Hc & Hnc & Hrows); [fold rows; lia|]. exists (filter (after_cursor datetime c) (matching date_text f db)).
      rewrite bool_decide_eq_false_2 by done. cbn [an_Cursor with_cursor]. rewrite Hc. done. }
  cbn [an_Cursor with_cursor] in *. rewrite El. cbn [mbind res_bind]. rewrite Em.
  replace (Z.to_nat (page_limit req + 1)) with (S L) by (unfold L; lia). rewrite length_fmap, length_take, length_drop, length_fmap.
  rewrite Z.gtb_ltb. destruct (decide (length rows - k <= L)%nat) as [Hle|Hgt].
  - destruct (Z.ltb_spec (page_limit req) (Z.of_nat (S L `min` (length rows - k)))); [lia|].
    rewrite take_ge by (rewrite length_drop; lia). by rewrite fmap_drop.
  - destruct (Z.ltb_spec (page_limit req) (Z.of_nat (S L `min` (length rows - k)))); [|lia].
    rewrite list_lookup_fmap, lookup_take, decide_True, lookup_drop by lia.
    destruct (lookup_lt_is_Some_2 rows (k + Z.to_nat (page_limit req - 1))) as [x Hx]; [lia|]. rewrite Hx. cbn [fmap option_fmap option_map].
    fold L. rewrite <- fmap_take, take_take, Nat.min_l, fmap_take, fmap_drop by lia. do 2 f_equal.
    unfold cursor_at. replace (k + L)%nat with (S (k + Z.to_nat (page_limit req - 1))) by lia. fold rows. by rewrite Hx.
Qed.

(** A successful answer fixes everything but the page. *)
Lemma analyze_page req resp : AnalyzeTransactions date_text datetime sort_Slice Unmarshal req db = Ok resp →
  an_IncludeTransactions req = true → buildAIAnalysisFilter req = Ok f →
  1 <= page_limit req <= maxAIAnalysisLimit ∧
  ∀ c page, details_page date_text datetime Unmarshal (with_cursor req c) f db = Ok page →
  ∃ resp', AnalyzeTransactions date_text datetime sort_Slice Unmarshal (with_cursor req c) db = Ok resp' ∧
    ar_Transactions resp' = page.1 ∧ ar_NextCursor resp' = page.2.
Proof.
  unfold AnalyzeTransactions. intros H Hinc Hf. change (buildAIAnalysisFilter (with_cursor req _)) with (buildAIAnalysisFilter req).
  rewrite Hf in *. cbn [mbind res_bind] in *.
  destruct (aggregate db _ 0 0 0) as [[[count income] expense]|e]; cbn [mbind res_bind] in *; [|done].
  destruct (CheckedSubInt64 income expense) as [net|e]; [|done]. cbn [an_MaxTagSummaries with_cursor an_IncludeTransactions].
  destruct (getTagSummaryFilteredContext _ _ _ _ _) as [[summaries truncated]|e]; [|done]. rewrite Hinc in *. cbn [negb] in *. split.
  - unfold details_page in H. fold (page_limit req) in H. destruct (Z.ltb_spec (page_limit req) 1); [done|].
    rewrite Z.gtb_ltb in H. destruct (Z.ltb_spec maxAIAnalysisLimit (page_limit req)); [done|]. lia.
  - intros c page Hp. setoid_rewrite Hp. eexists. split; [reflexivity|]. done.
Qed.

Lemma follow_spec req resp : AnalyzeTransactions date_text datetime sort_Slice Unmarshal req db = Ok resp →
  an_IncludeTransactions req = true → buildAIAnalysisFilter req = Ok f →
  ∀ fuel k, (k <= length (detail_rows f db))%nat → (length (detail_rows f db) < fuel + k)%nat →
  follow fuel (with_cursor req (cursor_at f db k)) db = Ok (drop k (detail_of datetime db (an_IncludeMemo req) <$> detail_rows f db)).
Proof.
  intros Hok Hinc Hf. destruct (analyze_page req resp Hok Hinc Hf) as [Hl Hpage].
  set (D := detail_of datetime db (an_IncludeMemo req) <$> detail_rows f db).
  assert (length D = length (detail_rows f db)) as HD by apply length_fmap.
  induction fuel as [|fuel IH]; intros k Hk Hfuel; [lia|]. cbn [follow].
  destruct (Hpage _ _ (details_page_spec req k Hl Hk)) as (resp' & -> & Ht & Hc). cbn [mbind res_bind]. fold D in Ht, Hc. rewrite Ht, Hc.
  destruct (decide (length D - k <= Z.to_nat (page_limit req))%nat) as [Hle|Hgt]; cbn [fst snd]; [by rewrite bool_decide_eq_true_2|].
  assert (cursor_at f db (k + Z.to_nat (page_limit req)) ≠ "") as Hne.
  { destruct (k + Z.to_nat (page_limit req))%nat as [|j] eqn:Ej; [lia|]. cbn. destruct (lookup_lt_is_Some_2 (detail_rows f db) j) as [x ->]; [lia|].
    apply cursor_nonempty. }
  rewrite bool_decide_eq_false_2 by done.
  change (with_cursor (with_cursor req ?a) ?b) with (with_cursor req b). rewrite IH by lia. cbn [mbind res_bind].
  f_equal. rewrite <- (take_drop (Z.to_nat (page_limit req)) (drop k D)) at 2. rewrite drop_drop. done.
Qed.
End Pages.

(** Following the cursors of an AI analysis from its first page always ends and
    delivers every matching transaction exactly once, newest first, provided the first
    page is answered; no page is longer than the limit. *)
Theorem analysis_pages_complete date_text datetime sort_Slice Unmarshal req resp f db :
  ledger_wf db → tx_seq db <= MaxInt64 →
  (∀ t, sqlite_datetime (datetime t)) →
  (∀ t n, 0 < n <= MaxInt64 → Unmarshal (marshal_cursor (datetime t) n) = Some (datetime t, n)) →
  buildAIAnalysisFilter req = Ok f → an_IncludeTransactions req = true → an_Cursor req = "" →
  AnalyzeTransactions date_text datetime sort_Slice Unmarshal req db = Ok resp →
  (∃ l, l ≡ₚ matching date_text f db ∧ StronglySorted (detail_le datetime) l ∧
    follow date_text datetime sort_Slice Unmarshal (S (length (matching date_text f db))) req db =
      Ok (detail_of datetime db (an_IncludeMemo req) <$> l)) ∧
  Z.of_nat (length (ar_Transactions resp)) <= page_limit req.
Proof.
  intros (Htx & _) Hseq Hdt Hun Hf Hinc Hcur Hok.
  assert (with_cursor req (cursor_at date_text datetime f db 0) = req) as Ereq by (destruct req; cbn in *; by subst).
  pose proof (follow_spec _ _ sort_Slice _ db f Htx Hseq Hdt Hun req resp Hok Hinc Hf (S (length (matching date_text f db))) 0) as H.
  rewrite Ereq, drop_0 in H. split.
  - exists (detail_rows date_text datetime f db). split; [apply merge_sort_Permutation|]. split; [apply detail_rows_sorted|].
    apply H; [lia|]. unfold detail_rows. rewrite merge_sort_Permutation. lia.
  - destruct (analyze_page date_text datetime sort_Slice Unmarshal db f req resp Hok Hinc Hf) as [Hl Hp].
    pose proof (details_page_spec date_text datetime Unmarshal db f Htx Hseq Hdt Hun req 0 Hl ltac:(lia)) as Hd. cbn zeta in Hd.
    destruct (Hp _ _ Hd) as (resp' & E & Et & _). rewrite Ereq, Hok in E. injection E as <-. rewrite Et.
    case_decide; cbn [fst]; [|rewrite length_take]; rewrite ?length_drop; lia.
Qed.

(** A concrete [datetime] and JSON reader. *)
Definition demo_datetime (t : Z) : string := "2026-01-02 03:04:05".
Definition demo_unmarshal (l : list Z) : option (string * Z) :=
  n ← ParseUint (removelast (drop 35 l)); Some (of_bytes (take 19 (drop 9 l)), n).

Lemma demo_datetime_ok t : sqlite_datetime (demo_datetime t).
Proof.
  split; [reflexivity|]. split; [|by vm_compute; eexists].
  match goal with |- ?P => apply (bool_decide_unpack P); vm_compute; exact I end.
Qed.
Lemma demo_unmarshal_ok t n : 0 < n <= MaxInt64 → demo_unmarshal (marshal_cursor (demo_datetime t) n) = Some (demo_datetime t, n).
Proof.
  intros Hn. unfold demo_unmarshal, marshal_cursor. set (j := json_string (bytes (demo_datetime t))).
  assert (j = 34 :: bytes "2026-01-02 03:04:05" ++ [34]) as -> by reflexivity.
  assert (bytes (FormatInt n) = dec n) as ->.
  { unfold FormatInt. destruct (Z.ltb_spec n 0); [lia|]. apply bytes_of_bytes. destruct (dec_spec n ltac:(lia)) as (_ & H' & _).
    apply Forall_forall. intros x Hx. apply Is_true_true in H'. rewrite forallb_True, Forall_forall in H'. specialize (H' x Hx).
    apply Is_true_true in H'. unfold is_byte, between in *. lia. }
  match goal with |- context [drop 35 ?l] => change (drop 35 l) with (dec n ++ [125]) end.
  rewrite removelast_last, ParseUint_dec by lia. reflexivity.
Qed.

Definition demo_analysis : AnalysisRequest := Analysis "2026-01-01" "2026-12-31" "" [] "" true false 1 "" 10.

Lemma analysis_pages_complete_witness :
  let text := λ _ : Z, "2026-01-02 03:04:05+00:00" in
  match AnalyzeTransactions text demo_datetime stable_slice demo_unmarshal demo_analysis demo_final with
  | Ok resp =>
    ∃ l, l ≡ₚ matching text (Filter "" "2026-01-01" "2026-12-31" "" []) demo_final ∧ (2 <= length l)%nat ∧ Z.of_nat (length (ar_Transactions resp)) <= 1 ∧
      follow text demo_datetime stable_slice demo_unmarshal (S (length l)) demo_analysis demo_final = Ok (detail_of demo_datetime demo_final false <$> l)
  | Err _ => False
  end.
Proof.
  intros text. destruct (AnalyzeTransactions text demo_datetime stable_slice demo_unmarshal demo_analysis demo_final) as [resp|e] eqn:E.
  - destruct (analysis_pages_complete text demo_datetime stable_slice demo_unmarshal demo_analysis resp
      (Filter "" "2026-01-01" "2026-12-31" "" []) demo_final) as [(l & Hp & _ & Hf) Hl].
    + exact demo_final_wf.
    + vm_compute. discriminate.
    + exact demo_datetime_ok.
    + exact demo_unmarshal_ok.
    + reflexivity.
    + reflexivity.
    + reflexivity.
    + exact E.
    + exists l. pose proof (Permutation_length Hp) as Hlen. rewrite Hlen. split; [exact Hp|]. split; [vm_compute; lia|]. split; [exact Hl|exact Hf].
  - vm_compute in E. discriminate E.
Defined.

(** * Totals *)
Section Totals.
Context (date_text : Z → string) (f : tag_filter) (db : ledger).

Definition total_of (kind : string) : Z :=
  msum (λ n r, if decide (matched date_text f db n r = true ∧ tx_type r = kind) then effective_amount db n r else 0) (transactions db).
Definition match_count : Z := msum (λ n r, if decide (matched date_text f db n r = true) then 1 else 0) (transactions db).

Definition kind_amount (kind : string) (x : Z * txrow) : Z := if decide (tx_type x.2 = kind) then effective_amount db x.1 x.2 else 0.

Lemma kind_sum_nonneg kind rows : Forall (λ x, 0 < effective_amount db x.1 x.2 <= MaxInt64) rows → 0 <= lsum (kind_amount kind <$> rows).
Proof.
  intros Hr. rewrite <- (lsum_zero (λ _ : Z * txrow, 0) rows) at 1 by by apply Forall_true. apply lsum_le.
  eapply Forall_impl; [exact Hr|]. intros x [Hx _]. unfold kind_amount. case_decide; lia.
Qed.

Lemma aggregate_spec rows : Forall (λ x, 0 < effective_amount db x.1 x.2 <= MaxInt64) rows → Forall (λ x, tx_type_ok (tx_type x.2) = true) rows →
  ∀ c i e, 0 <= i <= MaxInt64 → 0 <= e <= MaxInt64 →
  aggregate db rows c i e =
  if decide (i + lsum (kind_amount "income" <$> rows) <= MaxInt64 ∧ e + lsum (kind_amount "expense" <$> rows) <= MaxInt64)
  then Ok (c + Z.of_nat (length rows), i + lsum (kind_amount "income" <$> rows), e + lsum (kind_amount "expense" <$> rows))
  else Err EAnalysisOverflow.
Proof.
  induction 1 as [|[n r] rows Ha Hr IH]; intros Ht c i e Hi He; cbn [aggregate].
  - rewrite decide_True by (cbn; lia). cbn. by rewrite !Z.add_0_r.
  - apply Forall_cons in Ht as [Ht Hts]. specialize (IH Hts). cbn [fst snd] in *.
    pose proof (kind_sum_nonneg "income" rows Hr) as Hni. pose proof (kind_sum_nonneg "expense" rows Hr) as Hne.
    rewrite !fmap_cons, !lsum_cons. cbn [length].
    unfold tx_type_ok in Ht. repeat case_bool_decide; try done; try congruence.
    + assert (kind_amount "income" (n, r) = effective_amount db n r) as -> by (unfold kind_amount; cbn; case_decide; congruence).
      assert (kind_amount "expense" (n, r) = 0) as -> by (unfold kind_amount; cbn; case_decide; congruence).
      rewrite CheckedAddInt64_cases by (unfold int64, MinInt64, MaxInt64 in *; lia). case_decide as Hc.
      * rewrite IH by (unfold int64, MinInt64 in Hc; lia). rewrite <- !Z.add_assoc, !Z.add_0_l. repeat case_decide; try tauto. do 3 f_equal; lia.
      * rewrite decide_False; [done|]. unfold int64, MinInt64, MaxInt64 in *. lia.
    + assert (kind_amount "expense" (n, r) = effective_amount db n r) as -> by (unfold kind_amount; cbn; case_decide; congruence).
      assert (kind_amount "income" (n, r) = 0) as -> by (unfold kind_amount; cbn; case_decide; congruence).
      rewrite CheckedAddInt64_cases by (unfold int64, MinInt64, MaxInt64 in *; lia). case_decide as Hc.
      * rewrite IH by (unfold int64, MinInt64 in Hc; lia). rewrite <- !Z.add_assoc, !Z.add_0_l. repeat case_decide; try tauto. do 3 f_equal; lia.
      * rewrite decide_False; [done|]. unfold int64, MinInt64, MaxInt64 in *. lia.
Qed.

Lemma sum_matching (F : Z * txrow → Z) rows : rows ≡ₚ matching date_text f db →
  lsum (F <$> rows) = msum (λ n r, if decide (matched date_text f db n r = true) then F (n, r) else 0) (transactions db).
Proof.
  intros ->. unfold matching. rewrite lsum_filter. apply lsum_ext, Forall_true. by intros [].
Qed.
End Totals.

(** The aggregate of the matching rows. *)
Lemma aggregate_matching date_text f db : tx_wf db →
  let income := total_of date_text f db "income" in
  let expense := total_of date_text f db "expense" in
  0 <= income ∧ 0 <= expense ∧
  aggregate db (merge_sort id_le (matching date_text f db)) 0 0 0 =
  if decide (income <= MaxInt64 ∧ expense <= MaxInt64) then Ok (match_count date_text f db, income, expense) else Err EAnalysisOverflow.
Proof.
  intros Htx. set (rows := merge_sort id_le (matching date_text f db)). cbn zeta.
  assert (rows ≡ₚ matching date_text f db) as Hp by apply merge_sort_Permutation.
  assert (∀ x, x ∈ rows → transactions db !! x.1 = Some x.2) as Hin.
  { intros [n r]. rewrite Hp. intros [_ H%elem_of_map_to_list]%list_elem_of_filter. done. }
  assert (Forall (λ x, 0 < effective_amount db x.1 x.2 <= MaxInt64) rows) as Ha.
  { apply Forall_forall. intros x Hx%Hin. by apply (tx_wf_amounts _ Htx). }
  assert (Forall (λ x, tx_type_ok (tx_type x.2) = true) rows) as Ht.
  { apply Forall_forall. intros x Hx%Hin. destruct Htx as (_ & H & _). by apply H in Hx as (_ & ? & _). }
  assert (∀ kind, lsum (kind_amount db kind <$> rows) = total_of date_text f db kind) as Ek.
  { intros kind. rewrite (sum_matching date_text f db _ rows Hp). apply msum_ext. intros n r _. unfold kind_amount. cbn. repeat case_decide; tauto. }
  assert (Z.of_nat (length rows) = match_count date_text f db) as Ec.
  { unfold match_count. rewrite <- (sum_matching date_text f db (λ _, 1) rows Hp). clear. induction rows as [|x l IH]; [done|].
    rewrite fmap_cons, lsum_cons. cbn [length]. lia. }
  rewrite <- !Ek. split; [by apply kind_sum_nonneg|]. split; [by apply kind_sum_nonneg|].
  rewrite (aggregate_spec date_text db rows Ha Ht) by (unfold MaxInt64; lia). rewrite !Z.add_0_l, Ec. done.
Qed.

(** The totals of an AI analysis are the exact sums over the matching transactions,
    as numbers and as decimal texts, the net amount is their difference and the count
    their number; an overflow is reported exactly when one of the two sums exceeds
    int64, and no other internal error is possible. *)
Theorem analysis_totals date_text datetime sort_Slice Unmarshal req f db :
  ledger_wf db → buildAIAnalysisFilter req = Ok f →
  let income := total_of date_text f db "income" in
  let expense := total_of date_text f db "expense" in
  match AnalyzeTransactions date_text datetime sort_Slice Unmarshal req db with
  | Ok resp =>
    ar_TotalIncome resp = income ∧ ar_TotalExpense resp = expense ∧ ar_NetAmount resp = income - expense ∧
    ar_Count resp = match_count date_text f db ∧ int64 income ∧ int64 expense ∧ int64 (income - expense) ∧
    ar_TotalIncomeExact resp = FormatInt income ∧ ar_TotalExpenseExact resp = FormatInt expense ∧
    ar_NetAmountExact resp = FormatInt (income - expense)
  | Err EAnalysisOverflow => MaxInt64 < income ∨ MaxInt64 < expense
  | Err e => e ≠ EAnalysisNet ∧ e ≠ EAnalysisType ∧ e ≠ EAnalysisFuel ∧ income <= MaxInt64 ∧ expense <= MaxInt64
  end.
Proof.
  intros (Htx & _) Hf. cbn zeta. unfold AnalyzeTransactions. rewrite Hf. cbn [mbind res_bind].
  destruct (aggregate_matching date_text f db Htx) as (Hi & He & ->). case_decide as Hm; cbn [mbind res_bind]; [|lia].
  set (income := total_of date_text f db "income") in *. set (expense := total_of date_text f db "expense") in *.
  assert (int64 income ∧ int64 expense ∧ int64 (income - expense)) as (H1 & H2 & H3) by (unfold int64, MinInt64, MaxInt64 in *; lia).
  rewrite CheckedSubInt64_cases, decide_True by done.
  destruct (getTagSummaryFilteredContext _ _ _ _ _) as [[summaries truncated]|e]; [|done].
  destruct (negb (an_IncludeTransactions req)); [by split_and!|].
  destruct (details_page date_text datetime Unmarshal req f db) as [page|e] eqn:Ep; cbn [mbind res_bind]; [by split_and!|].
  assert (e = EAnalysisLimit ∨ e = EAnalysisCursor) as [-> | ->]; [|done..].
  revert Ep. unfold details_page. set (limit := if an_Limit req =? 0 then defaultAIAnalysisLimit else an_Limit req).
  destruct (Z.ltb_spec limit 1); cbn [orb]; [intros [= <-]; by left|]. rewrite Z.gtb_ltb. destruct (Z.ltb_spec maxAIAnalysisLimit limit); [intros [= <-]; by left|].
  destruct (if bool_decide (an_Cursor req = "") then _ else _) as [rest|e'] eqn:Er; cbn [mbind res_bind].
  - rewrite length_fmap. destruct (_ >? limit) eqn:Eg; [|done]. rewrite Z.gtb_lt in Eg.
    destruct (lookup_lt_is_Some_2 (detail_of datetime db (an_IncludeMemo req) <$> take (Z.to_nat (limit + 1)) (merge_sort (detail_le datetime) rest))
      (Z.to_nat (limit - 1))) as [x ->]; [rewrite length_fmap; lia|done].
  - intros [= <-]. right. revert Er. case_bool_decide; [done|]. unfold decodeAIAnalysisCursor.
    repeat case_match; cbn; intros; by simplify_eq.
Qed.

Lemma analysis_totals_witness :
  let text := λ _ : Z, "2026-01-02 03:04:05+00:00" in
  match AnalyzeTransactions text demo_datetime stable_slice demo_unmarshal demo_analysis demo_final with
  | Ok resp => ar_NetAmount resp = total_of text (Filter "" "2026-01-01" "2026-12-31" "" []) demo_final "income" -
      total_of text (Filter "" "2026-01-01" "2026-12-31" "" []) demo_final "expense"
  | Err _ => False
  end.
Proof.
  intros text. pose proof (analysis_totals text demo_datetime stable_slice demo_unmarshal demo_analysis
    (Filter "" "2026-01-01" "2026-12-31" "" []) demo_final demo_final_wf eq_refl) as H. cbn zeta in H.
  destruct (AnalyzeTransactions _ _ _ _ _ _) as [resp|e] eqn:E; [exact (proj1 (proj2 (proj2 H)))|]. vm_compute in E. discriminate E.
Defined.
