(* ===== verification/CsvText.v ===== *)
(** CSV text: the writer and the reader of [encoding/csv] with the settings the program
    uses, the cell escapes against formula injection ([core/service.go]) and the
    lossless text cells of format 3 ([core/service_csv_full.go]).

    A field is a byte list, a record a list of fields. *)
From Stdlib Require Import ZArith Lia.
From stdpp Require Import base gmap list strings.
From S2P Require Import Prelude GoText Validation Settings GoTime ImageContainers Schema Balance Tags Links Images.
Open Scope Z_scope.

(** * [csv.Writer] *)
Definition comma : Z := 44.
Definition quote : Z := 34.
Definition special (c : Z) : bool := (c =? 10) || (c =? 13) || (c =? quote) || (c =? comma).
Definition fieldNeedsQuotes (field : list Z) : bool :=
  negb (bool_decide (field = [])) &&
  (bool_decide (field = [92; 46]) || existsb special field || IsSpace (DecodeRune field).1).
Definition escape_quotes (field : list Z) : list Z := field ≫= λ c, if c =? quote then [quote; quote] else [c].
Definition write_field (field : list Z) : list Z :=
  if fieldNeedsQuotes field then quote :: escape_quotes field ++ [quote] else field.
Fixpoint write_fields (fields : list (list Z)) : list Z :=
  match fields with
  | [] => []
  | [f] => write_field f
  | f :: fields' => write_field f ++ comma :: write_fields fields'
  end.
Definition write_record (fields : list (list Z)) : list Z := write_fields fields ++ [10].
Definition write_records (records : list (list (list Z))) : list Z := records ≫= write_record.

(** * [csv.Reader] *)
Inductive csverr := EBareQuote | EQuote | EFieldCount | ECsvFuel.

(** The lines of the input with their line feeds; [readLine] turns CRLF into LF and
    drops a carriage return at the end of the input. *)
Fixpoint lines (l : list Z) : list (list Z) :=
  match l with
  | [] => []
  | c :: l' => if c =? 10 then [10] :: lines l' else match lines l' with [] => [[c]] | x :: xs => (c :: x) :: xs end
  end.
Fixpoint norm_line (l : list Z) : list Z :=
  match l with
  | [] => []
  | [13] => []
  | [13; 10] => [10]
  | c :: l' => c :: norm_line l'
  end.
Definition read_lines (input : list Z) : list (list Z) := norm_line <$> lines input.

(** The rest of the line after the opening quote. *)
Inductive qres := QMore (buf : list Z) | QField (buf line : list Z) | QRecord (buf : list Z) | QErr.
Fixpoint quoted_line (line buf : list Z) : qres :=
  match line with
  | [] => QMore buf
  | c :: l =>
    if c =? quote then
      match l with
      | [] => QRecord buf
      | d :: l' =>
        if d =? quote then quoted_line l' (buf ++ [quote])
        else if d =? comma then QField buf l'
        else if (d =? 10) && bool_decide (l' = []) then QRecord buf
        else QErr
      end
    else quoted_line l (buf ++ [c])
  end.
Fixpoint quoted (rest : list (list Z)) (line buf : list Z) : res csverr (list Z * option (list Z) * list (list Z)) :=
  match quoted_line line buf with
  | QErr => Err EQuote
  | QField b l => Ok (b, Some l, rest)
  | QRecord b => Ok (b, None, rest)
  | QMore b => match rest with [] => Err EQuote | l :: rest' => quoted rest' l b end
  end.

(** An unquoted field: up to the next comma, or the line without its line feed. *)
Fixpoint unquoted (line : list Z) : list Z * option (list Z) :=
  match line with
  | [] => ([], None)
  | c :: l =>
    if c =? comma then ([], Some l)
    else if (c =? 10) && bool_decide (l = []) then ([], None)
    else let '(f, r) := unquoted l in (c :: f, r)
  end.

Fixpoint read_fields (fuel : nat) (rest : list (list Z)) (line : list Z) (acc : list (list Z))
    : res csverr (list (list Z) * list (list Z)) :=
  match fuel with
  | O => Err ECsvFuel
  | S fuel' =>
    match line with
    | c :: l =>
      if c =? quote then
        match quoted rest l [] with
        | Err e => Err e
        | Ok (f, Some l', rest') => read_fields fuel' rest' l' (acc ++ [f])
        | Ok (f, None, rest') => Ok (acc ++ [f], rest')
        end
      else
        let '(f, r) := unquoted line in
        if existsb (Z.eqb quote) f then Err EBareQuote
        else match r with Some l' => read_fields fuel' rest l' (acc ++ [f]) | None => Ok (acc ++ [f], rest) end
    | [] => Ok (acc ++ [[]], rest)
    end
  end.

Definition text_size (ls : list (list Z)) : nat := length (concat ls).

(** [Read]: empty lines are skipped; [None] at the end of the input. *)
Fixpoint read_record (ls : list (list Z)) : res csverr (option (list (list Z) * list (list Z))) :=
  match ls with
  | [] => Ok None
  | line :: rest =>
    if bool_decide (line = []) || bool_decide (line = [10]) then read_record rest
    else r ← read_fields (S (text_size ls)) rest line []; Ok (Some r)
  end.

(** The remaining records; [width] is [FieldsPerRecord] after the first one, if the
    reader checks it. *)
Fixpoint read_records (fuel : nat) (width : option nat) (ls : list (list Z)) : res csverr (list (list (list Z))) :=
  match fuel with
  | O => Err ECsvFuel
  | S fuel' =>
    r ← read_record ls;
    match r with
    | None => Ok []
    | Some (record, rest) =>
      if (match width with Some w => negb (length record =? w)%nat | None => false end) then Err EFieldCount
      else records ← read_records fuel' width rest; Ok (record :: records)
    end
  end.
Definition ReadAll (input : list Z) : res csverr (list (list (list Z))) :=
  read_records (S (length input)) None (read_lines input).

(** * What is written is read back *)
(** The first line of a text and the lines after it. *)
Definition cut (t : list Z) : list Z * list (list Z) := match lines t with [] => ([], []) | x :: xs => (x, xs) end.

Lemma cut_cons c t : c ≠ 10 → cut (c :: t) = (c :: (cut t).1, (cut t).2).
Proof. intros Hc. unfold cut. cbn [lines]. destruct (Z.eqb_spec c 10); [done|]. by destruct (lines t). Qed.
Lemma cut_line t : cut (10 :: t) = ([10], lines t).
Proof. reflexivity. Qed.
Lemma lines_cut t : t ≠ [] → lines t = (cut t).1 :: (cut t).2.
Proof. intros Ht. unfold cut. destruct (lines t) as [|x xs] eqn:E; [|done]. destruct t as [|c t]; [done|]. cbn in E. by destruct (c =? 10), (lines t). Qed.
Lemma concat_lines t : concat (lines t) = t.
Proof.
  induction t as [|c t IH]; [done|]. cbn [lines]. destruct (Z.eqb_spec c 10) as [->|]; cbn; [by rewrite IH|].
  destruct (lines t) as [|x xs]; cbn in *; by rewrite IH.
Qed.

Lemma norm_line_plain l : (13 ∉ l) → norm_line l = l.
Proof.
  induction l as [|c l IH]; [done|]. rewrite not_elem_of_cons. intros [Hc Hl]. specialize (IH Hl).
  assert (norm_line (c :: l) = c :: norm_line l) as E; [|by rewrite E, IH].
  cbn. destruct c as [|p|p]; [done| |done]. do 4 (destruct p as [p|p|]; try done).
Qed.
Lemma read_lines_plain t : (13 ∉ t) → read_lines t = lines t.
Proof.
  intros Ht. unfold read_lines. rewrite <- (list_fmap_id (lines t)) at 2. apply list_fmap_ext. intros i l Hl. apply norm_line_plain.
  intros H. apply Ht. rewrite <- (concat_lines t). apply list_elem_of_In, in_concat. exists l. split; apply list_elem_of_In; [by eapply list_elem_of_lookup_2|done].
Qed.

Lemma quoted_unfold rest line buf : quoted rest line buf =
  match quoted_line line buf with
  | QErr => Err EQuote
  | QField b l => Ok (b, Some l, rest)
  | QRecord b => Ok (b, None, rest)
  | QMore b => match rest with [] => Err EQuote | l :: rest' => quoted rest' l b end
  end.
Proof. by destruct rest. Qed.

(** The quoted reader on a text. *)
Definition quoted_text (t buf : list Z) := quoted (cut t).2 (cut t).1 buf.

Lemma quoted_plain c t buf : c ≠ quote → t ≠ [] → quoted_text (c :: t) buf = quoted_text t (buf ++ [c]).
Proof.
  intros Hc Ht. unfold quoted_text. destruct (decide (c = 10)) as [->|Hn].
  - rewrite cut_line. cbn [fst snd]. rewrite quoted_unfold. cbn. by rewrite (lines_cut t Ht).
  - rewrite cut_cons by done. cbn [fst snd]. rewrite !quoted_unfold. cbn [quoted_line]. destruct (Z.eqb_spec c quote); [done|]. done.
Qed.
Lemma quoted_double t buf : quoted_text (quote :: quote :: t) buf = quoted_text t (buf ++ [quote]).
Proof. unfold quoted_text. rewrite !cut_cons by done. cbn [fst snd]. by rewrite !quoted_unfold. Qed.
Lemma quoted_comma t buf : quoted_text (quote :: comma :: t) buf = Ok (buf, Some (cut t).1, (cut t).2).
Proof. unfold quoted_text. rewrite !cut_cons by done. cbn [fst snd]. by rewrite quoted_unfold. Qed.
Lemma quoted_end t buf : quoted_text (quote :: 10 :: t) buf = Ok (buf, None, lines t).
Proof. unfold quoted_text. rewrite cut_cons, cut_line by done. cbn [fst snd]. by rewrite quoted_unfold. Qed.

Lemma quoted_field f t buf : t ≠ [] → quoted_text (escape_quotes f ++ t) buf = quoted_text t (buf ++ f).
Proof.
  intros Ht. revert buf. induction f as [|c f IH]; intros buf; [by rewrite app_nil_r|]. cbn [escape_quotes mbind list_bind].
  fold (escape_quotes f). destruct (Z.eqb_spec c quote) as [->|Hc].
  - cbn [app]. rewrite quoted_double, IH. by rewrite <- app_assoc.
  - cbn [app]. rewrite quoted_plain, IH; [by rewrite <- app_assoc|done|]. by destruct (escape_quotes f).
Qed.

Lemma cut_plain f t : Forall (λ c, special c = false) f → cut (f ++ t) = (f ++ (cut t).1, (cut t).2).
Proof.
  induction 1 as [|c f Hc _ IH]; [by rewrite !app_nil_l, <- surjective_pairing|]. cbn [app]. rewrite cut_cons, IH; [done|]. unfold special in Hc. lia.
Qed.
Lemma unquoted_comma f l : Forall (λ c, special c = false) f → unquoted (f ++ comma :: l) = (f, Some l).
Proof.
  induction 1 as [|c f Hc _ IH]; cbn [app unquoted]; [done|]. unfold special, comma, quote in *.
  destruct (Z.eqb_spec c 44); [lia|]. destruct (Z.eqb_spec c 10); [lia|]. cbn [andb]. by rewrite IH.
Qed.
Lemma unquoted_end f : Forall (λ c, special c = false) f → unquoted (f ++ [10]) = (f, None).
Proof.
  induction 1 as [|c f Hc _ IH]; cbn [app unquoted]; [done|]. unfold special, comma, quote in *.
  destruct (Z.eqb_spec c 44); [lia|]. destruct (Z.eqb_spec c 10); [lia|]. cbn [andb]. by rewrite IH.
Qed.
Lemma plain_no_quote f : Forall (λ c, special c = false) f → existsb (Z.eqb quote) f = false.
Proof. induction 1 as [|c f Hc _ IH]; cbn [existsb]; [done|]. rewrite IH. unfold special, quote in *. lia. Qed.

Lemma plain_field f : fieldNeedsQuotes f = false → Forall (λ c, special c = false) f.
Proof.
  unfold fieldNeedsQuotes. destruct f as [|c f]; [constructor|]. cbn [negb bool_decide andb]. rewrite bool_decide_eq_false_2 by done. cbn [negb andb].
  intros [[_ H]%orb_false_elim _]%orb_false_elim. by apply existsb_false.
Qed.

(** One field in front of a comma or of the end of the record. *)
Definition read_text (fuel : nat) (t : list Z) (acc : list (list Z)) := read_fields fuel (cut t).2 (cut t).1 acc.

Lemma read_field_comma fuel f t acc : read_text (S fuel) (write_field f ++ comma :: t) acc = read_text fuel t (acc ++ [f]).
Proof.
  unfold write_field. destruct (fieldNeedsQuotes f) eqn:E.
  - unfold read_text at 1. rewrite <- app_comm_cons, cut_cons by done. cbn [fst snd read_fields]. rewrite Z.eqb_refl.
    fold (quoted_text ((escape_quotes f ++ [quote]) ++ comma :: t) []). rewrite <- app_assoc. cbn [app].
    by rewrite quoted_field, quoted_comma.
  - apply plain_field in E as Hp. unfold read_text at 1. rewrite cut_plain, cut_cons by done. cbn [fst snd].
    assert (∃ c l, f ++ comma :: (cut t).1 = c :: l ∧ (c =? quote) = false) as (c & l & El & Hc).
    { destruct f as [|c f]; [by eexists _, _|]. apply Forall_cons in Hp as [Hc _]. eexists c, _. split; [reflexivity|]. unfold special, quote in *. lia. }
    cbn [read_fields]. rewrite El, Hc, <- El, unquoted_comma, plain_no_quote by done. reflexivity.
Qed.
Lemma read_field_end fuel f t acc : read_text (S fuel) (write_field f ++ 10 :: t) acc = Ok (acc ++ [f], lines t).
Proof.
  unfold write_field. destruct (fieldNeedsQuotes f) eqn:E.
  - unfold read_text. rewrite <- app_comm_cons, cut_cons by done. cbn [fst snd read_fields]. rewrite Z.eqb_refl.
    fold (quoted_text ((escape_quotes f ++ [quote]) ++ 10 :: t) []). rewrite <- app_assoc. cbn [app].
    by rewrite quoted_field, quoted_end.
  - apply plain_field in E as Hp. unfold read_text. rewrite cut_plain, cut_line by done. cbn [fst snd].
    assert (∃ c l, f ++ [10] = c :: l ∧ (c =? quote) = false) as (c & l & El & Hc).
    { destruct f as [|c f]; [by eexists _, _|]. apply Forall_cons in Hp as [Hc _]. eexists c, _. split; [reflexivity|]. unfold special, quote in *. lia. }
    cbn [read_fields]. rewrite El, Hc, <- El, unquoted_end, plain_no_quote by done. reflexivity.
Qed.

Lemma read_fields_write fields : ∀ fuel t acc, fields ≠ [] → (length fields <= fuel)%nat →
  read_text fuel (write_fields fields ++ 10 :: t) acc = Ok (acc ++ fields, lines t).
Proof.
  induction fields as [|f fields IH]; intros fuel t acc Hne Hf; [done|]. destruct fuel as [|fuel]; [cbn in Hf; lia|].
  destruct fields as [|g fields]; [apply read_field_end|]. cbn [write_fields]. fold (write_fields (g :: fields)).
  rewrite <- app_assoc. cbn [app]. rewrite read_field_comma, IH by (done || cbn in *; lia). by rewrite <- app_assoc.
Qed.

(** A record that is not the single empty field, which is written as an empty line. *)
Definition writable (fields : list (list Z)) : Prop := fields ≠ [] ∧ fields ≠ [[]].

Lemma write_fields_head fields : writable fields → ∃ c l, write_fields fields = c :: l ∧ c ≠ 10.
Proof.
  intros [H1 H2]. assert (∀ f, f ≠ [] → ∃ c l, write_field f = c :: l ∧ c ≠ 10) as Hf.
  { intros f Hf. unfold write_field. destruct (fieldNeedsQuotes f) eqn:E; [by eexists quote, _|]. apply plain_field in E.
    destruct f as [|c f]; [done|]. apply Forall_cons in E as [Hc _]. exists c, f. split; [done|]. unfold special in Hc. lia. }
  destruct fields as [|f [|g fields]]; [done|apply Hf; congruence|]. cbn [write_fields]. destruct (decide (f = [])) as [->|Hne].
  - by eexists comma, _.
  - destruct (Hf f Hne) as (c & l & -> & Hc). by eexists c, _.
Qed.
Lemma write_fields_length fields : (length fields <= S (length (write_fields fields)))%nat.
Proof.
  induction fields as [|f [|g fields] IH]; [cbn; lia|cbn; lia|]. change (write_fields (f :: g :: fields)) with (write_field f ++ comma :: write_fields (g :: fields)).
  rewrite length_app. cbn [length] in *. lia.
Qed.

Lemma read_record_write fields t : writable fields → read_record (lines (write_record fields ++ t)) = Ok (Some (fields, lines t)).
Proof.
  intros Hw. destruct (write_fields_head fields Hw) as (c & l & E & Hc). unfold write_record. rewrite <- app_assoc. cbn [app].
  set (text := write_fields fields ++ 10 :: t). assert (text ≠ []) as Ht by (unfold text; by rewrite E).
  rewrite (lines_cut text Ht). cbn [read_record]. rewrite <- (lines_cut text Ht).
  assert ((cut text).1 ≠ [] ∧ (cut text).1 ≠ [10]) as [H1 H2].
  { unfold text. rewrite E, <- app_comm_cons, cut_cons by done. cbn. split; [done|]. congruence. }
  rewrite !bool_decide_eq_false_2 by done. cbn [orb]. fold (read_text (S (text_size (lines text))) text []).
  unfold text at 2. rewrite read_fields_write; [done|apply Hw|].
  unfold text_size. rewrite concat_lines. unfold text. rewrite length_app. cbn [length]. pose proof (write_fields_length fields). lia.
Qed.

Lemma read_records_write records : Forall writable records → ∀ fuel width t, (length records < fuel)%nat →
  (∀ w, width = Some w → Forall (λ r, length r = w) records) → t = [] →
  read_records fuel width (lines (write_records records ++ t)) = Ok records.
Proof.
  intros Hw. induction Hw as [|r records Hr _ IH]; intros fuel width t Hf Hlen ->; destruct fuel as [|fuel]; cbn in Hf; try lia; [done|].
  cbn [read_records write_records mbind list_bind]. fold (write_records records). rewrite <- app_assoc, read_record_write by done. cbn [mbind res_bind].
  assert ((match width with Some w => negb (length r =? w)%nat | None => false end) = false) as ->.
  { destruct width as [w|]; [|done]. specialize (Hlen w eq_refl). apply Forall_cons in Hlen as [-> _]. by rewrite Nat.eqb_refl. }
  rewrite IH; [done|lia| |done]. intros w E. specialize (Hlen w E). by apply Forall_cons in Hlen as [_ ?].
Qed.

Lemma write_field_cr f : (13 ∉ f) → 13 ∉ write_field f.
Proof.
  intros Hf. unfold write_field. destruct (fieldNeedsQuotes f); [|done]. rewrite not_elem_of_cons, not_elem_of_app, not_elem_of_cons.
  split; [done|]. split; [|split; [done|apply not_elem_of_nil]]. unfold escape_quotes. intros (c & Hc & Hin)%list_elem_of_bind.
  destruct (c =? quote); repeat (apply elem_of_cons in Hc as [Hc|Hc]; [by subst|]); by apply not_elem_of_nil in Hc.
Qed.
Lemma write_fields_cr fields : Forall (λ f, 13 ∉ f) fields → 13 ∉ write_fields fields.
Proof.
  induction 1 as [|f fields Hf _ IH]; [apply not_elem_of_nil|]. destruct fields as [|g fields]; [by apply write_field_cr|].
  change (write_fields (f :: g :: fields)) with (write_field f ++ comma :: write_fields (g :: fields)).
  rewrite not_elem_of_app, not_elem_of_cons. split; [by apply write_field_cr|]. by split.
Qed.
Lemma write_records_cr records : Forall (Forall (λ f, 13 ∉ f)) records → 13 ∉ write_records records.
Proof.
  intros H (r & Hr & Hin)%list_elem_of_bind. rewrite Forall_forall in H. specialize (H r Hin). unfold write_record in Hr.
  apply elem_of_app in Hr as [Hr|Hr%list_elem_of_singleton]; [|done]. by apply (write_fields_cr r).
Qed.

(** Records whose fields contain no carriage return are read back exactly as they
    were written, whatever commas, quotes, line feeds or blanks the fields contain; only
    the record that consists of one empty field cannot be told from an empty line. *)
Theorem csv_roundtrip records :
  Forall writable records → Forall (Forall (λ f, 13 ∉ f)) records → ReadAll (write_records records) = Ok records.
Proof.
  intros Hw Hcr. unfold ReadAll. rewrite read_lines_plain by by apply write_records_cr.
  rewrite <- (app_nil_r (write_records records)) at 2. apply read_records_write; [done| |done|done].
  clear -Hw. induction Hw as [|r records Hr _ IH]; cbn; [lia|]. fold (write_records records). rewrite length_app. unfold write_record. rewrite length_app. cbn. lia.
Qed.

Lemma csv_roundtrip_witness :
  let records := [[bytes "a,b"; [34; 10; 34]; []]; [[]; bytes " x"; bytes "="]] in
  Forall writable records ∧ ReadAll (write_records records) = Ok records.
Proof.
  intros records. assert (Forall writable records) as Hw by (repeat constructor; done). split; [exact Hw|].
  apply csv_roundtrip; [exact Hw|].
  match goal with |- ?P => apply (bool_decide_unpack P); vm_compute; exact I end.
Defined.

(** * Cells *)
Definition apostrophe : Z := 39.
(** Runes that open a formula in a spreadsheet, and the escape itself. *)
Definition formula_rune (r : Z) : bool := (r =? 61) || (r =? 43) || (r =? 45) || (r =? 64) || (r =? apostrophe).
Definition needsCSVFormulaEscape (value : list Z) : bool :=
  if bool_decide (value = []) then false
  else
    let rw := DecodeRune value in
    invalid_rune rw || formula_rune rw.1 || IsSpace rw.1 || IsControl rw.1 || Cf rw.1.

Inductive cellerr := EUselessEscape | EUnescapedCell | EEmptyEncoding | EBadEncoding.
Definition encodeCSVTextCell (value : list Z) : list Z := if needsCSVFormulaEscape value then apostrophe :: value else value.
Definition decodeCSVTextCellV2 (value : list Z) : res cellerr (list Z) :=
  match value with
  | c :: decoded =>
    if c =? apostrophe then if needsCSVFormulaEscape decoded then Ok decoded else Err EUselessEscape
    else if needsCSVFormulaEscape value then Err EUnescapedCell else Ok value
  | [] => Ok []
  end.

(** Format 3 keeps carriage returns: the whole text goes through Base64 behind a prefix
    that no ledger text starts with. *)
Definition csvV3RawTextPrefix : list Z := 1 :: bytes "omni-money-csv-v3-text:".
Definition csvV3Text (value : list Z) : list Z :=
  encodeCSVTextCell (if existsb (Z.eqb 13) value then csvV3RawTextPrefix ++ raw_encode b64_char value else value).
Definition strip_prefix (p l : list Z) : option (list Z) := if bool_decide (take (length p) l = p) then Some (drop (length p) l) else None.
Definition decodeCSVV3TextCell (value : list Z) : res cellerr (list Z) :=
  decoded ← decodeCSVTextCellV2 value;
  match strip_prefix csvV3RawTextPrefix decoded with
  | None => Ok decoded
  | Some encoded =>
    if bool_decide (encoded = []) then Err EEmptyEncoding
    else match raw_decode_string b64_value true encoded with
         | None => Err EBadEncoding
         | Some raw => if valid_bytes raw then Ok raw else Err EBadEncoding
         end
  end.

Lemma apostrophe_escaped l : needsCSVFormulaEscape (apostrophe :: l) = true.
Proof.
  unfold needsCSVFormulaEscape. rewrite bool_decide_eq_false_2 by done.
  assert (DecodeRune (apostrophe :: l) = (apostrophe, 1%nat)) as -> by reflexivity. reflexivity.
Qed.

Lemma decode_encode_cell value : decodeCSVTextCellV2 (encodeCSVTextCell value) = Ok value.
Proof.
  unfold encodeCSVTextCell. destruct (needsCSVFormulaEscape value) eqn:E.
  - cbn. by rewrite E.
  - destruct value as [|c value]; [done|]. cbn [decodeCSVTextCellV2]. destruct (Z.eqb_spec c apostrophe) as [->|]; [by rewrite apostrophe_escaped in E|].
    by rewrite E.
Qed.

(** Text cells: a cell is accepted exactly when it is the escaped form of the text
    it decodes to, and an exported cell never starts with a rune that a spreadsheet
    takes for a formula, a blank or an invisible character, unless it is the escape. *)
Theorem csv_cells_canonical cell value :
  (decodeCSVTextCellV2 cell = Ok value ↔ cell = encodeCSVTextCell value) ∧
  (needsCSVFormulaEscape (encodeCSVTextCell value) = true → head (encodeCSVTextCell value) = Some apostrophe).
Proof.
  split; [split|].
  - destruct cell as [|c cell]; cbn [decodeCSVTextCellV2]; [by intros [= <-]|]. destruct (Z.eqb_spec c apostrophe) as [->|Hc].
    + destruct (needsCSVFormulaEscape cell) eqn:E; [|done]. intros [= <-]. unfold encodeCSVTextCell. by rewrite E.
    + destruct (needsCSVFormulaEscape (c :: cell)) eqn:E; [done|]. intros [= <-]. unfold encodeCSVTextCell. by rewrite E.
  - intros ->. apply decode_encode_cell.
  - unfold encodeCSVTextCell. destruct (needsCSVFormulaEscape value) eqn:E; [done|]. congruence.
Qed.

Lemma b64_char_range v : 0 <= v < 64 → 43 <= b64_char v <= 122.
Proof. intros Hv. unfold b64_char. repeat case_match; lia. Qed.

Lemma strip_prefix_app p l : strip_prefix p (p ++ l) = Some l.
Proof. unfold strip_prefix. by rewrite take_app_length, bool_decide_eq_true_2, drop_app_length. Qed.

(** A text of format 3 is read back exactly, carriage returns included, and its
    cell contains none, so that the CSV layer cannot change it; the text must be UTF-8
    and must not start with the reserved prefix, which no ledger text does. *)
Theorem csvV3Text_roundtrip value :
  Forall is_byte value → valid_bytes value = true → strip_prefix csvV3RawTextPrefix value = None →
  decodeCSVV3TextCell (csvV3Text value) = Ok value ∧ (13 ∉ csvV3Text value).
Proof.
  intros Hb Hv Hp. unfold decodeCSVV3TextCell, csvV3Text. rewrite decode_encode_cell. cbn [mbind res_bind].
  destruct (existsb (Z.eqb 13) value) eqn:E.
  - rewrite strip_prefix_app. assert (value ≠ []) as Hne by (by intros ->). split.
    + rewrite bool_decide_eq_false_2 by (destruct value as [|x [|y [|z l]]]; done).
      rewrite (raw_string_roundtrip b64_char b64_value b64_value_char b64_char_range) by done. by rewrite Hv.
    + assert (13 ∉ csvV3RawTextPrefix ++ raw_encode b64_char value) as Hn.
      { rewrite not_elem_of_app. split; [by vm_compute; repeat (apply not_elem_of_cons; split; [done|]); apply not_elem_of_nil|].
        pose proof (raw_encode_range b64_char b64_char_range value Hb) as Hr. rewrite Forall_forall in Hr. intros Hin. specialize (Hr _ Hin). lia. }
      unfold encodeCSVTextCell. destruct (needsCSVFormulaEscape _); [|done]. by apply not_elem_of_cons.
  - rewrite Hp. split; [done|]. assert (13 ∉ value) as Hn.
    { intros Hin. apply existsb_false in E. rewrite Forall_forall in E. specialize (E _ Hin). done. }
    unfold encodeCSVTextCell. destruct (needsCSVFormulaEscape _); [|done]. by apply not_elem_of_cons.
Qed.

Lemma csvV3Text_roundtrip_witness :
  decodeCSVV3TextCell (csvV3Text (bytes "=a" ++ [13; 10; 195; 169])) = Ok (bytes "=a" ++ [13; 10; 195; 169]).
Proof.
  refine (proj1 (csvV3Text_roundtrip _ _ _ _)).
  - match goal with |- ?P => apply (bool_decide_unpack P); vm_compute; exact I end.
  - reflexivity.
  - reflexivity.
Defined.
