(* ===== verification/CsvGuard.v ===== *)
(** The guards of the CSV paths of [core/service_csv_full.go]: the byte automaton that
    bounds fields and records before [encoding/csv] buffers them, the limit on the whole
    input, and the limited writer of the exports. The main theorem relates the automaton
    to the reader of [encoding/csv] behind it: whatever the chunks of the input, every
    record the reader returns is within the limits. *)
From Stdlib Require Import ZArith Lia.
From stdpp Require Import base gmap list strings.
From S2P Require Import Prelude GoText Validation Settings GoTime ImageContainers Schema Balance Tags Links Images CsvText.
Open Scope Z_scope.

Definition MaxCSVImportBytes : Z := 512 * 1024 * 1024.
Definition MaxCSVStringImportBytes : Z := 64 * 1024 * 1024.
Definition MaxCSVImportWireBytes : Z := MaxCSVImportBytes + 8 * 1024 * 1024.
Definition MaxCSVJSONWireBytes : Z := MaxCSVStringImportBytes + 1 * 1024 * 1024.
Definition maxCSVExportBytes : Z := MaxCSVImportBytes - 3.
Definition maxCSVRows : Z := 1000000.
Definition maxCSVFieldBytes : Z := 8 * 1024 * 1024.
Definition maxCSVRecordBytes : Z := 32 * 1024 * 1024.
Definition maxCSVRecordFields : Z := 256.
Definition maxCSVGuardFieldBytes : Z := maxCSVFieldBytes * 2 + 128.
Definition maxCSVParsedTextBytes : Z := 64 * 1024 * 1024.
Definition MaxCSVTempBudgetBytes : Z := 2 * MaxCSVImportWireBytes.

(** * The field limit reader *)
Inductive guarderr := EFieldSize | ERecordSize | EDecodedSize | EFieldNumber | EQuotedCR.

Record csvFieldLimitReader := FieldLimitReader {
  fieldBytes : Z;
  recordBytes : Z;
  recordDecodedBytes : Z;
  recordFields : Z;
  inQuotes : bool;
  quotePending : bool;
  fieldStart : bool;
  pendingCR : bool
}.
(** The reader as its constructors leave it. *)
Definition new_reader : csvFieldLimitReader := FieldLimitReader 0 0 0 0 false false true false.

Definition set_pendingCR (b : bool) (r : csvFieldLimitReader) :=
  FieldLimitReader (fieldBytes r) (recordBytes r) (recordDecodedBytes r) (recordFields r) (inQuotes r) (quotePending r) (fieldStart r) b.
Definition set_quotePending (b : bool) (r : csvFieldLimitReader) :=
  FieldLimitReader (fieldBytes r) (recordBytes r) (recordDecodedBytes r) (recordFields r) (inQuotes r) b (fieldStart r) (pendingCR r).
Definition set_inQuotes (b : bool) (r : csvFieldLimitReader) :=
  FieldLimitReader (fieldBytes r) (recordBytes r) (recordDecodedBytes r) (recordFields r) b (quotePending r) (fieldStart r) (pendingCR r).
Definition set_fieldStart (b : bool) (r : csvFieldLimitReader) :=
  FieldLimitReader (fieldBytes r) (recordBytes r) (recordDecodedBytes r) (recordFields r) (inQuotes r) (quotePending r) b (pendingCR r).
Definition set_recordBytes (n : Z) (r : csvFieldLimitReader) :=
  FieldLimitReader (fieldBytes r) n (recordDecodedBytes r) (recordFields r) (inQuotes r) (quotePending r) (fieldStart r) (pendingCR r).
Definition set_recordFields (n : Z) (r : csvFieldLimitReader) :=
  FieldLimitReader (fieldBytes r) (recordBytes r) (recordDecodedBytes r) n (inQuotes r) (quotePending r) (fieldStart r) (pendingCR r).
(** The next field, and the next record. *)
Definition next_field (r : csvFieldLimitReader) :=
  FieldLimitReader 0 (recordBytes r) (recordDecodedBytes r) (recordFields r) (inQuotes r) (quotePending r) true (pendingCR r).
Definition next_record (r : csvFieldLimitReader) :=
  FieldLimitReader 0 0 0 1 (inQuotes r) (quotePending r) true (pendingCR r).

Section Guard.
  Context (maxFieldBytes : Z) (rejectQuotedCR : bool).

(** One decoded byte. *)
Definition add_decoded (r : csvFieldLimitReader) : res guarderr csvFieldLimitReader :=
  let r' := FieldLimitReader (fieldBytes r + 1) (recordBytes r) (recordDecodedBytes r + 1) (recordFields r) (inQuotes r) (quotePending r)
              (fieldStart r) (pendingCR r) in
  if fieldBytes r' >? maxFieldBytes then Err EFieldSize
  else if recordDecodedBytes r' >? maxCSVRecordBytes then Err EDecodedSize
  else Ok r'.

(** The byte outside the pending carriage return and quote. *)
Definition consume_byte (r : csvFieldLimitReader) (b : Z) : res guarderr csvFieldLimitReader :=
  if inQuotes r then
    if b =? 13 then Ok (set_pendingCR true r)
    else if b =? quote then Ok (set_quotePending true r)
    else add_decoded r
  else if fieldStart r && (b =? quote) then Ok (set_fieldStart false (set_inQuotes true r))
  else if b =? comma then
    let r' := set_recordFields (recordFields r + 1) r in
    if recordFields r' >? maxCSVRecordFields then Err EFieldNumber else Ok (next_field r')
  else if b =? 10 then Ok (next_record r)
  else if b =? 13 then Ok (set_pendingCR true r)
  else add_decoded (set_fieldStart false r).

Definition consume_quote (r : csvFieldLimitReader) (b : Z) : res guarderr csvFieldLimitReader :=
  if quotePending r then
    let r' := set_quotePending false r in
    if b =? quote then add_decoded r' else consume_byte (set_inQuotes false r') b
  else consume_byte r b.

Definition consume (r : csvFieldLimitReader) (b : Z) : res guarderr csvFieldLimitReader :=
  let r := set_recordBytes (recordBytes r + 1) r in
  if recordBytes r >? maxCSVRecordBytes then Err ERecordSize
  else if pendingCR r then
    let r := set_pendingCR false r in
    if b =? 10 then
      if inQuotes r then if rejectQuotedCR then Err EQuotedCR else add_decoded r
      else Ok (next_record r)
    else if inQuotes r && rejectQuotedCR then Err EQuotedCR
    else r ← add_decoded r; consume_quote r b
  else consume_quote r b.

(** The loop of [Read]: the bytes delivered before the first error. *)
Fixpoint consume_all (r : csvFieldLimitReader) (p : list Z) : csvFieldLimitReader * list Z * option guarderr :=
  match p with
  | [] => (r, [], None)
  | b :: p' =>
    match consume r b with
    | Err e => (r, [], Some e)
    | Ok r' => let '(r'', out, e) := consume_all r' p' in (r'', b :: out, e)
    end
  end.

Definition at_eof (r : csvFieldLimitReader) : res guarderr csvFieldLimitReader :=
  if pendingCR r then
    if inQuotes r && rejectQuotedCR then Err EQuotedCR
    else
      let r' := set_pendingCR false r in
      let r' := FieldLimitReader (fieldBytes r' + 1) (recordBytes r') (recordDecodedBytes r') (recordFields r') (inQuotes r')
                  (quotePending r') (fieldStart r') (pendingCR r') in
      if fieldBytes r' >? maxFieldBytes then Err EFieldSize else Ok r'
  else Ok r.

(** [Read] of a chunk [p]; [eof] says that the input ends with it. *)
Definition Read (r : csvFieldLimitReader) (p : list Z) (eof : bool) : csvFieldLimitReader * list Z * option guarderr :=
  let r := if recordFields r =? 0 then set_recordFields 1 r else r in
  match consume_all r p with
  | (r', out, Some e) => (r', out, Some e)
  | (r', out, None) =>
    if eof then match at_eof r' with Err e => (r', out, Some e) | Ok r'' => (r'', out, None) end
    else (r', out, None)
  end.

(** What the consumer sees of an input that arrives in [chunks]. *)
Fixpoint read_chunks (r : csvFieldLimitReader) (chunks : list (list Z)) : list Z * option guarderr :=
  match chunks with
  | [] => ([], None)
  | p :: chunks' =>
    match Read r p (bool_decide (chunks' = [])) with
    | (_, out, Some e) => (out, Some e)
    | (r', out, None) => let '(out', e) := read_chunks r' chunks' in (out ++ out', e)
    end
  end.

End Guard.

(** * Chunks do not matter *)
Section Chunks.
  Context (maxFieldBytes : Z) (rejectQuotedCR : bool).
  Abbreviation consume := (consume maxFieldBytes rejectQuotedCR).
  Abbreviation consume_all := (consume_all maxFieldBytes rejectQuotedCR).
  Abbreviation read_chunks := (read_chunks maxFieldBytes rejectQuotedCR).

Lemma add_decoded_inv r r' : add_decoded maxFieldBytes r = Ok r' →
  r' = FieldLimitReader (fieldBytes r + 1) (recordBytes r) (recordDecodedBytes r + 1) (recordFields r) (inQuotes r) (quotePending r)
         (fieldStart r) (pendingCR r) ∧
  fieldBytes r + 1 <= maxFieldBytes ∧ recordDecodedBytes r + 1 <= maxCSVRecordBytes.
Proof.
  unfold add_decoded. cbn [fieldBytes recordDecodedBytes]. rewrite !Z.gtb_ltb.
  destruct (Z.ltb_spec maxFieldBytes (fieldBytes r + 1)); [done|].
  destruct (Z.ltb_spec maxCSVRecordBytes (recordDecodedBytes r + 1)); [done|]. intros [= <-]. done.
Qed.

Lemma consume_fields r b r' : consume r b = Ok r' → 1 <= recordFields r → 1 <= recordFields r'.
Proof.
  unfold CsvGuard.consume, consume_quote, consume_byte. intros E Hr.
  repeat (simpl in E; case_match; simplify_eq; try done);
    repeat match goal with
           | H : (_ ← add_decoded _ _; _) = Ok _ |- _ => destruct (add_decoded maxFieldBytes _) eqn:?; [|done]; cbn [mbind res_bind] in H
           | H : add_decoded _ _ = Ok _ |- _ => apply add_decoded_inv in H as (-> & _ & _)
           | _ => progress (repeat case_match; simplify_eq; try done)
           end; simpl in *; lia.
Qed.

Lemma consume_all_fields p : ∀ r r' out e, consume_all r p = (r', out, e) → 1 <= recordFields r → 1 <= recordFields r'.
Proof.
  induction p as [|b p IH]; intros r r' out e E Hr; cbn in E; [by simplify_eq|].
  destruct (consume r b) as [r1|] eqn:E1; [|by simplify_eq].
  destruct (consume_all r1 p) as [[r2 o2] e2] eqn:E2. simplify_eq. eapply IH; [done|]. by eapply consume_fields.
Qed.

Lemma consume_all_app p q : ∀ r, consume_all r (p ++ q) =
  match consume_all r p with
  | (r', out, None) => let '(r'', out', e) := consume_all r' q in (r'', out ++ out', e)
  | stop => stop
  end.
Proof.
  induction p as [|b p IH]; intros r; cbn [app CsvGuard.consume_all]; [by destruct (consume_all r q) as [[??]?]|].
  destruct (consume r b) as [r1|]; [|done]. rewrite IH. destruct (consume_all r1 p) as [[r2 o2] [e2|]]; [done|].
  by destruct (consume_all r2 q) as [[r3 o3] e3].
Qed.

Lemma read_chunks_concat chunks : ∀ r, 1 <= recordFields r → chunks ≠ [] →
  read_chunks r chunks = read_chunks r [concat chunks].
Proof.
  assert (∀ r, 1 <= recordFields r → (if recordFields r =? 0 then set_recordFields 1 r else r) = r) as Hn.
  { intros r Hr. destruct (Z.eqb_spec (recordFields r) 0); [lia|done]. }
  induction chunks as [|p [|q chunks] IH]; intros r Hr Hne; [done|by cbn [concat]; rewrite app_nil_r|].
  set (tail := q :: chunks) in *. assert (tail ≠ []) as Ht by done. clearbody tail. cbn [CsvGuard.read_chunks concat].
  rewrite (bool_decide_eq_false_2 (tail = [])), (bool_decide_eq_true_2 ([] = [])) by done. unfold Read. rewrite Hn, consume_all_app by done.
  destruct (consume_all r p) as [[r1 o1] [e1|]] eqn:E1; [done|].
  pose proof (consume_all_fields _ _ _ _ _ E1 Hr) as Hr1. rewrite (IH r1 Hr1 Ht). cbn [CsvGuard.read_chunks].
  rewrite (bool_decide_eq_true_2 ([] = [])) by done. unfold Read. rewrite Hn by done.
  destruct (consume_all r1 (concat tail)) as [[r2 o2] [e2|]]; [done|]. destruct (at_eof _ _ r2); by rewrite ?app_nil_r.
Qed.

(** The automaton over a whole text. *)
Fixpoint run (r : csvFieldLimitReader) (p : list Z) : res guarderr csvFieldLimitReader :=
  match p with [] => Ok r | b :: p' => r' ← consume r b; run r' p' end.

Lemma consume_all_run p : ∀ r r' out, consume_all r p = (r', out, None) ↔ out = p ∧ run r p = Ok r'.
Proof.
  induction p as [|b p IH]; intros r r' out; cbn; [naive_solver|].
  destruct (consume r b) as [r1|]; cbn [mbind res_bind]; [|naive_solver].
  destruct (consume_all r1 p) as [[r2 o2] e2] eqn:E2. split.
  - intros [= <- <- ->]. apply IH in E2 as [-> ?]. done.
  - intros [-> E]. pose proof (proj2 (IH r1 r' p) (conj eq_refl E)) as E3. rewrite E2 in E3. by simplify_eq.
Qed.

Definition start : csvFieldLimitReader := FieldLimitReader 0 0 0 1 false false true false.
Lemma read_new_reader chunks : chunks ≠ [] → read_chunks new_reader chunks = read_chunks start [concat chunks].
Proof.
  intros Hne. rewrite <- read_chunks_concat by done. by destruct chunks as [|p chunks].
Qed.

Lemma read_chunks_ok chunks out : chunks ≠ [] → read_chunks new_reader chunks = (out, None) →
  out = concat chunks ∧ ∃ r, run start (concat chunks) = Ok r.
Proof.
  intros Hne. rewrite read_new_reader by done. cbn [CsvGuard.read_chunks]. rewrite bool_decide_eq_true_2 by done. unfold Read. cbn [recordFields start Z.eqb].
  destruct (consume_all start (concat chunks)) as [[r o] [e|]] eqn:E; [done|]. apply consume_all_run in E as [-> E].
  destruct (at_eof _ _ r); [|done]. rewrite app_nil_r. intros [= <-]. eauto.
Qed.

End Chunks.

(** * The reader behind the automaton *)
(** The text as the reader sees it: CRLF is LF, and a last carriage return is dropped. *)
Fixpoint norm_text (t : list Z) : list Z :=
  match t with
  | [] => []
  | c :: t' =>
    if c =? 13 then match t' with [] => [] | d :: _ => if d =? 10 then norm_text t' else 13 :: norm_text t' end
    else c :: norm_text t'
  end.

Lemma lines_cons c t : lines (c :: t) = if c =? 10 then [10] :: lines t else (c :: (cut t).1) :: (cut t).2.
Proof. cbn [lines]. unfold cut. destruct (c =? 10); [done|]. by destruct (lines t). Qed.

Lemma norm_line_cons c l : c ≠ 13 → norm_line (c :: l) = c :: norm_line l.
Proof. intros Hc. destruct c as [|p|p]; try done. do 4 (destruct p as [p|p|]; try done). Qed.

Lemma cut_nonempty c t : (cut (c :: t)).1 ≠ [].
Proof. unfold cut. rewrite lines_cons. by destruct (c =? 10). Qed.

Lemma norm_line_cr l : l ≠ [] → l ≠ [10] → norm_line (13 :: l) = 13 :: norm_line l.
Proof. intros H1 H2. destruct l as [|c [|d l]]; [done| |]; destruct c as [|p|p]; try done; do 4 (destruct p as [p|p|]; try done). Qed.

(** Up to an empty line at the end, which the reader skips. *)
Definition same_lines (ls ls' : list (list Z)) : Prop := ls = ls' ∨ ls = ls' ++ [[]].

Lemma same_lines_cons c t t' : c ≠ 10 → t ≠ [] → norm_line (c :: (cut t).1) = c :: norm_line (cut t).1 →
  same_lines (read_lines t) (lines t') → same_lines (read_lines (c :: t)) (lines (c :: t')).
Proof.
  intros Hc Ht Hn IH. unfold read_lines in *. rewrite !lines_cons. destruct (Z.eqb_spec c 10); [done|].
  rewrite lines_cut in IH by done. destruct (cut t) as [x xs]. cbn [fmap list_fmap fst snd] in *. rewrite Hn. unfold same_lines, cut in *.
  destruct (lines t') as [|l ls]; cbn [app fst snd] in *.
  - destruct IH as [IH|IH]; [done|]. injection IH as -> ->. by left.
  - destruct IH as [IH|IH]; injection IH as -> ->; [by left|by right].
Qed.

Lemma read_lines_norm t : same_lines (read_lines t) (lines (norm_text t)).
Proof.
  induction t as [|c t IH]; [by left|]. cbn [norm_text]. destruct (Z.eqb_spec c 13) as [->|Hc].
  - destruct t as [|d t]; [by right|]. destruct (Z.eqb_spec d 10) as [->|Hd].
    + cbn [norm_text Z.eqb Pos.eqb] in IH |- *. unfold read_lines in *. rewrite !lines_cons in IH. rewrite !lines_cons.
      cbn [Z.eqb Pos.eqb] in IH |- *. by rewrite cut_line.
    + apply same_lines_cons; [done|done| |done]. apply norm_line_cr; [apply cut_nonempty|]. unfold cut. rewrite lines_cons.
      destruct (Z.eqb_spec d 10); [done|]. cbn. congruence.
  - destruct (Z.eqb_spec c 10) as [->|Hc10].
    + unfold read_lines, same_lines in *. rewrite !lines_cons. cbn [Z.eqb Pos.eqb fmap list_fmap norm_line app]. destruct IH as [IH|IH]; rewrite IH; auto.
    + destruct t as [|d t].
      * left. unfold read_lines. rewrite !lines_cons. destruct (Z.eqb_spec c 10); [done|]. cbn [cut lines fst snd fmap list_fmap norm_text]. by rewrite norm_line_cons.
      * apply same_lines_cons; [done|done|by apply norm_line_cons|done].
Qed.

(** The reader on lines with an empty one at the end. *)
Lemma quoted_trailing rest : ∀ line buf, quoted (rest ++ [[]]) line buf =
  match quoted rest line buf with Ok (f, l, rest') => Ok (f, l, rest' ++ [[]]) | Err e => Err e end.
Proof.
  induction rest as [|l rest IH]; intros line buf; cbn [app quoted]; destruct (quoted_line line buf) as [b|b l'|b|]; done.
Qed.
Lemma read_fields_trailing fuel : ∀ rest line acc, read_fields fuel (rest ++ [[]]) line acc =
  match read_fields fuel rest line acc with Ok (r, rest') => Ok (r, rest' ++ [[]]) | Err e => Err e end.
Proof.
  induction fuel as [|fuel IH]; intros rest line acc; cbn [read_fields]; [done|]. destruct line as [|c l]; [done|].
  destruct (c =? quote).
  - rewrite quoted_trailing. destruct (quoted rest l []) as [[[f [l'|]] rest']|]; [apply IH|done|done].
  - destruct (unquoted (c :: l)) as [f [l'|]]; destruct (existsb _ f); [done|apply IH|done|done].
Qed.
Lemma text_size_trailing ls : text_size (ls ++ [[]]) = text_size ls.
Proof. unfold text_size. by rewrite concat_app, app_nil_r. Qed.
Lemma read_record_trailing ls : read_record (ls ++ [[]]) =
  match read_record ls with Ok (Some (r, rest)) => Ok (Some (r, rest ++ [[]])) | x => x end.
Proof.
  induction ls as [|line ls IH]; [done|]. change ((line :: ls) ++ [[]]) with (line :: (ls ++ [[]])). cbn [read_record].
  destruct (bool_decide (line = []) || bool_decide (line = [10])); [done|]. change (line :: (ls ++ [[]])) with ((line :: ls) ++ [[]]).
  rewrite text_size_trailing, read_fields_trailing. by destruct (read_fields _ ls line []) as [[r rest]|].
Qed.
Lemma read_records_trailing fuel : ∀ width ls, read_records fuel width (ls ++ [[]]) = read_records fuel width ls.
Proof.
  induction fuel as [|fuel IH]; intros width ls; cbn [read_records]; [done|]. rewrite read_record_trailing.
  destruct (read_record ls) as [[[r rest]|]|]; cbn [mbind res_bind]; try done. by rewrite IH.
Qed.
Lemma ReadAll_norm t : ReadAll t = read_records (S (length t)) None (lines (norm_text t)).
Proof. unfold ReadAll. destruct (read_lines_norm t) as [-> | ->]; [done|]. apply read_records_trailing. Qed.

Section Sound.
  Context (maxFieldBytes : Z) (rejectQuotedCR : bool).
  Abbreviation consume := (consume maxFieldBytes rejectQuotedCR).
  Abbreviation consume_quote := (consume_quote maxFieldBytes).
  Abbreviation add_decoded := (add_decoded maxFieldBytes).
  Abbreviation run := (run maxFieldBytes rejectQuotedCR).

(** The automaton on the text the reader sees: a carriage return is an ordinary byte. *)
Definition scan_byte (r : csvFieldLimitReader) (b : Z) : res guarderr csvFieldLimitReader :=
  if b =? 13 then add_decoded (if quotePending r then set_inQuotes false (set_quotePending false r) else r)
  else consume_quote r b.
Fixpoint scan_all (r : csvFieldLimitReader) (t : list Z) : res guarderr csvFieldLimitReader :=
  match t with [] => Ok r | b :: t' => r' ← scan_byte r b; scan_all r' t' end.

Lemma scan_all_cons r b t : scan_all r (b :: t) = r' ← scan_byte r b; scan_all r' t.
Proof. done. Qed.

(** The state without the size of the raw record and the pending carriage return. *)
Definition core (r : csvFieldLimitReader) : csvFieldLimitReader := set_recordBytes 0 (set_pendingCR false r).

Definition core_of (x : res guarderr csvFieldLimitReader) : res guarderr csvFieldLimitReader := r ← x; Ok (core r).

#[local] Arguments core_of : simpl never.
Lemma core_add r : add_decoded (core r) = core_of (add_decoded r).
Proof. unfold CsvGuard.add_decoded. cbn. by repeat case_match. Qed.
Lemma core_quote r b : b ≠ 13 → consume_quote (core r) b = core_of (consume_quote r b).
Proof.
  intros Hb. unfold CsvGuard.consume_quote, consume_byte. apply Z.eqb_neq in Hb. rewrite Hb. destruct r as [fb rb rd rf iq qp fs pc]. cbn.
  repeat (case_match; try done); match goal with |- _ = core_of (CsvGuard.add_decoded _ ?r) => exact (core_add r) end.
Qed.
Lemma quote_pendingCR r b r' : b ≠ 13 → consume_quote r b = Ok r' → pendingCR r' = pendingCR r.
Proof.
  intros Hb E. unfold CsvGuard.consume_quote, consume_byte in E. apply Z.eqb_neq in Hb. rewrite Hb in E.
  repeat (case_match; simplify_eq; try done); by apply add_decoded_inv in E as (-> & _ & _).
Qed.
Lemma quote_cr r : pendingCR r = false → ∃ r1, consume_quote r 13 = Ok (set_pendingCR true r1) ∧ pendingCR r1 = false ∧ quotePending r1 = false ∧
  core r1 = core (if quotePending r then set_inQuotes false (set_quotePending false r) else r).
Proof.
  intros Hp. unfold CsvGuard.consume_quote, consume_byte. destruct r as [fb rb rd rf iq qp fs pc]. cbn in *. subst pc.
  destruct qp; [|destruct iq]; cbn; rewrite ?andb_false_r; cbn.
  - by exists (FieldLimitReader fb rb rd rf false false fs false).
  - by exists (FieldLimitReader fb rb rd rf true false fs false).
  - by exists (FieldLimitReader fb rb rd rf false false fs false).
Qed.

Lemma consume_plain r b : pendingCR r = false → consume r b =
  if recordBytes r + 1 >? maxCSVRecordBytes then Err ERecordSize else consume_quote (set_recordBytes (recordBytes r + 1) r) b.
Proof. intros Hp. unfold CsvGuard.consume. cbn. by rewrite Hp. Qed.

(** A pending carriage return in front of a line feed vanishes; in front of any other
    byte it is one decoded byte. *)
Lemma consume_pending_lf r x : quotePending r = false → pendingCR r = false → consume (set_pendingCR true r) 10 = Ok x → consume r 10 = Ok x.
Proof.
  intros Hq Hp. rewrite (consume_plain r) by done. unfold CsvGuard.consume, CsvGuard.consume_quote, consume_byte.
  destruct r as [fb rb rd rf iq qp fs pc]. cbn in *. subst qp pc. destruct (_ >? _); [done|]. destruct iq; [by destruct rejectQuotedCR|].
  by rewrite andb_false_r.
Qed.
Lemma consume_pending_other r b x : b ≠ 10 → pendingCR r = false → consume (set_pendingCR true r) b = Ok x →
  ∃ r2, add_decoded r = Ok r2 ∧ pendingCR r2 = false ∧ consume r2 b = Ok x.
Proof.
  intros Hb Hp. unfold CsvGuard.consume at 1. apply Z.eqb_neq in Hb. rewrite Hb. destruct r as [fb rb rd rf iq qp fs pc]. cbn in *. subst pc.
  destruct (_ >? _) eqn:E1; [done|]. destruct (iq && rejectQuotedCR); [done|].
  destruct (CsvGuard.add_decoded _ _) as [r1|] eqn:E; [|done]. cbn [mbind res_bind]. apply add_decoded_inv in E as (-> & Hf & Hd). cbn in *.
  exists (FieldLimitReader (fb + 1) rb (rd + 1) rf iq qp fs false). split_and!; [|done|].
  - unfold CsvGuard.add_decoded. cbn. rewrite !Z.gtb_ltb, !(proj2 (Z.ltb_ge _ _)); done.
  - rewrite consume_plain by done. cbn. by rewrite E1.
Qed.

(** What the automaton admits, the scan of the normalized text admits. *)
Lemma run_scan t : ∀ r r', pendingCR r = false → run r t = Ok r' → ∃ s, scan_all (core r) (norm_text t) = Ok s.
Proof.
  induction t as [|b t IH]; intros r r' Hp; [by eexists|]. cbn [CsvGuard.run]. rewrite consume_plain by done.
  destruct (_ >? _); [done|]. set (r0 := set_recordBytes (recordBytes r + 1) r). assert (core r0 = core r) as E0 by done.
  assert (pendingCR r0 = false) as Hp0 by done. rewrite <- E0. clearbody r0. clear E0 Hp r. cbn [norm_text].
  destruct (Z.eqb_spec b 13) as [->|Hb].
  - destruct (quote_cr r0 Hp0) as (r1 & -> & Hp1 & Hq1 & Ec). cbn [mbind res_bind]. destruct t as [|d t]; [by eexists|].
    cbn [CsvGuard.run]. destruct (consume (set_pendingCR true r1) d) as [x|] eqn:E; [|done]. cbn [mbind res_bind]. intros Hr.
    destruct (Z.eqb_spec d 10) as [->|Hd].
    + apply consume_pending_lf in E; [|done|done]. destruct (IH r1 r' Hp1) as [s Hs]; [cbn [CsvGuard.run]; by rewrite E|].
      exists s. rewrite Ec in Hs. revert Hs. cbn [norm_text Z.eqb Pos.eqb]. rewrite !scan_all_cons. unfold scan_byte.
      destruct r0 as [fb rb rd rf iq [] fs pc]; done.
    + apply consume_pending_other in E as (r2 & Ea & Hp2 & E); [|done|done]. destruct (IH r2 r' Hp2) as [s Hs]; [cbn [CsvGuard.run]; by rewrite E|].
      exists s. rewrite scan_all_cons. unfold scan_byte at 1. cbn [Z.eqb Pos.eqb]. assert ((if quotePending (core r0) then set_inQuotes false (set_quotePending false (core r0)) else core r0) = core r1) as ->.
      { rewrite Ec. cbn. by destruct (quotePending r0). }
      rewrite core_add, Ea. done.
  - destruct (consume_quote r0 b) as [x|] eqn:E; [|done]. cbn [mbind res_bind]. intros Hr.
    destruct (IH x r') as [s Hs]; [by rewrite (quote_pendingCR _ _ _ Hb E)|done|]. exists s. rewrite scan_all_cons. unfold scan_byte at 1.
    destruct (Z.eqb_spec b 13); [done|]. by rewrite core_quote, E.
Qed.

(** States of the scan. *)
Definition st (fb rd rf : Z) (iq qp fs : bool) : csvFieldLimitReader := FieldLimitReader fb 0 rd rf iq qp fs false.
Definition zlen {A} (l : list A) : Z := Z.of_nat (length l).

Lemma scan_add r t s : (r' ← add_decoded r; scan_all r' t) = Ok s →
  fieldBytes r + 1 <= maxFieldBytes ∧ recordDecodedBytes r + 1 <= maxCSVRecordBytes ∧
  scan_all (FieldLimitReader (fieldBytes r + 1) (recordBytes r) (recordDecodedBytes r + 1) (recordFields r) (inQuotes r) (quotePending r)
    (fieldStart r) (pendingCR r)) t = Ok s.
Proof.
  intros H. destruct (add_decoded r) as [r'|] eqn:E; [|done]. apply add_decoded_inv in E as (-> & ? & ?). done.
Qed.

Lemma scan_ordinary fb rd rf fs c t s : c ≠ quote → c ≠ comma → c ≠ 10 → scan_all (st fb rd rf false false fs) (c :: t) = Ok s →
  fb + 1 <= maxFieldBytes ∧ rd + 1 <= maxCSVRecordBytes ∧ ∃ fs', scan_all (st (fb + 1) (rd + 1) rf false false fs') t = Ok s.
Proof.
  intros H1 H2 H3. rewrite scan_all_cons. unfold scan_byte. destruct (Z.eqb_spec c 13) as [->|H4].
  - intros (?&?&?)%scan_add. eauto.
  - unfold CsvGuard.consume_quote, consume_byte. cbn [st quotePending inQuotes fieldStart].
    apply Z.eqb_neq in H1, H2, H3, H4. rewrite H1, H2, H3, H4, andb_false_r. intros (?&?&?)%scan_add. eauto.
Qed.
Lemma scan_comma fb rd rf iq fs t s : scan_all (st fb rd rf iq iq fs) (comma :: t) = Ok s →
  rf + 1 <= maxCSVRecordFields ∧ scan_all (st 0 rd (rf + 1) false false true) t = Ok s.
Proof.
  rewrite scan_all_cons. unfold scan_byte, CsvGuard.consume_quote, consume_byte. destruct iq; cbn; rewrite ?andb_false_r; cbn; rewrite Z.gtb_ltb;
    (destruct (Z.ltb_spec maxCSVRecordFields (rf + 1)); [done|]); cbn [mbind res_bind]; done.
Qed.
Lemma scan_lf fb rd rf iq fs t s : scan_all (st fb rd rf iq iq fs) (10 :: t) = Ok s → scan_all start t = Ok s.
Proof. rewrite scan_all_cons. unfold scan_byte, CsvGuard.consume_quote, consume_byte. destruct iq; cbn; rewrite ?andb_false_r; done. Qed.

(** What follows a field: the rest of the record, or the next one. *)
Definition continues (s : csvFieldLimitReader) (rd rf : Z) (next : option (list Z)) (rest : list (list Z)) : Prop :=
  match next with
  | Some l => rf + 1 <= maxCSVRecordFields ∧ ∃ t, cut t = (l, rest) ∧ scan_all (st 0 rd (rf + 1) false false true) t = Ok s
  | None => ∃ t, lines t = rest ∧ (t = [] ∨ scan_all start t = Ok s)
  end.

Lemma scan_unquoted t : ∀ fb rd rf fs f next s, unquoted (cut t).1 = (f, next) → existsb (Z.eqb quote) f = false →
  scan_all (st fb rd rf false false fs) t = Ok s → fb <= maxFieldBytes → rd <= maxCSVRecordBytes →
  fb + zlen f <= maxFieldBytes ∧ rd + zlen f <= maxCSVRecordBytes ∧ continues s (rd + zlen f) rf next (cut t).2.
Proof.
  unfold zlen. induction t as [|c t IH]; intros fb rd rf fs f next s Hu Hq Hs Hf Hd.
  - simplify_eq/=. split_and!; [lia|lia|]. exists []. eauto.
  - destruct (Z.eqb_spec c 10) as [->|H10].
    { rewrite cut_line in Hu |- *. simplify_eq/=. split_and!; [lia|lia|]. exists t. split; [done|]. right. by eapply scan_lf. }
    rewrite cut_cons in Hu |- * by done. cbn [fst snd unquoted] in Hu |- *. destruct (Z.eqb_spec c comma) as [->|Hc].
    { simplify_eq/=. split; [cbn; lia|]. split; [cbn; lia|]. apply scan_comma in Hs as [? Hs]. split; [done|]. exists t. rewrite Z.add_0_r. split; [|done]. by destruct (cut t). }
    rewrite (proj2 (Z.eqb_neq c 10) H10) in Hu. cbn [andb] in Hu. destruct (unquoted (cut t).1) as [f' n'] eqn:Eu. simplify_eq.
    cbn [existsb] in Hq. apply orb_false_iff in Hq as [Hq1%Z.eqb_neq Hq]. apply scan_ordinary in Hs as (?&?&fs'&Hs); [|done..].
    destruct (IH _ _ _ _ _ _ _ eq_refl Hq Hs) as (?&?&?); [done|done|]. cbn [length].
    replace (fb + Z.of_nat (S (length f'))) with (fb + 1 + Z.of_nat (length f')) by lia.
    replace (rd + Z.of_nat (S (length f'))) with (rd + 1 + Z.of_nat (length f')) by lia. done.
Qed.

Lemma scan_in_quotes fb rd rf fs c t s : c ≠ quote → scan_all (st fb rd rf true false fs) (c :: t) = Ok s →
  fb + 1 <= maxFieldBytes ∧ rd + 1 <= maxCSVRecordBytes ∧ scan_all (st (fb + 1) (rd + 1) rf true false fs) t = Ok s.
Proof.
  intros H1. rewrite scan_all_cons. unfold scan_byte, CsvGuard.consume_quote, consume_byte. cbn [st quotePending inQuotes].
  rewrite (proj2 (Z.eqb_neq c quote) H1). destruct (c =? 13); apply scan_add.
Qed.
Lemma scan_doubled fb rd rf fs t s : scan_all (st fb rd rf true false fs) (quote :: quote :: t) = Ok s →
  fb + 1 <= maxFieldBytes ∧ rd + 1 <= maxCSVRecordBytes ∧ scan_all (st (fb + 1) (rd + 1) rf true false fs) t = Ok s.
Proof. apply (scan_add (st fb rd rf true false fs)). Qed.
Lemma scan_closing fb rd rf fs t s : scan_all (st fb rd rf true false fs) (quote :: t) = Ok s → scan_all (st fb rd rf true true fs) t = Ok s.
Proof. done. Qed.

Lemma quoted_stray d t buf : d ≠ quote → d ≠ comma → d ≠ 10 → quoted_text (quote :: d :: t) buf = Err EQuote.
Proof.
  intros H1 H2 H3. unfold quoted_text. rewrite !cut_cons by done. cbn [fst snd]. rewrite quoted_unfold. cbn [quoted_line].
  apply Z.eqb_neq in H1, H2, H3. by rewrite Z.eqb_refl, H1, H2, H3.
Qed.
Lemma quoted_open c buf : c ≠ quote → quoted_text [c] buf = Err EQuote.
Proof.
  intros Hc. unfold quoted_text, cut. rewrite lines_cons. destruct (Z.eqb_spec c 10) as [->|]; cbn; [done|].
  by rewrite (proj2 (Z.eqb_neq c quote) Hc).
Qed.

Lemma scan_quoted t : ∀ fb rd rf fs buf f next rest s, quoted_text t buf = Ok (f, next, rest) →
  scan_all (st fb rd rf true false fs) t = Ok s → fb <= maxFieldBytes → rd <= maxCSVRecordBytes →
  ∃ g, f = buf ++ g ∧ fb + zlen g <= maxFieldBytes ∧ rd + zlen g <= maxCSVRecordBytes ∧ continues s (rd + zlen g) rf next rest.
Proof.
  remember (length t) as n eqn:Hn. revert t Hn. induction n as [n IH] using lt_wf_ind.
  intros t -> fb rd rf fs buf f next rest s Hq Hs Hf Hd.
  assert (∀ c t', (length t' < length t)%nat → quoted_text t' (buf ++ [c]) = Ok (f, next, rest) →
    fb + 1 <= maxFieldBytes ∧ rd + 1 <= maxCSVRecordBytes ∧ scan_all (st (fb + 1) (rd + 1) rf true false fs) t' = Ok s →
    ∃ g, f = buf ++ g ∧ fb + zlen g <= maxFieldBytes ∧ rd + zlen g <= maxCSVRecordBytes ∧ continues s (rd + zlen g) rf next rest) as Hstep.
  { intros c t' Hl Hq' (Hf' & Hd' & Hs'). destruct (IH _ Hl t' eq_refl _ _ _ _ _ _ _ _ _ Hq' Hs' Hf' Hd') as (g & -> & ? & ? & ?).
    exists (c :: g). unfold zlen in *. cbn [length]. replace (Z.of_nat (S (length g))) with (1 + Z.of_nat (length g)) by lia.
    rewrite !Z.add_assoc, <- app_assoc. done. }
  assert (buf = f → continues s rd rf next rest → ∃ g, f = buf ++ g ∧ fb + zlen g <= maxFieldBytes ∧ rd + zlen g <= maxCSVRecordBytes ∧
    continues s (rd + zlen g) rf next rest) as Hend.
  { intros -> Hc. exists []. rewrite app_nil_r. unfold zlen. cbn. rewrite !Z.add_0_r. done. }
  destruct t as [|c t]; [done|]. destruct (Z.eqb_spec c quote) as [->|Hc].
  - destruct t as [|d t]; [injection Hq as <- <- <-; apply Hend; [done|]; exists []; eauto|].
    destruct (Z.eqb_spec d quote) as [->|Hdq].
    { rewrite quoted_double in Hq. apply (Hstep quote t); [cbn; lia|done|]. by apply scan_doubled. }
    apply scan_closing in Hs. destruct (Z.eqb_spec d comma) as [->|Hdc].
    { rewrite quoted_comma in Hq. simplify_eq. apply Hend; [done|]. apply scan_comma in Hs as [? Hs]. split; [done|]. exists t.
      split; [by destruct (cut t)|done]. }
    destruct (Z.eqb_spec d 10) as [->|Hd10].
    { rewrite quoted_end in Hq. simplify_eq. apply Hend; [done|]. exists t. split; [done|]. right. by eapply scan_lf. }
    by rewrite quoted_stray in Hq.
  - destruct t as [|d t]; [by rewrite quoted_open in Hq|]. rewrite quoted_plain in Hq by done.
    apply (Hstep c (d :: t)); [cbn; lia|done|]. by apply (scan_in_quotes _ _ _ _ c).
Qed.

(** The limits of a record. *)
Definition within_limits (record : list (list Z)) : Prop :=
  zlen record <= maxCSVRecordFields ∧ Forall (λ f, zlen f <= maxFieldBytes) record ∧ zlen (concat record) <= maxCSVRecordBytes.

Lemma scan_fields fuel : ∀ t rd rf acc record rest s, read_fields fuel (cut t).2 (cut t).1 acc = Ok (record, rest) →
  scan_all (st 0 rd rf false false true) t = Ok s → 0 <= maxFieldBytes → rd <= maxCSVRecordBytes → rf <= maxCSVRecordFields →
  ∃ fields, record = acc ++ fields ∧ rf + zlen fields <= maxCSVRecordFields + 1 ∧ Forall (λ f, zlen f <= maxFieldBytes) fields ∧
    rd + zlen (concat fields) <= maxCSVRecordBytes ∧ ∃ t', lines t' = rest ∧ (t' = [] ∨ scan_all start t' = Ok s).
Proof.
  induction fuel as [|fuel IH]; intros t rd rf acc record rest s Hr Hs Hf Hd Hn; [done|]. cbn [read_fields] in Hr.
  assert (∀ f next rest', zlen f <= maxFieldBytes → rd + zlen f <= maxCSVRecordBytes → continues s (rd + zlen f) rf next rest' →
    match next with Some l => read_fields fuel rest' l (acc ++ [f]) | None => Ok (acc ++ [f], rest') end = Ok (record, rest) →
    ∃ fields, record = acc ++ fields ∧ rf + zlen fields <= maxCSVRecordFields + 1 ∧ Forall (λ f, zlen f <= maxFieldBytes) fields ∧
      rd + zlen (concat fields) <= maxCSVRecordBytes ∧ ∃ t', lines t' = rest ∧ (t' = [] ∨ scan_all start t' = Ok s)) as Hstep.
  { intros f [l|] rest' Hf1 Hd1 Hc Hr1.
    - destruct Hc as (Hn1 & t1 & E1 & Hs1).
      destruct (IH t1 (rd + zlen f) (rf + 1) (acc ++ [f]) record rest s) as (fields & -> & H1 & H2 & H3 & H4); [by rewrite E1|done..|].
      exists (f :: fields). rewrite <- app_assoc. unfold zlen in *. cbn [concat length]. rewrite length_app. split_and!; [done|lia|by constructor|lia|done].
    - injection Hr1 as <- <-. exists [f]. unfold zlen in *. cbn [concat length]. rewrite app_nil_r. split_and!; [done|lia|by constructor|lia|done]. }
  destruct t as [|c t]; [apply (Hstep [] None []); [done|unfold zlen; cbn; lia|by exists []; eauto|done]|].
  assert (∃ l, (cut (c :: t)).1 = c :: l) as [l El].
  { unfold cut. rewrite lines_cons. destruct (Z.eqb_spec c 10) as [->|]; cbn; eauto. }
  rewrite El in Hr. destruct (Z.eqb_spec c quote) as [->|Hc].
  - rewrite cut_cons in El, Hr by done. cbn [fst snd] in *. injection El as <-. fold (quoted_text t []) in Hr.
    destruct (quoted_text t []) as [[[f next] rest']|] eqn:Eq; [|done]. 
    destruct (scan_quoted t 0 rd rf false [] f next rest' s Eq) as (g & -> & Hf1 & Hd1 & Hc); [done|lia|done|].
    apply (Hstep _ _ _ Hf1 Hd1 Hc). by destruct next.
  - rewrite <- El in Hr. destruct (unquoted (cut (c :: t)).1) as [f next] eqn:Eu. destruct (existsb (Z.eqb quote) f) eqn:Ee; [done|].
    destruct (scan_unquoted _ _ _ _ _ _ _ _ Eu Ee Hs) as (Hf1 & Hd1 & Hc1); [lia|done|]. apply (Hstep _ _ _ Hf1 Hd1 Hc1). by destruct next.
Qed.

Lemma scan_record t : ∀ record rest s, read_record (lines t) = Ok (Some (record, rest)) → scan_all start t = Ok s → 0 <= maxFieldBytes →
  within_limits record ∧ ∃ t', lines t' = rest ∧ (t' = [] ∨ scan_all start t' = Ok s).
Proof.
  induction t as [|c t IH]; intros record rest s Hr Hs Hf; [done|]. destruct (Z.eqb_spec c 10) as [->|Hc].
  { apply scan_lf in Hs. by apply (IH _ _ s). }
  rewrite lines_cut in Hr by done. cbn [read_record] in Hr. rewrite !bool_decide_eq_false_2 in Hr.
  2: { unfold cut. rewrite lines_cons. destruct (Z.eqb_spec c 10); [done|]. cbn. congruence. }
  2: apply cut_nonempty.
  cbn [orb] in Hr. destruct (read_fields _ _ _ _) as [[r1 rest1]|] eqn:E in Hr; [|done]. cbn in Hr. simplify_eq.
  destruct (scan_fields _ _ 0 1 _ _ _ _ E Hs) as (fields & -> & H1 & H2 & H3 & H4); [done|done|done|].
  cbn [app]. split; [|done]. split_and!; [lia|done|lia].
Qed.

Lemma scan_records fuel : ∀ t records s, read_records fuel None (lines t) = Ok records → t = [] ∨ scan_all start t = Ok s → 0 <= maxFieldBytes →
  Forall within_limits records.
Proof.
  induction fuel as [|fuel IH]; intros t records s Hr Hs Hf; [done|]. cbn [read_records] in Hr.
  destruct (read_record (lines t)) as [[[record rest]|]|] eqn:E; cbn [mbind res_bind] in Hr; [|by simplify_eq|done].
  destruct Hs as [-> |Hs]; [done|]. destruct (scan_record _ _ _ _ E Hs Hf) as (Hl & t' & <- & Ht').
  destruct (read_records fuel None (lines t')) as [records'|] eqn:E'; [|done]. cbn in Hr. simplify_eq. constructor; [done|]. by eapply IH.
Qed.
End Sound.

(** * What is written passes *)
Section Complete.
  Context (maxFieldBytes : Z) (rejectQuotedCR : bool).
  Abbreviation consume := (consume maxFieldBytes rejectQuotedCR).
  Abbreviation run := (run maxFieldBytes rejectQuotedCR).
  Abbreviation guard := FieldLimitReader.

Lemma run_app p q : ∀ r, run r (p ++ q) = r' ← run r p; run r' q.
Proof. induction p as [|b p IH]; intros r; [done|]. cbn [app CsvGuard.run]. destruct (consume r b); [apply IH|done]. Qed.

Lemma consume_ok r b r' : pendingCR r = false → recordBytes r + 1 <= maxCSVRecordBytes →
  consume_quote maxFieldBytes (set_recordBytes (recordBytes r + 1) r) b = Ok r' → consume r b = Ok r'.
Proof.
  intros Hp Hb E. rewrite consume_plain by done. rewrite Z.gtb_ltb. by destruct (Z.ltb_spec maxCSVRecordBytes (recordBytes r + 1)); [lia|].
Qed.
Lemma add_ok r : fieldBytes r + 1 <= maxFieldBytes → recordDecodedBytes r + 1 <= maxCSVRecordBytes →
  add_decoded maxFieldBytes r = Ok (guard (fieldBytes r + 1) (recordBytes r) (recordDecodedBytes r + 1) (recordFields r) (inQuotes r)
    (quotePending r) (fieldStart r) (pendingCR r)).
Proof.
  intros H1 H2. unfold add_decoded. cbn [fieldBytes recordDecodedBytes]. rewrite !Z.gtb_ltb.
  destruct (Z.ltb_spec maxFieldBytes (fieldBytes r + 1)); [lia|]. by destruct (Z.ltb_spec maxCSVRecordBytes (recordDecodedBytes r + 1)); [lia|].
Qed.

Lemma run_plain f : ∀ fb rb rd rf fs, Forall (λ c, special c = false) f → fb + zlen f <= maxFieldBytes → rb + zlen f <= maxCSVRecordBytes → rd <= rb →
  ∃ fs', run (guard fb rb rd rf false false fs false) f = Ok (guard (fb + zlen f) (rb + zlen f) (rd + zlen f) rf false false fs' false).
Proof.
  unfold zlen. induction f as [|c f IH]; intros fb rb rd rf fs Hp Hf Hb Hd; [cbn; rewrite !Z.add_0_r; by eexists|].
  apply Forall_cons in Hp as [Hc Hp]. cbn [length] in *. cbn [CsvGuard.run].
  rewrite (consume_ok _ _ (guard (fb + 1) (rb + 1) (rd + 1) rf false false false false)); [|done|cbn; lia|].
  - cbn [mbind res_bind]. destruct (IH (fb + 1) (rb + 1) (rd + 1) rf false Hp) as [fs' ->]; [lia..|].
    exists fs'. do 2 f_equal; lia.
  - unfold special in Hc. apply orb_false_iff in Hc as [[[H1 H2]%orb_false_iff H3]%orb_false_iff H4].
    unfold consume_quote, consume_byte. cbn [set_recordBytes quotePending inQuotes fieldStart]. rewrite H1, H2, H3, H4, andb_false_r.
    rewrite add_ok by (cbn; lia). done.
Qed.

Lemma run_escaped f : ∀ fb rb rd rf, (13 ∉ f) → fb + zlen f <= maxFieldBytes → rb + zlen (escape_quotes f) <= maxCSVRecordBytes → rd <= rb →
  run (guard fb rb rd rf true false false false) (escape_quotes f) =
    Ok (guard (fb + zlen f) (rb + zlen (escape_quotes f)) (rd + zlen f) rf true false false false).
Proof.
  unfold zlen. induction f as [|c f IH]; intros fb rb rd rf Hp Hf Hb Hd; [cbn; by rewrite !Z.add_0_r|].
  apply not_elem_of_cons in Hp as [Hc Hp]. cbn [length] in Hf. unfold escape_quotes in *. cbn [mbind list_bind] in *.
  fold (escape_quotes f) in *. rewrite run_app. rewrite length_app in Hb |- *.
  assert (run (guard fb rb rd rf true false false false) (if c =? quote then [quote; quote] else [c]) =
    Ok (guard (fb + 1) (rb + zlen (if c =? quote then [quote; quote] else [c])) (rd + 1) rf true false false false)) as ->.
  { destruct (Z.eqb_spec c quote) as [->|Hq]; cbn [CsvGuard.run]; unfold zlen; cbn [length] in Hb |- *.
    - rewrite (consume_ok _ _ (guard fb (rb + 1) rd rf true true false false)) by (done || (cbn; lia)). cbn [mbind res_bind].
      rewrite (consume_ok _ _ (guard (fb + 1) (rb + 2) (rd + 1) rf true false false false)); [done|done|cbn; lia|].
      unfold consume_quote. cbn [set_recordBytes quotePending quote Z.eqb Pos.eqb]. rewrite add_ok by (cbn; lia). cbn. do 2 f_equal. lia.
    - rewrite (consume_ok _ _ (guard (fb + 1) (rb + 1) (rd + 1) rf true false false false)); [done|done|cbn; lia|].
      unfold consume_quote, consume_byte. cbn [set_recordBytes quotePending inQuotes].
      rewrite (proj2 (Z.eqb_neq c 13)), (proj2 (Z.eqb_neq c quote)) by done. by rewrite add_ok by (cbn; lia). }
  cbn [mbind res_bind]. unfold zlen. rewrite IH; [|done|lia|lia|destruct (c =? quote); cbn; lia]. do 2 f_equal; cbn [length]; lia.
Qed.

Lemma run_field f rb rd rf : (13 ∉ f) → zlen f <= maxFieldBytes → rb + zlen (write_field f) <= maxCSVRecordBytes → rd <= rb →
  ∃ iq fs, run (guard 0 rb rd rf false false true false) (write_field f) =
    Ok (guard (zlen f) (rb + zlen (write_field f)) (rd + zlen f) rf iq iq fs false).
Proof.
  intros Hcr Hf Hb Hd. unfold write_field in *. destruct (fieldNeedsQuotes f) eqn:En.
  - exists true, false. unfold zlen in *. cbn [length] in *. rewrite length_app in *. cbn [length] in *. cbn [CsvGuard.run].
    rewrite (consume_ok _ _ (guard 0 (rb + 1) rd rf true false false false)) by (done || (cbn; lia)). cbn [mbind res_bind].
    rewrite run_app, run_escaped by (done || (unfold zlen; lia)). cbn [mbind res_bind CsvGuard.run].
    rewrite (consume_ok _ _ (guard (0 + zlen f) (rb + 1 + zlen (escape_quotes f) + 1) (rd + zlen f) rf true true false false))
      by (done || (unfold zlen; cbn; lia)).
    cbn [mbind res_bind]. unfold zlen. do 2 f_equal; lia.
  - exists false. apply plain_field in En. destruct (run_plain f 0 rb rd rf true En) as [fs' ->]; [lia..|]. exists fs'. done.
Qed.

Lemma zlen_write_fields_cons f g fields :
  zlen (write_fields (f :: g :: fields)) = zlen (write_field f) + 1 + zlen (write_fields (g :: fields)).
Proof.
  change (write_fields (f :: g :: fields)) with (write_field f ++ comma :: write_fields (g :: fields)). unfold zlen. rewrite length_app. cbn [length]. lia.
Qed.

Lemma run_fields fields : ∀ rb rd rf, fields ≠ [] → Forall (λ f, (13 ∉ f) ∧ zlen f <= maxFieldBytes) fields → rf + zlen fields <= maxCSVRecordFields + 1 →
  rb + zlen (write_fields fields) + 1 <= maxCSVRecordBytes → rd <= rb →
  run (guard 0 rb rd rf false false true false) (write_fields fields ++ [10]) = Ok start.
Proof.
  induction fields as [|f fields IH]; intros rb rd rf Hne Hf Hn Hb Hd; [done|]. apply Forall_cons in Hf as [[Hcr Hf] Hfs].
  assert (zlen f <= zlen (write_field f)) as Hle.
  { unfold zlen, write_field. destruct (fieldNeedsQuotes f); [|done]. cbn [length]. rewrite length_app. cbn [length].
    assert (length f <= length (escape_quotes f))%nat; [|lia]. clear. unfold escape_quotes. induction f as [|c f IH]; [done|]. cbn. rewrite length_app.
    destruct (c =? quote); cbn; lia. }
  destruct fields as [|g fields].
  - cbn [write_fields] in *. rewrite run_app. destruct (run_field f rb rd rf Hcr Hf) as (iq & fs & ->); [lia|done|]. cbn [mbind res_bind CsvGuard.run].
    rewrite (consume_ok _ _ start); [done|done|cbn; lia|]. by destruct iq; unfold consume_quote, consume_byte; cbn; rewrite ?andb_false_r.
  - rewrite zlen_write_fields_cons in Hb. assert (zlen (f :: g :: fields) = 1 + zlen (g :: fields)) as El by (unfold zlen; cbn [length]; lia).
    assert (1 <= zlen (g :: fields)) as H1 by (unfold zlen; cbn [length]; lia). assert (0 <= zlen (write_fields (g :: fields))) by (unfold zlen; lia).
    change (write_fields (f :: g :: fields)) with (write_field f ++ comma :: write_fields (g :: fields)). rewrite <- app_assoc, run_app.
    destruct (run_field f rb rd rf Hcr Hf) as (iq & fs & ->); [lia|done|]. cbn [mbind res_bind app CsvGuard.run].
    rewrite (consume_ok _ _ (guard 0 (rb + zlen (write_field f) + 1) (rd + zlen f) (rf + 1) false false true false)); [|done|cbn; lia|].
    + cbn [mbind res_bind]. apply IH; [done|done|lia|lia|lia].
    + destruct iq; unfold consume_quote, consume_byte; cbn; rewrite ?andb_false_r; cbn; rewrite Z.gtb_ltb;
        (destruct (Z.ltb_spec maxCSVRecordFields (rf + 1)); [lia|done]).
Qed.

(** A record that may be written: its fields are small enough and contain no carriage
    return. *)
Definition admissible (record : list (list Z)) : Prop :=
  record ≠ [] ∧ Forall (λ f, (13 ∉ f) ∧ zlen f <= maxFieldBytes) record ∧ zlen record <= maxCSVRecordFields ∧
  zlen (write_record record) <= maxCSVRecordBytes.

Lemma run_records records : Forall admissible records → run start (write_records records) = Ok start.
Proof.
  induction 1 as [|record records (Hne & Hf & Hn & Hb) _ IH]; [done|]. cbn [write_records mbind list_bind]. fold (write_records records).
  rewrite run_app. unfold write_record in *. assert (zlen (write_fields record ++ [10]) = zlen (write_fields record) + 1) as E.
  { unfold zlen. rewrite length_app. cbn. lia. }
  unfold start at 1. rewrite run_fields by (done || lia). done.
Qed.

Lemma guard_admits records chunks : Forall admissible records → concat chunks = write_records records → chunks ≠ [] →
  read_chunks maxFieldBytes rejectQuotedCR new_reader chunks = (write_records records, None).
Proof.
  intros Ha E Hne. rewrite read_new_reader, E by done. cbn [read_chunks]. rewrite bool_decide_eq_true_2 by done. unfold Read. cbn [recordFields start Z.eqb].
  assert (consume_all maxFieldBytes rejectQuotedCR start (write_records records) = (start, write_records records, None)) as Ec.
  { apply consume_all_run. split; [done|]. by apply run_records. }
  unfold start in Ec at 1. unfold start. rewrite Ec. cbn. by rewrite app_nil_r.
Qed.
End Complete.

(** * Limits of whole streams *)
(** [Write] of the limited writer of an export. *)
Inductive limiterr := EOutputLimit.
Definition limited_write (limit bytes : Z) (p : list Z) : res limiterr Z :=
  if zlen p >? limit - bytes then Err EOutputLimit else Ok (bytes + zlen p).
Fixpoint write_chunks (limit bytes : Z) (chunks : list (list Z)) : res limiterr Z :=
  match chunks with [] => Ok bytes | p :: chunks' => bytes' ← limited_write limit bytes p; write_chunks limit bytes' chunks' end.

(** However the buffer in front of the writer cuts the text, an export succeeds exactly
    when the text fits. *)
Lemma write_chunks_exact limit chunks : ∀ bytes, bytes <= limit →
  write_chunks limit bytes chunks = if bytes + zlen (concat chunks) >? limit then Err EOutputLimit else Ok (bytes + zlen (concat chunks)).
Proof.
  unfold zlen. induction chunks as [|p chunks IH]; intros bytes Hb; cbn [write_chunks concat].
  - cbn. rewrite Z.add_0_r, Z.gtb_ltb. by destruct (Z.ltb_spec limit bytes); [lia|].
  - rewrite length_app. unfold limited_write, zlen. rewrite !Z.gtb_ltb. destruct (Z.ltb_spec (limit - bytes) (Z.of_nat (length p))); cbn [mbind res_bind].
    + by destruct (Z.ltb_spec limit (bytes + Z.of_nat (length p + length (concat chunks)))); [|lia].
    + rewrite IH, Z.gtb_ltb by lia. rewrite Nat2Z.inj_add, Z.add_assoc. done.
Qed.

(** The guard in front of the CSV reader: however the input is cut into chunks, it
    delivers the same bytes and the same error; when it delivers the whole input, every
    record the reader returns has at most 256 fields, fields within the field limit and
    at most 32 MiB of decoded text; and every text the writer produces from records
    within these limits passes unchanged. *)
Theorem csv_guard_bounds maxFieldBytes rejectQuotedCR chunks : 0 <= maxFieldBytes → chunks ≠ [] →
  let read := read_chunks maxFieldBytes rejectQuotedCR new_reader in
  read chunks = read [concat chunks] ∧
  (∀ text records, read chunks = (text, None) → ReadAll text = Ok records →
    text = concat chunks ∧ Forall (within_limits maxFieldBytes) records) ∧
  (∀ records, Forall (admissible maxFieldBytes) records → concat chunks = write_records records → read chunks = (write_records records, None)).
Proof.
  intros Hm Hne read. unfold read. split_and!.
  - rewrite !read_new_reader by done. cbn [concat]. by rewrite app_nil_r.
  - intros text records Hr Ha. apply read_chunks_ok in Hr as (-> & r & Hr); [|done]. split; [done|].
    apply run_scan in Hr as [s Hs]; [|done]. rewrite ReadAll_norm in Ha. eapply scan_records; [done|by right|done].
  - intros records Ha E. by apply guard_admits.
Qed.

Lemma csv_guard_bounds_witness :
  Forall (within_limits 4) [[bytes "a"; [34; 10]]; [[]; bytes "bc"]] ∧
  read_chunks 4 false new_reader [bytes "a,"; [34; 34; 34; 13]; [10; 34; 10; 44]; bytes "bc" ++ [13]] = (concat [bytes "a,"; [34; 34; 34; 13]; [10; 34; 10; 44]; bytes "bc" ++ [13]], None).
Proof.
  assert (read_chunks 4 false new_reader [bytes "a,"; [34; 34; 34; 13]; [10; 34; 10; 44]; bytes "bc" ++ [13]]
    = (concat [bytes "a,"; [34; 34; 34; 13]; [10; 34; 10; 44]; bytes "bc" ++ [13]], None)) as E by reflexivity.
  split; [|exact E]. refine (proj2 (proj1 (proj2 (csv_guard_bounds 4 false _ _ _)) _ _ E _)); [lia|done|reflexivity].
Defined.
