(* ===== verification/CsvLegacy.v ===== *)
(** CSV archives of versions 1 and 2: the export of version 2 and the append-only import
    of [core/service.go] and [core/service_csv_full.go].

    The input arrives in chunks and passes the field limit reader ([CsvGuard]) and the
    limit on the whole input before the reader of [encoding/csv] ([CsvText]) cuts it into
    records. The accounts of an import are visited in the order of a Go map, which is an
    argument. [autoSnapshot] and cancelled contexts are left out. *)
From Stdlib Require Import ZArith Lia.
From stdpp Require Import base gmap list strings sorting.
From S2P Require Import Prelude GoText Validation Settings GoTime ImageContainers Schema Balance Tags Links Images LedgerOps Service CsvText CsvGuard.
Open Scope Z_scope.

Definition csvVersionHeader : list Z := bytes "omni_money_csv_version".
Definition csvVersion1 : list Z := bytes "1".
Definition csvVersion2 : list Z := bytes "2".

(** Errors carry the row number the messages name. *)
Inductive legacyerr :=
| EImportMode
| EReplaceRequiresV3
| EHeaderRead
| EHeaderUTF8
| EHeaderEmpty
| EHeaderDuplicate (name : list Z)
| EHeaderMissing (name : list Z)
| ERowRead (row : Z)
| ERowUTF8 (row : Z)
| ETooManyRows
| EValueSize (row : Z)
| EColumnMissing (name : list Z) (row : Z)
| EVersionMissing (row : Z)
| EVersionUnknown (row : Z)
| EEscape (row : Z)
| EText (e : verr) (row : Z)
| ERowType (row : Z)
| ERowAmount (row : Z)
| ERowDate (e : derr) (row : Z)
| EParsedText
| EInputSize
| ELedger (e : lerr).

Record csvLegacyImportRow := LegacyRow {
  lr_account : string;
  lr_date : Z;
  lr_item : string;
  lr_type : string;
  lr_amount : Z;
  lr_memo : string;
  lr_archive : bool
}.

(** * What the reader sees *)
(** The guard, and behind it the limit of one byte more than the input may have. *)
Definition delivered (chunks : list (list Z)) : list Z * option guarderr :=
  if zlen (concat chunks) <=? MaxCSVImportBytes then read_chunks maxCSVGuardFieldBytes false new_reader chunks
  else
    let '(_, out, e) := consume_all maxCSVGuardFieldBytes false start (take (Z.to_nat (MaxCSVImportBytes + 1)) (concat chunks)) in
    (out, e).

(** After an error of the input the reader still returns the records of the complete
    lines before it. *)
Definition complete_line (l : list Z) : bool := bool_decide (last l = Some 10).
Definition input_lines (text : list Z) (failed : bool) : list (list Z) :=
  if failed then norm_line <$> filter (λ l, complete_line l = true) (lines text) else read_lines text.

(** * Headers *)
Definition bom : list Z := [239; 187; 191].
Definition trim_bom (headers : list (list Z)) : list (list Z) :=
  match headers with [] => [] | h :: hs => default h (strip_prefix bom h) :: hs end.

Fixpoint header_map (i : nat) (headers : list (list Z)) (m : gmap (list Z) nat) : res legacyerr (gmap (list Z) nat) :=
  match headers with
  | [] => Ok m
  | h :: hs =>
    let name := trim_bytes h in
    if bool_decide (name = []) then Err EHeaderEmpty
    else match m !! name with Some _ => Err (EHeaderDuplicate name) | None => header_map (S i) hs (<[name := i]> m) end
  end.

Definition required_headers : list (list Z) := bytes <$> ["account"; "date"; "item"; "type"; "amount"]%string.

Fixpoint check_required (m : gmap (list Z) nat) (names : list (list Z)) : res legacyerr unit :=
  match names with
  | [] => Ok tt
  | h :: hs => match m !! h with None => Err (EHeaderMissing h) | Some _ => check_required m hs end
  end.

Definition parse_header (headers : list (list Z)) : res legacyerr (gmap (list Z) nat) :=
  let headers := trim_bom headers in
  if negb (forallb valid_bytes headers) then Err EHeaderUTF8
  else
    m ← header_map 0 headers ∅;
    _ ← check_required m required_headers;
    Ok m.

(** * Rows *)
Definition column (m : gmap (list Z) nat) (record : list (list Z)) (name : string) (row : Z) : res legacyerr (list Z) :=
  match m !! bytes name ≫= λ i, record !! i with Some v => Ok v | None => Err (EColumnMissing (bytes name) row) end.

Definition row_version (m : gmap (list Z) nat) (record : list (list Z)) (row : Z) : res legacyerr (list Z) :=
  match m !! csvVersionHeader with
  | None => Ok []
  | Some i =>
    match record !! i with
    | None => Err (EVersionMissing row)
    | Some v =>
      let version := trim_bytes v in
      if bool_decide (version = csvVersion1) || bool_decide (version = csvVersion2) then Ok version else Err (EVersionUnknown row)
    end
  end.

(** The loop over the map of cells ends with an error when one of them does not decode. *)
Definition decode_cell (row : Z) (value : list Z) : res legacyerr (list Z) :=
  match decodeCSVTextCellV2 value with Ok v => Ok v | Err _ => Err (EEscape row) end.

Definition cell_text_ok (row : Z) (label value : string) (required : bool) : res legacyerr unit :=
  match ValidateArchivedLedgerText label value maxCSVFieldBytes required with Ok _ => Ok tt | Err e => Err (EText e row) end.

(** The row and the bytes of text it keeps. *)
Definition parse_row (m : gmap (list Z) nat) (record : list (list Z)) (row : Z) : res legacyerr (csvLegacyImportRow * Z) :=
  version ← row_version m record row;
  account ← column m record "account" row;
  dateString ← column m record "date" row;
  item ← column m record "item" row;
  txType ← column m record "type" row;
  amountString ← column m record "amount" row;
  let memo := default [] (m !! bytes "memo" ≫= λ i, record !! i) in
  let v2 := bool_decide (version = csvVersion2) in
  account ← if v2 then decode_cell row account else Ok (trim_bytes account);
  dateString ← if v2 then decode_cell row dateString else Ok dateString;
  item ← if v2 then decode_cell row item else Ok (trim_bytes item);
  txType ← if v2 then decode_cell row txType else Ok txType;
  memo ← if v2 then decode_cell row memo else Ok (trim_bytes memo);
  let dateString := trim_bytes dateString in
  let txType := trim_bytes txType in
  let amountString := trim_bytes amountString in
  _ ← cell_text_ok row "口座名" (of_bytes account) true;
  _ ← cell_text_ok row "項目" (of_bytes item) true;
  _ ← cell_text_ok row "メモ" (of_bytes memo) false;
  txType ← (if lower_is txType "income" then Ok "income"%string
            else if lower_is txType "expense" then Ok "expense"%string else Err (ERowType row));
  amount ← match ParseInt (of_bytes amountString) 64 with
           | Some a => if a <=? 0 then Err (ERowAmount row) else Ok a
           | None => Err (ERowAmount row)
           end;
  date ← match parseDateStrict (of_bytes dateString) with Ok d => Ok d | Err e => Err (ERowDate e row) end;
  Ok (LegacyRow (of_bytes account) date (of_bytes item) txType amount (of_bytes memo) (amount >? MaxTransactionAmount),
      zlen account + zlen dateString + zlen item + len txType + zlen memo).

(** The two readers of these versions differ in three checks: a file may have records
    of different lengths and its parsed text is bounded; a string has records of one
    length and each value is bounded. *)
Record legacy_config := LegacyConfig { fixed_width : bool; limit_values : bool; text_budget : option Z }.
Definition from_reader : legacy_config := LegacyConfig false false (Some maxCSVParsedTextBytes).
Definition from_string : legacy_config := LegacyConfig true true None.

Definition parse_record (cfg : legacy_config) (m : gmap (list Z) nat) (width : nat) (record : list (list Z)) (n used : Z)
    : res legacyerr (csvLegacyImportRow * Z) :=
  if fixed_width cfg && negb (length record =? width)%nat then Err (ERowRead (n + 2))
  else if negb (forallb valid_bytes record) then Err (ERowUTF8 (n + 2))
  else if n >=? maxCSVRows then Err ETooManyRows
  else if limit_values cfg && existsb (λ v, zlen v >? maxCSVFieldBytes) record then Err (EValueSize (n + 2))
  else
    r ← parse_row m record (n + 2);
    match text_budget cfg with
    | Some budget => if r.2 >? budget - used then Err EParsedText else Ok (r.1, used + r.2)
    | None => Ok (r.1, used)
    end.

Fixpoint parse_records (fuel : nat) (cfg : legacy_config) (m : gmap (list Z) nat) (width : nat) (failed : bool)
    (ls : list (list Z)) (n used : Z) : res legacyerr (list csvLegacyImportRow) :=
  match fuel with
  | O => Err (ERowRead (n + 2))
  | S fuel' =>
    match read_record ls with
    | Err _ => Err (ERowRead (n + 2))
    | Ok None => if failed then Err (ERowRead (n + 2)) else Ok []
    | Ok (Some (record, rest)) =>
      r ← parse_record cfg m width record n used;
      rows ← parse_records fuel' cfg m width failed rest (n + 1) r.2;
      Ok (r.1 :: rows)
    end
  end.

Definition parse_legacy (cfg : legacy_config) (text : list Z) (failed : bool) : res legacyerr (list csvLegacyImportRow) :=
  let ls := input_lines text failed in
  match read_record ls with
  | Ok (Some (headers, rest)) =>
    m ← parse_header headers;
    parse_records (S (length ls)) cfg m (length headers) failed rest 0 0
  | _ => Err EHeaderRead
  end.

Definition failed_input (e : option guarderr) : bool := match e with Some _ => true | None => false end.

Definition parseLegacyCSVRows (chunks : list (list Z)) : res legacyerr (list csvLegacyImportRow) :=
  let '(text, e) := delivered chunks in
  rows ← parse_legacy from_reader text (failed_input e);
  if zlen (concat chunks) >? MaxCSVImportBytes then Err EInputSize else Ok rows.

(** * Import *)
Section ImportRows.
  (** The order in which Go visits the set of affected accounts. *)
  Context (range : gset string → list string).

Definition insert_archive_amount (n amount : Z) : op unit :=
  db ← gets id;
  require ((amount >? MaxTransactionAmount) && bool_decide (is_Some (transactions db !! n)) && bool_decide (archive_amounts db !! n = None)) EConstraint;;
  modify (λ db, set_archive_amounts (<[n := amount]> (archive_amounts db)) db).

Definition stored_row (row : csvLegacyImportRow) : txrow :=
  TxRow (lr_account row) (lr_date row) (lr_item row) (lr_type row) (if lr_archive row then MaxTransactionAmount else lr_amount row) 0 (lr_memo row).

Definition insert_row (row : csvLegacyImportRow) : op unit :=
  n ← insert_transaction (stored_row row);
  if lr_archive row then insert_archive_amount n (lr_amount row) else mret tt.

Definition affectedAccounts (rows : list csvLegacyImportRow) : gset string := list_to_set (lr_account <$> rows).

Definition importCSVLegacyRows (rows : list csvLegacyImportRow) : op Z :=
  transactional (
    for_each insert_row rows;;
    for_each recalculateBalanceIn (range (affectedAccounts rows));;
    mret (Z.of_nat (length rows))).

(** A call: the parser first, then the transaction. *)
Definition import_parsed (parsed : res legacyerr (list csvLegacyImportRow)) (db : ledger) : res legacyerr Z * ledger :=
  match parsed with
  | Err e => (Err e, db)
  | Ok rows => let '(r, db') := importCSVLegacyRows rows db in (match r with Ok n => Ok n | Err e => Err (ELedger e) end, db')
  end.

Definition check_mode (mode : string) : res legacyerr unit :=
  if negb (bool_decide (mode = "append")) && negb (bool_decide (mode = "replace")) then Err EImportMode
  else if bool_decide (mode = "replace") then Err EReplaceRequiresV3
  else Ok tt.

(** [importCSVLegacyReaderContext], which no other code calls. The entry that is called,
    [ImportCSVReaderContextWithDigests], runs the same parser and the same append for a file
    that is not of version 3, but refuses only the mode [replace]: there any other mode
    appends. *)
Definition importCSVLegacyReader (chunks : list (list Z)) (mode : string) (db : ledger) : res legacyerr Z * ledger :=
  import_parsed (_ ← check_mode mode; parseLegacyCSVRows chunks) db.

(** The same for a string that is not of version 3. *)
Definition importCSVLegacyString (content : list Z) (mode : string) (db : ledger) : res legacyerr Z * ledger :=
  import_parsed (
    _ ← (if negb (bool_decide (mode = "append")) && negb (bool_decide (mode = "replace")) then Err EImportMode else Ok tt);
    _ ← (if zlen content >? MaxCSVStringImportBytes then Err EInputSize else Ok tt);
    _ ← (if bool_decide (mode = "replace") then Err EReplaceRequiresV3 else Ok tt);
    let '(text, e) := read_chunks maxCSVGuardFieldBytes false new_reader [content] in
    parse_legacy from_string text (failed_input e)) db.

End ImportRows.

(** * Export *)
Inductive exporterr := EExportLimit.

Section ExportRows.
  (** How the driver renders a stored date, and how the buffered writer cuts its text. *)
  Context (date_text : Z → list Z) (buffered : list Z → list (list Z)).

Definition export_header : list (list Z) :=
  (bytes <$> ["id"; "account"; "date"; "item"; "type"; "amount"; "balance"; "memo"]%string) ++ [csvVersionHeader].

(** [ORDER BY date, id] *)
Definition export_rows (db : ledger) : list (Z * txrow) := merge_sort row_le (map_to_list (transactions db)).

Definition export_record (db : ledger) (x : Z * txrow) : list (list Z) :=
  [ bytes (FormatInt x.1); encodeCSVTextCell (bytes (tx_account x.2)); encodeCSVTextCell (date_text (tx_date x.2));
    encodeCSVTextCell (bytes (tx_item x.2)); encodeCSVTextCell (bytes (tx_type x.2)); bytes (FormatInt (effective_amount db x.1 x.2));
    bytes (FormatInt (tx_balance x.2)); encodeCSVTextCell (bytes (tx_memo x.2)); csvVersion2 ].

(** Which of the two limits the export meets first depends on the buffer; both are one
    error here. *)
Definition backupToCSVV2 (db : ledger) : res exporterr (list Z) :=
  let text := write_records (export_header :: (export_record db <$> export_rows db)) in
  if zlen (export_rows db) >? maxCSVRows then Err EExportLimit
  else match write_chunks maxCSVExportBytes 0 (buffered text) with Ok _ => Ok text | Err _ => Err EExportLimit end.

End ExportRows.

(** * What an import leaves *)
(** A row as the parser returns it. *)
Definition valid_row (row : csvLegacyImportRow) : Prop :=
  tx_type_ok (lr_type row) = true ∧ 0 < lr_amount row <= MaxInt64 ∧ lr_archive row = (lr_amount row >? MaxTransactionAmount).

Definition add_row (db : ledger) (row : csvLegacyImportRow) : ledger :=
  let db' := inserted (stored_row row) db in
  if lr_archive row then set_archive_amounts (<[tx_seq db + 1 := lr_amount row]> (archive_amounts db')) db' else db'.
Definition added (rows : list csvLegacyImportRow) (db : ledger) : ledger := foldl add_row db rows.

Lemma add_row_seq db row : tx_seq (add_row db row) = tx_seq db + 1.
Proof. unfold add_row. by destruct (lr_archive row). Qed.
Lemma add_row_transactions db row : transactions (add_row db row) = <[tx_seq db + 1 := stored_row row]> (transactions db).
Proof. unfold add_row. by destruct (lr_archive row). Qed.
Lemma add_row_archive db row : archive_amounts (add_row db row) =
  if lr_archive row then <[tx_seq db + 1 := lr_amount row]> (archive_amounts db) else archive_amounts db.
Proof. unfold add_row. by destruct (lr_archive row). Qed.
Lemma added_seq rows : ∀ db, tx_seq (added rows db) = tx_seq db + Z.of_nat (length rows).
Proof.
  induction rows as [|row rows IH]; intros db; cbn [added foldl length]; [cbn; lia|].
  fold (added rows (add_row db row)). rewrite IH, add_row_seq. lia.
Qed.

Lemma archive_fresh db : tx_wf db → archive_amounts db !! (tx_seq db + 1) = None.
Proof.
  intros Htx. pose proof (tx_fresh db Htx) as Hf. destruct Htx as (_ & _ & Ha).
  destruct (archive_amounts db !! (tx_seq db + 1)) as [a|] eqn:E; [|done]. apply Ha in E as [_ [r Hr]]. congruence.
Qed.

Lemma insert_row_run db row : tx_wf db → valid_row row →
  insert_row row db = if tx_seq db >=? MaxInt64 then (Err EFull, db) else (Ok tt, add_row db row).
Proof.
  intros Htx (Ht & Ha & Har). pose proof (archive_fresh db Htx) as Hfa.
  unfold insert_row, insert_transaction, gets, require, ensure, lift, next_id, modify, mbind, stm_bind, id. cbn [stored_row tx_type tx_amount].
  assert (tx_amount_ok (if lr_archive row then MaxTransactionAmount else lr_amount row) = true) as ->.
  { unfold tx_amount_ok. rewrite Har, Z.gtb_ltb. destruct (Z.ltb_spec MaxTransactionAmount (lr_amount row)); unfold MaxTransactionAmount in *; lia. }
  rewrite Ht. cbn [andb]. destruct (tx_seq db >=? MaxInt64); [done|]. cbn [mret stm_ret]. unfold add_row.
  destruct (lr_archive row); [|done]. unfold insert_archive_amount, gets, require, ensure, lift, modify, mbind, stm_bind, id. cbn.
  rewrite <- Har, lookup_insert_eq, Hfa. cbn. done.
Qed.

Lemma add_row_kept db row : tx_wf db → tx_kept db (add_row db row).
Proof.
  intros Htx n [r Hr]. rewrite add_row_transactions. exists r. rewrite lookup_insert_ne; [done|]. intros <-. by rewrite tx_fresh in Hr.
Qed.

Lemma add_row_effective db row n r : n ≠ tx_seq db + 1 → effective_amount (add_row db row) n r = effective_amount db n r.
Proof. intros Hn. unfold effective_amount. rewrite add_row_archive. destruct (lr_archive row); [|done]. by rewrite lookup_insert_ne. Qed.

Lemma add_row_wf X db row : valid_row row → tx_seq db < MaxInt64 → wf_except X db → wf_except ({[lr_account row]} ∪ X) (add_row db row).
Proof.
  intros (Ht & Ha & Har) Hs (Htx & Hp & Hb). pose proof (add_row_kept db row Htx) as Hk. pose proof (tx_fresh db Htx) as Hfresh. split; [|split].
  - destruct Htx as (Hs0 & Hr & Harc). split; [rewrite add_row_seq; lia|]. split.
    + intros n r. rewrite add_row_transactions, add_row_seq. intros [[<- <-]|[_ Hn]]%lookup_insert_Some.
      * split; [lia|]. split; [done|]. cbn. unfold tx_amount_ok. rewrite Har, Z.gtb_ltb.
        destruct (Z.ltb_spec MaxTransactionAmount (lr_amount row)); unfold MaxTransactionAmount in *; lia.
      * apply Hr in Hn as (? & ? & ?). split; [lia|done].
    + intros n a. rewrite add_row_archive. destruct (lr_archive row) eqn:E.
      * intros [[<- <-]|[_ Hn]]%lookup_insert_Some.
        { split; [|rewrite add_row_transactions, lookup_insert_eq; by eexists]. symmetry in Har. rewrite Z.gtb_ltb in Har. apply Z.ltb_lt in Har. lia. }
        apply Harc in Hn as [? ?]. auto.
      * intros Hn. apply Harc in Hn as [? ?]. auto.
  - unfold add_row in *. destruct (lr_archive row); by apply (parts_kept db).
  - intros acc Hacc. apply (balanced_same acc db); [|apply Hb; set_solver]. intros n r Hra. rewrite add_row_transactions.
    destruct (decide (n = tx_seq db + 1)) as [->|Hne].
    + rewrite Hfresh, lookup_insert_eq. split; [|done]. split; [done|]. intros [= <-]. cbn in Hra. set_solver.
    + rewrite lookup_insert_ne by done. split; [done|]. intros _. by rewrite add_row_effective.
Qed.

(** There are ids for all rows. *)
Definition ids_left (rows : list csvLegacyImportRow) (db : ledger) : Prop := rows = [] ∨ tx_seq db + Z.of_nat (length rows) <= MaxInt64.

Lemma affected_cons row rows X : affectedAccounts (row :: rows) ∪ X = affectedAccounts rows ∪ ({[lr_account row]} ∪ X).
Proof. unfold affectedAccounts. cbn. set_solver. Qed.

Lemma insert_rows_run rows : ∀ X db, Forall valid_row rows → wf_except X db →
  (ids_left rows db ∧ for_each insert_row rows db = (Ok tt, added rows db) ∧ wf_except (affectedAccounts rows ∪ X) (added rows db)) ∨
  (¬ ids_left rows db ∧ ∃ db', for_each insert_row rows db = (Err EFull, db')).
Proof.
  unfold ids_left. induction rows as [|row rows IH]; intros X db Hv Hwf; cbn [for_each length].
  - left. split; [by left|]. split; [done|]. unfold affectedAccounts. cbn. by rewrite (left_id_L ∅ (∪)).
  - apply Forall_cons in Hv as [Hr Hv]. unfold mbind, stm_bind. rewrite insert_row_run by (done || apply Hwf). rewrite Z.geb_leb.
    destruct (Z.leb_spec MaxInt64 (tx_seq db)); [right; split; [intros [?|?]; [done|lia]|eauto]|].
    destruct (IH _ (add_row db row) Hv (add_row_wf X db row Hr ltac:(lia) Hwf)) as [(H1 & H2 & H3)|(H1 & db' & H2)]; rewrite add_row_seq in H1.
    + left. split; [right; destruct H1 as [-> |?]; [cbn; lia|lia]|]. split; [done|]. rewrite affected_cons. exact H3.
    + right. split; [|eauto]. intros [?|?]; [done|]. apply H1. right. lia.
Qed.

(** ** Balances *)
Definition rebalanced (accs : list string) (db : ledger) : ledger := foldl (λ db acc, rebalance acc db) db accs.

Lemma balance_at_rebalanced accs acc x : ∀ db, balance_at (rebalanced accs db) acc x = balance_at db acc x.
Proof.
  induction accs as [|a accs IH]; intros db; [done|]. cbn [rebalanced foldl]. fold (rebalanced accs (rebalance a db)).
  by rewrite IH, balance_at_rebalance.
Qed.
Lemma balance_at_date db acc n r b : balance_at db acc (n, set_balance b r) = balance_at db acc (n, r).
Proof. done. Qed.

Lemma rebalanced_lookup accs n : ∀ db, transactions (rebalanced accs db) !! n =
  (λ r, if decide (tx_account r ∈ accs) then set_balance (balance_at db (tx_account r) (n, r)) r else r) <$> transactions db !! n.
Proof.
  induction accs as [|a accs IH]; intros db; cbn [rebalanced foldl].
  - destruct (transactions db !! n) as [r|]; [|done]. cbn. by rewrite decide_False by apply not_elem_of_nil.
  - fold (rebalanced accs (rebalance a db)). rewrite IH, rebalance_lookup_eq. destruct (transactions db !! n) as [r|]; [|done]. cbn. f_equal.
    destruct (decide (tx_account r = a)) as [<-|Hne].
    + rewrite (decide_True (P := tx_account r ∈ tx_account r :: accs)) by left. cbn [tx_account set_balance].
      rewrite balance_at_rebalance, balance_at_date. by case_decide.
    + rewrite balance_at_rebalance. destruct (decide (tx_account r ∈ accs)); [rewrite decide_True by (by right)|rewrite decide_False]; [done|done|].
      by intros [?|?]%elem_of_cons.
Qed.

Lemma rebalanced_other accs : ∀ db, rebalanced accs db = set_transactions (transactions (rebalanced accs db)) db.
Proof.
  induction accs as [|a accs IH]; intros db; cbn [rebalanced foldl]; [by destruct db|]. fold (rebalanced accs (rebalance a db)). rewrite IH at 1. done.
Qed.

(** The order of the accounts does not matter. *)
Lemma rebalanced_perm accs accs' db : (∀ a, a ∈ accs ↔ a ∈ accs') → rebalanced accs db = rebalanced accs' db.
Proof.
  intros Heq. rewrite (rebalanced_other accs), (rebalanced_other accs'). f_equal. apply map_eq. intros n. rewrite !rebalanced_lookup.
  destruct (transactions db !! n) as [r|]; [|done]. cbn. f_equal. apply decide_ext, Heq.
Qed.

(** Every balance of these accounts is an int64. *)
Definition balances_fit (accs : gset string) (db : ledger) : Prop :=
  ∀ n r, transactions db !! n = Some r → tx_account r ∈ accs → int64 (balance_at db (tx_account r) (n, r)).

Lemma balances_fit_rebalance accs a db : balances_fit accs (rebalance a db) ↔ balances_fit accs db.
Proof.
  split; intros H n r Hr Ha.
  - assert (∃ b, transactions (rebalance a db) !! n = Some (set_balance b r)) as [b Hb].
    { rewrite rebalance_lookup_eq, Hr. cbn. case_decide; [by eexists|]. exists (tx_balance r). by destruct r. }
    specialize (H n _ Hb Ha). by rewrite balance_at_rebalance in H.
  - apply rebalance_lookup in Hr as (r0 & Hr0 & ->). rewrite balance_at_rebalance. destruct (decide (tx_account r0 = a)); by apply (H n r0).
Qed.

Lemma recalculate_all accs : ∀ X db, wf_except X db →
  (balances_fit (list_to_set accs) db ∧ for_each recalculateBalanceIn accs db = (Ok tt, rebalanced accs db) ∧
   wf_except (X ∖ list_to_set accs) (rebalanced accs db)) ∨
  (¬ balances_fit (list_to_set accs) db ∧ ∃ n db', for_each recalculateBalanceIn accs db = (Err (EBalanceOverflow n), db')).
Proof.
  induction accs as [|a accs IH]; intros X db Hwf; cbn [for_each].
  - left. split; [intros n r _ []%not_elem_of_empty|]. split; [done|]. cbn. by rewrite difference_empty_L.
  - unfold mbind, stm_bind. destruct (recalculate_cases a db) as [[Hfit Hrun]|(n & r & Hr & Ha & Hov & Hrun)]; [apply tx_wf_amounts, Hwf| |]; rewrite Hrun.
    + destruct (IH _ _ (wf_except_rebalance X a db Hwf)) as [(H1 & H2 & H3)|(H1 & n & db' & H2)]; rewrite balances_fit_rebalance in H1.
      * left. split; [|split; [done|]].
        { intros n r Hr. cbn [list_to_set foldr]. intros [Ha%elem_of_singleton|Hin]%elem_of_union; [rewrite Ha; by apply Hfit|by apply H1]. }
        cbn [list_to_set foldr]. fold (list_to_set (C := gset string) accs). cbn [rebalanced foldl]. by rewrite <- difference_difference_l_L.
      * right. split; [|eauto]. intros Hf. apply H1. intros k r Hr Hin. apply Hf; [done|]. cbn. by apply elem_of_union_r.
    + right. split; [|eauto]. intros Hf. apply Hov. rewrite <- Ha. apply Hf; [done|]. rewrite Ha. cbn. by apply elem_of_union_l, elem_of_singleton.
Qed.

(** ** The rows of an import *)
Lemma added_old rows : ∀ db k, k <= tx_seq db →
  transactions (added rows db) !! k = transactions db !! k ∧ archive_amounts (added rows db) !! k = archive_amounts db !! k.
Proof.
  induction rows as [|row rows IH]; intros db k Hk; [done|]. cbn [added foldl]. fold (added rows (add_row db row)).
  destruct (IH (add_row db row) k) as [-> ->]; [rewrite add_row_seq; lia|]. rewrite add_row_transactions, add_row_archive.
  split; [by rewrite lookup_insert_ne by lia|]. destruct (lr_archive row); [|done]. by rewrite lookup_insert_ne by lia.
Qed.

Definition archive_below (db : ledger) : Prop := ∀ k, tx_seq db < k → archive_amounts db !! k = None.
Lemma tx_wf_archive_below db : tx_wf db → archive_below db.
Proof.
  intros (_ & Hr & Ha) k Hk. destruct (archive_amounts db !! k) eqn:E; [|done]. apply Ha in E as [_ [r Hk2]]. apply Hr in Hk2. lia.
Qed.
Lemma archive_below_add db row : archive_below db → archive_below (add_row db row).
Proof.
  intros Hb k. rewrite add_row_seq, add_row_archive. intros Hk. destruct (lr_archive row); [rewrite lookup_insert_ne by lia|]; apply Hb; lia.
Qed.

Lemma added_new rows : ∀ db i row, archive_below db → rows !! i = Some row →
  let k := tx_seq db + 1 + Z.of_nat i in
  transactions (added rows db) !! k = Some (stored_row row) ∧
  archive_amounts (added rows db) !! k = (if lr_archive row then Some (lr_amount row) else None).
Proof.
  induction rows as [|row0 rows IH]; intros db i row Hb Hi; [done|]. cbn [added foldl]. fold (added rows (add_row db row0)).
  destruct i as [|i]; cbn [lookup list_lookup] in Hi.
  - simplify_eq. rewrite Z.add_0_r. destruct (added_old rows (add_row db row) (tx_seq db + 1)) as [-> ->]; [rewrite add_row_seq; lia|].
    rewrite add_row_transactions, add_row_archive, lookup_insert_eq. split; [done|]. destruct (lr_archive row); [apply lookup_insert_eq|apply Hb; lia].
  - specialize (IH (add_row db row0) i row (archive_below_add _ _ Hb) Hi). rewrite add_row_seq in IH.
    replace (tx_seq db + 1 + Z.of_nat (S i)) with (tx_seq db + 1 + 1 + Z.of_nat i) by lia. exact IH.
Qed.

Lemma added_effective rows db i row : archive_below db → rows !! i = Some row → ∀ b,
  effective_amount (added rows db) (tx_seq db + 1 + Z.of_nat i) (set_balance b (stored_row row)) = lr_amount row.
Proof.
  intros Hb Hi b. destruct (added_new rows db i row Hb Hi) as [_ E]. unfold effective_amount. rewrite E. cbn. by destruct (lr_archive row).
Qed.

(** Nothing but transactions and archived amounts changes. *)
Definition same_parts (db db' : ledger) : Prop :=
  links db' = links db ∧ images db' = images db ∧ img_seq db' = img_seq db ∧ image_archive db' = image_archive db ∧ tags db' = tags db ∧
  tag_seq db' = tag_seq db ∧ transaction_tags db' = transaction_tags db ∧ settings db' = settings db ∧ saves db' = saves db.
Lemma same_parts_trans db1 db2 db3 : same_parts db1 db2 → same_parts db2 db3 → same_parts db1 db3.
Proof. unfold same_parts. intros (?&?&?&?&?&?&?&?&?) (?&?&?&?&?&?&?&?&?). split_and!; congruence. Qed.
Lemma added_parts rows : ∀ db, same_parts db (added rows db).
Proof.
  induction rows as [|row rows IH]; intros db; [done|]. cbn [added foldl]. fold (added rows (add_row db row)).
  eapply same_parts_trans; [|apply IH]. unfold add_row. by destruct (lr_archive row).
Qed.
Lemma rebalanced_parts accs db : same_parts db (rebalanced accs db).
Proof. by rewrite rebalanced_other. Qed.

(** The result of an import. *)
Definition imported (rows : list csvLegacyImportRow) (db : ledger) : ledger :=
  rebalanced (elements (affectedAccounts rows)) (added rows db).

(** There is room for the rows: ids, and balances that fit. *)
Definition import_fits (rows : list csvLegacyImportRow) (db : ledger) : Prop :=
  ids_left rows db ∧ balances_fit (affectedAccounts rows) (added rows db).

Lemma importCSVLegacyRows_run range rows db : (∀ s, range s ≡ₚ elements s) → Forall valid_row rows → ledger_wf db →
  (import_fits rows db ∧ importCSVLegacyRows range rows db = (Ok (zlen rows), imported rows db) ∧ ledger_wf (imported rows db)) ∨
  (¬ import_fits rows db ∧ ∃ e, importCSVLegacyRows range rows db = (Err e, db)).
Proof.
  intros Hrange Hv Hwf%wf_except_empty. unfold importCSVLegacyRows, transactional, mbind, stm_bind, import_fits.
  set (X := affectedAccounts rows). assert (list_to_set (range X) = X) as HX.
  { apply set_eq. intros a. rewrite elem_of_list_to_set, (Hrange X). apply elem_of_elements. }
  destruct (insert_rows_run rows ∅ db Hv Hwf) as [(H1 & -> & H3)|(H1 & db' & ->)]; [|right; split; [tauto|eauto]].
  fold X in H3. rewrite (right_id_L ∅ (∪)) in H3.
  destruct (recalculate_all (range X) X (added rows db) H3) as [(H4 & -> & H6)|(H4 & n & db' & ->)]; rewrite HX in H4; [left|right; split; [tauto|eauto]].
  split; [done|]. assert (imported rows db = rebalanced (range X) (added rows db)) as E.
  { unfold imported. fold X. apply rebalanced_perm. intros a. by rewrite (Hrange X). }
  rewrite E. split; [done|]. apply wf_except_empty. by rewrite HX, difference_diag_L in H6.
Qed.

(** What has been added, row by row. *)
Definition appended (rows : list csvLegacyImportRow) (db db' : ledger) : Prop :=
  tx_seq db' = tx_seq db + zlen rows ∧ same_parts db db' ∧
  (∀ i row, rows !! i = Some row → ∃ r, transactions db' !! (tx_seq db + 1 + Z.of_nat i) = Some r ∧
     r = set_balance (balance_at db' (lr_account row) (tx_seq db + 1 + Z.of_nat i, r)) (stored_row row) ∧
     effective_amount db' (tx_seq db + 1 + Z.of_nat i) r = lr_amount row) ∧
  (∀ k, k <= tx_seq db → option_Forall2 (row_upto (affectedAccounts rows)) (transactions db !! k) (transactions db' !! k) ∧
     archive_amounts db' !! k = archive_amounts db !! k).

Lemma imported_appended rows db : tx_wf db → appended rows db (imported rows db).
Proof.
  intros Htx. unfold imported. set (accs := elements _). split; [|split; [|split]].
  - rewrite rebalanced_other. cbn. apply added_seq.
  - eapply same_parts_trans; [apply added_parts|apply rebalanced_parts].
  - intros i row Hi. destruct (added_new rows db i row (tx_wf_archive_below db Htx) Hi) as [Ht Ha].
    rewrite rebalanced_lookup, Ht. cbn [fmap option_fmap option_map]. rewrite decide_True.
    2: { unfold accs. rewrite elem_of_elements. apply elem_of_list_to_set, list_elem_of_fmap. exists row. split; [done|]. by eapply list_elem_of_lookup_2. }
    eexists. split; [done|]. split; [by rewrite balance_at_rebalanced, balance_at_date|].
    rewrite <- (added_effective rows db i row (tx_wf_archive_below db Htx) Hi (balance_at (added rows db) (lr_account row) (tx_seq db + 1 + Z.of_nat i, stored_row row))).
    unfold effective_amount. by rewrite rebalanced_other.
  - intros k Hk. destruct (added_old rows db k Hk) as [Et Ea]. rewrite rebalanced_lookup, Et. split.
    + destruct (transactions db !! k) as [r|]; [|constructor]. cbn. constructor. case_decide as Hd.
      * eexists. split; [done|]. intros Hn. exfalso. apply Hn. unfold accs in Hd. by apply elem_of_elements in Hd.
      * exists (tx_balance r). split; [by destruct r|done].
    + by rewrite rebalanced_other.
Qed.

(** ** The parser *)
Lemma parse_row_valid m record n row used : parse_row m record n = Ok (row, used) → valid_row row.
Proof.
  unfold parse_row. do 14 (intros (? & _ & H)%res_bind_Ok_inv; revert H).
  intros (ty & Hty & H)%res_bind_Ok_inv. revert H. intros (a & Ha & H)%res_bind_Ok_inv. revert H. intros (d & _ & H)%res_bind_Ok_inv.
  simplify_eq. unfold valid_row. cbn. split; [repeat case_match; simplify_eq; done|]. split; [|done].
  destruct (ParseInt _ 64) as [v|] eqn:E; [|done]. destruct (Z.leb_spec v 0); simplify_eq. unfold ParseInt in E.
  apply bind_Some in E as (w & _ & E). destruct (between _ _ w) eqn:Eb; simplify_eq. unfold between, MaxInt64 in *. lia.
Qed.

Lemma parse_records_valid fuel : ∀ cfg m width failed ls n used rows,
  parse_records fuel cfg m width failed ls n used = Ok rows → Forall valid_row rows.
Proof.
  induction fuel as [|fuel IH]; intros cfg m width failed ls n used rows; cbn [parse_records]; [done|].
  destruct (read_record ls) as [[[record rest]|]|]; [|destruct failed; [done|]; intros [= <-]; constructor|done].
  intros ([row used'] & Hr & H)%res_bind_Ok_inv. apply res_bind_Ok_inv in H as (rows' & Hrows & [= <-]). constructor; [|by eapply IH].
  unfold parse_record in Hr. repeat (case_match; try done); apply res_bind_Ok_inv in Hr as ([r u] & Hp & Hr); repeat (case_match; try done); simplify_eq;
    by eapply parse_row_valid.
Qed.

Lemma parse_legacy_valid cfg text failed rows : parse_legacy cfg text failed = Ok rows → Forall valid_row rows.
Proof.
  unfold parse_legacy. destruct (read_record _) as [[[headers rest]|]|]; try done. intros (m & _ & H)%res_bind_Ok_inv. by eapply parse_records_valid.
Qed.

(** Every record takes a line: the fuel is never used up. *)
Lemma quoted_rest rest : ∀ line buf f l rest', quoted rest line buf = Ok (f, l, rest') → (length rest' <= length rest)%nat.
Proof.
  induction rest as [|x rest IH]; intros line buf f l rest'; cbn [quoted]; destruct (quoted_line line buf); intros H; simplify_eq; try done.
  apply IH in H. cbn. lia.
Qed.
Lemma read_fields_rest fuel : ∀ rest line acc r rest', read_fields fuel rest line acc = Ok (r, rest') → (length rest' <= length rest)%nat.
Proof.
  induction fuel as [|fuel IH]; intros rest line acc r rest'; cbn [read_fields]; [done|]. destruct line as [|c line]; [by intros [= _ <-]|].
  destruct (c =? quote).
  - destruct (quoted rest line []) as [[[f [l|]] rest1]|] eqn:E; [| |done]; apply quoted_rest in E.
    + intros H%IH. lia.
    + by intros [= _ <-].
  - destruct (unquoted (c :: line)) as [f [l|]]; destruct (existsb _ f); try done; [apply IH|by intros [= _ <-]].
Qed.
Lemma read_record_rest ls r rest : read_record ls = Ok (Some (r, rest)) → (length rest < length ls)%nat.
Proof.
  induction ls as [|line ls IH]; [done|]. cbn [read_record length]. destruct (_ || _); [intros ?%IH; lia|].
  intros ([r1 rest1] & E%read_fields_rest & [= _ <-])%res_bind_Ok_inv. lia.
Qed.
Lemma parse_records_fuel fuel : ∀ fuel' cfg m width failed ls n used, (length ls < fuel)%nat → (length ls < fuel')%nat →
  parse_records fuel cfg m width failed ls n used = parse_records fuel' cfg m width failed ls n used.
Proof.
  induction fuel as [|fuel IH]; intros fuel' cfg m width failed ls n used H1 H2; [lia|]. destruct fuel' as [|fuel']; [lia|]. cbn [parse_records].
  destruct (read_record ls) as [[[record rest]|]|] eqn:E; try done. apply read_record_rest in E.
  destruct (parse_record _ _ _ _ _ _) as [r|]; [|done]. cbn [mbind res_bind]. by rewrite (IH fuel') by lia.
Qed.

(** C33. The append-only import of a CSV archive of version 1 or 2, in any order of the
    affected accounts. An error leaves the ledger untouched. A successful call was an
    append of an input that parses; its rows are stored in order under the next ids, each
    with the parsed amount and the right balance, in a ledger that is well formed again;
    earlier rows change at most in the balances of the affected accounts, and nothing
    else changes. The call succeeds whenever the input parses and ids and balances fit,
    and the result does not depend on the order. *)
Theorem csv_legacy_import range chunks mode db : (∀ s, range s ≡ₚ elements s) → ledger_wf db →
  match importCSVLegacyReader range chunks mode db with
  | (Err _, db') => db' = db ∧ (mode = "append" → ∀ rows, parseLegacyCSVRows chunks = Ok rows → ¬ import_fits rows db)
  | (Ok n, db') => mode = "append" ∧ ledger_wf db' ∧
      ∃ rows, parseLegacyCSVRows chunks = Ok rows ∧ n = zlen rows ∧ appended rows db db' ∧
      ∀ range', (∀ s, range' s ≡ₚ elements s) → importCSVLegacyReader range' chunks mode db = (Ok n, db')
  end.
Proof.
  intros Hrange Hwf. unfold importCSVLegacyReader.
  destruct (decide (mode = "append")) as [->|Hm].
  2: { unfold check_mode. rewrite (bool_decide_eq_false_2 (mode = "append")) by done. destruct (bool_decide (mode = "replace")); by cbn. }
  change (check_mode "append") with (@Ok legacyerr unit tt). cbn [mbind res_bind].
  destruct (parseLegacyCSVRows chunks) as [rows|e] eqn:Ep; cbn [import_parsed]; [|split; [done|]; intros _ rows; done].
  assert (Forall valid_row rows) as Hv.
  { unfold parseLegacyCSVRows in Ep. destruct (delivered chunks) as [text e]. apply res_bind_Ok_inv in Ep as (rows' & Hp & Ep).
    destruct (_ >? _); simplify_eq. by eapply parse_legacy_valid. }
  destruct (importCSVLegacyRows_run range rows db Hrange Hv Hwf) as [(Hfit & -> & Hwf')|(Hfit & e & ->)].
  - split; [done|]. split; [done|]. exists rows. split; [done|]. split; [done|]. split; [apply imported_appended, Hwf|].
    intros range' Hrange'. by destruct (importCSVLegacyRows_run range' rows db Hrange' Hv Hwf) as [(_ & -> & _)|(? & _)].
  - split; [done|]. intros _ rows' [= <-]. done.
Qed.

(** * What is exported is parsed back *)
Lemma format_digits n : bytes (FormatInt n) ≠ [] ∧ Forall (λ b, 33 <= b < 127) (bytes (FormatInt n)).
Proof.
  assert (∀ m, 0 <= m → Forall (λ b, 33 <= b < 127) (dec m)) as Hd.
  { intros m Hm. destruct (dec_spec m Hm) as (_ & H & _). apply Is_true_true in H. rewrite forallb_True in H.
    eapply Forall_impl; [exact H|]. intros b Hb%Is_true_true. unfold between in Hb. lia. }
  assert (∀ l, Forall (λ b, 33 <= b < 127) l → Forall is_byte l) as Hb.
  { intros l H. eapply Forall_impl; [exact H|]. unfold is_byte. intros. lia. }
  unfold FormatInt. destruct (Z.ltb_spec n 0).
  - assert (Forall (λ b, 33 <= b < 127) (45 :: dec (- n))) as H1 by (constructor; [lia|apply Hd; lia]). rewrite bytes_of_bytes by auto. done.
  - rewrite bytes_of_bytes by auto. split; [|auto]. apply dec_spec. lia.
Qed.

Lemma valid_ascii l : Forall (λ b, 33 <= b < 127) l → valid_bytes l = true.
Proof. intros H. apply valid_bytes_ascii. eapply Forall_impl; [exact H|]. intros b Hb. cbv beta in Hb. lia. Qed.

Lemma encoded_cell_valid l : valid_bytes l = true → valid_bytes (encodeCSVTextCell l) = true.
Proof.
  intros H. unfold encodeCSVTextCell. destruct (needsCSVFormulaEscape l); [|done].
  change (apostrophe :: l) with ([apostrophe] ++ l). by apply valid_bytes_app.
Qed.

Definition export_columns : gmap (list Z) nat := match parse_header export_header with Ok m => m | Err _ => ∅ end.

Section RoundTrip.
  Context (date_text : Z → list Z) (db : ledger).

(** The row the parser is to return, and the text it keeps. *)
Definition parsed_row (x : Z * txrow) : csvLegacyImportRow :=
  LegacyRow (tx_account x.2) (tx_date x.2) (tx_item x.2) (tx_type x.2) (effective_amount db x.1 x.2) (tx_memo x.2)
    (effective_amount db x.1 x.2 >? MaxTransactionAmount).
Definition parsed_text (x : Z * txrow) : Z :=
  zlen (bytes (tx_account x.2)) + zlen (trim_bytes (date_text (tx_date x.2))) + zlen (bytes (tx_item x.2)) + len (tx_type x.2) + zlen (bytes (tx_memo x.2)).

(** Texts an archive may carry, a date the driver renders so that it is parsed back, and
    a record within the limits of the reader, without carriage returns. *)
Definition exportable (x : Z * txrow) : Prop :=
  ValidateArchivedLedgerText "口座名" (tx_account x.2) maxCSVFieldBytes true = Ok tt ∧
  ValidateArchivedLedgerText "項目" (tx_item x.2) maxCSVFieldBytes true = Ok tt ∧
  ValidateArchivedLedgerText "メモ" (tx_memo x.2) maxCSVFieldBytes false = Ok tt ∧
  valid_bytes (date_text (tx_date x.2)) = true ∧
  parseDateStrict (of_bytes (trim_bytes (date_text (tx_date x.2)))) = Ok (tx_date x.2) ∧
  admissible maxCSVGuardFieldBytes (export_record date_text db x).

Lemma archived_valid label s n b : ValidateArchivedLedgerText label s n b = Ok tt → valid_bytes (bytes s) = true.
Proof.
  unfold ValidateArchivedLedgerText, validate_text. destruct (b && _); [done|]. destruct (ValidString s) eqn:E; [|done]. by rewrite ValidString_bytes in E.
Qed.

Lemma parse_row_export x n : tx_type_ok (tx_type x.2) = true → 0 < effective_amount db x.1 x.2 <= MaxInt64 → exportable x →
  parse_row export_columns (export_record date_text db x) n = Ok (parsed_row x, parsed_text x).
Proof.
  intros Ht Ha (H1 & H2 & H3 & _ & H5 & _). unfold parse_row.
  assert (row_version export_columns (export_record date_text db x) n = Ok csvVersion2) as -> by reflexivity. cbn [mbind res_bind].
  assert (∀ name i v, export_columns !! bytes name = Some i → export_record date_text db x !! i = Some v →
    column export_columns (export_record date_text db x) name n = Ok v) as Hcol.
  { intros name i v E1 E2. unfold column. rewrite E1. cbn [mbind option_bind]. by rewrite E2. }
  rewrite (Hcol "account"%string 1%nat _ eq_refl eq_refl), (Hcol "date"%string 2%nat _ eq_refl eq_refl), (Hcol "item"%string 3%nat _ eq_refl eq_refl),
    (Hcol "type"%string 4%nat _ eq_refl eq_refl), (Hcol "amount"%string 5%nat _ eq_refl eq_refl).
  assert (export_columns !! bytes "memo" = Some 7%nat) as -> by reflexivity. cbn [mbind res_bind option_bind export_record lookup list_lookup default]. unfold id.
  rewrite bool_decide_eq_true_2 by done. unfold decode_cell. rewrite !decode_encode_cell. cbn [mbind res_bind].
  unfold cell_text_ok. rewrite !of_bytes_bytes, H1, H2, H3. cbn [mbind res_bind].
  assert ((if lower_is (trim_bytes (bytes (tx_type x.2))) "income" then Ok "income"%string
            else if lower_is (trim_bytes (bytes (tx_type x.2))) "expense" then Ok "expense"%string else Err (ERowType n)) = Ok (tx_type x.2)) as ->.
  { unfold tx_type_ok in Ht. apply orb_true_iff in Ht as [->%bool_decide_eq_true| ->%bool_decide_eq_true]; reflexivity. }
  cbn [mbind res_bind]. destruct (format_digits (effective_amount db x.1 x.2)) as [Hne Hdig].
  rewrite (trim_ascii (bytes (FormatInt _))) by done. rewrite of_bytes_bytes, ParseInt_FormatInt by (unfold MaxInt64 in Ha; lia).
  destruct (Z.leb_spec (effective_amount db x.1 x.2) 0); [lia|]. cbn [mbind res_bind]. rewrite H5. done.
Qed.

Lemma export_record_valid x : tx_type_ok (tx_type x.2) = true → exportable x → forallb valid_bytes (export_record date_text db x) = true.
Proof.
  intros Ht (H1%archived_valid & H2%archived_valid & H3%archived_valid & H4 & _ & _). unfold export_record. cbn [forallb].
  rewrite !encoded_cell_valid; [|done|by unfold tx_type_ok in Ht; apply orb_true_iff in Ht as [->%bool_decide_eq_true| ->%bool_decide_eq_true]|done..].
  rewrite !(valid_ascii (bytes (FormatInt _))) by apply format_digits. reflexivity.
Qed.

Lemma parse_records_export width rows : ∀ fuel n used, (length rows < fuel)%nat → 
  Forall (λ x, tx_type_ok (tx_type x.2) = true ∧ 0 < effective_amount db x.1 x.2 <= MaxInt64 ∧ exportable x) rows →
  n + zlen rows <= maxCSVRows → used + lsum (parsed_text <$> rows) <= maxCSVParsedTextBytes →
  parse_records fuel from_reader export_columns width false (lines (write_records (export_record date_text db <$> rows))) n used = Ok (parsed_row <$> rows).
Proof.
  assert (∀ x, 0 <= parsed_text x) as Hnn by (intros x; unfold parsed_text, zlen; pose proof (len_nonneg (tx_type x.2)); lia).
  induction rows as [|x rows IH]; intros fuel n used Hf Hrows Hn Hused; destruct fuel as [|fuel]; cbn [length] in Hf; try lia; [done|].
  apply Forall_cons in Hrows as [(Ht & Ha & Hx) Hrows]. cbn [fmap list_fmap write_records mbind list_bind parse_records].
  fold (write_records (export_record date_text db <$> rows)). rewrite fmap_cons, lsum_cons in Hused.
  rewrite read_record_write by done. assert (0 <= lsum (parsed_text <$> rows)) as Hs.
  { rewrite <- (lsum_zero (λ _ : Z * txrow, 0) rows) by (by apply Forall_true). apply lsum_le, Forall_true. auto. }
  assert (zlen (x :: rows) = 1 + zlen rows) as El by (unfold zlen; cbn [length]; lia). assert (0 <= zlen rows) by (unfold zlen; lia).
  assert (parse_record from_reader export_columns width (export_record date_text db x) n used = Ok (parsed_row x, used + parsed_text x)) as ->.
  { unfold parse_record. cbn [from_reader fixed_width limit_values text_budget andb]. rewrite export_record_valid by done. cbn [negb].
    rewrite Z.geb_leb. destruct (Z.leb_spec maxCSVRows n); [lia|]. rewrite parse_row_export by done. cbn [mbind res_bind fst snd].
    rewrite Z.gtb_ltb. by destruct (Z.ltb_spec (maxCSVParsedTextBytes - used) (parsed_text x)); [lia|]. }
  cbn [mbind res_bind fst snd]. rewrite IH; [done|lia|done|lia|lia].
Qed.
End RoundTrip.

Definition bom_header : list (list Z) := match export_header with [] => [] | h :: hs => (bom ++ h) :: hs end.

Lemma write_bom_header : write_record bom_header = bom ++ write_record export_header.
Proof. vm_compute. reflexivity. Qed.
Lemma parse_export_header : parse_header export_header = Ok export_columns ∧ parse_header bom_header = Ok export_columns.
Proof. split; vm_compute; reflexivity. Qed.
Lemma header_admissible h : h = export_header ∨ h = bom_header → admissible maxCSVGuardFieldBytes h ∧ writable h.
Proof.
  intros [-> | ->]; (split; [|done]); (split; [done|]); (split; [|split; vm_compute; congruence]);
    match goal with |- ?P => apply (bool_decide_unpack P); vm_compute; exact I end.
Qed.

Lemma export_rows_wf db : tx_wf db → Forall (λ x, tx_type_ok (tx_type x.2) = true ∧ 0 < effective_amount db x.1 x.2 <= MaxInt64) (export_rows db).
Proof.
  intros Htx. apply Forall_forall. intros [n r] Hin. unfold export_rows in Hin. rewrite merge_sort_Permutation in Hin. apply elem_of_map_to_list in Hin.
  split; [by apply Htx in Hin as (_ & ? & _)|]. by apply (tx_wf_amounts db Htx).
Qed.

Lemma admissible_writable l r : admissible l r → (2 <= length r)%nat → writable r.
Proof. intros (? & _) Hl. split; [done|]. intros ->. cbn in Hl. lia. Qed.

Lemma delivered_written records chunks : Forall (admissible maxCSVGuardFieldBytes) records → chunks ≠ [] →
  concat chunks = write_records records → zlen (concat chunks) <= MaxCSVImportBytes → delivered chunks = (write_records records, None).
Proof.
  intros Ha Hne E Hl. unfold delivered. destruct (Z.leb_spec (zlen (concat chunks)) MaxCSVImportBytes); [|lia]. by apply guard_admits.
Qed.

Lemma admissible_cr l records : Forall (admissible l) records → Forall (Forall (λ f, 13 ∉ f)) records.
Proof.
  intros H. eapply Forall_impl; [exact H|]. intros r (_ & Hr & _). eapply Forall_impl; [exact Hr|]. by intros f [? _].
Qed.

(** C34. An exported archive of version 2 is read back: however its text, with or without
    a byte order mark, arrives in chunks, the parser returns exactly the transactions of
    the ledger in the order of date and id, with their effective amounts. This is for a
    ledger whose texts are valid and have no carriage return ([encoding/csv] reads a carriage
    return before a line feed as the line feed alone, see [csv_v2_crlf]), whose fields and
    whole text are within the parser's limits, and whose dates the program parses back from
    the driver's text. *)
Theorem csv_v2_roundtrip date_text buffered db text prefix chunks :
  (∀ t, concat (buffered t) = t) → tx_wf db → Forall (exportable date_text db) (export_rows db) →
  lsum (parsed_text date_text <$> export_rows db) <= maxCSVParsedTextBytes →
  backupToCSVV2 date_text buffered db = Ok text → prefix = [] ∨ prefix = bom → chunks ≠ [] → concat chunks = prefix ++ text →
  parseLegacyCSVRows chunks = Ok (parsed_row db <$> export_rows db).
Proof.
  intros Hbuf Htx Hexp Hsum Hb Hpre Hne Hc. unfold backupToCSVV2 in Hb. rewrite write_chunks_exact, Hbuf, !Z.gtb_ltb in Hb by done.
  destruct (Z.ltb_spec maxCSVRows (zlen (export_rows db))) as [|Hrows]; [done|].
  set (records := export_record date_text db <$> export_rows db) in *.
  destruct (Z.ltb_spec maxCSVExportBytes (0 + zlen (write_records (export_header :: records)))) as [|Hlen]; [done|].
  assert (text = write_records (export_header :: records)) as -> by congruence. clear Hb.
  assert (∃ h, (h = export_header ∨ h = bom_header) ∧ concat chunks = write_records (h :: records)) as (h & Hh & Hch).
  { rewrite Hc. destruct Hpre as [-> | ->]; [exists export_header; auto|]. exists bom_header. split; [auto|].
    cbn [write_records mbind list_bind]. rewrite write_bom_header. by rewrite <- app_assoc. }
  destruct (header_admissible h Hh) as [Hah Hwh]. assert (Forall (admissible maxCSVGuardFieldBytes) records) as Har.
  { apply Forall_fmap. eapply Forall_impl; [exact Hexp|]. by intros x (_ & _ & _ & _ & _ & ?). }
  assert (zlen (concat chunks) <= MaxCSVImportBytes) as Hsize.
  { rewrite Hc. unfold zlen, maxCSVExportBytes in *. rewrite length_app. assert (length prefix <= 3)%nat by (by destruct Hpre as [-> | ->]; cbn; lia). lia. }
  unfold parseLegacyCSVRows. rewrite (delivered_written (h :: records)) by (done || by constructor). cbn [failed_input].
  unfold parse_legacy, input_lines. rewrite read_lines_plain by (apply write_records_cr, (admissible_cr maxCSVGuardFieldBytes); by constructor).
  set (ls := lines (write_records (h :: records))). assert (read_record ls = Ok (Some (h, lines (write_records records)))) as Hr.
  { unfold ls. cbn [write_records mbind list_bind]. by rewrite read_record_write. }
  rewrite Hr. apply read_record_rest in Hr. assert (parse_header h = Ok export_columns) as ->.
  { destruct parse_export_header as [H1 H2]. by destruct Hh as [-> | ->]. }
  cbn [mbind res_bind]. rewrite (parse_records_fuel _ (S (S (length ls) + length records))) by lia.
  unfold records. rewrite parse_records_export; [|rewrite length_fmap; lia| |lia|lia].
  - cbn [mbind res_bind]. rewrite Z.gtb_ltb. by destruct (Z.ltb_spec MaxCSVImportBytes (zlen (concat chunks))); [lia|].
  - pose proof (export_rows_wf db Htx) as Hw. apply Forall_and in Hw as [Hw1 Hw2]. rewrite Forall_forall in Hw1, Hw2, Hexp. apply Forall_forall. auto.
Qed.

Definition demo_csv : list (list Z) :=
  [bytes "account,date,item,type,amount" ++ [13]; 10 :: bytes "cash, 2024-02-29 ,tea,Income,2000000000"].

Lemma csv_legacy_import_witness : ledger_wf empty_ledger ∧
  ∃ db', importCSVLegacyReader elements demo_csv "append" empty_ledger = (Ok 1, db') ∧ ledger_wf db' ∧ tx_seq db' = 1.
Proof.
  assert (ledger_wf empty_ledger) as Hwf by apply ledger_wf_empty. split; [exact Hwf|].
  assert (∀ s : gset string, elements s ≡ₚ elements s) as Hr by done.
  pose proof (csv_legacy_import elements demo_csv "append" empty_ledger Hr Hwf) as H.
  assert (∃ db', importCSVLegacyReader elements demo_csv "append" empty_ledger = (Ok 1, db')) as [db' E] by (eexists; vm_compute; reflexivity).
  exists db'. split; [exact E|]. rewrite E in H. destruct H as (_ & Hwf' & rows & _ & Hn & Ha & _). split; [exact Hwf'|].
  destruct Ha as [-> _]. rewrite <- Hn. reflexivity.
Defined.

Definition demo_export : ledger :=
  Ledger {[ 7 := TxRow "=cash" 0 "tea, green" "expense" 120 (-120) "" ]} 7 ∅ ∅ ∅ 0 ∅ ∅ 0 ∅ ∅ [].
Definition demo_date (d : Z) : list Z := bytes "1970-01-01T00:00:00Z".

(** A memo with a carriage return before a line feed loses it on the way. *)
Definition demo_crlf : ledger :=
  Ledger {[ 7 := TxRow "cash" 0 "tea" "expense" 120 (-120) (of_bytes [97; 13; 10; 98]) ]} 7 ∅ ∅ ∅ 0 ∅ ∅ 0 ∅ ∅ [].
Example csv_v2_crlf :
  match backupToCSVV2 demo_date (λ t, [t]) demo_crlf with
  | Ok text => parseLegacyCSVRows [text] = Ok [LegacyRow "cash" 0 "tea" "expense" 120 (of_bytes [97; 10; 98]) false]
  | Err _ => False
  end.
Proof. vm_compute. reflexivity. Qed.

Lemma csv_v2_roundtrip_witness :
  match backupToCSVV2 demo_date (λ t, [t]) demo_export with
  | Ok text => parseLegacyCSVRows [bom; text] = Ok [LegacyRow "=cash" 0 "tea, green" "expense" 120 "" false]
  | Err _ => False
  end.
Proof.
  assert (∃ text, backupToCSVV2 demo_date (λ t, [t]) demo_export = Ok text) as [text E] by (eexists; vm_compute; reflexivity). rewrite E.
  assert (tx_wf demo_export) as Htx.
  { split; [done|]. split; [|done]. intros n r Hn. unfold demo_export in Hn. cbn [transactions] in Hn. apply lookup_singleton_Some in Hn as [<- <-]. cbn. done. }
  transitivity (@Ok legacyerr _ (parsed_row demo_export <$> export_rows demo_export)); [|vm_compute; reflexivity].
  refine (csv_v2_roundtrip demo_date (λ t, [t]) demo_export text bom [bom; text] _ Htx _ _ E _ _ _).
  - intros t. apply app_nil_r.
  - match goal with |- ?P => assert (P = Forall (exportable demo_date demo_export) [(7, TxRow "=cash" 0 "tea, green" "expense" 120 (-120) "")]) as -> by reflexivity end.
    repeat constructor; try (vm_compute; congruence); match goal with |- ?P => apply (bool_decide_unpack P); vm_compute; exact I end.
  - vm_compute. congruence.
  - by right.
  - done.
  - cbn [concat]. by rewrite app_nil_r.
Defined.
