(* ===== verification/CsvV3.v ===== *)
(** CSV archives of version 3 ([core/service_csv_full.go]): the typed records of a
    complete archive, their schema, the digest and the manifest that close an archive,
    and the parser.

    A record is a list of the 23 fields of the official header. SHA-256, the decoders of
    image bodies and cancelled contexts are arguments or left out as elsewhere; so are the
    private spool files and the memory reservations of the parser, which decide where the
    bytes of an image are kept and not which bytes they are. *)
From Stdlib Require Import ZArith Lia.
From stdpp Require Import base gmap list strings sorting.
From S2P Require Import Prelude GoText Validation Settings GoTime ImageContainers Schema Balance Tags Links Images LedgerOps CsvText CsvGuard CsvLegacy.
Open Scope Z_scope.

Definition csvVersion3 : list Z := bytes "3".
Definition maxCSVSettingKeyBytes : Z := 256.
Definition csvV3ImageParsedStructureBytes : Z := 1024.
Definition MaxArchivedImageBytes : Z := 8 * 1024 * 1024.
Definition MaxArchivedImagesPerTransaction : Z := 1000.
Definition MaxArchivedImageMetadataBytes : Z := 4 * 1024.

Inductive v3err :=
| V3HeaderRead | V3Header | V3Read | V3Columns | V3AfterManifest | V3UTF8 | V3TooManyRows | V3Size (name : string)
| V3Version | V3Escape (name : string) | V3EmptyType | V3ManifestShape (name : string) | V3ManifestKey | V3ManifestJSON
| V3ManifestCount | V3ManifestDigest | V3RecordType | V3Shape (name : string) | V3Number (name : string) | V3Duplicate
| V3Text (e : verr) | V3Budget | V3TxType | V3Date (e : derr) | V3Amount (e : verr) | V3Image (e : imgerr) | V3Base64 | V3ImageBytes
| V3CreatedAt | V3TagName (e : verr) | V3TagCanonical | V3TagLevel | V3TagHierarchy (e : verr) | V3LinkSelf | V3SettingKey
| V3Setting (e : verr) | V3Input | V3Reference | V3NoTransactions.

(** * The schema *)
Definition csvV3Headers : list string :=
  ["omni_money_csv_version"; "record_type"; "id"; "transaction_id"; "parent_id"; "child_id"; "tag_id";
   "account"; "date"; "item"; "type"; "amount"; "balance"; "memo"; "filename"; "mime_type";
   "data_base64"; "tag_name"; "tag_parent_id"; "tag_level"; "setting_key"; "setting_value"; "created_at"]%string.

Definition csvV3Record (values : gmap string (list Z)) : list (list Z) := (λ header, default [] (values !! header)) <$> csvV3Headers.

Definition csvV3ManifestRecordTypes : list string :=
  ["transaction"; "transaction_legacy"; "image"; "image_legacy"; "tag"; "tag_legacy";
   "transaction_tag"; "transaction_link"; "setting"; "setting_legacy"; "manifest"]%string.
Definition csvV3ManifestRecordType : string := "manifest".
Definition csvV3ManifestKey : string := "omni_money_csv_v3_manifest".

Definition containsCSVV3ManifestRecordType (recordType : string) : bool :=
  existsb (λ allowed, bool_decide (recordType = allowed) && negb (bool_decide (recordType = csvV3ManifestRecordType))) csvV3ManifestRecordTypes.

Definition tx_columns : list string := ["id"; "account"; "date"; "item"; "type"; "amount"; "balance"; "memo"]%string.
Definition image_columns : list string := ["id"; "transaction_id"; "filename"; "mime_type"; "data_base64"; "created_at"]%string.
Definition tag_columns : list string := ["id"; "tag_name"; "tag_parent_id"; "tag_level"]%string.
Definition csvV3RecordAllowedColumns : gmap string (list string) :=
  list_to_map [("transaction"%string, tx_columns); ("transaction_legacy"%string, tx_columns);
    ("image"%string, image_columns); ("image_legacy"%string, image_columns); ("tag"%string, tag_columns); ("tag_legacy"%string, tag_columns);
    ("transaction_tag"%string, ["transaction_id"; "tag_id"]%string); ("transaction_link"%string, ["parent_id"; "child_id"]%string);
    ("setting"%string, ["setting_key"; "setting_value"]%string); ("setting_legacy"%string, ["setting_key"; "setting_value"]%string)].

Definition isCSVV3Header (headers : list (list Z)) : bool := bool_decide (headers = bytes <$> csvV3Headers).

(** After the header check a column is its index in the official header. *)
Definition header_index (name : string) : option nat := fst <$> list_find (λ h, h = name) csvV3Headers.

Definition csvV3Get (record : list (list Z)) (name : string) : res v3err (list Z) :=
  match header_index name with
  | None => Ok []
  | Some i =>
    match record !! i with
    | None => Err V3Columns
    | Some v => if zlen v >? maxCSVGuardFieldBytes then Err (V3Size name) else Ok v
    end
  end.

Definition csvV3DecodedText (record : list (list Z)) (name : string) : res v3err string :=
  raw ← csvV3Get record name;
  match decodeCSVV3TextCell raw with
  | Err _ => Err (V3Escape name)
  | Ok decoded => if zlen decoded >? maxCSVFieldBytes then Err (V3Size name) else Ok (of_bytes decoded)
  end.

Definition csvV3Int (record : list (list Z)) (name : string) (required positive : bool) : res v3err Z :=
  raw ← csvV3Get record name;
  let text := trim_bytes raw in
  if bool_decide (text = []) then if required then Err (V3Number name) else Ok 0
  else match ParseInt (of_bytes text) 64 with
       | Some v => if positive && (v <=? 0) then Err (V3Number name) else Ok v
       | None => Err (V3Number name)
       end.

(** Columns outside the ones of a record type must be empty. *)
Fixpoint columns_empty (record : list (list Z)) (skip : list string) (err : string → v3err) (headers : list string) : res v3err unit :=
  match headers with
  | [] => Ok tt
  | h :: hs =>
    if bool_decide (h ∈ skip) then columns_empty record skip err hs
    else
      v ← csvV3Get record h;
      if bool_decide (v = []) then columns_empty record skip err hs else Err (err h)
  end.
Definition validateCSVV3ManifestRecordShape (record : list (list Z)) : res v3err unit :=
  columns_empty record ["omni_money_csv_version"; "record_type"; "setting_key"; "setting_value"]%string V3ManifestShape csvV3Headers.
Definition validateCSVV3RecordShape (record : list (list Z)) (recordType : string) : res v3err unit :=
  match csvV3RecordAllowedColumns !! recordType with
  | None => Err V3RecordType
  | Some allowed => columns_empty record ("omni_money_csv_version"%string :: "record_type"%string :: allowed) V3Shape csvV3Headers
  end.

(** * Digest and manifest *)
(** [binary.BigEndian.PutUint64] *)
Fixpoint be_bytes (k : nat) (n : Z) : list Z :=
  match k with O => [] | S k' => be_bytes k' (n / 256) ++ [n mod 256] end.
Definition be64 (n : Z) : list Z := be_bytes 8 n.
(** The bytes a record adds to the digest. *)
Definition updateCSVV3Digest (record : list (list Z)) : list Z := record ≫= λ field, be64 (zlen field) ++ field.

Definition hex_string (l : list Z) : list Z := l ≫= λ b, [hex_digit (b / 16); hex_digit (b mod 16)].
Definition quoted_bytes (s : string) : list Z := 34 :: bytes s ++ [34].

Record csvV3Manifest := Manifest { mf_counts : gmap string Z; mf_digest : list Z }.

(** [json.Marshal]: the keys of the map in byte order. *)
Definition key_le (x y : string * Z) : Prop := lex_le (bytes x.1) (bytes y.1) = true.
#[global] Instance key_le_dec : RelDecision key_le.
Proof. intros x y. unfold key_le. apply _. Defined.
Fixpoint json_counts (l : list (string * Z)) : list Z :=
  match l with
  | [] => []
  | [(k, n)] => quoted_bytes k ++ 58 :: bytes (FormatInt n)
  | (k, n) :: l' => quoted_bytes k ++ 58 :: bytes (FormatInt n) ++ 44 :: json_counts l'
  end.
Definition manifest_head : list Z :=
  123 :: quoted_bytes "format" ++ 58 :: quoted_bytes "omni-money-csv-v3" ++ 44 :: quoted_bytes "version" ++ bytes ":3," ++ quoted_bytes "counts" ++ [58; 123].
Definition marshal_manifest (m : csvV3Manifest) : list Z :=
  manifest_head ++ json_counts (merge_sort key_le (map_to_list (mf_counts m))) ++ [125; 44] ++ quoted_bytes "digest" ++ 58 :: 34 :: mf_digest m ++ [34; 125].

(** The counts an export writes. *)
Definition manifest_counts (counts : gmap string Z) : gmap string Z :=
  foldr (λ t m, if bool_decide (t = "image_legacy"%string) && (default 0 (counts !! t) =? 0) then m
                else if bool_decide (t = csvV3ManifestRecordType) then <[t := 1]> m else <[t := default 0 (counts !! t)]> m)
    ∅ csvV3ManifestRecordTypes.

(** The decoder. Only the canonical text of a manifest is accepted, so that the parser
    need not know any other JSON text: it returns nothing for those. *)
Fixpoint span (p : Z → bool) (l : list Z) : list Z * list Z :=
  match l with
  | [] => ([], [])
  | c :: l' => if p c then let '(a, b) := span p l' in (c :: a, b) else ([], l)
  end.
Fixpoint parse_counts (fuel : nat) (l : list Z) (m : gmap string Z) : option (gmap string Z * list Z) :=
  match fuel, l with
  | S fuel', c :: l1 =>
    if c =? 34 then
      let '(k, r) := span (λ c, negb (c =? 34)) l1 in
      match r with
      | 34 :: 58 :: r2 =>
        let '(d, r3) := span (λ c, negb (c =? 44) && negb (c =? 125)) r2 in
        n ← ParseInt (of_bytes d) 64;
        let m' := <[of_bytes k := n]> m in
        match r3 with
        | 44 :: r4 => parse_counts fuel' r4 m'
        | 125 :: r4 => Some (m', r4)
        | _ => None
        end
      | _ => None
      end
    else None
  | _, _ => None
  end.
Definition unmarshal_manifest (value : list Z) : option csvV3Manifest :=
  l ← strip_prefix manifest_head value;
  '(counts, l) ← parse_counts (length l) l ∅;
  l ← strip_prefix (44 :: quoted_bytes "digest" ++ [58; 34]) l;
  let '(digest, r) := span (λ c, negb (c =? 34)) l in
  if bool_decide (r = [34; 125]) then Some (Manifest counts digest) else None.

Definition is_hex (c : Z) : bool := between 48 57 c || between 97 102 c || between 65 70 c.
Definition count_ok (o : option Z) : bool := match o with Some n => (0 <=? n) && (n <=? maxCSVRows) | None => false end.

Definition decodeCSVV3Manifest (value : list Z) : res v3err csvV3Manifest :=
  match unmarshal_manifest value with
  | None => Err V3ManifestJSON
  | Some m =>
    if negb (zlen (mf_digest m) =? 64) || negb (forallb is_hex (mf_digest m)) then Err V3ManifestJSON
    else
      let n := zlen csvV3ManifestRecordTypes in
      let legacy := Z.of_nat (size (mf_counts m)) =? n - 1 in
      if negb (Z.of_nat (size (mf_counts m)) =? n) && negb legacy then Err V3ManifestJSON
      else if negb (bool_decide (marshal_manifest m = value)) then Err V3ManifestJSON
      else
        let absent := legacy && bool_decide (mf_counts m !! "image_legacy"%string = None) in
        let counts := if absent then <["image_legacy"%string := 0]> (mf_counts m) else mf_counts m in
        if negb (forallb (λ t, count_ok (counts !! t)) csvV3ManifestRecordTypes) then Err V3ManifestJSON
        else if negb (bool_decide (counts !! csvV3ManifestRecordType = Some 1)) then Err V3ManifestJSON
        else Ok (Manifest counts (mf_digest m))
  end.

Example decode_demo : let m := Manifest (manifest_counts {[ "tag"%string := 3 ]}) (replicate 64 48) in
  ∃ m', decodeCSVV3Manifest (marshal_manifest m) = Ok m' ∧ mf_counts m' !! "tag"%string = Some 3 ∧ mf_counts m' !! "image_legacy"%string = Some 0.
Proof. eexists. split_and!; vm_compute; reflexivity. Qed.

(** * Parsed archives *)
Record csvV3Transaction := V3Tx {
  vt_id : Z; vt_account : string; vt_date : string; vt_item : string; vt_type : string; vt_memo : string;
  vt_amount : Z; vt_balance : Z; vt_archive : bool
}.
Record csvV3Image := V3Img {
  vi_id : Z; vi_transaction : Z; vi_filename : string; vi_mime : string; vi_created : string; vi_data : list Z; vi_archive : bool
}.
Record csvV3Tag := V3Tag { vg_id : Z; vg_parent : Z; vg_name : string; vg_level : Z; vg_archive : bool; vg_duplicate : bool }.
Record csvV3Import := V3Import {
  v_transactions : list csvV3Transaction;
  v_images : list csvV3Image;
  v_tags : list csvV3Tag;
  v_tagLinks : list (Z * Z);
  v_transactionLinks : list (Z * Z);
  v_settings : gmap string string;
  v_decodedImageBytes : Z;
  v_parsedTextBytes : Z;
  v_hasManifest : bool
}.

(** The parser between two records; [vs_digest] is what has been written to the digest. *)
Record v3state := V3State {
  vs_import : csvV3Import;
  vs_transactionIDs : gset Z;
  vs_tagIDs : gset Z;
  vs_tagNames : gset (list Z);
  vs_imageIDs : gset Z;
  vs_tagLinks : gset (Z * Z);
  vs_links : gset (Z * Z);
  vs_counts : gmap string Z;
  vs_digest : list Z
}.
Definition empty_import : csvV3Import := V3Import [] [] [] [] [] ∅ 0 0 false.
Definition initial_state : v3state := V3State empty_import ∅ ∅ ∅ ∅ ∅ ∅ ∅ [].

Definition set_import (i : csvV3Import) (s : v3state) : v3state :=
  V3State i (vs_transactionIDs s) (vs_tagIDs s) (vs_tagNames s) (vs_imageIDs s) (vs_tagLinks s) (vs_links s) (vs_counts s) (vs_digest s).
Definition set_parsed_text (n : Z) (i : csvV3Import) : csvV3Import :=
  V3Import (v_transactions i) (v_images i) (v_tags i) (v_tagLinks i) (v_transactionLinks i) (v_settings i) (v_decodedImageBytes i) n (v_hasManifest i).

Fixpoint add_values (additional : Z) (values : list string) : res v3err Z :=
  match values with
  | [] => Ok additional
  | v :: values' => if len v >? maxCSVParsedTextBytes - additional then Err V3Budget else add_values (additional + len v) values'
  end.
Definition addCSVV3ParsedBudget (used structuralBytes : Z) (values : list string) : res v3err Z :=
  if (structuralBytes <? 0) || (used <? 0) || (used >? maxCSVParsedTextBytes) then Err V3Budget
  else
    additional ← add_values structuralBytes values;
    if additional >? maxCSVParsedTextBytes - used then Err V3Budget else Ok (used + additional).

Definition lift_err {A E} (f : E → v3err) (r : res E A) : res v3err A := match r with Ok a => Ok a | Err e => Err (f e) end.

Definition validateCSVV3Setting (mode : LedgerSettingParseMode) (key value : string) : res v3err unit :=
  if negb (bool_decide (key = "credit_card_items")) && negb (bool_decide (key = "bank_account_items")) then Err V3SettingKey
  else
    _ ← lift_err V3Setting (ValidateLedgerText "設定キー" key maxCSVSettingKeyBytes true);
    if (len value >? maxCSVSettingValueBytes) || negb (ValidString value) then Err V3SettingKey
    else
      _ ← lift_err V3Setting (ParseLedgerSettingItemsWithMode value mode maxCSVSettingValueBytes MaxSettingItems);
      Ok tt.

Definition validateCSVV3CreatedAt (value : string) : res v3err unit :=
  if bool_decide (value = "") then Ok tt else match parseDateStrict value with Ok _ => Ok tt | Err _ => Err V3CreatedAt end.

(** * Rows *)
Definition archive_text (archive : bool) (label value : string) (maxBytes : Z) (required : bool) : res v3err unit :=
  lift_err V3Text (if archive then ValidateArchivedLedgerText label value maxCSVFieldBytes required
                   else ValidateLedgerText label value maxBytes required).

Definition parse_transaction (archive : bool) (record : list (list Z)) (s : v3state) : res v3err v3state :=
  n ← csvV3Int record "id" true true;
  if bool_decide (n ∈ vs_transactionIDs s) then Err V3Duplicate
  else
    account ← csvV3DecodedText record "account";
    date ← csvV3DecodedText record "date";
    item ← csvV3DecodedText record "item";
    txType ← csvV3DecodedText record "type";
    memo ← csvV3DecodedText record "memo";
    _ ← archive_text archive "口座名" account MaxAccountBytes true;
    _ ← archive_text archive "項目" item MaxItemBytes true;
    _ ← archive_text archive "メモ" memo MaxMemoBytes false;
    let i := vs_import s in
    used ← addCSVV3ParsedBudget (v_parsedTextBytes i) 0 [account; date; item; txType; memo];
    if negb (tx_type_ok txType) then Err V3TxType
    else
      _ ← lift_err V3Date (parseDateStrict date);
      amount ← csvV3Int record "amount" true true;
      _ ← (if archive then Ok tt else lift_err V3Amount (ValidateTransactionAmount amount));
      balance ← csvV3Int record "balance" false false;
      let t := V3Tx n account date item txType memo amount balance (amount >? MaxTransactionAmount) in
      Ok (V3State (V3Import (v_transactions i ++ [t]) (v_images i) (v_tags i) (v_tagLinks i) (v_transactionLinks i) (v_settings i)
                     (v_decodedImageBytes i) used (v_hasManifest i))
            ({[n]} ∪ vs_transactionIDs s) (vs_tagIDs s) (vs_tagNames s) (vs_imageIDs s) (vs_tagLinks s) (vs_links s) (vs_counts s) (vs_digest s)).

Section Parse.
  Context (DecodeConfig Decode : list Z → option (Z * Z * string)) (sha256 : list Z → list Z).

Definition parse_image (archive : bool) (record : list (list Z)) (s : v3state) : res v3err v3state :=
  n ← csvV3Int record "id" true (negb archive);
  if n =? 0 then Err (V3Number "id")
  else if bool_decide (n ∈ vs_imageIDs s) then Err V3Duplicate
  else
    txID ← csvV3Int record "transaction_id" true true;
    let i := vs_import s in
    used ← addCSVV3ParsedBudget (v_parsedTextBytes i) csvV3ImageParsedStructureBytes [];
    filename ← csvV3DecodedText record "filename";
    mimeType ← csvV3DecodedText record "mime_type";
    encoded ← csvV3Get record "data_base64";
    if (negb archive && bool_decide (encoded = [])) || existsb IsSpace (runes (of_bytes encoded)) then Err V3Base64
    else
      let maxBytes := if archive then MaxArchivedImageBytes else MaxImageBytes in
      if zlen encoded >? EncodedLen maxBytes then Err V3ImageBytes
      else
        let worst := zlen encoded / 4 * 3 in
        if (negb archive && (worst <=? 0)) || (worst >? maxBytes + 2) then Err V3ImageBytes
        else match b64_decode encoded with
             | None => Err V3Base64
             | Some data =>
               if negb archive && (zlen data =? 0) then Err V3Base64
               else if zlen data >? MaxImageBytesDatabase - v_decodedImageBytes i then Err V3ImageBytes
               else
                 createdAt ← csvV3DecodedText record "created_at";
                 _ ← validateCSVV3CreatedAt createdAt;
                 prepared ← (if archive then
                     _ ← lift_err V3Text (ValidateArchivedLedgerText "画像ファイル名" filename MaxArchivedImageMetadataBytes false);
                     _ ← lift_err V3Text (ValidateArchivedLedgerText "画像MIME" mimeType MaxArchivedImageMetadataBytes false);
                     Ok (Prepared filename mimeType data)
                   else lift_err V3Image (prepareDecodedTransactionImage DecodeConfig Decode filename mimeType data));
                 if zlen (pi_data prepared) >? MaxImageBytesDatabase - v_decodedImageBytes i then Err V3ImageBytes
                 else
                   used ← addCSVV3ParsedBudget used 0 [pi_filename prepared; pi_mime prepared; createdAt];
                   let image := V3Img n txID (pi_filename prepared) (pi_mime prepared) createdAt (pi_data prepared) archive in
                   Ok (V3State (V3Import (v_transactions i) (v_images i ++ [image]) (v_tags i) (v_tagLinks i) (v_transactionLinks i) (v_settings i)
                                  (v_decodedImageBytes i + zlen (pi_data prepared)) used (v_hasManifest i))
                         (vs_transactionIDs s) (vs_tagIDs s) (vs_tagNames s) ({[n]} ∪ vs_imageIDs s) (vs_tagLinks s) (vs_links s) (vs_counts s) (vs_digest s))
             end.

(** The key of a child: the parent's id, a zero byte and the name. *)
Definition child_key (parent : Z) (name : string) : list Z := bytes (FormatInt parent) ++ 0 :: bytes name.

Definition parse_tag (archive : bool) (record : list (list Z)) (s : v3state) : res v3err v3state :=
  n ← csvV3Int record "id" true true;
  if bool_decide (n ∈ vs_tagIDs s) then Err V3Duplicate
  else
    name ← csvV3DecodedText record "tag_name";
    _ ← (if archive then lift_err V3TagName (ValidateArchivedLedgerText "タグ名" name maxCSVFieldBytes true)
         else canonical ← lift_err V3TagName (ValidateTagName name); if bool_decide (canonical = name) then Ok tt else Err V3TagCanonical);
    level ← match csvV3Int record "tag_level" true true with Ok l => Ok l | Err _ => Err V3TagLevel end;
    if (level <? 1) || (level >? MaxTagLevel) then Err V3TagLevel
    else
      parent ← csvV3Int record "tag_parent_id" false true;
      _ ← (if parent =? 0 then lift_err V3TagHierarchy (ValidateTagHierarchy level None) else Ok tt);
      let key := if parent =? 0 then bytes name else child_key parent name in
      let named := negb ((parent =? 0) && archive) in
      if named && bool_decide (key ∈ vs_tagNames s) then Err V3Duplicate
      else
        let i := vs_import s in
        used ← addCSVV3ParsedBudget (v_parsedTextBytes i) 0 [name];
        Ok (V3State (V3Import (v_transactions i) (v_images i) (v_tags i ++ [V3Tag n parent name level archive false]) (v_tagLinks i)
                       (v_transactionLinks i) (v_settings i) (v_decodedImageBytes i) used (v_hasManifest i))
              (vs_transactionIDs s) ({[n]} ∪ vs_tagIDs s) (if named then {[key]} ∪ vs_tagNames s else vs_tagNames s)
              (vs_imageIDs s) (vs_tagLinks s) (vs_links s) (vs_counts s) (vs_digest s)).

Definition parse_transaction_tag (record : list (list Z)) (s : v3state) : res v3err v3state :=
  txID ← csvV3Int record "transaction_id" true true;
  tagID ← csvV3Int record "tag_id" true true;
  if bool_decide ((txID, tagID) ∈ vs_tagLinks s) then Err V3Duplicate
  else
    let i := vs_import s in
    Ok (V3State (V3Import (v_transactions i) (v_images i) (v_tags i) (v_tagLinks i ++ [(txID, tagID)]) (v_transactionLinks i) (v_settings i)
                   (v_decodedImageBytes i) (v_parsedTextBytes i) (v_hasManifest i))
          (vs_transactionIDs s) (vs_tagIDs s) (vs_tagNames s) (vs_imageIDs s) ({[(txID, tagID)]} ∪ vs_tagLinks s) (vs_links s) (vs_counts s) (vs_digest s)).

Definition parse_transaction_link (record : list (list Z)) (s : v3state) : res v3err v3state :=
  parent ← csvV3Int record "parent_id" true true;
  child ← csvV3Int record "child_id" true true;
  if parent =? child then Err V3LinkSelf
  else
    let pair := ordered_pair parent child in
    if bool_decide (pair ∈ vs_links s) then Err V3Duplicate
    else
      let i := vs_import s in
      Ok (V3State (V3Import (v_transactions i) (v_images i) (v_tags i) (v_tagLinks i) (v_transactionLinks i ++ [pair]) (v_settings i)
                     (v_decodedImageBytes i) (v_parsedTextBytes i) (v_hasManifest i))
            (vs_transactionIDs s) (vs_tagIDs s) (vs_tagNames s) (vs_imageIDs s) (vs_tagLinks s) ({[pair]} ∪ vs_links s) (vs_counts s) (vs_digest s)).

Definition parse_setting (archive : bool) (record : list (list Z)) (s : v3state) : res v3err v3state :=
  key ← csvV3DecodedText record "setting_key";
  value ← csvV3DecodedText record "setting_value";
  _ ← validateCSVV3Setting (if archive then LedgerSettingArchive else LedgerSettingStrict) key value;
  let i := vs_import s in
  used ← addCSVV3ParsedBudget (v_parsedTextBytes i) 0 [key; value];
  if bool_decide (is_Some (v_settings i !! key)) then Err V3Duplicate
  else
    Ok (set_import (V3Import (v_transactions i) (v_images i) (v_tags i) (v_tagLinks i) (v_transactionLinks i) (<[key := value]> (v_settings i))
                      (v_decodedImageBytes i) used (v_hasManifest i)) s).

Definition parse_typed (recordType : string) (record : list (list Z)) (s : v3state) : res v3err v3state :=
  if bool_decide (recordType = "transaction") then parse_transaction false record s
  else if bool_decide (recordType = "transaction_legacy") then parse_transaction true record s
  else if bool_decide (recordType = "image") then parse_image false record s
  else if bool_decide (recordType = "image_legacy") then parse_image true record s
  else if bool_decide (recordType = "tag") then parse_tag false record s
  else if bool_decide (recordType = "tag_legacy") then parse_tag true record s
  else if bool_decide (recordType = "transaction_tag") then parse_transaction_tag record s
  else if bool_decide (recordType = "transaction_link") then parse_transaction_link record s
  else if bool_decide (recordType = "setting") then parse_setting false record s
  else if bool_decide (recordType = "setting_legacy") then parse_setting true record s
  else Err V3RecordType.

(** The counts and the digest of the rows before the manifest. *)
Definition check_manifest (m : csvV3Manifest) (s : v3state) : res v3err unit :=
  if negb (forallb (λ t, bool_decide (t = csvV3ManifestRecordType) ||
                        bool_decide (default 0 (vs_counts s !! t) = default 0 (mf_counts m !! t))) csvV3ManifestRecordTypes)
  then Err V3ManifestCount
  else if negb (bool_decide (mf_counts m !! csvV3ManifestRecordType = Some 1)) ||
          negb (bool_decide (hex_string (sha256 (vs_digest s)) = mf_digest m)) then Err V3ManifestDigest
  else Ok tt.

Definition parse_manifest (record : list (list Z)) (s : v3state) : res v3err v3state :=
  _ ← validateCSVV3ManifestRecordShape record;
  key ← csvV3DecodedText record "setting_key";
  if negb (bool_decide (key = csvV3ManifestKey)) then Err V3ManifestKey
  else
    value ← csvV3DecodedText record "setting_value";
    m ← decodeCSVV3Manifest (bytes value);
    _ ← check_manifest m s;
    let i := vs_import s in
    Ok (set_import (V3Import (v_transactions i) (v_images i) (v_tags i) (v_tagLinks i) (v_transactionLinks i) (v_settings i)
                      (v_decodedImageBytes i) (v_parsedTextBytes i) true) s).

Definition count_record (recordType : string) (record : list (list Z)) (s : v3state) : v3state :=
  V3State (vs_import s) (vs_transactionIDs s) (vs_tagIDs s) (vs_tagNames s) (vs_imageIDs s) (vs_tagLinks s) (vs_links s)
    (<[recordType := default 0 (vs_counts s !! recordType) + 1]> (vs_counts s)) (vs_digest s ++ updateCSVV3Digest record).

(** One record, [row] being its number; [v_hasManifest] says that the manifest was seen. *)
Definition parse_v3_record (row : Z) (record : list (list Z)) (s : v3state) : res v3err v3state :=
  if negb (zlen record =? zlen csvV3Headers) then Err V3Columns
  else if v_hasManifest (vs_import s) then Err V3AfterManifest
  else if negb (forallb valid_bytes record) then Err V3UTF8
  else if row >? maxCSVRows + 1 then Err V3TooManyRows
  else
    version ← csvV3Get record "omni_money_csv_version";
    if negb (bool_decide (version = csvVersion3)) then Err V3Version
    else
      recordType ← csvV3DecodedText record "record_type";
      if bool_decide (recordType = "") then Err V3EmptyType
      else if bool_decide (recordType = csvV3ManifestRecordType) then parse_manifest record s
      else if negb (containsCSVV3ManifestRecordType recordType) then Err V3RecordType
      else
        _ ← validateCSVV3RecordShape record recordType;
        parse_typed recordType record (count_record recordType record s).

Fixpoint parse_v3_rows (row : Z) (rows : list (list (list Z))) (s : v3state) : res v3err v3state :=
  match rows with
  | [] => Ok s
  | r :: rows' => s' ← parse_v3_record (row + 1) r s; parse_v3_rows (row + 1) rows' s'
  end.

(** * The checks at the end *)
(** Roots of one name: the one with the smallest id is the ordinary root. *)
Definition later_root (tags : list csvV3Tag) (t : csvV3Tag) : bool :=
  (vg_parent t =? 0) && existsb (λ t', (vg_parent t' =? 0) && bool_decide (vg_name t' = vg_name t) && (vg_id t' <? vg_id t)) tags.
Definition mark_duplicates (tags : list csvV3Tag) : list csvV3Tag :=
  (λ t, V3Tag (vg_id t) (vg_parent t) (vg_name t) (vg_level t) (vg_archive t) (later_root tags t)) <$> tags.

Definition tag_by_id (tags : list csvV3Tag) (n : Z) : option csvV3Tag := snd <$> list_find (λ t, vg_id t = n) tags.

Fixpoint check_hierarchy (all tags : list csvV3Tag) : res v3err unit :=
  match tags with
  | [] => Ok tt
  | t :: tags' =>
    if vg_parent t =? 0 then _ ← lift_err V3TagHierarchy (ValidateTagHierarchy (vg_level t) None); check_hierarchy all tags'
    else match tag_by_id all (vg_parent t) with
         | None => Err V3Reference
         | Some p => _ ← lift_err V3TagHierarchy (ValidateTagHierarchy (vg_level t) (Some (vg_level p))); check_hierarchy all tags'
         end
  end.

Definition refs_ok (s : v3state) : bool :=
  let i := vs_import s in
  let known n := bool_decide (n ∈ vs_transactionIDs s) in
  forallb (λ x, known (vi_transaction x)) (v_images i) &&
  forallb (λ p, known p.1 && bool_decide (p.2 ∈ vs_tagIDs s)) (v_tagLinks i) &&
  forallb (λ p, known p.1 && known p.2) (v_transactionLinks i).

Definition finish_import (s : v3state) : res v3err csvV3Import :=
  let i := vs_import s in
  let tags := mark_duplicates (v_tags i) in
  _ ← check_hierarchy (v_tags i) (v_tags i);
  if negb (refs_ok s) then Err V3Reference
  else if bool_decide (v_transactions i = []) &&
          negb (bool_decide (v_images i = []) && bool_decide (v_tagLinks i = []) && bool_decide (v_transactionLinks i = [])) then Err V3NoTransactions
  else Ok (V3Import (v_transactions i) (v_images i) tags (v_tagLinks i) (v_transactionLinks i) (v_settings i)
             (v_decodedImageBytes i) (v_parsedTextBytes i) (v_hasManifest i)).

(** * The reader *)
Definition delivered_v3 (chunks : list (list Z)) : list Z * option guarderr :=
  if zlen (concat chunks) <=? MaxCSVImportBytes then read_chunks maxCSVGuardFieldBytes true new_reader chunks
  else
    let '(_, out, e) := consume_all maxCSVGuardFieldBytes true start (take (Z.to_nat (MaxCSVImportBytes + 1)) (concat chunks)) in
    (out, e).

(** The records of the complete lines, and whether reading stopped with an error. *)
Fixpoint records_until (fuel : nat) (ls : list (list Z)) : list (list (list Z)) * bool :=
  match fuel with
  | O => ([], true)
  | S fuel' =>
    match read_record ls with
    | Err _ => ([], true)
    | Ok None => ([], false)
    | Ok (Some (r, rest)) => let '(rs, e) := records_until fuel' rest in (r :: rs, e)
    end
  end.

Definition parseCSVV3Reader (chunks : list (list Z)) : res v3err csvV3Import :=
  let '(text, e) := delivered_v3 chunks in
  let ls := input_lines text (failed_input e) in
  let '(records, stopped) := records_until (S (length ls)) ls in
  match records with
  | [] => Err V3HeaderRead
  | headers :: rows =>
    if negb (isCSVV3Header (trim_bom headers)) then Err V3Header
    else
      s ← parse_v3_rows 1 rows initial_state;
      if stopped || failed_input e then Err V3Read
      else if zlen (concat chunks) >? MaxCSVImportBytes then Err V3Input
      else finish_import s
  end.

Definition parseCSVV3 (content : list Z) : res v3err csvV3Import :=
  if zlen content >? MaxCSVStringImportBytes then Err V3Input else parseCSVV3Reader [content].

End Parse.

(** * The digest determines the rows *)
Lemma frame_bytes_length k : ∀ n, length (be_bytes k n) = k.
Proof. induction k as [|k IH]; intros n; [done|]. cbn. rewrite length_app, IH. cbn. lia. Qed.
Lemma frame_bytes_inj k : ∀ a b, 0 <= a < 256 ^ Z.of_nat k → 0 <= b < 256 ^ Z.of_nat k → be_bytes k a = be_bytes k b → a = b.
Proof.
  induction k as [|k IH]; intros a b Ha Hb E; [cbn in *; lia|]. cbn [be_bytes] in E. apply app_inj_tail in E as [E1 E2].
  rewrite Nat2Z.inj_succ, Z.pow_succ_r in Ha, Hb by lia.
  apply IH in E1; [|split; [apply Z.div_pos; lia|apply Z.div_lt_upper_bound; lia]..].
  rewrite (Z.div_mod a 256), (Z.div_mod b 256) by lia. congruence.
Qed.

Definition small (field : list Z) : Prop := zlen field < 2 ^ 64.

Lemma digest_fields_inj fs1 : ∀ fs2, Forall small fs1 → Forall small fs2 → updateCSVV3Digest fs1 = updateCSVV3Digest fs2 → fs1 = fs2.
Proof.
  assert (∀ f : list Z, length (be64 (zlen f)) = 8%nat) as Hlen by (intros; apply frame_bytes_length).
  induction fs1 as [|f1 fs1 IH]; intros [|f2 fs2] H1 H2 E; unfold updateCSVV3Digest in *; cbn [mbind list_bind] in *; [done| | |].
  - apply (f_equal length) in E. rewrite !length_app, Hlen in E. cbn in E. lia.
  - apply (f_equal length) in E. rewrite !length_app, Hlen in E. cbn in E. lia.
  - apply Forall_cons in H1 as [Hs1 H1], H2 as [Hs2 H2]. rewrite <- !app_assoc in E. apply app_inj_1 in E as [E1 E]; [|by rewrite !Hlen].
    unfold be64 in E1. apply frame_bytes_inj in E1; [|unfold small, zlen in *; change (256 ^ Z.of_nat 8) with (2 ^ 64); lia..].
    apply app_inj_1 in E as [-> E]; [|unfold zlen in E1; lia]. f_equal. by apply IH.
Qed.

Lemma digest_concat rows : (rows ≫= updateCSVV3Digest) = updateCSVV3Digest (concat rows).
Proof.
  induction rows as [|r rows IH]; [done|]. cbn [mbind list_bind concat]. cbn [mbind list_bind] in IH. rewrite IH. unfold updateCSVV3Digest. by rewrite bind_app.
Qed.

Lemma concat_inj {A} n (l1 l2 : list (list A)) : (0 < n)%nat → Forall (λ r, length r = n) l1 → Forall (λ r, length r = n) l2 → concat l1 = concat l2 → l1 = l2.
Proof.
  intros Hn H1. revert l2. induction H1 as [|r1 l1 Hr1 H1 IH]; intros [|r2 l2] H2 E; [done| | |]; cbn [concat] in E.
  - apply Forall_cons in H2 as [Hr2 _]. apply (f_equal length) in E. rewrite length_app in E. cbn in E. lia.
  - apply (f_equal length) in E. rewrite length_app in E. cbn in E. lia.
  - apply Forall_cons in H2 as [Hr2 H2]. apply app_inj_1 in E as [-> E]; [|lia]. f_equal. by apply IH.
Qed.

Lemma digest_rows_inj rows1 rows2 : Forall (λ r, length r = 23%nat) rows1 → Forall (λ r, length r = 23%nat) rows2 →
  Forall (Forall small) rows1 → Forall (Forall small) rows2 → (rows1 ≫= updateCSVV3Digest) = (rows2 ≫= updateCSVV3Digest) → rows1 = rows2.
Proof.
  intros H1 H2 S1 S2 E. rewrite !digest_concat in E. apply digest_fields_inj in E; [|by apply Forall_concat..]. by eapply (concat_inj 23); [lia|..].
Qed.

(** * What the parser keeps *)
Section Facts.
  Context (DecodeConfig Decode : list Z → option (Z * Z * string)) (sha256 : list Z → list Z).

Ltac inv_res :=
  repeat match goal with
  | H : res_bind _ _ _ _ = Ok _ |- _ => apply res_bind_Ok_inv in H as (? & ? & ?)
  | H : (_ ≫= _) = Ok _ |- _ => apply res_bind_Ok_inv in H as (? & ? & ?)
  | H : (if ?b then _ else _) = Ok _ |- _ => destruct b eqn:?; [try done|try done]
  | H : (match ?x with Some _ => _ | None => _ end) = Ok _ |- _ => destruct x eqn:?; [|try done]
  | H : Err _ = Ok _ |- _ => discriminate H
  | H : Ok _ = Ok _ |- _ => injection H as <-
  end.

(** A typed row extends the import and leaves counts, digest and manifest alone. *)
Lemma parse_typed_frame ty record s s' : parse_typed DecodeConfig Decode ty record s = Ok s' →
  vs_digest s' = vs_digest s ∧ vs_counts s' = vs_counts s ∧ v_hasManifest (vs_import s') = v_hasManifest (vs_import s).
Proof.
  unfold parse_typed, parse_transaction, parse_image, parse_tag, parse_transaction_tag, parse_transaction_link, parse_setting.
  intros H. inv_res; done.
Qed.

#[local] Strategy opaque [decodeCSVV3Manifest csvV3DecodedText validateCSVV3ManifestRecordShape].
Lemma parse_manifest_inv m s s' : parse_manifest sha256 m s = Ok s' → ∃ value mf, csvV3DecodedText m "setting_value" = Ok value ∧
  decodeCSVV3Manifest (bytes value) = Ok mf ∧ check_manifest sha256 mf s = Ok tt ∧ v_hasManifest (vs_import s') = true.
Proof.
  intros H. apply res_bind_Ok_inv in H as (? & _ & H). apply res_bind_Ok_inv in H as (? & _ & H).
  destruct (negb _); [done|]. apply res_bind_Ok_inv in H as (value & Hv & H). apply res_bind_Ok_inv in H as (mf & Hmf & H).
  apply res_bind_Ok_inv in H as ([] & Hc & H). injection H as <-. exists value, mf. done.
Qed.

Lemma parse_record_cases row r s s' : parse_v3_record DecodeConfig Decode sha256 row r s = Ok s' →
  length r = 23%nat ∧ v_hasManifest (vs_import s) = false ∧
  ((v_hasManifest (vs_import s') = true ∧ parse_manifest sha256 r s = Ok s') ∨
   (v_hasManifest (vs_import s') = false ∧ vs_digest s' = vs_digest s ++ updateCSVV3Digest r)).
Proof.
  unfold parse_v3_record. intros H. destruct (zlen r =? zlen csvV3Headers) eqn:El; [|done]. cbn [negb] in H.
  destruct (v_hasManifest (vs_import s)) eqn:Em; [done|]. split; [apply Z.eqb_eq in El; unfold zlen in El; cbn in El; lia|]. split; [done|].
  inv_res.
  - left. match goal with H : parse_manifest _ _ _ = Ok _ |- _ => split; [|exact H]; by apply parse_manifest_inv in H as (? & ? & _ & _ & _ & ?) end.
  - right. match goal with H : parse_typed _ _ _ _ _ = Ok _ |- _ => apply parse_typed_frame in H as (-> & _ & ->) end. done.
Qed.

Lemma parse_rows_split rows : ∀ row s s', parse_v3_rows DecodeConfig Decode sha256 row rows s = Ok s' → v_hasManifest (vs_import s) = false →
  ∃ body, parse_v3_rows DecodeConfig Decode sha256 row body s = Ok s' ∧ rows = body ∧ v_hasManifest (vs_import s') = false ∧
      Forall (λ r, length r = 23%nat) body ∧ vs_digest s' = vs_digest s ++ (body ≫= updateCSVV3Digest) ∨
    ∃ m s0, rows = body ++ [m] ∧ parse_v3_rows DecodeConfig Decode sha256 row body s = Ok s0 ∧ Forall (λ r, length r = 23%nat) body ∧
      vs_digest s0 = vs_digest s ++ (body ≫= updateCSVV3Digest) ∧ parse_manifest sha256 m s0 = Ok s' ∧ v_hasManifest (vs_import s') = true.
Proof.
  induction rows as [|r rows IH]; intros row s s' H Hm.
  - exists []. left. cbn in H. simplify_eq. rewrite app_nil_r. split_and!; (done || constructor).
  - cbn [parse_v3_rows] in H. apply res_bind_Ok_inv in H as (s1 & H1 & H2). destruct (parse_record_cases _ _ _ _ H1) as (Hl & _ & [[Hm1 Hp]|[Hm1 Hd]]).
    + destruct rows as [|r2 rows].
      * cbn in H2. simplify_eq. exists []. right. exists r, s. rewrite app_nil_r. split_and!; (done || constructor).
      * cbn [parse_v3_rows] in H2. apply res_bind_Ok_inv in H2 as (s2 & H2 & _). apply parse_record_cases in H2 as (_ & ? & _). congruence.
    + destruct (IH _ _ _ H2 Hm1) as (body & [(Hb & -> & ? & ? & Hd')|(m & s0 & -> & Hb & ? & Hd' & ? & ?)]); exists (r :: body); [left|right; exists m, s0].
      * cbn [parse_v3_rows mbind list_bind]. rewrite H1. cbn [mbind res_bind]. rewrite Hd', Hd, <- app_assoc. split_and!; try done. by constructor.
      * cbn [parse_v3_rows mbind list_bind]. rewrite H1. cbn [mbind res_bind]. rewrite Hd', Hd, <- app_assoc. split_and!; try done. by constructor.
Qed.

(** The manifest row determines the digest of the rows before it. *)
Lemma manifest_digest m s1 s2 s1' s2' : parse_manifest sha256 m s1 = Ok s1' → parse_manifest sha256 m s2 = Ok s2' →
  hex_string (sha256 (vs_digest s1)) = hex_string (sha256 (vs_digest s2)).
Proof.
  assert (∀ s s', parse_manifest sha256 m s = Ok s' → ∃ value mf, csvV3DecodedText m "setting_value" = Ok value ∧
    decodeCSVV3Manifest (bytes value) = Ok mf ∧ hex_string (sha256 (vs_digest s)) = mf_digest mf) as Hdec.
  { intros s s' (value & mf & Hv & Hmf & Hc & _)%parse_manifest_inv. exists value, mf. split_and!; [done..|]. unfold check_manifest in Hc. destruct (negb _); [done|].
    destruct (negb _ || negb _) eqn:E; [done|]. apply orb_false_iff in E as [_ E]. by apply negb_false_iff, bool_decide_eq_true in E. }
  intros (v1 & m1 & E1 & F1 & ->)%Hdec (v2 & m2 & E2 & F2 & ->)%Hdec. congruence.
Qed.

(** The records of an input: the header and the rows. *)
Definition archive_records (chunks : list (list Z)) : list (list (list Z)) :=
  let '(text, e) := delivered_v3 chunks in
  let ls := input_lines text (failed_input e) in
  (records_until (S (length ls)) ls).1.
Definition archive_stream (chunks : list (list Z)) : list Z := (removelast (tail (archive_records chunks))) ≫= updateCSVV3Digest.

Lemma parse_archive chunks i : parseCSVV3Reader DecodeConfig Decode sha256 chunks = Ok i → v_hasManifest i = true →
  ∃ h body m s0 s, archive_records chunks = h :: body ++ [m] ∧ parse_v3_rows DecodeConfig Decode sha256 1 body initial_state = Ok s0 ∧
    Forall (λ r, length r = 23%nat) body ∧ vs_digest s0 = (body ≫= updateCSVV3Digest) ∧ parse_manifest sha256 m s0 = Ok s ∧ finish_import s = Ok i.
Proof.
  unfold parseCSVV3Reader, archive_records. destruct (delivered_v3 chunks) as [text e]. destruct (records_until _ _) as [records stopped].
  destruct records as [|h rows]; [done|]. destruct (negb _); [done|]. intros (s & Hs & H)%res_bind_Ok_inv Hi. destruct (stopped || _); [done|].
  destruct (_ >? _); [done|]. assert (v_hasManifest (vs_import s) = true) as Hm.
  { rewrite <- Hi. unfold finish_import in H. apply res_bind_Ok_inv in H as (? & _ & H). destruct (negb _); [done|]. destruct (_ && _); [done|]. by injection H as <-. }
  destruct (parse_rows_split _ _ _ _ Hs eq_refl) as (body & [(_ & _ & ? & _)|(m & s0 & -> & Hb & Hl & Hd & Hp & _)]); [congruence|].
  exists h, body, m, s0, s. done.
Qed.

(** C35. An archive of version 3 with a manifest is tamper-evident. It ends with the only
    manifest row; and two accepted archives with the same manifest row import the same
    data from the same rows, unless their rows are a collision of SHA-256. *)
Theorem csv_v3_tamper_evident chunks1 chunks2 i1 i2 :
  parseCSVV3Reader DecodeConfig Decode sha256 chunks1 = Ok i1 → parseCSVV3Reader DecodeConfig Decode sha256 chunks2 = Ok i2 →
  v_hasManifest i1 = true → v_hasManifest i2 = true →
  Forall (Forall small) (archive_records chunks1) → Forall (Forall small) (archive_records chunks2) →
  last (archive_records chunks1) = last (archive_records chunks2) →
  (tail (archive_records chunks1) = tail (archive_records chunks2) ∧ i1 = i2) ∨
  (archive_stream chunks1 ≠ archive_stream chunks2 ∧
   hex_string (sha256 (archive_stream chunks1)) = hex_string (sha256 (archive_stream chunks2))).
Proof.
  intros H1 H2 Hm1 Hm2 S1 S2 Hlast. destruct (parse_archive _ _ H1 Hm1) as (h1 & body1 & m1 & s1 & s1' & E1 & P1 & L1 & D1 & M1 & F1).
  destruct (parse_archive _ _ H2 Hm2) as (h2 & body2 & m2 & s2 & s2' & E2 & P2 & L2 & D2 & M2 & F2).
  unfold archive_stream. rewrite E1, E2 in *. rewrite !app_comm_cons, !last_snoc in Hlast. injection Hlast as <-. cbn [tail].
  rewrite !removelast_last. rewrite app_comm_cons in S1, S2. apply Forall_app in S1 as [S1 _], S2 as [S2 _]. apply Forall_cons in S1 as [_ S1], S2 as [_ S2].
  destruct (decide ((body1 ≫= updateCSVV3Digest) = (body2 ≫= updateCSVV3Digest))) as [E|Hne].
  - left. assert (body1 = body2) as <- by (by apply digest_rows_inj). split; [done|]. rewrite P1 in P2. injection P2 as <-. rewrite M1 in M2. injection M2 as <-.
    rewrite F1 in F2. by injection F2.
  - right. split; [done|]. rewrite <- D1, <- D2. by eapply manifest_digest.
Qed.
End Facts.

(** A small archive: one tag and the manifest, with a stand-in for the digest. *)
Definition demo_sha (l : list Z) : list Z := take 32 (l ++ replicate 32 7).
Definition demo_tag_row : list (list Z) :=
  csvV3Record (list_to_map [("omni_money_csv_version"%string, csvVersion3); ("record_type"%string, bytes "tag"); ("id"%string, bytes "4");
    ("tag_name"%string, csvV3Text (bytes "food")); ("tag_level"%string, bytes "1")]).
Definition demo_manifest_row : list (list Z) :=
  csvV3Record (list_to_map [("omni_money_csv_version"%string, csvVersion3); ("record_type"%string, bytes csvV3ManifestRecordType);
    ("setting_key"%string, csvV3Text (bytes csvV3ManifestKey));
    ("setting_value"%string, csvV3Text (marshal_manifest (Manifest (manifest_counts {[ "tag"%string := 1 ]}) (hex_string (demo_sha (updateCSVV3Digest demo_tag_row))))))]).
Definition demo_archive : list (list Z) := [write_records [bytes <$> csvV3Headers; demo_tag_row; demo_manifest_row]].
Definition no_decode (l : list Z) : option (Z * Z * string) := None.

Lemma csv_v3_tamper_evident_witness :
  ∃ i, parseCSVV3Reader no_decode no_decode demo_sha demo_archive = Ok i ∧ v_hasManifest i = true ∧ v_tags i = [V3Tag 4 0 "food" 1 false false] ∧
  ((tail (archive_records demo_archive) = tail (archive_records demo_archive) ∧ i = i) ∨
   (archive_stream demo_archive ≠ archive_stream demo_archive ∧
    hex_string (demo_sha (archive_stream demo_archive)) = hex_string (demo_sha (archive_stream demo_archive)))).
Proof.
  assert (∃ i, parseCSVV3Reader no_decode no_decode demo_sha demo_archive = Ok i ∧ v_hasManifest i = true ∧ v_tags i = [V3Tag 4 0 "food" 1 false false])
    as (i & E & Hm & Ht) by (eexists; split_and!; vm_compute; reflexivity).
  assert (Forall (Forall small) (archive_records demo_archive)) as Hs.
  { assert (forallb (forallb (λ f, zlen f <? 2 ^ 64)) (archive_records demo_archive) = true) as Hb by (vm_compute; reflexivity).
    apply Forall_forall. intros r Hr. apply Forall_forall. intros f Hf. apply Is_true_true in Hb. rewrite forallb_True, Forall_forall in Hb.
    specialize (Hb r Hr). rewrite forallb_True, Forall_forall in Hb. apply Z.ltb_lt, Is_true_true, (Hb f Hf). }
  exists i. split; [exact E|]. split; [exact Hm|]. split; [exact Ht|].
  exact (csv_v3_tamper_evident no_decode no_decode demo_sha demo_archive demo_archive i i E E Hm Hm Hs Hs eq_refl).
Defined.
