(* ===== verification/AiRequests.v ===== *)
(** The two operations of the AI listener ([api/ai_validation.go], [api/ai_idempotency.go] and
    the AI handlers of [api/router.go]): the input boundary of a transaction written by an AI
    credential, its canonical digest, the scoping of an analysis, and the handlers behind the
    gate of [AiGate] on the ledger with the tables of [AiTransactions].

    The decoders of JSON are parameters, as is the time zone of the process. *)
From Stdlib Require Import ZArith Lia.
From stdpp Require Import base gmap list strings sorting.
From S2P Require Import Prelude GoText NetAddr Validation Settings GoTime ImageContainers Schema Balance Tags Links Images LedgerOps Service Crypto AiTransactions Session Gate Proxy CivilDate AiCredentials AuditKeys AiGate Reports TagSummary Analysis CsvV3.
Open Scope Z_scope.

Definition maxAIAccountBytes : Z := 256.
Definition maxAIItemBytes : Z := 512.
Definition maxAIMemoBytes : Z := 4096.
Definition maxAITagIDs : Z := 20.
Definition minAIIdempotencyKeyBytes : Z := 16.
Definition maxAIIdempotencyKeyBytes : Z := 128.
Definition defaultAnalysisDays : Z := 30.
Definition hardMaxAnalysisTagIDs : Z := 20.
Definition hardMaxResults : Z := 500.

(** * Local time *)
(** A location by its clock: the reading at an instant, and the instant [time.Date] answers for
    a reading. Readings count nanoseconds as instants do. *)
Class Location := { reading : Z → Z; time_Date : Z → Z }.
(** In a location without a transition at midnight, midnights are read back and ordered. *)
Class LocationLaws `{!Location} : Prop := {
  midnight_read d : reading (time_Date (d * day)) = d * day;
  midnight_mono d e : d < e → time_Date (d * day) < time_Date (e * day)
}.
Section Clock.
Context {zone : Location}.
Definition today (now : Z) : Z := time_Date (reading now / day * day).
(** [AddDate] keeps the time of the day and normalises the date. *)
Definition AddDate (years days t : Z) : Z :=
  let w := reading t in
  let '(y, m, d) := civil (w / day) in time_Date (unix_days (y + years) m (d + days) * day + w mod day).
(** [ParseInLocation] with the layout of a date, and of a time. *)
Definition parse_in_location (s : string) : option Z := (λ d, time_Date (d * day)) <$> parse_day s.
End Clock.
Definition is_clock (s : string) : bool := match get_hm (bytes s) with Some (_, _, []) => true | _ => false end.

(** * The input boundary of a transaction *)
Definition hasAIUnsafeRune (value : string) : bool := existsb (λ r, IsControl r || Cf r) (runes value).

Inductive inputerr :=
| IAccountMissing | IAccount | IDateMissing | IItemMissing | IItem | IMemo | IType | IAmount (e : verr)
| IDateFormat | ITimeFormat | IDateRange | INewTags | ITagCount | ITagID | errAITagNotAllowed
| IKeyCount | IKeyLength | IKeyCharacter.

Section Input.
Context {text_lib : HttpText} {zone : Location}.

Definition trimmed (req : TransactionRequest) : TransactionRequest :=
  Schema.Request (TrimSpace (req_account req)) (TrimSpace (req_date req)) (TrimSpace (req_time req)) (TrimSpace (req_item req))
    (TrimSpace (ToLower (req_type req))) (req_amount req) (TrimSpace (req_memo req)) (req_tags req) (req_new_tag_paths req)
    (req_images req) (req_delete_images req) (req_link_add req) (req_link_remove req).

Definition normalizeAndValidateAITransaction (req : TransactionRequest) (now : Z) : res inputerr TransactionRequest :=
  let req := trimmed req in
  let no s := bool_decide (s = "") in
  _ ← ensure (negb (no (req_account req))) IAccountMissing;
  _ ← ensure (negb ((len (req_account req) >? maxAIAccountBytes) || hasAIUnsafeRune (req_account req))) IAccount;
  _ ← ensure (negb (no (req_date req))) IDateMissing;
  _ ← ensure (negb (no (req_item req))) IItemMissing;
  _ ← ensure (negb ((len (req_item req) >? maxAIItemBytes) || hasAIUnsafeRune (req_item req))) IItem;
  _ ← ensure (negb ((len (req_memo req) >? maxAIMemoBytes) || hasAIUnsafeRune (req_memo req))) IMemo;
  _ ← ensure (bool_decide (req_type req = "income") || bool_decide (req_type req = "expense")) IType;
  _ ← (match ValidateTransactionAmount (req_amount req) with Ok _ => Ok tt | Err e => Err (IAmount e) end);
  match parse_in_location (req_date req) with
  | None => Err IDateFormat
  | Some date =>
    _ ← ensure (no (req_time req) || is_clock (req_time req)) ITimeFormat;
    let minDate := AddDate (-1) 0 (today now) in
    let maxDate := AddDate 0 2 (today now) in
    _ ← ensure (negb ((date <? minDate) || (maxDate <? date))) IDateRange;
    Ok req
  end.

(** The loop over the tag ids: positive, allowed, without repetition. *)
Fixpoint unique_allowed (c : Credential) (ids : list Z) (seen : gset Z) (uniqueTags : list Z) : res inputerr (list Z) :=
  match ids with
  | [] => Ok uniqueTags
  | tagID :: ids' =>
    if tagID <=? 0 then Err ITagID
    else if negb (AllowsTag c tagID) then Err errAITagNotAllowed
    else if bool_decide (tagID ∈ seen) then unique_allowed c ids' seen uniqueTags
    else unique_allowed c ids' ({[tagID]} ∪ seen) (uniqueTags ++ [tagID])
  end.
Definition with_req_tags (ids : list Z) (req : TransactionRequest) : TransactionRequest :=
  Schema.Request (req_account req) (req_date req) (req_time req) (req_item req) (req_type req) (req_amount req) (req_memo req) ids
    (req_new_tag_paths req) (req_images req) (req_delete_images req) (req_link_add req) (req_link_remove req).
(** [SELECT COUNT( * ) FROM tags WHERE id IN (...)] *)
Definition count_tags (ids : list Z) (db : ledger) : nat := size (dom (tags db) ∩ (list_to_set ids : gset Z)).

Definition validateAITransactionReferences (req : TransactionRequest) (c : Credential) (db : ledger) : res inputerr TransactionRequest :=
  _ ← ensure (bool_decide (req_new_tag_paths req = [])) INewTags;
  _ ← ensure (Z.of_nat (length (req_tags req)) <=? maxAITagIDs) ITagCount;
  if bool_decide (req_tags req = []) then Ok req
  else
    uniqueTags ← unique_allowed c (req_tags req) ∅ [];
    _ ← ensure (Nat.eqb (count_tags uniqueTags db) (length uniqueTags)) errAITagNotAllowed;
    Ok (with_req_tags uniqueTags req).
End Input.

(** * Idempotency *)
Definition key_byte (b : Z) : bool :=
  between 97 122 b || between 65 90 b || between 48 57 b || (b =? 46) || (b =? 95) || (b =? 58) || (b =? 45).
Definition aiIdempotencyKeyHash (values : list string) : res inputerr (list Z) :=
  match values with
  | [key] =>
    if (len key <? minAIIdempotencyKeyBytes) || (len key >? maxAIIdempotencyKeyBytes) then Err IKeyLength
    else if forallb key_byte (bytes key) then Ok (Sum256 (bytes key)) else Err IKeyCharacter
  | _ => Err IKeyCount
  end.

(** What is written to the hash, in order. *)
Definition writeCanonicalUint64 (v : Z) : list Z := be64 v.
Definition writeCanonicalString (s : string) : list Z := writeCanonicalUint64 (len s) ++ bytes s.
Definition writeCanonicalInt64 (v : Z) : list Z := writeCanonicalString (FormatInt v).

Definition digest_le (a b : list Z) : Prop := lex_le a b = true.
#[global] Instance digest_le_dec : RelDecision digest_le.
Proof. intros a b. unfold digest_le. apply _. Defined.

Section Digest.
Context {text_lib : HttpText}.
(** [strings.ToLower(filepath.Ext(filename))] of the four extensions. *)
Definition mime_of_extension (ext : string) : string :=
  if bool_decide (ext = ".jpg") || bool_decide (ext = ".jpeg") then "image/jpeg"
  else if bool_decide (ext = ".png") then "image/png"
  else if bool_decide (ext = ".gif") then "image/gif"
  else if bool_decide (ext = ".webp") then "image/webp"
  else "".
(** An image as the digest sees it: file name, type and data. *)
Definition canonical_image (i : TransactionImageRequest) : string * string * string :=
  let filename := TrimSpace (ireq_filename i) in
  let mimeType := ToLower (TrimSpace (ireq_mime i)) in
  (filename, if bool_decide (mimeType = "") then mime_of_extension (ToLower (of_bytes (Ext filename))) else mimeType, TrimSpace (ireq_data i)).
Definition image_text (i : TransactionImageRequest) : list Z :=
  let '(filename, mimeType, data) := canonical_image i in
  writeCanonicalString "omni-money/ai-transaction-image/v1" ++ writeCanonicalString filename ++ writeCanonicalString mimeType ++ writeCanonicalString data.
Definition canonical_text (req : TransactionRequest) : list Z :=
  let tags := merge_sort Z.le (req_tags req) in
  let imageDigests := merge_sort digest_le ((λ i, Sum256 (image_text i)) <$> req_images req) in
  writeCanonicalString "omni-money/ai-transaction/v1" ++ writeCanonicalString (req_account req) ++ writeCanonicalString (req_date req)
  ++ writeCanonicalString (req_time req) ++ writeCanonicalString (req_item req) ++ writeCanonicalString (req_type req)
  ++ writeCanonicalInt64 (req_amount req) ++ writeCanonicalString (req_memo req)
  ++ writeCanonicalUint64 (Z.of_nat (length tags)) ++ (tags ≫= writeCanonicalInt64)
  ++ writeCanonicalUint64 (Z.of_nat (length imageDigests)) ++ concat imageDigests.
Definition canonicalAITransactionDigest (req : TransactionRequest) : list Z := Sum256 (canonical_text req).
End Digest.

(** * The scope of an analysis *)
Inductive scopeerr :=
| SNoCredential | SAccountMissing | SAccountName | SAccountForbidden | SCredentialPeriod | SDatePair | SOutsidePeriod | SStartFormat | SEndFormat
| SOrder | SPeriod | SDays | SType | STagCount | STagID | STagForbidden | SMemoAlone | SDetailsScope | SMemoScope | SCursorAlone | SLimit.
Definition scope_status (e : scopeerr) : Z :=
  match e with
  | SNoCredential => 401
  | SCredentialPeriod => 500
  | SAccountForbidden | SOutsidePeriod | SPeriod | SDays | STagForbidden | SDetailsScope | SMemoScope | SLimit => 403
  | _ => 400
  end.
Definition with_account (a : string) (r : AnalysisRequest) : AnalysisRequest :=
  Analysis (an_StartDate r) (an_EndDate r) a (an_TagIDs r) (an_Type r) (an_IncludeTransactions r) (an_IncludeMemo r) (an_Limit r) (an_Cursor r) (an_MaxTagSummaries r).
Definition with_period (s e : string) (r : AnalysisRequest) : AnalysisRequest :=
  Analysis s e (an_Account r) (an_TagIDs r) (an_Type r) (an_IncludeTransactions r) (an_IncludeMemo r) (an_Limit r) (an_Cursor r) (an_MaxTagSummaries r).
Definition with_tag_ids (ids : list Z) (r : AnalysisRequest) : AnalysisRequest :=
  Analysis (an_StartDate r) (an_EndDate r) (an_Account r) ids (an_Type r) (an_IncludeTransactions r) (an_IncludeMemo r) (an_Limit r) (an_Cursor r) (an_MaxTagSummaries r).
Definition with_limit (n : Z) (r : AnalysisRequest) : AnalysisRequest :=
  Analysis (an_StartDate r) (an_EndDate r) (an_Account r) (an_TagIDs r) (an_Type r) (an_IncludeTransactions r) (an_IncludeMemo r) n (an_Cursor r) (an_MaxTagSummaries r).

Section Scope.
Context {text_lib : HttpText} {zone : Location}.

Definition trimmed_analysis (req : AnalysisRequest) (c : Credential) : AnalysisRequest :=
  Analysis (TrimSpace (an_StartDate req)) (TrimSpace (an_EndDate req)) (TrimSpace (an_Account req)) (an_TagIDs req) (ToLower (TrimSpace (an_Type req)))
    (an_IncludeTransactions req) (an_IncludeMemo req) (an_Limit req) (TrimSpace (an_Cursor req)) (c_MaxResults c).

(** A credential for one account implies it. *)
Definition scope_account (req : AnalysisRequest) (c : Credential) : res scopeerr AnalysisRequest :=
  req ← (if bool_decide (an_Account req = "")
         then match Accounts c with
              | [a] => if bool_decide (a = "*") then Err SAccountMissing else Ok (with_account a req)
              | _ => Err SAccountMissing
              end
         else Ok req);
  _ ← ensure (negb ((len (an_Account req) >? maxAIAccountBytes) || hasAIUnsafeRune (an_Account req))) SAccountName;
  _ ← ensure (AllowsAccount c (an_Account req)) SAccountForbidden;
  Ok req.

(** Without dates, the last days of the permitted period up to today. *)
Definition default_period (req : AnalysisRequest) (c : Credential) (first last now : Z) : res scopeerr AnalysisRequest :=
  let stop := Z.min (reading now / day) last in
  if stop <? first then Err SOutsidePeriod
  else
    let days := Z.min defaultAnalysisDays (c_MaxAnalysisDays c) in
    let start := Z.max (stop - (days - 1)) first in
    Ok (with_period (format_day start) (format_day stop) req).

Definition scope_period (req : AnalysisRequest) (c : Credential) (now : Z) : res scopeerr AnalysisRequest :=
  match parse_day (AnalysisStartDate c), parse_day (AnalysisEndDate c) with
  | Some first, Some last =>
    let no s := bool_decide (s = "") in
    _ ← ensure (Bool.eqb (no (an_StartDate req)) (no (an_EndDate req))) SDatePair;
    req ← (if no (an_StartDate req) then default_period req c first last now else Ok req);
    match parse_day (an_StartDate req) with
    | None => Err SStartFormat
    | Some startDate =>
      match parse_day (an_EndDate req) with
      | None => Err SEndFormat
      | Some endDate =>
        _ ← ensure (negb (endDate <? startDate)) SOrder;
        _ ← ensure (negb ((startDate <? first) || (last <? endDate))) SPeriod;
        let inclusiveDays := Z.quot (Session.Sub (endDate * day) (startDate * day)) day + 1 in
        _ ← ensure (inclusiveDays <=? c_MaxAnalysisDays c) SDays;
        Ok req
      end
    end
  | _, _ => Err SCredentialPeriod
  end.

Fixpoint unique_tags (c : Credential) (ids : list Z) (seenTags : gset Z) (uniqueTags : list Z) : res scopeerr (list Z) :=
  match ids with
  | [] => Ok uniqueTags
  | tagID :: ids' =>
    if tagID <=? 0 then Err STagID
    else if bool_decide (tagID ∈ seenTags) then unique_tags c ids' seenTags uniqueTags
    else if negb (AllowsTag c tagID) then Err STagForbidden
    else unique_tags c ids' ({[tagID]} ∪ seenTags) (uniqueTags ++ [tagID])
  end.
Definition scope_tags (req : AnalysisRequest) (c : Credential) : res scopeerr AnalysisRequest :=
  _ ← ensure (bool_decide (an_Type req = "") || bool_decide (an_Type req = "income") || bool_decide (an_Type req = "expense")) SType;
  _ ← ensure (Z.of_nat (length (an_TagIDs req)) <=? hardMaxAnalysisTagIDs) STagCount;
  ids ← unique_tags c (an_TagIDs req) ∅ [];
  Ok (with_tag_ids ids req).

Definition scope_details (req : AnalysisRequest) (c : Credential) : res scopeerr AnalysisRequest :=
  _ ← ensure (negb (an_IncludeMemo req && negb (an_IncludeTransactions req))) SMemoAlone;
  _ ← ensure (negb (an_IncludeTransactions req && negb (HasScope c ScopeAnalysisTransactions))) SDetailsScope;
  _ ← ensure (negb (an_IncludeMemo req && negb (HasScope c ScopeAnalysisMemo))) SMemoScope;
  if negb (an_IncludeTransactions req) then
    _ ← ensure (bool_decide (an_Cursor req = "") && (an_Limit req =? 0)) SCursorAlone; Ok req
  else
    let maxResults := Z.min (c_MaxResults c) hardMaxResults in
    let req := if an_Limit req =? 0 then with_limit (Z.min 100 maxResults) req else req in
    _ ← ensure (between 1 maxResults (an_Limit req)) SLimit;
    Ok req.

Definition validateAndScopeAIAnalysis (req : AnalysisRequest) (credential : option Credential) (now : Z) : res scopeerr AnalysisRequest :=
  match credential with
  | None => Err SNoCredential
  | Some c =>
    req ← scope_account (trimmed_analysis req c) c;
    req ← scope_period req c now;
    req ← scope_tags req c;
    scope_details req c
  end.
End Scope.

(** * The handlers *)
Definition json_space (b : Z) : bool := (b =? 32) || (b =? 9) || (b =? 10) || (b =? 13).
(** The first value of the body by the decoder, and nothing but white space behind it. *)
Definition decodeStrictAIJSON {A} (Decode : list Z → option (A * list Z)) (body : list Z) : option A :=
  match Decode body with Some (v, rest) => if forallb json_space rest then Some v else None | None => None end.

Inductive ai_reply :=
| AIError (status : Z) | AIRetryAfter (seconds : Z)
| AICreated (r : AITransactionResult) | AIAnalysis (resp : AnalysisResponse).
Definition reply_status (r : ai_reply) : Z := match r with AIError n => n | AIRetryAfter _ => 429 | AICreated _ => 201 | AIAnalysis _ => 200 end.

(** The readings of the clock while a request is handled. *)
Record ai_clock := AIClock { t_validate : Z; t_scope : Z; t_identity : Z; t_insert : Z; t_done : Z }.
(** A request as the handlers read it. *)
Record ai_body := AIBody { b_Method : string; b_IdempotencyKey : list string; b_Body : list Z }.
(** The ways the ten seconds of an analysis end early. *)
Inductive ai_context := Live | DeadlineExceeded | Canceled.

Section Handlers.
Context {text_lib : HttpText} {zone : Location}.
Context (DecodeConfig Decode : list Z → option (Z * Z * string)).
Context (date_text datetime : Z → string) (sort_Slice : (nat → Z) → list nat → list nat) (Unmarshal : list Z → option (string * Z)).
Context (DecodeTransaction : list Z → option (TransactionRequest * list Z)) (DecodeAnalysis : list Z → option (AnalysisRequest * list Z)).

Definition identity_of (k : ai_clock) (c : Credential) (keyHash : list Z) (req : TransactionRequest) : AITransactionIdentity :=
  Identity (AiCredentials.ID c) keyHash (canonicalAITransactionDigest req) (c_MaxTransactionsPerDay c) (t_identity k).

Definition ai_error (e : aierr) : ai_reply :=
  match e with
  | ErrAIIdempotencyConflict => AIError 409
  | AIDailyQuotaExceeded n => AIRetryAfter n
  | _ => AIError 400
  end.

Definition handleAITransactions (k : ai_clock) (r : ai_body) (credential : option Credential) (s : aiRequestAuditScope) (db : aidb)
    : ai_reply * aiRequestAuditScope * aidb :=
  if negb (bool_decide (b_Method r = "POST")) then (AIError 405, s, db)
  else match credential with
  | None => (AIError 401, s, db)
  | Some c =>
    match decodeStrictAIJSON DecodeTransaction (b_Body r) with
    | None => (AIError 400, s, db)
    | Some req =>
      match normalizeAndValidateAITransaction req (t_validate k) with
      | Err _ => (AIError 400, s, db)
      | Ok req =>
        if negb (AllowsAccount c (req_account req)) then (AIError 403, s, db)
        else
          let s := RecordAIRequestAudit (req_account req) (req_date req) (req_date req) false false None None (t_scope k) s in
          match validateAITransactionReferences req c (ai_ledger db) with
          | Err e => (AIError (match e with errAITagNotAllowed => 403 | _ => 400 end), s, db)
          | Ok req =>
            match aiIdempotencyKeyHash (b_IdempotencyKey r) with
            | Err _ => (AIError 400, s, db)
            | Ok keyHash =>
              match AddAITransaction DecodeConfig Decode (t_insert k) req (identity_of k c keyHash req) db with
              | (Err e, db) => (ai_error e, s, db)
              | (Ok result, db) =>
                let s := RecordAIRequestAudit (req_account req) (req_date req) (req_date req) false false None (Some 1) (t_done k) s in
                let s := if Replayed result then RecordAIIdempotencyReplay s else s in
                (AICreated result, s, db)
              end
            end
          end
      end
    end
  end.

Definition handleAIAnalysis (k : ai_clock) (ctx : ai_context) (r : ai_body) (credential : option Credential) (s : aiRequestAuditScope) (db : aidb)
    : ai_reply * aiRequestAuditScope * aidb :=
  if negb (bool_decide (b_Method r = "POST")) then (AIError 405, s, db)
  else match credential with
  | None => (AIError 401, s, db)
  | Some c =>
    match decodeStrictAIJSON DecodeAnalysis (b_Body r) with
    | None => (AIError 400, s, db)
    | Some req =>
      match validateAndScopeAIAnalysis req (Some c) (t_validate k) with
      | Err e => (AIError (scope_status e), s, db)
      | Ok req =>
        let s := RecordAIRequestAudit (an_Account req) (an_StartDate req) (an_EndDate req) (an_IncludeTransactions req) (an_IncludeMemo req) None None (t_scope k) s in
        match ctx with
        | DeadlineExceeded => (AIError 504, s, db)
        | Canceled => (AIError 408, s, db)
        | Live =>
          match AnalyzeTransactions date_text datetime sort_Slice Unmarshal req (ai_ledger db) with
          | Err _ => (AIError 500, s, db)
          | Ok resp =>
            (AIAnalysis resp,
             RecordAIRequestAudit (an_Account req) (an_StartDate req) (an_EndDate req) (an_IncludeTransactions req) (an_IncludeMemo req)
               (Some (ar_Count resp)) (Some (ar_ReturnedCount resp)) (t_done k) s, db)
          end
        end
      end
    end
  end.

(** The routes of [NewAIRouter]; what the application shows of a reply is kept beside it. *)
Definition ai_mux (path : string) (k : ai_clock) (ctx : ai_context) (r : ai_body) (c : Credential) (s : aiRequestAuditScope) (app : aidb * option ai_reply)
    : (list response_op * aiRequestAuditScope) * (aidb * option ai_reply) :=
  let '(reply, s, db) :=
    if bool_decide (path = "/api/v1/ai/transactions") then handleAITransactions k r (Some c) s app.1
    else if bool_decide (path = "/api/v1/ai/analysis") then handleAIAnalysis k ctx r (Some c) s app.1
    else (AIError 404, s, app.1) in
  (([WriteHeader (reply_status reply); WriteBody], s), (db, Some reply)).
(** Outside its prefix the gate passes requests on; no route matches, so the multiplexer answers
    them itself, with not found or a redirect to the cleaned path. *)
Definition ai_elsewhere (app : aidb * option ai_reply) : aidb * option ai_reply := app.
Definition AIRouter (store : option Store) (auditStore : option (option snapshotData)) (x : ai_around) (k : ai_clock) (ctx : ai_context) (r : ai_request)
    (keys : list string) (body : list Z) (s : shared) (db : aidb) : ai_outcome * shared * (aidb * option ai_reply) :=
  AIAPIMiddleware (ai_mux (g_Path r) k ctx (AIBody (g_Method r) keys body)) ai_elsewhere store auditStore x r s (db, None).
End Handlers.

(** * The digest determines the request *)
Definition fits (l : list Z) : Prop := Z.of_nat (length l) < 2 ^ 64.
Lemma fits_app l1 l2 : fits (l1 ++ l2) → fits l1 ∧ fits l2.
Proof. unfold fits. rewrite length_app. lia. Qed.
Lemma canonical_word_inj v1 v2 t1 t2 : 0 <= v1 < 2 ^ 64 → 0 <= v2 < 2 ^ 64 → writeCanonicalUint64 v1 ++ t1 = writeCanonicalUint64 v2 ++ t2 → v1 = v2 ∧ t1 = t2.
Proof.
  intros H1 H2 [E ->]%app_inj_1; [|unfold writeCanonicalUint64, be64; by rewrite !frame_bytes_length]. split; [|done].
  apply frame_bytes_inj in E; change (256 ^ Z.of_nat 8) with (2 ^ 64); lia.
Qed.
Lemma canonical_string_inj s1 s2 t1 t2 : fits (writeCanonicalString s1 ++ t1) → fits (writeCanonicalString s2 ++ t2) →
  writeCanonicalString s1 ++ t1 = writeCanonicalString s2 ++ t2 → s1 = s2 ∧ t1 = t2 ∧ fits t1 ∧ fits t2.
Proof.
  unfold writeCanonicalString. intros F1 F2. rewrite <-!app_assoc in *. apply fits_app in F1 as [_ F1], F2 as [_ F2].
  assert (len s1 < 2 ^ 64 ∧ len s2 < 2 ^ 64) as [L1 L2] by (apply fits_app in F1 as [? _], F2 as [? _]; done).
  intros [El E]%canonical_word_inj; [|split; [apply len_nonneg|done]..]. apply app_inj_1 in E as [Es Et]; [|unfold len in El; lia].
  apply fits_app in F1 as [_ ?], F2 as [_ ?]. split_and!; [by apply bytes_inj|done..].
Qed.
Lemma dec_inj a b : 0 <= a → 0 <= b → dec a = dec b → a = b.
Proof. intros Ha Hb E. destruct (dec_spec _ Ha) as (<- & _), (dec_spec _ Hb) as (<- & _). by rewrite E. Qed.
Lemma FormatInt_inj a b : FormatInt a = FormatInt b → a = b.
Proof.
  assert (∀ n, 0 <= n → ∃ d l, dec n = d :: l ∧ d ≠ 45) as Hd.
  { intros n Hn. destruct (dec_spec _ Hn) as (_ & Hf & Hne). destruct (dec n) as [|d l]; [done|]. exists d, l. split; [done|]. cbn in Hf.
    apply andb_true_iff in Hf as [Hf _]. unfold between in Hf. lia. }
  assert (∀ n, bytes (FormatInt n) = if n <? 0 then 45 :: dec (- n) else dec n) as Hb.
  { intros n. unfold FormatInt. apply bytes_of_bytes. destruct (Z.ltb_spec n 0).
    - apply Forall_cons. split; [unfold is_byte; lia|]. destruct (dec_bytes (- n)) as (_ & Hf & _); [lia|]. eapply Forall_impl; [exact Hf|]. unfold is_byte. cbn. lia.
    - destruct (dec_bytes n) as (_ & Hf & _); [lia|]. eapply Forall_impl; [exact Hf|]. unfold is_byte. cbn. lia. }
  intros E%(f_equal bytes). rewrite !Hb in E. destruct (Z.ltb_spec a 0), (Z.ltb_spec b 0).
  - injection E as E. apply dec_inj in E; lia.
  - destruct (Hd b) as (d & l & Hl & Hne); [lia|]. rewrite Hl in E. congruence.
  - destruct (Hd a) as (d & l & Hl & Hne); [lia|]. rewrite Hl in E. congruence.
  - apply dec_inj in E; lia.
Qed.
Lemma canonical_ints_inj l1 : ∀ l2 t1 t2, length l1 = length l2 → fits ((l1 ≫= writeCanonicalInt64) ++ t1) → fits ((l2 ≫= writeCanonicalInt64) ++ t2) →
  (l1 ≫= writeCanonicalInt64) ++ t1 = (l2 ≫= writeCanonicalInt64) ++ t2 → l1 = l2 ∧ t1 = t2.
Proof.
  induction l1 as [|x l1 IH]; intros [|y l2] t1 t2 Hl F1 F2 E; [by split|discriminate Hl|discriminate Hl|]. cbn [mbind list_bind] in *. rewrite <-!app_assoc in *.
  destruct (canonical_string_inj (FormatInt x) (FormatInt y) _ _ F1 F2 E) as (Hx & E' & F1' & F2'). apply FormatInt_inj in Hx as ->. injection Hl as Hl.
  destruct (IH _ _ _ Hl F1' F2' E') as [-> ->]. done.
Qed.
(** A map that is injective on two lists reflects permutations between them. *)
Lemma fmap_perm_inj {A B} (f : A → B) l1 : ∀ l2, (∀ x y, x ∈ l1 → y ∈ l2 → f x = f y → x = y) → f <$> l1 ≡ₚ f <$> l2 → l1 ≡ₚ l2.
Proof.
  induction l1 as [|x l1 IH]; intros l2 Hf Hp; cbn [fmap list_fmap] in Hp.
  - apply Permutation_nil_l in Hp. destruct l2; [done|discriminate Hp].
  - assert (f x ∈ f <$> l2) as (y & Hy & Hin)%list_elem_of_fmap by (rewrite <-Hp; by left).
    assert (x = y) as <- by (apply Hf; [by left|done|done]). apply elem_of_Permutation in Hin as [l2' Hl2]. rewrite Hl2 in Hp |- *. cbn [fmap list_fmap] in Hp.
    apply Permutation_cons_inv in Hp. f_equiv. apply IH; [|done]. intros a b Ha Hb. apply Hf; [by right|]. rewrite Hl2. by right.
Qed.
#[local] Instance digest_total : Total digest_le. Proof. intros a b. apply lex_le_total. Qed.
#[local] Instance digest_trans : Transitive digest_le. Proof. intros a b c. apply lex_le_trans. Qed.
#[local] Instance digest_antisym : AntiSymm (=) digest_le. Proof. intros a b. apply lex_le_antisym. Qed.

Section DigestExact.
Context {text_lib : HttpText}.
Definition texts (req : TransactionRequest) : list (list Z) := canonical_text req :: (image_text <$> req_images req).
Definition collision (l : list (list Z)) : Prop := ∃ a b, a ∈ l ∧ b ∈ l ∧ a ≠ b ∧ Sum256 a = Sum256 b.
(** The same write, up to the order of its tags and images and to the spelling of a file. *)
Record same_write (r1 r2 : TransactionRequest) : Prop := {
  sw_fields : (req_account r1, req_date r1, req_time r1, req_item r1, req_type r1, req_amount r1, req_memo r1) =
              (req_account r2, req_date r2, req_time r2, req_item r2, req_type r2, req_amount r2, req_memo r2);
  sw_tags : req_tags r1 ≡ₚ req_tags r2;
  sw_images : canonical_image <$> req_images r1 ≡ₚ canonical_image <$> req_images r2
}.

Definition text_of_image (i : string * string * string) : list Z :=
  writeCanonicalString "omni-money/ai-transaction-image/v1" ++ writeCanonicalString i.1.1 ++ writeCanonicalString i.1.2 ++ writeCanonicalString i.2.
Lemma image_text_of i : image_text i = text_of_image (canonical_image i).
Proof. unfold image_text. by destruct (canonical_image i) as [[f m] d]. Qed.
Lemma text_of_image_inj i1 i2 : fits (text_of_image i1) → fits (text_of_image i2) → text_of_image i1 = text_of_image i2 → i1 = i2.
Proof.
  destruct i1 as [[f1 m1] d1], i2 as [[f2 m2] d2]. unfold text_of_image. cbn [fst snd]. intros F1 F2 E.
  destruct (canonical_string_inj _ _ _ _ F1 F2 E) as (_ & E1 & G1 & G2). destruct (canonical_string_inj _ _ _ _ G1 G2 E1) as (-> & E2 & H1 & H2).
  destruct (canonical_string_inj _ _ _ _ H1 H2 E2) as (-> & E3 & I1 & I2).
  rewrite <-(app_nil_r (writeCanonicalString d1)) in E3, I1. rewrite <-(app_nil_r (writeCanonicalString d2)) in E3, I2.
  by destruct (canonical_string_inj _ _ _ _ I1 I2 E3) as (-> & _).
Qed.
Lemma digest_images r : (λ i, Sum256 (image_text i)) <$> req_images r = Sum256 <$> (text_of_image <$> (canonical_image <$> req_images r)).
Proof. rewrite <-!list_fmap_compose. apply list_fmap_ext. intros k i _. unfold compose. by rewrite image_text_of. Qed.

Lemma sorted_perm_eq {A} (R : relation A) `{!RelDecision R, !Transitive R, !Total R, !AntiSymm (=) R} l1 l2 : l1 ≡ₚ l2 → merge_sort R l1 = merge_sort R l2.
Proof.
  intros Hp. apply (Sorted_unique R); [by apply Sorted_merge_sort..|]. by rewrite !merge_sort_Permutation.
Qed.
Lemma same_write_text r1 r2 : same_write r1 r2 → canonical_text r1 = canonical_text r2.
Proof.
  intros [[= E1 E2 E3 E4 E5 E6 E7] Ht Hi]. unfold canonical_text. rewrite E1, E2, E3, E4, E5, E6, E7, !digest_images.
  rewrite (sorted_perm_eq Z.le _ _ Ht). by rewrite (sorted_perm_eq digest_le (Sum256 <$> (text_of_image <$> (canonical_image <$> req_images r1)))
    (Sum256 <$> (text_of_image <$> (canonical_image <$> req_images r2)))) by (by rewrite Hi).
Qed.
Lemma texts_fit r t : Forall fits (texts r) → t ∈ text_of_image <$> (canonical_image <$> req_images r) → fits t ∧ t ∈ texts r.
Proof.
  intros Hf Ht. assert (t ∈ texts r) as Hin; [|split; [by eapply Forall_forall in Hf|done]]. right. rewrite <-list_fmap_compose in Ht.
  apply list_elem_of_fmap in Ht as (i & -> & Hi). unfold compose. rewrite <-image_text_of. by apply list_elem_of_fmap_2.
Qed.
Lemma ints_length l : (length l <= length (l ≫= writeCanonicalInt64))%nat.
Proof.
  induction l as [|x l IH]; [done|]. cbn [mbind list_bind length] in *. rewrite length_app.
  assert (1 <= length (writeCanonicalInt64 x))%nat; [|lia]. unfold writeCanonicalInt64, writeCanonicalString, writeCanonicalUint64, be64. rewrite length_app, frame_bytes_length. lia.
Qed.
Lemma digests_length (l : list (list Z)) : Forall (λ d, length d = 32%nat) l → (length l <= length (concat l))%nat.
Proof. induction 1 as [|d l Hd _ IH]; [done|]. cbn [concat length]. rewrite length_app. lia. Qed.
(** The two counted lists at the end of the text. *)
Lemma counted_inj t1 t2 d1 d2 : Forall (λ d, length d = 32%nat) d1 → Forall (λ d, length d = 32%nat) d2 →
  let text t d := writeCanonicalUint64 (Z.of_nat (length t)) ++ (t ≫= writeCanonicalInt64) ++ writeCanonicalUint64 (Z.of_nat (length d)) ++ concat d in
  fits (text t1 d1) → fits (text t2 d2) → text t1 d1 = text t2 d2 → t1 = t2 ∧ d1 = d2.
Proof.
  intros D1 D2 text F1 F2 E. unfold text in E, F1, F2. apply fits_app in F1 as [_ F1], F2 as [_ F2].
  destruct (fits_app _ _ F1) as [L1 M1], (fits_app _ _ F2) as [L2 M2]. unfold fits in L1, L2.
  pose proof (ints_length t1). pose proof (ints_length t2). apply canonical_word_inj in E as [El E]; [|lia..]. apply Nat2Z.inj in El.
  apply canonical_ints_inj in E as [-> E]; [|exact El|exact F1|exact F2]. split; [reflexivity|].
  apply fits_app in M1 as [_ M1], M2 as [_ M2]. unfold fits in M1, M2. pose proof (digests_length _ D1). pose proof (digests_length _ D2).
  apply canonical_word_inj in E as [_ E]; [|lia..]. by apply (concat_inj 32) in E; [|lia|..].
Qed.
Lemma sum256_all (l : list (list Z)) : Forall (λ d, length d = 32%nat) (Sum256 <$> l).
Proof. apply Forall_fmap, Forall_true. intros x. apply Sum256_length. Qed.
Lemma no_collision_perm r1 r2 : Forall fits (texts r1) → Forall fits (texts r2) →
  Sum256 <$> (text_of_image <$> (canonical_image <$> req_images r1)) ≡ₚ Sum256 <$> (text_of_image <$> (canonical_image <$> req_images r2)) →
  canonical_image <$> req_images r1 ≡ₚ canonical_image <$> req_images r2 ∨ collision (texts r1 ++ texts r2).
Proof.
  intros F1 F2 Hp. destruct (decide (Exists (λ a, Exists (λ b, a ≠ b ∧ Sum256 a = Sum256 b) (texts r1 ++ texts r2)) (texts r1 ++ texts r2))) as [Hc|Hc].
  { right. apply Exists_exists in Hc as (a & Ha & (b & Hb & Hne & Hs)%Exists_exists). by exists a, b. }
  left. apply (fmap_perm_inj text_of_image).
  { intros i j Hi Hj. apply text_of_image_inj; [eapply (texts_fit r1); [exact F1|]|eapply (texts_fit r2); [exact F2|]]; by apply list_elem_of_fmap_2. }
  apply (fmap_perm_inj Sum256); [|exact Hp]. intros a b Ha Hb Hs. destruct (decide (a = b)) as [|Hne]; [done|]. destruct Hc. apply Exists_exists. exists a.
  split; [apply elem_of_app; left; by eapply texts_fit|]. apply Exists_exists. exists b. split; [apply elem_of_app; right; by eapply texts_fit|done].
Qed.
(** Equal texts name the same write, unless two of the images collide. *)
Lemma text_same_write r1 r2 : Forall fits (texts r1) → Forall fits (texts r2) → canonical_text r1 = canonical_text r2 →
  same_write r1 r2 ∨ collision (texts r1 ++ texts r2).
Proof.
  intros F1 F2 E. pose proof (Forall_inv F1) as G1. pose proof (Forall_inv F2) as G2. unfold canonical_text in E, G1, G2.
  destruct (canonical_string_inj _ _ _ _ G1 G2 E) as (_ & E1 & G3 & G4). clear E G1 G2.
  destruct (canonical_string_inj _ _ _ _ G3 G4 E1) as (Ha & E2 & G1 & G2). clear E1 G3 G4.
  destruct (canonical_string_inj _ _ _ _ G1 G2 E2) as (Hd & E1 & G3 & G4). clear E2 G1 G2.
  destruct (canonical_string_inj _ _ _ _ G3 G4 E1) as (Ht & E2 & G1 & G2). clear E1 G3 G4.
  destruct (canonical_string_inj _ _ _ _ G1 G2 E2) as (Hi & E1 & G3 & G4). clear E2 G1 G2.
  destruct (canonical_string_inj _ _ _ _ G3 G4 E1) as (Hy & E2 & G1 & G2). clear E1 G3 G4.
  destruct (canonical_string_inj (FormatInt (req_amount r1)) (FormatInt (req_amount r2)) _ _ G1 G2 E2) as (Hm%FormatInt_inj & E1 & G3 & G4). clear E2 G1 G2.
  destruct (canonical_string_inj _ _ _ _ G3 G4 E1) as (Ho & E2 & G1 & G2). clear E1 G3 G4.
  rewrite (digest_images r1) in E2, G1. rewrite (digest_images r2) in E2, G2.
  assert (∀ l, Forall (λ d, length d = 32%nat) (merge_sort digest_le (Sum256 <$> l))) as Hs by (intros l; rewrite merge_sort_Permutation; apply sum256_all).
  destruct (counted_inj _ _ _ _ (Hs _) (Hs _) G1 G2 E2) as [Htags Hdig].
  assert (Sum256 <$> (text_of_image <$> (canonical_image <$> req_images r1)) ≡ₚ Sum256 <$> (text_of_image <$> (canonical_image <$> req_images r2))) as Hp.
  { rewrite <-(merge_sort_Permutation digest_le), Hdig. apply merge_sort_Permutation. }
  destruct (no_collision_perm _ _ F1 F2 Hp) as [Himg|]; [left|by right]. split; [congruence| |exact Himg].
  rewrite <-(merge_sort_Permutation Z.le (req_tags r1)), Htags. apply merge_sort_Permutation.
Qed.

(** C40. The digest of an AI write identifies it. Two requests that are the same write, up to
    the order of their tags and images, have the same digest; and two requests with the
    same digest are the same write, field by field, unless two of the texts hashed for them
    are a collision of SHA-256. A retry is therefore recognised however its JSON was
    written, and a different write is never taken for a retry. *)
Theorem ai_digest_exact r1 r2 : Forall fits (texts r1) → Forall fits (texts r2) →
  (same_write r1 r2 → canonicalAITransactionDigest r1 = canonicalAITransactionDigest r2) ∧
  (canonicalAITransactionDigest r1 = canonicalAITransactionDigest r2 → same_write r1 r2 ∨ collision (texts r1 ++ texts r2)).
Proof.
  intros F1 F2. unfold canonicalAITransactionDigest. split; [intros H; by rewrite (same_write_text _ _ H)|]. intros E.
  destruct (decide (canonical_text r1 = canonical_text r2)) as [Ht|Hne]; [by apply text_same_write|]. right.
  exists (canonical_text r1), (canonical_text r2). split_and!; [by left|apply elem_of_app; right; by left|exact Hne|exact E].
Qed.
End DigestExact.

(** * What the input boundary admits *)
Ltac ok_steps := repeat match goal with
  | H : (ensure _ _ ≫= _) = Ok _ |- _ => apply res_bind_Ok_inv in H as ([] & ?%ensure_Ok & H)
  | H : (_ ≫= _) = Ok _ |- _ => apply res_bind_Ok_inv in H as (? & ? & H)
  end.

Lemma getnum_app l k f v r : getnum l f = Some (v, r) → (f = true ∨ r ≠ []) → getnum (l ++ k) f = Some (v, r ++ k) ∧ 0 <= v.
Proof.
  destruct l as [|a [|b l]]; cbn; [done|..].
  - destruct (is_digit a) eqn:Ha; [|done]. cbn. destruct f; [done|]. intros [= <- <-] [|]; done.
  - unfold is_digit, between. destruct (_ && _) eqn:Ha; [|done]. cbn. destruct ((48 <=? b) && _) eqn:Hb; [intros [= <- <-] _; split; [done|lia]|].
    destruct f; [done|]. intros [= <- <-] _. split; [done|lia].
Qed.
Lemma get_ymd_app l k y m d r : get_ymd l = Some (y, m, d, r) → get_ymd (l ++ k) = Some (y, m, d, r ++ k).
Proof.
  unfold get_ymd. destruct l as [|a1 [|a2 [|a3 [|a4 l]]]]; try done. cbn [get_year app]. destruct (_ && _ && _ && _); [|done]. cbn [mbind option_bind].
  destruct l as [|h1 l]; [done|]. cbn [literal app]. destruct (h1 =? 45); [|done]. cbn [mbind option_bind Z.eqb Pos.eqb].
  destruct (getnum l true) as [[v1 l1]|] eqn:E1; [|done]. destruct (getnum_app _ k _ _ _ E1 ltac:(by left)) as [-> _]. cbn [mbind option_bind].
  destruct (in_range ((1 <=? v1) && (v1 <=? 12))); [|done]. cbn [mbind option_bind]. destruct l1 as [|h2 l1]; [done|]. cbn [literal app].
  destruct (h2 =? 45); [|done]. cbn [mbind option_bind Z.eqb Pos.eqb]. destruct (getnum l1 true) as [[v2 l2]|] eqn:E2; [|done].
  destruct (getnum_app _ k _ _ _ E2 ltac:(by left)) as [-> _]. cbn [mbind option_bind]. by intros [= <- <- <- <-].
Qed.
Lemma get_hm_range l h mi r : get_hm l = Some (h, mi, r) → 0 <= h < 24 ∧ 0 <= mi < 60.
Proof.
  assert (∀ l f v r, getnum l f = Some (v, r) → 0 <= v) as Hn.
  { intros l0 f v r0. destruct l0 as [|a [|b l0]]; cbn; [done|..]; unfold is_digit, between; destruct (_ && _) eqn:Ha; try done; cbn.
    - destruct f; [done|]. intros [= <- _]. lia.
    - destruct ((48 <=? b) && _) eqn:Hb; [intros [= <- _]; lia|]. destruct f; [done|]. intros [= <- _]. lia. }
  unfold get_hm. destruct (getnum l false) as [[v1 l1]|] eqn:E1; [|done]. cbn [mbind option_bind]. unfold in_range at 1. destruct (Z.ltb_spec v1 24); [|done].
  cbn [mbind option_bind]. destruct (literal 58 l1) as [l2|]; [|done]. cbn [mbind option_bind]. destruct (getnum l2 true) as [[v2 l3]|] eqn:E2; [|done].
  cbn [mbind option_bind]. unfold in_range. destruct (Z.ltb_spec v2 60); [|done]. cbn [mbind option_bind]. intros [= <- <- <-]. apply Hn in E1, E2. lia.
Qed.
Lemma go_date_day y m d h mi : 0 <= h < 24 → 0 <= mi < 60 → go_date y m d h mi 0 0 / day = unix_days y m d.
Proof. intros Hh Hm. unfold go_date, day, hour, minute, second. generalize (unix_days y m d). intros u. Z.div_mod_to_equations; lia. Qed.
Lemma finish_Some y m d h mi s ns r t : finish y m d h mi s ns r = Some t → r = [] ∧ t = go_date y m d h mi s ns.
Proof.
  unfold finish, in_range. case_bool_decide; [|done]. cbn [mbind option_bind]. destruct (_ && _); [|done]. cbn [mbind option_bind]. by intros [= <-].
Qed.
(** The boundary and the core read the same day. *)
Lemma stored_day d t z date : parse_day d = Some z → parseTransactionDate d t = Ok date → date / day = z.
Proof.
  unfold parse_day. destruct (get_ymd (bytes d)) as [[[[y m] dd] r]|] eqn:E; [|done]. cbn [mbind option_bind].
  destruct (finish y m dd 0 0 0 0 r) as [u|] eqn:Ef; [|done]. cbn [mbind option_bind]. intros [= <-]. apply finish_Some in Ef as [-> _].
  unfold parseTransactionDate. destruct (negb _).
  - unfold parse_date_hm. rewrite (get_ymd_app _ (32 :: bytes t) _ _ _ _ E). cbn [app mbind option_bind literal Z.eqb Pos.eqb].
    destruct (get_hm (cutspace (bytes t))) as [[[h mi] r]|] eqn:Eh; [|done]. cbn [mbind option_bind].
    destruct (finish y m dd h mi 0 0 r) as [u'|] eqn:Ef; [|done]. intros [= <-]. apply finish_Some in Ef as [_ ->]. apply get_hm_range in Eh as []. by apply go_date_day.
  - unfold parse_date. rewrite E. cbn [mbind option_bind]. destruct (finish y m dd 0 0 0 0 []) as [u'|] eqn:Ef; [|done]. intros [= <-].
    apply finish_Some in Ef as [_ ->]. by apply go_date_day.
Qed.

Section Admissions.
Context {text_lib : HttpText} {zone : Location}.
(** From a year before today, normalised as [AddDate] does, to two days after it. *)
Definition in_window (now z : Z) : Prop :=
  let '(y, m, d) := civil (reading now / day) in unix_days (y - 1) m d <= z <= reading now / day + 2.

Context {zone_laws : LocationLaws}.
Lemma midnight_le d e : time_Date (d * day) <= time_Date (e * day) → d <= e.
Proof. intros H. destruct (Z.le_gt_cases d e) as [|Hlt]; [done|]. pose proof (midnight_mono _ _ Hlt). lia. Qed.
Lemma AddDate_today years days now y m d : civil (reading now / day) = (y, m, d) →
  AddDate years days (today now) = time_Date (unix_days (y + years) m (d + days) * day).
Proof.
  intros E. unfold AddDate, today. rewrite midnight_read, Z.div_mul by done. rewrite E. rewrite Z.mod_mul by done. by rewrite Z.add_0_r.
Qed.

Record admitted_write (now : Z) (req : TransactionRequest) : Prop := {
  aw_type : req_type req = "income" ∨ req_type req = "expense";
  aw_amount : 1 <= req_amount req <= MaxTransactionAmount;
  aw_date : ∃ z, parse_day (req_date req) = Some z ∧ in_window now z
}.
Lemma normalize_admits req now req' : normalizeAndValidateAITransaction req now = Ok req' → admitted_write now req'.
Proof.
  unfold normalizeAndValidateAITransaction. cbv zeta. intros H. ok_steps.
  destruct (ValidateTransactionAmount _) as [[]|] eqn:Ha; [|done]. unfold parse_in_location in H. destruct (parse_day _) as [z|] eqn:Hz; [|done].
  cbn [fmap option_fmap option_map] in H. ok_steps. injection H as <-. split.
  - match goal with H : bool_decide (_ = "income") || _ = true |- _ => apply orb_true_iff in H as [H%bool_decide_eq_true|H%bool_decide_eq_true]; auto end.
  - by apply ValidateTransactionAmount_Ok.
  - exists z. split; [done|]. unfold in_window. destruct (civil (reading now / day)) as [[y m] d] eqn:Ec.
    match goal with H : negb ((_ <? _) || (_ <? _)) = true |- _ => rename H into Hw end. apply negb_true_iff, orb_false_iff in Hw as [Hw1%Z.ltb_ge Hw2%Z.ltb_ge].
    rewrite (AddDate_today _ _ _ _ _ _ Ec) in Hw1. rewrite (AddDate_today _ _ _ _ _ _ Ec) in Hw2. apply midnight_le in Hw1, Hw2. rewrite Z.add_0_r in Hw1, Hw2.
    destruct (civil_spec _ _ _ _ Ec) as [Hu _]. split; [exact Hw1|]. rewrite <-Hu. unfold unix_days in *. lia.
Qed.

Lemma unique_allowed_Ok c ids : ∀ seen acc out, unique_allowed c ids seen acc = Ok out →
  (∀ g, g ∈ seen ↔ g ∈ acc) → NoDup acc → Forall (λ g, AllowsTag c g = true) acc → NoDup out ∧ Forall (λ g, AllowsTag c g = true) out.
Proof.
  induction ids as [|g ids IH]; intros seen acc out; cbn [unique_allowed]; [by intros [= <-]|]. destruct (g <=? 0); [done|].
  destruct (AllowsTag c g) eqn:Ha; cbn [negb]; [|done]. case_bool_decide as Hg; [apply IH|]. intros H Hs Hn Hf. eapply IH; [exact H|..].
  - intros g'. rewrite elem_of_union, elem_of_singleton, Hs, elem_of_app, list_elem_of_singleton. tauto.
  - apply NoDup_app. split_and!; [done|by intros x Hx ->%list_elem_of_singleton; apply Hg, Hs|by constructor; [apply not_elem_of_nil|constructor]].
  - apply Forall_app. by split; [|constructor].
Qed.
Lemma count_tags_all ids db : NoDup ids → count_tags ids db = length ids → Forall (λ g, g ∈ dom (tags db)) ids.
Proof.
  intros Hn Hc. unfold count_tags in Hc. assert ((list_to_set ids : gset Z) ⊆ dom (tags db) ∩ list_to_set ids) as Hsub.
  { apply reflexive_eq. symmetry. apply set_subseteq_size_eq; [set_solver|]. rewrite Hc, size_list_to_set; done. }
  apply Forall_forall. intros g Hg. assert (g ∈ (list_to_set ids : gset Z)) as Hin by (by apply elem_of_list_to_set). set_solver.
Qed.
Lemma references_admit req c db req' : validateAITransactionReferences req c db = Ok req' →
  req' = with_req_tags (req_tags req') req ∧ req_new_tag_paths req = [] ∧ NoDup (req_tags req') ∧
  Forall (λ g, AllowsTag c g = true ∧ g ∈ dom (tags db)) (req_tags req').
Proof.
  unfold validateAITransactionReferences. intros H. ok_steps. assert (req_new_tag_paths req = []) as Hnew by (by apply bool_decide_eq_true in H0).
  case_bool_decide as Ht.
  - injection H as <-. rewrite Ht. split_and!; [|done|constructor|constructor]. destruct req. cbn in *. by subst.
  - ok_steps. injection H as <-. cbn [with_req_tags req_tags].
    match goal with H : unique_allowed _ _ _ _ = Ok _ |- _ => apply unique_allowed_Ok in H as [Hn Hf]; [|set_solver|constructor|constructor] end.
    match goal with H : Nat.eqb _ _ = true |- _ => apply Nat.eqb_eq in H; pose proof (count_tags_all _ _ Hn H) as Hd end.
    split_and!; [done|done|done|]. rewrite !Forall_forall in *. naive_solver.
Qed.
End Admissions.

(** * What reaches the ledger *)
Section Confined.
Context {text_lib : HttpText} {zone : Location}.
Context (DecodeConfig Decode : list Z → option (Z * Z * string)).
Context (date_text datetime : Z → string) (sort_Slice : (nat → Z) → list nat → list nat) (Unmarshal : list Z → option (string * Z)).
Context (DecodeTransaction : list Z → option (TransactionRequest * list Z)) (DecodeAnalysis : list Z → option (AnalysisRequest * list Z)).
Notation router := (AIRouter DecodeConfig Decode date_text datetime sort_Slice Unmarshal DecodeTransaction DecodeAnalysis).
Notation write := (handleAITransactions DecodeConfig Decode DecodeTransaction).
Notation analyse := (handleAIAnalysis date_text datetime sort_Slice Unmarshal DecodeAnalysis).

(** A credential that opened the gate. *)
Definition authorised (st : Store) (x : ai_around) (r : ai_request) (scope : string) (c : Credential) : Prop :=
  c ∈ AiCredentials.List st ∧ credential_ok c ∧ NotBefore c <= at_auth x < ExpiresAt c ∧ HasScope c scope = true ∧
  ∃ token, bearerToken (g_Authorization r) = Some token ∧ tokenHash c = Sum256 (bytes token).

(** A request changes the data or shows a reply only through one of the two handlers, with an
    authorised credential. *)
Lemma router_cases path rs aks x k ctx r keys body s db o s' db' reply :
  let st := reloads rs (MkStore path None) in
  router (Some st) aks x k ctx r keys body s db = (o, s', (db', reply)) →
  (db' = db ∧ reply = None) ∨
  ∃ c sc sc' rep, o = Reached c (reply_status rep) ∧ reply = Some rep ∧
    ((authorised st x r ScopeTransactionsCreate c ∧ write k (AIBody (g_Method r) keys body) (Some c) sc db = (rep, sc', db')) ∨
     (authorised st x r ScopeAnalysisSummary c ∧ analyse k ctx (AIBody (g_Method r) keys body) (Some c) sc db = (rep, sc', db'))).
Proof.
  intros st E. unfold AIRouter in E. destruct o as [|n reason|c n].
  - apply middleware_unguarded in E as (_ & _ & [= -> ->]). by left.
  - apply middleware_answered in E as [= -> ->]. by left.
  - right. apply middleware_reached in E as (st0 & token & ks & [= <-] & Hk & Hkid & _ & Hb & Ha & Hm & Hs & Hhs & Hr & ops & sc' & l & Hh & Hn & _).
    pose proof (reloads_document path rs) as Hdoc. destruct (proj1 (Authenticate_spec _ _ _ _ Hdoc) Ha) as (_ & Hin & Hth & Hlife).
    pose proof (List_ok _ _ Hdoc Hin) as Hok. unfold ai_mux in Hh. cbn [fst] in Hh. unfold aiRequiredScope in Hs, Hhs.
    exists c, (new_scope ks). repeat case_bool_decide; try done; try congruence.
    + destruct (write _ _ _ _ _) as [[rep sc2] db2] eqn:Ew. injection Hh as <- <- <- <-. exists sc2, rep. split; [by rewrite Hn|]. split; [done|].
      left. split; [|done]. split_and!; try done; try apply Hlife. by exists token.
    + destruct (analyse _ _ _ _ _ _) as [[rep sc2] db2] eqn:Ew. injection Hh as <- <- <- <-. exists sc2, rep. split; [by rewrite Hn|]. split; [done|].
      right. split; [|done]. split_and!; try done; try apply Hlife. by exists token.
Qed.
Lemma analysis_reads k ctx b c sc db rep sc' db' : analyse k ctx b c sc db = (rep, sc', db') → db' = db.
Proof.
  unfold handleAIAnalysis. destruct (negb _); [by intros [= _ _ <-]|]. destruct c as [c|]; [|by intros [= _ _ <-]].
  destruct (decodeStrictAIJSON _ _); [|by intros [= _ _ <-]]. destruct (validateAndScopeAIAnalysis _ _ _); [|by intros [= _ _ <-]].
  destruct ctx; [|by intros [= _ _ <-]..]. by destruct (AnalyzeTransactions _ _ _ _ _ _); intros [= _ _ <-].
Qed.

Context {zone_laws : LocationLaws}.
Lemma write_creates k b c sc db rep sc' db' : ledger_wf (ai_ledger db) → write k b (Some c) sc db = (rep, sc', db') → db' = db ∨
  ∃ req result keyHash, rep = AICreated result ∧ admitted_write (t_validate k) req ∧ AllowsAccount c (req_account req) = true ∧ req_new_tag_paths req = [] ∧
    Forall (λ g, AllowsTag c g = true ∧ g ∈ dom (tags (ai_ledger db))) (req_tags req) ∧ fresh_create req (identity_of k c keyHash req) db result db'.
Proof.
  intros Hwf. unfold handleAITransactions. destruct (negb _); [intros [= _ _ <-]; by left|]. destruct (decodeStrictAIJSON _ _) as [req0|]; [|intros [= _ _ <-]; by left].
  destruct (normalizeAndValidateAITransaction req0 _) as [req1|] eqn:Hn; [|intros [= _ _ <-]; by left]. destruct (AllowsAccount c _) eqn:Hacc; cbn [negb]; [|intros [= _ _ <-]; by left].
  destruct (validateAITransactionReferences _ _ _) as [req|] eqn:Hr; [|intros [= _ _ <-]; by left]. destruct (aiIdempotencyKeyHash _) as [keyHash|]; [|intros [= _ _ <-]; by left].
  destruct (AddAITransaction _ _ _ _ _ _) as [[result|e] db1] eqn:Ha; intros [= <- <- <-]; [|left; by eapply AddAITransaction_unchanged].
  pose proof (wp_run _ _ _ _ _ (AddAITransaction_wp _ _ _ _ _ _ Hwf) Ha) as Hp. cbv beta in Hp. destruct (Replayed result); [left; by destruct Hp|].
  right. exists req, result, keyHash. apply references_admit in Hr as (Hreq & Hnew & _ & Htags). apply normalize_admits in Hn. rewrite Hreq in Hp |- *. destruct Hn.
  split_and!; [done|by split|done|done|exact Htags|exact Hp].
Qed.

(** C19. What an AI credential can write. Whatever is sent to the AI listener, when the data
    changed at all then the request carried the token of a credential that is in force and
    may create transactions; exactly one transaction was added, to an account the
    credential allows, as an income or expense within the amount limits and dated from a
    year before today to two days after it; no other row changed but for the balances of
    that account; no tag was created and every label added is one the credential allows;
    and the write was counted against the daily quota of the credential, which it kept. *)
Theorem ai_write_confined path rs aks x k ctx r keys body s db o s' db' reply :
  let st := reloads rs (MkStore path None) in
  ledger_wf (ai_ledger db) → router (Some st) aks x k ctx r keys body s db = (o, s', (db', reply)) → db' ≠ db →
  ∃ c n row, o = Reached c 201 ∧ authorised st x r ScopeTransactionsCreate c ∧ ledger_wf (ai_ledger db') ∧
    transactions (ai_ledger db) !! n = None ∧ transactions (ai_ledger db') !! n = Some row ∧
    AllowsAccount c (tx_account row) = true ∧ (tx_type row = "income" ∨ tx_type row = "expense") ∧
    1 <= tx_amount row <= MaxTransactionAmount ∧ in_window (t_validate k) (tx_date row / day) ∧
    (∀ j, j ≠ n → option_Forall2 (row_upto {[tx_account row]}) (transactions (ai_ledger db) !! j) (transactions (ai_ledger db') !! j)) ∧
    tags (ai_ledger db') = tags (ai_ledger db) ∧
    (∀ p, p ∈ transaction_tags (ai_ledger db') → p ∈ transaction_tags (ai_ledger db) ∨ p.1 = n ∧ AllowsTag c p.2 = true) ∧
    used db' (AiCredentials.ID c) (utc_day (t_identity k)) = used db (AiCredentials.ID c) (utc_day (t_identity k)) + 1 ∧
    used db' (AiCredentials.ID c) (utc_day (t_identity k)) <= c_MaxTransactionsPerDay c.
Proof.
  intros st Hwf Hrun Hne. apply router_cases in Hrun as [[-> _]|(c & sc & sc' & rep & -> & -> & [[Hauth Hw]|[_ Hw]])]; [done| |by apply analysis_reads in Hw].
  apply write_creates in Hw as [->|(req & result & keyHash & -> & [Hty Ham (z & Hz & Hwin)] & Hacc & Hnew & Htags & Hf)]; [done| |done].
  destruct (fc_row _ _ _ _ _ Hf) as (date & resp & Hdate & (Hwf' & _ & Hid & row & Hrow & _ & Heq & _ & Hothers) & _). exists c, (resp_id resp), row.
  destruct (fc_labels _ _ _ _ _ Hf Hnew) as [Ht Hl]. pose proof (stored_day _ _ _ _ Hz Hdate) as <-.
  assert (tx_account row = req_account req ∧ tx_date row = date ∧ tx_type row = req_type req ∧ tx_amount row = req_amount req) as (-> & -> & -> & ->) by (by rewrite Heq).
  unfold used. rewrite (fc_usage _ _ _ _ _ Hf). pose proof (fc_quota _ _ _ _ _ Hf) as Hq. cbn [identity_of CredentialID Now AiTransactions.MaxTransactionsPerDay] in Hq |- *.
  rewrite lookup_insert_eq. split_and!; try done; try apply Ham.
  - rewrite Hid. apply tx_fresh, Hwf.
  - intros p Hp. destruct (Hl p Hp) as [|[Hp1 Hg]]; [by left|right]. split; [by rewrite Hid|]. rewrite Forall_forall in Htags. by apply Htags.
  - cbn. lia.
Qed.
End Confined.


Section Scoped.
Context {text_lib : HttpText} {zone : Location}.

Section Details.
Context (date_text datetime : Z → string) (sort_Slice : (nat → Z) → list nat → list nat) (Unmarshal : list Z → option (string * Z)).
End Details.
End Scoped.

Section Shown.
Context {text_lib : HttpText} {zone : Location}.
Context (DecodeConfig Decode : list Z → option (Z * Z * string)).
Context (date_text datetime : Z → string) (sort_Slice : (nat → Z) → list nat → list nat) (Unmarshal : list Z → option (string * Z)).
Context (DecodeTransaction : list Z → option (TransactionRequest * list Z)) (DecodeAnalysis : list Z → option (AnalysisRequest * list Z)).
Notation router := (AIRouter DecodeConfig Decode date_text datetime sort_Slice Unmarshal DecodeTransaction DecodeAnalysis).
Notation analyse := (handleAIAnalysis date_text datetime sort_Slice Unmarshal DecodeAnalysis).


End Shown.

(** * A concrete listener in UTC *)
#[local] Existing Instance AiCredentials.demo_http.
#[local] Instance demo_utc : Location := {| reading t := t; time_Date w := w |}.
#[local] Instance demo_utc_laws : LocationLaws.
Proof. split; [done|]. intros d e H. change (d * day < e * day). unfold day, hour, minute, second. lia. Qed.
Definition demo_agent : Credential :=
  UnmarshalJSON (Wire "agent-2" (AiCredentials.HashToken demo_token) 0 (30 * 24 * Session.Hour)
    [ScopeAnalysisSummary; ScopeAnalysisTransactions; ScopeTransactionsCreate] ["bank"] [3] 31 50 None "2024-01-01" "2024-12-31").
Definition demo_agents : list reload := [demo_reload [demo_agent]].
Definition demo_agent_store : Store := reloads demo_agents (MkStore "credentials.json" None).
Definition demo_post (path : string) : ai_request := AIRequest "POST" path "192.0.2.7:5000" ("Bearer " +:+ demo_token) "" None.
Definition demo_time : Z := 19853 * day + 9 * hour.   (** 2024-05-10 *)
Definition demo_clock : ai_clock := AIClock demo_time demo_time demo_time demo_time demo_time.
Definition demo_write (account date item : string) (images : list TransactionImageRequest) : TransactionRequest :=
  Schema.Request account date "9:30" item "Expense" 1200 "" [] [] images [] [] [].
Definition demo_listener (path : string) (req : TransactionRequest) (an : AnalysisRequest) (db : aidb) : ai_outcome * shared * (aidb * option ai_reply) :=
  AIRouter demo_decoder demo_decoder (λ _, "2024-05-10 09:30:00+00:00") (λ _, "2024-05-10 09:30:00") stable_slice demo_unmarshal
    (λ _, Some (req, [10])) (λ _, Some (an, [])) (Some demo_agent_store) (Some demo_keys) (demo_ai_around 7) demo_clock Live (demo_post path)
    ["0123456789abcdef"] [] new_shared db.
Definition demo_period : AnalysisRequest := Analysis "2024-05-01" "2024-05-31" "" [] "" true false 0 "" 0.
Definition demo_written : ai_outcome * shared * (aidb * option ai_reply) :=
  demo_listener "/api/v1/ai/transactions" (demo_write " bank " "2024-05-10" "tea" []) demo_period empty_ai.

Lemma ai_write_confined_witness :
  ∃ c n row, transactions (ai_ledger demo_written.2.1) !! n = Some row ∧ AllowsAccount c (tx_account row) = true ∧ tx_type row = "expense" ∧
    used demo_written.2.1 "agent-2" 19853 = 1.
Proof.
  assert (ledger_wf (ai_ledger empty_ai)) as Hwf by exact ledger_wf_empty.
  assert (tx_seq (ai_ledger demo_written.2.1) = 1) as Hseq by (vm_compute; reflexivity).
  assert (used demo_written.2.1 "agent-2" 19853 = 1) as Hused by (vm_compute; reflexivity).
  assert (((λ x, tx_type x.2) <$> map_to_list (transactions (ai_ledger demo_written.2.1))) = ["expense"]) as Hty by (vm_compute; reflexivity).
  destruct demo_written as [[o s'] [db' reply]] eqn:E. cbn [fst snd] in *. unfold demo_written, demo_listener in E.
  destruct (ai_write_confined demo_decoder demo_decoder _ _ stable_slice demo_unmarshal _ _ "credentials.json" demo_agents (Some demo_keys) (demo_ai_around 7) demo_clock Live
    _ _ _ _ empty_ai _ _ _ _ Hwf E) as (c & n & row & _ & _ & _ & _ & Hrow & Hacc & _).
  { intros ->. vm_compute in Hseq. discriminate Hseq. }
  clear E Hwf Hseq. exists c, n, row. split; [exact Hrow|]. split; [exact Hacc|]. split; [|exact Hused].
  assert ((n, row) ∈ map_to_list (transactions (ai_ledger db'))) as Hin by (apply elem_of_map_to_list; exact Hrow).
  assert (tx_type row ∈ ((λ x, tx_type x.2) <$> map_to_list (transactions (ai_ledger db')))) as Hin' by (apply list_elem_of_fmap; exists (n, row); split; [reflexivity|exact Hin]).
  rewrite Hty in Hin'. apply list_elem_of_singleton in Hin'. exact Hin'.
Defined.


(** Two images in another order, one with its type spelled out, are the same write. *)
Definition demo_images : list TransactionImageRequest := [ImageRequest "a.png" "QQ==" ""; ImageRequest "b.gif" "Qg==" "image/gif"].
Definition demo_images' : list TransactionImageRequest := [ImageRequest " b.gif" "Qg==" ""; ImageRequest "a.png" "QQ==" "image/PNG"].
Lemma ai_digest_exact_witness :
  canonicalAITransactionDigest (demo_write "bank" "2024-05-10" "tea" demo_images) = canonicalAITransactionDigest (demo_write "bank" "2024-05-10" "tea" demo_images') ∧
  canonicalAITransactionDigest (demo_write "bank" "2024-05-10" "tea" []) ≠ canonicalAITransactionDigest (demo_write "bank" "2024-05-10" "te" []).
Proof.
  split; [|intros E; vm_compute in E; discriminate E].
  refine (proj1 (ai_digest_exact (demo_write "bank" "2024-05-10" "tea" demo_images) (demo_write "bank" "2024-05-10" "tea" demo_images') _ _) _).
  - repeat constructor; vm_compute; reflexivity.
  - repeat constructor; vm_compute; reflexivity.
  - split; [reflexivity|reflexivity|]. assert (∀ a b : string * string * string, [a; b] ≡ₚ [b; a]) as H by (intros; apply perm_swap). apply H.
Defined.
